(* ===== verification/_CoqProject ===== *)
-Q . S2P
Prelude.v
Lists.v
Coding.v
Slice.v
Comparator.v
Crc32c.v
Hashing.v
Bloom.v
Filename.v
Env.v
DbFormat.v
LogFile.v
Arena.v
SkipList.v
MemTable.v
WriteBatch.v
VersionEdit.v
Version.v
VersionSet.v
Manifest.v
DList.v
Snapshot.v
Cache.v
CacheStore.v
CacheSpec.v
CacheRun.v
CacheAccount.v
CacheLaws.v
CompactionWork.v
Iterators.v
InternalIters.v
Merger.v
TwoLevel.v
DbIter.v
ReadIters.v
Options.v
Block.v
BlockSpec.v
BlockRun.v
Format.v
FilterBlock.v
TableBuilder.v
TableRun.v
Table.v
TableCache.v
DbImpl.v
DbWrite.v
Flush.v
Recover.v
Crash.v
DbGet.v
DbFiles.v
PosixFile.v
PosixEnv.v
PosixLogger.v
Background.v
DbOpen.v
VersionRefs.v
