(* ===== verification/Prelude.v ===== *)
(** * LevelDB: a verification development

    This library models the core of the key-value store under src/ in Rocq and
    proves the properties that make its parts correct.

    ** The program

    A write is a batch of updates (db/write_batch).  Concurrent writers queue up;
    the first appends the batches of a group to a write-ahead log (db/log_writer,
    db/log_reader) and applies them to a memtable (db/memtable), a skip list
    (db/skiplist.h) whose entries live in an arena (util/arena).  A full memtable
    is compacted to a sorted table file (table/).  The set of live files, level by
    level, is a version; versions change by edits (db/version_edit) that are
    logged in a manifest, whose name the file CURRENT holds (db/filename); the
    version set (db/version_set) applies edits, answers reads over the files and
    chooses what to compact.  Tables are opened through a cache (util/cache.cpp,
    db/table_cache).  Opening a database recovers the versions from the manifest
    and the memtables from the logs (db/db_impl).  Keys inside the store are
    internal keys (db/dbformat): user key, sequence number, type.  Everything
    rests on the codings, checksums, comparators and filters of util/, and on the
    environment (leveldb/env.h, util/env_posix.cpp).

    ** The files

    - Prelude (this file): bytes, machine words, little-endian words, decimal
      printing, bitwise facts.  Lists: facts on lists and sorted lists.
    - Coding: util/coding.  Slice: leveldb/slice.h, leveldb/status.h, util/status.cpp.
    - Comparator: leveldb/comparator.h, util/comparator.cpp.
    - Crc32c: util/crc32c.  Hashing: util/hash.cpp, util/random.h.
    - Bloom: leveldb/filter_policy.h, util/bloom.cpp.
    - Filename: util/logging, db/filename.  Env: leveldb/env.h, util/env.cpp, the
      sequential file of util/env_posix.cpp, SetCurrentFile of db/filename.cpp.
      Options: leveldb/options.h, util/options.cpp.
    - PosixFile, PosixEnv: util/env_posix.cpp; PosixLogger: util/posix_logger.h.
    - DbFormat: db/dbformat.  LogFile: db/log_format.h, db/log_writer, db/log_reader.
    - Arena: util/arena.  SkipList: db/skiplist.h.  MemTable: db/memtable.
    - WriteBatch: db/write_batch.  VersionEdit: db/version_edit.
    - Version, VersionSet: db/version_set.  Manifest: its [LogAndApply],
      [WriteSnapshot] and [Recover], and [DBImpl::NewDB].  VersionRefs: its list of
      versions, their reference counts and those of the file metadata they share.
    - DList: circular doubly linked lists in a store, shared by Snapshot
      (db/snapshot.h) and Cache, CacheStore (util/cache.cpp).  CacheSpec is a cache
      without pointers; CacheRun, CacheAccount and CacheLaws relate the two.
    - Block, BlockSpec, BlockRun: table/block_builder.cpp, table/block.cpp.
      Format: table/format.  FilterBlock: table/filter_block.  TableBuilder,
      TableRun: table/table_builder.cpp.  Table: table/table.cpp.  TableCache:
      db/table_cache.cpp.
    - Iterators: leveldb/iterator.h, table/iterator.cpp, table/iterator_wrapper.h.
      InternalIters: the memtable iterator of db/memtable.cpp and the file iterator
      of db/version_set.cpp.  Merger: table/merger.cpp.  TwoLevel:
      table/two_level_iterator.cpp.  DbIter: db/db_iter.cpp.  ReadIters: the
      iterators db/version_set.cpp and db/db_impl.cpp build from them.
    - db/db_impl.cpp is spread over CompactionWork ([DoCompactionWork]), DbImpl and
      DbWrite (the queue of writers), Flush (db/builder.cpp and the compaction of a
      memtable), Recover (logs), Crash (writes and recovery together), DbGet (point
      reads), DbFiles (obsolete files, [DestroyDB], [SanitizeOptions]), Background
      (background compactions) and DbOpen (the constructor, [Open], snapshots).

    Definitions keep the names of the functions they translate; methods of a class
    are in a Module of its name or carry the class as a prefix where names clash.

    ** How the code is modelled

    - A char is a byte, a string or slice the list of its bytes; an integer is a Z
      with its wrap-around written out ([u32], [u64], [s32], [schar]) where the
      code computes with it; a double is an IEEE binary64 of [SpecFloat].
    - State is a record, an operation a function from state to state.  Structures
      that point to one another (skip list, snapshots, cache handles) are a store
      of nodes indexed by address; what [malloc] returns is an argument, assumed
      fresh.  The arena computes with addresses.
    - [None] is undefined behaviour, a failed assertion or exhausted fuel; errors
      the code returns are [Status] values.  Theorems about operations that may
      yield [None] also show that they do not, or when they do.
    - [ReadBlock] and [BlockReader] fall off the end of their bodies once a block
      is read.  The code is their variant [Undefined], in which nothing is
      returned, so that no table can be opened ([Table_Open_built]); the variant
      [AsIntended] of [FallOff] is the code with the missing [return] put in, and
      a theorem that uses it says so.  The parts above table/ are verified against
      interfaces with the documented laws of tables, not against these functions.
    - The checksum of the log and of tables is an interface, [Checksum], because
      the code's own, [Crc32cChecksum], is not a function of the bytes: it depends
      on the address of the buffer, too, and a verifying reader may reject what was
      written ([crc_rejects_intact_record]).  Theorems about reading therefore hold
      for every checksum, with the condition, where the reader verifies, that the
      checksums stored in the file are those it computes in its buffer
      ([log_verifies], a decidable test of the file's bytes).  A checksum of the
      bytes alone ([ChecksumLaws]) always meets it.
    - Concurrent calls of [Write] are cut into segments where the mutex is given
      up; [DBImpl.run] executes a segment, and a relation interleaves the segments
      of all threads, new calls and what other threads may do ([others]).  The
      other parts of the database run under the mutex, one call after the other.
    - What is outside the sources is an interface with its documented laws, and a
      concrete instance that meets them: user comparators ([Comparator],
      [ComparatorLaws], [Bytewise_laws]), filter policies ([FilterPolicyLaws],
      [Bloom_laws]), the file system ([EnvOps], [EnvLaws], [MemEnv]; [EnvDurable]
      and [SyncedEnv] for what a sync makes durable), system calls
      ([MmapOps], [MmapLaws]), the heap ([HeapAlloc], [HeapLaws], [BumpHeap]).
      Interfaces also separate components: [Checksum] the log from the checksum it
      calls, [table_ok] a version from table files, [CacheOps] and [TableOps] the
      table cache from cache and tables.  The routines of the database work on a
      [World]: table files being written, finished and opened again, the log of
      edits, shutdown; [WorldLaws] states what they rely on, [FlushOps],
      [RecoverOps], [BgOps] and [OpenOps] extend it, and [MemWorld] and [BgMem] are
      instances in memory.
    - The virtual interface of iterators is the class [Iterator.Ops]; a [Model]
      relates an iterator to the entries it ranges over and its position, and
      [Iterator.Laws] states what each call does to the position.  Every iterator
      is proved to meet the laws when those it is built from do, so the stack of
      merging, two-level, memtable and file iterators under a database iterator
      is verified by instance resolution.  Iterators over a table file are a
      parameter with these laws.

    ** What the theorems show

    - Log: what is written is read back, across blocks and fragments, by a reader
      that does not verify or whose checksums agree; reader and writer end on any
      input.  That the code's own checksum need not agree, because its byte step is
      wrong, is proved too.
    - Memtable path: insertion keeps the skip list's levels linked and sorted; a
      memtable is a versioned map; applying a batch makes its updates visible;
      iterators and searches follow the sorted sequence of keys; regions handed
      out by an arena are disjoint.
    - Writes: in any interleaving, concurrent writes are a serial history; a point
      read is a read of that history up to its snapshot; as long as the environment
      reports no errors, a crash at any point loses no committed update of a log
      whose checksums verify, because it recovers into tables that hold exactly
      what its memtable held; opening a database logs exactly these tables.  A
      switch of memtables does not start the compaction of the old one, and writers
      then wait for ever ([MakeRoomForWrite_hangs]).
    - Versions: a read returns the newest version over all files; binary searches
      equal the scans; the inputs of a compaction are closed under overlap; the
      builder computes the files its edits describe; the base-level test is exact.
    - Compaction: dropping entries changes no read at or above the oldest
      snapshot; the files a compaction writes hold exactly the entries kept; a
      memtable is written as one table with its entries at a level where nothing
      newer is below it; moving a file a level down changes no read if no other
      file of its level has older data of its keys, and on level 0 it can make a
      read stale ([level0_move_is_stale]).  The list of snapshots keeps the live
      ones in order, so its head is the oldest.  Deleting obsolete files deletes
      nothing that is needed.  Versions, and the metadata of their files, are
      allocated exactly while someone refers to them, and the live files are those
      of the current version and of all versions in use.
    - Tables: a block is read back as the entries added to it, in both directions;
      the file of a finished table leads from its footer to exactly its entries,
      stored as they are, although no [ReadBlock] can return them; filter blocks
      have no false negatives; a table of two blocks cannot be built, and no table
      can be opened, nor, with the missing [return], searched; with it the block
      cache would change nothing an iterator sees; a read through the table cache
      is a read of the table in the named file, for any [Open] of tables.
    - Cache: the sharded cache with its pointers behaves as a cache without them,
      and every entry is finalised once or still live, within the capacity.
    - Iterators: a merging iterator is an iterator over the sorted union of its
      children, through changes of direction; a two-level iterator over the
      concatenation of its blocks; a database iterator moving forward over the
      visible newest values of its snapshot, and backward too if the snapshot sees
      every entry, since otherwise [SeekToLast] may not return.  Composed: a
      database iterator shows what memtables and all levels hold, and the input of
      a compaction is the sorted sequence of its input files.
    - Encodings: varints, internal keys, batches, edits (into a new edit; a used
      one keeps its compaction pointers), file names and masked checksums
      round-trip; decoders are safe on any bytes.
    - Orders and filters: the built-in and the internal key comparator are total
      orders with correct separators; a bloom filter has no false negatives.
    - Manifest: as long as no file operation fails, recovery gives back the
      version, pointers and counters that were logged, if the checksums of the
      manifest verify; under any failures an edit is installed wholly or not at
      all, and so is CURRENT, and an edit reported OK is in a manifest that has been
      synced; recovery from any files installs exactly what the records it reads
      describe, or reports an error and leaves the version alone.
    - Environment: a file written through mappings holds what was appended;
      background items run in order and none is forgotten; a lock is held once; a
      log line is written whole, within its buffer.
    - Defects are theorems of their own: [Extend_byte_step_forgets] (with
      [crc_rejects_intact_record]), [ShouldStopBefore_hangs],
      [TwoLevel_status_undefined], [FindPrevUserEntry_hangs], [SeekToLast_hangs],
      [TableBuilder_second_block_aborts], [Table_Open_built],
      [MakeRoomForWrite_hangs] and [level0_move_is_stale].

    ** Fuel

    Loops that are not structural take fuel, and the theorems show that what the
    operation supplies is enough: a varint has at most 10 bytes; a log record of
    [n] bytes has at most [n + 2] fragments; the reader consumes bytes, a pending
    read error or the end of the file in every pass; a skip list search descends
    at most its height and advances at most once per node; the binary search
    halves its interval; a restart in [GetOverlappingInputs] widens the range to
    the bound of a file, at most twice per file; decoding consumes bytes; a
    mapped file copies a byte in every second round.  Loops of iterators that skip
    blocks or entries take the fuel as a parameter of the type, and the theorems
    ask that it exceed the number of blocks or entries.

    ** Bounds

    Sequence numbers stay below [kMaxSequenceNumber] and file numbers below 2^64:
    theorems that hand out new ones ask for room for those they need.  Levels have
    fewer than 2^31 files, as the binary search indexes them by [int].  Sums of
    sizes ([MemoryUsage], [TotalFileSize]) are taken without wrapping.

    ** Not modelled

    Mutexes, condition variables, atomic pointers and memory ordering (port/,
    util/mutexlock.h); the assertions of db/filename.cpp that numbers are
    positive, which are hypotheses where files are named; destructors that only
    free memory, among them that of the database; statistics and the texts of info
    logs; [Table::NewIterator], whose block function never returns; in the
    environment thread ids, sleeping and the exit on errors of threads. *)

From Stdlib Require Import ZArith Lia List Bool String Floats.SpecFloat.
From Stdlib Require Export Strings.Byte.
From stdpp Require Export base numbers list gmap.

#[global] Open Scope Z_scope.

(** * Bytes

    A [char] of the source is a [byte]; [bZ] is its value read through
    [unsigned char], [schar] its value read through the (signed) [char] of the
    platforms the port directory targets, and [Zb] the truncating conversion of
    an integer to [char]. *)

Abbreviation byte := Corelib.Init.Byte.byte.
Abbreviation bytes := (list Corelib.Init.Byte.byte).

Definition bZ (b : byte) : Z := Z.of_N (Byte.to_N b).

Definition Zb (z : Z) : byte :=
  match Byte.of_N (Z.to_N (z mod 256)) with
  | Some b => b
  | None => Byte.x00
  end.

Definition schar (b : byte) : Z := if bZ b <? 128 then bZ b else bZ b - 256.

#[global] Instance byte_eq_decision : EqDecision byte := Byte.byte_eq_dec.

#[global] Program Instance byte_countable : Countable byte :=
  inj_countable Byte.to_N Byte.of_N _.
Next Obligation. exact Byte.of_to_N. Qed.

#[global] Instance byte_inhabited : Inhabited byte := populate Byte.x00.

(** The bytes of a C string literal. *)
Definition str (s : string) : bytes := list_byte_of_string s.

(** * Machine words *)

Definition u8 (z : Z) : Z := z mod 2 ^ 8.
Definition u32 (z : Z) : Z := z mod 2 ^ 32.
Definition u64 (z : Z) : Z := z mod 2 ^ 64.

Definition is_u32 (z : Z) : Prop := 0 <= z < 2 ^ 32.
Definition is_u64 (z : Z) : Prop := 0 <= z < 2 ^ 64.

(** A [uint32_t] value converted to [int] (two's complement). *)
Definition s32 (z : Z) : Z := (z + 2 ^ 31) mod 2 ^ 32 - 2 ^ 31.

(** An integer converted to [double]. *)
Definition double_of_int (z : Z) : spec_float := binary_normalize 53 1024 z 0 false.

(** [size()] of a string, slice or vector. *)
Definition Zlength {A} (l : list A) : Z := Z.of_nat (length l).

(** * Little-endian words *)

Fixpoint le_bytes (n : nat) (z : Z) : bytes :=
  match n with
  | O => []
  | S n' => Zb z :: le_bytes n' (Z.shiftr z 8)
  end.

Fixpoint le_val (bs : bytes) : Z :=
  match bs with
  | [] => 0
  | b :: bs' => bZ b + 256 * le_val bs'
  end.

(** * Decimal printing: the [%llu] and [%d] of [snprintf] *)

Definition digit (d : Z) : byte := Zb (48 + d).

Fixpoint print_dec_loop (fuel : nat) (z : Z) : bytes :=
  match fuel with
  | O => []
  | S fuel' =>
      if z <? 10 then [digit z] else print_dec_loop fuel' (z / 10) ++ [digit (z mod 10)]
  end.

(** A [uint64_t] has at most 20 decimal digits. *)
Definition print_dec (z : Z) : bytes := print_dec_loop 20 z.

Definition print_int (z : Z) : bytes :=
  if z <? 0 then str "-" ++ print_dec (- z) else print_dec z.

(** * Tactics *)

(** Runs the binds of the option monad whose first action is known. *)
Ltac bind_simpl := cbn [mbind option_bind].

(** * Lemmas on bytes and words *)

Lemma bZ_range (b : byte) : 0 <= bZ b < 256.
Proof.
  unfold bZ. pose proof (Byte.to_N_bounded b). lia.
Qed.

Lemma bZ_Zb (z : Z) : bZ (Zb z) = z mod 256.
Proof.
  unfold Zb, bZ. pose proof (Z.mod_pos_bound z 256).
  destruct (Byte.of_N (Z.to_N (z mod 256))) as [b|] eqn:E.
  - apply Byte.to_of_N in E. rewrite E. lia.
  - apply Byte.of_N_None_iff in E. lia.
Qed.

Lemma bZ_inj (a b : byte) : bZ a = bZ b -> a = b.
Proof.
  unfold bZ. intros H%N2Z.inj.
  pose proof (Byte.of_to_N a). pose proof (Byte.of_to_N b). congruence.
Qed.

Lemma Zb_bZ (b : byte) : Zb (bZ b) = b.
Proof. apply bZ_inj. rewrite bZ_Zb. apply Z.mod_small, bZ_range. Qed.

Lemma bZ_Zb_small (z : Z) : 0 <= z < 256 -> bZ (Zb z) = z.
Proof. intros. rewrite bZ_Zb. by apply Z.mod_small. Qed.

Lemma Zb_mod (z : Z) : Zb (z mod 256) = Zb z.
Proof. apply bZ_inj. rewrite !bZ_Zb. by rewrite Z.mod_mod by lia. Qed.

Lemma bZ_eqb (a b : byte) : (bZ a =? bZ b) = bool_decide (a = b).
Proof.
  case_bool_decide; [subst; apply Z.eqb_refl|].
  apply Z.eqb_neq. intros E. by apply bZ_inj in E.
Qed.

Lemma length_le_bytes n z : length (le_bytes n z) = n.
Proof. revert z. induction n; intros; simpl; [done|]. by rewrite IHn. Qed.

Lemma pow256_succ n : 256 ^ Z.of_nat (S n) = 256 * 256 ^ Z.of_nat n.
Proof. rewrite Nat2Z.inj_succ, Z.pow_succ_r by lia. done. Qed.

Lemma le_val_range bs : 0 <= le_val bs < 256 ^ Zlength bs.
Proof.
  unfold Zlength. induction bs as [|b bs IH]; [simpl; lia|].
  change (length (b :: bs)) with (S (length bs)).
  rewrite pow256_succ. simpl le_val. pose proof (bZ_range b). lia.
Qed.

Lemma le_val_le_bytes n z : le_val (le_bytes n z) = z mod 256 ^ Z.of_nat n.
Proof.
  revert z. induction n as [|n IH]; intros z; [simpl; by rewrite Z.mod_1_r|].
  rewrite pow256_succ. cbn [le_bytes le_val]. rewrite IH, bZ_Zb.
  rewrite Z.shiftr_div_pow2 by lia. change (2 ^ 8) with 256.
  rewrite Z.rem_mul_r by lia. done.
Qed.

Lemma le_bytes_le_val bs : le_bytes (length bs) (le_val bs) = bs.
Proof.
  induction bs as [|b bs IH]; [done|]. cbn [length le_bytes le_val].
  pose proof (bZ_range b) as Hb. f_equal.
  - apply bZ_inj. rewrite bZ_Zb.
    rewrite (Z.mul_comm 256), Z.mod_add by lia. by apply Z.mod_small.
  - rewrite Z.shiftr_div_pow2 by lia. change (2 ^ 8) with 256.
    rewrite (Z.mul_comm 256), Z.div_add by lia.
    rewrite Z.div_small by lia. by rewrite Z.add_0_l.
Qed.

Lemma u32_small z : is_u32 z -> u32 z = z.
Proof. intros. by apply Z.mod_small. Qed.

Lemma u64_small z : is_u64 z -> u64 z = z.
Proof. intros. by apply Z.mod_small. Qed.

Lemma s32_small z : 0 <= z < 2 ^ 31 -> s32 z = z.
Proof. intros Hz. unfold s32. rewrite Z.mod_small by lia. lia. Qed.

Lemma u32_range z : is_u32 (u32 z).
Proof. apply Z.mod_pos_bound. lia. Qed.

Lemma u64_range z : is_u64 (u64 z).
Proof. apply Z.mod_pos_bound. lia. Qed.

Lemma Zlength_nonneg {A} (l : list A) : 0 <= Zlength l.
Proof. unfold Zlength. lia. Qed.

Lemma Zlength_app {A} (l k : list A) : Zlength (l ++ k) = Zlength l + Zlength k.
Proof. unfold Zlength. rewrite length_app. lia. Qed.

Lemma Zlength_cons {A} (x : A) l : Zlength (x :: l) = 1 + Zlength l.
Proof. unfold Zlength. simpl length. lia. Qed.

Lemma Zlength_nil {A} : Zlength (@nil A) = 0.
Proof. done. Qed.

Lemma to_nat_Zlength {A} (l : list A) : Z.to_nat (Zlength l) = length l.
Proof. unfold Zlength. lia. Qed.

Lemma take_Zlength_app {A} (l k : list A) : take (Z.to_nat (Zlength l)) (l ++ k) = l.
Proof. rewrite to_nat_Zlength. apply take_app_length. Qed.

Lemma drop_Zlength_app {A} (l k : list A) : drop (Z.to_nat (Zlength l)) (l ++ k) = k.
Proof. rewrite to_nat_Zlength. apply drop_app_length. Qed.

Lemma fold_left_cons {A B} (f : A -> B -> A) x l a :
  fold_left f (x :: l) a = fold_left f l (f a x).
Proof. done. Qed.

(** * Bitwise operations *)

Lemma land_low_shift_high a b n :
  0 <= n -> 0 <= a < 2 ^ n -> Z.land a (Z.shiftl b n) = 0.
Proof.
  intros Hn Ha. apply Z.bits_inj'. intros i Hi.
  rewrite Z.land_spec, Z.bits_0, Z.shiftl_spec by done.
  destruct (decide (i < n)).
  - rewrite (Z.testbit_neg_r b) by lia. apply andb_false_r.
  - rewrite <- (Z.mod_small a (2 ^ n)) by done.
    by rewrite Z.mod_pow2_bits_high by lia.
Qed.

(** Two bit fields that do not overlap are added by [|]. *)
Lemma lor_disjoint_add a b n :
  0 <= n -> 0 <= a < 2 ^ n -> Z.lor a (Z.shiftl b n) = a + b * 2 ^ n.
Proof.
  intros Hn Ha. rewrite <- Z.shiftl_mul_pow2 by done.
  symmetry. apply Z.add_nocarry_lor. by apply land_low_shift_high.
Qed.

Lemma testbit_byte_high (z i : Z) : 0 <= z < 256 -> 8 <= i -> Z.testbit z i = false.
Proof.
  intros Hz Hi. rewrite <- (Z.mod_small z (2 ^ 8)) by (simpl; lia).
  by rewrite Z.mod_pow2_bits_high by lia.
Qed.

Lemma land_ones_mod z n : 0 <= n -> Z.land z (Z.ones n) = z mod 2 ^ n.
Proof. apply Z.land_ones. Qed.

(** A bitwise operation that maps two zero bits to zero keeps a width. *)
Lemma bits_lt_pow2 x n :
  0 <= n -> 0 <= x -> (forall i, n <= i -> Z.testbit x i = false) -> 0 <= x < 2 ^ n.
Proof.
  intros Hn Hx Hb. split; [done|]. destruct (Z.lt_ge_cases x (2 ^ n)) as [|Hge]; [done|].
  assert (n <= Z.log2 x) as Hl by (apply Z.log2_le_pow2; lia).
  specialize (Hb (Z.log2 x) Hl). rewrite Z.bit_log2 in Hb; [done|lia].
Qed.

Lemma testbit_above x n i : 0 <= n -> 0 <= x < 2 ^ n -> n <= i -> Z.testbit x i = false.
Proof.
  intros. rewrite <- (Z.mod_small x (2 ^ n)) by done. by rewrite Z.mod_pow2_bits_high by lia.
Qed.

Lemma lor_lt_pow2 a b n :
  0 <= n -> 0 <= a < 2 ^ n -> 0 <= b < 2 ^ n -> 0 <= Z.lor a b < 2 ^ n.
Proof.
  intros. apply bits_lt_pow2; [done|apply Z.lor_nonneg; lia|].
  intros i Hi. rewrite Z.lor_spec, !(testbit_above _ n) by done. done.
Qed.

Lemma lxor_lt_pow2 a b n :
  0 <= n -> 0 <= a < 2 ^ n -> 0 <= b < 2 ^ n -> 0 <= Z.lxor a b < 2 ^ n.
Proof.
  intros. apply bits_lt_pow2; [done|apply Z.lxor_nonneg; lia|].
  intros i Hi. rewrite Z.lxor_spec, !(testbit_above _ n) by done. done.
Qed.
