(* ===== verification/Lists.v ===== *)
(** Facts on lists that several components share: last elements, boolean tests,
    filters, and sorted lists. *)

From Stdlib Require Import ZArith Lia List Bool Sorting.Sorted.
From S2P Require Import Prelude.

(** * Elements and filters *)

Lemma last_default (a d : nat) A : List.last (a :: A) d = List.last A a.
Proof.
  revert a d. induction A as [|b A IH]; intros a d; [done|].
  change (List.last (a :: b :: A) d) with (List.last (b :: A) d). by rewrite !IH.
Qed.

Lemma last_cons_split (x0 : nat) A : exists pre, x0 :: A = pre ++ [List.last A x0].
Proof.
  revert x0. induction A as [|a A IH]; intros x0; [by exists []|].
  destruct (IH a) as [pre E]. exists (x0 :: pre). by rewrite last_default, E.
Qed.

Lemma last_lookup_lt (l : list nat) d : l <> [] -> Some (List.last l d) = l !! (length l - 1)%nat.
Proof.
  destruct (last_cons_split d l) as [pre E]. intros Hl. destruct l as [|a l]; [done|].
  destruct pre as [|p pre]; [done|]. injection E as _ E. rewrite E at 2 3. rewrite length_app. cbn [length].
  rewrite lookup_app_r by lia. by replace (length pre + 1 - 1 - length pre)%nat with 0%nat by lia.
Qed.

Lemma existsb_false {A} (f : A -> bool) (l : list A) :
  (forall x, x ∈ l -> f x = false) -> existsb f l = false.
Proof.
  induction l as [|x l IH]; intros Hf; [done|]. cbn. rewrite Hf by left. apply IH. intros. apply Hf. by right.
Qed.

Lemma existsb_lookup {A} (P : A -> bool) (l : list A) :
  existsb P l = true <-> exists i x, l !! i = Some x /\ P x = true.
Proof.
  rewrite existsb_exists. split.
  - intros (x & Hx%list_elem_of_In & HP). apply list_elem_of_lookup in Hx as [i Hi]. eauto.
  - intros (i & x & Hi & HP). exists x. split; [|done]. by eapply list_elem_of_In, list_elem_of_lookup_2.
Qed.

Lemma filter_all {A} (P : A -> Prop) `{!forall x, Decision (P x)} (l : list A) :
  (forall x, x ∈ l -> P x) -> base.filter P l = l.
Proof.
  induction l as [|x l IH]; intros Hp; [done|].
  rewrite filter_cons_True by (apply Hp; left). f_equal. apply IH. intros. apply Hp. by right.
Qed.

Lemma filter_none {A} (P : A -> Prop) `{!forall x, Decision (P x)} (l : list A) :
  (forall x, x ∈ l -> ~ P x) -> base.filter P l = [].
Proof.
  induction l as [|x l IH]; intros Hp; [done|].
  rewrite filter_cons_False by (apply Hp; left). apply IH. intros. apply Hp. by right.
Qed.

Lemma filter_shrinks {A} (P Q : A -> Prop) `{!forall x, Decision (P x)} `{!forall x, Decision (Q x)} (l : list A) x :
  x ∈ l -> Q x -> ~ P x -> (forall y, P y -> Q y) ->
  (length (base.filter P l) < length (base.filter Q l))%nat.
Proof.
  intros Hx HQ HP HPQ. assert (forall l : list A, length (base.filter P l) <= length (base.filter Q l))%nat as Hle.
  { clear -HPQ. induction l as [|y l IH]; [done|]. rewrite !filter_cons.
    repeat case_decide; cbn [length]; try lia. exfalso. auto. }
  induction l as [|y l IH]; [set_solver|]. rewrite !filter_cons.
  apply elem_of_cons in Hx as [<-|Hx].
  - rewrite decide_False, decide_True by done. cbn [length]. specialize (Hle l). lia.
  - specialize (IH Hx). repeat case_decide; cbn [length]; try lia. exfalso. auto.
Qed.

Lemma omap_cons {A B} (f : A -> option B) x (l : list A) :
  omap f (x :: l) = match f x with Some y => y :: omap f l | None => omap f l end.
Proof. done. Qed.

Lemma omap_ext_in {A B} (f g : A -> option B) (l : list A) :
  (forall x, x ∈ l -> f x = g x) -> omap f l = omap g l.
Proof.
  intros He. induction l as [|x l IH]; [done|].
  rewrite !omap_cons, (He x ltac:(left)), IH; [done|]. intros. apply He. by right.
Qed.

(** * Sorted lists *)

Lemma sorted_lookup {A} (R : A -> A -> Prop) (l : list A) i j x y :
  StronglySorted R l -> (i < j)%nat -> l !! i = Some x -> l !! j = Some y -> R x y.
Proof.
  intros Hs. revert i j. induction Hs as [|z l Hs IH Hz]; intros i j Hij Hi Hj; [done|].
  destruct j as [|j]; [lia|]. destruct i as [|i]; cbn in Hi, Hj.
  - injection Hi as ->. rewrite Forall_forall in Hz. apply Hz. by eapply list_elem_of_lookup_2.
  - apply (IH i j); [lia|done|done].
Qed.

Lemma StronglySorted_insert {A} (R R' : A -> A -> Prop) l1 l2 x :
  StronglySorted R (l1 ++ l2) ->
  (forall a b, a ∈ l1 ++ l2 -> b ∈ l1 ++ l2 -> R a b -> R' a b) ->
  (forall a, a ∈ l1 -> R' a x) -> (forall b, b ∈ l2 -> R' x b) ->
  StronglySorted R' (l1 ++ x :: l2).
Proof.
  intros Hs HR H1 H2. induction l1 as [|a l1 IH]; cbn [app] in *.
  - constructor; [|by apply Forall_forall]. clear H1 H2.
    induction Hs as [|b l2 Hs IH Hb]; constructor.
    + apply IH. intros. apply HR; try done; by right.
    + rewrite Forall_forall in *. intros c Hc. apply HR; [left|by right|auto].
  - inversion_clear Hs as [|? ? Hs' Ha]. constructor.
    + apply IH; [done| |set_solver]. intros. apply HR; try done; by right.
    + rewrite Forall_forall in *. intros b Hb. apply elem_of_app in Hb as [Hb|[->|Hb]%elem_of_cons].
      * apply HR; [left|right; set_solver|apply Ha; set_solver].
      * apply H1. left.
      * apply HR; [left|right; set_solver|apply Ha; set_solver].
Qed.

Lemma StronglySorted_app_intro {A} (R : A -> A -> Prop) l1 l2 :
  StronglySorted R l1 -> StronglySorted R l2 -> (forall x y, x ∈ l1 -> y ∈ l2 -> R x y) ->
  StronglySorted R (l1 ++ l2).
Proof.
  intros H1 H2 Hx. induction H1 as [|x l1 H1 IH Hf]; [done|]. cbn. constructor.
  - apply IH. intros. apply Hx; [by right|done].
  - apply Forall_app. split; [done|]. apply Forall_forall. intros y Hy. apply Hx; [left|done].
Qed.

Lemma StronglySorted_app_inv {A} (R : A -> A -> Prop) l1 l2 :
  StronglySorted R (l1 ++ l2) ->
  StronglySorted R l1 /\ StronglySorted R l2 /\ (forall x y, x ∈ l1 -> y ∈ l2 -> R x y).
Proof.
  induction l1 as [|x l1 IH]; cbn; [intros; split_and!; [constructor|done|set_solver]|].
  inversion_clear 1 as [|? ? Hs Hf]. destruct (IH Hs) as (H1 & H2 & H3). apply Forall_app in Hf as [Hf1 Hf2].
  rewrite Forall_forall in Hf2. split_and!; [by constructor|done|].
  intros a y [->|Ha]%elem_of_cons Hy; auto.
Qed.

Lemma StronglySorted_app_r {A} (R : A -> A -> Prop) l1 l2 : StronglySorted R (l1 ++ l2) -> StronglySorted R l2.
Proof. induction l1 as [|a l1 IH]; [done|]. cbn. inversion_clear 1. auto. Qed.

Lemma StronglySorted_filter {A} (R : A -> A -> Prop) (P : A -> Prop) `{!forall x, Decision (P x)} l :
  StronglySorted R l -> StronglySorted R (base.filter P l).
Proof.
  induction 1 as [|x l Hs IH Hf]; [constructor|]. rewrite filter_cons. case_decide; [|done].
  constructor; [done|]. rewrite Forall_forall in *. intros y Hy. apply Hf.
  by apply list_elem_of_filter in Hy as [_ ?].
Qed.

Lemma ForallOrdPairs_snoc {A} (R : A -> A -> Prop) l x :
  ForallOrdPairs R l -> (forall y, y ∈ l -> R y x) -> ForallOrdPairs R (l ++ [x]).
Proof.
  induction 1 as [|y l Hy Hl IH]; intros Hx; [repeat constructor|]. cbn. constructor.
  - apply Forall_app. split; [done|]. apply Forall_singleton, Hx. left.
  - apply IH. intros. apply Hx. by right.
Qed.

Create HintDb sorted.
#[export] Hint Resolve StronglySorted_filter StronglySorted_app_intro StronglySorted_app_r : sorted.
#[export] Hint Constructors StronglySorted : sorted.
