(* ===== verification/Coding.v ===== *)
(** The integer codings of util/coding.h and util/coding.cpp: fixed-width
    little-endian words, 7-bit varints and length-prefixed slices.

    A pair [p, limit] of char pointers is the list of the bytes in [p, limit);
    a routine that returns a pointer past what it parsed returns the bytes left,
    and NULL (or [false]) is [None].  The little-endian assumption is the one
    stated in util/coding.h. *)

From Stdlib Require Import ZArith Lia List Bool.
From S2P Require Import Prelude.

(** ** Fixed-width words *)

Definition EncodeFixed32 (value : Z) : bytes := le_bytes 4 value.

Definition EncodeFixed64 (value : Z) : bytes := le_bytes 8 value.

Definition PutFixed32 (dst : bytes) (value : Z) : bytes := dst ++ EncodeFixed32 value.

Definition PutFixed64 (dst : bytes) (value : Z) : bytes := dst ++ EncodeFixed64 value.

(** [memcpy(&result, ptr, sizeof(result))]: the first bytes at [ptr]; every
    caller has that many bytes there. *)
Definition DecodeFixed32 (ptr : bytes) : Z := le_val (take 4 ptr).

Definition DecodeFixed64 (ptr : bytes) : Z := le_val (take 8 ptr).

(** ** Varints *)

Definition EncodeVarint32 (v : Z) : bytes :=
  let B := 128 in
  if v <? Z.shiftl 1 7 then
    [Zb v]
  else if v <? Z.shiftl 1 14 then
    [Zb (Z.lor v B); Zb (Z.shiftr v 7)]
  else if v <? Z.shiftl 1 21 then
    [Zb (Z.lor v B); Zb (Z.lor (Z.shiftr v 7) B); Zb (Z.shiftr v 14)]
  else if v <? Z.shiftl 1 28 then
    [Zb (Z.lor v B); Zb (Z.lor (Z.shiftr v 7) B); Zb (Z.lor (Z.shiftr v 14) B);
     Zb (Z.shiftr v 21)]
  else
    [Zb (Z.lor v B); Zb (Z.lor (Z.shiftr v 7) B); Zb (Z.lor (Z.shiftr v 14) B);
     Zb (Z.lor (Z.shiftr v 21) B); Zb (Z.shiftr v 28)].

Definition PutVarint32 (dst : bytes) (value : Z) : bytes := dst ++ EncodeVarint32 value.

(** The [while (v >= B)] loop.  The fuel 10 of [EncodeVarint64] is the size of
    the caller's buffer; [EncodeVarint64_fuel] shows that it never runs out on
    a [uint64_t]. *)
Fixpoint EncodeVarint64_loop (fuel : nat) (v : Z) : bytes :=
  match fuel with
  | O => []
  | S fuel' =>
      let B := 128 in
      if v >=? B then
        Zb (Z.lor (Z.land v (B - 1)) B) :: EncodeVarint64_loop fuel' (Z.shiftr v 7)
      else [Zb v]
  end.

Definition EncodeVarint64 (v : Z) : bytes := EncodeVarint64_loop 10 v.

Definition PutVarint64 (dst : bytes) (value : Z) : bytes := dst ++ EncodeVarint64 value.

Definition PutLengthPrefixedSlice (dst : bytes) (value : bytes) : bytes :=
  PutVarint32 dst (u32 (Zlength value)) ++ value.

Fixpoint VarintLength_loop (fuel : nat) (v len : Z) : Z :=
  match fuel with
  | O => len
  | S fuel' => if v >=? 128 then VarintLength_loop fuel' (Z.shiftr v 7) (len + 1) else len
  end.

Definition VarintLength (v : Z) : Z := VarintLength_loop 10 v 1.

(** The decoding loop: [GetVarint32PtrFallback] runs it with shifts up to 28 on
    a [uint32_t] accumulator, [GetVarint64Ptr] with shifts up to 63 on a
    [uint64_t] one. *)
Fixpoint GetVarintPtr_loop (max_shift width : Z) (p : bytes) (shift result : Z)
    : option (Z * bytes) :=
  if shift <=? max_shift then
    match p with
    | [] => None
    | b :: p' =>
        let byte := bZ b in
        if negb (Z.land byte 128 =? 0) then
          GetVarintPtr_loop max_shift width p' (shift + 7)
            (Z.lor result (Z.shiftl (Z.land byte 127) shift mod 2 ^ width))
        else
          Some (Z.lor result (Z.shiftl byte shift mod 2 ^ width), p')
    end
  else None.

Definition GetVarint32PtrFallback (p : bytes) : option (Z * bytes) :=
  GetVarintPtr_loop 28 32 p 0 0.

Definition GetVarint32Ptr (p : bytes) : option (Z * bytes) :=
  match p with
  | b :: p' =>
      let result := bZ b in
      if Z.land result 128 =? 0 then Some (result, p') else GetVarint32PtrFallback p
  | [] => GetVarint32PtrFallback p
  end.

Definition GetVarint64Ptr (p : bytes) : option (Z * bytes) :=
  GetVarintPtr_loop 63 64 p 0 0.

Definition GetVarint32 (input : bytes) : option (Z * bytes) := GetVarint32Ptr input.

Definition GetVarint64 (input : bytes) : option (Z * bytes) := GetVarint64Ptr input.

(** The pointer variant: [NULL] when the varint does not parse or when the
    [len] bytes after it run past [limit]. *)
Definition GetLengthPrefixedSlicePtr (p : bytes) : option (bytes * bytes) :=
  match GetVarint32Ptr p with
  | None => None
  | Some (len, p) =>
      if len >? Zlength p then None
      else Some (take (Z.to_nat len) p, drop (Z.to_nat len) p)
  end.

Definition GetLengthPrefixedSlice (input : bytes) : option (bytes * bytes) :=
  match GetVarint32 input with
  | Some (len, input) =>
      if Zlength input >=? len then
        Some (take (Z.to_nat len) input, drop (Z.to_nat len) input)
      else None
  | None => None
  end.

(** ** Fixed-width round trips *)

Lemma EncodeFixed32_length v : length (EncodeFixed32 v) = 4%nat.
Proof. apply length_le_bytes. Qed.

Lemma EncodeFixed64_length v : length (EncodeFixed64 v) = 8%nat.
Proof. apply length_le_bytes. Qed.

Lemma DecodeFixed32_app v rest : DecodeFixed32 (EncodeFixed32 v ++ rest) = u32 v.
Proof.
  unfold DecodeFixed32. rewrite take_app_le by by rewrite EncodeFixed32_length.
  rewrite take_ge by by rewrite EncodeFixed32_length.
  apply le_val_le_bytes.
Qed.

Lemma DecodeFixed64_app v rest : DecodeFixed64 (EncodeFixed64 v ++ rest) = u64 v.
Proof.
  unfold DecodeFixed64. rewrite take_app_le by by rewrite EncodeFixed64_length.
  rewrite take_ge by by rewrite EncodeFixed64_length.
  apply le_val_le_bytes.
Qed.

Lemma EncodeFixed32_u32 z : EncodeFixed32 (u32 z) = EncodeFixed32 z.
Proof.
  unfold EncodeFixed32. rewrite <- (le_bytes_le_val (le_bytes 4 z)), length_le_bytes, le_val_le_bytes. done.
Qed.

Lemma foldl_PutFixed32 l buf : foldl PutFixed32 buf l = buf ++ concat (EncodeFixed32 <$> l).
Proof. revert buf. induction l as [|x l IH]; intros buf; cbn; [by rewrite app_nil_r|]. rewrite IH. unfold PutFixed32. by rewrite <- app_assoc. Qed.

Lemma words_drop {A} (f : A -> Z) l j r rest : l !! j = Some r ->
  drop (4 * j) (concat (EncodeFixed32 ∘ f <$> l) ++ rest) = EncodeFixed32 (f r) ++ concat (EncodeFixed32 ∘ f <$> drop (S j) l) ++ rest.
Proof.
  revert j. induction l as [|a l IH]; intros [|j] Hj; cbn in Hj; simplify_eq.
  - cbn [fmap list_fmap concat drop]. by rewrite <- app_assoc.
  - replace (4 * S j)%nat with (4 + 4 * j)%nat by lia. rewrite <- drop_drop. cbn [fmap list_fmap concat]. rewrite <- app_assoc.
    change ((EncodeFixed32 ∘ f) a) with (EncodeFixed32 (f a)). rewrite drop_app_length' by (by rewrite EncodeFixed32_length). by apply IH.
Qed.

Lemma words_length {A} (f : A -> Z) l : length (concat (EncodeFixed32 ∘ f <$> l)) = (4 * length l)%nat.
Proof. induction l as [|r l IH]; [done|]. cbn [fmap list_fmap concat length]. rewrite length_app, IH. unfold compose at 1. rewrite EncodeFixed32_length. lia. Qed.

Lemma EncodeFixed32_DecodeFixed32 p :
  (4 <= length p)%nat -> EncodeFixed32 (DecodeFixed32 p) = take 4 p.
Proof.
  intros. unfold EncodeFixed32, DecodeFixed32.
  rewrite <- (le_bytes_le_val (take 4 p)) at 2. rewrite length_take. f_equal. lia.
Qed.

Lemma EncodeFixed64_DecodeFixed64 p :
  (8 <= length p)%nat -> EncodeFixed64 (DecodeFixed64 p) = take 8 p.
Proof.
  intros. unfold EncodeFixed64, DecodeFixed64.
  rewrite <- (le_bytes_le_val (take 8 p)) at 2. rewrite length_take. f_equal. lia.
Qed.

Lemma DecodeFixed64_range p : is_u64 (DecodeFixed64 p).
Proof.
  unfold DecodeFixed64, is_u64. pose proof (le_val_range (take 8 p)) as H.
  assert (256 ^ Zlength (take 8 p) <= 256 ^ 8).
  { apply Z.pow_le_mono_r; [lia|]. unfold Zlength. rewrite length_take. lia. }
  change (256 ^ 8) with (2 ^ 64) in *. lia.
Qed.

Lemma DecodeFixed32_range p : is_u32 (DecodeFixed32 p).
Proof.
  unfold DecodeFixed32, is_u32. pose proof (le_val_range (take 4 p)) as H.
  assert (256 ^ Zlength (take 4 p) <= 256 ^ 4).
  { apply Z.pow_le_mono_r; [lia|]. unfold Zlength. rewrite length_take. lia. }
  change (256 ^ 4) with (2 ^ 32) in *. lia.
Qed.

(** ** Varint lemmas *)

Lemma land128_low x : 0 <= x < 128 -> Z.land x 128 = 0.
Proof. intros. exact (land_low_shift_high x 1 7 ltac:(lia) ltac:(lia)). Qed.

Lemma land128_high x : 0 <= x < 128 -> Z.land (x + 128) 128 = 128.
Proof.
  intros. rewrite (Z.add_nocarry_lor x 128) by by apply land128_low.
  rewrite Z.land_lor_distr_l, land128_low by done. done.
Qed.

Lemma land127_mod x : Z.land x 127 = x mod 128.
Proof. exact (Z.land_ones x 7 ltac:(lia)). Qed.

Lemma lor128_low x : 0 <= x < 128 -> Z.lor x 128 = x + 128.
Proof. intros. symmetry. apply Z.add_nocarry_lor. by apply land128_low. Qed.

Lemma add128_mod x : (x + 128) mod 128 = x mod 128.
Proof. exact (Z.mod_add x 1 128 ltac:(lia)). Qed.

(** [v | B] truncated to a char is the low seven bits with the top bit set. *)
Lemma Zb_lor128 v : Zb (Z.lor v 128) = Zb (v mod 128 + 128).
Proof.
  apply bZ_inj. rewrite !bZ_Zb. pose proof (Z.mod_pos_bound v 128).
  rewrite (Z.mod_small (_ + _)) by lia.
  rewrite <- lor128_low by lia. apply Z.bits_inj'. intros i Hi.
  change 256 with (2 ^ 8). change 128 with (2 ^ 7).
  rewrite Z.lor_spec. destruct (decide (i < 8)); [|].
  - rewrite Z.mod_pow2_bits_low, Z.lor_spec by lia.
    destruct (decide (i = 7)) as [->|].
    + rewrite Z.pow2_bits_true by lia. by rewrite !orb_true_r.
    + by rewrite Z.mod_pow2_bits_low by lia.
  - rewrite !Z.mod_pow2_bits_high by lia. rewrite Z.pow2_bits_false by lia. done.
Qed.

Lemma EncodeVarint64_loop_unfold fuel v :
  EncodeVarint64_loop (S fuel) v =
    if v <? 128 then [Zb v]
    else Zb (v mod 128 + 128) :: EncodeVarint64_loop fuel (v / 128).
Proof.
  cbn [EncodeVarint64_loop]. rewrite Z.geb_leb, Z.ltb_antisym.
  destruct (128 <=? v); cbn [negb]; [|done].
  change (128 - 1) with 127. rewrite land127_mod, Z.shiftr_div_pow2 by lia.
  change (2 ^ 7) with 128. f_equal. f_equal. apply lor128_low.
  apply Z.mod_pos_bound. lia.
Qed.

Lemma EncodeVarint64_loop_more fuel v :
  0 <= v < 128 ^ Z.of_nat fuel -> (0 < fuel)%nat ->
  EncodeVarint64_loop (S fuel) v = EncodeVarint64_loop fuel v.
Proof.
  revert v. induction fuel as [|fuel IH]; intros v Hv Hf; [lia|].
  rewrite (EncodeVarint64_loop_unfold (S fuel) v), (EncodeVarint64_loop_unfold fuel v).
  destruct (v <? 128) eqn:E; [done|]. apply Z.ltb_ge in E.
  rewrite Nat2Z.inj_succ, Z.pow_succ_r in Hv by lia.
  destruct fuel as [|fuel]; [lia|].
  f_equal. apply IH; [|lia]. split; [apply Z.div_pos; lia|].
  apply Z.div_lt_upper_bound; lia.
Qed.

(** A [uint64_t] needs at most ten groups: more fuel changes nothing. *)
Lemma EncodeVarint64_fuel v n :
  is_u64 v -> EncodeVarint64_loop (10 + n) v = EncodeVarint64 v.
Proof.
  intros Hv. induction n as [|n IH]; [by rewrite Nat.add_0_r|].
  rewrite <- IH, Nat.add_succ_r. apply EncodeVarint64_loop_more; [|lia].
  destruct Hv. split; [done|]. eapply Z.lt_le_trans; [done|].
  transitivity (128 ^ 10); [lia|]. apply Z.pow_le_mono_r; lia.
Qed.

(** The unrolled 32-bit encoder computes what the loop computes. *)
Lemma EncodeVarint32_64 v : is_u32 v -> EncodeVarint32 v = EncodeVarint64 v.
Proof.
  intros [H0 H32]. unfold EncodeVarint32, EncodeVarint64.
  rewrite !Z.shiftl_mul_pow2, !Z.shiftr_div_pow2 by lia.
  change (1 * 2 ^ 7) with 128. change (1 * 2 ^ 14) with 16384.
  change (1 * 2 ^ 21) with 2097152. change (1 * 2 ^ 28) with 268435456.
  change (2 ^ 7) with 128. change (2 ^ 14) with (128 * 128).
  change (2 ^ 21) with (128 * 128 * 128). change (2 ^ 28) with (128 * 128 * 128 * 128).
  rewrite !Zb_lor128, <- !Z.div_div by lia.
  do 5 rewrite EncodeVarint64_loop_unfold.
  set (v1 := v / 128). set (v2 := v1 / 128). set (v3 := v2 / 128). set (v4 := v3 / 128).
  assert (v = 128 * v1 + v mod 128 /\ 0 <= v mod 128 < 128) as [? ?]
    by (split; [apply Z.div_mod; lia | apply Z.mod_pos_bound; lia]).
  assert (v1 = 128 * v2 + v1 mod 128 /\ 0 <= v1 mod 128 < 128) as [? ?]
    by (split; [apply Z.div_mod; lia | apply Z.mod_pos_bound; lia]).
  assert (v2 = 128 * v3 + v2 mod 128 /\ 0 <= v2 mod 128 < 128) as [? ?]
    by (split; [apply Z.div_mod; lia | apply Z.mod_pos_bound; lia]).
  assert (v3 = 128 * v4 + v3 mod 128 /\ 0 <= v3 mod 128 < 128) as [? ?]
    by (split; [apply Z.div_mod; lia | apply Z.mod_pos_bound; lia]).
  repeat match goal with |- context [?a <? ?b] => destruct (Z.ltb_spec a b) end;
    try reflexivity; exfalso; lia.
Qed.

Section Decode.
Context (max_shift width : Z).
Context (Hmax : forall k, 0 <= k -> 7 * k < width -> 7 * k <= max_shift).

(** Decoding what the encoder wrote adds the value at the current shift. *)
Lemma GetVarintPtr_loop_enc fuel v k result rest :
  (0 < fuel)%nat -> 0 <= k -> 7 * k < width ->
  0 <= v < 128 ^ Z.of_nat fuel -> v * 2 ^ (7 * k) < 2 ^ width ->
  0 <= result < 2 ^ (7 * k) ->
  GetVarintPtr_loop max_shift width (EncodeVarint64_loop fuel v ++ rest) (7 * k) result =
    Some (result + v * 2 ^ (7 * k), rest).
Proof.
  revert v k result. induction fuel as [|fuel IH]; intros v k result Hf Hk Hkw Hv Hw Hr; [lia|].
  rewrite EncodeVarint64_loop_unfold.
  assert (0 < 2 ^ (7 * k)) by (apply Z.pow_pos_nonneg; lia).
  pose proof (Hmax k Hk Hkw) as Hs%Z.leb_le.
  destruct (Z.ltb_spec v 128) as [Hlt|Hge].
  - cbn [app GetVarintPtr_loop]. rewrite Hs, bZ_Zb_small by lia.
    rewrite land128_low by lia. cbn [Z.eqb negb].
    rewrite Z.mod_small by (rewrite Z.shiftl_mul_pow2 by lia; lia).
    rewrite lor_disjoint_add by lia. done.
  - cbn [app GetVarintPtr_loop].
    pose proof (Z.mod_pos_bound v 128 ltac:(lia)) as Hm.
    pose proof (Z.div_mod v 128 ltac:(lia)) as Hdm.
    rewrite Hs, bZ_Zb_small, land128_high, land127_mod by lia. cbn [Z.eqb negb].
    rewrite add128_mod, Z.mod_mod by lia.
    rewrite Z.mod_small by (rewrite Z.shiftl_mul_pow2 by lia; nia).
    rewrite lor_disjoint_add by lia.
    assert (2 ^ (7 * (k + 1)) = 128 * 2 ^ (7 * k)) as Hp.
    { replace (7 * (k + 1)) with (7 + 7 * k) by lia. rewrite Z.pow_add_r by lia. done. }
    assert (7 * (k + 1) < width).
    { apply (Z.pow_lt_mono_r_iff 2); [lia| |]; [|rewrite Hp; nia].
      destruct (Z.le_gt_cases 0 width); [done|]. lia. }
    rewrite Nat2Z.inj_succ, Z.pow_succ_r in Hv by lia.
    destruct fuel as [|fuel]; [lia|].
    replace (7 * k + 7) with (7 * (k + 1)) by lia.
    set (P := 2 ^ (7 * k)) in *. set (q := v / 128) in *. set (r := v mod 128) in *.
    assert (v * P = q * (128 * P) + r * P) as HvP by (rewrite Hdm; ring).
    assert (0 <= r * P <= 127 * P) by nia.
    rewrite IH; rewrite ?Hp; [|lia..| | |].
    + f_equal. f_equal. lia.
    + subst q. split; [apply Z.div_pos; lia|]. apply Z.div_lt_upper_bound; lia.
    + lia.
    + lia.
Qed.
End Decode.

Lemma GetVarint64_enc v rest :
  is_u64 v -> GetVarint64 (EncodeVarint64 v ++ rest) = Some (v, rest).
Proof.
  intros [H0 H]. unfold GetVarint64, GetVarint64Ptr, EncodeVarint64.
  rewrite (GetVarintPtr_loop_enc 63 64 ltac:(lia) 10 v 0); try lia.
  f_equal. f_equal. lia.
Qed.

(** The inlined fast path agrees with the loop it skips. *)
Lemma GetVarint32Ptr_Fallback p : GetVarint32Ptr p = GetVarint32PtrFallback p.
Proof.
  destruct p as [|b p]; [done|]. unfold GetVarint32Ptr.
  destruct (Z.land (bZ b) 128 =? 0) eqn:E; [|done].
  unfold GetVarint32PtrFallback. cbn [GetVarintPtr_loop].
  rewrite E. cbn [negb]. pose proof (bZ_range b). rewrite Z.shiftl_0_r.
  rewrite Z.mod_small by lia. done.
Qed.

Lemma GetVarint32_enc v rest :
  is_u32 v -> GetVarint32 (EncodeVarint32 v ++ rest) = Some (v, rest).
Proof.
  intros Hv. unfold GetVarint32. rewrite GetVarint32Ptr_Fallback, EncodeVarint32_64 by done.
  destruct Hv. unfold GetVarint32PtrFallback, EncodeVarint64.
  rewrite (GetVarintPtr_loop_enc 28 32 ltac:(lia) 10 v 0); try lia.
  f_equal. f_equal. lia.
Qed.

Lemma GetLengthPrefixedSlice_put value rest :
  is_u32 (Zlength value) ->
  GetLengthPrefixedSlice (PutLengthPrefixedSlice [] value ++ rest) = Some (value, rest).
Proof.
  intros Hv. unfold GetLengthPrefixedSlice, PutLengthPrefixedSlice, PutVarint32.
  rewrite app_nil_l, u32_small by done. rewrite <- app_assoc, GetVarint32_enc by done.
  rewrite Zlength_app, take_Zlength_app, drop_Zlength_app.
  pose proof (Zlength_nonneg rest).
  destruct (Z.geb_spec (Zlength value + Zlength rest) (Zlength value)); [done|lia].
Qed.

(** The two length-prefixed readers parse the same strings. *)
Lemma GetLengthPrefixedSlicePtr_same p :
  GetLengthPrefixedSlicePtr p = GetLengthPrefixedSlice p.
Proof.
  unfold GetLengthPrefixedSlicePtr, GetLengthPrefixedSlice, GetVarint32.
  destruct (GetVarint32Ptr p) as [[len q]|]; [|done].
  destruct (Z.gtb_spec len (Zlength q)), (Z.geb_spec (Zlength q) len); lia || done.
Qed.

(** ** Lengths *)

Lemma VarintLength_loop_enc fuel v len :
  0 <= v < 128 ^ Z.of_nat fuel -> (0 < fuel)%nat ->
  VarintLength_loop fuel v len = len - 1 + Zlength (EncodeVarint64_loop fuel v).
Proof.
  revert v len. induction fuel as [|fuel IH]; intros v len Hv Hf; [lia|].
  rewrite EncodeVarint64_loop_unfold. cbn [VarintLength_loop].
  destruct (Z.geb_spec v 128), (Z.ltb_spec v 128); try lia; [|unfold Zlength; simpl; lia].
  rewrite Nat2Z.inj_succ, Z.pow_succ_r in Hv by lia.
  destruct fuel as [|fuel]; [lia|].
  rewrite Z.shiftr_div_pow2 by lia. change (2 ^ 7) with 128.
  rewrite IH, Zlength_cons; [lia| |lia].
  split; [apply Z.div_pos; lia|]. apply Z.div_lt_upper_bound; lia.
Qed.

Lemma VarintLength_enc v : is_u64 v -> VarintLength v = Zlength (EncodeVarint64 v).
Proof.
  intros [H0 H]. unfold VarintLength, EncodeVarint64.
  rewrite VarintLength_loop_enc; lia.
Qed.

Lemma EncodeVarint64_loop_length fuel v :
  (0 < fuel)%nat -> (1 <= length (EncodeVarint64_loop fuel v) <= fuel)%nat.
Proof.
  revert v. induction fuel as [|fuel IH]; intros v Hf; [lia|].
  rewrite EncodeVarint64_loop_unfold. destruct (v <? 128); simpl; [lia|].
  destruct fuel; [simpl; lia|]. specialize (IH (v / 128)). lia.
Qed.

Lemma EncodeVarint32_length v : (1 <= length (EncodeVarint32 v) <= 5)%nat.
Proof. unfold EncodeVarint32. repeat case_match; simpl; lia. Qed.

Lemma EncodeVarint64_length v : (1 <= length (EncodeVarint64 v) <= 10)%nat.
Proof. apply EncodeVarint64_loop_length. lia. Qed.

(** ** What a successful parse consumed *)

Lemma GetVarintPtr_loop_spec max_shift width p shift result v rest :
  0 <= width -> 0 <= result < 2 ^ width ->
  GetVarintPtr_loop max_shift width p shift result = Some (v, rest) ->
  0 <= v < 2 ^ width /\
  exists pre, p = pre ++ rest /\ pre <> [] /\ shift + 7 * (Zlength pre - 1) <= max_shift.
Proof.
  intros Hw. revert shift result. induction p as [|b p IH]; intros shift result Hr;
    cbn [GetVarintPtr_loop]; destruct (Z.leb_spec shift max_shift); try done.
  assert (forall x, 0 <= x mod 2 ^ width < 2 ^ width) as Hmod
    by (intros; apply Z.mod_pos_bound, Z.pow_pos_nonneg; lia).
  destruct (negb (Z.land (bZ b) 128 =? 0)).
  - intros (Hv & pre & -> & Hne & Hlen)%IH; [|by apply lor_lt_pow2].
    split; [done|]. exists (b :: pre). rewrite Zlength_cons. split_and!; try done. lia.
  - intros [= <- <-]. split; [by apply lor_lt_pow2|].
    exists [b]. unfold Zlength. simpl. split_and!; try done. lia.
Qed.

Lemma GetVarint32_spec p v rest :
  GetVarint32 p = Some (v, rest) ->
  is_u32 v /\ exists pre, p = pre ++ rest /\ (1 <= length pre <= 5)%nat.
Proof.
  unfold GetVarint32. rewrite GetVarint32Ptr_Fallback. intros H.
  apply GetVarintPtr_loop_spec in H as (Hv & pre & -> & Hne & Hl); try lia.
  split; [done|]. exists pre. split; [done|]. unfold Zlength in Hl.
  destruct pre; [done|]. simpl in *. lia.
Qed.

Lemma GetVarint64_spec p v rest :
  GetVarint64 p = Some (v, rest) ->
  is_u64 v /\ exists pre, p = pre ++ rest /\ (1 <= length pre <= 10)%nat.
Proof.
  intros H. apply GetVarintPtr_loop_spec in H as (Hv & pre & -> & Hne & Hl); try lia.
  split; [done|]. exists pre. split; [done|]. unfold Zlength in Hl.
  destruct pre; [done|]. simpl in *. lia.
Qed.

Lemma GetLengthPrefixedSlice_spec p s rest :
  GetLengthPrefixedSlice p = Some (s, rest) ->
  exists pre, p = pre ++ s ++ rest /\ (1 <= length pre <= 5)%nat /\ is_u32 (Zlength s).
Proof.
  unfold GetLengthPrefixedSlice.
  destruct (GetVarint32 p) as [[len q]|] eqn:E; [|done].
  apply GetVarint32_spec in E as ([? ?] & pre & -> & Hpre).
  destruct (Z.geb_spec (Zlength q) len) as [Hge|]; [|done]. intros [= <- <-].
  exists pre. rewrite take_drop. split_and!; try done; try lia.
  unfold is_u32, Zlength in *. rewrite length_take. lia.
Qed.

(** Hints shared by the client files. *)
Lemma PutLengthPrefixedSlice_app dst v : PutLengthPrefixedSlice dst v = dst ++ PutLengthPrefixedSlice [] v.
Proof. unfold PutLengthPrefixedSlice, PutVarint32. cbn [app]. by rewrite <- app_assoc. Qed.

Create HintDb coding.
Create Rewrite HintDb coding.
#[export] Hint Rewrite EncodeFixed32_length EncodeFixed64_length : coding.
#[export] Hint Rewrite DecodeFixed32_app DecodeFixed64_app : coding.
#[export] Hint Resolve DecodeFixed32_range DecodeFixed64_range u32_range u64_range : coding.

(** ** Properties *)

(** Whatever is appended with [PutVarint32], [PutVarint64] and
    [PutLengthPrefixedSlice] is read back, in order, by the matching readers,
    which leave exactly the bytes that follow. *)
Theorem varint_roundtrip (a b : Z) (s rest : bytes) :
  is_u32 a -> is_u64 b -> is_u32 (Zlength s) ->
  exists r1 r2,
    GetVarint32 (PutLengthPrefixedSlice (PutVarint64 (PutVarint32 [] a) b) s ++ rest)
      = Some (a, r1) /\
    GetVarint64 r1 = Some (b, r2) /\
    GetLengthPrefixedSlice r2 = Some (s, rest).
Proof.
  intros Ha Hb Hs.
  exists (EncodeVarint64 b ++ PutLengthPrefixedSlice [] s ++ rest),
    (PutLengthPrefixedSlice [] s ++ rest).
  split_and!; [|by apply GetVarint64_enc|by apply GetLengthPrefixedSlice_put].
  rewrite <- (GetVarint32_enc a) by done. f_equal.
  unfold PutLengthPrefixedSlice, PutVarint32, PutVarint64. by rewrite <- !app_assoc.
Qed.

Lemma varint_roundtrip_witness :
  exists r1 r2,
    GetVarint32 (PutLengthPrefixedSlice (PutVarint64 (PutVarint32 [] 300) (2 ^ 63)) [Byte.x61]
                   ++ [Byte.x00]) = Some (300, r1) /\
    GetVarint64 r1 = Some (2 ^ 63, r2) /\
    GetLengthPrefixedSlice r2 = Some ([Byte.x61], [Byte.x00]).
Proof.
  apply varint_roundtrip; unfold is_u32, is_u64, Zlength; simpl; lia.
Defined.

(** The unrolled 32-bit encoder agrees with the 64-bit loop, neither
    writes past its caller's buffer (5 and 10 bytes), and [VarintLength] is the
    number of bytes written. *)
Theorem varint_encoders_agree (v : Z) :
  is_u32 v ->
  EncodeVarint32 v = EncodeVarint64 v /\
  VarintLength v = Zlength (EncodeVarint32 v) /\
  1 <= Zlength (EncodeVarint32 v) <= 5.
Proof.
  intros Hv. pose proof (EncodeVarint32_length v).
  split_and!; [by apply EncodeVarint32_64| |unfold Zlength; lia..].
  rewrite EncodeVarint32_64 by done. apply VarintLength_enc.
  unfold is_u32, is_u64 in *. lia.
Qed.

Lemma varint_encoders_agree_witness :
  EncodeVarint32 4294967295 = EncodeVarint64 4294967295 /\
  VarintLength 4294967295 = Zlength (EncodeVarint32 4294967295) /\
  1 <= Zlength (EncodeVarint32 4294967295) <= 5.
Proof. apply varint_encoders_agree. unfold is_u32. lia. Defined.

(** A reader that succeeds consumed a non-empty prefix of its input of at
    most 5 (10) bytes, never looked past the end, and delivers a value of its
    width, whatever bytes it was given. *)
Theorem varint_reader_safe (p : bytes) :
  (forall v rest, GetVarint32 p = Some (v, rest) ->
     is_u32 v /\ exists pre, p = pre ++ rest /\ (1 <= length pre <= 5)%nat) /\
  (forall v rest, GetVarint64 p = Some (v, rest) ->
     is_u64 v /\ exists pre, p = pre ++ rest /\ (1 <= length pre <= 10)%nat).
Proof. split; intros; [by apply GetVarint32_spec|by apply GetVarint64_spec]. Qed.
