(* ===== verification/Slice.v ===== *)
(** leveldb/slice.h and leveldb/status.h with util/status.cpp.

    A [Slice] is the list of the bytes it points to (its storage outlives it in
    every use the other files model).  A [Status] is the [state_] pointer: NULL
    is success, otherwise a heap block holding the message length (4 bytes), the
    code (1 byte) and the message; [Status] keeps that block. *)

From Stdlib Require Import ZArith Lia List Bool String.
From S2P Require Import Prelude Coding.

Module Slice.

Definition size (s : bytes) : Z := Zlength s.

Definition empty (s : bytes) : bool := size s =? 0.

(** [assert(n <= size())] is the caller's obligation. *)
Definition remove_prefix (s : bytes) (n : Z) : bytes := drop (Z.to_nat n) s.

(** [memcmp] on the first [n] bytes of both blocks: the sign of the first
    difference of unsigned chars. *)
Fixpoint memcmp (a b : bytes) (n : nat) {struct n} : Z :=
  match n, a, b with
  | S n', x :: a', y :: b' =>
      if bZ x <? bZ y then -1
      else if bZ y <? bZ x then 1
      else memcmp a' b' n'
  | _, _, _ => 0
  end.

Definition starts_with (s x : bytes) : bool :=
  (size s >=? size x) && (memcmp s x (length x) =? 0).

Definition eqb (a b : bytes) : bool :=
  (size a =? size b) && (memcmp a b (length a) =? 0).

Definition compare (a b : bytes) : Z :=
  let min_size := if size a <? size b then size a else size b in
  let r := memcmp a b (Z.to_nat min_size) in
  if r =? 0 then
    if size a <? size b then -1
    else if size a >? size b then 1
    else r
  else r.

End Slice.

(** ** Status *)

Inductive Code := kOk | kNotFound | kCorruption | kNotSupported | kInvalidArgument | kIOError.

#[global] Instance Code_eq_dec : EqDecision Code.
Proof. solve_decision. Defined.

Definition Code_to_Z (c : Code) : Z :=
  match c with
  | kOk => 0 | kNotFound => 1 | kCorruption => 2 | kNotSupported => 3
  | kInvalidArgument => 4 | kIOError => 5
  end.

(** [static_cast<Code>] of the stored char; the constructor stores nothing
    outside the enumeration. *)
Definition Code_of_Z (z : Z) : option Code :=
  if z =? 0 then Some kOk else if z =? 1 then Some kNotFound
  else if z =? 2 then Some kCorruption else if z =? 3 then Some kNotSupported
  else if z =? 4 then Some kInvalidArgument else if z =? 5 then Some kIOError
  else None.

Record Status := MkStatus { state_ : option bytes }.

#[global] Instance Status_eq_dec : EqDecision Status.
Proof. solve_decision. Defined.

Definition Status_OK : Status := MkStatus None.

(** [Status::Status(Code, msg, msg2)]. *)
Definition Status_new (code : Code) (msg msg2 : bytes) : Status :=
  let len1 := u32 (Zlength msg) in
  let len2 := u32 (Zlength msg2) in
  let size := u32 (len1 + (if len2 =? 0 then 0 else 2 + len2)) in
  MkStatus (Some (EncodeFixed32 size ++ [Zb (Code_to_Z code)] ++ take (Z.to_nat len1) msg ++
                  (if len2 =? 0 then [] else str ": " ++ take (Z.to_nat len2) msg2))).

Definition Status_NotFound (msg msg2 : bytes) := Status_new kNotFound msg msg2.
Definition Status_Corruption (msg msg2 : bytes) := Status_new kCorruption msg msg2.
Definition Status_NotSupported (msg msg2 : bytes) := Status_new kNotSupported msg msg2.
Definition Status_InvalidArgument (msg msg2 : bytes) := Status_new kInvalidArgument msg msg2.
Definition Status_IOError (msg msg2 : bytes) := Status_new kIOError msg msg2.

Definition ok (s : Status) : bool := match state_ s with None => true | Some _ => false end.

(** The block read back: [state_[4]] and the [memcpy] of the length. *)
Definition code (s : Status) : option Code :=
  match state_ s with
  | None => Some kOk
  | Some st => c ← st !! 4%nat; Code_of_Z (bZ c)
  end.

Definition IsNotFound (s : Status) : bool := bool_decide (code s = Some kNotFound).
Definition IsCorruption (s : Status) : bool := bool_decide (code s = Some kCorruption).
Definition IsIOError (s : Status) : bool := bool_decide (code s = Some kIOError).

(** [CopyState]: [size + 5] bytes of the block. *)
Definition CopyState (state : bytes) : bytes :=
  let size := DecodeFixed32 state in take (Z.to_nat size + 5) state.

(** The copy constructor and the assignment. *)
Definition Status_copy (s : Status) : Status :=
  MkStatus (match state_ s with None => None | Some st => Some (CopyState st) end).

Definition ToString (s : Status) : bytes :=
  match state_ s with
  | None => str "OK"
  | Some st =>
      let type :=
        match code s with
        | Some kOk => str "OK"
        | Some kNotFound => str "NotFound: "
        | Some kCorruption => str "Corruption: "
        | Some kNotSupported => str "Not implemented: "
        | Some kInvalidArgument => str "Invalid argument: "
        | Some kIOError => str "IO error: "
        | None =>
            str "Unknown code(" ++ print_int (match st !! 4%nat with Some c => schar c | None => 0 end)
              ++ str "): "
        end in
      let length := DecodeFixed32 st in
      type ++ take (Z.to_nat length) (drop 5 st)
  end.

(** ** Lemmas: comparison *)

(** The lexicographic order on unsigned bytes, as one recursion. *)
Fixpoint lex_compare (a b : bytes) : Z :=
  match a, b with
  | [], [] => 0
  | [], _ :: _ => -1
  | _ :: _, [] => 1
  | x :: a', y :: b' =>
      if bZ x <? bZ y then -1 else if bZ y <? bZ x then 1 else lex_compare a' b'
  end.

Lemma Slice_compare_lex a b : Slice.compare a b = lex_compare a b.
Proof.
  unfold Slice.compare, Slice.size.
  assert (Z.to_nat (if Zlength a <? Zlength b then Zlength a else Zlength b)
          = Nat.min (length a) (length b)) as ->.
  { unfold Zlength. destruct (Z.ltb_spec (Z.of_nat (length a)) (Z.of_nat (length b))); lia. }
  revert b. induction a as [|x a IH]; intros [|y b]; try done.
  cbn [length Nat.min Slice.memcmp lex_compare]. rewrite !Zlength_cons.
  destruct (bZ x <? bZ y); [done|]. destruct (bZ y <? bZ x); [done|].
  rewrite <- IH.
  destruct (Z.ltb_spec (1 + Zlength a) (1 + Zlength b)), (Z.ltb_spec (Zlength a) (Zlength b)),
    (Z.gtb_spec (1 + Zlength a) (1 + Zlength b)), (Z.gtb_spec (Zlength a) (Zlength b)); lia || done.
Qed.

Lemma lex_compare_eq a b : lex_compare a b = 0 <-> a = b.
Proof.
  revert b. induction a as [|x a IH]; intros [|y b]; simpl; try done.
  destruct (Z.ltb_spec (bZ x) (bZ y)).
  { split; [done|]. intros [= -> _]. lia. }
  destruct (Z.ltb_spec (bZ y) (bZ x)).
  { split; [done|]. intros [= -> _]. lia. }
  assert (x = y) as -> by (apply bZ_inj; lia). rewrite IH.
  split; [by intros ->|by intros [=]].
Qed.

Lemma lex_compare_antisym a b : lex_compare b a = - lex_compare a b.
Proof.
  revert b. induction a as [|x a IH]; intros [|y b]; simpl; try done.
  destruct (Z.ltb_spec (bZ x) (bZ y)), (Z.ltb_spec (bZ y) (bZ x)); try done; lia.
Qed.

Lemma lex_compare_trans a b c :
  lex_compare a b <= 0 -> lex_compare b c <= 0 -> lex_compare a c <= 0.
Proof.
  revert b c. induction a as [|x a IH]; intros [|y b] [|z c]; simpl; try lia.
  destruct (Z.ltb_spec (bZ x) (bZ y)), (Z.ltb_spec (bZ y) (bZ x)),
    (Z.ltb_spec (bZ y) (bZ z)), (Z.ltb_spec (bZ z) (bZ y)),
    (Z.ltb_spec (bZ x) (bZ z)), (Z.ltb_spec (bZ z) (bZ x)); try lia. apply IH.
Qed.

Lemma memcmp_prefix a b : Slice.memcmp a b (length b) = 0 -> (length b <= length a)%nat ->
  a = b ++ drop (length b) a.
Proof.
  revert a. induction b as [|y b IH]; intros [|x a]; simpl; try done; [lia|].
  destruct (Z.ltb_spec (bZ x) (bZ y)); [done|]. destruct (Z.ltb_spec (bZ y) (bZ x)); [done|].
  intros Hm Hl. assert (x = y) as -> by (apply bZ_inj; lia). f_equal. apply IH; [done|lia].
Qed.

Lemma memcmp_app a b : Slice.memcmp (b ++ a) b (length b) = 0.
Proof. induction b as [|y b IH]; simpl; [done|]. by rewrite Z.ltb_irrefl. Qed.

Lemma Slice_starts_with_spec s x :
  Slice.starts_with s x = true <-> exists t, s = x ++ t.
Proof.
  unfold Slice.starts_with, Slice.size. rewrite andb_true_iff, Z.eqb_eq. split.
  - intros [Hl Hm]. exists (drop (length x) s). apply memcmp_prefix; [done|].
    unfold Zlength in Hl. destruct (Z.geb_spec (Z.of_nat (length s)) (Z.of_nat (length x))); [lia|done].
  - intros [t ->]. split; [|apply memcmp_app]. rewrite Zlength_app.
    pose proof (Zlength_nonneg t). by destruct (Z.geb_spec (Zlength x + Zlength t) (Zlength x)); [|lia].
Qed.

Lemma Slice_eqb_spec a b : Slice.eqb a b = bool_decide (a = b).
Proof.
  unfold Slice.eqb, Slice.size. case_bool_decide as H.
  - subst. rewrite Z.eqb_refl. rewrite <- (app_nil_r b) at 1. by rewrite memcmp_app.
  - apply andb_false_iff. destruct (Z.eqb_spec (Zlength a) (Zlength b)) as [Hl|]; [|by left].
    right. apply Z.eqb_neq. intros Hm. apply H. unfold Zlength in Hl.
    assert (length a = length b) as Hlen by lia. rewrite Hlen in Hm.
    rewrite (memcmp_prefix a b) by (done || lia).
    rewrite drop_ge by lia. apply app_nil_r.
Qed.

(** ** Lemmas: status *)

Lemma Code_of_to_Z c : Code_of_Z (Code_to_Z c) = Some c.
Proof. by destruct c. Qed.

Lemma Code_to_Z_range c : 0 <= Code_to_Z c < 256.
Proof. by destruct c. Qed.

Lemma ok_is_OK s : ok s = true -> s = Status_OK.
Proof. by destruct s as [[?|]]. Qed.

Lemma Status_new_not_ok c m m2 : ok (Status_new c m m2) = false.
Proof. done. Qed.

Lemma Status_new_code c m m2 : code (Status_new c m m2) = Some c.
Proof.
  unfold code, Status_new. cbn [state_].
  rewrite lookup_app_r by by rewrite EncodeFixed32_length.
  rewrite EncodeFixed32_length. cbn. rewrite bZ_Zb_small by apply Code_to_Z_range.
  apply Code_of_to_Z.
Qed.

#[export] Hint Rewrite Status_new_not_ok Status_new_code : coding.
