(* ===== verification/Comparator.v ===== *)
(** leveldb/comparator.h and util/comparator.cpp.

    [Comparator] is the virtual interface; [ComparatorLaws] is the contract its
    comments state (a total order whose [0] is equality, a separator in
    [start, limit), a successor at or past the key).  Clients are proved against
    the class; [Bytewise_laws] discharges it for the built-in comparator. *)

From Stdlib Require Import ZArith Lia List Bool String.
From S2P Require Import Prelude Coding Slice.

Record Comparator := MkComparator {
  Name : bytes;
  Compare : bytes -> bytes -> Z;
  FindShortestSeparator : bytes -> bytes -> bytes;
  FindShortSuccessor : bytes -> bytes
}.

(** A three-way comparison that is a total preorder on the valid keys. *)
Class TotalPreorder {K : Type} (cmp : K -> K -> Z) (valid : K -> Prop) : Prop := {
  to_sgn : forall a b, valid a -> valid b -> Z.sgn (cmp b a) = - Z.sgn (cmp a b);
  to_trans : forall x y z, valid x -> valid y -> valid z ->
    cmp x y <= 0 -> cmp y z <= 0 -> cmp x z <= 0
}.

(** The contract of leveldb/comparator.h, on the keys that are [valid]. *)
Class ComparatorLaws (c : Comparator) (valid : bytes -> Prop) : Prop := {
  cmp_order :: TotalPreorder (Compare c) valid;
  cmp_eq : forall a b, valid a -> valid b -> (Compare c a b = 0 <-> a = b);
  cmp_separator : forall start limit, valid start -> valid limit ->
    Compare c start limit < 0 ->
    valid (FindShortestSeparator c start limit) /\
    Compare c start (FindShortestSeparator c start limit) <= 0 /\
    Compare c (FindShortestSeparator c start limit) limit < 0;
  cmp_successor : forall key, valid key ->
    valid (FindShortSuccessor c key) /\ Compare c key (FindShortSuccessor c key) <= 0
}.

(** Every byte string is a key. *)
Definition any_key (k : bytes) : Prop := True.

(** ** The byte-wise comparator *)

Module Bytewise.

Definition Compare (a b : bytes) : Z := Slice.compare a b.

(** Length of the common prefix: the [while] loop of [FindShortestSeparator]
    (and of [BlockBuilder::Add]). *)
Fixpoint common_prefix (a b : bytes) : nat :=
  match a, b with
  | x :: a', y :: b' => if bool_decide (x = y) then S (common_prefix a' b') else O
  | _, _ => O
  end.

Definition FindShortestSeparator (start limit : bytes) : bytes :=
  let min_length := Nat.min (length start) (length limit) in
  let diff_index := common_prefix start limit in
  if (min_length <=? diff_index)%nat then start
  else
    match start !! diff_index, limit !! diff_index with
    | Some s, Some l =>
        let diff_byte := bZ s in
        if (diff_byte <? 255) && (diff_byte + 1 <? bZ l) then
          take diff_index start ++ [Zb (diff_byte + 1)]
        else start
    | _, _ => start
    end.

(** The [for] loop over the key: the first byte that is not 0xff is
    incremented and the rest dropped. *)
Fixpoint FindShortSuccessor_loop (done key : bytes) : bytes :=
  match key with
  | [] => done
  | b :: key' =>
      if negb (bZ b =? 255) then done ++ [Zb (bZ b + 1)]
      else FindShortSuccessor_loop (done ++ [b]) key'
  end.

Definition FindShortSuccessor (key : bytes) : bytes := FindShortSuccessor_loop [] key.

End Bytewise.

Definition BytewiseComparator : Comparator := {|
  Name := str "leveldb.BytewiseComparator";
  Compare := Bytewise.Compare;
  FindShortestSeparator := Bytewise.FindShortestSeparator;
  FindShortSuccessor := Bytewise.FindShortSuccessor
|}.

(** ** Consequences of the laws *)

Section Order.
Context {K : Type} (cmp : K -> K -> Z) (valid : K -> Prop) `{!TotalPreorder cmp valid}.
Implicit Types x y z : K.

Lemma to_refl x : valid x -> cmp x x = 0.
Proof. intros H. pose proof (to_sgn x x H H). lia. Qed.

Lemma to_flip_lt x y : valid x -> valid y -> cmp x y < 0 <-> cmp y x > 0.
Proof. intros Hx Hy. pose proof (to_sgn x y Hx Hy). lia. Qed.

Lemma to_flip_le x y : valid x -> valid y -> cmp x y <= 0 <-> cmp y x >= 0.
Proof. intros Hx Hy. pose proof (to_sgn x y Hx Hy). lia. Qed.

Lemma to_flip_eq x y : valid x -> valid y -> cmp x y = 0 <-> cmp y x = 0.
Proof. intros Hx Hy. pose proof (to_sgn x y Hx Hy). lia. Qed.

Lemma to_lt_le_trans x y z :
  valid x -> valid y -> valid z -> cmp x y < 0 -> cmp y z <= 0 -> cmp x z < 0.
Proof.
  intros Hx Hy Hz H1 H2. destruct (Z.lt_ge_cases (cmp x z) 0) as [|Hge]; [done|].
  assert (cmp z x <= 0) by (apply to_flip_le; [done..|lia]).
  assert (cmp y x <= 0) by (by apply (to_trans y z x)).
  apply to_flip_lt in H1; [lia|done..].
Qed.

Lemma to_le_lt_trans x y z :
  valid x -> valid y -> valid z -> cmp x y <= 0 -> cmp y z < 0 -> cmp x z < 0.
Proof.
  intros Hx Hy Hz H1 H2. destruct (Z.lt_ge_cases (cmp x z) 0) as [|Hge]; [done|].
  assert (cmp z x <= 0) by (apply to_flip_le; [done..|lia]).
  assert (cmp z y <= 0) by (by apply (to_trans z x y)).
  apply to_flip_lt in H2; [lia|done..].
Qed.

Lemma to_lt_trans x y z :
  valid x -> valid y -> valid z -> cmp x y < 0 -> cmp y z < 0 -> cmp x z < 0.
Proof. intros. apply to_lt_le_trans with y; [done..|lia]. Qed.
End Order.

Create HintDb cmp.
#[export] Hint Resolve to_lt_trans to_le_lt_trans to_lt_le_trans to_trans to_refl : cmp.

(** ** The byte-wise comparator meets the contract *)

Lemma common_prefix_split a b :
  let n := Bytewise.common_prefix a b in
  take n a = take n b /\ (n <= length a)%nat /\ (n <= length b)%nat /\
  (forall x y, a !! n = Some x -> b !! n = Some y -> x <> y).
Proof.
  cbn zeta. revert b.
  induction a as [|x a IH]; intros [|y b]; simpl; try (split_and!; try done; lia).
  case_bool_decide as E; [subst|].
  - destruct (IH b) as (H1 & H2 & H3 & H4). simpl.
    split_and!; [by rewrite H1|lia|lia|done].
  - simpl. split_and!; try done; try lia. by intros ?? [= <-] [= <-].
Qed.

Lemma lex_compare_app p a b : lex_compare (p ++ a) (p ++ b) = lex_compare a b.
Proof. induction p as [|x p IH]; simpl; [done|]. by rewrite Z.ltb_irrefl. Qed.

Lemma lex_compare_refl a : lex_compare a a = 0.
Proof. by apply lex_compare_eq. Qed.

Lemma Bytewise_separator start limit :
  lex_compare start limit < 0 ->
  lex_compare start (Bytewise.FindShortestSeparator start limit) <= 0 /\
  lex_compare (Bytewise.FindShortestSeparator start limit) limit < 0.
Proof.
  intros Hlt. unfold Bytewise.FindShortestSeparator.
  set (n := Bytewise.common_prefix start limit).
  pose proof (lex_compare_refl start).
  destruct (Nat.leb_spec (Nat.min (length start) (length limit)) n); [split; [lia|done]|].
  destruct (start !! n) as [s|] eqn:Es; [|split; [lia|done]].
  destruct (limit !! n) as [l|] eqn:El; [|split; [lia|done]].
  destruct (andb _ _) eqn:E; [|split; [lia|done]].
  apply andb_true_iff in E as [E1%Z.ltb_lt E2%Z.ltb_lt].
  pose proof (bZ_range s). pose proof (bZ_range l).
  destruct (common_prefix_split start limit) as (Hp & _). fold n in Hp.
  assert (start = take n start ++ s :: drop (S n) start) as Hs by (symmetry; by apply take_drop_middle).
  assert (limit = take n limit ++ l :: drop (S n) limit) as Hl by (symmetry; by apply take_drop_middle).
  split.
  - rewrite Hs at 1. rewrite lex_compare_app. simpl. rewrite bZ_Zb_small by lia.
    destruct (Z.ltb_spec (bZ s) (bZ s + 1)); lia.
  - rewrite Hl, <- Hp, lex_compare_app. simpl. rewrite bZ_Zb_small by lia.
    destruct (Z.ltb_spec (bZ s + 1) (bZ l)); lia.
Qed.

Lemma Bytewise_successor_loop done key :
  lex_compare (done ++ key) (Bytewise.FindShortSuccessor_loop done key) <= 0.
Proof.
  revert done. induction key as [|b key IH]; intros done; simpl.
  - rewrite app_nil_r, lex_compare_refl. lia.
  - pose proof (bZ_range b). destruct (Z.eqb_spec (bZ b) 255); simpl.
    + specialize (IH (done ++ [b])). by rewrite <- app_assoc in IH.
    + rewrite lex_compare_app. simpl. rewrite bZ_Zb_small by lia.
      destruct (Z.ltb_spec (bZ b) (bZ b + 1)); lia.
Qed.

#[global] Instance Bytewise_order : TotalPreorder Bytewise.Compare any_key.
Proof.
  constructor; unfold Bytewise.Compare.
  - intros a b _ _. rewrite !Slice_compare_lex, (lex_compare_antisym a b). lia.
  - intros x y z _ _ _. rewrite !Slice_compare_lex. apply lex_compare_trans.
Qed.

#[global] Instance Bytewise_laws : ComparatorLaws BytewiseComparator any_key.
Proof.
  constructor; cbn; unfold Bytewise.Compare.
  - apply Bytewise_order.
  - intros a b _ _. rewrite Slice_compare_lex. apply lex_compare_eq.
  - intros start limit _ _. rewrite !Slice_compare_lex. split; [done|]. by apply Bytewise_separator.
  - intros key _. rewrite Slice_compare_lex. split; [done|]. apply (Bytewise_successor_loop [] key).
Qed.

(** The separator of a key from itself is the key. *)
Lemma Bytewise_separator_refl s : Bytewise.FindShortestSeparator s s = s.
Proof.
  unfold Bytewise.FindShortestSeparator. rewrite Nat.min_id.
  assert (Bytewise.common_prefix s s = length s) as ->.
  { induction s as [|b s IH]; simpl; [done|]. by rewrite bool_decide_true, IH. }
  by rewrite Nat.leb_refl.
Qed.

(** ** Properties *)

(** The built-in comparator is a total order on byte strings (antisymmetric,
    transitive, [0] only on equal keys), and its separator and successor stay
    where the comparator contract wants them; the separator is never longer
    than the key it replaces. *)
Theorem BytewiseComparator_correct :
  ComparatorLaws BytewiseComparator any_key /\
  (forall start limit,
     (length (FindShortestSeparator BytewiseComparator start limit) <= length start)%nat).
Proof.
  split; [apply Bytewise_laws|]. intros start limit. cbn.
  unfold Bytewise.FindShortestSeparator.
  destruct (Nat.leb_spec (Nat.min (length start) (length limit))
              (Bytewise.common_prefix start limit)); [done|].
  repeat case_match; try done. rewrite length_app, length_take. simpl. lia.
Qed.
