(* ===== verification/Hashing.v ===== *)
(** util/hash.cpp and util/random.h: the hash behind the bloom filter and the
    caches, and the generator behind the skip list's tower heights. *)

From Stdlib Require Import ZArith Lia List Bool String Znumtheory.
From S2P Require Import Prelude Coding.

(** ** Hash *)

(** [while (data + 4 <= limit)]: one 32-bit word per iteration; returns the
    state and the tail of fewer than four bytes. *)
Fixpoint Hash_words (m h : Z) (data : bytes) : Z * bytes :=
  match data with
  | b0 :: b1 :: b2 :: b3 :: data' =>
      let w := DecodeFixed32 [b0; b1; b2; b3] in
      let h := u32 (h + w) in
      let h := u32 (h * m) in
      let h := Z.lxor h (Z.shiftr h 16) in
      Hash_words m h data'
  | _ => (h, data)
  end.

(** The last case of the [switch], reached by fall through: the multiplier is
    the length [n]. *)
Definition Hash_case1 (n r h : Z) (d0 : byte) : Z :=
  let h := u32 (h + schar d0) in
  let h := u32 (h * n) in
  Z.lxor h (Z.shiftr h r).

(** [Hash(data, n, seed)]; the tail bytes are read through (signed) [char]. *)
Definition Hash (data : bytes) (seed : Z) : Z :=
  let n := Zlength data in
  let m := 0xc6a4a793 in
  let r := 24 in
  let h := Z.lxor seed (u32 (n * m)) in
  let '(h, rest) := Hash_words m h data in
  match rest with
  | [d0; d1; d2] =>
      let h := u32 (h + Z.shiftl (schar d2) 16) in
      let h := u32 (h + Z.shiftl (schar d1) 8) in
      Hash_case1 n r h d0
  | [d0; d1] =>
      let h := u32 (h + Z.shiftl (schar d1) 8) in
      Hash_case1 n r h d0
  | [d0] => Hash_case1 n r h d0
  | _ => h
  end.

(** ** Random *)

Module Random.

Definition M : Z := 2147483647.
Definition A : Z := 16807.

(** The state is [seed_]. *)
Definition new (s : Z) : Z := Z.land s 0x7fffffff.

(** [Next()] returns the new seed, which is also the new state. *)
Definition Next (seed : Z) : Z :=
  let product := u64 (seed * A) in
  let seed := u32 (Z.shiftr product 31 + Z.land product M) in
  if seed >? M then u32 (seed - M) else seed.

(** [Uniform], [OneIn] and [Skewed] return the value and the new state. *)
Definition Uniform (seed n : Z) : Z * Z := let s := Next seed in (s mod n, s).

Definition OneIn (seed n : Z) : bool * Z := let s := Next seed in (s mod n =? 0, s).

Definition Skewed (seed max_log : Z) : Z * Z :=
  let '(l, seed) := Uniform seed (max_log + 1) in Uniform seed (Z.shiftl 1 l).

End Random.

(** ** Lemmas *)

Lemma Hash_words_range m h data : is_u32 h -> is_u32 (Hash_words m h data).1.
Proof.
  revert h. induction data as [data IH] using (induction_ltof1 _ (@length byte)); intros h Hh.
  unfold ltof in IH. destruct data as [|b0 [|b1 [|b2 [|b3 data]]]]; try done.
  cbn [Hash_words]. apply IH; [simpl; lia|].
  apply lxor_lt_pow2; [lia|apply u32_range|].
  pose proof (u32_range (u32 (h + DecodeFixed32 [b0; b1; b2; b3]) * m)) as [? ?].
  rewrite Z.shiftr_div_pow2 by lia.
  split; [apply Z.div_pos; lia|apply Z.div_lt_upper_bound; lia].
Qed.

Lemma Hash_case1_range n h d : is_u32 (Hash_case1 n 24 h d).
Proof.
  unfold Hash_case1. pose proof (u32_range (u32 (h + schar d) * n)) as [? ?].
  apply lxor_lt_pow2; [lia|done|]. rewrite Z.shiftr_div_pow2 by lia.
  split; [apply Z.div_pos; lia|apply Z.div_lt_upper_bound; lia].
Qed.

Lemma Hash_range data seed : is_u32 seed -> is_u32 (Hash data seed).
Proof.
  intros Hs. unfold Hash.
  pose proof (Hash_words_range 0xc6a4a793 (Z.lxor seed (u32 (Zlength data * 0xc6a4a793))) data) as H.
  destruct (Hash_words _ _ data) as [h rest]. simpl in H.
  assert (is_u32 h) by (apply H, lxor_lt_pow2; [lia|done|apply u32_range]).
  repeat case_match; auto using Hash_case1_range.
Qed.

Lemma Random_fold product :
  0 <= product ->
  (Z.shiftr product 31 + Z.land product Random.M) mod Random.M = product mod Random.M.
Proof.
  intros Hp. change Random.M with (Z.ones 31) at 1. rewrite Z.land_ones, Z.shiftr_div_pow2 by lia.
  rewrite (Z.div_mod product (2 ^ 31)) at 3 by lia. change (2 ^ 31) with (Random.M + 1).
  rewrite Z.mul_add_distr_r, Z.mul_1_l, <- Z.add_assoc, Z.mul_comm.
  by rewrite (Z.add_comm (_ * _)), Z.mod_add.
Qed.

Lemma Random_Next_spec seed :
  1 <= seed < Random.M ->
  Random.Next seed = (seed * Random.A) mod Random.M /\ 1 <= Random.Next seed < Random.M.
Proof.
  intros Hs. unfold Random.Next. set (p := seed * Random.A).
  assert (0 <= p < 2 ^ 46) by (unfold p, Random.A, Random.M in *; lia).
  unfold u64. rewrite (Z.mod_small p) by lia. cbn zeta.
  pose proof (Random_fold p ltac:(lia)) as Hfold.
  set (s := Z.shiftr p 31 + Z.land p Random.M) in *.
  assert (0 <= s < 2 ^ 15 + 2 ^ 31) as Hsr.
  { subst s. change Random.M with (Z.ones 31). rewrite Z.land_ones, Z.shiftr_div_pow2 by lia.
    pose proof (Z.mod_pos_bound p (2 ^ 31)). pose proof (Z.div_pos p (2 ^ 31)).
    pose proof (Z.div_lt_upper_bound p (2 ^ 31) (2 ^ 15)). lia. }
  assert (p mod Random.M <> 0) as Hnz.
  { intros Hz%Z.mod_divide; [|done]. unfold p in Hz. rewrite Z.mul_comm in Hz.
    apply Z.gauss in Hz; [|done]. apply Z.divide_pos_le in Hz; lia. }
  unfold u32. rewrite (Z.mod_small s) by lia.
  destruct (Z.gtb_spec s Random.M) as [Hgt|Hle].
  - assert ((s - Random.M) mod Random.M = s - Random.M) as Hm
      by (apply Z.mod_small; unfold Random.M in *; lia).
    rewrite (Z.mod_small (s - Random.M)) by (unfold Random.M in *; lia).
    rewrite <- Hfold. rewrite <- (Z.mod_add s (-1) Random.M) by done.
    replace (s + -1 * Random.M) with (s - Random.M) by lia. rewrite Hm.
    split; [done|]. unfold Random.M in *. lia.
  - destruct (decide (s = Random.M)) as [->|Hne].
    { exfalso. apply Hnz. rewrite <- Hfold. done. }
    rewrite <- Hfold, Z.mod_small by lia. split; [done|]. split; [|lia].
    destruct (decide (s = 0)) as [->|]; [|lia]. exfalso. by apply Hnz; rewrite <- Hfold.
Qed.

(** ** Properties *)

(** [Next] computes [seed * 16807 mod (2^31 - 1)] without dividing, and from
    any seed in [1, 2^31 - 2] (the skip list's seed 0xdeadbeef gives one) the
    state never reaches the two fixed points 0 and 2^31 - 1. *)
Theorem Random_Next_correct (seed : Z) :
  1 <= seed < Random.M ->
  Random.Next seed = (seed * Random.A) mod Random.M /\
  1 <= Random.Next seed < Random.M /\ 1 <= Random.new 0xdeadbeef < Random.M.
Proof. intros H. destruct (Random_Next_spec seed H) as [? ?]. split; [done|split; [done|]]. by vm_compute. Qed.

Lemma Random_Next_correct_witness :
  Random.Next 42 = (42 * Random.A) mod Random.M /\
  1 <= Random.Next 42 < Random.M /\ 1 <= Random.new 0xdeadbeef < Random.M.
Proof. apply Random_Next_correct. unfold Random.M. lia. Defined.
