(* ===== verification/Bloom.v ===== *)
(** leveldb/filter_policy.h and util/bloom.cpp.

    [FilterPolicy] is the virtual interface; [FilterPolicyLaws] is what tables
    rely on: a filter is appended to the destination and never rejects a key it
    was built from.  [Bloom_laws] discharges it for the bloom filter. *)

From Stdlib Require Import ZArith Lia List Bool String Floats.SpecFloat.
From S2P Require Import Prelude Coding Hashing.

Record FilterPolicy := MkFilterPolicy {
  fp_Name : bytes;
  CreateFilter : list bytes -> bytes -> bytes;     (* keys, dst *)
  KeyMayMatch : bytes -> bytes -> bool             (* key, filter *)
}.

(** [n] is an [int], hence the bound on the number of keys. *)
Class FilterPolicyLaws (p : FilterPolicy) : Prop := {
  filter_no_false_negative : forall keys dst, Zlength keys < 2 ^ 31 ->
    exists filter, CreateFilter p keys dst = dst ++ filter /\
      forall key, key ∈ keys -> KeyMayMatch p key filter = true
}.

Module Bloom.

Definition BloomHash (key : bytes) : Z := Hash key 0xbc9f1d34.

(** The double nearest to 0.69 and the double product of the constructor. *)
Definition d069 : spec_float := S754_finite false 6214967485771284 (-53).

(** [static_cast<size_t>] of a non-negative double: truncation. *)
Definition trunc (f : spec_float) : Z :=
  match f with
  | S754_finite false m e => Z.shiftl (Z.pos m) e
  | _ => 0
  end.

(** [k_] as the constructor leaves it. *)
Definition bloom_k (bits_per_key : Z) : Z :=
  let k := trunc (SFmul 53 1024 (double_of_int bits_per_key) d069) in
  let k := if k <? 1 then 1 else k in
  if k >? 30 then 30 else k.

(** [(h >> 17) | (h << 15)] *)
Definition rot (h : Z) : Z := Z.lor (Z.shiftr h 17) (u32 (Z.shiftl h 15)).

(** [array[bitpos/8] |= (1 << (bitpos % 8))] *)
Definition set_bit (array : bytes) (bitpos : Z) : bytes :=
  alter (fun b => Zb (Z.lor (bZ b) (Z.shiftl 1 (bitpos mod 8)))) (Z.to_nat (bitpos / 8)) array.

(** [(array[bitpos/8] & (1 << (bitpos % 8))) != 0] *)
Definition get_bit (array : bytes) (bitpos : Z) : bool :=
  match array !! Z.to_nat (bitpos / 8) with
  | Some b => negb (Z.land (bZ b) (Z.shiftl 1 (bitpos mod 8)) =? 0)
  | None => false
  end.

(** The inner loop [for (j = 0; j < k_; ++j)] of [CreateFilter]. *)
Fixpoint add_probes (k : nat) (bits delta h : Z) (array : bytes) : bytes :=
  match k with
  | O => array
  | S k' =>
      let bitpos := h mod bits in
      add_probes k' bits delta (u32 (h + delta)) (set_bit array bitpos)
  end.

Definition add_key (k : nat) (bits : Z) (array : bytes) (key : bytes) : bytes :=
  let h := BloomHash key in
  let delta := rot h in
  add_probes k bits delta h array.

Definition CreateFilter (bits_per_key : Z) (keys : list bytes) (dst : bytes) : bytes :=
  let n := Zlength keys in
  let bits := u64 (n * bits_per_key) in
  let bits := if bits <? 64 then 64 else bits in
  let nbytes := (bits + 7) / 8 in
  let bits := nbytes * 8 in
  let k := bloom_k bits_per_key in
  let array := replicate (Z.to_nat nbytes) Byte.x00 ++ [Zb k] in
  dst ++ fold_left (add_key (Z.to_nat k) bits) keys array.

(** The loop of [KeyMayMatch]. *)
Fixpoint probes_match (k : nat) (bits delta h : Z) (array : bytes) : bool :=
  match k with
  | O => true
  | S k' =>
      let bitpos := h mod bits in
      if get_bit array bitpos then probes_match k' bits delta (u32 (h + delta)) array
      else false
  end.

(** [k] is the last char of the filter widened to [size_t]: a negative char
    becomes huge. *)
Definition KeyMayMatch (key bloom_filter : bytes) : bool :=
  let len := Zlength bloom_filter in
  if len <? 2 then false
  else
    let bits := (len - 1) * 8 in
    let k := match last bloom_filter with Some c => u64 (schar c) | None => 0 end in
    if k >? 30 then true
    else
      let h := BloomHash key in
      let delta := rot h in
      probes_match (Z.to_nat k) bits delta h bloom_filter.

End Bloom.

Definition NewBloomFilterPolicy (bits_per_key : Z) : FilterPolicy := {|
  fp_Name := str "leveldb.BuiltinBloomFilter";
  CreateFilter := Bloom.CreateFilter bits_per_key;
  KeyMayMatch := Bloom.KeyMayMatch
|}.

(** ** Bits of the array *)

Lemma shiftl1_byte i : 0 <= i < 8 -> 0 <= Z.shiftl 1 i < 256.
Proof.
  intros. rewrite Z.shiftl_mul_pow2, Z.mul_1_l by lia. split; [apply Z.pow_nonneg; lia|].
  change 256 with (2 ^ 8). apply Z.pow_lt_mono_r; lia.
Qed.

Lemma land_shiftl1 x i : 0 <= i -> (Z.land x (Z.shiftl 1 i) =? 0) = negb (Z.testbit x i).
Proof.
  intros Hi. rewrite Z.shiftl_1_l. destruct (Z.testbit x i) eqn:E.
  - apply Z.eqb_neq. intros H. apply (f_equal (fun y => Z.testbit y i)) in H.
    rewrite Z.land_spec, E, Z.pow2_bits_true, Z.bits_0 in H by done. done.
  - apply Z.eqb_eq, Z.bits_inj'. intros j Hj. rewrite Z.land_spec, Z.bits_0.
    rewrite Z.pow2_bits_eqb by done. destruct (Z.eqb_spec i j) as [->|]; [by rewrite E|].
    apply andb_false_r.
Qed.

Lemma length_set_bit a p : length (Bloom.set_bit a p) = length a.
Proof. apply length_alter. Qed.

Lemma get_set_bit_same a p :
  0 <= p < 8 * Zlength a -> Bloom.get_bit (Bloom.set_bit a p) p = true.
Proof.
  intros Hp. unfold Bloom.get_bit, Bloom.set_bit. rewrite list_lookup_alter_eq.
  assert (Z.to_nat (p / 8) < length a)%nat as [b ->]%lookup_lt_is_Some_2.
  { unfold Zlength in Hp. pose proof (Z.div_lt_upper_bound p 8 (Z.of_nat (length a))).
    pose proof (Z.div_pos p 8). lia. }
  cbn. pose proof (Z.mod_pos_bound p 8). pose proof (bZ_range b).
  pose proof (shiftl1_byte (p mod 8)).
  rewrite bZ_Zb_small by (apply (lor_lt_pow2 _ _ 8); simpl; lia).
  rewrite land_shiftl1, negb_involutive, Z.lor_spec, Z.shiftl_1_l by lia.
  rewrite Z.pow2_bits_true by lia. apply orb_true_r.
Qed.

Lemma get_set_bit_mono a p q :
  0 <= p -> 0 <= q ->
  Bloom.get_bit a q = true -> Bloom.get_bit (Bloom.set_bit a p) q = true.
Proof.
  intros Hp Hq. unfold Bloom.get_bit, Bloom.set_bit.
  destruct (decide (Z.to_nat (p / 8) = Z.to_nat (q / 8))) as [Heq|Hne].
  - rewrite Heq, list_lookup_alter_eq. destruct (a !! Z.to_nat (q / 8)) as [b|]; [cbn|done].
    pose proof (Z.mod_pos_bound p 8). pose proof (Z.mod_pos_bound q 8). pose proof (bZ_range b).
    pose proof (shiftl1_byte (p mod 8)).
    rewrite bZ_Zb_small by (apply (lor_lt_pow2 _ _ 8); simpl; lia).
    rewrite !land_shiftl1, !negb_involutive, Z.lor_spec by lia. by intros ->.
  - by rewrite list_lookup_alter_ne.
Qed.

(** ** The probe loops *)

(** An array for [bits] bits followed by the char that holds [k]. *)
Definition filter_array (bits : Z) (c : byte) (a : bytes) : Prop :=
  0 < bits /\ bits = (Zlength a - 1) * 8 /\ last a = Some c.

Lemma set_bit_filter_array bits c a p :
  0 <= p < bits -> filter_array bits c a -> filter_array bits c (Bloom.set_bit a p).
Proof.
  intros Hp (Hb & Hl & Hc). unfold filter_array, Zlength in *. rewrite length_set_bit.
  split_and!; try done. rewrite last_lookup in *. rewrite length_set_bit.
  unfold Bloom.set_bit. rewrite list_lookup_alter_ne; [done|].
  pose proof (Z.div_lt_upper_bound p 8 (Z.of_nat (length a) - 1)).
  pose proof (Z.div_pos p 8). lia.
Qed.

Lemma u32_nonneg z : 0 <= u32 z.
Proof. apply u32_range. Qed.
#[local] Hint Resolve u32_nonneg Z.mod_pos_bound : core.

Lemma add_probes_filter_array k bits delta h c a :
  0 <= h -> filter_array bits c a -> filter_array bits c (Bloom.add_probes k bits delta h a).
Proof.
  revert h a. induction k as [|k IH]; intros h a Hh Ha; [done|]. cbn.
  apply IH, set_bit_filter_array; auto. apply Z.mod_pos_bound, Ha.
Qed.

Lemma add_probes_mono k bits delta h a q :
  0 < bits -> 0 <= h -> 0 <= q -> Bloom.get_bit a q = true ->
  Bloom.get_bit (Bloom.add_probes k bits delta h a) q = true.
Proof.
  intros Hb. revert h a. induction k as [|k IH]; intros h a Hh Hq Ha; [done|].
  apply IH; auto. apply get_set_bit_mono; auto. by apply Z.mod_pos_bound.
Qed.

(** Every probe of a key that was added is set, in the array the key was added
    to and in every array that has at least its bits. *)
Lemma add_probes_match k bits delta h c a a' :
  0 <= h -> filter_array bits c a ->
  (forall q, 0 <= q -> Bloom.get_bit (Bloom.add_probes k bits delta h a) q = true ->
             Bloom.get_bit a' q = true) ->
  Bloom.probes_match k bits delta h a' = true.
Proof.
  revert h a. induction k as [|k IH]; intros h a Hh Ha Hsub; [done|].
  cbn in *. pose proof Ha as (Hb & Hl & _).
  pose proof (Z.mod_pos_bound h bits Hb). rewrite Hsub; [|lia|].
  - eapply IH; [auto|by apply set_bit_filter_array|done].
  - apply add_probes_mono; auto; [lia|]. apply get_set_bit_same. lia.
Qed.

Lemma BloomHash_nonneg key : 0 <= Bloom.BloomHash key.
Proof. apply Hash_range. unfold is_u32. lia. Qed.

Lemma add_keys_filter_array k bits c keys a :
  filter_array bits c a -> filter_array bits c (fold_left (Bloom.add_key k bits) keys a).
Proof.
  revert a. induction keys as [|key keys IH]; intros a Ha; [done|]. cbn.
  apply IH, add_probes_filter_array; [apply BloomHash_nonneg|done].
Qed.

Lemma add_keys_mono k bits keys a q :
  0 < bits -> 0 <= q -> Bloom.get_bit a q = true ->
  Bloom.get_bit (fold_left (Bloom.add_key k bits) keys a) q = true.
Proof.
  intros Hb Hq. revert a. induction keys as [|key keys IH]; intros a Ha; [done|]. cbn.
  apply IH, add_probes_mono; auto using BloomHash_nonneg.
Qed.

Lemma add_keys_match k bits c keys key a :
  filter_array bits c a -> key ∈ keys ->
  Bloom.probes_match k bits (Bloom.rot (Bloom.BloomHash key)) (Bloom.BloomHash key)
    (fold_left (Bloom.add_key k bits) keys a) = true.
Proof.
  intros Ha Hin. revert a Ha. induction Hin as [key keys|key y keys Hin IH]; intros a Ha; cbn.
  - eapply add_probes_match; [apply BloomHash_nonneg|exact Ha|].
    intros q Hq. apply add_keys_mono; [apply Ha|done].
  - apply IH, add_probes_filter_array; [apply BloomHash_nonneg|done].
Qed.

Lemma bloom_k_range b : 1 <= Bloom.bloom_k b <= 30.
Proof.
  unfold Bloom.bloom_k. set (k := Bloom.trunc _).
  destruct (Z.ltb_spec k 1); [by simpl|]. destruct (Z.gtb_spec k 30); lia.
Qed.

#[global] Instance Bloom_laws bits_per_key :
  0 <= bits_per_key < 2 ^ 31 -> FilterPolicyLaws (NewBloomFilterPolicy bits_per_key).
Proof.
  intros Hb. constructor. intros keys dst Hn. cbn. unfold Bloom.CreateFilter.
  pose proof (Zlength_nonneg keys). unfold u64. rewrite Z.mod_small by nia.
  set (bits := if _ <? _ then _ else _). set (nb := (bits + 7) / 8).
  pose proof (bloom_k_range bits_per_key) as Hk. set (k := Bloom.bloom_k bits_per_key) in *.
  assert (8 <= nb) as Hnb.
  { apply Z.div_le_lower_bound; [lia|]. subst bits.
    destruct (Z.ltb_spec (Zlength keys * bits_per_key) 64); lia. }
  assert (filter_array (nb * 8) (Zb k) (replicate (Z.to_nat nb) Byte.x00 ++ [Zb k])) as Hinit.
  { split_and!; [lia| |apply last_snoc]. unfold Zlength. rewrite length_app, length_replicate.
    simpl. lia. }
  set (a := _ ++ _) in *. eexists. split; [reflexivity|]. intros key Hin.
  pose proof (add_keys_filter_array (Z.to_nat k) _ _ keys _ Hinit) as (H1 & H2 & H3).
  set (f := fold_left _ _ _) in *. unfold Bloom.KeyMayMatch. rewrite H3, <- H2.
  destruct (Z.ltb_spec (Zlength f) 2); [lia|].
  assert (u64 (schar (Zb k)) = k) as ->.
  { unfold schar. rewrite bZ_Zb_small by lia. destruct (Z.ltb_spec k 128); [|lia].
    apply u64_small. unfold is_u64. lia. }
  destruct (Z.gtb_spec k 30); [done|]. by eapply add_keys_match.
Qed.

(** ** Properties *)

(** A bloom filter never denies a key it was built from, for every set of
    keys and every configuration of bits per key, and it is appended to the
    destination without touching what was there. *)
Theorem bloom_no_false_negatives (bits_per_key : Z) (keys : list bytes) (dst key : bytes) :
  0 <= bits_per_key < 2 ^ 31 -> Zlength keys < 2 ^ 31 -> key ∈ keys ->
  exists filter, Bloom.CreateFilter bits_per_key keys dst = dst ++ filter /\
    Bloom.KeyMayMatch key filter = true.
Proof.
  intros Hb Hn Hin.
  destruct (@filter_no_false_negative _ (Bloom_laws _ Hb) keys dst Hn) as (f & H1 & H2).
  eauto.
Qed.

Lemma bloom_no_false_negatives_witness :
  exists filter,
    Bloom.CreateFilter 10 [str "hello"; str "world"] (str "x") = str "x" ++ filter /\
    Bloom.KeyMayMatch (str "world") filter = true.
Proof.
  apply bloom_no_false_negatives; [lia|unfold Zlength; simpl; lia|].
  apply list_elem_of_In. simpl. auto.
Defined.
