(* ===== verification/Filename.v ===== *)
(** util/logging.{h,cpp} and db/filename.{h,cpp}: number printing and parsing,
    the names of the files of a database, and their recognition.  The assertions
    [number > 0] of the functions that make names are not modelled: theorems that
    name files take positive numbers where the code asserts it. *)

From Stdlib Require Import ZArith Lia List Bool String.
From S2P Require Import Prelude Coding Slice.

(** ** util/logging.cpp *)

Definition AppendNumberTo (s : bytes) (num : Z) : bytes := s ++ print_dec num.

Definition hex_digit (d : Z) : byte := if d <? 10 then Zb (48 + d) else Zb (87 + d).

(** [push_back(c)] for a printable char, [\x%02x] otherwise; [c] is a signed
    char in the comparison. *)
Definition escape_char (c : byte) : bytes :=
  if (schar c >=? 32) && (schar c <=? 126) then [c]
  else str "\x" ++ [hex_digit (bZ c / 16); hex_digit (bZ c mod 16)].

Definition AppendEscapedStringTo (s value : bytes) : bytes := s ++ concat (map escape_char value).

Definition NumberToString (num : Z) : bytes := AppendNumberTo [] num.

Definition EscapeString (value : bytes) : bytes := AppendEscapedStringTo [] value.

Definition kMaxUint64 : Z := 2 ^ 64 - 1.

Definition is_digit (c : byte) : bool := (schar c >=? 48) && (schar c <=? 57).

(** The [while (!in->empty())] loop; [None] is the [return false] on overflow. *)
Fixpoint ConsumeDecimalNumber_loop (input : bytes) (v : Z) (digits : nat) : option (Z * nat * bytes) :=
  match input with
  | [] => Some (v, digits, input)
  | c :: input' =>
      if is_digit c then
        let delta := schar c - 48 in
        if (v >? kMaxUint64 / 10) || ((v =? kMaxUint64 / 10) && (delta >? kMaxUint64 mod 10)) then None
        else ConsumeDecimalNumber_loop input' (u64 (v * 10 + delta)) (S digits)
      else Some (v, digits, input)
  end.

(** [Some (val, rest)] when it returns true. *)
Definition ConsumeDecimalNumber (input : bytes) : option (Z * bytes) :=
  match ConsumeDecimalNumber_loop input 0 0 with
  | Some (v, digits, rest) => if (0 <? digits)%nat then Some (v, rest) else None
  | None => None
  end.

(** ** db/filename.cpp *)

Inductive FileType :=
  kLogFile | kDBLockFile | kTableFile | kDescriptorFile | kCurrentFile | kTempFile | kInfoLogFile.

#[global] Instance FileType_eq_dec : EqDecision FileType.
Proof. solve_decision. Defined.

(** [%06llu] *)
Definition print_dec6 (number : Z) : bytes :=
  let d := print_dec number in replicate (6 - length d) (digit 0) ++ d.

Definition MakeFileName (name : bytes) (number : Z) (suffix : bytes) : bytes :=
  name ++ str "/" ++ print_dec6 number ++ str "." ++ suffix.

Definition LogFileName (name : bytes) (number : Z) : bytes := MakeFileName name number (str "log").

Definition TableFileName (name : bytes) (number : Z) : bytes := MakeFileName name number (str "sst").

Definition DescriptorFileName (dbname : bytes) (number : Z) : bytes :=
  dbname ++ str "/MANIFEST-" ++ print_dec6 number.

Definition CurrentFileName (dbname : bytes) : bytes := dbname ++ str "/CURRENT".

Definition LockFileName (dbname : bytes) : bytes := dbname ++ str "/LOCK".

Definition TempFileName (dbname : bytes) (number : Z) : bytes := MakeFileName dbname number (str "dbtmp").

Definition InfoLogFileName (dbname : bytes) : bytes := dbname ++ str "/LOG".

Definition OldInfoLogFileName (dbname : bytes) : bytes := dbname ++ str "/LOG.old".

(** [Some (number, type)] when it returns true. *)
Definition ParseFileName (fname : bytes) : option (Z * FileType) :=
  let rest := fname in
  if Slice.eqb rest (str "CURRENT") then Some (0, kCurrentFile)
  else if Slice.eqb rest (str "LOCK") then Some (0, kDBLockFile)
  else if Slice.eqb rest (str "LOG") || Slice.eqb rest (str "LOG.old") then Some (0, kInfoLogFile)
  else if Slice.starts_with rest (str "MANIFEST-") then
    let rest := Slice.remove_prefix rest (Zlength (str "MANIFEST-")) in
    match ConsumeDecimalNumber rest with
    | None => None
    | Some (num, rest) => if negb (Slice.empty rest) then None else Some (num, kDescriptorFile)
    end
  else
    match ConsumeDecimalNumber rest with
    | None => None
    | Some (num, suffix) =>
        if Slice.eqb suffix (str ".log") then Some (num, kLogFile)
        else if Slice.eqb suffix (str ".sst") then Some (num, kTableFile)
        else if Slice.eqb suffix (str ".dbtmp") then Some (num, kTempFile)
        else None
    end.

(** ** Decimal lemmas *)

Lemma digit_schar d : 0 <= d < 10 -> schar (digit d) = 48 + d.
Proof.
  intros. unfold schar, digit. rewrite bZ_Zb_small by lia.
  destruct (Z.ltb_spec (48 + d) 128); lia.
Qed.

Lemma is_digit_digit d : 0 <= d < 10 -> is_digit (digit d) = true.
Proof.
  intros. unfold is_digit. rewrite digit_schar by done.
  destruct (Z.geb_spec (48 + d) 48), (Z.leb_spec (48 + d) 57); done || lia.
Qed.

(** One digit that does not overflow. *)
Lemma Consume_loop_digit d rest v n :
  0 <= d < 10 -> 0 <= v -> v * 10 + d < 2 ^ 64 ->
  ConsumeDecimalNumber_loop (digit d :: rest) v n =
    ConsumeDecimalNumber_loop rest (v * 10 + d) (S n).
Proof.
  intros Hd Hv Hb. cbn [ConsumeDecimalNumber_loop].
  rewrite is_digit_digit, digit_schar by done.
  replace (48 + d - 48) with d by lia.
  change (kMaxUint64 / 10) with 1844674407370955161. change (kMaxUint64 mod 10) with 5.
  destruct (Z.gtb_spec v 1844674407370955161); [lia|]. cbn [orb].
  destruct (Z.eqb_spec v 1844674407370955161), (Z.gtb_spec d 5); cbn [andb]; try lia;
    rewrite u64_small by (unfold is_u64; lia); done.
Qed.

Lemma Consume_loop_print fuel z rest n :
  (0 < fuel)%nat -> 0 <= z < 10 ^ Z.of_nat fuel -> z < 2 ^ 64 ->
  ConsumeDecimalNumber_loop (print_dec_loop fuel z ++ rest) 0 n =
    ConsumeDecimalNumber_loop rest z (n + length (print_dec_loop fuel z)).
Proof.
  revert z rest. induction fuel as [|fuel IH]; intros z rest Hf Hz Hb; [lia|].
  cbn [print_dec_loop]. destruct (Z.ltb_spec z 10).
  { cbn [app]. rewrite Consume_loop_digit by lia. cbn [length]. f_equal; lia. }
  rewrite Nat2Z.inj_succ, Z.pow_succ_r in Hz by lia. destruct fuel as [|fuel]; [lia|].
  pose proof (Z.div_mod z 10 ltac:(lia)). pose proof (Z.mod_pos_bound z 10 ltac:(lia)).
  assert (0 <= z / 10 < 10 ^ Z.of_nat (S fuel))
    by (split; [apply Z.div_pos; lia|apply Z.div_lt_upper_bound; lia]).
  rewrite <- app_assoc, IH by lia. cbn [app]. rewrite Consume_loop_digit by lia.
  rewrite length_app. simpl length. f_equal; lia.
Qed.

Lemma Consume_loop_zeros k rest n :
  ConsumeDecimalNumber_loop (replicate k (digit 0) ++ rest) 0 n =
    ConsumeDecimalNumber_loop rest 0 (n + k).
Proof.
  revert n. induction k as [|k IH]; intros n; [by rewrite Nat.add_0_r|].
  cbn [replicate app]. rewrite Consume_loop_digit, IH by lia. f_equal. lia.
Qed.

Lemma print_dec_loop_length fuel z : (0 < fuel)%nat -> (0 < length (print_dec_loop fuel z))%nat.
Proof. destruct fuel; [lia|]. intros _. simpl. case_match; rewrite ?length_app; simpl; lia. Qed.

(** Parsing a number printed with [%06llu], whatever non-digit follows. *)
Lemma Consume_print_dec6 z rest :
  is_u64 z -> (forall c r, rest = c :: r -> is_digit c = false) ->
  ConsumeDecimalNumber (print_dec6 z ++ rest) = Some (z, rest).
Proof.
  intros [H0 H] Hr. unfold ConsumeDecimalNumber, print_dec6, print_dec.
  rewrite <- app_assoc, Consume_loop_zeros, Consume_loop_print by lia.
  pose proof (print_dec_loop_length 20 z ltac:(lia)).
  set (len := (0 + (6 - length (print_dec_loop 20 z)) + length (print_dec_loop 20 z))%nat).
  assert (0 < len)%nat as Hlen by lia. apply Nat.ltb_lt in Hlen.
  destruct rest as [|c r]; cbn [ConsumeDecimalNumber_loop]; [by rewrite Hlen|].
  by rewrite (Hr c r eq_refl), Hlen.
Qed.

Lemma print_dec_loop_head fuel z :
  (0 < fuel)%nat -> 0 <= z -> exists d r, 0 <= d < 10 /\ print_dec_loop fuel z = digit d :: r.
Proof.
  revert z. induction fuel as [|fuel IH]; intros z Hf Hz; [lia|]. cbn [print_dec_loop].
  destruct (Z.ltb_spec z 10); [by eexists _, []|].
  destruct fuel as [|fuel].
  - exists (z mod 10), []. split; [apply Z.mod_pos_bound; lia|done].
  - destruct (IH (z / 10)) as (d & r & Hd & ->); [lia|apply Z.div_pos; lia|]. by eexists _, _.
Qed.

Lemma print_dec6_head z : 0 <= z -> exists d r, 0 <= d < 10 /\ print_dec6 z = digit d :: r.
Proof.
  intros Hz. unfold print_dec6.
  destruct (print_dec_loop_head 20 z) as (d & r & Hd & Hp); [lia|done|].
  unfold print_dec. rewrite Hp. destruct (6 - _)%nat as [|k]; [by eexists _, _|].
  cbn [replicate app]. by eexists 0, _.
Qed.

(** ** File names *)

Lemma digit_neq d c r s : 0 <= d < 10 -> 57 < bZ c -> digit d :: r <> c :: s.
Proof.
  intros Hd Hc [= <- _]. unfold digit in Hc. rewrite bZ_Zb_small in Hc by lia. lia.
Qed.

(** A name that starts with a digit is a numbered file or nothing. *)
Lemma ParseFileName_numeric d r :
  0 <= d < 10 ->
  ParseFileName (digit d :: r) =
    match ConsumeDecimalNumber (digit d :: r) with
    | None => None
    | Some (num, suffix) =>
        if bool_decide (suffix = str ".log") then Some (num, kLogFile)
        else if bool_decide (suffix = str ".sst") then Some (num, kTableFile)
        else if bool_decide (suffix = str ".dbtmp") then Some (num, kTempFile)
        else None
    end.
Proof.
  intros Hd. unfold ParseFileName. rewrite !Slice_eqb_spec.
  rewrite !bool_decide_false by (by apply digit_neq). cbn [orb].
  destruct (Slice.starts_with (digit d :: r) (str "MANIFEST-")) eqn:E.
  { apply Slice_starts_with_spec in E as [t E]. by apply digit_neq in E. }
  destruct (ConsumeDecimalNumber (digit d :: r)) as [[num suffix]|]; [|done].
  by rewrite !Slice_eqb_spec.
Qed.

(** A numbered file name: [%06llu] followed by a suffix. *)
Lemma ParseFileName_numbered n suffix ft :
  is_u64 n ->
  (suffix, ft) ∈ [(str ".log", kLogFile); (str ".sst", kTableFile); (str ".dbtmp", kTempFile)] ->
  ParseFileName (print_dec6 n ++ suffix) = Some (n, ft).
Proof.
  intros Hn Hin. destruct (print_dec6_head n) as (d & r & Hd & Hp); [apply Hn|].
  rewrite Hp. cbn [app]. rewrite ParseFileName_numeric by done.
  change (digit d :: r ++ suffix) with ((digit d :: r) ++ suffix). rewrite <- Hp.
  rewrite Consume_print_dec6; [|done|].
  - rewrite !elem_of_cons in Hin. rewrite elem_of_nil in Hin.
    by destruct Hin as [[= -> ->]|[[= -> ->]|[[= -> ->]|[]]]].
  - intros c s ->. rewrite !elem_of_cons in Hin. rewrite elem_of_nil in Hin.
    by destruct Hin as [[= -> ? ?]|[[= -> ? ?]|[[= -> ? ?]|[]]]].
Qed.

Lemma ParseFileName_manifest n :
  is_u64 n -> ParseFileName (str "MANIFEST-" ++ print_dec6 n) = Some (n, kDescriptorFile).
Proof.
  intros Hn. unfold ParseFileName. rewrite !Slice_eqb_spec.
  rewrite !bool_decide_false by done. cbn [orb].
  assert (Slice.starts_with (str "MANIFEST-" ++ print_dec6 n) (str "MANIFEST-") = true) as ->.
  { apply Slice_starts_with_spec. eauto. }
  unfold Slice.remove_prefix. rewrite drop_Zlength_app.
  rewrite <- (app_nil_r (print_dec6 n)), Consume_print_dec6 by done. done.
Qed.

Lemma Consume_loop_range input v n v' n' rest :
  is_u64 v -> ConsumeDecimalNumber_loop input v n = Some (v', n', rest) -> is_u64 v'.
Proof.
  revert v n. induction input as [|c input IH]; intros v n Hv; cbn [ConsumeDecimalNumber_loop].
  { by intros [= <- _ _]. }
  destruct (is_digit c); [|by intros [= <- _ _]]. case_match; [done|]. apply IH, u64_range.
Qed.

Lemma ConsumeDecimalNumber_range input v rest :
  ConsumeDecimalNumber input = Some (v, rest) -> is_u64 v.
Proof.
  unfold ConsumeDecimalNumber. destruct (ConsumeDecimalNumber_loop input 0 0) as [[[v' n'] r]|] eqn:E; [|done].
  case_match; [|done]. intros [= <- _]. eapply Consume_loop_range, E. unfold is_u64. lia.
Qed.

(** ** Properties *)

(** Tables with different numbers have different names. *)
Lemma TableFileName_inj db n m : is_u64 n -> is_u64 m -> TableFileName db n = TableFileName db m -> n = m.
Proof.
  intros Hn Hm E. unfold TableFileName, MakeFileName in E. apply app_inv_head, app_inv_head in E.
  apply (f_equal ParseFileName) in E.
  change (str "." ++ str "sst") with (str ".sst") in E.
  rewrite !(ParseFileName_numbered _ _ kTableFile) in E by (done || (rewrite !elem_of_cons; tauto)). by injection E.
Qed.

(** Every name the database generates is its directory followed by a base
    name that [ParseFileName] recognises with the same number and type (tables,
    logs, temporaries and manifests of every 64-bit number, and the fixed
    names), and whatever [ParseFileName] accepts carries a 64-bit number. *)
Theorem filename_roundtrip (db : bytes) (n : Z) :
  is_u64 n ->
  (exists f, LogFileName db n = db ++ str "/" ++ f /\ ParseFileName f = Some (n, kLogFile)) /\
  (exists f, TableFileName db n = db ++ str "/" ++ f /\ ParseFileName f = Some (n, kTableFile)) /\
  (exists f, TempFileName db n = db ++ str "/" ++ f /\ ParseFileName f = Some (n, kTempFile)) /\
  (exists f, DescriptorFileName db n = db ++ str "/" ++ f /\ ParseFileName f = Some (n, kDescriptorFile)) /\
  (exists f, CurrentFileName db = db ++ str "/" ++ f /\ ParseFileName f = Some (0, kCurrentFile)) /\
  (exists f, LockFileName db = db ++ str "/" ++ f /\ ParseFileName f = Some (0, kDBLockFile)) /\
  (exists f, InfoLogFileName db = db ++ str "/" ++ f /\ ParseFileName f = Some (0, kInfoLogFile)) /\
  (forall f m ft, ParseFileName f = Some (m, ft) -> is_u64 m).
Proof.
  intros Hn. split_and!.
  5-7: eexists; split; [reflexivity|reflexivity].
  1-3: eexists; split; [reflexivity|]; apply ParseFileName_numbered; [done|];
    rewrite !elem_of_cons; tauto.
  - exists (str "MANIFEST-" ++ print_dec6 n). split; [done|]. by apply ParseFileName_manifest.
  - intros f m ft. unfold ParseFileName. assert (is_u64 0) by (unfold is_u64; lia).
    repeat case_match; intros; simplify_eq; eauto using ConsumeDecimalNumber_range.
Qed.

Lemma filename_roundtrip_witness :
  exists f, TableFileName (str "/tmp/db") 18446744073709551615 = str "/tmp/db" ++ str "/" ++ f /\
    ParseFileName f = Some (18446744073709551615, kTableFile).
Proof. apply (filename_roundtrip (str "/tmp/db") 18446744073709551615). unfold is_u64. lia. Defined.
