(* ===== verification/Env.v ===== *)
(** leveldb/env.h, util/env.cpp and [SetCurrentFile] of db/filename.cpp.

    [Env] is a virtual interface over the operating system, so the model takes
    its operations as a parameter: [EnvOps] over an abstract state, each
    operation returning a status and the new state, and [EnvLaws], what env.h
    documents of them in terms of [contents], the contents of the named files.
    A failed operation may have damaged the file it was given, except that a
    failed rename changes nothing.  [MemEnv] is an in-memory instance with a
    script of injected failures.  [EnvDurable] adds what a crash would leave: a
    [Sync] that succeeds makes the contents of its file durable; [SyncedEnv] is an
    instance. *)

From Stdlib Require Import ZArith Lia List Bool String.
From S2P Require Import Prelude Coding Slice Filename.

(** ** Sequential files

    [SequentialFile::Read(n)] as the Posix implementation provides it: all of
    [n] bytes unless the file ends first ([fread]); [sf_faults] scripts the
    outcome of the coming calls (none left: success), a status and, when it is an
    error, how many bytes were delivered before it. *)

Record SequentialFile := MkSequentialFile {
  sf_data : bytes;                  (* the bytes not yet read *)
  sf_faults : list (Status * nat)   (* outcome of the coming calls *)
}.

Definition next_fault (f : SequentialFile) : Status * nat * list (Status * nat) :=
  match sf_faults f with
  | [] => (Status_OK, 0%nat, [])
  | (s, k) :: rest => (s, k, rest)
  end.

Definition SequentialFile_Read (f : SequentialFile) (n : Z) : Status * bytes * SequentialFile :=
  let '(s, k, faults) := next_fault f in
  let m := if ok s then Z.to_nat n else Nat.min (Z.to_nat n) k in
  (s, take m (sf_data f), MkSequentialFile (drop m (sf_data f)) faults).

(** Seeking past the end is not an error; later reads deliver nothing. *)
Definition SequentialFile_Skip (f : SequentialFile) (n : Z) : Status * SequentialFile :=
  let '(s, _, faults) := next_fault f in
  if ok s then (s, MkSequentialFile (drop (Z.to_nat n) (sf_data f)) faults)
  else (s, MkSequentialFile (sf_data f) faults).

(** ** The interface *)

Record EnvOps (St : Type) := MkEnvOps {
  NewWritableFile : St -> bytes -> Status * St;
  file_Append : St -> bytes -> bytes -> Status * St;
  file_Sync : St -> bytes -> Status * St;
  file_Close : St -> bytes -> Status * St;
  env_DeleteFile : St -> bytes -> Status * St;
  RenameFile : St -> bytes -> bytes -> Status * St;
  file_Flush : St -> bytes -> Status * St;
  NewSequentialFile : St -> bytes -> Status * SequentialFile * St
}.
Arguments NewWritableFile {_}.
Arguments file_Append {_}.
Arguments file_Sync {_}.
Arguments file_Close {_}.
Arguments env_DeleteFile {_}.
Arguments RenameFile {_}.
Arguments file_Flush {_}.
Arguments NewSequentialFile {_}.

(** A file operation touches only the file it names. *)
Definition touches_only {St} (contents : St -> bytes -> option bytes)
    (fname : bytes) (st st' : St) : Prop :=
  forall f, f <> fname -> contents st' f = contents st f.

Class EnvLaws {St} (env : EnvOps St) (contents : St -> bytes -> option bytes) : Prop := {
  new_frame : forall st f, touches_only contents f st (NewWritableFile env st f).2;
  new_ok : forall st f, ok (NewWritableFile env st f).1 = true ->
    contents (NewWritableFile env st f).2 f = Some [];
  append_frame : forall st f d, touches_only contents f st (file_Append env st f d).2;
  append_ok : forall st f d old, contents st f = Some old ->
    ok (file_Append env st f d).1 = true -> contents (file_Append env st f d).2 f = Some (old ++ d);
  sync_same : forall st f g, contents (file_Sync env st f).2 g = contents st g;
  flush_same : forall st f g, contents (file_Flush env st f).2 g = contents st g;
  close_same : forall st f g, contents (file_Close env st f).2 g = contents st g;
  delete_frame : forall st f, touches_only contents f st (env_DeleteFile env st f).2;
  rename_ok : forall st a b, a <> b -> ok (RenameFile env st a b).1 = true ->
    contents (RenameFile env st a b).2 b = contents st a;
  rename_frame : forall st a b f, f <> a -> f <> b ->
    contents (RenameFile env st a b).2 f = contents st f;
  rename_fail : forall st a b f, ok (RenameFile env st a b).1 = false ->
    contents (RenameFile env st a b).2 f = contents st f;
  open_same : forall st f g, contents (NewSequentialFile env st f).2 g = contents st g;
  open_ok : forall st f, ok (NewSequentialFile env st f).1.1 = true ->
    contents st f = Some (sf_data (NewSequentialFile env st f).1.2)
}.

(** [quiet st]: nothing fails from here on. *)
Class EnvQuiet {St} (env : EnvOps St) (contents : St -> bytes -> option bytes) (quiet : St -> Prop) : Prop := {
  quiet_new : forall st f, quiet st ->
    ok (NewWritableFile env st f).1 = true /\ quiet (NewWritableFile env st f).2;
  quiet_append : forall st f d old, quiet st -> contents st f = Some old ->
    ok (file_Append env st f d).1 = true /\ quiet (file_Append env st f d).2;
  quiet_flush : forall st f, quiet st -> contents st f <> None ->
    ok (file_Flush env st f).1 = true /\ quiet (file_Flush env st f).2;
  quiet_sync : forall st f, quiet st -> contents st f <> None ->
    ok (file_Sync env st f).1 = true /\ quiet (file_Sync env st f).2;
  quiet_close : forall st f, quiet st -> contents st f <> None ->
    ok (file_Close env st f).1 = true /\ quiet (file_Close env st f).2;
  quiet_rename : forall st a b, quiet st -> contents st a <> None ->
    ok (RenameFile env st a b).1 = true /\ quiet (RenameFile env st a b).2;
  quiet_open : forall st f d, quiet st -> contents st f = Some d ->
    (NewSequentialFile env st f).1 = (Status_OK, MkSequentialFile d []) /\ quiet (NewSequentialFile env st f).2
}.

(** [durable st f] is what a crash leaves of the file [f]: [Sync] makes the file's
    contents durable, and an operation on one file does not undo what is durable of
    another. *)
Class EnvDurable {St} (env : EnvOps St) (contents durable : St -> bytes -> option bytes) : Prop := {
  sync_durable : forall st f, ok (file_Sync env st f).1 = true -> durable (file_Sync env st f).2 f = contents st f;
  sync_durable_frame : forall st f, touches_only durable f st (file_Sync env st f).2;
  new_durable_frame : forall st f, touches_only durable f st (NewWritableFile env st f).2;
  append_durable_frame : forall st f d, touches_only durable f st (file_Append env st f d).2;
  close_durable_frame : forall st f, touches_only durable f st (file_Close env st f).2;
  delete_durable_frame : forall st f, touches_only durable f st (env_DeleteFile env st f).2;
  rename_durable_frame : forall st a b f, f <> a -> f <> b -> durable (RenameFile env st a b).2 f = durable st f
}.

(** ** util/env.cpp *)

Section Client.
Context {St : Type} (env : EnvOps St).

Definition DoWriteStringToFile (st : St) (data fname : bytes) (should_sync : bool) : Status * St :=
  let '(s, st) := NewWritableFile env st fname in
  if negb (ok s) then (s, st)
  else
    let '(s, st) := file_Append env st fname data in
    let '(s, st) := if ok s && should_sync then file_Sync env st fname else (s, st) in
    let '(s, st) := if ok s then file_Close env st fname else (s, st) in
    let st := if negb (ok s) then (env_DeleteFile env st fname).2 else st in
    (s, st).

Definition WriteStringToFile (st : St) (data fname : bytes) : Status * St :=
  DoWriteStringToFile st data fname false.

Definition WriteStringToFileSync (st : St) (data fname : bytes) : Status * St :=
  DoWriteStringToFile st data fname true.

(** The loop of [ReadFileToString] over 8192-byte fragments.  The length of the file plus two is enough fuel, since only the
    last read is empty ([ReadFileToString_total]). *)
Fixpoint ReadFileToString_loop (fuel : nat) (f : SequentialFile) (data : bytes)
    : option (Status * bytes) :=
  match fuel with
  | O => None
  | S fuel' =>
      let '(s, fragment, f) := SequentialFile_Read f 8192 in
      if negb (ok s) then Some (s, data)
      else
        let data := data ++ fragment in
        if Slice.empty fragment then Some (s, data) else ReadFileToString_loop fuel' f data
  end.

Definition ReadFileToString (st : St) (fname : bytes) : option (Status * bytes * St) :=
  let '(s, f, st) := NewSequentialFile env st fname in
  if negb (ok s) then Some (s, [], st)
  else '(s, data) ← ReadFileToString_loop (length (sf_data f) + 2) f []; Some (s, data, st).

(** ** db/filename.cpp: [SetCurrentFile] *)

Definition SetCurrentFile (st : St) (dbname : bytes) (descriptor_number : Z) : Status * St :=
  let manifest := DescriptorFileName dbname descriptor_number in
  let contents := Slice.remove_prefix manifest (Zlength dbname + 1) in
  let tmp := TempFileName dbname descriptor_number in
  let '(s, st) := WriteStringToFileSync st (contents ++ [Byte.x0a]) tmp in
  let '(s, st) := if ok s then RenameFile env st tmp (CurrentFileName dbname) else (s, st) in
  let st := if negb (ok s) then (env_DeleteFile env st tmp).2 else st in
  (s, st).

End Client.

(** ** An in-memory instance *)

Module MemEnv.

Record St := MkSt { files : gmap bytes bytes; faults : list bool }.

Definition io_error : Status := Status_IOError (str "injected") [].

(** Pop the next scripted failure; run [eff] unless it fires. *)
Definition op (st : St) (eff : gmap bytes bytes -> gmap bytes bytes) : Status * St :=
  match faults st with
  | true :: rest => (io_error, MkSt (files st) rest)
  | _ => (Status_OK, MkSt (eff (files st)) (tail (faults st)))
  end.

Definition ops : EnvOps St := {|
  NewWritableFile st f := op st (fun m => <[f := []]> m);
  file_Append st f d := op st (fun m => <[f := default [] (m !! f) ++ d]> m);
  file_Sync st f := op st (fun m => m);
  file_Close st f := op st (fun m => m);
  env_DeleteFile st f := op st (fun m => delete f m);
  RenameFile st a b := op st (fun m =>
    match m !! a with Some d => <[b := d]> (delete a m) | None => delete b m end);
  file_Flush st f := op st (fun m => m);
  NewSequentialFile st f :=
    let '(s, st) := op st (fun m => m) in
    match files st !! f with
    | Some d => (s, MkSequentialFile d [], st)
    | None => (if ok s then Status_IOError f [] else s, MkSequentialFile [] [], st)
    end
|}.

Definition contents (st : St) (f : bytes) : option bytes := files st !! f.

Definition quiet (st : St) : Prop := Forall (fun b => b = false) (faults st).

End MemEnv.

(** The same file system with, beside each file, what was synced of it. *)
Module SyncedEnv.

Record St := MkSt { mem : MemEnv.St; synced : gmap bytes bytes }.

Definition lift (op : MemEnv.St -> Status * MemEnv.St) (eff : gmap bytes bytes -> gmap bytes bytes) (st : St) : Status * St :=
  let '(s, m) := op (mem st) in (s, MkSt m (if ok s then eff (synced st) else synced st)).

Definition ops : EnvOps St := {|
  NewWritableFile st f := lift (fun m => NewWritableFile MemEnv.ops m f) (delete f) st;
  file_Append st f d := lift (fun m => file_Append MemEnv.ops m f d) id st;
  file_Sync st f := lift (fun m => file_Sync MemEnv.ops m f) (partial_alter (fun _ => MemEnv.contents (mem st) f) f) st;
  file_Close st f := lift (fun m => file_Close MemEnv.ops m f) id st;
  env_DeleteFile st f := lift (fun m => env_DeleteFile MemEnv.ops m f) (delete f) st;
  RenameFile st a b := lift (fun m => RenameFile MemEnv.ops m a b) (fun d => delete a (partial_alter (fun _ => d !! a) b d)) st;
  file_Flush st f := lift (fun m => file_Flush MemEnv.ops m f) id st;
  NewSequentialFile st f := let '(s, file, m) := NewSequentialFile MemEnv.ops (mem st) f in (s, file, MkSt m (synced st))
|}.

Definition contents (st : St) : bytes -> option bytes := MemEnv.contents (mem st).

Definition durable (st : St) (f : bytes) : option bytes := synced st !! f.

End SyncedEnv.

(** ** Lemmas *)

#[global] Instance MemEnv_laws : EnvLaws MemEnv.ops MemEnv.contents.
Proof.
  assert (forall st eff g, (forall m, eff m !! g = m !! g) ->
    MemEnv.contents (MemEnv.op st eff).2 g = MemEnv.contents st g) as Hframe.
  { intros st eff g H. unfold MemEnv.op, MemEnv.contents. repeat case_match; simpl; auto. }
  assert (forall st eff, ok (MemEnv.op st eff).1 = true ->
    MemEnv.files (MemEnv.op st eff).2 = eff (MemEnv.files st)) as Hok.
  { intros st eff. unfold MemEnv.op. by repeat case_match. }
  constructor; cbn; unfold touches_only; intros;
    try (apply Hframe; intros; repeat case_match; by simplify_map_eq).
  - unfold MemEnv.contents. rewrite Hok by done. by simplify_map_eq.
  - unfold MemEnv.contents in *. rewrite Hok by done. by simplify_map_eq.
  - unfold MemEnv.contents. rewrite Hok by done. case_match; by simplify_map_eq.
  - unfold MemEnv.op in *. unfold MemEnv.contents. by repeat case_match.
  - pose proof (Hframe st (fun m => m) g (fun _ => eq_refl)). destruct (MemEnv.op st _) as [s st']. by case_match.
  - specialize (Hframe st (fun m => m) f (fun _ => eq_refl)). destruct (MemEnv.op st _) as [s st'] eqn:E.
    unfold MemEnv.contents in *. cbn [snd] in Hframe. rewrite <- Hframe. case_match; [done|].
    cbn [fst] in *. destruct (ok s) eqn:Es; [done|congruence].
Qed.

#[global] Instance MemEnv_quiet : EnvQuiet MemEnv.ops MemEnv.contents MemEnv.quiet.
Proof.
  assert (forall st eff, MemEnv.quiet st -> (MemEnv.op st eff).1 = Status_OK /\ MemEnv.quiet (MemEnv.op st eff).2 /\
    MemEnv.files (MemEnv.op st eff).2 = eff (MemEnv.files st)) as Hop.
  { intros [m fs] eff Hq. unfold MemEnv.quiet, MemEnv.op in *. cbn in *. destruct Hq as [|b fs -> Hq]; by split_and!. }
  constructor; cbn; intros; try (edestruct (Hop st) as (-> & Hq & _); [done|]; by split).
  edestruct (Hop st (fun m => m)) as (H1 & H2 & H3); [done|]. destruct (MemEnv.op st _) as [s st']. cbn in *.
  unfold MemEnv.contents in *. subst s. rewrite H3. by case_match; simplify_eq.
Qed.

#[global] Instance SyncedEnv_laws : EnvLaws SyncedEnv.ops SyncedEnv.contents.
Proof.
  assert (forall op eff st, (SyncedEnv.lift op eff st).1 = (op (SyncedEnv.mem st)).1 /\ SyncedEnv.mem (SyncedEnv.lift op eff st).2 = (op (SyncedEnv.mem st)).2) as Hl.
  { intros op eff st. unfold SyncedEnv.lift. by destruct (op (SyncedEnv.mem st)). }
  assert (forall st f, (NewSequentialFile SyncedEnv.ops st f).1 = (NewSequentialFile MemEnv.ops (SyncedEnv.mem st) f).1 /\
    SyncedEnv.mem (NewSequentialFile SyncedEnv.ops st f).2 = (NewSequentialFile MemEnv.ops (SyncedEnv.mem st) f).2) as Hs.
  { intros st f. cbn [NewSequentialFile SyncedEnv.ops]. by destruct (NewSequentialFile MemEnv.ops (SyncedEnv.mem st) f) as [[? ?] ?]. }
  constructor; unfold SyncedEnv.contents, touches_only; intros *;
    rewrite ?(proj1 (Hs _ _)), ?(proj2 (Hs _ _)); try (cbn [NewWritableFile file_Append file_Sync file_Close env_DeleteFile RenameFile file_Flush SyncedEnv.ops];
      rewrite ?(proj1 (Hl _ _ _)), ?(proj2 (Hl _ _ _))).
  - apply new_frame.
  - apply new_ok.
  - apply append_frame.
  - apply append_ok.
  - apply sync_same.
  - apply flush_same.
  - apply close_same.
  - apply delete_frame.
  - apply rename_ok.
  - apply rename_frame.
  - apply rename_fail.
  - apply open_same.
  - apply open_ok.
Qed.

#[global] Instance SyncedEnv_durable : EnvDurable SyncedEnv.ops SyncedEnv.contents SyncedEnv.durable.
Proof.
  assert (forall op eff st g, (forall d, eff d !! g = d !! g) -> SyncedEnv.durable (SyncedEnv.lift op eff st).2 g = SyncedEnv.durable st g) as Hf.
  { intros op eff st g H. unfold SyncedEnv.lift, SyncedEnv.durable. destruct (op (SyncedEnv.mem st)) as [s m]. cbn [snd SyncedEnv.synced]. by destruct (ok s). }
  constructor; unfold touches_only; intros *;
    cbn [NewWritableFile file_Append file_Sync file_Close env_DeleteFile RenameFile file_Flush SyncedEnv.ops]; intros;
    try (apply Hf; intros; by simplify_map_eq).
  - unfold SyncedEnv.lift, SyncedEnv.durable, SyncedEnv.contents in *. destruct (file_Sync _ _ _) as [s m]. cbn [fst snd SyncedEnv.synced] in *.
    rewrite H. by rewrite lookup_partial_alter_eq.
  - apply Hf. intros d. by rewrite lookup_partial_alter_ne.
  - apply Hf. intros d. by rewrite lookup_delete_ne, lookup_partial_alter_ne.
Qed.

Section Laws.
Context {St : Type} (env : EnvOps St) (contents : St -> bytes -> option bytes).
Context `{!EnvLaws env contents}.

Lemma DoWriteStringToFile_frame st d f sync :
  touches_only contents f st (DoWriteStringToFile env st d f sync).2.
Proof.
  intros g Hg. unfold DoWriteStringToFile.
  pose proof (new_frame st f g Hg) as H1. destruct (NewWritableFile env st f) as [s1 st1].
  cbn [fst snd] in *. destruct (ok s1); cbn [negb]; [|done].
  pose proof (append_frame st1 f d g Hg) as H2. destruct (file_Append env st1 f d) as [s2 st2].
  cbn [fst snd] in *.
  pose proof (sync_same st2 f g) as H3. destruct (file_Sync env st2 f) as [s3 st3].
  cbn [fst snd] in *.
  set (p := if ok s2 && sync then (s3, st3) else (s2, st2)).
  assert (contents p.2 g = contents st g) as Hp by (subst p; case_match; simpl; congruence).
  destruct p as [s4 st4]. cbn [snd] in Hp.
  pose proof (close_same st4 f g) as H5. destruct (file_Close env st4 f) as [s5 st5].
  cbn [fst snd] in *.
  set (p := if ok s4 then (s5, st5) else (s4, st4)).
  assert (contents p.2 g = contents st g) as Hp' by (subst p; case_match; simpl; congruence).
  destruct p as [s6 st6]. cbn [snd] in Hp' |- *.
  destruct (ok s6); cbn [negb]; [done|]. rewrite <- Hp'. by apply delete_frame.
Qed.

Lemma DoWriteStringToFile_ok st d f sync :
  ok (DoWriteStringToFile env st d f sync).1 = true ->
  contents (DoWriteStringToFile env st d f sync).2 f = Some d.
Proof.
  unfold DoWriteStringToFile.
  pose proof (new_ok st f) as H1. destruct (NewWritableFile env st f) as [s1 st1].
  cbn [fst snd] in *. destruct (ok s1) eqn:E1; cbn [negb fst snd]; [|congruence].
  specialize (H1 eq_refl).
  pose proof (append_ok st1 f d [] H1) as H2. destruct (file_Append env st1 f d) as [s2 st2].
  cbn [fst snd] in *.
  pose proof (sync_same st2 f f) as H3. destruct (file_Sync env st2 f) as [s3 st3].
  cbn [fst snd] in *.
  set (p := if ok s2 && sync then (s3, st3) else (s2, st2)).
  assert (ok p.1 = true -> contents p.2 f = Some d) as Hp.
  { subst p. destruct (ok s2) eqn:E2; cbn [andb fst snd]; [|congruence].
    specialize (H2 eq_refl). cbn [app] in H2. destruct sync; simpl; congruence. }
  destruct p as [s4 st4]. cbn [fst snd] in Hp.
  pose proof (close_same st4 f f) as H5. destruct (file_Close env st4 f) as [s5 st5].
  cbn [fst snd] in *. destruct (ok s4) eqn:E4; cbn [fst snd]; [|congruence].
  destruct (ok s5); cbn [negb fst snd]; [|congruence]. intros _. rewrite H5. auto.
Qed.

Context (quiet : St -> Prop) `{!EnvQuiet env contents quiet}.

Lemma DoWriteStringToFile_quiet st d f sync : quiet st ->
  ok (DoWriteStringToFile env st d f sync).1 = true /\ quiet (DoWriteStringToFile env st d f sync).2.
Proof.
  intros Hq. unfold DoWriteStringToFile. pose proof (new_ok st f) as Hc.
  destruct (quiet_new st f Hq) as [H1 H2]. destruct (NewWritableFile env st f) as [s1 st1]. cbn [fst snd] in *.
  rewrite H1. cbn [negb]. specialize (Hc H1). pose proof (append_ok st1 f d [] Hc) as Hc'.
  destruct (quiet_append st1 f d [] H2 Hc) as [H3 H4]. destruct (file_Append env st1 f d) as [s2 st2]. cbn [fst snd] in *.
  specialize (Hc' H3). rewrite H3. cbn [andb].
  assert (contents st2 f <> None) as Hne by (by rewrite Hc').
  set (p := if sync then _ else _). assert (ok p.1 = true /\ quiet p.2 /\ contents p.2 f <> None) as (Hp1 & Hp2 & Hp3).
  { subst p. destruct sync; [|done]. destruct (quiet_sync st2 f H4 Hne). by rewrite sync_same. }
  destruct p as [s3 st3]. cbn [fst snd] in *. rewrite Hp1.
  destruct (quiet_close st3 f Hp2 Hp3) as [H5 H6]. destruct (file_Close env st3 f) as [s4 st4]. cbn [fst snd] in *.
  by rewrite H5.
Qed.

Lemma ReadFileToString_loop_total fuel d data :
  (length d + 2 <= fuel)%nat ->
  ReadFileToString_loop fuel (MkSequentialFile d []) data = Some (Status_OK, data ++ d).
Proof.
  revert d data. induction fuel as [|fuel IH]; intros d data Hf; [lia|].
  cbn [ReadFileToString_loop SequentialFile_Read next_fault sf_faults sf_data].
  change (ok Status_OK) with true. cbn [negb].
  assert (exists n, Z.to_nat 8192 = S n) as [n ->] by (exists (Z.to_nat 8191); lia).
  unfold Slice.empty, Slice.size, Zlength. destruct d as [|b d].
  - by rewrite take_nil, app_nil_r.
  - cbn [take length Z.of_nat Z.eqb]. cbn [length] in Hf. rewrite IH.
    + rewrite <- app_assoc. cbn [app drop]. by rewrite take_drop.
    + cbn [drop]. rewrite length_drop. lia.
Qed.

Lemma SetCurrentFile_quiet st db n : quiet st ->
  ok (SetCurrentFile env st db n).1 = true /\ quiet (SetCurrentFile env st db n).2.
Proof.
  intros Hq. unfold SetCurrentFile, WriteStringToFileSync. set (d := _ ++ [Byte.x0a]). set (tmp := TempFileName db n).
  destruct (DoWriteStringToFile_quiet st d tmp true Hq) as [H1 H2].
  pose proof (DoWriteStringToFile_ok st d tmp true H1) as Hc.
  destruct (DoWriteStringToFile env st d tmp true) as [s1 st1]. cbn [fst snd] in *. rewrite H1.
  destruct (quiet_rename st1 tmp (CurrentFileName db) H2) as [H3 H4]; [by rewrite Hc|].
  destruct (RenameFile env st1 tmp (CurrentFileName db)) as [s2 st2]. cbn [fst snd] in *. by rewrite H3.
Qed.

(** Every read that is not the last delivers a byte. *)
Lemma ReadFileToString_loop_returns fuel f data :
  (length (sf_data f) + 1 < fuel)%nat -> exists r, ReadFileToString_loop fuel f data = Some r.
Proof.
  revert f data. induction fuel as [|fuel IH]; intros f data Hf; [lia|]. cbn [ReadFileToString_loop].
  unfold SequentialFile_Read. destruct (next_fault f) as [[s k] fs]. destruct (ok s) eqn:Es; cbn [negb]; [|eauto].
  destruct (Slice.empty (take (Z.to_nat 8192) (sf_data f))) eqn:Ee; [eauto|]. apply IH. cbn [sf_data]. rewrite length_drop.
  destruct (sf_data f); [by rewrite take_nil in Ee|]. cbn [length] in *. lia.
Qed.

Lemma ReadFileToString_returns st f : exists r, ReadFileToString env st f = Some r.
Proof.
  unfold ReadFileToString. destruct (NewSequentialFile env st f) as [[s sf] st']. destruct (ok s); cbn [negb]; [|eauto].
  destruct (ReadFileToString_loop_returns (length (sf_data sf) + 2) sf []) as [[s' d] ->]; [lia|]. by eexists.
Qed.

(** The fuel never runs out, and without read errors the whole file is read. *)
Lemma ReadFileToString_quiet st f d : quiet st -> contents st f = Some d ->
  exists st', ReadFileToString env st f = Some (Status_OK, d, st') /\ quiet st' /\
    forall g, contents st' g = contents st g.
Proof.
  intros Hq Hd. unfold ReadFileToString. destruct (quiet_open st f d Hq Hd) as [H1 H2].
  pose proof (fun g => open_same st f g) as Hs. destruct (NewSequentialFile env st f) as [[s sf] st']. cbn [fst snd] in *.
  injection H1 as -> ->. change (ok Status_OK) with true. cbn [negb sf_data].
  rewrite ReadFileToString_loop_total by done. by exists st'.
Qed.
End Laws.

Lemma TempFileName_neq_Current db n : is_u64 n -> TempFileName db n <> CurrentFileName db.
Proof.
  intros [Hn _]. unfold TempFileName, MakeFileName, CurrentFileName.
  intros H%app_inv_head. destruct (print_dec6_head n Hn) as (d & r & Hd & Hp).
  rewrite Hp in H. cbn in H. injection H as H _. unfold digit in H.
  apply (f_equal bZ) in H. rewrite bZ_Zb_small in H by lia.
  change (bZ "C"%byte) with 67 in H. lia.
Qed.

Lemma DescriptorFileName_neq_Current db n : DescriptorFileName db n <> CurrentFileName db.
Proof. unfold DescriptorFileName, CurrentFileName. by intros H%app_inv_head. Qed.

Lemma DescriptorFileName_neq_Temp db n : is_u64 n -> DescriptorFileName db n <> TempFileName db n.
Proof.
  intros [Hn _]. unfold DescriptorFileName, TempFileName, MakeFileName.
  intros H%app_inv_head. destruct (print_dec6_head n Hn) as (d & r & Hd & Hp).
  rewrite Hp in H. cbn in H. injection H as H _. unfold digit in H.
  apply (f_equal bZ) in H. rewrite bZ_Zb_small in H by lia.
  change (bZ "M"%byte) with 77 in H. lia.
Qed.

Lemma SetCurrentFile_spec {St} (env : EnvOps St) (contents : St -> bytes -> option bytes)
    `{!EnvLaws env contents} (st : St) (db : bytes) (n : Z) :
  is_u64 n ->
  let '(s, st') := SetCurrentFile env st db n in
  let current := str "MANIFEST-" ++ print_dec6 n ++ [Byte.x0a] in
  (if ok s then contents st' (CurrentFileName db) = Some current
   else contents st' (CurrentFileName db) = contents st (CurrentFileName db)) /\
  (forall f, f <> CurrentFileName db -> f <> TempFileName db n -> contents st' f = contents st f) /\
  db ++ str "/" ++ take (length current - 1) current = DescriptorFileName db n /\
  last current = Some Byte.x0a.
Proof.
  intros Hn. unfold SetCurrentFile, WriteStringToFileSync.
  assert (Slice.remove_prefix (DescriptorFileName db n) (Zlength db + 1) =
    str "MANIFEST-" ++ print_dec6 n) as ->.
  { unfold Slice.remove_prefix, DescriptorFileName, Zlength.
    rewrite Z2Nat.inj_add, Nat2Z.id by lia. by rewrite drop_app_add. }
  pose proof (TempFileName_neq_Current db n Hn) as Htc.
  rewrite <- app_assoc. set (current := str "MANIFEST-" ++ print_dec6 n ++ [Byte.x0a]).
  pose proof (DoWriteStringToFile_frame env contents st current (TempFileName db n) true) as Hf.
  pose proof (DoWriteStringToFile_ok env contents st current (TempFileName db n) true) as Ho.
  destruct (DoWriteStringToFile env st current (TempFileName db n) true) as [s1 st1].
  cbn [fst snd] in *. unfold touches_only in Hf.
  set (p := if ok s1 then _ else _).
  assert ((if ok p.1 then contents p.2 (CurrentFileName db) = Some current
           else contents p.2 (CurrentFileName db) = contents st (CurrentFileName db)) /\
    forall f, f <> CurrentFileName db -> f <> TempFileName db n -> contents p.2 f = contents st f)
    as [Hp1 Hp2].
  { subst p. destruct (ok s1) eqn:E1.
    - destruct (ok (RenameFile env st1 _ _).1) eqn:E2; split.
      + rewrite rename_ok by done. auto.
      + intros. rewrite rename_frame by done. auto.
      + rewrite rename_fail by done. auto.
      + intros. rewrite rename_frame by done. auto.
    - cbn [fst snd]. rewrite E1. auto. }
  destruct p as [s2 st2]. cbn [fst snd] in *.
  split_and!.
  - destruct (ok s2); cbn [negb]; [done|]. rewrite delete_frame by done. done.
  - intros f H1 H2. destruct (ok s2); cbn [negb]; [auto|]. rewrite delete_frame by done. auto.
  - subst current. rewrite (app_assoc (str "MANIFEST-")), length_app. cbn [length].
    rewrite Nat.add_sub, take_app_length. done.
  - subst current. rewrite (app_assoc (str "MANIFEST-")). apply last_snoc.
Qed.

(** What is durable of the files that are not named stays. *)
Section Durable.
Context {St : Type} (env : EnvOps St) (contents durable : St -> bytes -> option bytes) `{!EnvDurable env contents durable}.

Lemma DoWriteStringToFile_durable st d f sync : touches_only durable f st (DoWriteStringToFile env st d f sync).2.
Proof.
  intros g Hg. unfold DoWriteStringToFile. pose proof (new_durable_frame (env := env) st f g Hg) as H1.
  destruct (NewWritableFile env st f) as [s1 st1]. destruct (ok s1); cbn [negb snd] in *; [|done].
  pose proof (append_durable_frame (env := env) st1 f d g Hg) as H2. destruct (file_Append env st1 f d) as [s2 st2]. cbn [snd] in H2.
  pose proof (sync_durable_frame (env := env) st2 f g Hg) as H3.
  set (p := if ok s2 && sync then file_Sync env st2 f else (s2, st2)). assert (durable p.2 g = durable st g) as E1 by (subst p; destruct (ok s2 && sync); cbn [snd]; congruence).
  clearbody p. destruct p as [s3 st3]. pose proof (close_durable_frame (env := env) st3 f g Hg) as H4. set (p := if ok s3 then file_Close env st3 f else (s3, st3)).
  assert (durable p.2 g = durable st g) as E2 by (subst p; destruct (ok s3); cbn [snd] in *; congruence). clearbody p. destruct p as [s4 st4]. cbn [snd] in *.
  destruct (ok s4); cbn [negb]; [done|]. by rewrite (delete_durable_frame (env := env) st4 f g Hg).
Qed.

Lemma SetCurrentFile_durable st (db : bytes) (n : Z) f :
  f <> CurrentFileName db -> f <> TempFileName db n -> durable (SetCurrentFile env st db n).2 f = durable st f.
Proof.
  intros Hc Ht. unfold SetCurrentFile, WriteStringToFileSync. set (tmp := TempFileName db n) in *. set (data := _ ++ [Byte.x0a]).
  pose proof (DoWriteStringToFile_durable st data tmp true f Ht) as H1. destruct (DoWriteStringToFile env st data tmp true) as [s1 st1]. cbn [snd] in H1.
  pose proof (rename_durable_frame (env := env) st1 tmp (CurrentFileName db) f Ht Hc) as H2. set (p := if ok s1 then _ else _).
  assert (durable p.2 f = durable st f) as E by (subst p; destruct (ok s1); cbn [snd] in *; congruence). clearbody p. destruct p as [s2 st2]. cbn [snd] in *.
  destruct (ok s2); cbn [negb]; [done|]. by rewrite (delete_durable_frame (env := env) st2 tmp f Ht).
Qed.
End Durable.

(** ** Properties *)

(** Installing a manifest is atomic with respect to the CURRENT file:
    [SetCurrentFile] either succeeds and CURRENT holds the manifest's base name
    and a newline, or fails and CURRENT is what it was; no file other than
    CURRENT and the temporary is touched, and the manifest that recovery then
    reads out of CURRENT is the one that was installed. *)
Theorem SetCurrentFile_atomic {St} (env : EnvOps St) (contents : St -> bytes -> option bytes)
    `{!EnvLaws env contents} (st : St) (db : bytes) (n : Z) :
  is_u64 n ->
  let '(s, st') := SetCurrentFile env st db n in
  let current := str "MANIFEST-" ++ print_dec6 n ++ [Byte.x0a] in
  (if ok s then contents st' (CurrentFileName db) = Some current
   else contents st' (CurrentFileName db) = contents st (CurrentFileName db)) /\
  (forall f, f <> CurrentFileName db -> f <> TempFileName db n -> contents st' f = contents st f) /\
  db ++ str "/" ++ take (length current - 1) current = DescriptorFileName db n /\
  last current = Some Byte.x0a.
Proof. apply SetCurrentFile_spec, _. Qed.

Lemma SetCurrentFile_atomic_witness :
  is_u64 5 /\
  let st := MemEnv.MkSt {[CurrentFileName (str "d") := str "old"]}
              [false; false; false; false; true] in
  let '(s, st') := SetCurrentFile MemEnv.ops st (str "d") 5 in
  ok s = false /\ MemEnv.contents st' (CurrentFileName (str "d")) = Some (str "old").
Proof.
  split; [unfold is_u64; lia|]. cbn zeta.
  pose proof (SetCurrentFile_atomic MemEnv.ops MemEnv.contents
    (MemEnv.MkSt {[CurrentFileName (str "d") := str "old"]} [false; false; false; false; true])
    (str "d") 5 ltac:(unfold is_u64; lia)) as H.
  destruct (SetCurrentFile _ _ _ _) as [s st'] eqn:E.
  assert (ok s = false) as Hs.
  { apply (f_equal fst) in E. vm_compute in E. subst s. reflexivity. }
  rewrite Hs in H. destruct H as [H _]. rewrite H. split; [exact Hs|reflexivity].
Defined.
