(* ===== verification/DbFormat.v ===== *)
(** db/dbformat.h and db/dbformat.cpp: internal keys, their order, the filter
    policy and comparator wrappers, and the lookup key of a [Get].

    An internal key is the user key followed by the 8 bytes of
    [(sequence << 8) | type].  The routines assert [size() >= 8]; [ikey_ok] is
    that precondition. *)

From Stdlib Require Import ZArith Lia List Bool String.
From S2P Require Import Prelude Coding Slice Comparator Bloom Filename.

(** ** Constants *)

Module config.
Definition kNumLevels : Z := 7.
Definition kL0_CompactionTrigger : Z := 4.
Definition kL0_SlowdownWritesTrigger : Z := 8.
Definition kL0_StopWritesTrigger : Z := 12.
Definition kMaxMemCompactLevel : Z := 2.
End config.

Inductive ValueType := kTypeDeletion | kTypeValue.

#[global] Instance ValueType_eq_dec : EqDecision ValueType.
Proof. solve_decision. Defined.

Definition ValueType_to_Z (t : ValueType) : Z :=
  match t with kTypeDeletion => 0 | kTypeValue => 1 end.

Definition kValueTypeForSeek : ValueType := kTypeValue.

Definition kMaxSequenceNumber : Z := Z.shiftl 1 56 - 1.

(** ** Internal keys *)

Record ParsedInternalKey := MkParsedInternalKey {
  user_key : bytes;
  sequence : Z;
  type : ValueType
}.

#[global] Instance ParsedInternalKey_eq_dec : EqDecision ParsedInternalKey.
Proof. solve_decision. Defined.

Definition InternalKeyEncodingLength (key : ParsedInternalKey) : Z := Zlength (user_key key) + 8.

Definition PackSequenceAndType (seq : Z) (t : ValueType) : Z :=
  Z.lor (u64 (Z.shiftl seq 8)) (ValueType_to_Z t).

Definition AppendInternalKey (result : bytes) (key : ParsedInternalKey) : bytes :=
  PutFixed64 (result ++ user_key key) (PackSequenceAndType (sequence key) (type key)).

Definition ikey_ok (k : bytes) : Prop := (8 <= length k)%nat.

Definition ExtractUserKey (internal_key : bytes) : bytes :=
  take (length internal_key - 8) internal_key.

(** [DecodeFixed64(data + n - 8)] *)
Definition ExtractTag (internal_key : bytes) : Z :=
  DecodeFixed64 (drop (length internal_key - 8) internal_key).

(** The low byte of the tag, before it is cast to [ValueType]. *)
Definition ExtractValueType (internal_key : bytes) : Z := Z.land (ExtractTag internal_key) 255.

Definition ParseInternalKey (internal_key : bytes) : option ParsedInternalKey :=
  let n := length internal_key in
  if (n <? 8)%nat then None
  else
    let num := ExtractTag internal_key in
    let c := Z.land num 255 in
    let mk t := MkParsedInternalKey (ExtractUserKey internal_key) (Z.shiftr num 8) t in
    if c =? 0 then Some (mk kTypeDeletion)
    else if c =? 1 then Some (mk kTypeValue)
    else None.

(** ** The internal key comparator *)

Section InternalComparator.
Context (user_comparator : Comparator).

Definition InternalKeyCompare (a b : bytes) : Z :=
  let r := Compare user_comparator (ExtractUserKey a) (ExtractUserKey b) in
  if r =? 0 then
    let anum := ExtractTag a in
    let bnum := ExtractTag b in
    if anum >? bnum then -1 else if anum <? bnum then 1 else r
  else r.

Definition InternalKeyFindShortestSeparator (start limit : bytes) : bytes :=
  let user_start := ExtractUserKey start in
  let user_limit := ExtractUserKey limit in
  let tmp := FindShortestSeparator user_comparator user_start user_limit in
  if (length tmp <? length user_start)%nat && (Compare user_comparator user_start tmp <? 0) then
    PutFixed64 tmp (PackSequenceAndType kMaxSequenceNumber kValueTypeForSeek)
  else start.

Definition InternalKeyFindShortSuccessor (key : bytes) : bytes :=
  let user_key := ExtractUserKey key in
  let tmp := FindShortSuccessor user_comparator user_key in
  if (length tmp <? length user_key)%nat && (Compare user_comparator user_key tmp <? 0) then
    PutFixed64 tmp (PackSequenceAndType kMaxSequenceNumber kValueTypeForSeek)
  else key.

Definition InternalKeyComparator : Comparator := {|
  Name := str "leveldb.InternalKeyComparator";
  Compare := InternalKeyCompare;
  FindShortestSeparator := InternalKeyFindShortestSeparator;
  FindShortSuccessor := InternalKeyFindShortSuccessor
|}.

End InternalComparator.

(** ** The filter policy wrapper *)

(** [CreateFilter] first rewrites the caller's key array to user keys in
    place; the array is not looked at again by the table code. *)
Definition InternalFilterPolicy (user_policy : FilterPolicy) : FilterPolicy := {|
  fp_Name := fp_Name user_policy;
  CreateFilter keys dst := CreateFilter user_policy (map ExtractUserKey keys) dst;
  KeyMayMatch key f := KeyMayMatch user_policy (ExtractUserKey key) f
|}.

(** ** Class InternalKey: a string that is kept apart from user keys *)

Record InternalKey := MkInternalKey { rep_ : bytes }.

#[global] Instance InternalKey_eq_dec : EqDecision InternalKey.
Proof. solve_decision. Defined.

Definition InternalKey_new (u : bytes) (s : Z) (t : ValueType) : InternalKey :=
  MkInternalKey (AppendInternalKey [] (MkParsedInternalKey u s t)).

Definition InternalKey_DecodeFrom (s : bytes) : InternalKey := MkInternalKey s.

Definition InternalKey_Encode (k : InternalKey) : bytes := rep_ k.

Definition InternalKey_user_key (k : InternalKey) : bytes := ExtractUserKey (rep_ k).

Definition InternalKey_SetFrom (p : ParsedInternalKey) : InternalKey :=
  MkInternalKey (AppendInternalKey [] p).

Definition ParsedInternalKey_DebugString (k : ParsedInternalKey) : bytes :=
  str "'" ++ user_key k ++ str "' @ " ++ print_dec (sequence k) ++ str " : " ++
  print_int (ValueType_to_Z (type k)).

Definition InternalKey_DebugString (k : InternalKey) : bytes :=
  match ParseInternalKey (rep_ k) with
  | Some parsed => ParsedInternalKey_DebugString parsed
  | None => str "(bad)" ++ EscapeString (rep_ k)
  end.

(** ** LookupKey: varint32 length, user key, tag *)

Record LookupKey := MkLookupKey {
  lk_data : bytes;     (* [start_, end_) *)
  lk_kstart : nat      (* kstart_ - start_ *)
}.

Definition LookupKey_new (ukey : bytes) (s : Z) : LookupKey :=
  let usize := Zlength ukey in
  let prefix := EncodeVarint32 (u32 (usize + 8)) in
  MkLookupKey (prefix ++ ukey ++ EncodeFixed64 (PackSequenceAndType s kValueTypeForSeek))
    (length prefix).

Definition memtable_key (k : LookupKey) : bytes := lk_data k.

Definition internal_key (k : LookupKey) : bytes := drop (lk_kstart k) (lk_data k).

Definition lookup_user_key (k : LookupKey) : bytes :=
  take (length (lk_data k) - lk_kstart k - 8) (drop (lk_kstart k) (lk_data k)).

(** ** Lemmas *)

Definition seq_ok (s : Z) : Prop := 0 <= s <= kMaxSequenceNumber.

Lemma kMaxSequenceNumber_val : kMaxSequenceNumber = 2 ^ 56 - 1.
Proof. done. Qed.

Lemma ValueType_range t : 0 <= ValueType_to_Z t <= 1.
Proof. by destruct t. Qed.

Lemma Pack_val seq t :
  seq_ok seq -> PackSequenceAndType seq t = seq * 256 + ValueType_to_Z t.
Proof.
  intros [H0 H]. rewrite kMaxSequenceNumber_val in H. unfold PackSequenceAndType.
  pose proof (ValueType_range t).
  unfold u64. rewrite Z.mod_small by (rewrite Z.shiftl_mul_pow2 by lia; lia).
  rewrite Z.lor_comm, lor_disjoint_add by lia. lia.
Qed.

Lemma Pack_range seq t : seq_ok seq -> is_u64 (PackSequenceAndType seq t).
Proof.
  intros H. rewrite Pack_val by done. destruct H as [H0 H].
  rewrite kMaxSequenceNumber_val in H. pose proof (ValueType_range t). unfold is_u64. lia.
Qed.

Lemma ExtractUserKey_app u x : ExtractUserKey (u ++ EncodeFixed64 x) = u.
Proof.
  unfold ExtractUserKey. rewrite length_app, EncodeFixed64_length, Nat.add_sub.
  apply take_app_length.
Qed.

Lemma ExtractTag_app u x : is_u64 x -> ExtractTag (u ++ EncodeFixed64 x) = x.
Proof.
  intros Hx. unfold ExtractTag. rewrite length_app, EncodeFixed64_length, Nat.add_sub.
  rewrite drop_app_length. rewrite <- (app_nil_r (EncodeFixed64 x)), DecodeFixed64_app.
  by apply u64_small.
Qed.

Lemma ikey_split k : ikey_ok k -> k = ExtractUserKey k ++ EncodeFixed64 (ExtractTag k).
Proof.
  intros H. unfold ExtractUserKey, ExtractTag, ikey_ok in *.
  rewrite EncodeFixed64_DecodeFixed64 by (rewrite length_drop; lia).
  rewrite (take_ge (drop _ _)) by (rewrite length_drop; lia). by rewrite take_drop.
Qed.

Lemma ikey_app_ok u x : ikey_ok (u ++ EncodeFixed64 x).
Proof. unfold ikey_ok. rewrite length_app, EncodeFixed64_length. lia. Qed.

Lemma ikey_ext a b :
  ikey_ok a -> ikey_ok b -> ExtractUserKey a = ExtractUserKey b -> ExtractTag a = ExtractTag b ->
  a = b.
Proof. intros Ha Hb H1 H2. rewrite (ikey_split a), (ikey_split b) by done. congruence. Qed.

Lemma ExtractTag_range k : is_u64 (ExtractTag k).
Proof. apply DecodeFixed64_range. Qed.

Lemma AppendInternalKey_nil p :
  AppendInternalKey [] p = user_key p ++ EncodeFixed64 (PackSequenceAndType (sequence p) (type p)).
Proof. done. Qed.

Lemma Parse_Append p :
  seq_ok (sequence p) -> ParseInternalKey (AppendInternalKey [] p) = Some p.
Proof.
  intros Hs. rewrite AppendInternalKey_nil. unfold ParseInternalKey.
  set (k := _ ++ _). assert (ikey_ok k) as Hk by apply ikey_app_ok. unfold ikey_ok in Hk.
  destruct (Nat.ltb_spec (length k) 8); [lia|]. subst k.
  rewrite ExtractTag_app, ExtractUserKey_app by by apply Pack_range.
  rewrite Pack_val by done.
  change 255 with (Z.ones 8). rewrite Z.land_ones, Z.shiftr_div_pow2 by lia.
  pose proof (ValueType_range (type p)). change (2 ^ 8) with 256.
  rewrite Z.add_comm, Z.mod_add, Z.div_add, Z.mod_small, Z.div_small by lia.
  destruct p as [u s []]; done.
Qed.

#[export] Hint Rewrite ExtractUserKey_app : coding.

Lemma Parse_inv k p :
  ParseInternalKey k = Some p ->
  ikey_ok k /\ user_key p = ExtractUserKey k /\ seq_ok (sequence p) /\
  ExtractTag k = PackSequenceAndType (sequence p) (type p).
Proof.
  unfold ParseInternalKey. destruct (Nat.ltb_spec (length k) 8) as [|Hl]; [done|].
  pose proof (ExtractTag_range k) as [H0 H].
  change 255 with (Z.ones 8). rewrite Z.land_ones, Z.shiftr_div_pow2 by lia.
  set (num := ExtractTag k) in *. change (2 ^ 8) with 256.
  pose proof (Z.div_mod num 256 ltac:(lia)).
  assert (seq_ok (num / 256)).
  { split; [apply Z.div_pos; lia|]. rewrite kMaxSequenceNumber_val.
    pose proof (Z.div_lt_upper_bound num 256 (2 ^ 56)). lia. }
  destruct (Z.eqb_spec (num mod 256) 0); [|destruct (Z.eqb_spec (num mod 256) 1); [|done]];
    intros [= <-]; cbn [user_key sequence type]; rewrite Pack_val by done;
    (split_and!; [done..|]); simpl; lia.
Qed.

Lemma Parse_Append_inv k p : ParseInternalKey k = Some p -> AppendInternalKey [] p = k.
Proof.
  intros (Hk & Hu & Hs & Ht)%Parse_inv.
  rewrite AppendInternalKey_nil, Hu, <- Ht. symmetry. by apply ikey_split.
Qed.

Lemma InternalKey_new_user u s t : InternalKey_user_key (InternalKey_new u s t) = u.
Proof. apply ExtractUserKey_app. Qed.

(** ** The order of internal keys *)

Section Laws.
Context (ucmp : Comparator) `{!ComparatorLaws ucmp any_key}.

Abbreviation icmp := (InternalKeyCompare ucmp).
Abbreviation ule a b := (Compare ucmp a b <= 0).

Lemma ucmp_eq a b : Compare ucmp a b = 0 <-> a = b.
Proof. by apply cmp_eq. Qed.

Lemma ucmp_trans x y z : ule x y -> ule y z -> ule x z.
Proof. by apply to_trans. Qed.

Lemma ucmp_sgn a b : Z.sgn (Compare ucmp b a) = - Z.sgn (Compare ucmp a b).
Proof. by apply to_sgn. Qed.

Lemma icmp_le a b :
  icmp a b <= 0 <->
  Compare ucmp (ExtractUserKey a) (ExtractUserKey b) < 0 \/
  (ExtractUserKey a = ExtractUserKey b /\ ExtractTag b <= ExtractTag a).
Proof.
  unfold InternalKeyCompare. rewrite <- ucmp_eq.
  destruct (Z.eqb_spec (Compare ucmp (ExtractUserKey a) (ExtractUserKey b)) 0) as [->|]; [|lia].
  destruct (Z.gtb_spec (ExtractTag a) (ExtractTag b)), (Z.ltb_spec (ExtractTag a) (ExtractTag b)); lia.
Qed.

Lemma icmp_lt a b :
  icmp a b < 0 <->
  Compare ucmp (ExtractUserKey a) (ExtractUserKey b) < 0 \/
  (ExtractUserKey a = ExtractUserKey b /\ ExtractTag b < ExtractTag a).
Proof.
  unfold InternalKeyCompare. rewrite <- ucmp_eq.
  destruct (Z.eqb_spec (Compare ucmp (ExtractUserKey a) (ExtractUserKey b)) 0) as [->|]; [|lia].
  destruct (Z.gtb_spec (ExtractTag a) (ExtractTag b)), (Z.ltb_spec (ExtractTag a) (ExtractTag b)); lia.
Qed.

Lemma icmp_eq a b : ikey_ok a -> ikey_ok b -> icmp a b = 0 <-> a = b.
Proof.
  intros Ha Hb. split.
  - unfold InternalKeyCompare.
    destruct (Z.eqb_spec (Compare ucmp (ExtractUserKey a) (ExtractUserKey b)) 0) as [E|]; [|lia].
    destruct (Z.gtb_spec (ExtractTag a) (ExtractTag b)), (Z.ltb_spec (ExtractTag a) (ExtractTag b));
      try lia. intros _. apply ucmp_eq in E. apply ikey_ext; try done. lia.
  - intros ->. unfold InternalKeyCompare. rewrite (proj2 (ucmp_eq _ _) eq_refl). simpl.
    destruct (Z.gtb_spec (ExtractTag b) (ExtractTag b)), (Z.ltb_spec (ExtractTag b) (ExtractTag b)); lia.
Qed.

#[global] Instance InternalKey_order : TotalPreorder icmp any_key.
Proof.
  constructor.
  - intros a b _ _. unfold InternalKeyCompare.
    pose proof (ucmp_sgn (ExtractUserKey a) (ExtractUserKey b)).
    destruct (Z.eqb_spec (Compare ucmp (ExtractUserKey a) (ExtractUserKey b)) 0),
      (Z.eqb_spec (Compare ucmp (ExtractUserKey b) (ExtractUserKey a)) 0),
      (Z.gtb_spec (ExtractTag a) (ExtractTag b)), (Z.ltb_spec (ExtractTag a) (ExtractTag b)),
      (Z.gtb_spec (ExtractTag b) (ExtractTag a)), (Z.ltb_spec (ExtractTag b) (ExtractTag a)); lia.
  - intros x y z _ _ _. rewrite !icmp_le.
    intros [H1|[H1 H1']] [H2|[H2 H2']].
    + left. by apply (to_lt_trans (Compare ucmp) any_key _ (ExtractUserKey y)).
    + left. congruence.
    + left. congruence.
    + right. split; [congruence|lia].
Qed.

Lemma seq_ok_max : seq_ok kMaxSequenceNumber.
Proof. unfold seq_ok. rewrite kMaxSequenceNumber_val. lia. Qed.

#[global] Instance InternalKey_laws :
  (forall s, FindShortestSeparator ucmp s s = s) ->
  ComparatorLaws (InternalKeyComparator ucmp) ikey_ok.
Proof.
  intros Hrefl. assert (TotalPreorder icmp ikey_ok) as Hord.
  { split; intros; [by apply to_sgn|by eapply (to_trans x y z)]. }
  constructor; cbn; [done|apply icmp_eq| |].
  - intros start limit Hs Hl Hlt. unfold InternalKeyFindShortestSeparator.
    pose proof (to_refl icmp ikey_ok start Hs).
    destruct (andb _ _) eqn:E; [|split_and!; [done|lia|done]].
    apply andb_true_iff in E as [E1%Nat.ltb_lt E2%Z.ltb_lt].
    set (us := ExtractUserKey start) in *. set (ul := ExtractUserKey limit) in *.
    set (tmp := FindShortestSeparator ucmp us ul) in *.
    apply icmp_lt in Hlt as [Hlt|[Heq _]].
    + destruct (cmp_separator us ul I I Hlt) as (_ & _ & H3). fold tmp in H3.
      split_and!; [apply ikey_app_ok|apply icmp_le; left|apply icmp_lt; left];
        unfold PutFixed64; rewrite ExtractUserKey_app; done.
    + subst tmp us ul. rewrite Heq, Hrefl in E1. lia.
  - intros key Hk. unfold InternalKeyFindShortSuccessor.
    pose proof (to_refl icmp ikey_ok key Hk).
    destruct (andb _ _) eqn:E; [|split; [done|lia]].
    apply andb_true_iff in E as [_ E2%Z.ltb_lt].
    split; [apply ikey_app_ok|apply icmp_le; left].
    unfold PutFixed64. by rewrite ExtractUserKey_app.
Qed.

(** The lookup key for a snapshot [s] sorts at or before exactly the entries of
    its user key written at or before [s], and never inside another user key. *)
Lemma lookup_key_seek u s p :
  seq_ok s -> seq_ok (sequence p) ->
  icmp (AppendInternalKey [] (MkParsedInternalKey u s kValueTypeForSeek)) (AppendInternalKey [] p) <= 0 <->
  Compare ucmp u (user_key p) < 0 \/ (u = user_key p /\ sequence p <= s).
Proof.
  intros Hs Hp. rewrite icmp_le, !AppendInternalKey_nil, !ExtractUserKey_app.
  rewrite !ExtractTag_app by by apply Pack_range. cbn [user_key sequence type].
  rewrite !Pack_val by done. pose proof (ValueType_range (type p)). simpl.
  split; (intros [H1|[H1 H2]]; [by left|right; split; [done|lia]]).
Qed.
End Laws.

Lemma LookupKey_internal_key u s :
  internal_key (LookupKey_new u s) =
    AppendInternalKey [] (MkParsedInternalKey u s kValueTypeForSeek).
Proof. unfold internal_key, LookupKey_new. cbn [lk_data lk_kstart]. by rewrite drop_app_length. Qed.

Lemma LookupKey_user_key u s : lookup_user_key (LookupKey_new u s) = u.
Proof.
  unfold lookup_user_key, LookupKey_new. cbn [lk_data lk_kstart].
  rewrite !length_app, EncodeFixed64_length, drop_app_length.
  replace (_ + (length u + 8) - _ - 8)%nat with (length u) by lia. apply take_app_length.
Qed.

(** The wrapped policy keeps the promise on internal keys. *)
#[global] Instance InternalFilterPolicy_laws p :
  FilterPolicyLaws p -> FilterPolicyLaws (InternalFilterPolicy p).
Proof.
  intros [Hp]. constructor. intros keys dst Hn. cbn.
  destruct (Hp (map ExtractUserKey keys) dst) as (f & H1 & H2).
  { unfold Zlength in *. by rewrite length_map. }
  exists f. split; [done|]. intros key Hin. apply H2, list_elem_of_In, in_map, list_elem_of_In, Hin.
Qed.

(** ** Properties *)

(** Serialising an internal key and parsing it back gives the same user
    key, sequence number and type; conversely a string that parses is the
    serialisation of what it parses to, and every other string is rejected. *)
Theorem internal_key_roundtrip :
  (forall p, seq_ok (sequence p) -> ParseInternalKey (AppendInternalKey [] p) = Some p) /\
  (forall k p, ParseInternalKey k = Some p -> AppendInternalKey [] p = k /\ seq_ok (sequence p)) /\
  (forall k, ParseInternalKey k = None ->
     (length k < 8)%nat \/ 1 < ExtractValueType k).
Proof.
  split_and!.
  - intros. by apply Parse_Append.
  - intros k p H. split; [by apply Parse_Append_inv|by apply Parse_inv in H as (_ & _ & ? & _)].
  - intros k. unfold ParseInternalKey, ExtractValueType.
    destruct (Nat.ltb_spec (length k) 8); [by left|right].
    assert (0 <= Z.land (ExtractTag k) 255).
    { apply Z.land_nonneg. right. lia. }
    destruct (Z.eqb_spec (Z.land (ExtractTag k) 255) 0); [done|].
    destruct (Z.eqb_spec (Z.land (ExtractTag k) 255) 1); [done|]. lia.
Qed.

(** C23: For every user comparator that meets its contract, the internal key
    comparator meets it too on internal keys: a total order (user key ascending,
    then sequence and type descending), with separators in [start, limit) and
    successors at or past the key. *)
Theorem InternalKeyComparator_correct (ucmp : Comparator) :
  ComparatorLaws ucmp any_key -> (forall s, FindShortestSeparator ucmp s s = s) ->
  ComparatorLaws (InternalKeyComparator ucmp) ikey_ok /\
  (forall p q, seq_ok (sequence p) -> seq_ok (sequence q) ->
     Compare (InternalKeyComparator ucmp) (AppendInternalKey [] p) (AppendInternalKey [] q) < 0 <->
     Compare ucmp (user_key p) (user_key q) < 0 \/
     (user_key p = user_key q /\
      (sequence q < sequence p \/
       (sequence q = sequence p /\ ValueType_to_Z (type q) < ValueType_to_Z (type p))))).
Proof.
  intros Hu Hr. split; [by apply InternalKey_laws|]. intros p q Hp Hq.
  change (Compare (InternalKeyComparator ucmp)) with (InternalKeyCompare ucmp).
  rewrite icmp_lt, !AppendInternalKey_nil, !ExtractUserKey_app by done.
  rewrite !ExtractTag_app, !Pack_val by (done || by apply Pack_range).
  pose proof (ValueType_range (type p)). pose proof (ValueType_range (type q)).
  split; (intros [H1|[H1 H2]]; [by left|right; split; [done|lia]]).
Qed.

Lemma InternalKeyComparator_correct_witness :
  ComparatorLaws (InternalKeyComparator BytewiseComparator) ikey_ok /\
  (forall p q, seq_ok (sequence p) -> seq_ok (sequence q) ->
     Compare (InternalKeyComparator BytewiseComparator) (AppendInternalKey [] p) (AppendInternalKey [] q) < 0 <->
     Compare BytewiseComparator (user_key p) (user_key q) < 0 \/
     (user_key p = user_key q /\
      (sequence q < sequence p \/
       (sequence q = sequence p /\ ValueType_to_Z (type q) < ValueType_to_Z (type p))))).
Proof. apply InternalKeyComparator_correct; [exact Bytewise_laws|exact Bytewise_separator_refl]. Defined.

(** A lookup key decodes to its user key and, as a seek target, separates
    the entries of that user key: those written at or before the snapshot are at
    or past it, those written after are before it. *)
Theorem LookupKey_correct (ucmp : Comparator) (u : bytes) (s : Z) (p : ParsedInternalKey) :
  ComparatorLaws ucmp any_key -> seq_ok s -> seq_ok (sequence p) ->
  lookup_user_key (LookupKey_new u s) = u /\
  (Compare (InternalKeyComparator ucmp) (internal_key (LookupKey_new u s)) (AppendInternalKey [] p) <= 0 <->
   Compare ucmp u (user_key p) < 0 \/ (u = user_key p /\ sequence p <= s)).
Proof.
  intros Hu Hs Hp. split; [apply LookupKey_user_key|].
  rewrite LookupKey_internal_key. by apply lookup_key_seek.
Qed.

Lemma LookupKey_correct_witness :
  lookup_user_key (LookupKey_new (str "k") 5) = str "k" /\
  (Compare (InternalKeyComparator BytewiseComparator) (internal_key (LookupKey_new (str "k") 5))
     (AppendInternalKey [] (MkParsedInternalKey (str "k") 4 kTypeDeletion)) <= 0 <->
   Compare BytewiseComparator (str "k") (str "k") < 0 \/ (str "k" = str "k" /\ 4 <= 5)).
Proof.
  apply (LookupKey_correct BytewiseComparator (str "k") 5 (MkParsedInternalKey (str "k") 4 kTypeDeletion));
    [exact Bytewise_laws|split; [lia|vm_compute; congruence]|split; [simpl; lia|vm_compute; congruence]].
Defined.
