(* ===== verification/LogFile.v ===== *)
(** db/log_format.h, db/log_writer.{h,cpp} and db/log_reader.{h,cpp}: the record
    format of write-ahead logs and manifests.

    Writer and reader are proved against an interface, [Checksum], for the two
    functions of crc32c they call; [Crc32cChecksum] is the code's own checksum
    and [ReferenceChecksum] the CRC-32C it means to compute.  Both take the
    address of the buffer, because the code's checksum depends on it. *)

From Stdlib Require Import ZArith Lia List Bool String.
From S2P Require Import Prelude Coding Slice Crc32c Env.

(** ** The checksum interface *)

Class Checksum := { cs_Extend : Z -> Z -> bytes -> Z }.

Definition cs_Value `{Checksum} (pval : Z) (data : bytes) : Z := cs_Extend pval 0 data.

(** What a log needs: a 32-bit value that depends on the bytes only, and that
    can be computed in pieces. *)
Class ChecksumLaws (C : Checksum) : Prop := {
  cs_range : forall a crc d, is_u32 crc -> is_u32 (cs_Extend a crc d);
  cs_pieces : forall a a' a'' d d',
    cs_Extend a (cs_Value a' d) d' = cs_Value a'' (d ++ d')
}.

Definition Crc32cChecksum : Checksum := {| cs_Extend := Crc32c.Extend |}.

Definition ReferenceChecksum : Checksum := {| cs_Extend _ := crc32c_ref |}.

(** ** db/log_format.h *)

Inductive RecordType := kZeroType | kFullType | kFirstType | kMiddleType | kLastType.

#[global] Instance RecordType_eq_dec : EqDecision RecordType.
Proof. solve_decision. Defined.

Definition RecordType_to_Z (t : RecordType) : Z :=
  match t with
  | kZeroType => 0 | kFullType => 1 | kFirstType => 2 | kMiddleType => 3 | kLastType => 4
  end.

Definition kMaxRecordType : Z := 4.
Definition kBlockSize : Z := 32768.
Definition kHeaderSize : Z := 4 + 1 + 2.

(** ** Writable files

    A log writer sees its file through the [Append] and [Flush] of env.h's
    [WritableFile]. *)

Class FileOps (F : Type) := {
  Append : F -> bytes -> Status * F;
  Flush : F -> Status * F
}.

#[global] Hint Mode FileOps ! : typeclass_instances.

(** A file in memory.  The outcome of the coming calls is scripted: a call succeeds, or fails with
    a status after part of its data reached the file. *)

Inductive outcome := Succeeds | Fails (s : Status) (written : nat).

Record WritableFile := MkWritableFile { wf_data : bytes; wf_script : list outcome }.

Definition WritableFile_Append (f : WritableFile) (data : bytes) : Status * WritableFile :=
  match wf_script f with
  | Fails s n :: rest => (s, MkWritableFile (wf_data f ++ take n data) rest)
  | Succeeds :: rest => (Status_OK, MkWritableFile (wf_data f ++ data) rest)
  | [] => (Status_OK, MkWritableFile (wf_data f ++ data) [])
  end.

Definition WritableFile_Flush (f : WritableFile) : Status * WritableFile :=
  match wf_script f with
  | Fails s n :: rest => (s, MkWritableFile (wf_data f) rest)
  | Succeeds :: rest => (Status_OK, MkWritableFile (wf_data f) rest)
  | [] => (Status_OK, f)
  end.

#[global] Instance WritableFile_ops : FileOps WritableFile := {|
  Append := WritableFile_Append;
  Flush := WritableFile_Flush
|}.

(** ** db/log_writer.cpp *)

Record Writer (F : Type) := MkWriter {
  dest_ : F;
  block_offset_ : Z;
  type_crc_ : list Z
}.
Arguments MkWriter {F}.
Arguments dest_ {F}.
Arguments block_offset_ {F}.
Arguments type_crc_ {F}.

Section Log.
Context `{C : Checksum}.

Section Writer.
Context {F : Type}.
Abbreviation Writer := (Writer F).

(** [t_addr] is the address of the local [t]. *)
Definition Writer_new (t_addr : Z) (dest : F) : Writer :=
  MkWriter dest 0
    (map (fun i => cs_Value t_addr [Zb (Z.of_nat i)]) (seq 0 (Z.to_nat (kMaxRecordType + 1)))).

Context `{!FileOps F}.

(** [buf[4]], [buf[5]], [buf[6]] and the checksum: the 7 bytes of a header. *)
Definition record_header (t : RecordType) (n crc : Z) : bytes :=
  EncodeFixed32 (Mask crc) ++ [Zb (Z.land n 255); Zb (Z.shiftr n 8); Zb (RecordType_to_Z t)].

Definition EmitPhysicalRecord (w : Writer) (t : RecordType) (addr : Z) (ptr : bytes) : Status * Writer :=
  let n := Zlength ptr in
  let crc := cs_Extend addr (nth (Z.to_nat (RecordType_to_Z t)) (type_crc_ w) 0) ptr in
  let buf := record_header t n crc in
  let '(s, dest) := Append (dest_ w) buf in
  let '(s, dest) :=
    if ok s then
      let '(s, dest) := Append dest ptr in
      if ok s then Flush dest else (s, dest)
    else (s, dest) in
  (s, MkWriter dest (block_offset_ w + kHeaderSize + n) (type_crc_ w)).

(** One pass of the [do] loop up to and including [EmitPhysicalRecord]. *)
Definition AddRecord_fragment (w : Writer) (addr : Z) (ptr : bytes) (begin : bool)
    : Status * Writer * Z :=
  let left := Zlength ptr in
  let leftover := kBlockSize - block_offset_ w in
  let w :=
    if leftover <? kHeaderSize then
      let dest :=
        if leftover >? 0 then
          (Append (dest_ w) (take (Z.to_nat leftover) (replicate 6 Byte.x00))).2
        else dest_ w in
      MkWriter dest 0 (type_crc_ w)
    else w in
  let avail := kBlockSize - block_offset_ w - kHeaderSize in
  let fragment_length := if left <? avail then left else avail in
  let is_end := left =? fragment_length in
  let t :=
    if begin && is_end then kFullType
    else if begin then kFirstType
    else if is_end then kLastType
    else kMiddleType in
  let '(s, w) := EmitPhysicalRecord w t addr (take (Z.to_nat fragment_length) ptr) in
  (s, w, fragment_length).

(** The [do ... while (s.ok() && left > 0)] loop; [None] is out of fuel, which
    [AddRecord]'s fuel excludes ([AddRecord_returns]). *)
Fixpoint AddRecord_loop (fuel : nat) (w : Writer) (addr : Z) (ptr : bytes) (begin : bool)
    : option (Status * Writer) :=
  match fuel with
  | O => None
  | S fuel' =>
      let '(s, w, fragment_length) := AddRecord_fragment w addr ptr begin in
      let addr := addr + fragment_length in
      let ptr := drop (Z.to_nat fragment_length) ptr in
      if ok s && (Zlength ptr >? 0) then AddRecord_loop fuel' w addr ptr false
      else Some (s, w)
  end.

(** [addr] is the address of the slice. *)
Definition AddRecord (w : Writer) (addr : Z) (slice : bytes) : option (Status * Writer) :=
  AddRecord_loop (length slice + 2) w addr slice true.

End Writer.

(** ** db/log_reader.cpp *)

Record Reader := MkReader {
  file_ : SequentialFile;
  has_reporter : bool;                  (* reporter_ != NULL *)
  reports : list (Z * Status);          (* calls to reporter_->Corruption, oldest first *)
  checksum_ : bool;
  backing_store_ : Z;                   (* its address *)
  buffer_ : bytes;
  buffer_addr : Z;                      (* buffer_.data() *)
  eof_ : bool;
  last_record_offset_ : Z;
  end_of_buffer_offset_ : Z;
  initial_offset_ : Z
}.

Definition kEof : Z := kMaxRecordType + 1.
Definition kBadRecord : Z := kMaxRecordType + 2.

(** The constructor leaves [last_record_offset_] and [end_of_buffer_offset_]
    uninitialised: [lro] and [eob] are whatever memory held. *)
Definition Reader_new (file : SequentialFile) (has_rep checksum : bool) (store initial_offset : Z)
    (lro eob : Z) : Reader :=
  MkReader file has_rep [] checksum store [] 0 false lro eob initial_offset.

Definition with_buffer (r : Reader) (b : bytes) (addr : Z) : Reader :=
  MkReader (file_ r) (has_reporter r) (reports r) (checksum_ r) (backing_store_ r) b addr (eof_ r)
    (last_record_offset_ r) (end_of_buffer_offset_ r) (initial_offset_ r).

Definition with_file (r : Reader) (f : SequentialFile) : Reader :=
  MkReader f (has_reporter r) (reports r) (checksum_ r) (backing_store_ r) (buffer_ r) (buffer_addr r)
    (eof_ r) (last_record_offset_ r) (end_of_buffer_offset_ r) (initial_offset_ r).

Definition with_eof (r : Reader) (e : bool) : Reader :=
  MkReader (file_ r) (has_reporter r) (reports r) (checksum_ r) (backing_store_ r) (buffer_ r)
    (buffer_addr r) e (last_record_offset_ r) (end_of_buffer_offset_ r) (initial_offset_ r).

Definition with_end_of_buffer (r : Reader) (o : Z) : Reader :=
  MkReader (file_ r) (has_reporter r) (reports r) (checksum_ r) (backing_store_ r) (buffer_ r)
    (buffer_addr r) (eof_ r) (last_record_offset_ r) o (initial_offset_ r).

Definition with_last_record (r : Reader) (o : Z) : Reader :=
  MkReader (file_ r) (has_reporter r) (reports r) (checksum_ r) (backing_store_ r) (buffer_ r)
    (buffer_addr r) (eof_ r) o (end_of_buffer_offset_ r) (initial_offset_ r).

Definition with_report (r : Reader) (n : Z) (s : Status) : Reader :=
  MkReader (file_ r) (has_reporter r) (reports r ++ [(n, s)]) (checksum_ r) (backing_store_ r)
    (buffer_ r) (buffer_addr r) (eof_ r) (last_record_offset_ r) (end_of_buffer_offset_ r)
    (initial_offset_ r).

Definition ReportDrop (r : Reader) (n : Z) (reason : Status) : Reader :=
  if has_reporter r &&
     (u64 (end_of_buffer_offset_ r - Zlength (buffer_ r) - n) >=? initial_offset_ r)
  then with_report r n reason else r.

Definition ReportCorruption (r : Reader) (n : Z) (reason : bytes) : Reader :=
  ReportDrop r n (Status_Corruption reason []).

Definition clear_buffer (r : Reader) : Reader := with_buffer r [] 0.

(** [true] on success. *)
Definition SkipToInitialBlock (r : Reader) : bool * Reader :=
  let offset_in_block := initial_offset_ r mod kBlockSize in
  let block_start_location := initial_offset_ r - offset_in_block in
  let block_start_location :=
    if offset_in_block >? kBlockSize - 6 then block_start_location + kBlockSize
    else block_start_location in
  let r := with_end_of_buffer r block_start_location in
  if block_start_location >? 0 then
    let '(skip_status, f) := SequentialFile_Skip (file_ r) block_start_location in
    let r := with_file r f in
    if negb (ok skip_status) then (false, ReportDrop r block_start_location skip_status)
    else (true, r)
  else (true, r).

(** [header[4]] and [header[5]]. *)
Definition header_length (header : bytes) : Z :=
  Z.lor (bZ (nth 4 header Byte.x00)) (Z.shiftl (bZ (nth 5 header Byte.x00)) 8).

(** [const unsigned int type = header[6]]: the conversion goes through a signed
    [char]. *)
Definition header_type (header : bytes) : Z := u32 (schar (nth 6 header Byte.x00)).

(** The part of the loop body below the refill. *)
Definition ParsePhysicalRecord (r : Reader) (result : bytes) : Z * bytes * Reader :=
  let header := buffer_ r in
  let type := header_type header in
  let length := header_length header in
  if kHeaderSize + length >? Zlength (buffer_ r) then
    (kBadRecord, result, ReportCorruption (clear_buffer r) (Zlength (buffer_ r)) (str "bad record length"))
  else if (type =? RecordType_to_Z kZeroType) && (length =? 0) then
    (kBadRecord, result, clear_buffer r)
  else if checksum_ r &&
      negb (cs_Value (buffer_addr r + 6) (take (Z.to_nat (1 + length)) (drop 6 header)) =?
            Unmask (DecodeFixed32 header)) then
    (kBadRecord, result, ReportCorruption (clear_buffer r) (Zlength (buffer_ r)) (str "checksum mismatch"))
  else
    let r := with_buffer r (Slice.remove_prefix (buffer_ r) (kHeaderSize + length))
               (buffer_addr r + kHeaderSize + length) in
    if u64 (end_of_buffer_offset_ r - Zlength (buffer_ r) - kHeaderSize - length) <? initial_offset_ r
    then (kBadRecord, [], r)
    else (type, take (Z.to_nat length) (drop (Z.to_nat kHeaderSize) header), r).

(** [result] is the slice [*result] before the call.  Two refills are enough:
    after the first either the buffer holds a header or [eof_] is set. *)
Fixpoint ReadPhysicalRecord_loop (fuel : nat) (r : Reader) (result : bytes)
    : option (Z * bytes * Reader) :=
  match fuel with
  | O => None
  | S fuel' =>
      if Zlength (buffer_ r) <? kHeaderSize then
        if negb (eof_ r) then
          let '(status, buffer, f) := SequentialFile_Read (file_ r) kBlockSize in
          let r := with_file r f in
          let r := with_buffer r buffer (backing_store_ r) in
          let r := with_end_of_buffer r (u64 (end_of_buffer_offset_ r + Zlength buffer)) in
          if negb (ok status) then
            Some (kEof, result, with_eof (ReportDrop (clear_buffer r) kBlockSize status) true)
          else
            let r := if Zlength buffer <? kBlockSize then with_eof r true else r in
            ReadPhysicalRecord_loop fuel' r result
        else if Zlength (buffer_ r) =? 0 then Some (kEof, result, r)
        else
          Some (kEof, result,
            ReportCorruption (clear_buffer r) (Zlength (buffer_ r))
              (str "truncated record at end of file"))
      else Some (ParsePhysicalRecord r result)
  end.

Definition ReadPhysicalRecord (r : Reader) (result : bytes) : option (Z * bytes * Reader) :=
  ReadPhysicalRecord_loop 2 r result.

(** What one call left the local variables of [ReadRecord] at, or its result. *)
Inductive read_step :=
  | Returned (ok : bool) (record scratch : bytes) (r : Reader)
  | Continues (in_fragmented : bool) (prospective : Z) (scratch : bytes) (r : Reader).

(** The [switch] of [ReadRecord]. *)
Definition ReadRecord_case (record_type : Z) (fragment : bytes) (physical : Z)
    (in_fragmented : bool) (prospective : Z) (scratch : bytes) (r : Reader) : read_step :=
  if record_type =? RecordType_to_Z kFullType then
    let r := if in_fragmented && negb (Slice.empty scratch)
             then ReportCorruption r (Zlength scratch) (str "partial record without end(1)") else r in
    Returned true fragment [] (with_last_record r physical)
  else if record_type =? RecordType_to_Z kFirstType then
    let r := if in_fragmented && negb (Slice.empty scratch)
             then ReportCorruption r (Zlength scratch) (str "partial record without end(2)") else r in
    Continues true physical fragment r
  else if record_type =? RecordType_to_Z kMiddleType then
    if negb in_fragmented then
      Continues in_fragmented prospective scratch
        (ReportCorruption r (Zlength fragment) (str "missing start of fragmented record(1)"))
    else Continues in_fragmented prospective (scratch ++ fragment) r
  else if record_type =? RecordType_to_Z kLastType then
    if negb in_fragmented then
      Continues in_fragmented prospective scratch
        (ReportCorruption r (Zlength fragment) (str "missing start of fragmented record(2)"))
    else Returned true (scratch ++ fragment) (scratch ++ fragment) (with_last_record r prospective)
  else if record_type =? kEof then
    if in_fragmented then
      Returned false [] []
        (ReportCorruption r (Zlength scratch) (str "partial record without end(3)"))
    else Returned false [] scratch r
  else if record_type =? kBadRecord then
    if in_fragmented then
      Continues false prospective []
        (ReportCorruption r (Zlength scratch) (str "error in middle of record"))
    else Continues in_fragmented prospective scratch r
  else
    Continues false prospective []
      (ReportCorruption r (Zlength fragment + (if in_fragmented then Zlength scratch else 0))
         (take 39 (str "unknown record type " ++ print_dec record_type))).

Fixpoint ReadRecord_loop (fuel : nat) (r : Reader) (fragment : bytes) (in_fragmented : bool)
    (prospective : Z) (scratch : bytes) : option (bool * bytes * bytes * Reader) :=
  match fuel with
  | O => None
  | S fuel' =>
      let physical := u64 (end_of_buffer_offset_ r - Zlength (buffer_ r)) in
      match ReadPhysicalRecord r fragment with
      | None => None
      | Some (record_type, fragment, r) =>
          match ReadRecord_case record_type fragment physical in_fragmented prospective scratch r with
          | Returned b record scratch r => Some (b, record, scratch, r)
          | Continues in_fragmented prospective scratch r =>
              ReadRecord_loop fuel' r fragment in_fragmented prospective scratch
          end
      end
  end.

(** Every pass that goes on consumes a byte of the buffer or of the file
    ([ReadRecord_returns]).  The result is the return value, [*record],
    [*scratch] and the reader.  When the initial block cannot be reached the
    code returns before it clears [*record] and [*scratch]. *)
Definition ReadRecord (r : Reader) (record scratch : bytes) : option (bool * bytes * bytes * Reader) :=
  let '(fine, r) :=
    if last_record_offset_ r <? initial_offset_ r then SkipToInitialBlock r else (true, r) in
  if negb fine then Some (false, record, scratch, r)
  else ReadRecord_loop (length (buffer_ r) + length (sf_data (file_ r)) + 1) r [] false 0 [].

Definition LastRecordOffset (r : Reader) : Z := last_record_offset_ r.

End Log.

(** ** The checksum instances *)

#[global] Instance ReferenceChecksum_laws : ChecksumLaws ReferenceChecksum.
Proof.
  split; cbn; unfold cs_Value, crc32c_ref; cbn; intros.
  - unfold is_u32 in *. apply (lxor_lt_pow2 _ _ 32); [done| |lia].
    apply crc_bytes_range. apply (lxor_lt_pow2 _ _ 32); lia.
  - rewrite fold_left_app. f_equal. f_equal.
    by rewrite Z.lxor_assoc, Z.lxor_nilpotent, Z.lxor_0_r.
Qed.

(** ** Lemmas: the writer *)

Section LogLemmas.
Context `{C : Checksum}.

(** The checksum the writer stores for a fragment. *)
Definition record_crc (t_addr addr : Z) (t : RecordType) (ptr : bytes) : Z :=
  cs_Extend addr (cs_Value t_addr [Zb (RecordType_to_Z t)]) ptr.

(** The bytes of a fragment emitted at block offset [b], and the next offset. *)
Definition pad_bytes (b : Z) : bytes :=
  if kBlockSize - b <? kHeaderSize then take (Z.to_nat (kBlockSize - b)) (replicate 6 Byte.x00) else [].

Definition pad_offset (b : Z) : Z := if kBlockSize - b <? kHeaderSize then 0 else b.

Definition fresh_type_crc (t_addr : Z) (tc : list Z) : Prop :=
  forall t, nth (Z.to_nat (RecordType_to_Z t)) tc 0 = cs_Value t_addr [Zb (RecordType_to_Z t)].

Lemma Writer_new_type_crc {F} t_addr (f : F) : fresh_type_crc t_addr (type_crc_ (Writer_new t_addr f)).
Proof. intros t. by destruct t. Qed.

Lemma EmitPhysicalRecord_ok t_addr d b tc t addr ptr :
  fresh_type_crc t_addr tc ->
  EmitPhysicalRecord (MkWriter (MkWritableFile d []) b tc) t addr ptr =
  (Status_OK, MkWriter (MkWritableFile
     (d ++ record_header t (Zlength ptr) (record_crc t_addr addr t ptr) ++ ptr) [])
     (b + kHeaderSize + Zlength ptr) tc).
Proof.
  intros Htc. unfold EmitPhysicalRecord. cbn [type_crc_ dest_ block_offset_]. rewrite Htc.
  cbn [Append Flush WritableFile_ops]. unfold WritableFile_Append, WritableFile_Flush. cbn. by rewrite <- app_assoc.
Qed.

(** The type the writer picks. *)
Definition fragment_type (begin is_end : bool) : RecordType :=
  if begin && is_end then kFullType
  else if begin then kFirstType
  else if is_end then kLastType
  else kMiddleType.

Lemma AddRecord_fragment_ok t_addr d b tc addr ptr begin :
  fresh_type_crc t_addr tc -> 0 <= b <= kBlockSize ->
  let b0 := pad_offset b in
  let n := Z.min (Zlength ptr) (kBlockSize - b0 - kHeaderSize) in
  let frag := take (Z.to_nat n) ptr in
  let t := fragment_type begin (Zlength ptr =? n) in
  AddRecord_fragment (MkWriter (MkWritableFile d []) b tc) addr ptr begin =
  (Status_OK, MkWriter (MkWritableFile
     (d ++ pad_bytes b ++ record_header t (Zlength frag) (record_crc t_addr addr t frag) ++ frag) [])
     (b0 + kHeaderSize + Zlength frag) tc, n).
Proof.
  intros Htc Hb b0 n frag t. unfold AddRecord_fragment. cbn [block_offset_ dest_ type_crc_].
  set (w := if kBlockSize - b <? kHeaderSize then _ else _).
  assert (w = MkWriter (MkWritableFile (d ++ pad_bytes b) []) b0 tc) as ->.
  { subst w b0. unfold pad_bytes, pad_offset. destruct (Z.ltb_spec (kBlockSize - b) kHeaderSize).
    - destruct (Z.gtb_spec (kBlockSize - b) 0); [done|].
      replace (kBlockSize - b) with 0 by lia. cbn [Z.to_nat take]. by rewrite app_nil_r.
    - by rewrite app_nil_r. }
  cbn [block_offset_].
  assert ((if Zlength ptr <? kBlockSize - b0 - kHeaderSize then Zlength ptr
           else kBlockSize - b0 - kHeaderSize) = n) as ->
    by (subst n; destruct (Z.ltb_spec (Zlength ptr) (kBlockSize - b0 - kHeaderSize)); lia).
  change (if begin && (Zlength ptr =? n) then kFullType else _) with t.
  rewrite (EmitPhysicalRecord_ok t_addr) by done. by rewrite <- app_assoc.
Qed.

(** ** Lemmas: the reader *)

(** The reader is at block offset [b] of its file and [rem] is left to read. *)
Record reader_at (r : Reader) (rem : bytes) (b : Z) : Prop := {
  at_range : 0 <= b <= kBlockSize;
  at_buffer : buffer_ r = take (Z.to_nat (kBlockSize - b)) rem;
  at_file : file_ r = MkSequentialFile (drop (Z.to_nat (kBlockSize - b)) rem) [];
  at_eof : eof_ r = (Zlength rem <? kBlockSize - b);
  at_initial : initial_offset_ r = 0;
  at_last : 0 <= last_record_offset_ r;
  at_addr : buffer_addr r = backing_store_ r + b
}.

(** What reading leaves alone. *)
Definition same_config (r r' : Reader) : Prop :=
  reports r' = reports r /\ checksum_ r' = checksum_ r /\ backing_store_ r' = backing_store_ r.

Lemma same_config_trans r r' r'' : same_config r r' -> same_config r' r'' -> same_config r r''.
Proof. intros (? & ? & ?) (? & ? & ?). split_and!; congruence. Qed.

Lemma reader_at_length r rem b :
  reader_at r rem b -> (length (buffer_ r) + length (sf_data (file_ r)) = length rem)%nat.
Proof.
  intros H. rewrite (at_buffer _ _ _ H), (at_file _ _ _ H). cbn [sf_data].
  rewrite <- length_app, take_drop. done.
Qed.

Lemma header_length_ok t n crc rest :
  0 <= n < 65536 -> header_length (record_header t n crc ++ rest) = n.
Proof.
  intros Hn. unfold header_length, record_header.
  pose proof (EncodeFixed32_length (Mask crc)) as Hl.
  destruct (EncodeFixed32 (Mask crc)) as [|? [|? [|? [|? [|? ?]]]]]; try discriminate Hl.
  cbn [app nth]. rewrite !bZ_Zb. rewrite Z.shiftr_div_pow2 by lia.
  change 255 with (Z.ones 8). rewrite Z.land_ones by lia. change (2 ^ 8) with 256.
  rewrite Z.mod_mod by lia. rewrite (Z.mod_small (n / 256)).
  - rewrite lor_disjoint_add; [|lia|apply Z.mod_pos_bound; lia].
    change (2 ^ 8) with 256. rewrite (Z.div_mod n 256) at 3 by lia. lia.
  - split; [apply Z.div_pos; lia|apply Z.div_lt_upper_bound; lia].
Qed.

Lemma header_type_ok t n crc rest :
  header_type (record_header t n crc ++ rest) = RecordType_to_Z t.
Proof.
  unfold header_type, record_header.
  pose proof (EncodeFixed32_length (Mask crc)) as Hl.
  destruct (EncodeFixed32 (Mask crc)) as [|? [|? [|? [|? [|? ?]]]]]; try discriminate Hl.
  cbn [app nth]. by destruct t.
Qed.

Lemma record_header_length t n crc : Zlength (record_header t n crc) = kHeaderSize.
Proof. unfold record_header, Zlength. rewrite length_app, EncodeFixed32_length. done. Qed.

Lemma drop_header_6 t n crc rest :
  drop 6 (record_header t n crc ++ rest) = Zb (RecordType_to_Z t) :: rest.
Proof.
  unfold record_header. pose proof (EncodeFixed32_length (Mask crc)) as Hl.
  destruct (EncodeFixed32 (Mask crc)) as [|? [|? [|? [|? [|? ?]]]]]; try discriminate Hl. done.
Qed.

(** Under the laws, a stored checksum is the one the reader computes. *)
Lemma record_crc_checks t_addr addr a t ptr n rest :
  ChecksumLaws C ->
  (cs_Value a (Zb (RecordType_to_Z t) :: ptr) =?
   Unmask (DecodeFixed32 (record_header t n (record_crc t_addr addr t ptr) ++ rest))) = true.
Proof.
  intros L. apply Z.eqb_eq. unfold record_header, record_crc.
  rewrite <- app_assoc, DecodeFixed32_app, u32_small by apply Mask_range.
  rewrite (cs_pieces _ _ a), Unmask_Mask; [done|].
  apply cs_range. unfold is_u32. lia.
Qed.

(** The checksums of a log: every record of [rem], which continues a block from
    its offset [b], has the checksum the reader computes when its buffer is at
    [store].  Each step passes a header, so the length of [rem] is enough fuel
    ([log_verifies_all]). *)
Fixpoint verifies_from (fuel : nat) (store b : Z) (rem : bytes) : bool :=
  match fuel with
  | O => true
  | S fuel =>
      let rem := drop (length (pad_bytes b)) rem in
      let n := header_length rem in
      (Zlength rem <? kHeaderSize) ||
      ((cs_Value (store + pad_offset b + 6) (take (Z.to_nat (1 + n)) (drop 6 rem)) =? Unmask (DecodeFixed32 rem)) &&
       verifies_from fuel store (pad_offset b + kHeaderSize + n) (drop (Z.to_nat (kHeaderSize + n)) rem))
  end.

Definition log_verifies (store : Z) (data : bytes) : bool := verifies_from (length data) store 0 data.

Definition verifies (store b : Z) (rem : bytes) : Prop := forall fuel, verifies_from fuel store b rem = true.

Lemma header_length_nonneg h : 0 <= header_length h.
Proof. unfold header_length. apply Z.lor_nonneg. split; [apply bZ_range|]. apply Z.shiftl_nonneg, bZ_range. Qed.

Lemma verifies_from_all fuel store b rem : (length rem <= fuel)%nat -> verifies_from fuel store b rem = true -> verifies store b rem.
Proof.
  revert b rem. induction fuel as [|fuel IH]; intros b rem Hl H [|fuel']; [done| |done|]; cbn [verifies_from] in *.
  { destruct rem; [|cbn in Hl; lia]. by rewrite drop_nil. }
  set (rem1 := drop _ rem) in *. assert (length rem1 <= length rem)%nat by (subst rem1; rewrite length_drop; lia).
  destruct (Z.ltb_spec (Zlength rem1) kHeaderSize); [done|]. cbn [orb] in *. apply andb_true_iff in H as [-> H]. cbn [andb].
  apply IH; [|done]. rewrite length_drop. pose proof (header_length_nonneg rem1). unfold Zlength, kHeaderSize in *. lia.
Qed.

Lemma log_verifies_all store data : log_verifies store data = true -> verifies store 0 data.
Proof. by apply verifies_from_all. Qed.

(** One fragment of the writer. *)
Lemma verifies_fragment store b t crc ptr rest : pad_offset b + kHeaderSize + Zlength ptr <= kBlockSize -> 0 <= pad_offset b ->
  verifies store b (pad_bytes b ++ record_header t (Zlength ptr) crc ++ ptr ++ rest) <->
  (cs_Value (store + pad_offset b + 6) (Zb (RecordType_to_Z t) :: ptr) =? Unmask (DecodeFixed32 (record_header t (Zlength ptr) crc ++ ptr ++ rest))) = true /\
  verifies store (pad_offset b + kHeaderSize + Zlength ptr) rest.
Proof.
  intros Hb Hb0. pose proof (Zlength_nonneg ptr) as Hp.
  assert (forall fuel, verifies_from (S fuel) store b (pad_bytes b ++ record_header t (Zlength ptr) crc ++ ptr ++ rest) =
    (cs_Value (store + pad_offset b + 6) (Zb (RecordType_to_Z t) :: ptr) =? Unmask (DecodeFixed32 (record_header t (Zlength ptr) crc ++ ptr ++ rest))) &&
    verifies_from fuel store (pad_offset b + kHeaderSize + Zlength ptr) rest) as H.
  { intros fuel. cbn [verifies_from]. rewrite drop_app_length. rewrite header_length_ok by (unfold kBlockSize, kHeaderSize in *; lia).
    pose proof (record_header_length t (Zlength ptr) crc) as Hh. rewrite (proj2 (Z.ltb_ge _ _))
      by (rewrite Zlength_app, Hh; pose proof (Zlength_nonneg (ptr ++ rest)); lia).
    cbn [orb]. rewrite drop_header_6, Z2Nat.inj_add, to_nat_Zlength by lia. change (Z.to_nat 1) with 1%nat. cbn [Nat.add take].
    rewrite take_app_length. f_equal. f_equal. rewrite <- Hh, Z2Nat.inj_add, !to_nat_Zlength, <- drop_drop by (rewrite ?Hh; unfold kHeaderSize; lia).
    by rewrite !drop_app_length. }
  unfold verifies. split.
  - intros Hv. split; [specialize (Hv 1%nat)|intros fuel; specialize (Hv (S fuel))]; rewrite H in Hv; by apply andb_true_iff in Hv as [? ?].
  - intros [Hc Hr] [|fuel]; [done|]. by rewrite H, Hc, Hr.
Qed.

(** A reader that verifies checksums finds them in what is left to read. *)
Definition checks (r : Reader) (rem : bytes) (b : Z) : Prop := checksum_ r = true -> verifies (backing_store_ r) b rem.

(** A physical record at the front of the buffer is delivered. *)
Lemma ParsePhysicalRecord_ok r t_addr addr t ptr rest b result :
  let rem := record_header t (Zlength ptr) (record_crc t_addr addr t ptr) ++ ptr ++ rest in
  reader_at r rem b -> b + kHeaderSize + Zlength ptr <= kBlockSize -> t <> kZeroType ->
  (checksum_ r = true -> (cs_Value (backing_store_ r + b + 6) (Zb (RecordType_to_Z t) :: ptr) =? Unmask (DecodeFixed32 rem)) = true) ->
  exists r', ParsePhysicalRecord r result = (RecordType_to_Z t, ptr, r') /\
    reader_at r' rest (b + kHeaderSize + Zlength ptr) /\ same_config r r'.
Proof.
  intros rem Hat Hb Ht Hc.
  pose proof (Zlength_nonneg ptr) as Hp. pose proof (at_range _ _ _ Hat) as Hr.
  pose proof (record_header_length t (Zlength ptr) (record_crc t_addr addr t ptr)) as Hh.
  set (hdr := record_header _ _ _) in *.
  set (k := Z.to_nat (kHeaderSize + Zlength ptr)).
  assert (length (hdr ++ ptr) = k) as Hk.
  { subst k. rewrite <- Hh, <- Zlength_app. symmetry. apply to_nat_Zlength. }
  assert (buffer_ r = hdr ++ ptr ++ take (Z.to_nat (kBlockSize - b) - k) rest) as Hbuf.
  { rewrite (at_buffer _ _ _ Hat). subst rem. rewrite !app_assoc, take_app.
    rewrite Hk. f_equal. apply take_ge. subst k. rewrite Hk. unfold kBlockSize, kHeaderSize in *. lia. }
  unfold ParsePhysicalRecord. rewrite Hbuf. cbv zeta. subst hdr.
  rewrite header_length_ok, header_type_ok by (unfold kBlockSize, kHeaderSize in *; lia).
  set (hdr := record_header _ _ _) in *.
  destruct (Z.gtb_spec (kHeaderSize + Zlength ptr)
    (Zlength (hdr ++ ptr ++ take (Z.to_nat (kBlockSize - b) - k) rest))) as [Hgt|_].
  { rewrite !Zlength_app, Hh in Hgt. pose proof (Zlength_nonneg (take (Z.to_nat (kBlockSize - b) - k) rest)). lia. }
  assert ((RecordType_to_Z t =? RecordType_to_Z kZeroType) = false) as -> by (by destruct t).
  cbn [andb].
  assert (checksum_ r && negb (cs_Value (buffer_addr r + 6)
     (take (Z.to_nat (1 + Zlength ptr)) (drop 6 (hdr ++ ptr ++ take (Z.to_nat (kBlockSize - b) - k) rest))) =?
     Unmask (DecodeFixed32 (hdr ++ ptr ++ take (Z.to_nat (kBlockSize - b) - k) rest))) = false) as ->.
  { destruct (checksum_ r) eqn:Ec; [|done]. cbn [andb]. subst hdr. rewrite drop_header_6.
    rewrite Z2Nat.inj_add, to_nat_Zlength by lia. change (Z.to_nat 1) with 1%nat.
    cbn [Nat.add take]. rewrite take_app_length, (at_addr _ _ _ Hat). specialize (Hc eq_refl). subst rem.
    unfold record_header in *. rewrite <- app_assoc, DecodeFixed32_app in Hc |- *. by rewrite Hc. }
  set (r' := with_buffer r _ _).
  replace (initial_offset_ r') with 0 by (symmetry; apply (at_initial _ _ _ Hat)).
  destruct (Z.ltb_spec (u64 (end_of_buffer_offset_ r' - Zlength (buffer_ r') - kHeaderSize - Zlength ptr)) 0)
    as [Hlt|_]; [pose proof (u64_range (end_of_buffer_offset_ r' - Zlength (buffer_ r') - kHeaderSize - Zlength ptr)) as []; lia|].
  exists r'. split_and!.
  - f_equal. f_equal. rewrite <- Hh, drop_Zlength_app, take_Zlength_app. done.
  - assert (Z.to_nat (kBlockSize - (b + kHeaderSize + Zlength ptr)) =
      (Z.to_nat (kBlockSize - b) - k)%nat) as E by (subst k; unfold kHeaderSize; lia).
    constructor; subst r'; cbn [with_buffer buffer_ file_ eof_ initial_offset_ last_record_offset_].
    + unfold kHeaderSize in *. lia.
    + unfold Slice.remove_prefix. fold k. rewrite E, <- Hk, app_assoc. apply drop_app_length.
    + rewrite (at_file _ _ _ Hat), E. f_equal. subst rem. rewrite app_assoc, drop_app, Hk.
      rewrite drop_ge; [done|]. rewrite Hk. subst k. unfold kHeaderSize in *. lia.
    + rewrite (at_eof _ _ _ Hat). subst rem. rewrite !Zlength_app, Hh. apply eq_true_iff_eq.
      rewrite !Z.ltb_lt. lia.
    + apply (at_initial _ _ _ Hat).
    + apply (at_last _ _ _ Hat).
    + cbn [with_buffer buffer_addr backing_store_]. rewrite (at_addr _ _ _ Hat). lia.
  - done.
Qed.

(** Where a refill finds the reader: it is fresh, or in a block's trailer. *)
Definition needs_refill (r : Reader) (rem : bytes) : Prop :=
  Zlength (buffer_ r) < kHeaderSize /\ eof_ r = false /\
  file_ r = MkSequentialFile rem [] /\ initial_offset_ r = 0 /\ 0 <= last_record_offset_ r.

Lemma refill_ok r rem fuel result :
  needs_refill r rem ->
  exists r', ReadPhysicalRecord_loop (S fuel) r result = ReadPhysicalRecord_loop fuel r' result /\
    reader_at r' rem 0 /\ same_config r r'.
Proof.
  intros (Hb & He & Hf & Hi & Hl). cbn [ReadPhysicalRecord_loop].
  destruct (Z.ltb_spec (Zlength (buffer_ r)) kHeaderSize); [|lia].
  rewrite He, Hf. cbn [negb SequentialFile_Read next_fault sf_faults sf_data].
  change (ok Status_OK) with true. cbn [negb].
  eexists. split; [reflexivity|]. split.
  - assert ((Zlength (take (Z.to_nat kBlockSize) rem) <? kBlockSize) = (Zlength rem <? kBlockSize)) as ->.
    { apply eq_true_iff_eq. rewrite !Z.ltb_lt. unfold Zlength. rewrite length_take.
      unfold kBlockSize. lia. }
    destruct (Zlength rem <? kBlockSize) eqn:E; constructor;
      cbn [with_eof with_end_of_buffer with_buffer with_file buffer_ file_ eof_ initial_offset_ last_record_offset_ buffer_addr backing_store_];
      rewrite ?Z.sub_0_r, ?E; try done; unfold kBlockSize; lia.
  - case_match; done.
Qed.

Lemma reader_at_trailer r pad rem b :
  reader_at r (pad ++ rem) b -> kBlockSize - b < kHeaderSize -> Zlength pad = kBlockSize - b ->
  needs_refill r rem.
Proof.
  intros Hat Hb Hp. pose proof (at_range _ _ _ Hat).
  assert (Z.to_nat (kBlockSize - b) = length pad) as E by (rewrite <- Hp; apply to_nat_Zlength).
  repeat split.
  - rewrite (at_buffer _ _ _ Hat), E, take_app_length. lia.
  - rewrite (at_eof _ _ _ Hat), Zlength_app, Hp. apply Z.ltb_ge. pose proof (Zlength_nonneg rem). lia.
  - rewrite (at_file _ _ _ Hat), E, drop_app_length. done.
  - apply (at_initial _ _ _ Hat).
  - apply (at_last _ _ _ Hat).
Qed.

Lemma pad_bytes_length b :
  0 <= b <= kBlockSize -> kBlockSize - b < kHeaderSize -> Zlength (pad_bytes b) = kBlockSize - b.
Proof.
  intros Hb Hl. unfold pad_bytes. destruct (Z.ltb_spec (kBlockSize - b) kHeaderSize); [|lia].
  unfold Zlength. rewrite length_take, length_replicate. unfold kHeaderSize in *. lia.
Qed.

(** The reader's position as the writer counts it: a fresh reader is at the
    start of the block it has not read yet. *)
Definition reader_pos (r : Reader) (rem : bytes) (b : Z) : Prop :=
  reader_at r rem b \/ (b = 0 /\ buffer_ r = [] /\ needs_refill r rem).

(** One fragment of the writer is one physical record for the reader. *)
Lemma ReadPhysicalRecord_ok r t_addr addr t ptr rest b result :
  reader_pos r (pad_bytes b ++ record_header t (Zlength ptr) (record_crc t_addr addr t ptr) ++ ptr ++ rest) b ->
  pad_offset b + kHeaderSize + Zlength ptr <= kBlockSize -> t <> kZeroType ->
  checks r (pad_bytes b ++ record_header t (Zlength ptr) (record_crc t_addr addr t ptr) ++ ptr ++ rest) b ->
  exists r', ReadPhysicalRecord r result = Some (RecordType_to_Z t, ptr, r') /\
    reader_at r' rest (pad_offset b + kHeaderSize + Zlength ptr) /\ same_config r r'.
Proof.
  intros Hpos Hb Ht Hc. pose proof (Zlength_nonneg ptr) as Hp. unfold ReadPhysicalRecord.
  assert (0 <= pad_offset b) as Hb0.
  { unfold pad_offset. case_match; [lia|]. destruct Hpos as [Hat|(-> & _)]; [apply (at_range _ _ _ Hat)|lia]. }
  assert (checksum_ r = true -> (cs_Value (backing_store_ r + pad_offset b + 6) (Zb (RecordType_to_Z t) :: ptr) =?
    Unmask (DecodeFixed32 (record_header t (Zlength ptr) (record_crc t_addr addr t ptr) ++ ptr ++ rest))) = true) as Hcrc.
  { intros E. by apply Hc, verifies_fragment in E as [? _]. }
  set (body := record_header _ _ _ ++ ptr ++ rest) in *.
  assert (forall r2 fuel, reader_at r2 body (pad_offset b) -> same_config r r2 ->
    exists r', ReadPhysicalRecord_loop (S fuel) r2 result = Some (RecordType_to_Z t, ptr, r') /\
      reader_at r' rest (pad_offset b + kHeaderSize + Zlength ptr) /\ same_config r r') as Hparse.
  { intros r2 fuel Hat (Hrep & Hchk & Hst).
    destruct (ParsePhysicalRecord_ok r2 t_addr addr t ptr rest (pad_offset b) result Hat) as (r' & E & Hat' & Hs); try done.
    { by rewrite Hchk, Hst. }
    exists r'. split_and!; [|done|by eapply same_config_trans]. cbn [ReadPhysicalRecord_loop].
    destruct (Z.ltb_spec (Zlength (buffer_ r2)) kHeaderSize) as [Hlt|_]; [|by rewrite E].
    rewrite (at_buffer _ _ _ Hat) in Hlt. subst body.
    pose proof (record_header_length t (Zlength ptr) (record_crc t_addr addr t ptr)) as Hh.
    unfold Zlength in Hlt, Hh. rewrite length_take, length_app in Hlt.
    unfold kBlockSize, kHeaderSize in *. lia. }
  assert (forall r2, needs_refill r2 body -> same_config r r2 -> pad_offset b = 0 ->
    exists r', ReadPhysicalRecord_loop 2 r2 result = Some (RecordType_to_Z t, ptr, r') /\
      reader_at r' rest (pad_offset b + kHeaderSize + Zlength ptr) /\ same_config r r') as Hre.
  { intros r2 Hn Hs E0. destruct (refill_ok r2 body 1 result Hn) as (r3 & -> & Hat3 & Hs3).
    apply Hparse; [by rewrite E0|by eapply same_config_trans]. }
  destruct Hpos as [Hat|(-> & _ & Hn)].
  - pose proof (at_range _ _ _ Hat) as Hr.
    destruct (decide (kBlockSize - b < kHeaderSize)) as [Hl|Hl].
    + apply Hre; [|done|unfold pad_offset; by rewrite (proj2 (Z.ltb_lt _ _) Hl)].
      apply (reader_at_trailer r (pad_bytes b) body b); [done|done|by apply pad_bytes_length].
    + assert (pad_offset b = b) as E by (unfold pad_offset; by rewrite (proj2 (Z.ltb_ge _ _)) by lia).
      assert (pad_bytes b = []) as Ep by (unfold pad_bytes; by rewrite (proj2 (Z.ltb_ge _ _)) by lia).
      rewrite Ep in Hat. cbn [app] in Hat. rewrite <- E in Hat. by apply Hparse.
  - by apply Hre.
Qed.

(** What the reader returns for the rest of a record when [scratch] was read. *)
Lemma record_roundtrip t_addr tc fuel : fresh_type_crc t_addr tc ->
  forall d b addr ptr begin,
  0 <= b <= kBlockSize ->
  (length ptr + (if (kBlockSize - b =? kHeaderSize)%Z then 2 else 1) <= fuel)%nat ->
  exists out b', AddRecord_loop fuel (MkWriter (MkWritableFile d []) b tc) addr ptr begin =
      Some (Status_OK, MkWriter (MkWritableFile (d ++ out) []) b' tc) /\
    0 <= b' <= kBlockSize /\
    (ChecksumLaws C -> forall store rest, verifies store b' rest -> verifies store b (out ++ rest)) /\
    forall r rest fuel' fragment prospective scratch,
      reader_pos r (out ++ rest) b -> (length out <= fuel')%nat -> checks r (out ++ rest) b -> 0 <= prospective ->
      (begin = true -> scratch = []) ->
      exists scratch' r', ReadRecord_loop fuel' r fragment (negb begin) prospective scratch =
          Some (true, scratch ++ ptr, scratch', r') /\
        reader_at r' rest b' /\ same_config r r' /\ checks r' rest b'.
Proof.
  intros Htc. induction fuel as [|fuel IH]; intros d b addr ptr begin Hb Hf.
  { destruct (kBlockSize - b =? kHeaderSize); lia. }
  cbn [AddRecord_loop]. rewrite (AddRecord_fragment_ok t_addr) by done.
  set (b0 := pad_offset b). set (n := Z.min _ _). set (frag := take (Z.to_nat n) ptr).
  set (t := fragment_type _ _). set (hdr := record_header _ _ _).
  assert (0 <= b0 <= kBlockSize - kHeaderSize) as Hb0.
  { subst b0. unfold pad_offset, kBlockSize, kHeaderSize in *.
    destruct (Z.ltb_spec (32768 - b) (4 + 1 + 2)); lia. }
  pose proof (Zlength_nonneg ptr) as Hp. assert (0 <= n <= Zlength ptr) as Hn by lia.
  assert (Zlength frag = n) as Hfn.
  { subst frag. unfold Zlength in *. rewrite length_take. lia. }
  assert (t <> kZeroType) as Ht.
  { subst t. unfold fragment_type. by destruct begin, (Zlength ptr =? n). }
  assert (7 <= length (pad_bytes b ++ hdr ++ frag))%nat as Hout.
  { rewrite !length_app. pose proof (record_header_length t (Zlength frag) (record_crc t_addr addr t frag)) as Hh.
    fold hdr in Hh. unfold Zlength, kHeaderSize in Hh. lia. }
  assert (forall store rest, verifies store b ((pad_bytes b ++ hdr ++ frag) ++ rest) <->
    (cs_Value (store + b0 + 6) (Zb (RecordType_to_Z t) :: frag) =? Unmask (DecodeFixed32 (hdr ++ frag ++ rest))) = true /\
    verifies store (b0 + kHeaderSize + Zlength frag) rest) as Hver.
  { intros store rest. rewrite <- !app_assoc. apply verifies_fragment; fold b0; lia. }
  assert (forall store rest, ChecksumLaws C -> verifies store (b0 + kHeaderSize + Zlength frag) rest ->
    verifies store b ((pad_bytes b ++ hdr ++ frag) ++ rest)) as Hlaw.
  { intros store rest L Hv. apply Hver. split; [|done]. by apply record_crc_checks. }
  assert (forall r rest result, reader_pos r ((pad_bytes b ++ hdr ++ frag) ++ rest) b -> checks r ((pad_bytes b ++ hdr ++ frag) ++ rest) b ->
    exists r', ReadPhysicalRecord r result = Some (RecordType_to_Z t, frag, r') /\
      reader_at r' rest (b0 + kHeaderSize + Zlength frag) /\ same_config r r' /\ checks r' rest (b0 + kHeaderSize + Zlength frag)) as Hread.
  { intros r rest result Hpos Hc. pose proof Hc as Hc1. rewrite <- !app_assoc in Hpos, Hc1.
    destruct (ReadPhysicalRecord_ok r t_addr addr t frag rest b result Hpos) as (r' & ? & ? & Hs); [fold b0; lia|done|done|].
    exists r'. split_and!; [done..|]. destruct Hs as (_ & Hk & Hst). unfold checks in *. rewrite Hk, Hst. intros E. by apply Hc, Hver in E as [_ ?]. }
  change (ok Status_OK) with true. cbn [andb].
  destruct (Z.gtb_spec (Zlength (drop (Z.to_nat n) ptr)) 0) as [Hgt|Hle].
  - (* more fragments follow: this block is full *)
    assert (n < Zlength ptr) as Hlt by (unfold Zlength in *; rewrite length_drop in Hgt; lia).
    assert (n = kBlockSize - b0 - kHeaderSize) as En by lia.
    assert ((Zlength ptr =? n) = false) as Ene by (apply Z.eqb_neq; lia).
    assert (b0 + kHeaderSize + Zlength frag = kBlockSize) as Efull by lia. rewrite Efull in *.
    edestruct (IH (d ++ pad_bytes b ++ hdr ++ frag) kBlockSize (addr + n) (drop (Z.to_nat n) ptr) false)
      as (out & b' & -> & Hb' & Hlw & Hrd); [unfold kBlockSize; lia| |].
    { rewrite length_drop. change (kBlockSize - kBlockSize =? kHeaderSize) with false. cbn [negb].
      unfold Zlength in *. destruct (Z.eqb_spec (kBlockSize - b) kHeaderSize) as [Eb|Eb]; [lia|].
      assert (0 < n); [|lia]. subst b0 n. unfold pad_offset, kBlockSize, kHeaderSize in *.
      destruct (Z.ltb_spec (32768 - b) (4 + 1 + 2)); lia. }
    exists ((pad_bytes b ++ hdr ++ frag) ++ out), b'. split_and!; [by rewrite <- !app_assoc|lia|lia| |].
    { intros L store rest Hv. rewrite <- (app_assoc _ out rest). by apply Hlaw, Hlw. }
    intros r rest fuel' fragment prospective scratch Hpos Hfu Hc Hpr Hs.
    rewrite <- (app_assoc _ out rest) in Hpos, Hc.
    destruct (Hread r (out ++ rest) fragment Hpos Hc) as (r' & E & Hat & Hsame & Hc').
    rewrite length_app in Hfu. destruct fuel' as [|fuel']; [lia|].
    cbn [ReadRecord_loop]. rewrite E.
    assert (0 <= u64 (end_of_buffer_offset_ r - Zlength (buffer_ r))) as Hu by apply u64_range.
    destruct begin.
    + assert (t = kFirstType) as -> by (subst t; by rewrite Ene).
      rewrite (Hs eq_refl). cbn [negb ReadRecord_case RecordType_to_Z Z.eqb Pos.eqb andb].
      destruct (Hrd r' rest fuel' frag (u64 (end_of_buffer_offset_ r - Zlength (buffer_ r))) frag)
        as (sc & r'' & E2 & Hat2 & Hs2 & Hc2); [by left|lia|exact Hc'|exact Hu|discriminate|].
      cbn [negb] in E2. unfold ReadRecord_case. cbn [RecordType_to_Z Z.eqb Pos.eqb andb]. rewrite E2.
      exists sc, r''. split_and!; [|done|by eapply same_config_trans|done].
      subst frag. by rewrite take_drop.
    + assert (t = kMiddleType) as -> by (subst t; by rewrite Ene).
      unfold ReadRecord_case. cbn [RecordType_to_Z Z.eqb Pos.eqb andb negb].
      destruct (Hrd r' rest fuel' frag prospective (scratch ++ frag))
        as (sc & r'' & E2 & Hat2 & Hs2 & Hc2); [by left|lia|exact Hc'|exact Hpr|discriminate|].
      cbn [negb] in E2. rewrite E2. exists sc, r''. split_and!; [|done|by eapply same_config_trans|done].
      subst frag. by rewrite <- app_assoc, take_drop.
  - (* the last fragment *)
    assert (n = Zlength ptr) as En by (unfold Zlength in *; rewrite length_drop in Hle; lia).
    assert (frag = ptr) as Efr by (subst frag; rewrite En, to_nat_Zlength; by apply take_ge).
    assert ((Zlength ptr =? n) = true) as Ene by (apply Z.eqb_eq; lia).
    eexists (pad_bytes b ++ hdr ++ frag), _. split; [reflexivity|].
    split; [unfold kHeaderSize in *; lia|]. split; [by intros L store rest; apply Hlaw|].
    intros r rest fuel' fragment prospective scratch Hpos Hfu Hc Hpr Hs.
    destruct (Hread r rest fragment Hpos Hc) as (r' & E & Hat & Hsame & Hc').
    destruct fuel' as [|fuel']; [lia|]. cbn [ReadRecord_loop]. rewrite E. rewrite Efr in *.
    assert (0 <= u64 (end_of_buffer_offset_ r - Zlength (buffer_ r))) as Hu by apply u64_range.
    assert (forall o, 0 <= o -> reader_at (with_last_record r' o) rest (b0 + kHeaderSize + Zlength ptr))
      as Hlast by (intros o Ho; destruct Hat; by constructor).
    destruct begin.
    + assert (t = kFullType) as -> by (subst t; by rewrite Ene).
      rewrite (Hs eq_refl). unfold ReadRecord_case. cbn [RecordType_to_Z Z.eqb Pos.eqb andb negb].
      eexists _, _. split_and!; [reflexivity|by apply Hlast|done|done].
    + assert (t = kLastType) as -> by (subst t; by rewrite Ene).
      unfold ReadRecord_case. cbn [RecordType_to_Z Z.eqb Pos.eqb andb negb].
      eexists _, _. split_and!; [reflexivity|by apply Hlast|done|done].
Qed.

(** At the end of the file the reader stops without a report. *)
Lemma ReadRecord_loop_eof fuel r b fragment prospective scratch :
  reader_pos r [] b -> (1 <= fuel)%nat ->
  exists scratch' r', ReadRecord_loop fuel r fragment false prospective scratch =
      Some (false, [], scratch', r') /\ same_config r r'.
Proof.
  intros Hpos Hf. destruct fuel as [|fuel]; [lia|]. cbn [ReadRecord_loop].
  assert (forall r2 n, buffer_ r2 = [] -> eof_ r2 = true ->
    ReadPhysicalRecord_loop (S n) r2 fragment = Some (kEof, fragment, r2)) as Hend.
  { intros r2 n Eb Ee. cbn [ReadPhysicalRecord_loop]. by rewrite Eb, Ee. }
  assert (forall r2, reader_at r2 [] 0 -> buffer_ r2 = [] /\ eof_ r2 = true) as Hat0.
  { intros r2 H. rewrite (at_buffer _ _ _ H), (at_eof _ _ _ H), take_nil. done. }
  assert (exists r', ReadPhysicalRecord r fragment = Some (kEof, fragment, r') /\ same_config r r')
    as (r' & -> & Hs).
  { unfold ReadPhysicalRecord. assert (eof_ r = true /\ buffer_ r = [] \/ needs_refill r []) as [[He Hb]|Hn].
    - destruct Hpos as [Hat|(_ & _ & Hn)]; [|by right]. pose proof (at_range _ _ _ Hat).
      destruct (decide (b = kBlockSize)) as [->|].
      + right. apply (reader_at_trailer r [] [] kBlockSize); [done|unfold kHeaderSize; lia|done].
      + left. rewrite (at_buffer _ _ _ Hat), (at_eof _ _ _ Hat), take_nil. split; [|done].
        apply Z.ltb_lt. rewrite Zlength_nil. lia.
    - exists r. split; [by apply Hend|done].
    - destruct (refill_ok r [] 1 fragment Hn) as (r2 & -> & Hat & Hs). exists r2. split; [|done].
      destruct (Hat0 r2 Hat). by apply Hend. }
  unfold ReadRecord_case. cbn. eauto.
Qed.

(** ** Whole logs *)

(** [AddRecord] for each of [recs], stopping at the first failure. *)
Fixpoint write_log {F} `{!FileOps F} (w : Writer F) (recs : list (Z * bytes)) : option (Status * Writer F) :=
  match recs with
  | [] => Some (Status_OK, w)
  | (addr, rec) :: recs =>
      match AddRecord w addr rec with
      | Some (s, w) => if ok s then write_log w recs else Some (s, w)
      | None => None
      end
  end.

(** The loop of a client such as [DBImpl::RecoverLogFile]: [ReadRecord] until it
    returns false, at most [n] records. *)
Fixpoint read_log (n : nat) (r : Reader) : option (list bytes * Reader) :=
  match ReadRecord r [] [] with
  | Some (true, rec, _, r) =>
      match n with
      | O => None
      | S n => match read_log n r with
               | Some (recs, r) => Some (rec :: recs, r)
               | None => None
               end
      end
  | Some (false, _, _, r) => Some ([], r)
  | None => None
  end.

Lemma ReadRecord_at r record scratch :
  initial_offset_ r = 0 -> 0 <= last_record_offset_ r ->
  ReadRecord r record scratch =
  ReadRecord_loop (length (buffer_ r) + length (sf_data (file_ r)) + 1) r [] false 0 [].
Proof.
  intros Hi Hl. unfold ReadRecord. rewrite Hi. by rewrite (proj2 (Z.ltb_ge _ _) Hl).
Qed.

Lemma reader_pos_facts r rem b :
  reader_pos r rem b ->
  initial_offset_ r = 0 /\ 0 <= last_record_offset_ r /\
  (length (buffer_ r) + length (sf_data (file_ r)) = length rem)%nat.
Proof.
  intros [Hat|(_ & Hb & (_ & _ & Hf & Hi & Hl))].
  - split; [apply (at_initial _ _ _ Hat)|]. split; [apply (at_last _ _ _ Hat)|].
    by apply (reader_at_length _ _ b).
  - rewrite Hb, Hf. done.
Qed.

(** The reader returns exactly [recs], one a call, and makes no report. *)
Fixpoint reads (r : Reader) (recs : list bytes) : Prop :=
  forall record scratch, exists scratch' r',
    match recs with
    | [] => exists record', ReadRecord r record scratch = Some (false, record', scratch', r') /\ reports r' = reports r
    | rec :: recs =>
        ReadRecord r record scratch = Some (true, rec, scratch', r') /\ reports r' = reports r /\ reads r' recs
    end.

Lemma write_log_reads t_addr tc recs : fresh_type_crc t_addr tc ->
  forall d b, 0 <= b <= kBlockSize ->
  exists out b', write_log (MkWriter (MkWritableFile d []) b tc) recs =
      Some (Status_OK, MkWriter (MkWritableFile (d ++ out) []) b' tc) /\
    0 <= b' <= kBlockSize /\
    (ChecksumLaws C -> forall store, verifies store b out) /\
    forall r, reader_pos r out b -> checks r out b -> reads r (map snd recs).
Proof.
  intros Htc. induction recs as [|[addr rec] recs IH]; intros d b Hb.
  - exists [], b. rewrite app_nil_r. split_and!; [done|lia|lia|by intros _ store; apply (verifies_from_all 0)|]. intros r Hpos _ record scratch.
    destruct (reader_pos_facts r [] b Hpos) as (Hi & Hl & Hlen). rewrite (ReadRecord_at r) by done.
    edestruct (ReadRecord_loop_eof (length (buffer_ r) + length (sf_data (file_ r)) + 1) r b [] 0 [] Hpos)
      as (sc & r' & -> & [Hs _]); [lia|]. by exists sc, r', [].
  - destruct (record_roundtrip t_addr tc (length rec + 2) Htc d b addr rec true Hb)
      as (out1 & b1 & E1 & Hb1 & Hlaw1 & Hread); [destruct (_ =? _); lia|].
    destruct (IH (d ++ out1) b1 Hb1) as (out2 & b2 & E2 & Hb2 & Hlaw2 & Hread2).
    exists (out1 ++ out2), b2. cbn [write_log]. unfold AddRecord. rewrite E1. change (ok Status_OK) with true.
    cbn iota. rewrite E2, app_assoc. split_and!; [done|lia|lia|by intros L store; apply Hlaw1, Hlaw2|]. intros r Hpos Hc record scratch.
    destruct (reader_pos_facts r _ b Hpos) as (Hi & Hl & Hlen). rewrite (ReadRecord_at r) by done.
    rewrite Hlen. destruct (Hread r out2 (length (out1 ++ out2) + 1)%nat [] 0 []) as (sc & r1 & E & Hat & [Hs1 _] & Hc1);
      [done|rewrite length_app; lia|done|lia|done|].
    cbn [negb app] in E. rewrite E. exists sc, r1. split_and!; [done|done|].
    apply Hread2; [by left|done].
Qed.

Lemma reads_read_log recs : forall r n, reads r recs -> (length recs <= n)%nat ->
  exists r', read_log n r = Some (recs, r') /\ reports r' = reports r.
Proof.
  induction recs as [|rec recs IH]; intros r n Hr Hn; destruct (Hr [] []) as (sc & r' & H).
  - destruct H as (rc & E & Hrep). exists r'. by destruct n; cbn [read_log]; rewrite E.
  - destruct H as (E & Hrep & Hr'). destruct n as [|n]; [cbn in Hn; lia|]. cbn [read_log]. rewrite E.
    destruct (IH r' n Hr') as (r'' & -> & Hrep'); [cbn in Hn; lia|]. exists r''. split; [done|congruence].
Qed.

(** [recs] written to a new log give [out] and leave the writer at [b]. *)
Definition written (t_addr : Z) (recs : list (Z * bytes)) (out : bytes) (b : Z) : Prop :=
  write_log (Writer_new t_addr (MkWritableFile [] [])) recs =
    Some (Status_OK, MkWriter (MkWritableFile out []) b (type_crc_ (Writer_new t_addr (MkWritableFile [] [])))).

Lemma written_reads t_addr recs : exists out b, written t_addr recs out b /\
  (ChecksumLaws C -> forall store, log_verifies store out = true) /\
  forall store lro eob has_rep checksum, (checksum = true -> log_verifies store out = true) -> is_u64 lro ->
    reads (Reader_new (MkSequentialFile out []) has_rep checksum store 0 lro eob) (map snd recs).
Proof.
  destruct (write_log_reads t_addr _ recs (Writer_new_type_crc t_addr (MkWritableFile [] [])) [] 0)
    as (out & b & E & Hb & Hlaw & Hread); [unfold kBlockSize; lia|].
  exists out, b. split; [exact E|]. split; [intros L store; by apply Hlaw|].
  intros store lro eob has_rep checksum HC Hlro. apply Hread; [|intros Hk; by apply log_verifies_all, HC].
  right. split_and!; try done. destruct Hlro. by split_and!.
Qed.

(** What is written verifies under a lawful checksum, and reads back when it does. *)
Lemma written_verifies t_addr recs out b store : written t_addr recs out b -> ChecksumLaws C -> log_verifies store out = true.
Proof.
  intros Hw L. destruct (written_reads t_addr recs) as (out' & b' & Hw' & Hv & _). unfold written in Hw, Hw'. rewrite Hw in Hw'. injection Hw' as <- <-. auto.
Qed.

Lemma written_out_reads t_addr recs out b store lro eob has_rep : written t_addr recs out b -> log_verifies store out = true -> is_u64 lro ->
  reads (Reader_new (MkSequentialFile out []) has_rep true store 0 lro eob) (map snd recs).
Proof.
  intros Hw Hv. destruct (written_reads t_addr recs) as (out' & b' & Hw' & _ & Hr). unfold written in Hw, Hw'. rewrite Hw in Hw'. injection Hw' as <- <-. auto.
Qed.

Lemma write_log_app {F} `{!FileOps F} (w : Writer F) recs recs' :
  write_log w (recs ++ recs') =
  '(s, w) ← write_log w recs; if ok s then write_log w recs' else Some (s, w).
Proof.
  revert w. induction recs as [|[addr rec] recs IH]; intros w; cbn [app write_log]; [done|].
  destruct (AddRecord w addr rec) as [[s w']|]; [|done]. destruct (ok s) eqn:E; [apply IH|].
  cbn. by rewrite E.
Qed.

(** ** Any file that appends

    [holds f d]: the file holds [d] and the coming calls succeed.  A writer on
    such a file writes what it would write in memory. *)

Section Files.
Context {F : Type} `{!FileOps F} (holds : F -> bytes -> Prop).

Class FileLaws : Prop := {
  append_holds : forall f d x, holds f d -> exists f', Append f x = (Status_OK, f') /\ holds f' (d ++ x);
  flush_holds : forall f d, holds f d -> exists f', Flush f = (Status_OK, f') /\ holds f' d
}.

Context `{!FileLaws}.

Definition same_writer (w : Writer F) (m : Writer WritableFile) : Prop :=
  exists d, dest_ m = MkWritableFile d [] /\ holds (dest_ w) d /\
    block_offset_ w = block_offset_ m /\ type_crc_ w = type_crc_ m.

Lemma EmitPhysicalRecord_same w m t addr ptr : same_writer w m ->
  exists w' m', EmitPhysicalRecord w t addr ptr = (Status_OK, w') /\
    EmitPhysicalRecord m t addr ptr = (Status_OK, m') /\ same_writer w' m'.
Proof.
  destruct w as [f b tc], m as [mf mb mtc]. intros (d & Hm & Hd & Hb & Htc). cbn in Hm, Hd, Hb, Htc. subst mf b tc.
  unfold EmitPhysicalRecord. cbn [dest_ block_offset_ type_crc_]. set (hdr := record_header _ _ _).
  destruct (append_holds f d hdr Hd) as (f1 & -> & H1). change (ok Status_OK) with true. cbn iota.
  destruct (append_holds f1 _ ptr H1) as (f2 & -> & H2). cbn iota.
  destruct (flush_holds f2 _ H2) as (f3 & -> & H3). eexists _, _. split_and!; [reflexivity..|].
  exists ((d ++ hdr) ++ ptr). by split_and!.
Qed.

Lemma AddRecord_fragment_same w m addr ptr begin : same_writer w m ->
  exists w' m' n, AddRecord_fragment w addr ptr begin = (Status_OK, w', n) /\
    AddRecord_fragment m addr ptr begin = (Status_OK, m', n) /\ same_writer w' m'.
Proof.
  destruct w as [f b tc], m as [mf mb mtc]. intros (d & Hm & Hd & Hb & Htc). cbn in Hm, Hd, Hb, Htc. subst mf b tc.
  unfold AddRecord_fragment. cbn [dest_ block_offset_ type_crc_].
  set (w0 := if kBlockSize - mb <? kHeaderSize then _ else _).
  set (m0 := if kBlockSize - mb <? kHeaderSize then _ else _).
  assert (same_writer w0 m0) as Hs.
  { subst w0 m0. destruct (kBlockSize - mb <? kHeaderSize); [|by exists d].
    destruct (kBlockSize - mb >? 0); [|by exists d].
    destruct (append_holds f d (take (Z.to_nat (kBlockSize - mb)) (replicate 6 "000"%byte)) Hd) as (f1 & -> & H1).
    by eexists (d ++ _). }
  assert (block_offset_ w0 = block_offset_ m0) as -> by (by destruct Hs as (? & _ & _ & ? & _)).
  edestruct (EmitPhysicalRecord_same w0 m0) as (w' & m' & -> & -> & Hs1); [done|]. by eexists _, _, _.
Qed.

Lemma AddRecord_same fuel w m addr ptr begin m' : same_writer w m ->
  AddRecord_loop fuel m addr ptr begin = Some (Status_OK, m') ->
  exists w', AddRecord_loop fuel w addr ptr begin = Some (Status_OK, w') /\ same_writer w' m'.
Proof.
  revert w m addr ptr begin. induction fuel as [|fuel IH]; intros w m addr ptr begin Hs; [done|].
  cbn [AddRecord_loop]. destruct (AddRecord_fragment_same w m addr ptr begin Hs) as (w1 & m1 & n & -> & -> & H1).
  destruct (ok Status_OK && (Zlength (drop (Z.to_nat n) ptr) >? 0)); [by apply IH|].
  intros [= <-]. eauto.
Qed.

(** A log of [recs] on such a file, one more record. *)
Lemma AddRecord_written t_addr recs out b addr rec f :
  written t_addr recs out b -> holds f out ->
  exists out' b' f', written t_addr (recs ++ [(addr, rec)]) out' b' /\
    AddRecord (MkWriter f b (type_crc_ (Writer_new t_addr f))) addr rec =
      Some (Status_OK, MkWriter f' b' (type_crc_ (Writer_new t_addr f'))) /\ holds f' out'.
Proof.
  intros Hw Hf. destruct (written_reads t_addr (recs ++ [(addr, rec)])) as (out' & b' & Hw' & _).
  exists out', b'. pose proof Hw' as Hdone. unfold written in Hw'. rewrite write_log_app, Hw in Hw'.
  cbn [mbind option_bind] in Hw'. change (ok Status_OK) with true in Hw'. cbn [write_log] in Hw'.
  destruct (AddRecord _ addr rec) as [[s m']|] eqn:E; [|done].
  assert (s = Status_OK /\ m' = MkWriter (MkWritableFile out' []) b' (type_crc_ (Writer_new t_addr (MkWritableFile [] []))))
    as [-> ->] by (destruct (ok s) eqn:Eo; [apply ok_is_OK in Eo|]; by simplify_eq/=).
  assert (same_writer (MkWriter f b (type_crc_ (Writer_new t_addr f)))
    (MkWriter (MkWritableFile out []) b (type_crc_ (Writer_new t_addr (MkWritableFile [] []))))) as Hs by (by exists out).
  destruct (AddRecord_same _ _ _ addr rec true _ Hs E)
    as ([f' b1 tc1] & E' & d & Hd & Hh & Hb & Htc). cbn in Hd, Hh, Hb, Htc. simplify_eq/=.
  exists f'. split_and!; [done|exact E'|done].
Qed.

(** The same for a file whose operations may fail, as long as what they report is
    true: a record that was added with OK is in the file, if no trailer was due
    ([AddRecord] ignores the status of the [Append] of a trailer). *)
Class FileHonest : Prop := {
  append_honest : forall f d x, holds f d -> ok (Append f x).1 = true -> holds (Append f x).2 (d ++ x);
  flush_honest : forall f d, holds f d -> ok (Flush f).1 = true -> holds (Flush f).2 d
}.
End Files.

Section Honest.
Context {F : Type} `{!FileOps F} (holds : F -> bytes -> Prop) `{!FileHonest holds}.
Abbreviation same_writer := (same_writer holds).

Lemma EmitPhysicalRecord_honest w m t addr ptr w' : same_writer w m -> EmitPhysicalRecord w t addr ptr = (Status_OK, w') ->
  exists m', EmitPhysicalRecord m t addr ptr = (Status_OK, m') /\ same_writer w' m'.
Proof.
  destruct w as [f b tc], m as [mf mb mtc]. intros (d & Hm & Hd & Hb & Htc). cbn in Hm, Hd, Hb, Htc. subst mf b tc.
  unfold EmitPhysicalRecord. cbn [dest_ block_offset_ type_crc_]. set (hdr := record_header _ _ _).
  pose proof (append_honest holds f d hdr Hd) as H1. destruct (Append f hdr) as [s1 f1]. cbn [fst snd] in H1.
  destruct (ok s1) eqn:E1; [|intros [= -> _]; done]. specialize (H1 eq_refl).
  pose proof (append_honest holds f1 _ ptr H1) as H2. destruct (Append f1 ptr) as [s2 f2]. cbn [fst snd] in H2.
  destruct (ok s2) eqn:E2; [|intros [= -> _]; done]. specialize (H2 eq_refl).
  pose proof (flush_honest holds f2 _ H2) as H3. destruct (Flush f2) as [s3 f3]. cbn [fst snd] in H3.
  intros [= -> <-]. specialize (H3 eq_refl). eexists. split; [reflexivity|]. by exists ((d ++ hdr) ++ ptr).
Qed.

Lemma AddRecord_fragment_honest w m addr ptr begin w' n : same_writer w m -> 0 <= block_offset_ w <= kBlockSize -> pad_bytes (block_offset_ w) = [] ->
  AddRecord_fragment w addr ptr begin = (Status_OK, w', n) ->
  exists m', AddRecord_fragment m addr ptr begin = (Status_OK, m', n) /\ same_writer w' m' /\ 0 <= n <= Zlength ptr /\
    (n = Zlength ptr \/ block_offset_ w' = kBlockSize).
Proof.
  destruct w as [f b tc], m as [mf mb mtc]. intros (d & Hm & Hd & Hb & Htc) Hr Hp. cbn in Hm, Hd, Hb, Htc, Hr, Hp. subst mf b tc.
  unfold AddRecord_fragment. cbn [dest_ block_offset_ type_crc_].
  set (w0 := if kBlockSize - mb <? kHeaderSize then _ else _). set (m0 := if kBlockSize - mb <? kHeaderSize then _ else _).
  assert (same_writer w0 m0 /\ block_offset_ w0 = pad_offset mb /\ block_offset_ m0 = pad_offset mb) as (Hs & Ew & Em).
  { subst w0 m0. unfold pad_offset, pad_bytes in *. destruct (Z.ltb_spec (kBlockSize - mb) kHeaderSize); [|split; [by exists d|done]].
    destruct (Z.gtb_spec (kBlockSize - mb) 0); [|split; [by exists d|done]].
    apply (f_equal length) in Hp. rewrite length_take, length_replicate in Hp. cbn [length] in Hp. unfold kHeaderSize in *. lia. }
  clearbody w0 m0. rewrite Ew, Em. set (n' := if _ <? _ then _ else _).
  assert (0 <= pad_offset mb /\ pad_offset mb + kHeaderSize <= kBlockSize) as Ho by (unfold pad_offset, kBlockSize, kHeaderSize in *; case_match; lia).
  pose proof (Zlength_nonneg ptr). assert (n' = Z.min (Zlength ptr) (kBlockSize - pad_offset mb - kHeaderSize)) as En
    by (subst n'; destruct (Z.ltb_spec (Zlength ptr) (kBlockSize - pad_offset mb - kHeaderSize)); lia).
  clearbody n'. destruct (EmitPhysicalRecord w0 _ _ _) as [s1 w1] eqn:E. intros [= -> <- <-].
  destruct (EmitPhysicalRecord_honest _ _ _ _ _ _ Hs E) as (m' & -> & Hs').
  exists m'. split; [done|]. split; [done|]. split; [lia|]. destruct (decide (n' = Zlength ptr)); [by left|right].
  assert (block_offset_ w1 = block_offset_ w0 + kHeaderSize + Zlength (take (Z.to_nat n') ptr)) as ->.
  { clear -E. unfold EmitPhysicalRecord in E. by repeat case_match; simplify_eq/=. }
  rewrite Ew. unfold Zlength in *. rewrite length_take. lia.
Qed.

Lemma AddRecord_honest fuel w m addr ptr begin w' : same_writer w m -> 0 <= block_offset_ w <= kBlockSize -> pad_bytes (block_offset_ w) = [] ->
  AddRecord_loop fuel w addr ptr begin = Some (Status_OK, w') ->
  exists m', AddRecord_loop fuel m addr ptr begin = Some (Status_OK, m') /\ same_writer w' m'.
Proof.
  revert w m addr ptr begin. induction fuel as [|fuel IH]; intros w m addr ptr begin Hs Hr Hp; [done|]. cbn [AddRecord_loop].
  destruct (AddRecord_fragment w addr ptr begin) as [[s1 w1] n] eqn:E. destruct (ok s1) eqn:Es.
  - apply ok_is_OK in Es as ->. destruct (AddRecord_fragment_honest w m addr ptr begin w1 n Hs Hr Hp E) as (m1 & -> & H1 & Hn & Hb).
    change (ok Status_OK) with true. cbn [andb]. destruct (Z.gtb_spec (Zlength (drop (Z.to_nat n) ptr)) 0) as [Hg|].
    + unfold Zlength in *. rewrite length_drop in Hg. destruct Hb as [->|Hb]; [lia|]. apply IH; [done|rewrite Hb; unfold kBlockSize; lia|by rewrite Hb].
    + intros [= <-]. eauto.
  - cbn [andb]. intros [= -> _]. done.
Qed.

(** A log of [recs], one more record that was added with OK. *)
Lemma AddRecord_written_honest t_addr recs out b addr rec f w' :
  written t_addr recs out b -> holds f out -> 0 <= b <= kBlockSize -> pad_bytes b = [] ->
  AddRecord (MkWriter f b (type_crc_ (Writer_new t_addr f))) addr rec = Some (Status_OK, w') ->
  exists out' b', written t_addr (recs ++ [(addr, rec)]) out' b' /\ holds (dest_ w') out' /\
    block_offset_ w' = b' /\ type_crc_ w' = type_crc_ (Writer_new t_addr f).
Proof.
  intros Hw Hf Hb Hp E. pose proof Hw as Hw1. unfold written in Hw1.
  assert (same_writer (MkWriter f b (type_crc_ (Writer_new t_addr f)))
    (MkWriter (MkWritableFile out []) b (type_crc_ (Writer_new t_addr (MkWritableFile [] []))))) as Hs by (by exists out).
  destruct (AddRecord_honest _ _ _ addr rec true w' Hs Hb Hp E) as (m' & Em & d & Hd & Hh & Hbo & Htc).
  destruct (written_reads t_addr (recs ++ [(addr, rec)])) as (out' & b' & Hw' & _). pose proof Hw' as Hdone. unfold written in Hw'.
  rewrite write_log_app, Hw1 in Hw'. cbn [mbind option_bind] in Hw'. change (ok Status_OK) with true in Hw'. cbn [write_log] in Hw'.
  unfold AddRecord in Hw'. rewrite Em in Hw'. change (ok Status_OK) with true in Hw'. cbn iota in Hw'. injection Hw' as ->.
  cbn [dest_ block_offset_ type_crc_] in *. injection Hd as <-. exists out', b'. by split_and!.
Qed.
End Honest.

(** ** Totality *)

(** Whatever the file does, [AddRecord] returns. *)
Lemma AddRecord_loop_returns {F} `{!FileOps F} fuel (w : Writer F) addr ptr begin :
  0 <= block_offset_ w <= kBlockSize ->
  (length ptr + (if (kBlockSize - block_offset_ w =? kHeaderSize)%Z then 2 else 1) <= fuel)%nat ->
  exists s w', AddRecord_loop fuel w addr ptr begin = Some (s, w') /\ 0 <= block_offset_ w' <= kBlockSize.
Proof.
  revert w addr ptr begin. induction fuel as [|fuel IH]; intros w addr ptr begin Hb Hf.
  { destruct (kBlockSize - block_offset_ w =? kHeaderSize); lia. }
  cbn [AddRecord_loop]. destruct (AddRecord_fragment w addr ptr begin) as [[s w1] n] eqn:E.
  assert (block_offset_ w1 = pad_offset (block_offset_ w) + kHeaderSize + n /\
    n = Z.min (Zlength ptr) (kBlockSize - pad_offset (block_offset_ w) - kHeaderSize) /\ 0 <= n) as (Hb1 & Hn & Hn0).
  { unfold AddRecord_fragment, pad_offset in *. pose proof (Zlength_nonneg ptr).
    destruct (Z.ltb_spec (kBlockSize - block_offset_ w) kHeaderSize);
      cbn [block_offset_] in E; unfold EmitPhysicalRecord in E; repeat case_match; simplify_eq/=;
      unfold Zlength in *; rewrite length_take; unfold kBlockSize, kHeaderSize in *; lia. }
  assert (0 <= pad_offset (block_offset_ w) /\ pad_offset (block_offset_ w) + kHeaderSize <= kBlockSize) as Hp.
  { unfold pad_offset, kBlockSize, kHeaderSize in *. case_match; lia. }
  assert (0 <= block_offset_ w1 <= kBlockSize) as Hb1' by (unfold kHeaderSize in *; lia).
  destruct (ok s && (Zlength (drop (Z.to_nat n) ptr) >? 0)) eqn:Eg; [|eauto].
  apply andb_true_iff in Eg as [_ Hg]. apply Z.gtb_lt in Hg. apply IH; [done|].
  unfold Zlength in *. rewrite length_drop in *.
  assert (block_offset_ w1 = kBlockSize) as -> by lia.
  change (kBlockSize - kBlockSize =? kHeaderSize) with false. cbn iota.
  destruct (Z.eqb_spec (kBlockSize - block_offset_ w) kHeaderSize) as [Eb|Eb]; [lia|].
  assert (0 < n); [|lia]. unfold pad_offset, kBlockSize, kHeaderSize in *. case_match; lia.
Qed.

(** What the file's operations keep, the writer keeps. *)
Lemma AddRecord_keeps {F} `{!FileOps F} (P : F -> Prop) :
  (forall f x, P f -> P (Append f x).2) -> (forall f, P f -> P (Flush f).2) ->
  forall fuel (w : Writer F) addr ptr begin s w',
  P (dest_ w) -> AddRecord_loop fuel w addr ptr begin = Some (s, w') -> P (dest_ w').
Proof.
  intros Ha Hf. induction fuel as [|fuel IH]; intros w addr ptr begin s w' Hw E; [done|].
  cbn [AddRecord_loop] in E. destruct (AddRecord_fragment w addr ptr begin) as [[s1 w1] n] eqn:Ef.
  assert (P (dest_ w1)) as H1.
  { unfold AddRecord_fragment in Ef. set (w0 := if kBlockSize - _ <? kHeaderSize then _ else _) in Ef.
    assert (P (dest_ w0)) as H0 by (subst w0; repeat case_match; cbn [dest_]; auto).
    clearbody w0. unfold EmitPhysicalRecord in Ef.
    set (hdr := record_header _ _ _) in Ef. pose proof (Ha _ hdr H0) as K1. destruct (Append (dest_ w0) hdr) as [s2 f2].
    cbn [snd] in K1. destruct (ok s2); [|by injection Ef as <- <- <-].
    set (frag := take _ ptr) in Ef. pose proof (Ha _ frag K1) as K2. destruct (Append f2 frag) as [s3 f3]. cbn [snd] in K2.
    destruct (ok s3); [|by injection Ef as <- <- <-].
    pose proof (Hf _ K2) as K3. destruct (Flush f3) as [s4 f4]. by injection Ef as <- <- <-. }
  destruct (_ && _); [by eapply IH|by injection E as <- <-].
Qed.

(** What is left to read: the buffer and the file. *)
Definition unread (r : Reader) : nat := length (buffer_ r) + length (sf_data (file_ r)).

Lemma ReportDrop_unread r n s : unread (ReportDrop r n s) = unread r.
Proof. unfold ReportDrop. by destruct (_ && _). Qed.

Lemma last_record_unread r o : unread (with_last_record r o) = unread r.
Proof. done. Qed.

Lemma ParsePhysicalRecord_consumes r result :
  kHeaderSize <= Zlength (buffer_ r) -> (unread (ParsePhysicalRecord r result).2 < unread r)%nat.
Proof.
  intros Hb. unfold ParsePhysicalRecord, ReportCorruption.
  pose proof (header_length_nonneg (buffer_ r)) as Hl.
  repeat case_match; cbn [snd]; rewrite ?ReportDrop_unread;
    unfold unread, clear_buffer, Slice.remove_prefix; cbn [with_buffer buffer_ file_];
    unfold Zlength, kHeaderSize in *; rewrite ?length_drop; cbn [length]; lia.
Qed.

Lemma SequentialFile_Read_length f n s buf f' :
  SequentialFile_Read f n = (s, buf, f') ->
  (length buf + length (sf_data f') = length (sf_data f))%nat.
Proof.
  unfold SequentialFile_Read. destruct (next_fault f) as [[s0 k] fl].
  injection 1 as <- <- <-. cbn [sf_data]. by rewrite <- length_app, take_drop.
Qed.

Lemma ReadPhysicalRecord_returns r result :
  exists t frag r', ReadPhysicalRecord r result = Some (t, frag, r') /\
    (t = kEof \/ (unread r' < unread r)%nat).
Proof.
  assert (forall n r2, eof_ r2 = true \/ kHeaderSize <= Zlength (buffer_ r2) ->
    exists t frag r', ReadPhysicalRecord_loop (S n) r2 result = Some (t, frag, r') /\
      (t = kEof \/ (unread r' < unread r2)%nat)) as Hone.
  { intros n r2 H. cbn [ReadPhysicalRecord_loop].
    destruct (Z.ltb_spec (Zlength (buffer_ r2)) kHeaderSize) as [Hlt|Hge].
    - destruct H as [-> |]; [|lia]. cbn [negb]. case_match; eauto 10.
    - pose proof (ParsePhysicalRecord_consumes r2 result Hge).
      destruct (ParsePhysicalRecord r2 result) as [[t frag] r']. eauto 10. }
  unfold ReadPhysicalRecord. cbn [ReadPhysicalRecord_loop].
  destruct (Z.ltb_spec (Zlength (buffer_ r)) kHeaderSize) as [Hlt|Hge].
  2: { destruct (Hone 0%nat r) as (t & frag & r' & E & H); [by right|]. cbn [ReadPhysicalRecord_loop] in E.
       rewrite (proj2 (Z.ltb_ge _ _) Hge) in E. rewrite E. eauto. }
  destruct (eof_ r) eqn:Ee; cbn [negb]; [case_match; eauto 10|].
  destruct (SequentialFile_Read (file_ r) kBlockSize) as [[s buffer] f] eqn:Er.
  destruct (ok s) eqn:Es; cbn [negb]; [|eauto 10].
  set (r1 := with_end_of_buffer _ _). set (r2 := if Zlength buffer <? kBlockSize then _ else _).
  assert (unread r2 <= unread r)%nat as Hle.
  { apply SequentialFile_Read_length in Er. subst r2 r1. unfold unread.
    case_match; cbn [with_eof with_end_of_buffer with_buffer with_file buffer_ file_ sf_data]; lia. }
  destruct (Hone 0%nat r2) as (t & frag & r' & E & H).
  { subst r2. destruct (Z.ltb_spec (Zlength buffer) kBlockSize); [by left|right].
    subst r1. cbn. unfold kBlockSize, kHeaderSize in *. lia. }
  cbn [ReadPhysicalRecord_loop] in E. rewrite E. exists t, frag, r'. split; [done|].
  destruct H; [by left|right; lia].
Qed.

Lemma ReadRecord_loop_returns fuel r fragment b p scratch :
  (unread r < fuel)%nat -> exists got record scratch' r',
    ReadRecord_loop fuel r fragment b p scratch = Some (got, record, scratch', r') /\
    (got = true -> (unread r' < unread r)%nat).
Proof.
  assert (forall t frag ph b p sc r1, match ReadRecord_case t frag ph b p sc r1 with
    | Returned got _ _ r2 => unread r2 = unread r1 /\ (got = true -> t <> kEof)
    | Continues _ _ _ r2 => unread r2 = unread r1 /\ t <> kEof end) as Hcase.
  { intros. unfold ReadRecord_case, ReportCorruption.
    repeat case_match; simplify_eq; (split; [by rewrite ?last_record_unread, ?ReportDrop_unread|]);
      repeat match goal with H : (_ =? _) = true |- _ => apply Z.eqb_eq in H | H : (_ =? _) = false |- _ => apply Z.eqb_neq in H end;
      intros; by subst. }
  revert r fragment b p scratch. induction fuel as [|fuel IH]; intros r fragment b p scratch Hf; [lia|].
  cbn [ReadRecord_loop].
  destruct (ReadPhysicalRecord_returns r fragment) as (t & frag & r1 & -> & Hr).
  match goal with |- context [ReadRecord_case t frag ?ph b p scratch r1] => pose proof (Hcase t frag ph b p scratch r1) as Hc end.
  destruct (ReadRecord_case _ _ _ _ _ _ _) as [got rec sc r2|b' p' sc r2].
  - destruct Hc as [Hu Hg]. exists got, rec, sc, r2. split; [done|]. intros Hgot. specialize (Hg Hgot).
    destruct Hr as [?|Hr]; [done|lia].
  - destruct Hc as [Hu Ht]. destruct Hr as [?|Hr]; [done|].
    destruct (IH r2 frag b' p' sc) as (got & rec & sc' & r' & -> & Hg); [lia|].
    exists got, rec, sc', r'. split; [done|]. intros Hgot. specialize (Hg Hgot). lia.
Qed.

(** [ReadRecord] returns, and a record it returns was read. *)
Lemma ReadRecord_returns r record scratch : exists got record' scratch' r',
  ReadRecord r record scratch = Some (got, record', scratch', r') /\ (got = true -> (unread r' < unread r)%nat).
Proof.
  unfold ReadRecord. destruct (if _ <? _ then _ else _) as [fine r1] eqn:E.
  assert (unread r1 <= unread r)%nat as Hu.
  { destruct (_ <? _); [|by injection E as <- <-]. unfold SkipToInitialBlock in E.
    destruct (_ >? 0); [|by injection E as <- <-].
    unfold SequentialFile_Skip in E. destruct (next_fault _) as [[s k] fl].
    destruct (ok s) eqn:Es; cbn iota in E; rewrite Es in E; injection E as <- <-; rewrite ?ReportDrop_unread; unfold unread; cbn;
      rewrite ?length_drop; lia. }
  destruct fine; cbn [negb]; [|by eexists _, _, _, _].
  destruct (ReadRecord_loop_returns (length (buffer_ r1) + length (sf_data (file_ r1)) + 1) r1 [] false 0 [])
    as (got & rec & sc & r' & -> & Hg); [unfold unread; lia|].
  exists got, rec, sc, r'. split; [done|]. intros Hgot. specialize (Hg Hgot). lia.
Qed.

Lemma reads_unread recs : forall r, reads r recs -> (length recs <= unread r)%nat.
Proof.
  induction recs as [|rec recs IH]; intros r Hr; cbn [length]; [lia|].
  destruct (Hr [] []) as (sc & r' & E & _ & Hr'). apply IH in Hr'.
  destruct (ReadRecord_returns r [] []) as (got & rec' & sc' & r1 & E1 & Hg). rewrite E in E1. simplify_eq. specialize (Hg eq_refl). lia.
Qed.

End LogLemmas.

(** ** Properties *)

(** C1: A log is read back as it was written.  Whatever records are appended to
    a new log (empty ones, ones that span several 32 KiB blocks, ones whose
    header would not fit and is preceded by a trailer of zeros), every [AddRecord]
    succeeds and the reader then returns exactly these records in order, stops at
    the end of the file and reports no corruption.  With verification of
    checksums this needs a checksum that depends on the bytes only.  The result
    does not depend on the two uninitialised fields of the reader. *)
Theorem log_roundtrip `{C : Checksum} (recs : list (Z * bytes)) (t_addr store lro eob : Z)
    (has_rep checksum : bool) :
  (checksum = true -> ChecksumLaws C) -> is_u64 lro ->
  exists w', write_log (Writer_new t_addr (MkWritableFile [] [])) recs = Some (Status_OK, w') /\
  exists r', read_log (length recs)
      (Reader_new (MkSequentialFile (wf_data (dest_ w')) []) has_rep checksum store 0 lro eob) =
      Some (map snd recs, r') /\ reports r' = [].
Proof.
  intros HC Hlro. destruct (written_reads t_addr recs) as (out & b & Hw & Hlaw & Hread). eexists. split; [exact Hw|].
  apply reads_read_log; [|by rewrite length_map]. apply Hread; [|done]. intros Hk. by apply Hlaw, HC.
Qed.

(** C31: Writer and reader always return: whatever the writable file's failures,
    [AddRecord] ends within its fuel and stays inside a block, and whatever bytes
    the log holds and whatever read errors occur, [ReadRecord] ends. *)
Theorem log_total `{C : Checksum} {F : Type} `{!FileOps F} (w : Writer F) (addr : Z) (slice : bytes)
    (r : Reader) (record scratch : bytes) :
  0 <= block_offset_ w <= kBlockSize ->
  (exists s w', AddRecord w addr slice = Some (s, w') /\ 0 <= block_offset_ w' <= kBlockSize) /\
  exists res, ReadRecord r record scratch = Some res.
Proof.
  intros Hb. split.
  - unfold AddRecord. apply AddRecord_loop_returns; [done|]. case_match; lia.
  - destruct (ReadRecord_returns r record scratch) as (got & rec & sc & r' & -> & _). eauto.
Qed.

Lemma log_roundtrip_witness :
  exists w', write_log (C := ReferenceChecksum)
      (Writer_new (C := ReferenceChecksum) 0 (MkWritableFile [] []))
      [(0, replicate (Z.to_nat 32754) Byte.x01); (0, str "hello"); (0, [])] = Some (Status_OK, w') /\
  exists r', read_log (C := ReferenceChecksum) 3
      (Reader_new (MkSequentialFile (wf_data (dest_ w')) []) true true 0 0 7 9) =
      Some ([replicate (Z.to_nat 32754) Byte.x01; str "hello"; []], r') /\ reports r' = [].
Proof.
  apply (log_roundtrip (C := ReferenceChecksum)
    [(0, replicate (Z.to_nat 32754) Byte.x01); (0, str "hello"); (0, [])] 0 0 7 9 true true).
  - intros _. exact ReferenceChecksum_laws.
  - unfold is_u64. lia.
Defined.

Lemma log_total_witness :
  exists res, ReadRecord (C := Crc32cChecksum)
    (Reader_new (MkSequentialFile (str "garbage bytes") []) true true 0 3 0 0) [] [] = Some res.
Proof.
  apply (log_total (C := Crc32cChecksum) (Writer_new (C := Crc32cChecksum) 0 (MkWritableFile [] [])) 0 []).
  cbn. unfold kBlockSize. lia.
Defined.

(** C38: The code's own checksum is not one a log can be verified with: a
    reader that verifies checksums rejects, as a checksum mismatch, an intact
    record that the writer has just written. *)
Theorem crc_rejects_intact_record :
  ~ ChecksumLaws Crc32cChecksum /\
  exists w', AddRecord (C := Crc32cChecksum)
      (Writer_new (C := Crc32cChecksum) 0 (MkWritableFile [] [])) 0 (str "leveldb") = Some (Status_OK, w') /\
  exists r' scratch', ReadRecord (C := Crc32cChecksum)
      (Reader_new (MkSequentialFile (wf_data (dest_ w')) []) true true 0 0 0 0) [] [] =
      Some (false, [], scratch', r') /\
    reports r' = [(14, Status_Corruption (str "checksum mismatch") [])].
Proof.
  split.
  - intros L. pose proof (cs_pieces (ChecksumLaws := L) 0 0 1 [] (str "abcd")) as H.
    pose proof (cs_pieces (ChecksumLaws := L) 0 0 0 [] (str "abcd")) as H0.
    vm_compute in H, H0. congruence.
  - eexists. split; [vm_compute; reflexivity|]. eexists _, _. split; vm_compute; reflexivity.
Qed.
