(* ===== verification/Arena.v ===== *)
(** util/arena.{h,cpp}: the bump allocator behind a memtable.

    Addresses are integers; the heap behind [new char[n]] is an interface,
    [HeapAlloc], whose laws are those of the C++ run time: a new block is
    aligned for any object and overlaps no block that is still allocated. *)

From Stdlib Require Import ZArith Lia List Bool.
From S2P Require Import Prelude.

(** A region of memory: its address and its length. *)
Abbreviation region := (Z * Z)%type.

Definition disjoint_regions (r s : region) : Prop := r.1 + r.2 <= s.1 \/ s.1 + s.2 <= r.1.

Definition within (r block : region) : Prop := block.1 <= r.1 /\ r.1 + r.2 <= block.1 + block.2.

(** [operator_new live n] is the address of a new block of [n] bytes. *)
Class HeapAlloc := { operator_new : list region -> Z -> Z }.

Class HeapLaws (H : HeapAlloc) : Prop := {
  new_aligned : forall live n, operator_new live n mod 8 = 0;
  new_positive : forall live n, 0 < operator_new live n;
  new_disjoint : forall live n, 0 < n -> (forall b, b ∈ live -> 0 < b.1) ->
    Forall (disjoint_regions (operator_new live n, n)) live
}.

(** A heap that never reuses memory. *)
Definition BumpHeap : HeapAlloc := {|
  operator_new live n := 8 * (1 + foldr (fun b m => Z.max (b.1 + b.2) m) 0 live)
|}.

(** The size of a pointer. *)
Definition sizeof_ptr : Z := 8.

Module Arena.
Section Arena.
Context `{H : HeapAlloc}.

Definition kBlockSize : Z := 4096.

(** [blocks_] keeps the size of a block next to its address. *)
Record t := Mk {
  alloc_ptr_ : Z;
  alloc_bytes_remaining_ : Z;
  blocks_ : list region;
  blocks_memory_ : Z
}.

Definition new : t := Mk 0 0 [] 0.

Definition AllocateNewBlock (a : t) (block_bytes : Z) : Z * t :=
  let result := operator_new (blocks_ a) block_bytes in
  (result, Mk (alloc_ptr_ a) (alloc_bytes_remaining_ a) (blocks_ a ++ [(result, block_bytes)])
             (u64 (blocks_memory_ a + block_bytes))).

Definition AllocateFallback (a : t) (bytes : Z) : Z * t :=
  if bytes >? kBlockSize / 4 then AllocateNewBlock a bytes
  else
    let '(ptr, a) := AllocateNewBlock a kBlockSize in
    (ptr, Mk (ptr + bytes) (kBlockSize - bytes) (blocks_ a) (blocks_memory_ a)).

Definition Allocate (a : t) (bytes : Z) : Z * t :=
  if bytes <=? alloc_bytes_remaining_ a then
    (alloc_ptr_ a,
     Mk (alloc_ptr_ a + bytes) (alloc_bytes_remaining_ a - bytes) (blocks_ a) (blocks_memory_ a))
  else AllocateFallback a bytes.

Definition AllocateAligned (a : t) (bytes : Z) : Z * t :=
  let align := sizeof_ptr in
  let current_mod := Z.land (alloc_ptr_ a) (align - 1) in
  let slop := if current_mod =? 0 then 0 else align - current_mod in
  let needed := u64 (bytes + slop) in
  if needed <=? alloc_bytes_remaining_ a then
    (alloc_ptr_ a + slop,
     Mk (alloc_ptr_ a + needed) (alloc_bytes_remaining_ a - needed) (blocks_ a) (blocks_memory_ a))
  else AllocateFallback a bytes.

(** [capacity] is the growth policy of [std::vector]. *)
Definition MemoryUsage (capacity : nat -> Z) (a : t) : Z :=
  blocks_memory_ a + capacity (length (blocks_ a)) * sizeof_ptr.

End Arena.
End Arena.

(** ** A client: a sequence of requests *)

Inductive request := Plain (bytes : Z) | Aligned (bytes : Z).

Definition request_bytes (q : request) : Z := match q with Plain n | Aligned n => n end.

Definition serve `{HeapAlloc} (a : Arena.t) (q : request) : Z * Arena.t :=
  match q with
  | Plain n => Arena.Allocate a n
  | Aligned n => Arena.AllocateAligned a n
  end.

(** The regions handed out, oldest first. *)
Fixpoint serve_all `{HeapAlloc} (a : Arena.t) (qs : list request) : list region * Arena.t :=
  match qs with
  | [] => ([], a)
  | q :: qs =>
      let '(p, a) := serve a q in
      let '(rs, a) := serve_all a qs in
      ((p, request_bytes q) :: rs, a)
  end.

(** ** Lemmas *)

#[global] Instance BumpHeap_laws : HeapLaws BumpHeap.
Proof.
  assert (forall live, 0 <= foldr (fun b m => Z.max (b.1 + b.2) m) 0 live) as Hpos.
  { induction live; simpl; lia. }
  split; cbn; intros.
  - rewrite Z.mul_comm. apply Z.mod_mul. lia.
  - specialize (Hpos live). lia.
  - apply Forall_forall. intros b Hb. right. cbn.
    enough (b.1 + b.2 <= foldr (fun b m => Z.max (b.1 + b.2) m) 0 live)
      by (specialize (Hpos live); lia).
    clear -Hb. induction Hb; simpl; lia.
Qed.

Section ArenaLemmas.
Context `{HL : HeapLaws}.

(** The free tail of the current block. *)
Definition free_region (a : Arena.t) : region := (Arena.alloc_ptr_ a, Arena.alloc_bytes_remaining_ a).

(** The invariant, given the regions handed out so far. *)
Record arena_inv (a : Arena.t) (live : list region) : Prop := {
  inv_live : Forall (fun r => 0 < r.2 /\ exists b, b ∈ Arena.blocks_ a /\ within r b) live;
  inv_disjoint : forall i j r s, live !! i = Some r -> live !! j = Some s -> i <> j -> disjoint_regions r s;
  inv_free : 0 <= Arena.alloc_bytes_remaining_ a /\
    (free_region a = (0, 0) \/ exists b, b ∈ Arena.blocks_ a /\ within (free_region a) b);
  inv_free_live : Forall (fun r => disjoint_regions r (free_region a)) live;
  inv_blocks : Forall (fun b => 0 < b.1 /\ 0 <= b.2) (Arena.blocks_ a)
}.

Lemma arena_inv_new : arena_inv Arena.new [].
Proof. split; try done. simpl. split; [lia|by left]. Qed.

Lemma disjoint_sym r s : disjoint_regions r s -> disjoint_regions s r.
Proof. unfold disjoint_regions. lia. Qed.

(** A part of a free region is as disjoint as the whole. *)
Lemma disjoint_within r s s' : within s' s -> disjoint_regions r s -> disjoint_regions r s'.
Proof. unfold within, disjoint_regions. lia. Qed.

(** Adding a region that is disjoint from the live ones. *)
Lemma pairwise_snoc (live : list region) r :
  (forall i j r s, live !! i = Some r -> live !! j = Some s -> i <> j -> disjoint_regions r s) ->
  Forall (fun s => disjoint_regions s r) live ->
  forall i j s s', (live ++ [r]) !! i = Some s -> (live ++ [r]) !! j = Some s' -> i <> j ->
    disjoint_regions s s'.
Proof.
  intros Hp Hr i j s s' Hi Hj Hij. rewrite Forall_lookup in Hr.
  apply lookup_app_Some in Hi as [Hi|[Hi1 Hi]]; apply lookup_app_Some in Hj as [Hj|[Hj1 Hj]].
  - eauto.
  - apply list_lookup_singleton_Some in Hj as [? <-]. eauto.
  - apply list_lookup_singleton_Some in Hi as [? <-]. apply disjoint_sym. eauto.
  - apply list_lookup_singleton_Some in Hi as [? _], Hj as [? _]. lia.
Qed.

(** Cutting a piece off the front of the free region. *)
Lemma arena_inv_bump a live slop n :
  arena_inv a live -> 0 <= slop -> 0 < n -> slop + n <= Arena.alloc_bytes_remaining_ a ->
  arena_inv (Arena.Mk (Arena.alloc_ptr_ a + (slop + n)) (Arena.alloc_bytes_remaining_ a - (slop + n))
               (Arena.blocks_ a) (Arena.blocks_memory_ a))
            (live ++ [(Arena.alloc_ptr_ a + slop, n)]).
Proof.
  intros [Hl Hd [Hf0 Hf] Hfl Hb] Hs Hn Hle.
  destruct Hf as [[=]|(b & Hin & Hw)]; [lia|]. unfold within, free_region in *. cbn in *.
  split; cbn; [| | | |done].
  - apply Forall_app. split; [done|]. apply Forall_singleton. cbn. split; [done|].
    exists b. split; [done|]. unfold within. cbn. lia.
  - apply pairwise_snoc; [done|]. eapply Forall_impl; [exact Hfl|]. intros r.
    apply disjoint_within. unfold within. cbn. lia.
  - split; [lia|]. right. exists b. split; [done|]. unfold within. cbn. lia.
  - apply Forall_app. split.
    + eapply Forall_impl; [exact Hfl|]. intros r. apply disjoint_within. unfold within. cbn. lia.
    + apply Forall_singleton. unfold disjoint_regions. cbn. lia.
Qed.

Lemma blocks_addresses a live b : arena_inv a live -> b ∈ Arena.blocks_ a -> 0 < b.1.
Proof. intros [_ _ _ _ Hb] Hin. rewrite Forall_forall in Hb. apply (Hb b Hin). Qed.

(** A region inside a block is disjoint from a new block. *)
Lemma new_block_disjoint a live n r b :
  arena_inv a live -> 0 < n -> b ∈ Arena.blocks_ a -> within r b ->
  disjoint_regions r (operator_new (Arena.blocks_ a) n, n).
Proof.
  intros Hi Hn Hb Hw.
  pose proof (new_disjoint (Arena.blocks_ a) n Hn (fun b => blocks_addresses a live b Hi)) as Hd.
  rewrite Forall_forall in Hd. specialize (Hd b Hb). unfold disjoint_regions, within in *. cbn in *. lia.
Qed.

(** A new block, [n] bytes of which are handed out and [m] remain free. *)
Lemma arena_inv_block a live size n ptr rem mem :
  arena_inv a live -> 0 < n <= size -> size < 2 ^ 64 ->
  let p := operator_new (Arena.blocks_ a) size in
  (ptr = p + n /\ rem = size - n) \/
  (n = size /\ ptr = Arena.alloc_ptr_ a /\ rem = Arena.alloc_bytes_remaining_ a) ->
  arena_inv (Arena.Mk ptr rem (Arena.blocks_ a ++ [(p, size)]) mem) (live ++ [(p, n)]).
Proof.
  intros Hi Hn Hsz p Hcase. pose proof Hi as [Hl Hd [Hf0 Hf] Hfl Hb].
  assert (Forall (fun s => disjoint_regions s (p, size)) live) as Hdis.
  { eapply Forall_impl; [exact Hl|]. intros r (_ & b & Hin & Hw).
    eapply new_block_disjoint; eauto. lia. }
  assert (0 < p) as Hp by apply new_positive.
  split; cbn.
  - apply Forall_app. split.
    + eapply Forall_impl; [exact Hl|]. intros r (? & b & Hin & Hw). split; [done|].
      exists b. split; [by apply elem_of_app; left|done].
    + apply Forall_singleton. cbn. split; [lia|]. exists (p, size).
      split; [by apply elem_of_app; right; apply list_elem_of_singleton|]. unfold within. cbn. lia.
  - apply pairwise_snoc; [done|]. eapply Forall_impl; [exact Hdis|]. intros r.
    apply disjoint_within. unfold within. cbn. lia.
  - destruct Hcase as [[-> ->]|(-> & -> & ->)].
    + split; [lia|]. right. exists (p, size).
      split; [by apply elem_of_app; right; apply list_elem_of_singleton|].
      unfold within, free_region. cbn. lia.
    + split; [done|]. destruct Hf as [Hf|(b & Hin & Hw)]; [by left|right]. exists b.
      split; [by apply elem_of_app; left|done].
  - apply Forall_app. destruct Hcase as [[-> ->]|(-> & -> & ->)]; split.
    + eapply Forall_impl; [exact Hdis|]. intros r. apply disjoint_within.
      unfold within, free_region. cbn. lia.
    + apply Forall_singleton. unfold disjoint_regions, free_region. cbn. lia.
    + done.
    + apply Forall_singleton. unfold free_region in *. cbn in *.
      destruct Hf as [[= -> ->]|(b & Hin & Hw)]; [unfold disjoint_regions; cbn; lia|].
      apply disjoint_sym. eapply new_block_disjoint; eauto. lia.
  - apply Forall_app. split; [done|]. apply Forall_singleton. cbn. lia.
Qed.

Lemma slop_aligned p :
  let m := Z.land p (sizeof_ptr - 1) in
  let slop := if m =? 0 then 0 else sizeof_ptr - m in
  0 <= slop < 8 /\ (p + slop) mod 8 = 0.
Proof.
  cbv zeta. change (sizeof_ptr - 1) with (Z.ones 3). rewrite Z.land_ones by lia.
  change (2 ^ 3) with 8. unfold sizeof_ptr. pose proof (Z.mod_pos_bound p 8).
  pose proof (Z.div_mod p 8). destruct (Z.eqb_spec (p mod 8) 0) as [E|E].
  - rewrite Z.add_0_r. lia.
  - split; [lia|]. replace (p + (8 - p mod 8)) with ((p / 8 + 1) * 8) by lia. apply Z.mod_mul. lia.
Qed.

Definition aligned_if (q : request) (p : Z) : Prop :=
  match q with Plain _ => True | Aligned _ => p mod 8 = 0 end.

(** The fallback serves both kinds of request. *)
Lemma AllocateFallback_inv a live n p a' :
  arena_inv a live -> 0 < n < 2 ^ 63 -> Arena.AllocateFallback a n = (p, a') ->
  arena_inv a' (live ++ [(p, n)]) /\ p mod 8 = 0.
Proof.
  intros Hi Hn. unfold Arena.AllocateFallback, Arena.AllocateNewBlock. cbn [Arena.blocks_ Arena.blocks_memory_].
  destruct (Z.gtb_spec n (Arena.kBlockSize / 4)) as [Hg|Hg]; injection 1 as <- <-; (split; [|apply new_aligned]).
  - apply arena_inv_block; [done|lia|lia|]. right. done.
  - change (Arena.kBlockSize / 4) with 1024 in Hg. unfold Arena.kBlockSize in *.
    apply arena_inv_block; [done|lia|lia|]. left. done.
Qed.

Lemma serve_inv a live q p a' :
  arena_inv a live -> 0 < request_bytes q < 2 ^ 63 -> serve a q = (p, a') ->
  arena_inv a' (live ++ [(p, request_bytes q)]) /\ aligned_if q p.
Proof.
  intros Hi Hn. destruct q as [n|n]; cbn [serve request_bytes aligned_if] in *.
  - unfold Arena.Allocate. case_match eqn:E.
    + intros [= <- <-]. apply Z.leb_le in E. split; [|done].
      pose proof (arena_inv_bump a live 0 n Hi) as Hb. rewrite !Z.add_0_r in Hb. apply Hb; lia.
    + intros Hf. by destruct (AllocateFallback_inv a live n p a').
  - unfold Arena.AllocateAligned. destruct (slop_aligned (Arena.alloc_ptr_ a)) as [Hs Ha].
    set (slop := if _ =? 0 then _ else _) in *. cbv zeta.
    rewrite u64_small by (unfold is_u64; lia). rewrite (Z.add_comm n slop). case_match eqn:E.
    + intros [= <- <-]. apply Z.leb_le in E. split; [|done]. apply arena_inv_bump; try done; lia.
    + intros Hf. by apply (AllocateFallback_inv a).
Qed.

Lemma serve_all_inv qs a live rs a' :
  arena_inv a live -> Forall (fun q => 0 < request_bytes q < 2 ^ 63) qs ->
  serve_all a qs = (rs, a') ->
  arena_inv a' (live ++ rs) /\ Forall2 (fun q r => r.2 = request_bytes q /\ aligned_if q r.1) qs rs.
Proof.
  revert a live rs. induction qs as [|q qs IH]; intros a live rs Hi Hq; cbn [serve_all].
  - intros [= <- <-]. rewrite app_nil_r. done.
  - inversion_clear Hq as [|? ? Hn Hqs].
    destruct (serve a q) as [p a1] eqn:E1. destruct (serve_all a1 qs) as [rs1 a2] eqn:E2.
    intros [= <- <-]. destruct (serve_inv a live q p a1 Hi Hn E1) as [Hi1 Hal].
    destruct (IH a1 _ rs1 Hi1 Hqs E2) as [Hi2 Hf]. rewrite <- app_assoc in Hi2.
    split; [done|]. by constructor.
Qed.

End ArenaLemmas.

(** ** Properties *)

(** C32: Whatever is asked of a new arena, every request gets memory of its own:
    the regions handed out have the requested sizes, lie inside blocks the arena
    got from the heap, are pairwise disjoint, and those of [AllocateAligned] are
    aligned to a pointer. *)
Theorem Arena_regions_disjoint `{HL : HeapLaws} (qs : list request) :
  Forall (fun q => 0 < request_bytes q < 2 ^ 63) qs ->
  let '(rs, a) := serve_all Arena.new qs in
  Forall2 (fun q r => r.2 = request_bytes q /\ aligned_if q r.1) qs rs /\
  Forall (fun r => exists b, b ∈ Arena.blocks_ a /\ within r b) rs /\
  (forall i j r s, rs !! i = Some r -> rs !! j = Some s -> i <> j -> disjoint_regions r s).
Proof.
  intros Hq. destruct (serve_all Arena.new qs) as [rs a] eqn:E.
  destruct (serve_all_inv qs Arena.new [] rs a arena_inv_new Hq E) as [[Hl Hd _ _ _] Hf].
  cbn [app] in *. split_and!; [done| |done].
  eapply Forall_impl; [exact Hl|]. intros r [_ Hr]. exact Hr.
Qed.

Lemma Arena_regions_disjoint_witness :
  let '(rs, a) := serve_all (H := BumpHeap) Arena.new [Plain 3; Aligned 16; Plain 2000; Aligned 24] in
  Forall (fun r => exists b, b ∈ Arena.blocks_ a /\ within r b) rs.
Proof.
  pose proof (Arena_regions_disjoint (H := BumpHeap)
    [Plain 3; Aligned 16; Plain 2000; Aligned 24] ltac:(repeat constructor; simpl; lia)) as Hx.
  destruct (serve_all _ _) as [rs a]. apply Hx.
Defined.
