(* ===== verification/SkipList.v ===== *)
(** db/skiplist.h: the ordered set of memtable entries.

    Nodes live in a heap, a list indexed by node number (the node's address in
    the arena plays no role beyond its identity, so the arena is threaded for its
    own state only).  A link is [None] for NULL.  An access outside a node's
    [next_] array, to a node that does not exist, or a failed [assert] is
    undefined behaviour: the operation yields [None], and the theorems show that
    it never does on a well-formed list.  The atomic operations are plain reads
    and writes: one writer at a time is what the class documents, and readers
    racing with it are not modelled. *)

From Stdlib Require Import ZArith Lia List Bool Sorting.Sorted.
From S2P Require Import Prelude Lists Comparator Hashing Arena.

Module SkipList.

Definition kMaxHeight : nat := 12.

(** sizeof(Node): a key pointer and one link. *)
Definition sizeof_Node : Z := 16.

Section SkipList.
Context {K : Type} (compare_ : K -> K -> Z) `{H : HeapAlloc}.

Record Node := MkNode { key : K; next_ : list (option nat) }.

Record t := Mk {
  arena_ : Arena.t;
  nodes : list Node;
  head_ : nat;
  max_height_ : nat;
  rnd_ : Z
}.

Definition node_key (ns : list Node) (x : nat) : option K := nd ← ns !! x; Some (key nd).

(** [x->Next(n)] *)
Definition Next (ns : list Node) (x n : nat) : option (option nat) := nd ← ns !! x; next_ nd !! n.

(** [x->SetNext(n, y)] *)
Definition SetNext (ns : list Node) (x n : nat) (y : option nat) : option (list Node) :=
  nd ← ns !! x;
  if (n <? length (next_ nd))%nat then Some (<[x := MkNode (key nd) (<[n := y]> (next_ nd))]> ns)
  else None.

(** The links, which the code leaves uninitialised, are NULL from the start: the
    constructor and [Insert] set every one of them before the node is reachable. *)
Definition NewNode (sl : t) (k : K) (height : nat) : nat * t :=
  let '(_, arena) :=
    Arena.AllocateAligned (arena_ sl) (sizeof_Node + sizeof_ptr * (Z.of_nat height - 1)) in
  (length (nodes sl),
   Mk arena (nodes sl ++ [MkNode k (replicate height None)]) (head_ sl) (max_height_ sl) (rnd_ sl)).

(** The constructor; [null_key] is the [0] it gives the head. *)
Definition new (arena : Arena.t) (null_key : K) : t :=
  let '(head, sl) := NewNode (Mk arena [] 0 1 (Random.new 0xdeadbeef)) null_key kMaxHeight in
  Mk (arena_ sl) (nodes sl) head 1 (rnd_ sl).

Fixpoint RandomHeight_loop (fuel height : nat) (rnd : Z) : nat * Z :=
  match fuel with
  | O => (height, rnd)
  | S fuel' =>
      if (height <? kMaxHeight)%nat then
        let rnd := Random.Next rnd in
        if rnd mod 4 =? 0 then RandomHeight_loop fuel' (S height) rnd else (height, rnd)
      else (height, rnd)
  end.

(** The loop ends once [height] is [kMaxHeight]. *)
Definition RandomHeight (rnd : Z) : nat * Z := RandomHeight_loop kMaxHeight 1 rnd.

Definition KeyIsAfterNode (ns : list Node) (k : K) (n : option nat) : option bool :=
  match n with
  | None => Some false
  | Some x => nk ← node_key ns x; Some (compare_ nk k <? 0)
  end.

(** The [while (true)] loop that the three searches share: follow links of
    [level] while [advance] holds of the next node, else note [x] in [prev] and
    go down a level.  It ends with the last [x] and its level-0 successor. *)
Fixpoint descend (fuel : nat) (ns : list Node) (advance : option nat -> option bool)
    (x level : nat) (prev : list nat) : option (nat * option nat * list nat) :=
  match fuel with
  | O => None
  | S fuel' =>
      next ← Next ns x level;
      adv ← advance next;
      match adv, next with
      | true, Some y => descend fuel' ns advance y level prev
      | true, None => None
      | false, _ =>
          let prev := <[level := x]> prev in
          match level with
          | O => Some (x, next, prev)
          | S level' => descend fuel' ns advance x level' prev
          end
      end
  end.

(** A level is walked at most once from end to end. *)
Definition search_fuel (sl : t) : nat := S (max_height_ sl) * S (length (nodes sl)).

(** [prev = []] is the NULL array: nothing is recorded in it. *)
Definition FindGreaterOrEqual (sl : t) (k : K) (prev : list nat) : option (option nat * list nat) :=
  '(_, next, prev) ← descend (search_fuel sl) (nodes sl) (KeyIsAfterNode (nodes sl) k)
                       (head_ sl) (max_height_ sl - 1) prev;
  Some (next, prev).

(** The assertion of the loop, that [x] is the head or before the key, holds of
    itself: the only assignment to [x] is of a node just found before the key. *)
Definition FindLessThan (sl : t) (k : K) : option nat :=
  '(x, _, _) ← descend (search_fuel sl) (nodes sl)
                 (fun next => match next with
                              | None => Some false
                              | Some y => nk ← node_key (nodes sl) y; Some (negb (compare_ nk k >=? 0))
                              end)
                 (head_ sl) (max_height_ sl - 1) [];
  Some x.

Definition FindLast (sl : t) : option nat :=
  '(x, _, _) ← descend (search_fuel sl) (nodes sl)
                 (fun next => Some (match next with None => false | Some _ => true end))
                 (head_ sl) (max_height_ sl - 1) [];
  Some x.

(** [for (int i = 0; i < height; i++)]: splice [x] in at each of [levels]. *)
Fixpoint link_levels (ns : list Node) (x : nat) (prev : list nat) (levels : list nat) : option (list Node) :=
  match levels with
  | [] => Some ns
  | i :: levels =>
      p ← prev !! i;
      nx ← Next ns p i;
      ns ← SetNext ns x i nx;
      ns ← SetNext ns p i (Some x);
      link_levels ns x prev levels
  end.

(** [prev[i] = head_] for [i] from [lo] to [hi - 1]. *)
Definition fill_head (prev : list nat) (head lo hi : nat) : list nat :=
  foldl (fun prev i => <[i := head]> prev) prev (seq lo (hi - lo)).

(** The entries of the local array [prev] start as a node that does not exist. *)
Definition Insert (sl : t) (k : K) : option t :=
  '(x, prev) ← FindGreaterOrEqual sl k (replicate kMaxHeight (S (length (nodes sl))));
  fresh ← match x with
          | None => Some true
          | Some x => xk ← node_key (nodes sl) x; Some (negb (compare_ k xk =? 0))
          end;
  if negb fresh then None
  else
    let '(height, rnd) := RandomHeight (rnd_ sl) in
    let '(prev, max_height) :=
      if (max_height_ sl <? height)%nat then (fill_head prev (head_ sl) (max_height_ sl) height, height)
      else (prev, max_height_ sl) in
    let '(x, sl) := NewNode (Mk (arena_ sl) (nodes sl) (head_ sl) max_height rnd) k height in
    ns ← link_levels (nodes sl) x prev (seq 0 height);
    Some (Mk (arena_ sl) ns (head_ sl) (max_height_ sl) (rnd_ sl)).

Definition Contains (sl : t) (k : K) : option bool :=
  '(x, _) ← FindGreaterOrEqual sl k [];
  match x with
  | None => Some false
  | Some x => xk ← node_key (nodes sl) x; Some (compare_ k xk =? 0)
  end.

(** ** SkipList::Iterator: the state is [node_] *)

Definition Iterator_new : option nat := None.
Definition Iterator_Valid (node : option nat) : bool := match node with None => false | Some _ => true end.
Definition Iterator_key (sl : t) (node : option nat) : option K := x ← node; node_key (nodes sl) x.
Definition Iterator_Next (sl : t) (node : option nat) : option (option nat) := x ← node; Next (nodes sl) x 0.

Definition not_head (sl : t) (x : nat) : option nat := if (x =? head_ sl)%nat then None else Some x.

Definition Iterator_Prev (sl : t) (node : option nat) : option (option nat) :=
  x ← node; k ← node_key (nodes sl) x; y ← FindLessThan sl k; Some (not_head sl y).

Definition Iterator_Seek (sl : t) (target : K) : option (option nat) :=
  '(x, _) ← FindGreaterOrEqual sl target []; Some x.

Definition Iterator_SeekToFirst (sl : t) : option (option nat) := Next (nodes sl) (head_ sl) 0.

Definition Iterator_SeekToLast (sl : t) : option (option nat) :=
  x ← FindLast sl; Some (not_head sl x).

End SkipList.
End SkipList.

Import SkipList.

(** ** The representation invariant *)

Section Rep.
Context {K : Type} (compare_ : K -> K -> Z) `{HeapAlloc} (valid : K -> Prop).
Context `{!TotalPreorder compare_ valid}.
Implicit Types (ns : list (Node (K := K))) (sl : t (K := K)) (ids : list nat).

(** Node [x] has a link at [level]. *)
Definition tall ns (level x : nat) : bool :=
  match ns !! x with Some nd => (level <? length (next_ nd))%nat | None => false end.

Definition at_level ns (level : nat) ids : list nat := filter (fun x => tall ns level x = true) ids.

(** Following the links of [level] from [x] visits exactly [rest]. *)
Fixpoint linked ns (level x : nat) (rest : list nat) : Prop :=
  match rest with
  | [] => Next ns x level = Some None
  | y :: rest => Next ns x level = Some (Some y) /\ linked ns level y rest
  end.

Definition key_lt ns (x y : nat) : Prop :=
  exists a b, node_key ns x = Some a /\ node_key ns y = Some b /\ compare_ a b < 0.

(** [ids] are the nodes in key order; level [i] links those of height above [i]. *)
Record rep sl ids : Prop := {
  rep_head : head_ sl = 0%nat;
  rep_head_node : exists nd, nodes sl !! 0%nat = Some nd /\ length (next_ nd) = kMaxHeight;
  rep_count : length (nodes sl) = S (length ids);
  rep_ids : forall x, x ∈ ids -> x <> 0%nat /\ exists nd, nodes sl !! x = Some nd /\
    (1 <= length (next_ nd) <= max_height_ sl)%nat /\ valid (key nd);
  rep_nodup : NoDup ids;
  rep_sorted : StronglySorted (key_lt (nodes sl)) ids;
  rep_linked : forall l, (l < kMaxHeight)%nat -> linked (nodes sl) l 0 (at_level (nodes sl) l ids);
  rep_height : (1 <= max_height_ sl <= kMaxHeight)%nat
}.

(** The keys, in order: what the list represents. *)
Definition contents sl ids : list K := omap (node_key (nodes sl)) ids.

(** ** Walking the links *)

Lemma linked_at ns level x0 A B pre x post :
  linked ns level x0 (A ++ B) -> x0 :: A = pre ++ x :: post ->
  Next ns x level = Some (head (post ++ B)).
Proof.
  revert x0 A. induction pre as [|p pre IH]; intros x0 A Hl E; cbn [app] in E; injection E as -> E.
  - subst post. destruct A as [|a A]; cbn [app] in *.
    + destruct B; cbn [linked head] in *; [done|by destruct Hl].
    + by destruct Hl.
  - destruct A as [|a A]; [by destruct pre|]. cbn [app linked] in Hl. destruct Hl as [_ Hl].
    apply (IH a A Hl). done.
Qed.

Lemma at_level_app ns l A B : at_level ns l (A ++ B) = at_level ns l A ++ at_level ns l B.
Proof. apply filter_app. Qed.

(** A node with a link at some level has one at the levels below. *)
Lemma tall_down ns l x : tall ns (S l) x = true -> tall ns l x = true.
Proof. unfold tall. case_match; [|done]. rewrite !Nat.ltb_lt. lia. Qed.

Lemma at_level_down ns l ids x : x ∈ at_level ns (S l) ids -> x ∈ at_level ns l ids.
Proof. unfold at_level. rewrite !list_elem_of_filter. intros [? ?]. eauto using tall_down. Qed.

(** The node the search stops at on a level. *)
Definition pred_at ns (l : nat) before : nat := List.last (at_level ns l before) 0%nat.

Lemma elem_of_split_cons (x : nat) l : x ∈ l -> exists pre post, l = pre ++ x :: post.
Proof. intros Hx. apply list_elem_of_split in Hx as (pre & post & ->). eauto. Qed.

(** The search splits [ids] where [advance] stops holding. *)
Section Search.
Context (ns : list (Node (K := K))) (advance : option nat -> option bool) (before after : list nat).
Hypothesis Hlinked : forall l, (l < kMaxHeight)%nat -> linked ns l 0 (at_level ns l (before ++ after)).
Hypothesis Hbefore : forall y, y ∈ before -> advance (Some y) = Some true.
Hypothesis Hafter : forall y, y ∈ after -> advance (Some y) = Some false.
Hypothesis Hnone : advance None = Some false.

Lemma advance_after l : advance (head (at_level ns l after)) = Some false.
Proof.
  destruct (at_level ns l after) as [|y r] eqn:E; [done|]. apply Hafter.
  assert (y ∈ at_level ns l after) as Hy by (rewrite E; left).
  by apply list_elem_of_filter in Hy as [_ ?].
Qed.

Lemma tail_elem (x0 : nat) A pre x y post : x0 :: A = pre ++ x :: y :: post -> y ∈ A.
Proof. destruct pre; intros [= -> ->]; set_solver. Qed.

(** Walking one level to its end. *)
Lemma descend_level level x pre post prev : (level < kMaxHeight)%nat -> forall fuel,
  0%nat :: at_level ns level before = pre ++ x :: post -> (length post < fuel)%nat ->
  descend fuel ns advance x level prev =
  let x' := pred_at ns level before in
  match level with
  | O => Some (x', head (at_level ns level after), <[level := x']> prev)
  | S level' => descend (fuel - S (length post)) ns advance x' level' (<[level := x']> prev)
  end.
Proof.
  intros Hk. revert x pre. induction post as [|y post IHp]; intros x pre fuel Hpos Hf;
    (destruct fuel as [|fuel]; [lia|]); cbn [descend];
    rewrite (linked_at ns level 0 _ (at_level ns level after) pre x _
      ltac:(rewrite <- at_level_app; by apply Hlinked) Hpos); cbn [mbind option_bind app].
  - rewrite advance_after. bind_simpl.
    destruct (last_cons_split 0 (at_level ns level before)) as [pre' E].
    rewrite Hpos in E. apply app_inj_tail in E as [_ ->]. fold (pred_at ns level before).
    destruct level; [done|]. cbn [length]. by rewrite Nat.sub_succ, Nat.sub_0_r.
  - cbn [head]. rewrite Hbefore.
    2: { apply tail_elem in Hpos. by apply list_elem_of_filter in Hpos as [_ ?]. }
    bind_simpl. apply (IHp y (pre ++ [x])); [by rewrite <- app_assoc|simpl in Hf; lia].
Qed.

Lemma pred_at_down level :
  exists pre post, 0%nat :: at_level ns level before = pre ++ pred_at ns (S level) before :: post.
Proof.
  apply elem_of_split_cons. destruct (last_cons_split 0 (at_level ns (S level) before)) as [pre E].
  assert (pred_at ns (S level) before ∈ 0%nat :: at_level ns (S level) before) as Hin
    by (rewrite E; apply elem_of_app; right; left).
  apply elem_of_cons in Hin as [->|Hin]; [left|right]. by apply at_level_down.
Qed.

Lemma at_level_length l ids : (length (at_level ns l ids) <= length ids)%nat.
Proof. apply length_filter. Qed.

Lemma descend_spec level : forall fuel x pre post prev,
  (level < kMaxHeight)%nat -> 0%nat :: at_level ns level before = pre ++ x :: post ->
  (length post + level * S (length before) < fuel)%nat ->
  exists prev', descend fuel ns advance x level prev =
      Some (pred_at ns 0 before, head (at_level ns 0 after), prev') /\
    length prev' = length prev /\
    forall l, prev' !! l = if decide (l <= level /\ l < length prev)%nat
                           then Some (pred_at ns l before) else prev !! l.
Proof.
  induction level as [|level IHl]; intros fuel x pre post prev Hk Hpos Hf;
    rewrite (descend_level _ x pre post prev Hk fuel Hpos) by lia; cbv zeta.
  - eexists. split; [reflexivity|]. split; [apply length_insert|]. intros l.
    destruct (decide (l = 0%nat)) as [->|Hne].
    + case_decide; [by apply list_lookup_insert_eq; lia|]. rewrite list_insert_ge by lia. done.
    + rewrite list_lookup_insert_ne by done. by rewrite decide_False by lia.
  - destruct (pred_at_down level) as (pre' & post' & E).
    destruct (IHl (fuel - S (length post))%nat (pred_at ns (S level) before) pre' post' (<[S level := pred_at ns (S level) before]> prev))
      as (prev' & -> & Hlen & Hlk); [lia|done| |].
    { apply (f_equal length) in E. rewrite length_app in E. simpl in E.
      pose proof (at_level_length level before). lia. }
    rewrite length_insert in Hlen, Hlk. exists prev'. split_and!; [done|done|]. intros l. rewrite Hlk.
    destruct (decide (l = S level)) as [->|Hne].
    + rewrite decide_False by lia. case_decide; [by apply list_lookup_insert_eq; lia|].
      by rewrite list_insert_ge by lia.
    + rewrite list_lookup_insert_ne by done. repeat case_decide; try done; lia.
Qed.
End Search.

(** ** The searches on a well-formed list *)

Lemma rep_node sl ids x :
  rep sl ids -> x ∈ ids -> exists k, node_key (nodes sl) x = Some k /\ valid k.
Proof.
  intros Hr Hx. destruct (rep_ids _ _ Hr x Hx) as (_ & nd & E & _ & Hv).
  unfold node_key. rewrite E. cbn. eauto.
Qed.

(** All nodes are on level 0. *)
Lemma at_level_0 sl ids ids' : rep sl ids -> ids' ⊆ ids -> at_level (nodes sl) 0 ids' = ids'.
Proof.
  intros Hr Hsub. unfold at_level. induction ids' as [|x ids' IH]; [done|].
  rewrite filter_cons_True; [f_equal; apply IH; set_solver|].
  destruct (rep_ids _ _ Hr x ltac:(set_solver)) as (_ & nd & E & Hh & _).
  unfold tall. rewrite E. apply Nat.ltb_lt. lia.
Qed.

(** A predicate on keys that is downward closed splits the list. *)
Lemma sorted_split ns ids (P : nat -> bool) :
  StronglySorted (key_lt ns) ids ->
  (forall x y, x ∈ ids -> y ∈ ids -> key_lt ns x y -> P y = true -> P x = true) ->
  exists before after, ids = before ++ after /\
    (forall x, x ∈ before -> P x = true) /\ (forall x, x ∈ after -> P x = false).
Proof.
  intros Hs. induction Hs as [|x ids Hs IH Hx]; intros HP; [exists [], []; split_and!; set_solver|].
  destruct IH as (before & after & -> & Hb & Ha); [set_solver|].
  destruct (P x) eqn:E.
  - exists (x :: before), after. split_and!; [done| |done]. set_solver.
  - exists [], (x :: before ++ after). split_and!; [done|set_solver|].
    intros y [->|Hy]%elem_of_cons; [done|]. destruct (P y) eqn:Ey; [|done].
    rewrite Forall_forall in Hx. rewrite <- E. symmetry.
    apply (HP x y); [left|by right|by apply Hx|done].
Qed.

Lemma search_ok sl ids advance before after prev :
  rep sl ids -> ids = before ++ after ->
  (forall y, y ∈ before -> advance (Some y) = Some true) ->
  (forall y, y ∈ after -> advance (Some y) = Some false) -> advance None = Some false ->
  exists prev', descend (search_fuel sl) (nodes sl) advance (head_ sl) (max_height_ sl - 1) prev =
      Some (List.last before 0%nat, head after, prev') /\ length prev' = length prev /\
    forall l, prev' !! l = if decide (l < max_height_ sl /\ l < length prev)%nat
                           then Some (pred_at (nodes sl) l before) else prev !! l.
Proof.
  intros Hr -> Hb Ha Hn. pose proof (rep_height _ _ Hr) as Hh. rewrite (rep_head _ _ Hr).
  destruct (descend_spec (nodes sl) advance before after (rep_linked _ _ Hr) Hb Ha Hn
    (max_height_ sl - 1) (search_fuel sl) 0 [] (at_level (nodes sl) (max_height_ sl - 1) before) prev)
    as (prev' & -> & Hlen & Hlk).
  - unfold kMaxHeight in *. lia.
  - done.
  - unfold search_fuel. pose proof (rep_count _ _ Hr) as Hc. rewrite length_app in Hc.
    pose proof (at_level_length (nodes sl) (max_height_ sl - 1) before) as Hl. nia.
  - exists prev'. unfold pred_at at 1. rewrite !(at_level_0 sl (before ++ after)) by set_solver.
    split_and!; [done|done|]. intros l. rewrite Hlk. repeat case_decide; try done; lia.
Qed.

(** Nodes before [k] and nodes at or after it. *)
Definition splits sl ids (k : K) before after : Prop :=
  ids = before ++ after /\
  (forall x, x ∈ before -> exists a, node_key (nodes sl) x = Some a /\ compare_ a k < 0) /\
  (forall x, x ∈ after -> exists a, node_key (nodes sl) x = Some a /\ compare_ a k >= 0).

Lemma rep_splits sl ids k : rep sl ids -> valid k -> exists before after, splits sl ids k before after.
Proof.
  intros Hr Hk.
  set (P := fun x => match node_key (nodes sl) x with Some a => compare_ a k <? 0 | None => false end).
  destruct (sorted_split (nodes sl) ids P (rep_sorted _ _ Hr)) as (before & after & E & Hb & Ha).
  - intros x y Hx Hy (a & b & Ea & Eb & Hab). unfold P. rewrite Ea, Eb, !Z.ltb_lt. intros Hlt.
    destruct (rep_node _ _ _ Hr Hx) as (a' & Ea' & Hva), (rep_node _ _ _ Hr Hy) as (b' & Eb' & Hvb).
    apply (to_lt_trans compare_ valid a b k); congruence.
  - exists before, after. split_and!; [done| |]; intros x Hx.
    + destruct (rep_node _ _ x Hr ltac:(set_solver)) as (a & Ea & _). exists a. split; [done|].
      specialize (Hb x Hx). unfold P in Hb. rewrite Ea in Hb. lia.
    + destruct (rep_node _ _ x Hr ltac:(set_solver)) as (a & Ea & _). exists a. split; [done|].
      specialize (Ha x Hx). unfold P in Ha. rewrite Ea in Ha. lia.
Qed.

Lemma FindGreaterOrEqual_ok sl ids k before after prev :
  rep sl ids -> splits sl ids k before after ->
  exists prev', FindGreaterOrEqual compare_ sl k prev = Some (head after, prev') /\
    length prev' = length prev /\
    forall l, prev' !! l = if decide (l < max_height_ sl /\ l < length prev)%nat
                           then Some (pred_at (nodes sl) l before) else prev !! l.
Proof.
  intros Hr (E & Hb & Ha). unfold FindGreaterOrEqual.
  destruct (search_ok sl ids (KeyIsAfterNode compare_ (nodes sl) k) before after prev Hr E)
    as (prev' & -> & Hp); [| |done|by exists prev'].
  - intros y Hy. destruct (Hb y Hy) as (a & Ea & Hlt). cbn. rewrite Ea. cbn. f_equal. lia.
  - intros y Hy. destruct (Ha y Hy) as (a & Ea & Hlt). cbn. rewrite Ea. cbn. f_equal. lia.
Qed.

Lemma FindLessThan_ok sl ids k before after :
  rep sl ids -> splits sl ids k before after ->
  FindLessThan compare_ sl k = Some (List.last before 0%nat).
Proof.
  intros Hr (E & Hb & Ha). unfold FindLessThan.
  edestruct (search_ok sl ids) as (prev' & -> & _); [exact Hr|exact E| | |done|done].
  - intros y Hy. destruct (Hb y Hy) as (a & Ea & Hlt). cbn. rewrite Ea. cbn. f_equal. lia.
  - intros y Hy. destruct (Ha y Hy) as (a & Ea & Hlt). cbn. rewrite Ea. cbn. f_equal. lia.
Qed.

Lemma FindLast_ok sl ids : rep sl ids -> FindLast sl = Some (List.last ids 0%nat).
Proof.
  intros Hr. unfold FindLast.
  destruct (search_ok sl ids (fun next => Some (match next with None => false | Some _ => true end))
    ids [] []) as (prev' & -> & _); [exact Hr|by rewrite app_nil_r|done|set_solver|done|done].
Qed.

(** ** Insertion *)

Lemma RandomHeight_range rnd : (1 <= (RandomHeight rnd).1 <= kMaxHeight)%nat.
Proof.
  unfold RandomHeight. assert (forall fuel h rnd, 1 <= h <= kMaxHeight ->
    1 <= (RandomHeight_loop fuel h rnd).1 <= kMaxHeight)%nat as Hl.
  { clear. intros fuel. induction fuel as [|fuel IH]; intros h rnd Hr; [done|].
    cbn [RandomHeight_loop]. destruct (Nat.ltb_spec h kMaxHeight); [|done].
    case_match; [|done]. apply IH. lia. }
  apply Hl. unfold kMaxHeight. lia.
Qed.

(** The shape of the heap: keys and heights. *)
Definition same_shape ns ns' : Prop :=
  length ns' = length ns /\
  forall x, (fun nd => (key nd, length (next_ nd))) <$> (ns' !! x) =
            (fun nd => (key nd, length (next_ nd))) <$> (ns !! x).

Lemma same_shape_trans a b c : same_shape a b -> same_shape b c -> same_shape a c.
Proof. intros [? Hab] [? Hbc]. split; [congruence|]. intros x. by rewrite Hbc. Qed.

Lemma same_shape_key ns ns' x : same_shape ns ns' -> node_key ns' x = node_key ns x.
Proof.
  intros [_ Hs]. specialize (Hs x). unfold node_key.
  destruct (ns' !! x), (ns !! x); cbn in *; congruence.
Qed.

Lemma same_shape_tall ns ns' l x : same_shape ns ns' -> tall ns' l x = tall ns l x.
Proof.
  intros [_ Hs]. specialize (Hs x). unfold tall.
  destruct (ns' !! x), (ns !! x); cbn in Hs; try done. injection Hs as _ E. by rewrite E.
Qed.

Lemma SetNext_ok ns x l y :
  tall ns l x = true ->
  exists ns', SetNext ns x l y = Some ns' /\ same_shape ns ns' /\
    forall z m, Next ns' z m = if decide (z = x /\ m = l) then Some y else Next ns z m.
Proof.
  unfold tall, SetNext. destruct (ns !! x) as [nd|] eqn:E; [|done]. bind_simpl.
  intros Hl. rewrite Hl. apply Nat.ltb_lt in Hl. eexists. split; [reflexivity|]. split.
  - split; [apply length_insert|]. intros z. destruct (decide (z = x)) as [->|Hne].
    + rewrite list_lookup_insert_eq by (by eapply lookup_lt_Some). rewrite E. cbn. by rewrite length_insert.
    + by rewrite list_lookup_insert_ne.
  - intros z m. unfold Next. destruct (decide (z = x)) as [->|Hne].
    + rewrite list_lookup_insert_eq by (by eapply lookup_lt_Some). rewrite E. cbn [mbind option_bind next_].
      destruct (decide (m = l)) as [->|Hm].
      * rewrite decide_True by done. by apply list_lookup_insert_eq.
      * rewrite decide_False by tauto. by rewrite list_lookup_insert_ne.
    + rewrite list_lookup_insert_ne by done. by rewrite decide_False by tauto.
Qed.

Lemma Next_tall ns x l n : Next ns x l = Some n -> tall ns l x = true.
Proof.
  unfold Next, tall. destruct (ns !! x); [|done]. cbn. intros Hl%lookup_lt_Some. by apply Nat.ltb_lt.
Qed.

(** What the splice loop does to every link. *)
Lemma link_levels_ok ns x prev levels (p : nat -> nat) :
  NoDup levels ->
  (forall l, l ∈ levels -> prev !! l = Some (p l) /\ p l <> x /\ tall ns l x = true /\
    exists n, Next ns (p l) l = Some n) ->
  exists ns', link_levels ns x prev levels = Some ns' /\ same_shape ns ns' /\
    forall z m, Next ns' z m =
      if decide (m ∈ levels) then
        if decide (z = x) then Next ns (p m) m
        else if decide (z = p m) then Some (Some x) else Next ns z m
      else Next ns z m.
Proof.
  revert ns. induction levels as [|l levels IH]; intros ns Hnd Hp.
  { exists ns. split_and!; [done|done|]. intros. by rewrite decide_False by set_solver. }
  apply NoDup_cons in Hnd as [Hnl Hnd]. destruct (Hp l ltac:(left)) as (Epl & Hpx & Htx & n & En).
  cbn [link_levels]. rewrite Epl. bind_simpl. rewrite En. bind_simpl.
  destruct (SetNext_ok ns x l n Htx) as (ns1 & -> & Hs1 & H1). bind_simpl.
  destruct (SetNext_ok ns1 (p l) l (Some x)) as (ns2 & -> & Hs2 & H2).
  { rewrite (same_shape_tall ns) by done. by eapply Next_tall. }
  bind_simpl. destruct (IH ns2 Hnd) as (ns' & -> & Hs' & H').
  { intros m Hm. destruct (Hp m ltac:(by right)) as (? & ? & Ht & n' & En'). split_and!; [done|done| |].
    - by rewrite (same_shape_tall ns1), (same_shape_tall ns).
    - exists n'. rewrite H2, H1, !decide_False by (intros [_ ->]; done). done. }
  exists ns'. split_and!; [done|by eauto using same_shape_trans|].
  intros z m. rewrite H', !H2, !H1. clear H' H2 H1 Hp IH.
  destruct (decide (m = l)) as [->|Hml].
  - rewrite (decide_False (P := l ∈ levels)) by done. rewrite (decide_True (P := l ∈ l :: levels)) by left.
    destruct (decide (z = x)) as [->|Hzx].
    + rewrite decide_False by (intros [? _]; congruence). rewrite decide_True by done. done.
    + destruct (decide (z = p l)) as [->|Hzp]; [by rewrite decide_True|].
      by rewrite !decide_False by tauto.
  - rewrite !(decide_False (P := _ /\ m = l)) by tauto.
    repeat case_decide; try done; set_solver.
Qed.

(** Splicing [x] in after the last node of [A]. *)
Lemma linked_splice ns ns' l x0 A B x :
  linked ns l x0 (A ++ B) -> NoDup (x0 :: A ++ B) -> x ∉ (x0 :: A ++ B) ->
  Next ns' x l = Next ns (List.last A x0) l -> Next ns' (List.last A x0) l = Some (Some x) ->
  (forall z, z ∈ (x0 :: A ++ B) -> z <> List.last A x0 -> Next ns' z l = Next ns z l) ->
  linked ns' l x0 (A ++ x :: B).
Proof.
  revert x0. induction A as [|a A IH]; intros x0 Hl Hnd Hx Hnx Hnl Hoth.
  - cbn [app linked List.last] in *. split; [done|].
    destruct B as [|b B]; cbn [linked] in *; [congruence|]. destruct Hl as [E Hl].
    split; [congruence|].
    apply NoDup_cons in Hnd as [Hn0 Hnd]. clear -Hl Hoth Hn0. revert b Hl Hn0 Hoth.
    induction B as [|c B IHB]; intros b Hl Hn0 Hoth; cbn [linked] in *.
    + rewrite Hoth; set_solver.
    + destruct Hl as [E Hl]. split; [rewrite Hoth; set_solver|]. apply IHB; [done|set_solver|].
      intros z Hz Hne. apply Hoth; [|done]. apply elem_of_cons in Hz as [->|Hz]; [left|].
      right. by right.
  - rewrite last_default in *. cbn [app linked] in *. destruct Hl as [E Hl].
    apply NoDup_cons in Hnd as [Hn0 Hnd]. split.
    + rewrite Hoth; [done|left|]. intros Hc. apply Hn0. rewrite Hc.
      destruct (last_cons_split a A) as [pre Ep].
      change (List.last A a ∈ (a :: A) ++ B). rewrite Ep. set_solver.
    + apply IH; [done|done|set_solver|done|done|]. intros z Hz. apply Hoth. by right.
Qed.

(** Links that keep their targets keep a level. *)
Lemma linked_ext ns ns' l x0 A :
  linked ns l x0 A -> (forall z, z ∈ x0 :: A -> Next ns' z l = Next ns z l) -> linked ns' l x0 A.
Proof.
  revert x0. induction A as [|a A IH]; intros x0 Hl He; cbn [linked] in *.
  - rewrite He; [done|left].
  - destruct Hl as [E Hl]. split; [rewrite He; [done|left]|]. apply IH; [done|]. set_solver.
Qed.

Lemma at_level_ext ns ns' l ids :
  (forall x, x ∈ ids -> tall ns' l x = tall ns l x) -> at_level ns' l ids = at_level ns l ids.
Proof.
  intros He. unfold at_level. induction ids as [|x ids IH]; [done|].
  rewrite !filter_cons, (He x ltac:(left)), IH by set_solver. done.
Qed.

Lemma fill_head_lookup prev hd lo hi l :
  (hi <= length prev)%nat ->
  fill_head prev hd lo hi !! l = if decide (lo <= l < hi)%nat then Some hd else prev !! l.
Proof.
  intros Hlen. unfold fill_head.
  assert (forall n lo prev, lo + n <= length prev ->
    foldl (fun prev i => <[i := hd]> prev) prev (seq lo n) !! l =
    if decide (lo <= l < lo + n) then Some hd else prev !! l)%nat as Hf.
  { clear. intros n. induction n as [|n IH]; intros lo prev Hl; cbn [seq foldl].
    - by rewrite decide_False by lia.
    - rewrite IH by (rewrite length_insert; lia). destruct (decide (l = lo)) as [->|].
      + rewrite decide_False, decide_True by lia. apply list_lookup_insert_eq. lia.
      + rewrite list_lookup_insert_ne by done. repeat case_decide; try done; lia. }
  destruct (decide (lo <= hi)%nat).
  - rewrite Hf by lia. repeat case_decide; try done; lia.
  - replace (hi - lo)%nat with 0%nat by lia. cbn. by rewrite decide_False by lia.
Qed.

(** Facts about the predecessor on a level. *)
Lemma pred_at_in ns l before : pred_at ns l before = 0%nat \/ pred_at ns l before ∈ at_level ns l before.
Proof.
  unfold pred_at. destruct (last_cons_split 0 (at_level ns l before)) as [pre E].
  assert (List.last (at_level ns l before) 0%nat ∈ 0%nat :: at_level ns l before) as Hin
    by (rewrite E; apply elem_of_app; right; left).
  by apply elem_of_cons in Hin.
Qed.

Lemma rep_above sl ids l before : rep sl ids -> before ⊆ ids -> (max_height_ sl <= l)%nat ->
  at_level (nodes sl) l before = [].
Proof.
  intros Hr Hsub Hl. destruct (at_level (nodes sl) l before) as [|x r] eqn:E; [done|].
  assert (x ∈ at_level (nodes sl) l before) as Hx by (rewrite E; left).
  apply list_elem_of_filter in Hx as [Ht Hx].
  destruct (rep_ids _ _ Hr x ltac:(set_solver)) as (_ & nd & En & Hh & _).
  unfold tall in Ht. rewrite En in Ht. apply Nat.ltb_lt in Ht. lia.
Qed.

Lemma rep_bound sl ids x : rep sl ids -> x ∈ 0%nat :: ids -> (x < length (nodes sl))%nat.
Proof.
  intros Hr [->|Hx]%elem_of_cons.
  - rewrite (rep_count _ _ Hr). lia.
  - destruct (rep_ids _ _ Hr x Hx) as (_ & nd & E & _). by eapply lookup_lt_Some.
Qed.

Lemma rep_pred_next sl before after l :
  rep sl (before ++ after) -> (l < kMaxHeight)%nat ->
  (pred_at (nodes sl) l before < length (nodes sl))%nat /\
  exists n, Next (nodes sl) (pred_at (nodes sl) l before) l = Some n.
Proof.
  intros Hr Hl. split.
  - apply (rep_bound sl _ _ Hr). destruct (pred_at_in (nodes sl) l before) as [->|Hin]; [left|].
    apply list_elem_of_filter in Hin as [_ ?]. set_solver.
  - destruct (last_cons_split 0 (at_level (nodes sl) l before)) as [pre E].
    eexists. apply (linked_at (nodes sl) l 0 (at_level (nodes sl) l before)
      (at_level (nodes sl) l after) pre _ []); [|exact E].
    rewrite <- at_level_app. by apply (rep_linked _ _ Hr).
Qed.

(** The splice: [ns'] is the heap of [sl] with a node [x] of height [h] linked in
    between [before] and [after] on its levels. *)
Section Splice.
Context sl (before after : list nat) (k : K) (h : nat) (ns' : list (Node (K := K))).
Let x := length (nodes sl).
Let ns1 := nodes sl ++ [MkNode k (replicate h None)].
Hypothesis Hr : rep sl (before ++ after).
Hypothesis Hsplit : splits sl (before ++ after) k before after.
Hypothesis Hk : valid k.
Hypothesis Hne : forall y a, y ∈ after -> node_key (nodes sl) y = Some a -> compare_ a k <> 0.
Hypothesis Hh : (1 <= h <= kMaxHeight)%nat.
Hypothesis Hs : same_shape ns1 ns'.
Hypothesis Hn : forall z m, Next ns' z m =
  if decide (m ∈ seq 0 h) then
    if decide (z = x) then Next (nodes sl) (pred_at (nodes sl) m before) m
    else if decide (z = pred_at (nodes sl) m before) then Some (Some x) else Next ns1 z m
  else Next ns1 z m.

Lemma splice_bound y : y ∈ 0%nat :: before ++ after -> (y < x)%nat.
Proof. by apply rep_bound. Qed.

Lemma splice_fresh : x ∉ 0%nat :: before ++ after.
Proof. intros Hin%splice_bound. lia. Qed.

Lemma splice_old_key y : (y < x)%nat -> node_key ns' y = node_key (nodes sl) y.
Proof. intros Hy. rewrite (same_shape_key _ _ _ Hs). unfold node_key, ns1. by rewrite lookup_app_l. Qed.

Lemma splice_old_tall l y : (y < x)%nat -> tall ns' l y = tall (nodes sl) l y.
Proof. intros Hy. rewrite (same_shape_tall _ _ _ _ Hs). unfold tall, ns1. by rewrite lookup_app_l. Qed.

Lemma splice_old y nd : (y < x)%nat -> nodes sl !! y = Some nd ->
  exists nd', ns' !! y = Some nd' /\ key nd' = key nd /\ length (next_ nd') = length (next_ nd).
Proof.
  intros Hy E. destruct Hs as [_ Hs']. specialize (Hs' y). unfold ns1 in Hs'.
  rewrite lookup_app_l, E in Hs' by done. destruct (ns' !! y) as [nd'|]; [|done].
  cbn in Hs'. injection Hs' as E1 E2. eauto.
Qed.

Lemma splice_new : exists nd, ns' !! x = Some nd /\ key nd = k /\ length (next_ nd) = h.
Proof.
  destruct Hs as [_ Hs']. specialize (Hs' x). unfold ns1 in Hs'.
  rewrite lookup_app_r, Nat.sub_diag in Hs' by done.
  destruct (ns' !! x) as [nd|]; [|done]. cbn in Hs'. rewrite length_replicate in Hs'.
  injection Hs' as E1 E2. eauto.
Qed.

Lemma splice_new_key : node_key ns' x = Some k.
Proof. destruct splice_new as (nd & E & <- & _). unfold node_key. by rewrite E. Qed.

Lemma splice_ids mh : mh = Nat.max h (max_height_ sl) -> forall y, y ∈ before ++ x :: after ->
  y <> 0%nat /\ exists nd, ns' !! y = Some nd /\ (1 <= length (next_ nd) <= mh)%nat /\ valid (key nd).
Proof.
  intros -> y Hy. destruct (decide (y = x)) as [->|Hyx].
  - split; [intros E; pose proof splice_fresh; set_solver|].
    destruct splice_new as (nd & Ex & Ek & El). exists nd. rewrite Ek, El. split_and!; [done|lia|lia|done].
  - destruct (rep_ids _ _ Hr y ltac:(set_solver)) as (Hy0 & nd & E & Hhy & Hv).
    destruct (splice_old y nd) as (nd' & E' & Ek & El); [apply splice_bound; set_solver|done|].
    split; [done|]. exists nd'. rewrite Ek, El. split_and!; [done|lia|lia|done].
Qed.

Lemma splice_sorted : StronglySorted (key_lt ns') (before ++ x :: after).
Proof.
  destruct Hsplit as (_ & Hb & Ha).
  apply (StronglySorted_insert (key_lt (nodes sl))); [apply (rep_sorted _ _ Hr)| | |].
  - intros a b Hina Hinb. unfold key_lt. rewrite !splice_old_key by (apply splice_bound; by right). done.
  - intros a Hin. destruct (Hb a Hin) as (ka & Eka & Hka). exists ka, k.
    rewrite (splice_old_key a), splice_new_key by (apply splice_bound; right; apply elem_of_app; by left). done.
  - intros b Hin. destruct (Ha b Hin) as (kb & Ekb & Hkb). exists k, kb.
    rewrite (splice_old_key b), splice_new_key by (apply splice_bound; right; apply elem_of_app; by right). split_and!; [done|done|].
    pose proof (Hne b kb Hin Ekb). destruct (rep_node _ _ b Hr ltac:(set_solver)) as (kb' & E' & Hv).
    assert (kb' = kb) as -> by congruence. apply (to_flip_lt compare_ valid); [done|done|lia].
Qed.

Lemma splice_at_level l :
  at_level ns' l (before ++ x :: after) =
  at_level (nodes sl) l before ++ (if (l <? h)%nat then [x] else []) ++ at_level (nodes sl) l after.
Proof.
  change (x :: after) with ([x] ++ after). rewrite !at_level_app.
  rewrite (at_level_ext (nodes sl) _ _ before), (at_level_ext (nodes sl) _ _ after)
    by (intros; apply splice_old_tall, splice_bound; set_solver).
  f_equal. f_equal. destruct splice_new as (nd & Ex & _ & El).
  unfold at_level. rewrite filter_cons, filter_nil. unfold tall. rewrite Ex, El.
  case_decide; case_match; done.
Qed.

Lemma splice_linked l : (l < kMaxHeight)%nat -> linked ns' l 0 (at_level ns' l (before ++ x :: after)).
Proof.
  intros Hl. rewrite splice_at_level.
  pose proof (rep_linked _ _ Hr l Hl) as Hlk. rewrite at_level_app in Hlk.
  assert (forall z, z ∈ 0%nat :: at_level (nodes sl) l before ++ at_level (nodes sl) l after ->
    z ∈ 0%nat :: before ++ after) as Hsub.
  { intros z. unfold at_level. rewrite !elem_of_cons, !elem_of_app, !list_elem_of_filter. tauto. }
  assert (forall z, (z < x)%nat -> Next ns1 z l = Next (nodes sl) z l) as Hold.
  { intros z Hz. unfold Next, ns1. by rewrite lookup_app_l. }
  destruct (Nat.ltb_spec l h) as [Hlh|Hlh]; cbn [app].
  - assert (l ∈ seq 0 h) as Hin by (apply elem_of_seq; lia).
    destruct (rep_pred_next sl before after l Hr Hl) as [Hp _]. fold x in Hp.
    apply (linked_splice (nodes sl)); fold (pred_at (nodes sl) l before); [done| | | | |].
    + rewrite <- at_level_app. apply NoDup_cons. split; [|apply NoDup_filter, (rep_nodup _ _ Hr)].
      intros [_ H0]%list_elem_of_filter. by destruct (rep_ids _ _ Hr _ H0).
    + intros Hx%Hsub. by apply splice_fresh.
    + by rewrite Hn, !decide_True by done.
    + rewrite Hn, decide_True, decide_False, decide_True by (done || lia). done.
    + intros z Hz Hzp. pose proof (splice_bound z (Hsub z Hz)).
      rewrite Hn, decide_True, !decide_False by (done || lia). by apply Hold.
  - apply (linked_ext (nodes sl)); [done|]. intros z Hz.
    rewrite Hn, decide_False by (rewrite elem_of_seq; lia). apply Hold, splice_bound, Hsub, Hz.
Qed.

Lemma rep_splice arena rnd :
  rep (Mk arena ns' (head_ sl) (Nat.max h (max_height_ sl)) rnd) (before ++ x :: after).
Proof.
  constructor; cbn [nodes head_ max_height_].
  - apply (rep_head _ _ Hr).
  - destruct (rep_head_node _ _ Hr) as (nd & E & Hl). destruct (splice_old 0%nat nd) as (nd' & ? & _ & ?);
      [by apply splice_bound; left|done|]. exists nd'. split; [done|congruence].
  - destruct Hs as [-> _]. unfold ns1. rewrite !length_app. cbn [length].
    pose proof (rep_count _ _ Hr) as Hc. rewrite length_app in Hc. lia.
  - by apply splice_ids.
  - rewrite <- Permutation_middle. apply NoDup_cons.
    split; [pose proof splice_fresh; set_solver|apply (rep_nodup _ _ Hr)].
  - apply splice_sorted.
  - apply splice_linked.
  - pose proof (rep_height _ _ Hr). lia.
Qed.

Lemma splice_contents arena rnd mh :
  contents (Mk arena ns' (head_ sl) mh rnd) (before ++ x :: after) =
  contents sl before ++ k :: contents sl after.
Proof.
  unfold contents. cbn [nodes]. rewrite omap_app, omap_cons, splice_new_key.
  rewrite !(omap_ext_in (node_key ns') (node_key (nodes sl))); [done| |];
    intros y Hy; apply splice_old_key, splice_bound; right; apply elem_of_app; auto.
Qed.
End Splice.

(** ** The operations *)

Lemma new_rep arena null_key : rep (new arena null_key) [].
Proof.
  unfold new, NewNode. destruct (Arena.AllocateAligned _ _) as [a arena'].
  constructor; cbn [nodes head_ max_height_ app length]; try done.
  - by eexists.
  - set_solver.
  - apply NoDup_nil_2.
  - constructor.
  - intros l Hl. cbn. do 12 (destruct l as [|l]; [done|]). unfold kMaxHeight in Hl. lia.
  - unfold kMaxHeight. lia.
Qed.

(** The predecessor array [Insert] works with. *)
Lemma Insert_prev sl before after h prev :
  rep sl (before ++ after) -> (h <= kMaxHeight)%nat -> length prev = kMaxHeight ->
  (forall l, prev !! l = if decide (l < max_height_ sl /\ l < kMaxHeight)%nat
                         then Some (pred_at (nodes sl) l before)
                         else replicate kMaxHeight (S (length (nodes sl))) !! l) ->
  let prev' := if (max_height_ sl <? h)%nat then fill_head prev (head_ sl) (max_height_ sl) h else prev in
  forall l, (l < h)%nat -> prev' !! l = Some (pred_at (nodes sl) l before).
Proof.
  intros Hr Hh Hlen Hp prev' l Hl. subst prev'.
  destruct (Nat.ltb_spec (max_height_ sl) h) as [Hlt|Hge].
  - rewrite fill_head_lookup by lia. case_decide as Hd.
    + unfold pred_at. rewrite (rep_above sl _ l before Hr) by (set_solver || lia).
      by rewrite (rep_head _ _ Hr).
    + rewrite Hp, decide_True by lia. done.
  - rewrite Hp, decide_True by lia. done.
Qed.

Lemma Insert_ok sl ids k :
  rep sl ids -> valid k ->
  (forall x a, x ∈ ids -> node_key (nodes sl) x = Some a -> compare_ a k <> 0) ->
  exists sl' before after, Insert compare_ sl k = Some sl' /\ splits sl ids k before after /\
    rep sl' (before ++ length (nodes sl) :: after) /\
    contents sl' (before ++ length (nodes sl) :: after) = contents sl before ++ k :: contents sl after.
Proof.
  intros Hr Hk Hne. destruct (rep_splits sl ids k Hr Hk) as (before & after & Hsp).
  pose proof Hsp as (-> & _ & Ha). unfold Insert.
  destruct (FindGreaterOrEqual_ok sl _ k before after (replicate kMaxHeight (S (length (nodes sl)))) Hr Hsp)
    as (prev & -> & Hlen & Hp). rewrite length_replicate in Hlen, Hp. bind_simpl.
  assert (match head after with
          | None => Some true
          | Some x => xk ← node_key (nodes sl) x; Some (negb (compare_ k xk =? 0))
          end = Some true) as ->.
  { destruct after as [|y after]; [done|]. cbn [head]. destruct (Ha y ltac:(left)) as (a & Ea & _).
    rewrite Ea. bind_simpl. specialize (Hne y a ltac:(set_solver) Ea).
    destruct (rep_node _ _ y Hr ltac:(set_solver)) as (a' & E' & Hv). assert (a' = a) as -> by congruence.
    rewrite (proj2 (Z.eqb_neq _ _)); [done|]. intros E. by apply (to_flip_eq compare_ valid) in E. }
  cbn [mbind option_bind negb]. pose proof (RandomHeight_range (rnd_ sl)) as Hh.
  destruct (RandomHeight (rnd_ sl)) as [h rnd]. cbn [fst] in Hh.
  set (pm := if (max_height_ sl <? h)%nat then _ else _).
  assert (pm = (if (max_height_ sl <? h)%nat then fill_head prev (head_ sl) (max_height_ sl) h else prev,
    Nat.max h (max_height_ sl))) as ->.
  { subst pm. destruct (Nat.ltb_spec (max_height_ sl) h); f_equal; lia. }
  pose proof (Insert_prev sl before after h prev Hr ltac:(lia) Hlen Hp) as Hprev. cbv zeta in Hprev.
  set (prev' := if (max_height_ sl <? h)%nat then _ else _) in *.
  unfold NewNode. cbn [arena_ nodes head_ max_height_ rnd_].
  destruct (Arena.AllocateAligned _ _) as [addr arena]. cbn [nodes arena_ head_ max_height_ rnd_].
  destruct (link_levels_ok (nodes sl ++ [MkNode k (replicate h None)]) (length (nodes sl)) prev' (seq 0 h)
    (fun l => pred_at (nodes sl) l before)) as (ns' & -> & Hs & Hn).
  - apply NoDup_seq.
  - intros l Hl%elem_of_seq.
    destruct (rep_pred_next sl before after l Hr ltac:(lia)) as (Hlt & n & En).
    split_and!; [apply Hprev; lia|lia| |].
    + unfold tall. rewrite lookup_app_r, Nat.sub_diag by done. cbn.
      rewrite length_replicate. apply Nat.ltb_lt. lia.
    + exists n. unfold Next in *. by rewrite lookup_app_l.
  - bind_simpl. exists (Mk arena ns' (head_ sl) (Nat.max h (max_height_ sl)) rnd), before, after.
    assert (forall z m, Next ns' z m =
      if decide (m ∈ seq 0 h) then
        if decide (z = length (nodes sl)) then Next (nodes sl) (pred_at (nodes sl) m before) m
        else if decide (z = pred_at (nodes sl) m before) then Some (Some (length (nodes sl)))
        else Next (nodes sl ++ [MkNode k (replicate h None)]) z m
      else Next (nodes sl ++ [MkNode k (replicate h None)]) z m) as Hn'.
    { intros z m. rewrite Hn. case_decide as Hm; [|done]. case_decide; [|done].
      apply elem_of_seq in Hm. destruct (rep_pred_next sl before after m Hr ltac:(lia)) as [Hlt _].
      unfold Next. by rewrite lookup_app_l. }
    assert (forall y a, y ∈ after -> node_key (nodes sl) y = Some a -> compare_ a k <> 0) as Hne'
      by (intros y a Hy; apply Hne, elem_of_app; by right).
    split_and!; [done|done| |].
    + by apply (rep_splice sl before after k h ns').
    + by apply (splice_contents sl before after k h ns').
Qed.

(** ** The iterator *)

Lemma contents_lookup sl ids i : rep sl ids -> contents sl ids !! i = (x ← ids !! i; node_key (nodes sl) x).
Proof.
  intros Hr. assert (forall x, x ∈ ids -> is_Some (node_key (nodes sl) x)) as Hk.
  { intros x Hx. destruct (rep_node _ _ x Hr Hx) as (k & -> & _). by eexists. }
  clear Hr. unfold contents. revert i. induction ids as [|x ids IH]; intros i; [done|].
  destruct (Hk x ltac:(left)) as [k E]. rewrite omap_cons, E.
  destruct i as [|i]; [done|]. cbn. apply IH. intros. apply Hk. by right.
Qed.

Lemma contents_app sl A B : contents sl (A ++ B) = contents sl A ++ contents sl B.
Proof. apply omap_app. Qed.

Lemma elem_of_contents sl ids a :
  a ∈ contents sl ids <-> exists x, x ∈ ids /\ node_key (nodes sl) x = Some a.
Proof. unfold contents. rewrite list_elem_of_omap. naive_solver. Qed.

Lemma contents_sorted sl ids :
  rep sl ids -> StronglySorted (fun a b => compare_ a b < 0) (contents sl ids).
Proof.
  intros Hr. pose proof (rep_sorted _ _ Hr) as Hs. clear Hr. unfold contents.
  induction Hs as [|x ids Hs IH Hx]; [constructor|]. rewrite omap_cons.
  destruct (node_key (nodes sl) x) as [a|] eqn:E; [|done]. constructor; [done|].
  apply Forall_forall. intros b (y & Hy & Ey)%list_elem_of_omap. rewrite Forall_forall in Hx.
  destruct (Hx y Hy) as (a' & b' & Ea & Eb & Hab). congruence.
Qed.

Lemma not_head_ok sl ids l : rep sl ids -> l ⊆ ids ->
  not_head sl (List.last l 0%nat) = l !! (length l - 1)%nat.
Proof.
  intros Hr Hl. unfold not_head. rewrite (rep_head _ _ Hr).
  destruct (decide (l = [])) as [->|Hne]; [done|].
  rewrite <- (last_lookup_lt l 0) by done.
  rewrite (proj2 (Nat.eqb_neq _ _)); [done|]. intros E0.
  assert (List.last l 0%nat ∈ l) as Hin.
  { apply (list_elem_of_lookup_2 _ (length l - 1)). by rewrite <- (last_lookup_lt l 0). }
  rewrite E0 in Hin. by destruct (rep_ids _ _ Hr 0%nat (Hl _ Hin)).
Qed.

Lemma contents_length sl ids ids' : rep sl ids -> ids' ⊆ ids -> length (contents sl ids') = length ids'.
Proof.
  intros Hr Hs. unfold contents. induction ids' as [|x ids' IH]; [done|].
  destruct (rep_node _ _ x Hr ltac:(set_solver)) as (k & E & _). rewrite omap_cons, E.
  cbn [length]. f_equal. apply IH. set_solver.
Qed.

(** The split point is the number of keys below [k]. *)
Lemma splits_index sl ids k before after :
  rep sl ids -> splits sl ids k before after ->
  length (filter (fun a => compare_ a k < 0) (contents sl ids)) = length before.
Proof.
  intros Hr (-> & Hb & Ha). rewrite contents_app, filter_app.
  rewrite filter_all, filter_none, app_nil_r.
  - apply (contents_length sl _ before Hr). set_solver.
  - intros a (x & Hx & E)%elem_of_contents. destruct (Ha x Hx) as (a' & Ea & ?). simplify_eq. lia.
  - intros a (x & Hx & E)%elem_of_contents. destruct (Hb x Hx) as (a' & Ea & ?). by simplify_eq.
Qed.

Lemma splits_iff sl ids k before after i a :
  rep sl ids -> splits sl ids k before after -> contents sl ids !! i = Some a ->
  (i < length before)%nat <-> compare_ a k < 0.
Proof.
  intros Hr (-> & Hb & Ha). rewrite contents_lookup by done.
  destruct ((before ++ after) !! i) as [x|] eqn:E; [|done]. cbn. intros Ek.
  apply lookup_app_Some in E as [E|[Hi E]].
  - pose proof (lookup_lt_Some _ _ _ E). apply list_elem_of_lookup_2 in E.
    destruct (Hb x E) as (a' & Ea & ?). simplify_eq. lia.
  - apply list_elem_of_lookup_2 in E. destruct (Ha x E) as (a' & Ea & ?). simplify_eq. lia.
Qed.

(** A node's position splits the list at its own key. *)
Lemma splits_at sl ids i x a :
  rep sl ids -> ids !! i = Some x -> node_key (nodes sl) x = Some a ->
  splits sl ids a (take i ids) (drop i ids).
Proof.
  intros Hr Hi Ea. pose proof (rep_sorted _ _ Hr) as Hs.
  assert (ids = take i ids ++ x :: drop (S i) ids) as E by (symmetry; by apply take_drop_middle).
  assert (valid a) as Hva.
  { destruct (rep_node _ _ x Hr) as (a' & E' & Hv); [by eapply list_elem_of_lookup_2|]. congruence. }
  split; [by rewrite take_drop|]. rewrite E in Hs. split; intros y Hy.
  - destruct (elem_of_split_cons y _ Hy) as (l1 & l2 & E1). rewrite E1, <- app_assoc in Hs. cbn [app] in Hs.
    apply StronglySorted_app_r in Hs. inversion_clear Hs as [|? ? _ Hf]. rewrite Forall_forall in Hf.
    destruct (Hf x ltac:(set_solver)) as (b & a' & Eb & Ea' & Hlt). exists b. split; [done|congruence].
  - rewrite (drop_S _ x) in Hy by done. apply elem_of_cons in Hy as [->|Hy].
    + exists a. split; [done|]. rewrite (to_refl compare_ valid) by done. lia.
    + apply StronglySorted_app_r in Hs. inversion_clear Hs as [|? ? _ Hf]. rewrite Forall_forall in Hf.
      destruct (Hf y Hy) as (a' & b & Ea' & Eb & Hlt). exists b. split; [done|].
      assert (a' = a) as -> by congruence.
      destruct (rep_node _ _ y Hr) as (b' & E' & Hvb); [rewrite E; set_solver|].
      assert (b' = b) as -> by congruence.
      pose proof (proj1 (to_flip_lt compare_ valid a b Hva Hvb) Hlt). lia.
Qed.

Lemma Next_ok sl ids i : rep sl ids -> (i < length ids)%nat ->
  Iterator_Next sl (ids !! i) = Some (ids !! S i).
Proof.
  intros Hr Hi. destruct (lookup_lt_is_Some_2 ids i Hi) as [x Hx]. rewrite Hx. cbn [Iterator_Next mbind option_bind].
  pose proof (rep_linked _ _ Hr 0%nat ltac:(unfold kMaxHeight; lia)) as Hl.
  rewrite (at_level_0 sl ids ids Hr) in Hl by done. rewrite <- (app_nil_r ids) in Hl.
  rewrite (linked_at _ _ _ _ _ (0%nat :: take i ids) x (drop (S i) ids) Hl).
  - by rewrite app_nil_r, head_lookup, lookup_drop, Nat.add_0_r.
  - cbn [app]. f_equal. symmetry. by apply take_drop_middle.
Qed.

Lemma Prev_ok sl ids i : rep sl ids -> (i < length ids)%nat ->
  Iterator_Prev compare_ sl (ids !! i) = Some (match i with O => None | S j => ids !! j end).
Proof.
  intros Hr Hi. destruct (lookup_lt_is_Some_2 ids i Hi) as [x Hx]. rewrite Hx.
  cbn [Iterator_Prev mbind option_bind].
  destruct (rep_node _ _ x Hr) as (a & Ea & _); [by eapply list_elem_of_lookup_2|]. unfold Iterator_Prev.
  bind_simpl. rewrite Ea. bind_simpl.
  rewrite (FindLessThan_ok sl ids a _ _ Hr (splits_at sl ids i x a Hr Hx Ea)). bind_simpl.
  f_equal. rewrite (not_head_ok sl ids) by (done || apply subseteq_take).
  rewrite length_take_le by lia. destruct i as [|i]; [done|].
  rewrite lookup_take_lt by lia. f_equal. lia.
Qed.

Lemma Contains_ok sl ids k : rep sl ids -> valid k ->
  Contains compare_ sl k = Some (existsb (fun a => compare_ k a =? 0) (contents sl ids)).
Proof.
  intros Hr Hk. destruct (rep_splits sl ids k Hr Hk) as (before & after & Hsp).
  unfold Contains. destruct (FindGreaterOrEqual_ok sl ids k before after [] Hr Hsp) as (prev & -> & _).
  bind_simpl. pose proof Hsp as (Ei & Hb & Ha).
  assert (forall a, a ∈ contents sl ids -> valid a) as Hv.
  { intros a (x & Hx & E)%elem_of_contents. destruct (rep_node _ _ x Hr Hx) as (a' & E' & ?). congruence. }
  assert (forall b, b ∈ contents sl before -> (compare_ k b =? 0) = false) as Hbf.
  { intros b Hin. pose proof Hin as (x & Hx & E)%elem_of_contents. destruct (Hb x Hx) as (b' & E' & Hlt).
    assert (b' = b) as -> by congruence. apply Z.eqb_neq. intros E0.
    assert (valid b) as Hvb by (apply Hv; subst ids; rewrite contents_app; apply elem_of_app; by left).
    apply (to_flip_eq compare_ valid k b Hk Hvb) in E0. lia. }
  pose proof (contents_sorted sl ids Hr) as Hs. rewrite Ei in Hs, Hv |- *. rewrite contents_app in *.
  rewrite existsb_app. rewrite (existsb_false _ (contents sl before)) by exact Hbf. cbn [orb].
  destruct after as [|x after]; [done|]. cbn [head]. destruct (Ha x ltac:(left)) as (a & Ea & Hge).
  rewrite Ea. bind_simpl. unfold contents in *. rewrite omap_cons, Ea in *.
  cbn [existsb]. f_equal. destruct (Z.eqb_spec (compare_ k a) 0) as [E0|E0]; [done|].
  symmetry. apply existsb_false. intros b Hin. apply Z.eqb_neq.
  apply StronglySorted_app_r in Hs. inversion_clear Hs as [|? ? _ Hf]. rewrite Forall_forall in Hf.
  specialize (Hf b Hin). assert (compare_ k a < 0) as Hka.
  { pose proof (to_flip_le compare_ valid k a Hk ltac:(apply Hv; set_solver)). lia. }
  pose proof (to_lt_trans compare_ valid k a b Hk ltac:(apply Hv; set_solver) ltac:(apply Hv; set_solver) Hka Hf). lia.
Qed.
End Rep.

(** ** Searches and the iterator *)

Lemma Iterator_ok {K} (compare_ : K -> K -> Z) (valid : K -> Prop)
    `{!TotalPreorder compare_ valid} (sl : t) (ids : list nat) (k : K) :
  rep compare_ valid sl ids -> valid k ->
  let keys := contents sl ids in
  let n := length (filter (fun a => compare_ a k < 0) keys) in
  Contains compare_ sl k = Some (existsb (fun a => compare_ k a =? 0) keys) /\
  Iterator_Seek compare_ sl k = Some (ids !! n) /\
  (forall i a, keys !! i = Some a -> (i < n)%nat <-> compare_ a k < 0) /\
  Iterator_SeekToFirst sl = Some (ids !! 0%nat) /\
  Iterator_SeekToLast sl = Some (ids !! (length ids - 1)%nat) /\
  (forall i, (i < length ids)%nat ->
    Iterator_Next sl (ids !! i) = Some (ids !! S i) /\
    Iterator_Prev compare_ sl (ids !! i) = Some (match i with O => None | S j => ids !! j end) /\
    Iterator_key sl (ids !! i) = keys !! i).
Proof.
  intros Hr Hk keys n. destruct (rep_splits compare_ valid sl ids k Hr Hk) as (before & after & Hsp).
  assert (n = length before) as -> by (by eapply splits_index).
  split_and!.
  - by apply (Contains_ok compare_ valid).
  - unfold Iterator_Seek.
    destruct (FindGreaterOrEqual_ok compare_ valid sl ids k before after [] Hr Hsp) as (prev & -> & _).
    cbn. f_equal. destruct Hsp as (-> & _). by rewrite lookup_app_r, Nat.sub_diag, head_lookup.
  - intros i a Ha. by eapply splits_iff.
  - pose proof (rep_linked _ _ _ _ Hr 0%nat ltac:(unfold kMaxHeight; lia)) as Hl.
    rewrite (at_level_0 compare_ valid sl ids ids Hr) in Hl by done. unfold Iterator_SeekToFirst.
    rewrite (rep_head _ _ _ _ Hr). destruct ids; [done|]. by destruct Hl.
  - unfold Iterator_SeekToLast. rewrite (FindLast_ok compare_ valid sl ids Hr). cbn. f_equal.
    by apply (not_head_ok compare_ valid sl ids).
  - intros i Hi. split_and!; [by apply (Next_ok compare_ valid)|by apply (Prev_ok compare_ valid)|].
    subst keys. by rewrite (contents_lookup compare_ valid).
Qed.

(** ** Properties *)

(** [Insert] for each of [ks]. *)
Fixpoint insert_all {K} (compare_ : K -> K -> Z) `{HeapAlloc} (sl : t) (ks : list K) : option t :=
  match ks with
  | [] => Some sl
  | k :: ks => sl ← Insert compare_ sl k; insert_all compare_ sl ks
  end.

Lemma insert_all_ok {K} (compare_ : K -> K -> Z) `{HeapAlloc} (valid : K -> Prop)
    `{!TotalPreorder compare_ valid} ks sl ids :
  rep compare_ valid sl ids -> Forall valid ks ->
  ForallOrdPairs (fun a b => compare_ a b <> 0) ks ->
  (forall a b, a ∈ contents sl ids -> b ∈ ks -> compare_ a b <> 0) ->
  exists sl' ids', insert_all compare_ sl ks = Some sl' /\ rep compare_ valid sl' ids' /\
    contents sl' ids' ≡ₚ contents sl ids ++ ks.
Proof.
  revert sl ids. induction ks as [|k ks IH]; intros sl ids Hr Hv Hd Hn.
  { exists sl, ids. rewrite app_nil_r. done. }
  inversion_clear Hv as [|? ? Hk Hv']. inversion_clear Hd as [|? ? Hdk Hd']. cbn [insert_all].
  destruct (Insert_ok compare_ valid sl ids k Hr Hk) as (sl1 & before & after & -> & Hsp & Hr1 & Hc).
  { intros x a Hx Ea. apply Hn; [|left]. apply elem_of_contents. eauto. }
  bind_simpl. destruct Hsp as (-> & _).
  assert (contents sl1 (before ++ length (nodes sl) :: after) ≡ₚ k :: contents sl (before ++ after)) as Hp.
  { by rewrite Hc, contents_app, <- Permutation_middle. }
  destruct (IH sl1 _ Hr1 Hv' Hd') as (sl' & ids' & -> & Hr' & Hc').
  - intros a b Ha Hb. rewrite Hp in Ha. apply elem_of_cons in Ha as [->|Ha].
    + rewrite Forall_forall in Hdk. by apply Hdk.
    + apply Hn; [done|by right].
  - exists sl', ids'. split_and!; [done|done|]. by rewrite Hc', Hp, <- Permutation_middle.
Qed.

(** C3: Inserting any keys that differ from one another into a new skip list
    never follows a dangling or missing link and never trips the duplicate
    assertion; it leaves a well-formed skip list (every level links, in key order,
    exactly the nodes tall enough for it) that holds these keys, each once. *)
Theorem SkipList_Insert_correct {K} (compare_ : K -> K -> Z) `{HeapAlloc} (valid : K -> Prop)
    `{!TotalPreorder compare_ valid} (arena : Arena.t) (null_key : K) (ks : list K) :
  Forall valid ks -> ForallOrdPairs (fun a b => compare_ a b <> 0) ks ->
  exists sl ids, insert_all compare_ (new arena null_key) ks = Some sl /\
    rep compare_ valid sl ids /\ contents sl ids ≡ₚ ks /\
    StronglySorted (fun a b => compare_ a b < 0) (contents sl ids).
Proof.
  intros Hv Hd.
  destruct (insert_all_ok compare_ valid ks (new arena null_key) [] (new_rep compare_ valid arena null_key) Hv Hd)
    as (sl & ids & E & Hr & Hp); [intros a b Ha; by apply elem_of_contents in Ha as (? & ?%elem_of_nil & _)|].
  exists sl, ids. split_and!; [done|done|done|by apply (contents_sorted compare_ valid)].
Qed.

(** On a well-formed list the searches and the iterator agree with the
    sorted sequence of keys the list stands for: [Contains] tells membership,
    [Seek] lands on the first key at or after the target, [SeekToFirst],
    [SeekToLast], [Next] and [Prev] move between neighbours, and [key] is the key
    at the position; none of them goes wrong or runs out of fuel. *)
Theorem SkipList_Iterator_correct {K} (compare_ : K -> K -> Z) (valid : K -> Prop)
    `{!TotalPreorder compare_ valid} (sl : t) (ids : list nat) (k : K) :
  rep compare_ valid sl ids -> valid k ->
  let keys := contents sl ids in
  let n := length (filter (fun a => compare_ a k < 0) keys) in
  Contains compare_ sl k = Some (existsb (fun a => compare_ k a =? 0) keys) /\
  Iterator_Seek compare_ sl k = Some (ids !! n) /\
  (forall i a, keys !! i = Some a -> (i < n)%nat <-> compare_ a k < 0) /\
  Iterator_SeekToFirst sl = Some (ids !! 0%nat) /\
  Iterator_SeekToLast sl = Some (ids !! (length ids - 1)%nat) /\
  (forall i, (i < length ids)%nat ->
    Iterator_Next sl (ids !! i) = Some (ids !! S i) /\
    Iterator_Prev compare_ sl (ids !! i) = Some (match i with O => None | S j => ids !! j end) /\
    Iterator_key sl (ids !! i) = keys !! i).
Proof. apply (Iterator_ok compare_ valid). Qed.

(** Keys of the witnesses: integers in their order. *)
#[local] Instance Z_order : TotalPreorder (fun a b : Z => a - b) (fun _ => True).
Proof. split; intros; lia. Qed.

Lemma SkipList_Insert_correct_witness :
  exists sl ids, insert_all (H := BumpHeap) (fun a b : Z => a - b) (new (H := BumpHeap) Arena.new 0) [5; 1; 9; 3] = Some sl /\
    rep (fun a b : Z => a - b) (fun _ => True) sl ids /\ contents sl ids ≡ₚ [5; 1; 9; 3].
Proof.
  destruct (SkipList_Insert_correct (H := BumpHeap) (fun a b : Z => a - b) (fun _ => True) Arena.new 0 [5; 1; 9; 3])
    as (sl & ids & E & Hr & Hc & _).
  - repeat constructor.
  - repeat constructor; lia.
  - exists sl, ids. auto.
Defined.

Lemma SkipList_Iterator_correct_witness :
  Contains (fun a b : Z => a - b) (new (H := BumpHeap) Arena.new 0) 4 = Some false.
Proof.
  apply (SkipList_Iterator_correct (fun a b : Z => a - b) (fun _ => True) (new (H := BumpHeap) Arena.new 0) [] 4).
  - apply (new_rep (fun a b : Z => a - b) (fun _ => True)).
  - exact I.
Defined.
