(* ===== verification/MemTable.v ===== *)
(** db/memtable.{h,cpp}: the in-memory table of recent writes.

    An entry is the string varint32 length, internal key, varint32 length, value;
    the skip list holds pointers to entries, here the bytes they point to.  [None]
    is undefined behaviour (an entry that does not decode, a skip list access
    out of bounds, a failed [assert]); the theorems show that it does not occur. *)

From Stdlib Require Import ZArith Lia List Bool String Sorting.Sorted.
From S2P Require Import Prelude Lists Coding Slice Comparator Bloom DbFormat Hashing Arena SkipList.

(** [GetLengthPrefixedSlice(const char *data)]: the slice and what follows it.
    The limit [p + 5] never cuts a varint32 short. *)
Definition GetLengthPrefixedSliceAt (data : bytes) : option (bytes * bytes) :=
  '(len, p) ← GetVarint32Ptr data;
  if Zlength p <? len then None else Some (take (Z.to_nat len) p, drop (Z.to_nat len) p).

Section MemTable.
Context (user_comparator : Comparator) `{H : HeapAlloc}.

(** [KeyComparator::operator()]; strings that are not entries compare equal. *)
Definition KeyComparator (aptr bptr : bytes) : Z :=
  match GetLengthPrefixedSliceAt aptr, GetLengthPrefixedSliceAt bptr with
  | Some (a, _), Some (b, _) => InternalKeyCompare user_comparator a b
  | _, _ => 0
  end.

Definition EncodeKey (target : bytes) : bytes := PutVarint32 [] (u32 (Zlength target)) ++ target.

(** The arena is the one the skip list allocates from. *)
Record MemTable := MkMemTable { refs_ : Z; table_ : SkipList.t (K := bytes) }.

Definition MemTable_new : MemTable := MkMemTable 0 (SkipList.new Arena.new []).

Definition Ref (m : MemTable) : MemTable := MkMemTable (refs_ m + 1) (table_ m).

(** [None]: the table was deleted. *)
Definition Unref (m : MemTable) : option MemTable :=
  if refs_ m - 1 <=? 0 then None else Some (MkMemTable (refs_ m - 1) (table_ m)).

Definition ApproximateMemoryUsage (capacity : nat -> Z) (m : MemTable) : Z :=
  Arena.MemoryUsage capacity (SkipList.arena_ (table_ m)).

Definition with_arena (sl : SkipList.t (K := bytes)) (a : Arena.t) : SkipList.t :=
  SkipList.Mk a (SkipList.nodes sl) (SkipList.head_ sl) (SkipList.max_height_ sl) (SkipList.rnd_ sl).

(** The bytes [Add] writes into its buffer. *)
Definition entry_bytes (seq : Z) (type : ValueType) (key value : bytes) : bytes :=
  EncodeVarint32 (u32 (Zlength key + 8)) ++ key ++
  EncodeFixed64 (Z.lor (u64 (Z.shiftl seq 8)) (ValueType_to_Z type)) ++
  EncodeVarint32 (u32 (Zlength value)) ++ value.

Definition Add (m : MemTable) (seq : Z) (type : ValueType) (key value : bytes) : option MemTable :=
  let key_size := Zlength key in
  let val_size := Zlength value in
  let internal_key_size := key_size + 8 in
  let encoded_len :=
    VarintLength internal_key_size + internal_key_size + VarintLength val_size + val_size in
  let '(_, arena) := Arena.Allocate (SkipList.arena_ (table_ m)) encoded_len in
  let buf := entry_bytes seq type key value in
  if negb (Zlength buf =? encoded_len) then None
  else
    table ← SkipList.Insert KeyComparator (with_arena (table_ m) arena) buf;
    Some (MkMemTable (refs_ m) table).

(** [value] and [s] are the caller's string and status before the call. *)
Definition Get (m : MemTable) (key : LookupKey) (value : bytes) (s : Status)
    : option (bool * bytes * Status) :=
  let memkey := memtable_key key in
  node ← SkipList.Iterator_Seek KeyComparator (table_ m) memkey;
  if SkipList.Iterator_Valid node then
    entry ← SkipList.Iterator_key (table_ m) node;
    '(key_length, key_ptr) ← GetVarint32Ptr entry;
    if Compare user_comparator (take (Z.to_nat (key_length - 8)) key_ptr) (lookup_user_key key) =? 0 then
      let tag := DecodeFixed64 (drop (Z.to_nat (key_length - 8)) key_ptr) in
      if Z.land tag 255 =? ValueType_to_Z kTypeValue then
        '(v, _) ← GetLengthPrefixedSliceAt (drop (Z.to_nat key_length) key_ptr);
        Some (true, v, s)
      else if Z.land tag 255 =? ValueType_to_Z kTypeDeletion then
        Some (true, value, Status_NotFound [] [])
      else Some (false, value, s)
    else Some (false, value, s)
  else Some (false, value, s).

(** ** MemTableIterator *)

Definition MemIter_Seek (m : MemTable) (k : bytes) := SkipList.Iterator_Seek KeyComparator (table_ m) (EncodeKey k).
Definition MemIter_SeekToFirst (m : MemTable) := SkipList.Iterator_SeekToFirst (table_ m).
Definition MemIter_SeekToLast (m : MemTable) := SkipList.Iterator_SeekToLast (table_ m).
Definition MemIter_Next (m : MemTable) (it : option nat) := SkipList.Iterator_Next (table_ m) it.
Definition MemIter_Prev (m : MemTable) (it : option nat) := SkipList.Iterator_Prev KeyComparator (table_ m) it.

Definition MemIter_key (m : MemTable) (it : option nat) : option bytes :=
  e ← SkipList.Iterator_key (table_ m) it;
  '(k, _) ← GetLengthPrefixedSliceAt e;
  Some k.

Definition MemIter_value (m : MemTable) (it : option nat) : option bytes :=
  e ← SkipList.Iterator_key (table_ m) it;
  '(_, rest) ← GetLengthPrefixedSliceAt e;
  '(v, _) ← GetLengthPrefixedSliceAt rest;
  Some v.

End MemTable.

(** ** The abstract table *)

(** An entry as the specification sees it. *)
Abbreviation mem_entry := (ParsedInternalKey * bytes)%type.

(** The newest version of user key [u] at or before snapshot [s]. *)
Fixpoint newest (es : list mem_entry) (u : bytes) (s : Z) : option mem_entry :=
  match es with
  | [] => None
  | e :: es =>
      let r := newest es u s in
      if bool_decide (user_key e.1 = u) && (sequence e.1 <=? s) then
        match r with
        | Some q => if sequence q.1 <? sequence e.1 then Some e else r
        | None => Some e
        end
      else r
  end.

(** What [Get] answers for it. *)
Definition get_answer (r : option mem_entry) (value : bytes) (s : Status) : bool * bytes * Status :=
  match r with
  | None => (false, value, s)
  | Some (p, v) =>
      match type p with
      | kTypeValue => (true, v, s)
      | kTypeDeletion => (true, value, Status_NotFound [] [])
      end
  end.

(** [Add] for each entry in turn. *)
Fixpoint add_all (ucmp : Comparator) `{HeapAlloc} (m : MemTable) (es : list mem_entry) : option MemTable :=
  match es with
  | [] => Some m
  | (p, v) :: es => m ← Add ucmp m (sequence p) (type p) (user_key p) v; add_all ucmp m es
  end.

(** ** Lemmas on entries *)

Definition entry_ok (e : mem_entry) : Prop :=
  seq_ok (sequence e.1) /\ Zlength (user_key e.1) + 8 < 2 ^ 32 /\ Zlength e.2 < 2 ^ 32.

Definition enc (e : mem_entry) : bytes := entry_bytes (sequence e.1) (type e.1) (user_key e.1) e.2.

(** A string that starts with a length-prefixed internal key. *)
Definition mkey (p : ParsedInternalKey) (rest : bytes) : bytes :=
  EncodeVarint32 (Zlength (user_key p) + 8) ++ AppendInternalKey [] p ++ rest.

Definition mkey_ok (k : bytes) : Prop :=
  exists p rest, seq_ok (sequence p) /\ Zlength (user_key p) + 8 < 2 ^ 32 /\ k = mkey p rest.

Lemma ikey_Zlength p : Zlength (AppendInternalKey [] p) = Zlength (user_key p) + 8.
Proof.
  by rewrite AppendInternalKey_nil, Zlength_app.
Qed.

Lemma mkey_head p rest : Zlength (user_key p) + 8 < 2 ^ 32 ->
  GetVarint32Ptr (mkey p rest) = Some (Zlength (user_key p) + 8, AppendInternalKey [] p ++ rest).
Proof.
  intros Hl. unfold mkey. apply GetVarint32_enc. unfold is_u32.
  pose proof (Zlength_nonneg (user_key p)). lia.
Qed.

Lemma mkey_decode p rest : Zlength (user_key p) + 8 < 2 ^ 32 ->
  GetLengthPrefixedSliceAt (mkey p rest) = Some (AppendInternalKey [] p, rest).
Proof.
  intros Hl. unfold GetLengthPrefixedSliceAt. rewrite mkey_head by done. bind_simpl.
  rewrite <- ikey_Zlength, Zlength_app. rewrite (proj2 (Z.ltb_ge _ _)) by (pose proof (Zlength_nonneg rest); lia).
  by rewrite take_Zlength_app, drop_Zlength_app.
Qed.

Definition value_bytes (v : bytes) : bytes := EncodeVarint32 (u32 (Zlength v)) ++ v.

Lemma value_decode v : Zlength v < 2 ^ 32 -> GetLengthPrefixedSliceAt (value_bytes v) = Some (v, []).
Proof.
  intros Hv. pose proof (Zlength_nonneg v). unfold GetLengthPrefixedSliceAt, value_bytes.
  rewrite u32_small by (unfold is_u32; lia).
  assert (GetVarint32Ptr (EncodeVarint32 (Zlength v) ++ v) = Some (Zlength v, v)) as ->
    by (apply GetVarint32_enc; unfold is_u32; lia).
  bind_simpl. rewrite Z.ltb_irrefl, to_nat_Zlength. by rewrite firstn_all, drop_all.
Qed.

Lemma enc_mkey e : entry_ok e -> enc e = mkey e.1 (value_bytes e.2).
Proof.
  intros (Hs & Hk & Hv). pose proof (Zlength_nonneg (user_key e.1)). unfold enc, entry_bytes, mkey.
  rewrite (u32_small (Zlength (user_key e.1) + 8)) by (unfold is_u32; lia).
  rewrite AppendInternalKey_nil, <- app_assoc. done.
Qed.

Lemma enc_ok e : entry_ok e -> mkey_ok (enc e).
Proof. intros He. rewrite enc_mkey by done. destruct He as (? & ? & _). by exists e.1, (value_bytes e.2). Qed.

Lemma enc_length e : entry_ok e ->
  Zlength (enc e) = VarintLength (Zlength (user_key e.1) + 8) + (Zlength (user_key e.1) + 8) +
    VarintLength (Zlength e.2) + Zlength e.2.
Proof.
  intros (Hs & Hk & Hv). pose proof (Zlength_nonneg (user_key e.1)). pose proof (Zlength_nonneg e.2).
  unfold enc, entry_bytes. rewrite !u32_small by (unfold is_u32; lia).
  rewrite !EncodeVarint32_64 by (unfold is_u32; lia).
  rewrite !Zlength_app. rewrite !VarintLength_enc by (unfold is_u64; lia).
  assert (forall x, Zlength (EncodeFixed64 x) = 8) as E8 by (intros; unfold Zlength; by rewrite EncodeFixed64_length).
  rewrite E8. lia.
Qed.

Section Laws.
Context (ucmp : Comparator) `{!ComparatorLaws ucmp any_key}.

Lemma KeyComparator_mkey p r q r' :
  Zlength (user_key p) + 8 < 2 ^ 32 -> Zlength (user_key q) + 8 < 2 ^ 32 ->
  KeyComparator ucmp (mkey p r) (mkey q r') =
  InternalKeyCompare ucmp (AppendInternalKey [] p) (AppendInternalKey [] q).
Proof. intros. unfold KeyComparator. by rewrite !mkey_decode. Qed.

#[global] Instance KeyComparator_order : TotalPreorder (KeyComparator ucmp) mkey_ok.
Proof.
  split.
  - intros ? ? (p & r & _ & ? & ->) (q & r' & _ & ? & ->). rewrite !KeyComparator_mkey by done.
    by apply (to_sgn (valid := any_key)).
  - intros ? ? ? (p & r & _ & ? & ->) (q & r' & _ & ? & ->) (x & r'' & _ & ? & ->).
    rewrite !KeyComparator_mkey by done. by apply (to_trans (valid := any_key)).
Qed.

Lemma KeyComparator_neq e e' : entry_ok e -> entry_ok e' ->
  (user_key e.1 = user_key e'.1 -> sequence e.1 <> sequence e'.1) ->
  KeyComparator ucmp (enc e) (enc e') <> 0.
Proof.
  intros He He' Hd. rewrite !enc_mkey by done. destruct He as (Hs & Hk & _), He' as (Hs' & Hk' & _).
  rewrite KeyComparator_mkey by done. intros E.
  apply (icmp_eq ucmp) in E; [|apply ikey_app_ok|apply ikey_app_ok].
  apply (f_equal ParseInternalKey) in E. rewrite !Parse_Append in E by done.
  injection E as E. apply Hd; by rewrite E.
Qed.

(** Versions of one user key have different sequence numbers. *)
Definition fresh_pair (e e' : mem_entry) : Prop :=
  user_key e.1 = user_key e'.1 -> sequence e.1 <> sequence e'.1.

(** The memtable holds exactly [es]. *)
Definition mem_rep (m : MemTable) (es : list mem_entry) : Prop :=
  Forall entry_ok es /\ ForallOrdPairs fresh_pair es /\
  exists ids, rep (KeyComparator ucmp) mkey_ok (table_ m) ids /\
    contents (table_ m) ids ≡ₚ map enc es.

Context `{HA : HeapAlloc}.

Lemma MemTable_new_rep : mem_rep MemTable_new [].
Proof. split_and!; [constructor|constructor|]. exists []. split; [apply (new_rep _ mkey_ok)|done]. Qed.

Lemma rep_with_arena sl ids a :
  rep (KeyComparator ucmp) mkey_ok sl ids -> rep (KeyComparator ucmp) mkey_ok (with_arena sl a) ids.
Proof. intros [? ? ? ? ? ? ? ?]. by constructor. Qed.

Lemma Add_ok m es p v :
  mem_rep m es -> entry_ok (p, v) -> (forall e, e ∈ es -> fresh_pair e (p, v)) ->
  exists m', Add ucmp m (sequence p) (type p) (user_key p) v = Some m' /\ mem_rep m' (es ++ [(p, v)]).
Proof.
  intros (Hok & Hd & ids & Hr & Hc) Hp Hf. unfold Add.
  destruct (Arena.Allocate _ _) as [addr arena].
  change (entry_bytes _ _ _ v) with (enc (p, v)). rewrite (enc_length (p, v)) by done. cbn [fst snd].
  rewrite Z.eqb_refl. cbn [negb].
  destruct (Insert_ok (KeyComparator ucmp) mkey_ok (with_arena (table_ m) arena) ids (enc (p, v))
    (rep_with_arena _ _ _ Hr) (enc_ok _ Hp)) as (sl' & before & after & -> & (-> & _) & Hr' & Hc').
  { intros x a Hx Ea. assert (a ∈ map enc es) as Hin by (rewrite <- Hc; apply elem_of_contents; eauto).
    apply list_elem_of_In, in_map_iff in Hin as (e & <- & Hin%list_elem_of_In).
    rewrite Forall_forall in Hok. apply KeyComparator_neq; [by apply Hok|done|by apply Hf]. }
  bind_simpl. eexists. split; [reflexivity|]. split_and!.
  - apply Forall_app. split; [done|]. by apply Forall_singleton.
  - by apply ForallOrdPairs_snoc.
  - eexists. split; [exact Hr'|]. cbn [table_]. rewrite Hc'.
    change (contents (with_arena ?sl ?a)) with (contents sl).
    rewrite map_app. cbn [map]. rewrite <- Permutation_middle, <- Permutation_cons_append.
    constructor. by rewrite <- Hc, contents_app.
Qed.

Lemma add_all_ok es m es0 :
  mem_rep m es0 -> Forall entry_ok es -> ForallOrdPairs fresh_pair (es0 ++ es) ->
  exists m', add_all ucmp m es = Some m' /\ mem_rep m' (es0 ++ es).
Proof.
  revert m es0. induction es as [|[p v] es IH]; intros m es0 Hm Hok Hd.
  { exists m. by rewrite app_nil_r. }
  inversion_clear Hok as [|? ? Hp Hok']. cbn [add_all].
  destruct (Add_ok m es0 p v Hm Hp) as (m' & -> & Hm').
  { intros e He. clear -Hd He. induction es0 as [|a es0 IH]; [set_solver|]. cbn in Hd.
    inversion_clear Hd as [|? ? Ha Hd']. apply elem_of_cons in He as [->|He]; [|by apply IH].
    rewrite Forall_forall in Ha. apply Ha. set_solver. }
  bind_simpl. destruct (IH m' (es0 ++ [(p, v)]) Hm' Hok') as (m'' & E & Hm'').
  { by rewrite <- app_assoc. }
  exists m''. by rewrite <- app_assoc in Hm''.
Qed.

(** ** The newest version *)

Definition visible (u : bytes) (s : Z) (e : mem_entry) : Prop := user_key e.1 = u /\ sequence e.1 <= s.

Lemma visible_dec u s (e : mem_entry) :
  bool_decide (user_key e.1 = u) && (sequence e.1 <=? s) = true <-> visible u s e.
Proof. unfold visible. rewrite andb_true_iff, bool_decide_eq_true, Z.leb_le. done. Qed.

Lemma newest_none es u s : (forall e, e ∈ es -> ~ visible u s e) -> newest es u s = None.
Proof.
  induction es as [|e es IH]; intros Hn; [done|]. cbn [newest].
  destruct (bool_decide _ && _) eqn:E; [apply visible_dec in E; exfalso; apply (Hn e); [left|done]|].
  apply IH. intros. apply Hn. by right.
Qed.

Lemma newest_visible es u s e : newest es u s = Some e -> e ∈ es /\ visible u s e.
Proof.
  revert e. induction es as [|a es IH]; intros e; [done|]. cbn [newest].
  destruct (bool_decide _ && _) eqn:E; [|intros He%IH; set_solver].
  apply visible_dec in E. destruct (newest es u s) as [q|]; [|intros [= ->]; split; [left|done]].
  case_match; [intros [= ->]; split; [left|done]|]. intros He. destruct (IH e He). split; [by right|done].
Qed.

(** The maximum by sequence number is found. *)
Lemma newest_max es u s e :
  e ∈ es -> visible u s e -> (forall q, q ∈ es -> visible u s q -> q = e \/ sequence q.1 < sequence e.1) ->
  newest es u s = Some e.
Proof.
  induction es as [|a es IH]; intros He Hv Hmax; [set_solver|]. cbn [newest].
  destruct (decide (e ∈ es)) as [Hin|Hin].
  - rewrite (IH Hin Hv) by (intros; apply Hmax; [by right|done]).
    destruct (bool_decide _ && _) eqn:E; [|done]. apply visible_dec in E.
    destruct (Hmax a ltac:(left) E) as [->|Hlt]; [by rewrite Z.ltb_irrefl|].
    by rewrite (proj2 (Z.ltb_ge _ _)) by lia.
  - apply elem_of_cons in He as [<-|]; [|done]. rewrite (proj2 (visible_dec u s e) Hv).
    destruct (newest es u s) as [q|] eqn:En; [|done]. apply newest_visible in En as [Hq Hqv].
    destruct (Hmax q ltac:(by right) Hqv) as [->|Hlt]; [done|]. by rewrite (proj2 (Z.ltb_lt _ _)).
Qed.

(** ** Get *)

Lemma memtable_key_mkey u s : Zlength u + 8 < 2 ^ 32 ->
  memtable_key (LookupKey_new u s) = mkey (MkParsedInternalKey u s kValueTypeForSeek) [].
Proof.
  intros Hl. pose proof (Zlength_nonneg u). unfold memtable_key, LookupKey_new, mkey. cbn [lk_data user_key].
  rewrite u32_small by (unfold is_u32; lia). by rewrite AppendInternalKey_nil, app_nil_r.
Qed.

(** What [Get] reads out of the entry it lands on. *)
Lemma Get_entry p v : entry_ok (p, v) ->
  GetVarint32Ptr (enc (p, v)) = Some (Zlength (user_key p) + 8, AppendInternalKey [] p ++ value_bytes v) /\
  take (Z.to_nat (Zlength (user_key p) + 8 - 8)) (AppendInternalKey [] p ++ value_bytes v) = user_key p /\
  Z.land (DecodeFixed64 (drop (Z.to_nat (Zlength (user_key p) + 8 - 8)) (AppendInternalKey [] p ++ value_bytes v))) 255
    = ValueType_to_Z (type p) /\
  GetLengthPrefixedSliceAt (drop (Z.to_nat (Zlength (user_key p) + 8)) (AppendInternalKey [] p ++ value_bytes v)) = Some (v, []).
Proof.
  intros Hp. pose proof Hp as (Hs & Hk & Hv). cbn [fst snd] in *.
  replace (Zlength (user_key p) + 8 - 8) with (Zlength (user_key p)) by lia. split_and!.
  - rewrite enc_mkey by done. by apply mkey_head.
  - rewrite AppendInternalKey_nil, <- app_assoc. apply take_Zlength_app.
  - rewrite AppendInternalKey_nil, <- app_assoc, drop_Zlength_app, DecodeFixed64_app.
    rewrite u64_small by by apply Pack_range. rewrite Pack_val by done.
    change 255 with (Z.ones 8). rewrite Z.land_ones by lia. change (2 ^ 8) with 256.
    rewrite Z.add_comm, Z.mod_add by lia. apply Z.mod_small. pose proof (ValueType_range (type p)). lia.
  - rewrite <- ikey_Zlength, drop_Zlength_app. by apply value_decode.
Qed.

Lemma enc_inj e e' : entry_ok e -> entry_ok e' -> enc e = enc e' -> e = e'.
Proof.
  intros He He' E. rewrite !enc_mkey in E by done.
  destruct He as (Hs & Hk & Hv), He' as (Hs' & Hk' & Hv').
  apply (f_equal GetLengthPrefixedSliceAt) in E. rewrite !mkey_decode in E by done. injection E as Ek Ev.
  apply (f_equal ParseInternalKey) in Ek. rewrite !Parse_Append in Ek by done.
  apply (f_equal GetLengthPrefixedSliceAt) in Ev. rewrite !value_decode in Ev by done.
  destruct e, e'; cbn in *. congruence.
Qed.

(** The seek target against an entry. *)
Lemma target_le e u s : entry_ok e -> seq_ok s -> Zlength u + 8 < 2 ^ 32 ->
  KeyComparator ucmp (enc e) (mkey (MkParsedInternalKey u s kValueTypeForSeek) []) >= 0 <->
  Compare ucmp u (user_key e.1) < 0 \/ visible u s e.
Proof.
  intros He Hs Hu. rewrite enc_mkey by done. destruct He as (Hse & Hk & _).
  rewrite KeyComparator_mkey by done.
  rewrite <- (to_flip_le (InternalKeyCompare ucmp) any_key) by done.
  rewrite lookup_key_seek by done. unfold visible. naive_solver.
Qed.

(** Entries that follow one another in the table. *)
Lemma enc_lt e e' : entry_ok e -> entry_ok e' -> KeyComparator ucmp (enc e) (enc e') < 0 ->
  Compare ucmp (user_key e.1) (user_key e'.1) < 0 \/
  (user_key e.1 = user_key e'.1 /\ sequence e'.1 <= sequence e.1).
Proof.
  intros He He'. rewrite !enc_mkey by done. destruct He as (Hs & Hk & _), He' as (Hs' & Hk' & _).
  rewrite KeyComparator_mkey, icmp_lt, !AppendInternalKey_nil, !ExtractUserKey_app by done.
  rewrite !ExtractTag_app, !Pack_val by (done || by apply Pack_range).
  pose proof (ValueType_range (type e.1)). pose proof (ValueType_range (type e'.1)).
  intros [?|[? ?]]; [by left|right; split; [done|lia]].
Qed.

Lemma fresh_in es e e' : ForallOrdPairs fresh_pair es -> e ∈ es -> e' ∈ es ->
  e' = e \/ (user_key e'.1 = user_key e.1 -> sequence e'.1 <> sequence e.1).
Proof.
  intros Hd He He'. apply list_elem_of_In in He, He'.
  destruct (ForallOrdPairs_In Hd _ _ He He') as [->|[Hf|Hf]]; [by left|right..];
    unfold fresh_pair in Hf; intros E E'; apply Hf; congruence.
Qed.

(** The first entry at or past the target decides. *)
Lemma newest_head es u s e rest :
  Forall entry_ok es -> ForallOrdPairs fresh_pair es -> e ∈ es ->
  (forall q, q ∈ es -> visible u s q -> enc q ∈ enc e :: rest) ->
  (forall k, k ∈ rest -> KeyComparator ucmp (enc e) k < 0) ->
  Compare ucmp u (user_key e.1) < 0 \/ visible u s e ->
  newest es u s = if Compare ucmp (user_key e.1) u =? 0 then Some e else None.
Proof.
  intros Hok Hd He Hvis Hrest Hcase. rewrite Forall_forall in Hok.
  assert (forall q, q ∈ es -> visible u s q -> q = e \/
    Compare ucmp (user_key e.1) u < 0 \/ (user_key e.1 = u /\ sequence q.1 < sequence e.1)) as Hq.
  { intros q Hqin [Hqu Hqs]. destruct (fresh_in es e q Hd He Hqin) as [->|Hf]; [by left|].
    pose proof (Hvis q Hqin (conj Hqu Hqs)) as [Eq|Hin]%elem_of_cons.
    - left. apply enc_inj; auto.
    - right. apply Hrest, enc_lt in Hin as [?|[Eu Hle]]; auto; [left; congruence|right].
      split; [congruence|]. specialize (Hf ltac:(congruence)). lia. }
  destruct Hcase as [Hlt|Hv].
  - pose proof (ucmp_sgn ucmp u (user_key e.1)). rewrite (proj2 (Z.eqb_neq _ _)) by lia.
    apply newest_none. intros q Hqin Hqv. destruct (Hq q Hqin Hqv) as [->|[?|[Eu _]]].
    + destruct Hqv as [Eu _]. rewrite Eu in *. rewrite (proj2 (ucmp_eq ucmp u u) eq_refl) in Hlt. lia.
    + lia.
    + rewrite Eu, (proj2 (ucmp_eq ucmp u u) eq_refl) in Hlt. lia.
  - pose proof Hv as [Eu _]. rewrite (proj2 (Z.eqb_eq _ _)) by (by apply ucmp_eq).
    apply newest_max; [done|done|]. intros q Hqin Hqv.
    destruct (Hq q Hqin Hqv) as [->|[Hlt|[_ ?]]]; [by left| |by right].
    rewrite Eu, (proj2 (ucmp_eq ucmp u u) eq_refl) in Hlt. lia.
Qed.

(** The answer [Get] computes from the entry it lands on. *)
Lemma Get_read p v u value st : entry_ok (p, v) ->
  ('(key_length, key_ptr) ← GetVarint32Ptr (enc (p, v));
   if Compare ucmp (take (Z.to_nat (key_length - 8)) key_ptr) u =? 0 then
     let tag := DecodeFixed64 (drop (Z.to_nat (key_length - 8)) key_ptr) in
     if Z.land tag 255 =? ValueType_to_Z kTypeValue then
       '(v, _) ← GetLengthPrefixedSliceAt (drop (Z.to_nat key_length) key_ptr);
       Some (true, v, st)
     else if Z.land tag 255 =? ValueType_to_Z kTypeDeletion then
       Some (true, value, Status_NotFound [] [])
     else Some (false, value, st)
   else Some (false, value, st)) =
  Some (get_answer (if Compare ucmp (user_key p) u =? 0 then Some (p, v) else None) value st).
Proof.
  intros Hp. destruct (Get_entry p v Hp) as (-> & E1 & E2 & E3). bind_simpl.
  rewrite E1. destruct (Compare ucmp (user_key p) u =? 0); [|done]. cbv zeta. rewrite E2, E3.
  bind_simpl. unfold get_answer. by destruct (type p).
Qed.

Lemma Get_ok m es u s value st :
  mem_rep m es -> seq_ok s -> Zlength u + 8 < 2 ^ 32 ->
  Get ucmp m (LookupKey_new u s) value st = Some (get_answer (newest es u s) value st).
Proof.
  intros (Hok & Hd & ids & Hr & Hc) Hs Hu. unfold Get. rewrite memtable_key_mkey, LookupKey_user_key by done.
  set (lk := mkey (MkParsedInternalKey u s kValueTypeForSeek) []).
  destruct (rep_splits (KeyComparator ucmp) mkey_ok (table_ m) ids lk Hr) as (before & after & Hsp).
  { by exists (MkParsedInternalKey u s kValueTypeForSeek), []. }
  unfold SkipList.Iterator_Seek.
  destruct (FindGreaterOrEqual_ok (KeyComparator ucmp) mkey_ok (table_ m) ids _ before after [] Hr Hsp) as (prev & -> & _).
  bind_simpl. pose proof Hsp as (Ei & Hb & Ha). pose proof Hok as Hok'. rewrite Forall_forall in Hok'.
  assert (forall q, q ∈ es -> visible u s q -> enc q ∈ contents (table_ m) after) as Hvis.
  { intros q Hq Hv. assert (enc q ∈ contents (table_ m) ids) as Hin.
    { rewrite Hc. apply list_elem_of_In, in_map, list_elem_of_In, Hq. }
    rewrite Ei, contents_app in Hin. apply elem_of_app in Hin as [Hin|]; [|done]. exfalso.
    apply elem_of_contents in Hin as (x & Hx & Ex). destruct (Hb x Hx) as (a & Ea & Hlt).
    assert (a = enc q) as -> by congruence.
    assert (KeyComparator ucmp (enc q) lk >= 0) by (apply target_le; auto). lia. }
  destruct after as [|x after]; cbn [head SkipList.Iterator_Valid].
  { rewrite newest_none; [done|]. intros q Hq Hv. by apply Hvis, elem_of_nil in Hv. }
  destruct (Ha x ltac:(left)) as (a & Ea & Hge). unfold SkipList.Iterator_key. bind_simpl.
  rewrite Ea. bind_simpl.
  assert (exists e, e ∈ es /\ a = enc e) as ([p v] & He & ->).
  { assert (a ∈ map enc es) as Hin.
    { rewrite <- Hc. apply elem_of_contents. exists x. split; [rewrite Ei; set_solver|done]. }
    apply list_elem_of_In, in_map_iff in Hin as (e & <- & Hin%list_elem_of_In). eauto. }
  rewrite Get_read by auto. do 2 f_equal.
  pose proof (contents_sorted (KeyComparator ucmp) mkey_ok _ _ Hr) as Hsort. rewrite Ei, contents_app in Hsort.
  apply StronglySorted_app_r in Hsort.
  assert (contents (table_ m) (x :: after) = enc (p, v) :: contents (table_ m) after) as Econ
    by (unfold contents; by rewrite omap_cons, Ea).
  rewrite Econ in *. inversion_clear Hsort as [|? ? _ Hf]. rewrite Forall_forall in Hf.
  symmetry. apply (newest_head es u s (p, v) (contents (table_ m) after)); auto.
  apply target_le; auto.
Qed.
End Laws.

(** ** Properties *)

(** C2: A memtable is a versioned map.  After any sequence of [Add]s (with at
    most one entry per user key and sequence number, as the write path assigns
    them), none of which fails, [Get] at a snapshot answers with the newest
    version of the user key written at or before it: its value, "not found" if
    that version is a deletion, and [false] if there is none. *)
Theorem MemTable_Get_newest (ucmp : Comparator) `{!ComparatorLaws ucmp any_key} `{HeapAlloc}
    (es : list mem_entry) (u : bytes) (s : Z) (value : bytes) (st : Status) :
  Forall entry_ok es -> ForallOrdPairs fresh_pair es -> seq_ok s -> Zlength u + 8 < 2 ^ 32 ->
  exists m, add_all ucmp MemTable_new es = Some m /\
    Get ucmp m (LookupKey_new u s) value st = Some (get_answer (newest es u s) value st).
Proof.
  intros Hok Hd Hs Hu. destruct (add_all_ok ucmp es MemTable_new [] (MemTable_new_rep ucmp) Hok Hd) as (m & E & Hm).
  exists m. split; [done|]. by apply Get_ok.
Qed.

Lemma MemTable_Get_newest_witness :
  exists m, add_all (H := BumpHeap) BytewiseComparator (MemTable_new (H := BumpHeap))
      [(MkParsedInternalKey (str "k") 5 kTypeValue, str "old"); (MkParsedInternalKey (str "k") 7 kTypeDeletion, []);
       (MkParsedInternalKey (str "k") 9 kTypeValue, str "new")] = Some m /\
    Get BytewiseComparator m (LookupKey_new (str "k") 8) [] Status_OK = Some (true, [], Status_NotFound [] []).
Proof.
  apply (MemTable_Get_newest (H := BumpHeap) BytewiseComparator
    [(MkParsedInternalKey (str "k") 5 kTypeValue, str "old"); (MkParsedInternalKey (str "k") 7 kTypeDeletion, []);
     (MkParsedInternalKey (str "k") 9 kTypeValue, str "new")] (str "k") 8 [] Status_OK).
  - repeat constructor; unfold seq_ok; rewrite ?kMaxSequenceNumber_val; cbn; lia.
  - repeat constructor; intros _; cbn; lia.
  - unfold seq_ok. rewrite kMaxSequenceNumber_val. lia.
  - reflexivity.
Defined.
