(* ===== verification/WriteBatch.v ===== *)
(** db/write_batch.cpp, db/write_batch_internal.h: the serialised batch of
    updates, and its application to a memtable.

    [rep_] is an 8-byte sequence number, a 4-byte count and the records.  The
    iterating side takes a handler as a record of operations on a state, as the
    virtual [Handler] class does. *)

From Stdlib Require Import ZArith Lia List Bool String.
From S2P Require Import Prelude Coding Slice Comparator Bloom DbFormat Arena SkipList MemTable.

Definition kHeader : Z := 12.

(** [rep_] *)
Abbreviation WriteBatch := bytes.

Definition WriteBatch_Clear : WriteBatch := replicate (Z.to_nat kHeader) Byte.x00.

Definition WriteBatch_new : WriteBatch := WriteBatch_Clear.

Module WriteBatchInternal.

(** [int]: the 32-bit word, reinterpreted. *)
Definition Count (b : WriteBatch) : Z := s32 (DecodeFixed32 (drop 8 b)).

Definition SetCount (b : WriteBatch) (n : Z) : WriteBatch := take 8 b ++ EncodeFixed32 (u32 n) ++ drop 12 b.

Definition Sequence (b : WriteBatch) : Z := DecodeFixed64 b.

Definition SetSequence (b : WriteBatch) (seq : Z) : WriteBatch := EncodeFixed64 seq ++ drop 8 b.

Definition Contents (b : WriteBatch) : bytes := b.

Definition ByteSize (b : WriteBatch) : Z := Zlength b.

(** [None]: the assertion fails. *)
Definition SetContents (contents : bytes) : option WriteBatch :=
  if Zlength contents <? kHeader then None else Some contents.

Definition Append (dst src : WriteBatch) : option WriteBatch :=
  let dst := SetCount dst (Count dst + Count src) in
  if Zlength src <? kHeader then None else Some (dst ++ drop (Z.to_nat kHeader) src).

End WriteBatchInternal.

Import WriteBatchInternal.

Definition Put (b : WriteBatch) (key value : bytes) : WriteBatch :=
  let b := SetCount b (Count b + 1) in
  PutLengthPrefixedSlice (PutLengthPrefixedSlice (b ++ [Zb (ValueType_to_Z kTypeValue)]) key) value.

Definition Delete (b : WriteBatch) (key : bytes) : WriteBatch :=
  let b := SetCount b (Count b + 1) in
  PutLengthPrefixedSlice (b ++ [Zb (ValueType_to_Z kTypeDeletion)]) key.

(** ** WriteBatch::Iterate *)

(** A handler whose calls may run into undefined behaviour ([None]). *)
Record Handler (S : Type) := MkHandler {
  h_Put : S -> bytes -> bytes -> option S;
  h_Delete : S -> bytes -> option S
}.
Arguments h_Put {S}.
Arguments h_Delete {S}.
Arguments MkHandler {S}.

(** The [while (!input.empty())] loop: each pass consumes the tag byte, so the
    length of the input is enough fuel.  The first [option] is fuel and
    undefined behaviour of the handler, the result is the status on an early
    return, else the number of records found. *)
Fixpoint Iterate_loop {S} (h : Handler S) (fuel : nat) (st : S) (input : bytes) (found : Z)
    : option ((Status + Z) * S) :=
  match input with
  | [] => Some (inr found, st)
  | tag :: input =>
      match fuel with
      | O => None
      | Datatypes.S fuel' =>
          let found := found + 1 in
          if schar tag =? ValueType_to_Z kTypeValue then
            match GetLengthPrefixedSlice input with
            | None => Some (inl (Status_Corruption (str "bad WriteBatch Put") []), st)
            | Some (key, input) =>
                match GetLengthPrefixedSlice input with
                | None => Some (inl (Status_Corruption (str "bad WriteBatch Put") []), st)
                | Some (value, input) =>
                    match h_Put h st key value with
                    | None => None
                    | Some st => Iterate_loop h fuel' st input found
                    end
                end
            end
          else if schar tag =? ValueType_to_Z kTypeDeletion then
            match GetLengthPrefixedSlice input with
            | None => Some (inl (Status_Corruption (str "bad WriteBatch Delete") []), st)
            | Some (key, input) =>
                match h_Delete h st key with
                | None => None
                | Some st => Iterate_loop h fuel' st input found
                end
            end
          else Some (inl (Status_Corruption (str "unknown WriteBatch tag") []), st)
      end
  end.

Definition Iterate {S} (h : Handler S) (b : WriteBatch) (st : S) : option (Status * S) :=
  if Zlength b <? kHeader then
    Some (Status_Corruption (str "malformed WriteBatch (too small)") [], st)
  else
    let input := Slice.remove_prefix b kHeader in
    match Iterate_loop h (length input) st input 0 with
    | None => None
    | Some (inl s, st) => Some (s, st)
    | Some (inr found, st) =>
        if negb (found =? Count b) then
          Some (Status_Corruption (str "WriteBatch has wrong count") [], st)
        else Some (Status_OK, st)
    end.

(** ** MemTableInserter: the state is [(sequence_, mem_)] *)

Section Inserter.
Context (ucmp : Comparator) `{H : HeapAlloc}.

Definition MemTableInserter : Handler (Z * MemTable) := {|
  h_Put := fun '(seq, mem) key value =>
    mem ← Add ucmp mem seq kTypeValue key value; Some (u64 (seq + 1), mem);
  h_Delete := fun '(seq, mem) key =>
    mem ← Add ucmp mem seq kTypeDeletion key []; Some (u64 (seq + 1), mem)
|}.

Definition InsertInto (b : WriteBatch) (memtable : MemTable) : option (Status * MemTable) :=
  match Iterate MemTableInserter b (Sequence b, memtable) with
  | None => None
  | Some (s, (_, mem)) => Some (s, mem)
  end.

End Inserter.

(** ** Specification *)

Inductive update := UPut (key value : bytes) | UDelete (key : bytes).

Definition apply_update (b : WriteBatch) (u : update) : WriteBatch :=
  match u with UPut k v => Put b k v | UDelete k => Delete b k end.

(** The batch built by these calls. *)
Definition build (us : list update) : WriteBatch := fold_left apply_update us WriteBatch_new.

Definition handle {S} (h : Handler S) (st : S) (u : update) : option S :=
  match u with UPut k v => h_Put h st k v | UDelete k => h_Delete h st k end.

Fixpoint handle_all {S} (h : Handler S) (st : S) (us : list update) : option S :=
  match us with
  | [] => Some st
  | u :: us => match handle h st u with Some st => handle_all h st us | None => None end
  end.

(** The record a call appends. *)
Definition update_bytes (u : update) : bytes :=
  match u with
  | UPut k v => [Byte.x01] ++ PutLengthPrefixedSlice [] k ++ PutLengthPrefixedSlice [] v
  | UDelete k => [Byte.x00] ++ PutLengthPrefixedSlice [] k
  end.

Definition update_ok (u : update) : Prop :=
  match u with
  | UPut k v => Zlength k < 2 ^ 32 /\ Zlength v < 2 ^ 32
  | UDelete k => Zlength k < 2 ^ 32
  end.

(** The entries an update list becomes when numbered from [seq]. *)
Fixpoint numbered (seq : Z) (us : list update) : list mem_entry :=
  match us with
  | [] => []
  | UPut k v :: us => (MkParsedInternalKey k seq kTypeValue, v) :: numbered (seq + 1) us
  | UDelete k :: us => (MkParsedInternalKey k seq kTypeDeletion, []) :: numbered (seq + 1) us
  end.

(** ** Lemmas *)

(** The layout of a batch that holds [us]. *)
Definition batch_bytes (seq : Z) (us : list update) : bytes :=
  EncodeFixed64 seq ++ EncodeFixed32 (Zlength us) ++ concat (map update_bytes us).

Lemma batch_header seq us :
  Sequence (batch_bytes seq us) = u64 seq /\
  DecodeFixed32 (drop 8 (batch_bytes seq us)) = u32 (Zlength us) /\
  take 8 (batch_bytes seq us) = EncodeFixed64 seq /\
  drop 8 (batch_bytes seq us) = EncodeFixed32 (Zlength us) ++ concat (map update_bytes us) /\
  drop 12 (batch_bytes seq us) = concat (map update_bytes us).
Proof.
  assert (drop 8 (batch_bytes seq us) = EncodeFixed32 (Zlength us) ++ concat (map update_bytes us)) as E8.
  { unfold batch_bytes. apply drop_app_length'. by rewrite EncodeFixed64_length. }
  split_and!; [apply DecodeFixed64_app| | |done|].
  - rewrite E8. apply DecodeFixed32_app.
  - unfold batch_bytes. apply take_app_length'. by rewrite EncodeFixed64_length.
  - change 12%nat with (8 + 4)%nat. rewrite <- drop_drop, E8.
    apply drop_app_length'. by rewrite EncodeFixed32_length.
Qed.

Lemma Count_ok seq us : Zlength us < 2 ^ 31 -> Count (batch_bytes seq us) = Zlength us.
Proof.
  intros Hl. pose proof (Zlength_nonneg us). unfold Count.
  destruct (batch_header seq us) as (_ & -> & _). rewrite u32_small by (unfold is_u32; lia).
  apply s32_small. lia.
Qed.

Lemma build_new : WriteBatch_new = batch_bytes 0 [].
Proof. reflexivity. Qed.

Lemma SetCount_ok seq us n : 0 <= n < 2 ^ 32 ->
  SetCount (batch_bytes seq us) n = EncodeFixed64 seq ++ EncodeFixed32 n ++ concat (map update_bytes us).
Proof.
  intros Hn. unfold SetCount. destruct (batch_header seq us) as (_ & _ & -> & _ & ->).
  by rewrite u32_small.
Qed.

Lemma concat_snoc {A} (l : list (list A)) x : concat (l ++ [x]) = concat l ++ x.
Proof. rewrite concat_app. cbn. by rewrite app_nil_r. Qed.

Lemma apply_update_ok seq us u : Zlength us + 1 < 2 ^ 31 ->
  apply_update (batch_bytes seq us) u = batch_bytes seq (us ++ [u]).
Proof.
  intros Hl. pose proof (Zlength_nonneg us). unfold batch_bytes at 2.
  rewrite Zlength_app, map_app. cbn [map]. rewrite concat_snoc. change (Zlength [u]) with 1.
  destruct u as [k v|k]; cbn [apply_update]; unfold Put, Delete;
    rewrite Count_ok, SetCount_ok by lia; cbn [update_bytes];
    rewrite (PutLengthPrefixedSlice_app (_ ++ _));
    [rewrite (PutLengthPrefixedSlice_app ((_ ++ _) ++ _))|]; by rewrite <- !app_assoc.
Qed.

Lemma build_app us seq vs : Zlength (us ++ vs) < 2 ^ 31 ->
  fold_left apply_update vs (batch_bytes seq us) = batch_bytes seq (us ++ vs).
Proof.
  revert us. induction vs as [|v vs IH]; intros us Hl; [by rewrite app_nil_r|].
  cbn [fold_left]. rewrite Zlength_app, Zlength_cons in Hl. pose proof (Zlength_nonneg vs).
  rewrite apply_update_ok by lia. rewrite IH; [by rewrite <- app_assoc|].
  rewrite <- app_assoc. cbn [app]. rewrite Zlength_app, Zlength_cons. lia.
Qed.

Lemma build_ok us : Zlength us < 2 ^ 31 -> build us = batch_bytes 0 us.
Proof. intros Hl. unfold build. rewrite build_new. by apply (build_app [] 0 us). Qed.

Lemma SetSequence_ok seq seq' us : SetSequence (batch_bytes seq us) seq' = batch_bytes seq' us.
Proof. unfold SetSequence. destruct (batch_header seq us) as (_ & _ & _ & -> & _). done. Qed.

Lemma Append_ok seq us seq' vs : Zlength (us ++ vs) < 2 ^ 31 ->
  Append (batch_bytes seq us) (batch_bytes seq' vs) = Some (batch_bytes seq (us ++ vs)).
Proof.
  intros Hl. rewrite Zlength_app in Hl. pose proof (Zlength_nonneg us). pose proof (Zlength_nonneg vs).
  unfold Append. rewrite !Count_ok, SetCount_ok by lia.
  assert ((Zlength (batch_bytes seq' vs) <? kHeader) = false) as ->.
  { apply Z.ltb_ge. unfold batch_bytes, kHeader, Zlength.
    rewrite !length_app, EncodeFixed64_length, EncodeFixed32_length. lia. }
  destruct (batch_header seq' vs) as (_ & _ & _ & _ & E). change (Z.to_nat kHeader) with 12%nat. rewrite E.
  unfold batch_bytes at 1. rewrite Zlength_app, map_app, concat_app. by rewrite <- !app_assoc.
Qed.

Section Iterate.
Context {S : Type} (h : Handler S).

Lemma Iterate_loop_ok us st found fuel :
  Forall update_ok us -> (length us <= fuel)%nat ->
  Iterate_loop h fuel st (concat (map update_bytes us)) found =
  match handle_all h st us with Some st' => Some (inr (found + Zlength us), st') | None => None end.
Proof.
  intros Hok. revert st found fuel. induction Hok as [|u us Hu Hok IH]; intros st found fuel Hf.
  - destruct fuel; cbn; by rewrite Z.add_0_r.
  - destruct fuel as [|fuel]; [cbn in Hf; lia|]. cbn [map concat handle_all].
    assert (forall st', Iterate_loop h fuel st' (concat (map update_bytes us)) (found + 1) =
      match handle_all h st' us with Some st'' => Some (inr (found + Zlength (u :: us)), st'') | None => None end) as IH'.
    { intros st'. rewrite IH by (cbn in Hf; lia). rewrite Zlength_cons. by rewrite <- Z.add_assoc. }
    destruct u as [k v|k]; cbn [update_bytes handle] in *.
    + destruct Hu as [Hk Hv]. rewrite <- !app_assoc. cbn [app Iterate_loop].
      change (schar Byte.x01 =? ValueType_to_Z kTypeValue) with true. cbn iota.
      rewrite !GetLengthPrefixedSlice_put by (split; [apply Zlength_nonneg|done]).
      destruct (h_Put h st k v); [apply IH'|done].
    + rewrite <- !app_assoc. cbn [app Iterate_loop].
      change (schar Byte.x00 =? ValueType_to_Z kTypeValue) with false.
      change (schar Byte.x00 =? ValueType_to_Z kTypeDeletion) with true. cbn iota.
      rewrite !GetLengthPrefixedSlice_put by (split; [apply Zlength_nonneg|done]).
      destruct (h_Delete h st k); [apply IH'|done].
Qed.

Lemma concat_update_length us : (length us <= length (concat (map update_bytes us)))%nat.
Proof.
  induction us as [|u us IH]; [done|]. cbn [map concat length]. rewrite length_app.
  assert (1 <= length (update_bytes u))%nat by (destruct u; cbn; lia). lia.
Qed.

Lemma Iterate_ok seq us st :
  Forall update_ok us -> Zlength us < 2 ^ 31 ->
  Iterate h (batch_bytes seq us) st =
  match handle_all h st us with Some st' => Some (Status_OK, st') | None => None end.
Proof.
  intros Hok Hl. unfold Iterate.
  assert ((Zlength (batch_bytes seq us) <? kHeader) = false) as ->.
  { apply Z.ltb_ge. unfold batch_bytes, kHeader, Zlength.
    rewrite !length_app, EncodeFixed64_length, EncodeFixed32_length. lia. }
  unfold Slice.remove_prefix. change (Z.to_nat kHeader) with 12%nat.
  destruct (batch_header seq us) as (_ & _ & _ & _ & ->).
  rewrite Iterate_loop_ok by (done || apply concat_update_length).
  destruct (handle_all h st us); [|done]. by rewrite Count_ok, Z.eqb_refl by done.
Qed.

(** What the loop does with arbitrary bytes. *)
Lemma Iterate_loop_total fuel st input found :
  (forall st u, is_Some (handle h st u)) -> (length input <= fuel)%nat ->
  exists us st' r, Iterate_loop h fuel st input found = Some (r, st') /\
    handle_all h st us = Some st' /\
    match r with inr n => n = found + Zlength us | inl s => IsCorruption s = true end.
Proof.
  intros Htot. revert st input found. induction fuel as [|fuel IH]; intros st input found Hf.
  - destruct input; [|cbn in Hf; lia]. exists [], st, (inr found). split_and!; [done|done|].
    change (@Zlength update []) with 0. lia.
  - destruct input as [|tag input]; cbn [Iterate_loop].
    { exists [], st, (inr found). split_and!; [done|done|]. change (@Zlength update []) with 0. lia. }
    assert (forall s, IsCorruption s = true -> exists us st' r,
      Some (@inl Status Z s, st) = Some (r, st') /\ handle_all h st us = Some st' /\
      match r with inr n => n = found + Zlength us | inl s => IsCorruption s = true end) as Herr.
    { intros s Hs. by exists [], st, (inl s). }
    assert (forall u rest, (length rest <= length input)%nat -> exists us st' r,
      match handle h st u with None => None | Some st => Iterate_loop h fuel st rest (found + 1) end = Some (r, st') /\
      handle_all h st us = Some st' /\
      match r with inr n => n = found + Zlength us | inl s => IsCorruption s = true end) as Hgo.
    { intros u rest Hr. destruct (Htot st u) as [st1 E1]. rewrite E1.
      destruct (IH st1 rest (found + 1)) as (us & st' & r & E & Hh & Hres); [cbn in Hf; lia|].
      exists (u :: us), st', r. cbn [handle_all]. rewrite E1. split_and!; [done|done|].
      destruct r; [done|]. rewrite Zlength_cons. lia. }
    assert (forall p s rest, GetLengthPrefixedSlice p = Some (s, rest) -> (length rest <= length p)%nat) as Hlen.
    { intros p s rest E. pose proof (GetLengthPrefixedSlice_spec p s rest E) as Hx.
      destruct Hx as (pre & -> & _). rewrite !length_app. lia. }
    case_match.
    + destruct (GetLengthPrefixedSlice input) as [[k r1]|] eqn:E1; [|by apply Herr].
      destruct (GetLengthPrefixedSlice r1) as [[v r2]|] eqn:E2; [|by apply Herr].
      apply (Hgo (UPut k v)). apply Hlen in E1, E2. lia.
    + case_match; [|by apply Herr].
      destruct (GetLengthPrefixedSlice input) as [[k r1]|] eqn:E1; [|by apply Herr].
      apply (Hgo (UDelete k)). by apply Hlen in E1.
Qed.
End Iterate.

(** ** Insertion into a memtable *)

Section InsertLemmas.
Context (ucmp : Comparator) `{!ComparatorLaws ucmp any_key} `{HA : HeapAlloc}.

Definition update_fits (u : update) : Prop :=
  match u with
  | UPut k v => Zlength k + 8 < 2 ^ 32 /\ Zlength v < 2 ^ 32
  | UDelete k => Zlength k + 8 < 2 ^ 32
  end.

Lemma update_fits_ok us : Forall update_fits us -> Forall update_ok us.
Proof. intros Hf. eapply Forall_impl; [exact Hf|]. intros [k v|k]; cbn; lia. Qed.

(** Sequence numbers of the entries are below [seq]. *)
Definition older (seq : Z) (es : list mem_entry) : Prop := Forall (fun e => sequence e.1 < seq) es.

Lemma older_succ seq es : older seq es -> older (seq + 1) es.
Proof. intros Hf. eapply Forall_impl; [exact Hf|]. intros e He. cbn beta in *. lia. Qed.

Lemma numbered_cons seq u us :
  numbered seq (u :: us) =
  match u with
  | UPut k v => (MkParsedInternalKey k seq kTypeValue, v)
  | UDelete k => (MkParsedInternalKey k seq kTypeDeletion, [])
  end :: numbered (seq + 1) us.
Proof. by destruct u. Qed.

Lemma handle_inserter m es seq u :
  mem_rep ucmp m es -> older seq es -> 0 <= seq < kMaxSequenceNumber -> update_fits u ->
  exists m', handle (MemTableInserter ucmp) (seq, m) u = Some (seq + 1, m') /\
    mem_rep ucmp m' (es ++ numbered seq [u]).
Proof.
  intros Hm Ho Hs Hu.
  assert (forall p v, sequence p = seq -> entry_ok (p, v) ->
    exists m', Add ucmp m seq (type p) (user_key p) v = Some m' /\ mem_rep ucmp m' (es ++ [(p, v)])) as Hadd.
  { intros p v <- Hp. apply Add_ok; [done|done|done|]. intros e He _. unfold older in Ho.
    rewrite Forall_forall in Ho. specialize (Ho e He). cbn. lia. }
  assert (u64 (seq + 1) = seq + 1) as Eu.
  { apply u64_small. unfold is_u64. rewrite kMaxSequenceNumber_val in Hs. lia. }
  assert (seq_ok seq) as Hseq by (unfold seq_ok; lia).
  destruct u as [k v|k]; cbn [handle MemTableInserter h_Put h_Delete numbered update_fits] in *.
  - destruct (Hadd (MkParsedInternalKey k seq kTypeValue) v) as (m' & E & Hm');
      [done|unfold entry_ok; cbn [fst snd user_key sequence]; rewrite ?Zlength_nil; split_and!; (done || lia)|].
    cbn [type user_key] in E. rewrite E. bind_simpl. rewrite Eu. eauto.
  - destruct (Hadd (MkParsedInternalKey k seq kTypeDeletion) []) as (m' & E & Hm');
      [done|unfold entry_ok; cbn [fst snd user_key sequence]; rewrite ?Zlength_nil; split_and!; (done || lia)|].
    cbn [type user_key] in E. rewrite E. bind_simpl. rewrite Eu. eauto.
Qed.

Lemma handle_all_inserter us m es seq :
  mem_rep ucmp m es -> older seq es -> 0 <= seq -> seq + Zlength us <= kMaxSequenceNumber ->
  Forall update_fits us ->
  exists m', handle_all (MemTableInserter ucmp) (seq, m) us = Some (seq + Zlength us, m') /\
    mem_rep ucmp m' (es ++ numbered seq us).
Proof.
  revert m es seq. induction us as [|u us IH]; intros m es seq Hm Ho H0 Hs Hf.
  { exists m. cbn. rewrite Z.add_0_r, app_nil_r. done. }
  inversion_clear Hf as [|? ? Hu Hf']. rewrite Zlength_cons in Hs. pose proof (Zlength_nonneg us).
  destruct (handle_inserter m es seq u) as (m1 & E1 & Hm1); [done|done|lia|done|].
  cbn [handle_all]. rewrite E1.
  destruct (IH m1 (es ++ numbered seq [u]) (seq + 1)) as (m' & E & Hm'); [done| |lia|lia|done|].
  { apply Forall_app. split; [by apply older_succ|]. rewrite numbered_cons. cbn [numbered].
    apply Forall_singleton. destruct u; cbn; lia. }
  exists m'. rewrite E, Zlength_cons. split; [do 2 f_equal; lia|].
  rewrite <- app_assoc in Hm'. rewrite !numbered_cons in *. done.
Qed.

Lemma numbered_bounds seq us e : e ∈ numbered seq us -> seq <= sequence e.1 < seq + Zlength us.
Proof.
  revert seq. induction us as [|u us IH]; intros seq He; [by apply elem_of_nil in He|]. rewrite numbered_cons in He. rewrite Zlength_cons. pose proof (Zlength_nonneg us).
  apply elem_of_cons in He as [->|He]; [destruct u; cbn; lia|]. apply IH in He. lia.
Qed.

Lemma InsertInto_ok m es us seq : mem_rep ucmp m es -> older seq es -> 0 <= seq -> seq + Zlength us <= kMaxSequenceNumber ->
  Forall update_fits us -> Zlength us < 2 ^ 31 ->
  exists m', InsertInto ucmp (batch_bytes seq us) m = Some (Status_OK, m') /\ mem_rep ucmp m' (es ++ numbered seq us).
Proof.
  intros Hm Ho H0 Hs Hf Hl. pose proof (Zlength_nonneg us).
  destruct (handle_all_inserter us m es seq Hm Ho H0 Hs Hf) as (m' & E & Hm').
  exists m'. unfold InsertInto. destruct (batch_header seq us) as (-> & _).
  rewrite u64_small by (unfold is_u64; rewrite kMaxSequenceNumber_val in Hs; lia).
  rewrite Iterate_ok by (done || by apply update_fits_ok). by rewrite E.
Qed.
End InsertLemmas.

(** ** Properties *)

(** A batch is the list of its updates: [Count] and [Sequence] read the
    header, [Append] of two batches is the batch of both update lists, and
    [Iterate] on it calls every handler once per update, in order, and succeeds. *)
Theorem WriteBatch_roundtrip {S} (h : Handler S) (st : S) (us vs : list update) (seq : Z) :
  Forall update_ok us -> is_u64 seq -> Zlength (us ++ vs) < 2 ^ 31 ->
  let b := SetSequence (build us) seq in
  Count b = Zlength us /\ Sequence b = seq /\
  Append b (build vs) = Some (SetSequence (build (us ++ vs)) seq) /\
  Iterate h b st = match handle_all h st us with Some st' => Some (Status_OK, st') | None => None end.
Proof.
  intros Hok Hs Hl b. pose proof Hl as Hl'. rewrite Zlength_app in Hl'.
  pose proof (Zlength_nonneg us). pose proof (Zlength_nonneg vs).
  assert (b = batch_bytes seq us) as -> by (subst b; rewrite build_ok by lia; apply SetSequence_ok).
  rewrite !build_ok by lia. rewrite SetSequence_ok. split_and!.
  - apply Count_ok. lia.
  - destruct (batch_header seq us) as (-> & _). by apply u64_small.
  - by apply Append_ok.
  - by apply Iterate_ok; [|lia].
Qed.

Lemma WriteBatch_roundtrip_witness :
  Count (SetSequence (build [UPut (str "a") (str "1"); UDelete (str "b")]) 42) = 2.
Proof.
  apply (WriteBatch_roundtrip (MkHandler (fun (n : nat) _ _ => Some n) (fun n _ => Some n)) 0%nat
    [UPut (str "a") (str "1"); UDelete (str "b")] [] 42).
  - repeat constructor.
  - unfold is_u64. lia.
  - reflexivity.
Defined.

(** Applying a batch makes its updates visible, one sequence number each:
    [InsertInto] succeeds, and any later [Get] answers with the newest version
    among the old entries and the updates numbered from the batch's sequence. *)
Theorem InsertInto_visible (ucmp : Comparator) `{!ComparatorLaws ucmp any_key} `{HeapAlloc}
    (m : MemTable) (es : list mem_entry) (us : list update) (seq : Z) :
  mem_rep ucmp m es -> older seq es -> 0 <= seq -> seq + Zlength us <= kMaxSequenceNumber ->
  Forall update_fits us -> Zlength us < 2 ^ 31 ->
  exists m', InsertInto ucmp (SetSequence (build us) seq) m = Some (Status_OK, m') /\
    mem_rep ucmp m' (es ++ numbered seq us) /\
    forall u s value st, seq_ok s -> Zlength u + 8 < 2 ^ 32 ->
      Get ucmp m' (LookupKey_new u s) value st =
      Some (get_answer (newest (es ++ numbered seq us) u s) value st).
Proof.
  intros Hm Ho H0 Hs Hf Hl. destruct (InsertInto_ok ucmp m es us seq Hm Ho H0 Hs Hf Hl) as (m' & E & Hm').
  exists m'. rewrite build_ok, SetSequence_ok by done. split_and!; [done|done|]. intros. by apply Get_ok.
Qed.

Lemma InsertInto_visible_witness :
  exists m', InsertInto (H := BumpHeap) BytewiseComparator
      (SetSequence (build [UPut (str "a") (str "1"); UDelete (str "a"); UPut (str "b") []]) 10)
      (MemTable_new (H := BumpHeap)) = Some (Status_OK, m') /\
    mem_rep BytewiseComparator m' (numbered 10 [UPut (str "a") (str "1"); UDelete (str "a"); UPut (str "b") []]).
Proof.
  destruct (InsertInto_visible (H := BumpHeap) BytewiseComparator (MemTable_new (H := BumpHeap)) []
    [UPut (str "a") (str "1"); UDelete (str "a"); UPut (str "b") []] 10) as (m' & E & Hm & _).
  - apply (MemTable_new_rep BytewiseComparator).
  - constructor.
  - lia.
  - rewrite kMaxSequenceNumber_val. vm_compute. congruence.
  - repeat constructor.
  - reflexivity.
  - exists m'. auto.
Defined.

(** [Iterate] copes with any bytes: it always returns, it hands the handler
    a list of updates and nothing else, and its status is OK only if the batch
    has a header, every record parsed and the count in the header is the number
    of records; every other status is a corruption. *)
Theorem Iterate_total {S} (h : Handler S) (b : WriteBatch) (st : S) :
  (forall st u, is_Some (handle h st u)) ->
  exists s st' us, Iterate h b st = Some (s, st') /\ handle_all h st us = Some st' /\
    (if ok s then kHeader <= Zlength b /\ Count b = Zlength us else IsCorruption s = true).
Proof.
  intros Htot. unfold Iterate. destruct (Z.ltb_spec (Zlength b) kHeader) as [Hlt|Hge].
  { eexists _, st, []. split_and!; [reflexivity|done|done]. }
  destruct (Iterate_loop_total h (length (Slice.remove_prefix b kHeader)) st (Slice.remove_prefix b kHeader) 0 Htot)
    as (us & st' & r & -> & Hh & Hr); [done|].
  destruct r as [s|n].
  - exists s, st', us. split_and!; [done|done|]. destruct (ok s) eqn:E; [|done]. exfalso.
    unfold IsCorruption, code, ok in *. by destruct (state_ s).
  - destruct (Z.eqb_spec n (Count b)) as [En|En]; cbn [negb].
    + exists Status_OK, st', us. split_and!; [done|done|]. cbn. lia.
    + eexists _, st', us. split_and!; [reflexivity|done|done].
Qed.

Lemma Iterate_total_witness :
  exists s st' us, Iterate (MkHandler (fun (n : nat) _ _ => Some (1 + n)%nat) (fun n _ => Some n))
      (str "not a batch at all") 0%nat = Some (s, st') /\
    handle_all (MkHandler (fun (n : nat) _ _ => Some (1 + n)%nat) (fun n _ => Some n)) 0%nat us = Some st' /\
    (if ok s then kHeader <= Zlength (str "not a batch at all") /\ Count (str "not a batch at all") = Zlength us
     else IsCorruption s = true).
Proof. apply Iterate_total. intros n []; cbn; by eexists. Defined.
