(* ===== verification/VersionEdit.v ===== *)
(** db/version_edit.{h,cpp}: the delta between two versions and its encoding in
    the manifest.

    [deleted_files_] is a [std::set]: a list kept sorted and without duplicates.
    [Clear] does not clear [compact_pointers_], and neither does the model. *)

From Stdlib Require Import ZArith Lia List Bool String Sorting.Sorted.
From S2P Require Import Prelude Coding Slice Comparator Bloom Filename DbFormat.

Record FileMetaData := MkFileMetaData {
  refs : Z;
  allowed_seeks : Z;
  number : Z;
  file_size : Z;
  smallest : InternalKey;
  largest : InternalKey
}.

#[global] Instance FileMetaData_eq_dec : EqDecision FileMetaData.
Proof. solve_decision. Defined.

(** [FileMetaData()] with the four fields [AddFile] and [DecodeFrom] set. *)
Definition FileMetaData_new (num size : Z) (lo hi : InternalKey) : FileMetaData :=
  MkFileMetaData 0 (Z.shiftl 1 30) num size lo hi.

Record VersionEdit := MkVersionEdit {
  comparator_ : bytes;
  log_number_ : Z;
  prev_log_number_ : Z;
  next_file_number_ : Z;
  last_sequence_ : Z;
  has_comparator_ : bool;
  has_log_number_ : bool;
  has_prev_log_number_ : bool;
  has_next_file_number_ : bool;
  has_last_sequence_ : bool;
  compact_pointers_ : list (Z * InternalKey);
  deleted_files_ : list (Z * Z);
  new_files_ : list (Z * FileMetaData)
}.

(** [std::pair]'s [<] *)
Definition pair_lt (a b : Z * Z) : bool := (a.1 <? b.1) || ((a.1 =? b.1) && (a.2 <? b.2)).

(** [std::set::insert] *)
Fixpoint set_insert (x : Z * Z) (s : list (Z * Z)) : list (Z * Z) :=
  match s with
  | [] => [x]
  | y :: s' => if pair_lt x y then x :: s else if pair_lt y x then y :: set_insert x s' else s
  end.

Definition VersionEdit_Clear (e : VersionEdit) : VersionEdit :=
  MkVersionEdit [] 0 0 0 0 false false false false false (compact_pointers_ e) [] [].

(** A new edit: the vectors are empty before the constructor calls [Clear]. *)
Definition VersionEdit_new : VersionEdit :=
  VersionEdit_Clear (MkVersionEdit [] 0 0 0 0 false false false false false [] [] []).

Definition SetComparatorName (e : VersionEdit) (name : bytes) : VersionEdit :=
  MkVersionEdit name (log_number_ e) (prev_log_number_ e) (next_file_number_ e) (last_sequence_ e)
    true (has_log_number_ e) (has_prev_log_number_ e) (has_next_file_number_ e) (has_last_sequence_ e)
    (compact_pointers_ e) (deleted_files_ e) (new_files_ e).

Definition SetLogNumber (e : VersionEdit) (num : Z) : VersionEdit :=
  MkVersionEdit (comparator_ e) num (prev_log_number_ e) (next_file_number_ e) (last_sequence_ e)
    (has_comparator_ e) true (has_prev_log_number_ e) (has_next_file_number_ e) (has_last_sequence_ e)
    (compact_pointers_ e) (deleted_files_ e) (new_files_ e).

Definition SetPrevLogNumber (e : VersionEdit) (num : Z) : VersionEdit :=
  MkVersionEdit (comparator_ e) (log_number_ e) num (next_file_number_ e) (last_sequence_ e)
    (has_comparator_ e) (has_log_number_ e) true (has_next_file_number_ e) (has_last_sequence_ e)
    (compact_pointers_ e) (deleted_files_ e) (new_files_ e).

Definition SetNextFile (e : VersionEdit) (num : Z) : VersionEdit :=
  MkVersionEdit (comparator_ e) (log_number_ e) (prev_log_number_ e) num (last_sequence_ e)
    (has_comparator_ e) (has_log_number_ e) (has_prev_log_number_ e) true (has_last_sequence_ e)
    (compact_pointers_ e) (deleted_files_ e) (new_files_ e).

Definition SetLastSequence (e : VersionEdit) (seq : Z) : VersionEdit :=
  MkVersionEdit (comparator_ e) (log_number_ e) (prev_log_number_ e) (next_file_number_ e) seq
    (has_comparator_ e) (has_log_number_ e) (has_prev_log_number_ e) (has_next_file_number_ e) true
    (compact_pointers_ e) (deleted_files_ e) (new_files_ e).

Definition SetCompactPointer (e : VersionEdit) (level : Z) (key : InternalKey) : VersionEdit :=
  MkVersionEdit (comparator_ e) (log_number_ e) (prev_log_number_ e) (next_file_number_ e) (last_sequence_ e)
    (has_comparator_ e) (has_log_number_ e) (has_prev_log_number_ e) (has_next_file_number_ e)
    (has_last_sequence_ e) (compact_pointers_ e ++ [(level, key)]) (deleted_files_ e) (new_files_ e).

Definition DeleteFile (e : VersionEdit) (level file : Z) : VersionEdit :=
  MkVersionEdit (comparator_ e) (log_number_ e) (prev_log_number_ e) (next_file_number_ e) (last_sequence_ e)
    (has_comparator_ e) (has_log_number_ e) (has_prev_log_number_ e) (has_next_file_number_ e)
    (has_last_sequence_ e) (compact_pointers_ e) (set_insert (level, file) (deleted_files_ e)) (new_files_ e).

Definition push_file (e : VersionEdit) (level : Z) (f : FileMetaData) : VersionEdit :=
  MkVersionEdit (comparator_ e) (log_number_ e) (prev_log_number_ e) (next_file_number_ e) (last_sequence_ e)
    (has_comparator_ e) (has_log_number_ e) (has_prev_log_number_ e) (has_next_file_number_ e)
    (has_last_sequence_ e) (compact_pointers_ e) (deleted_files_ e) (new_files_ e ++ [(level, f)]).

Definition AddFile (e : VersionEdit) (level file size : Z) (lo hi : InternalKey) : VersionEdit :=
  push_file e level (FileMetaData_new file size lo hi).

(** ** Encoding *)

Definition kComparator : Z := 1.
Definition kLogNumber : Z := 2.
Definition kNextFileNumber : Z := 3.
Definition kLastSequence : Z := 4.
Definition kCompactPointer : Z := 5.
Definition kDeletedFile : Z := 6.
Definition kNewFile : Z := 7.
Definition kPrevLogNumber : Z := 9.

Definition EncodeTo_compact_pointer (dst : bytes) (c : Z * InternalKey) : bytes :=
  PutLengthPrefixedSlice (PutVarint32 (PutVarint32 dst kCompactPointer) (u32 c.1)) (InternalKey_Encode c.2).

Definition EncodeTo_deleted_file (dst : bytes) (d : Z * Z) : bytes :=
  PutVarint64 (PutVarint32 (PutVarint32 dst kDeletedFile) (u32 d.1)) d.2.

Definition EncodeTo_new_file (dst : bytes) (n : Z * FileMetaData) : bytes :=
  let f := n.2 in
  let dst := PutVarint32 (PutVarint32 dst kNewFile) (u32 n.1) in
  let dst := PutVarint64 (PutVarint64 dst (number f)) (file_size f) in
  PutLengthPrefixedSlice (PutLengthPrefixedSlice dst (InternalKey_Encode (smallest f))) (InternalKey_Encode (largest f)).

Definition EncodeTo (e : VersionEdit) (dst : bytes) : bytes :=
  let dst := if has_comparator_ e then PutLengthPrefixedSlice (PutVarint32 dst kComparator) (comparator_ e) else dst in
  let dst := if has_log_number_ e then PutVarint64 (PutVarint32 dst kLogNumber) (log_number_ e) else dst in
  let dst := if has_prev_log_number_ e then PutVarint64 (PutVarint32 dst kPrevLogNumber) (prev_log_number_ e) else dst in
  let dst := if has_next_file_number_ e then PutVarint64 (PutVarint32 dst kNextFileNumber) (next_file_number_ e) else dst in
  let dst := if has_last_sequence_ e then PutVarint64 (PutVarint32 dst kLastSequence) (last_sequence_ e) else dst in
  let dst := fold_left EncodeTo_compact_pointer (compact_pointers_ e) dst in
  let dst := fold_left EncodeTo_deleted_file (deleted_files_ e) dst in
  fold_left EncodeTo_new_file (new_files_ e) dst.

(** ** Decoding *)

Definition GetInternalKey (input : bytes) : option (InternalKey * bytes) :=
  '(s, input) ← GetLengthPrefixedSlice input; Some (InternalKey_DecodeFrom s, input).

Definition GetLevel (input : bytes) : option (Z * bytes) :=
  '(v, input) ← GetVarint32 input; if v <? config.kNumLevels then Some (v, input) else None.

(** The message of a failed parse. *)
Definition or_msg {A} (r : option A) (msg : string) : bytes + A :=
  match r with Some x => inr x | None => inl (str msg) end.

(** The [switch (tag)]: the new edit and the rest of the input, or [msg]. *)
Definition DecodeFrom_case (tag : Z) (e : VersionEdit) (input : bytes) : bytes + VersionEdit * bytes :=
  if tag =? kComparator then
    or_msg ('(s, input) ← GetLengthPrefixedSlice input; Some (SetComparatorName e s, input)) "comparator name"
  else if tag =? kLogNumber then
    or_msg ('(n, input) ← GetVarint64 input; Some (SetLogNumber e n, input)) "log number"
  else if tag =? kPrevLogNumber then
    or_msg ('(n, input) ← GetVarint64 input; Some (SetPrevLogNumber e n, input)) "previous log number"
  else if tag =? kNextFileNumber then
    or_msg ('(n, input) ← GetVarint64 input; Some (SetNextFile e n, input)) "next file number"
  else if tag =? kLastSequence then
    or_msg ('(n, input) ← GetVarint64 input; Some (SetLastSequence e n, input)) "last sequence number"
  else if tag =? kCompactPointer then
    or_msg ('(level, input) ← GetLevel input; '(key, input) ← GetInternalKey input;
            Some (SetCompactPointer e level key, input)) "compaction pointer"
  else if tag =? kDeletedFile then
    or_msg ('(level, input) ← GetLevel input; '(n, input) ← GetVarint64 input;
            Some (DeleteFile e level n, input)) "deleted file"
  else if tag =? kNewFile then
    or_msg ('(level, input) ← GetLevel input; '(n, input) ← GetVarint64 input;
            '(size, input) ← GetVarint64 input; '(lo, input) ← GetInternalKey input;
            '(hi, input) ← GetInternalKey input;
            Some (push_file e level (FileMetaData_new n size lo hi), input)) "new-file entry"
  else inl (str "unknown tag").

(** Every pass consumes the bytes of a tag ([DecodeFrom_total]). *)
Fixpoint DecodeFrom_loop (fuel : nat) (e : VersionEdit) (input : bytes) : option (option bytes * VersionEdit * bytes) :=
  match GetVarint32 input with
  | None => Some (None, e, input)
  | Some (tag, input) =>
      match fuel with
      | O => None
      | S fuel' =>
          match DecodeFrom_case tag e input with
          | inl msg => Some (Some msg, e, input)
          | inr (e, input) => DecodeFrom_loop fuel' e input
          end
      end
  end.

Definition DecodeFrom (e : VersionEdit) (src : bytes) : option (Status * VersionEdit) :=
  '(msg, e, input) ← DecodeFrom_loop (length src) (VersionEdit_Clear e) src;
  let msg := match msg with
             | Some _ => msg
             | None => if negb (Slice.empty input) then Some (str "invalid tag") else None
             end in
  Some (match msg with Some m => Status_Corruption (str "VersionEdit") m | None => Status_OK end, e).

(** ** DebugString *)

Definition newline : bytes := [Byte.x0a].

Definition VersionEdit_DebugString (e : VersionEdit) : bytes :=
  let r := str "VersionEdit {" in
  let r := if has_comparator_ e then r ++ newline ++ str "  Comparator: " ++ comparator_ e else r in
  let r := if has_log_number_ e then AppendNumberTo (r ++ newline ++ str "  LogNumber: ") (log_number_ e) else r in
  let r := if has_prev_log_number_ e then AppendNumberTo (r ++ newline ++ str "  PrevLogNumber: ") (prev_log_number_ e) else r in
  let r := if has_next_file_number_ e then AppendNumberTo (r ++ newline ++ str "  NextFile: ") (next_file_number_ e) else r in
  let r := if has_last_sequence_ e then AppendNumberTo (r ++ newline ++ str "  LastSeq: ") (last_sequence_ e) else r in
  let r := fold_left (fun r c =>
    AppendNumberTo (r ++ newline ++ str "  CompactPointer: ") c.1 ++ str " " ++ InternalKey_DebugString c.2)
    (compact_pointers_ e) r in
  let r := fold_left (fun r d =>
    AppendNumberTo (AppendNumberTo (r ++ newline ++ str "  DeleteFile: ") d.1 ++ str " ") d.2)
    (deleted_files_ e) r in
  let r := fold_left (fun r n =>
    let f := n.2 in
    let r := AppendNumberTo (r ++ newline ++ str "  AddFile: ") n.1 ++ str " " in
    let r := AppendNumberTo (AppendNumberTo r (number f) ++ str " ") (file_size f) ++ str " " in
    r ++ InternalKey_DebugString (smallest f) ++ str " .. " ++ InternalKey_DebugString (largest f))
    (new_files_ e) r in
  r ++ newline ++ str "}" ++ newline.

(** ** Lemmas: an edit as a list of fields *)

Inductive field :=
  | FComparator (name : bytes) | FLogNumber (n : Z) | FPrevLogNumber (n : Z) | FNextFile (n : Z)
  | FLastSequence (n : Z) | FCompactPointer (level : Z) (key : InternalKey)
  | FDeletedFile (level n : Z) | FNewFile (level : Z) (f : FileMetaData).

Definition field_tag (f : field) : Z :=
  match f with
  | FComparator _ => kComparator | FLogNumber _ => kLogNumber | FPrevLogNumber _ => kPrevLogNumber
  | FNextFile _ => kNextFileNumber | FLastSequence _ => kLastSequence | FCompactPointer _ _ => kCompactPointer
  | FDeletedFile _ _ => kDeletedFile | FNewFile _ _ => kNewFile
  end.

Definition field_payload (f : field) : bytes :=
  match f with
  | FComparator s => PutLengthPrefixedSlice [] s
  | FLogNumber n | FPrevLogNumber n | FNextFile n | FLastSequence n => EncodeVarint64 n
  | FCompactPointer l k => EncodeVarint32 l ++ PutLengthPrefixedSlice [] (InternalKey_Encode k)
  | FDeletedFile l n => EncodeVarint32 l ++ EncodeVarint64 n
  | FNewFile l m => EncodeVarint32 l ++ EncodeVarint64 (number m) ++ EncodeVarint64 (file_size m) ++
      PutLengthPrefixedSlice [] (InternalKey_Encode (smallest m)) ++
      PutLengthPrefixedSlice [] (InternalKey_Encode (largest m))
  end.

Definition apply_field (e : VersionEdit) (f : field) : VersionEdit :=
  match f with
  | FComparator s => SetComparatorName e s
  | FLogNumber n => SetLogNumber e n
  | FPrevLogNumber n => SetPrevLogNumber e n
  | FNextFile n => SetNextFile e n
  | FLastSequence n => SetLastSequence e n
  | FCompactPointer l k => SetCompactPointer e l k
  | FDeletedFile l n => DeleteFile e l n
  | FNewFile l m => push_file e l m
  end.

Definition level_ok (l : Z) : Prop := 0 <= l < config.kNumLevels.
Definition short (s : bytes) : Prop := is_u32 (Zlength s).

(** As [AddFile] makes it. *)
Definition file_ok (f : FileMetaData) : Prop :=
  refs f = 0 /\ allowed_seeks f = Z.shiftl 1 30 /\ is_u64 (number f) /\ is_u64 (file_size f) /\
  short (rep_ (smallest f)) /\ short (rep_ (largest f)).

Definition field_ok (f : field) : Prop :=
  match f with
  | FComparator s => short s
  | FLogNumber n | FPrevLogNumber n | FNextFile n | FLastSequence n => is_u64 n
  | FCompactPointer l k => level_ok l /\ short (rep_ k)
  | FDeletedFile l n => level_ok l /\ is_u64 n
  | FNewFile l m => level_ok l /\ file_ok m
  end.

Lemma GetLevel_enc l rest : level_ok l -> GetLevel (EncodeVarint32 l ++ rest) = Some (l, rest).
Proof.
  intros [H0 H1]. unfold GetLevel, config.kNumLevels in *. rewrite GetVarint32_enc by (unfold is_u32; lia).
  bind_simpl. by rewrite (proj2 (Z.ltb_lt _ _)).
Qed.

Lemma GetInternalKey_put k rest : short (rep_ k) ->
  GetInternalKey (PutLengthPrefixedSlice [] (InternalKey_Encode k) ++ rest) = Some (k, rest).
Proof. intros Hk. unfold GetInternalKey. rewrite GetLengthPrefixedSlice_put by done. by destruct k. Qed.

Lemma field_decode e f rest :
  field_ok f -> DecodeFrom_case (field_tag f) e (field_payload f ++ rest) = inr (apply_field e f, rest).
Proof.
  intros Hf. destruct f as [s|n|n|n|n|l k|l n|l m]; cbn [field_tag field_payload field_ok] in *;
    unfold DecodeFrom_case; cbn [Z.eqb Pos.eqb kComparator kLogNumber kPrevLogNumber kNextFileNumber
      kLastSequence kCompactPointer kDeletedFile kNewFile].
  - by rewrite GetLengthPrefixedSlice_put.
  - by rewrite GetVarint64_enc.
  - by rewrite GetVarint64_enc.
  - by rewrite GetVarint64_enc.
  - by rewrite GetVarint64_enc.
  - destruct Hf as [Hl Hk]. rewrite <- app_assoc, GetLevel_enc by done. bind_simpl.
    by rewrite GetInternalKey_put.
  - destruct Hf as [Hl Hn]. rewrite <- app_assoc, GetLevel_enc by done. bind_simpl.
    by rewrite GetVarint64_enc.
  - destruct Hf as [Hl (Hr & Ha & Hn & Hs & Hlo & Hhi)]. rewrite <- !app_assoc, GetLevel_enc by done.
    bind_simpl. rewrite GetVarint64_enc by done. bind_simpl.
    rewrite GetVarint64_enc by done. bind_simpl.
    rewrite GetInternalKey_put by done. bind_simpl.
    rewrite GetInternalKey_put by done. cbn [mbind option_bind or_msg apply_field].
    do 3 f_equal. destruct m. cbn in *. by subst.
Qed.

Definition field_bytes (f : field) : bytes := EncodeVarint32 (field_tag f) ++ field_payload f.

Lemma DecodeFrom_loop_fields fs e fuel :
  Forall field_ok fs -> (length fs <= fuel)%nat ->
  DecodeFrom_loop fuel e (concat (map field_bytes fs)) = Some (None, fold_left apply_field fs e, []).
Proof.
  intros Hok. revert e fuel. induction Hok as [|f fs Hf Hok IH]; intros e fuel Hl; [by destruct fuel|].
  destruct fuel as [|fuel]; [cbn in Hl; lia|]. cbn [map concat]. unfold field_bytes at 1.
  rewrite <- app_assoc. cbn [DecodeFrom_loop]. rewrite GetVarint32_enc by (by destruct f).
  rewrite field_decode by done. cbn [fold_left]. apply IH. cbn in Hl. lia.
Qed.

Lemma concat_fields_length fs : (length fs <= length (concat (map field_bytes fs)))%nat.
Proof.
  induction fs as [|f fs IH]; [done|]. cbn [map concat length]. unfold field_bytes at 1.
  rewrite !length_app. pose proof (EncodeVarint32_length (field_tag f)). lia.
Qed.

(** The fields of an edit, in the order they are written. *)
Definition when {A} (b : bool) (x : A) : list A := if b then [x] else [].

Definition fields (e : VersionEdit) : list field :=
  when (has_comparator_ e) (FComparator (comparator_ e)) ++
  when (has_log_number_ e) (FLogNumber (log_number_ e)) ++
  when (has_prev_log_number_ e) (FPrevLogNumber (prev_log_number_ e)) ++
  when (has_next_file_number_ e) (FNextFile (next_file_number_ e)) ++
  when (has_last_sequence_ e) (FLastSequence (last_sequence_ e)) ++
  map (fun c => FCompactPointer c.1 c.2) (compact_pointers_ e) ++
  map (fun d => FDeletedFile d.1 d.2) (deleted_files_ e) ++
  map (fun n => FNewFile n.1 n.2) (new_files_ e).

(** What an edit promises: values that fit, and unset fields at their default. *)
Record edit_ok (e : VersionEdit) : Prop := {
  ok_fields : Forall field_ok (fields e);
  ok_comparator : has_comparator_ e = false -> comparator_ e = [];
  ok_log : has_log_number_ e = false -> log_number_ e = 0;
  ok_prev : has_prev_log_number_ e = false -> prev_log_number_ e = 0;
  ok_next : has_next_file_number_ e = false -> next_file_number_ e = 0;
  ok_last : has_last_sequence_ e = false -> last_sequence_ e = 0;
  ok_deleted : StronglySorted (fun a b => pair_lt a b = true) (deleted_files_ e)
}.

Lemma fold_encode {A} (enc : bytes -> A -> bytes) (mk : A -> field) l dst :
  (forall dst x, x ∈ l -> enc dst x = dst ++ field_bytes (mk x)) ->
  fold_left enc l dst = dst ++ concat (map field_bytes (map mk l)).
Proof.
  revert dst. induction l as [|x l IH]; intros dst He; [cbn; by rewrite app_nil_r|].
  cbn [fold_left map concat]. rewrite He by left. rewrite IH by (intros; apply He; by right).
  by rewrite app_assoc.
Qed.

Lemma level_u32 l : level_ok l -> u32 l = l.
Proof. intros [? ?]. apply u32_small. unfold is_u32, config.kNumLevels in *. lia. Qed.

Lemma EncodeTo_fields e dst : Forall field_ok (fields e) ->
  EncodeTo e dst = dst ++ concat (map field_bytes (fields e)).
Proof.
  unfold fields. rewrite !Forall_app, !Forall_map. intros (_ & _ & _ & _ & _ & Hc & Hd & Hn).
  rewrite Forall_forall in Hc. rewrite Forall_forall in Hd. rewrite Forall_forall in Hn. unfold EncodeTo.
  rewrite (fold_encode EncodeTo_new_file (fun n => FNewFile n.1 n.2)).
  2: { intros d [l m] Hin. destruct (Hn _ Hin) as [Hl _]. unfold EncodeTo_new_file, field_bytes. cbn [fst snd].
       rewrite level_u32 by done. rewrite !(PutLengthPrefixedSlice_app (_ _ _)). unfold PutVarint32, PutVarint64.
       cbn [field_tag field_payload]. by rewrite <- !app_assoc. }
  rewrite (fold_encode EncodeTo_deleted_file (fun d => FDeletedFile d.1 d.2)).
  2: { intros d [l m] Hin. destruct (Hd _ Hin) as [Hl _]. unfold EncodeTo_deleted_file, field_bytes. cbn [fst snd].
       rewrite level_u32 by done. unfold PutVarint32, PutVarint64.
       cbn [field_tag field_payload]. by rewrite <- !app_assoc. }
  rewrite (fold_encode EncodeTo_compact_pointer (fun c => FCompactPointer c.1 c.2)).
  2: { intros d [l m] Hin. destruct (Hc _ Hin) as [Hl _]. unfold EncodeTo_compact_pointer, field_bytes. cbn [fst snd].
       rewrite level_u32 by done. rewrite (PutLengthPrefixedSlice_app (_ _ _)). unfold PutVarint32.
       cbn [field_tag field_payload]. by rewrite <- !app_assoc. }
  rewrite !map_app, !concat_app. rewrite (PutLengthPrefixedSlice_app (_ _ _)).
  unfold PutVarint32, PutVarint64, when, field_bytes.
  destruct (has_comparator_ e), (has_log_number_ e), (has_prev_log_number_ e), (has_next_file_number_ e),
    (has_last_sequence_ e); cbn [map concat field_tag field_payload];
    rewrite ?app_nil_r, <- ?app_assoc; cbn [app]; rewrite <- ?app_assoc; done.
Qed.

(** ** Applying the fields *)

Definition with_lists (e : VersionEdit) (c : list (Z * InternalKey)) (d : list (Z * Z))
    (n : list (Z * FileMetaData)) : VersionEdit :=
  MkVersionEdit (comparator_ e) (log_number_ e) (prev_log_number_ e) (next_file_number_ e) (last_sequence_ e)
    (has_comparator_ e) (has_log_number_ e) (has_prev_log_number_ e) (has_next_file_number_ e)
    (has_last_sequence_ e) c d n.

Lemma fold_compact l e :
  fold_left apply_field (map (fun c => FCompactPointer c.1 c.2) l) e =
  with_lists e (compact_pointers_ e ++ l) (deleted_files_ e) (new_files_ e).
Proof.
  revert e. induction l as [|[lv k] l IH]; intros e; cbn [map fold_left].
  - rewrite app_nil_r. by destruct e.
  - rewrite IH. cbn. by rewrite <- app_assoc.
Qed.

Lemma fold_new l e :
  fold_left apply_field (map (fun n => FNewFile n.1 n.2) l) e =
  with_lists e (compact_pointers_ e) (deleted_files_ e) (new_files_ e ++ l).
Proof.
  revert e. induction l as [|[lv k] l IH]; intros e; cbn [map fold_left].
  - rewrite app_nil_r. by destruct e.
  - rewrite IH. cbn. by rewrite <- app_assoc.
Qed.

Lemma pair_lt_spec a b : pair_lt a b = true <-> a.1 < b.1 \/ (a.1 = b.1 /\ a.2 < b.2).
Proof.
  unfold pair_lt. rewrite orb_true_iff, andb_true_iff, !Z.ltb_lt, Z.eqb_eq. done.
Qed.

Lemma set_insert_last x s : Forall (fun y => pair_lt y x = true) s -> set_insert x s = s ++ [x].
Proof.
  induction 1 as [|y s Hy Hs IH]; [done|]. cbn [set_insert app]. rewrite Hy, IH.
  destruct (pair_lt x y) eqn:E; [|done]. apply pair_lt_spec in E, Hy. lia.
Qed.

Lemma fold_deleted l e :
  StronglySorted (fun a b => pair_lt a b = true) (deleted_files_ e ++ l) ->
  fold_left apply_field (map (fun d => FDeletedFile d.1 d.2) l) e =
  with_lists e (compact_pointers_ e) (deleted_files_ e ++ l) (new_files_ e).
Proof.
  revert e. induction l as [|[lv k] l IH]; intros e Hs; cbn [map fold_left].
  - rewrite app_nil_r. by destruct e.
  - assert (deleted_files_ (DeleteFile e lv k) = deleted_files_ e ++ [(lv, k)]) as E.
    { cbn. apply set_insert_last. clear IH. induction (deleted_files_ e) as [|y s IHs]; [constructor|].
      cbn in Hs. inversion_clear Hs as [|? ? Hs' Hy]. constructor; [|by apply IHs].
      rewrite Forall_forall in Hy. apply Hy. set_solver. }
    cbn [apply_field fst snd]. rewrite IH; rewrite E, <- app_assoc; [done|exact Hs].
Qed.

Lemma fields_apply e e0 : edit_ok e ->
  fold_left apply_field (fields e) (VersionEdit_Clear e0) =
  with_lists e (compact_pointers_ e0 ++ compact_pointers_ e) (deleted_files_ e) (new_files_ e).
Proof.
  intros [_ H1 H2 H3 H4 H5 Hs]. unfold fields. rewrite !fold_left_app.
  set (e1 := fold_left apply_field (when (has_last_sequence_ e) _) _).
  assert (e1 = with_lists e (compact_pointers_ e0) [] []) as ->.
  { subst e1. unfold with_lists, when. destruct e as [c ln pn nf ls hc hl hp hn hs cp df nw]. cbn in *.
    destruct hc, hl, hp, hn, hs; cbn;
      unfold SetComparatorName, SetLogNumber, SetPrevLogNumber, SetNextFile, SetLastSequence, VersionEdit_Clear;
      cbn; f_equal; symmetry; auto. }
  rewrite fold_compact. rewrite fold_deleted by done. rewrite fold_new. done.
Qed.

Lemma DecodeFrom_ok e e0 : edit_ok e ->
  DecodeFrom e0 (EncodeTo e []) =
  Some (Status_OK, with_lists e (compact_pointers_ e0 ++ compact_pointers_ e) (deleted_files_ e) (new_files_ e)).
Proof.
  intros He. pose proof (ok_fields _ He) as Hf. unfold DecodeFrom. rewrite EncodeTo_fields by done. cbn [app].
  rewrite DecodeFrom_loop_fields by (done || apply concat_fields_length). bind_simpl.
  by rewrite fields_apply.
Qed.

(** ** Arbitrary input *)

(** Every level that occurs in the edit indexes an array of [kNumLevels]. *)
Definition levels_ok (e : VersionEdit) : Prop :=
  Forall (fun c => level_ok c.1) (compact_pointers_ e) /\
  Forall (fun d => level_ok d.1) (deleted_files_ e) /\
  Forall (fun n => level_ok n.1) (new_files_ e).

Lemma set_insert_Forall (P : Z * Z -> Prop) x s : P x -> Forall P s -> Forall P (set_insert x s).
Proof.
  intros Hx. induction 1 as [|y s Hy Hs IH]; cbn [set_insert]; [by constructor|].
  repeat case_match; repeat constructor; auto.
Qed.

Lemma GetLevel_spec p l rest : GetLevel p = Some (l, rest) -> level_ok l /\ (length rest <= length p)%nat.
Proof.
  unfold GetLevel. destruct (GetVarint32 p) as [[v r]|] eqn:E; [|done]. bind_simpl.
  case_match eqn:Ev; [|done]. intros [= <- <-]. apply Z.ltb_lt in Ev.
  apply GetVarint32_spec in E as ([H0 _] & pre & -> & _). rewrite length_app. split; [done|lia].
Qed.

Lemma GetVarint64_len p v rest : GetVarint64 p = Some (v, rest) -> (length rest <= length p)%nat.
Proof. intros E. apply GetVarint64_spec in E as (_ & pre & -> & _). rewrite length_app. lia. Qed.

Lemma GetLengthPrefixedSlice_len p v rest : GetLengthPrefixedSlice p = Some (v, rest) -> (length rest <= length p)%nat.
Proof. intros E. apply GetLengthPrefixedSlice_spec in E as (pre & -> & _). rewrite !length_app. lia. Qed.

Lemma GetInternalKey_len p v rest : GetInternalKey p = Some (v, rest) -> (length rest <= length p)%nat.
Proof.
  unfold GetInternalKey. destruct (GetLengthPrefixedSlice p) as [[s r]|] eqn:E; [|done].
  intros [= _ <-]. by eapply GetLengthPrefixedSlice_len.
Qed.

Ltac decode_step :=
  match goal with
  | |- context [mbind _ (?f ?p)] =>
      let E := fresh "E" in destruct (f p) as [[? ?]|] eqn:E; cbn [mbind option_bind or_msg]; [|discriminate]
  end.

Lemma DecodeFrom_case_spec tag e input e' rest :
  DecodeFrom_case tag e input = inr (e', rest) -> levels_ok e ->
  levels_ok e' /\ (length rest <= length input)%nat.
Proof.
  unfold DecodeFrom_case. intros Hd (Hc & Hdl & Hn). revert Hd.
  repeat match goal with |- context [if ?b then _ else _] => destruct b end; try discriminate;
    repeat decode_step; intros [= <- <-];
    repeat match goal with
    | E : GetLevel _ = Some _ |- _ => apply GetLevel_spec in E as [? ?]
    | E : GetVarint64 _ = Some _ |- _ => apply GetVarint64_len in E
    | E : GetLengthPrefixedSlice _ = Some _ |- _ => apply GetLengthPrefixedSlice_len in E
    | E : GetInternalKey _ = Some _ |- _ => apply GetInternalKey_len in E
    end; (split; [|lia]); split_and!; cbn; auto using set_insert_Forall;
    apply Forall_app; (split; [done|]); by apply Forall_singleton.
Qed.

Lemma DecodeFrom_loop_total fuel e input :
  levels_ok e -> (length input <= fuel)%nat ->
  exists msg e' rest, DecodeFrom_loop fuel e input = Some (msg, e', rest) /\ levels_ok e'.
Proof.
  revert e input. induction fuel as [|fuel IH]; intros e input Hl Hf; cbn [DecodeFrom_loop].
  - destruct input; [|cbn in Hf; lia]. cbn. eauto 10.
  - destruct (GetVarint32 input) as [[tag r]|] eqn:E; [|eauto 10].
    apply GetVarint32_spec in E as (_ & pre & -> & Hpre & _). rewrite length_app in Hf.
    destruct (DecodeFrom_case tag e r) as [msg|[e' r']] eqn:Ec; [eauto 10|].
    destruct (DecodeFrom_case_spec _ _ _ _ _ Ec Hl) as [Hl' Hlen]. apply IH; [done|lia].
Qed.

Lemma DecodeFrom_total e src : Forall (fun c => level_ok c.1) (compact_pointers_ e) ->
  exists s e', DecodeFrom e src = Some (s, e') /\ levels_ok e' /\ (ok s = true \/ IsCorruption s = true).
Proof.
  intros Hc. unfold DecodeFrom.
  destruct (DecodeFrom_loop_total (length src) (VersionEdit_Clear e) src) as (msg & e' & rest & -> & Hl);
    [by split_and!|done|].
  bind_simpl. eexists _, e'. split; [reflexivity|]. split; [done|].
  destruct msg; [by right|]. destruct (negb (Slice.empty rest)); [by right|by left].
Qed.

(** ** Properties *)

(** C35: A manifest record round-trips: decoding what [EncodeTo] wrote succeeds
    and gives the edit back, field for field, into a new edit.  Into an edit that
    was used before, the old compaction pointers survive, because [Clear] forgets
    to clear them. *)
Theorem VersionEdit_roundtrip (e e0 : VersionEdit) :
  edit_ok e ->
  DecodeFrom VersionEdit_new (EncodeTo e []) = Some (Status_OK, e) /\
  DecodeFrom e0 (EncodeTo e []) =
    Some (Status_OK, with_lists e (compact_pointers_ e0 ++ compact_pointers_ e) (deleted_files_ e) (new_files_ e)).
Proof.
  intros He. split; [|by apply DecodeFrom_ok]. rewrite DecodeFrom_ok by done. by destruct e.
Qed.

Definition sample_edit : VersionEdit :=
  AddFile (DeleteFile (DeleteFile (SetCompactPointer (SetLogNumber (SetComparatorName VersionEdit_new (str "cmp")) 12)
    1 (InternalKey_new (str "m") 7 kTypeValue)) 2 9) 0 4) 3 17 4096
    (InternalKey_new (str "a") 3 kTypeValue) (InternalKey_new (str "z") 1 kTypeDeletion).

Lemma VersionEdit_roundtrip_witness :
  DecodeFrom VersionEdit_new (EncodeTo sample_edit []) = Some (Status_OK, sample_edit) /\
  DecodeFrom sample_edit (EncodeTo sample_edit []) =
    Some (Status_OK, with_lists sample_edit (compact_pointers_ sample_edit ++ compact_pointers_ sample_edit)
      (deleted_files_ sample_edit) (new_files_ sample_edit)).
Proof.
  apply VersionEdit_roundtrip. constructor; cbn; try done.
  - repeat constructor; vm_compute; congruence.
  - repeat constructor.
Defined.

(** Decoding never goes wrong, whatever the bytes: [DecodeFrom] returns, with
    success or a corruption, and every level it stored is below [kNumLevels], so
    that the per-level arrays of a version are indexed within bounds. *)
Theorem VersionEdit_decode_safe (e : VersionEdit) (src : bytes) :
  Forall (fun c => level_ok c.1) (compact_pointers_ e) ->
  exists s e', DecodeFrom e src = Some (s, e') /\ levels_ok e' /\ (ok s = true \/ IsCorruption s = true).
Proof. apply DecodeFrom_total. Qed.

Lemma VersionEdit_decode_safe_witness :
  exists s e', DecodeFrom VersionEdit_new (str "some arbitrary bytes") = Some (s, e') /\ levels_ok e' /\
    (ok s = true \/ IsCorruption s = true).
Proof. apply VersionEdit_decode_safe. constructor. Defined.
