(* ===== verification/Version.v ===== *)
(** db/version_set.{h,cpp}, first part: the files of a version, searching them,
    and reading through them.

    A version is its per-level lists of files, by value: reference counts only
    decide when memory is freed and are not modelled, and neither is the linked
    list of live versions.  [int] and [uint32_t] indices are kept at their width
    where the binary search computes with them.  [None] is undefined behaviour or
    exhausted fuel, and the theorems show that it does not occur. *)

From Stdlib Require Import ZArith Lia List Bool String Sorting.Sorted Floats.SpecFloat.
From S2P Require Import Prelude Lists Coding Slice Comparator Bloom Filename DbFormat VersionEdit Arena SkipList MemTable.

Definition kTargetFileSize : Z := 2 * 1048576.
Definition kMaxGrandParentOverlapBytes : Z := 10 * kTargetFileSize.
Definition kExpandedCompactionByteSizeLimit : Z := 25 * kTargetFileSize.

Definition MaxFileSizeForLevel (level : nat) : Z := kTargetFileSize.

(** [int64_t] sum; file sizes are far below its range. *)
Definition TotalFileSize (files : list FileMetaData) : Z :=
  fold_left (fun sum f => sum + file_size f) files 0.

Section Files.
Context (ucmp : Comparator).
Abbreviation icmp := (InternalKeyCompare ucmp).

(** ** FindFile: binary search *)

Fixpoint FindFile_loop (fuel : nat) (files : list FileMetaData) (key : bytes) (left right : Z) : option Z :=
  if left <? right then
    match fuel with
    | O => None
    | S fuel' =>
        let mid := u32 (left + right) / 2 in
        f ← files !! Z.to_nat mid;
        if icmp (InternalKey_Encode (largest f)) key <? 0
        then FindFile_loop fuel' files key (u32 (mid + 1)) right
        else FindFile_loop fuel' files key left mid
    end
  else Some right.

(** The interval shrinks in every pass ([FindFile_ok]). *)
Definition FindFile (files : list FileMetaData) (key : bytes) : option Z :=
  FindFile_loop (length files) files key 0 (u32 (Zlength files)).

(** [None] is the NULL slice. *)
Definition AfterFile (user_key : option bytes) (f : FileMetaData) : bool :=
  match user_key with
  | None => false
  | Some u => Compare ucmp u (InternalKey_user_key (largest f)) >? 0
  end.

Definition BeforeFile (user_key : option bytes) (f : FileMetaData) : bool :=
  match user_key with
  | None => false
  | Some u => Compare ucmp u (InternalKey_user_key (smallest f)) <? 0
  end.

Definition SomeFileOverlapsRange (disjoint_sorted_files : bool) (files : list FileMetaData)
    (smallest_user_key largest_user_key : option bytes) : option bool :=
  if negb disjoint_sorted_files then
    Some (existsb (fun f => negb (AfterFile smallest_user_key f || BeforeFile largest_user_key f)) files)
  else
    index ← match smallest_user_key with
            | None => Some 0
            | Some u => FindFile files (InternalKey_Encode (InternalKey_new u kMaxSequenceNumber kValueTypeForSeek))
            end;
    if index >=? Zlength files then Some false
    else f ← files !! Z.to_nat index; Some (negb (BeforeFile largest_user_key f)).

(** ** Version *)

Record Version := MkVersion {
  files_ : list (list FileMetaData);
  file_to_compact_ : option FileMetaData;
  file_to_compact_level_ : Z;
  compaction_score_ : spec_float;       (* a double *)
  compaction_level_ : Z
}.

(** A new version is empty. *)
Definition Version_new : Version :=
  MkVersion (replicate (Z.to_nat config.kNumLevels) []) None (-1) (double_of_int (-1)) (-1).

Definition level_files (v : Version) (level : nat) : list FileMetaData := nth level (files_ v) [].

Definition OverlapInLevel (v : Version) (level : nat) (lo hi : option bytes) : option bool :=
  SomeFileOverlapsRange (0 <? level)%nat (level_files v level) lo hi.

(** The [for (i ...;)] loop: [rest] are the files from [i] on. *)
Fixpoint GetOverlappingInputs_loop (fuel : nat) (level0 : bool) (files rest : list FileMetaData)
    (user_begin user_end : option bytes) (inputs : list FileMetaData) : option (list FileMetaData) :=
  match rest with
  | [] => Some inputs
  | f :: rest =>
      match fuel with
      | O => None
      | S fuel' =>
          let file_start := InternalKey_user_key (smallest f) in
          let file_limit := InternalKey_user_key (largest f) in
          let before := match user_begin with Some b => Compare ucmp file_limit b <? 0 | None => false end in
          let after := match user_end with Some e => Compare ucmp file_start e >? 0 | None => false end in
          if before then GetOverlappingInputs_loop fuel' level0 files rest user_begin user_end inputs
          else if after then GetOverlappingInputs_loop fuel' level0 files rest user_begin user_end inputs
          else
            let inputs := inputs ++ [f] in
            if level0 then
              if match user_begin with Some b => Compare ucmp file_start b <? 0 | None => false end then
                GetOverlappingInputs_loop fuel' level0 files files (Some file_start) user_end []
              else if match user_end with Some e => Compare ucmp file_limit e >? 0 | None => false end then
                GetOverlappingInputs_loop fuel' level0 files files user_begin (Some file_limit) []
              else GetOverlappingInputs_loop fuel' level0 files rest user_begin user_end inputs
            else GetOverlappingInputs_loop fuel' level0 files rest user_begin user_end inputs
      end
  end.

(** A restart widens the range to the bound of one of the files, which can happen
    at most twice per file. *)
Definition overlap_fuel (n : nat) : nat := (2 * n + 1) * (n + 1).

Definition GetOverlappingInputs (v : Version) (level : nat) (begin end_ : option InternalKey)
    : option (list FileMetaData) :=
  let files := level_files v level in
  GetOverlappingInputs_loop (overlap_fuel (length files)) (level =? 0)%nat files files
    (InternalKey_user_key <$> begin) (InternalKey_user_key <$> end_) [].

(** The [while (level < kMaxMemCompactLevel)] loop. *)
Fixpoint PickLevel_loop (fuel : nat) (v : Version) (lo hi : bytes) (level : nat) : option nat :=
  match fuel with
  | O => Some level
  | S fuel' =>
      o ← OverlapInLevel v (level + 1) (Some lo) (Some hi);
      if (o : bool) then Some level
      else
        overlaps ← GetOverlappingInputs v (level + 2)
                     (Some (InternalKey_new lo kMaxSequenceNumber kValueTypeForSeek))
                     (Some (InternalKey_new hi 0 kTypeDeletion));
        if TotalFileSize overlaps >? kMaxGrandParentOverlapBytes then Some level
        else PickLevel_loop fuel' v lo hi (level + 1)
  end.

Definition PickLevelForMemTableOutput (v : Version) (lo hi : bytes) : option nat :=
  o ← OverlapInLevel v 0 (Some lo) (Some hi);
  if (o : bool) then Some 0%nat else PickLevel_loop (Z.to_nat config.kMaxMemCompactLevel) v lo hi 0.

(** ** LevelFileNumIterator: the state is [index_] *)

Definition LevelIter_new (flist : list FileMetaData) : Z := u32 (Zlength flist).
Definition LevelIter_Valid (flist : list FileMetaData) (index : Z) : bool := index <? Zlength flist.
Definition LevelIter_Seek (flist : list FileMetaData) (target : bytes) : option Z := FindFile flist target.
Definition LevelIter_SeekToFirst : Z := 0.
Definition LevelIter_SeekToLast (flist : list FileMetaData) : Z :=
  match flist with [] => 0 | _ => u32 (Zlength flist - 1) end.
Definition LevelIter_Next (index : Z) : Z := u32 (index + 1).
Definition LevelIter_Prev (flist : list FileMetaData) (index : Z) : Z :=
  if index =? 0 then u32 (Zlength flist) else index - 1.
Definition LevelIter_key (flist : list FileMetaData) (index : Z) : option bytes :=
  f ← flist !! Z.to_nat index; Some (InternalKey_Encode (largest f)).
Definition LevelIter_value (flist : list FileMetaData) (index : Z) : option bytes :=
  f ← flist !! Z.to_nat index; Some (EncodeFixed64 (number f) ++ EncodeFixed64 (file_size f)).

(** ** Version::Get *)

Inductive SaverState := kSaverNotFound | kSaverFound | kSaverDeleted | kSaverCorrupt.

Record Saver := MkSaver { state : SaverState; saver_key : bytes; saver_value : bytes }.

Definition SaveValue (s : Saver) (ikey v : bytes) : Saver :=
  match ParseInternalKey ikey with
  | None => MkSaver kSaverCorrupt (saver_key s) (saver_value s)
  | Some parsed =>
      if Compare ucmp (user_key parsed) (saver_key s) =? 0 then
        match type parsed with
        | kTypeValue => MkSaver kSaverFound (saver_key s) v
        | kTypeDeletion => MkSaver kSaverDeleted (saver_key s) (saver_value s)
        end
      else s
  end.

Definition NewestFirst (a b : FileMetaData) : bool := number a >? number b.

(** [std::sort] by [NewestFirst]. *)
Fixpoint sort_insert (f : FileMetaData) (l : list FileMetaData) : list FileMetaData :=
  match l with
  | [] => [f]
  | g :: l' => if NewestFirst g f then g :: sort_insert f l' else f :: l
  end.

Definition sort_newest (l : list FileMetaData) : list FileMetaData := foldr sort_insert [] l.

(** The files of a level that may hold the key, in search order. *)
Definition files_to_search (v : Version) (level : nat) (ikey user_key : bytes) : option (list FileMetaData) :=
  let files := level_files v level in
  match level with
  | O =>
      Some (sort_newest (base.filter (fun f =>
        Compare ucmp user_key (InternalKey_user_key (smallest f)) >= 0 /\
        Compare ucmp user_key (InternalKey_user_key (largest f)) <= 0) files))
  | S _ =>
      if (length files =? 0)%nat then Some []
      else
        index ← FindFile files ikey;
        if index >=? Zlength files then Some []
        else
          f ← files !! Z.to_nat index;
          Some (if Compare ucmp user_key (InternalKey_user_key (smallest f)) <? 0 then [] else [f])
  end.

Record GetStats := MkGetStats { seek_file : option FileMetaData; seek_file_level : Z }.

(** [TableCache::Get]: a status, and the entry the table handed to the callback,
    if any. *)
Context (table_get : FileMetaData -> bytes -> Status * option (bytes * bytes)).

(** The two locals [last_file_read], [last_file_read_level] and [*stats]. *)
Record get_locals := MkLocals { last_file_read : option (FileMetaData * Z); stats_ : GetStats }.

(** The [for] loop over the files of one level: [inl] is an early return. *)
Fixpoint Get_files (files : list FileMetaData) (level : Z) (ikey user_key value : bytes) (l : get_locals)
    : (Status * bytes * GetStats) + get_locals :=
  match files with
  | [] => inr l
  | f :: files =>
      let stats := match last_file_read l, seek_file (stats_ l) with
                   | Some (g, glevel), None => MkGetStats (Some g) glevel
                   | _, _ => stats_ l
                   end in
      let l := MkLocals (Some (f, level)) stats in
      let '(s, found) := table_get f ikey in
      let saver := MkSaver kSaverNotFound user_key value in
      let saver := match found with Some (k, v) => SaveValue saver k v | None => saver end in
      if negb (ok s) then inl (s, saver_value saver, stats)
      else
        match state saver with
        | kSaverNotFound => Get_files files level ikey user_key value l
        | kSaverFound => inl (s, saver_value saver, stats)
        | kSaverDeleted => inl (Status_NotFound [] [], saver_value saver, stats)
        | kSaverCorrupt => inl (Status_Corruption (str "corrupted key for ") user_key, saver_value saver, stats)
        end
  end.

Fixpoint Get_levels (v : Version) (levels : list nat) (ikey user_key value : bytes) (l : get_locals)
    : option (Status * bytes * GetStats) :=
  match levels with
  | [] => Some (Status_NotFound [] [], value, stats_ l)
  | level :: levels =>
      files ← files_to_search v level ikey user_key;
      match Get_files files (Z.of_nat level) ikey user_key value l with
      | inl r => Some r
      | inr l => Get_levels v levels ikey user_key value l
      end
  end.

Definition Version_Get (v : Version) (k : LookupKey) (value : bytes) : option (Status * bytes * GetStats) :=
  Get_levels v (seq 0 (Z.to_nat config.kNumLevels)) (internal_key k) (lookup_user_key k) value
    (MkLocals None (MkGetStats None (-1))).

(** [allowed_seeks] is decremented in the file the stats name. *)
Definition UpdateStats (v : Version) (stats : GetStats) : bool * Version :=
  match seek_file stats with
  | None => (false, v)
  | Some f =>
      let f' := MkFileMetaData (refs f) (allowed_seeks f - 1) (number f) (file_size f) (smallest f) (largest f) in
      let files := map (map (fun g => if decide (g = f) then f' else g)) (files_ v) in
      let mk to_compact level := MkVersion files to_compact level (compaction_score_ v) (compaction_level_ v) in
      match file_to_compact_ v with
      | None =>
          if allowed_seeks f' <=? 0 then (true, mk (Some f') (seek_file_level stats))
          else (false, mk None (file_to_compact_level_ v))
      | Some g => (false, mk (Some (if decide (g = f) then f' else g)) (file_to_compact_level_ v))
      end
  end.

Definition Version_DebugString (v : Version) : bytes :=
  fold_left (fun r level =>
    fold_left (fun r f =>
      AppendNumberTo (AppendNumberTo (r ++ str " ") (number f) ++ str ":") (file_size f) ++
      str "[" ++ InternalKey_DebugString (smallest f) ++ str " .. " ++ InternalKey_DebugString (largest f) ++
      str "]" ++ newline)
    (level_files v level) (AppendNumberTo (r ++ str "--- level ") (Z.of_nat level) ++ str " ---" ++ newline))
  (seq 0 (Z.to_nat config.kNumLevels)) [].

End Files.

(** ** Lemmas: searching *)

Section Lemmas.
Context (ucmp : Comparator) `{!ComparatorLaws ucmp any_key}.
Abbreviation icmp := (InternalKeyCompare ucmp).
Abbreviation lo_key f := (InternalKey_user_key (smallest f)).
Abbreviation hi_key f := (InternalKey_user_key (largest f)).

(** The reference: a linear scan. *)
Fixpoint FindFile_ref (files : list FileMetaData) (key : bytes) : Z :=
  match files with
  | [] => 0
  | f :: files => if icmp (rep_ (largest f)) key <? 0 then 1 + FindFile_ref files key else 0
  end.

Lemma FindFile_ref_range files key : 0 <= FindFile_ref files key <= Zlength files.
Proof.
  induction files as [|f files IH]; cbn [FindFile_ref]; [done|].
  rewrite Zlength_cons. case_match; lia.
Qed.

(** [largest] does not decrease along the files. *)
Definition largest_le (f g : FileMetaData) : Prop := icmp (rep_ (largest f)) (rep_ (largest g)) <= 0.

Lemma FindFile_ref_spec files key i f :
  StronglySorted largest_le files -> files !! i = Some f ->
  icmp (rep_ (largest f)) key < 0 <-> Z.of_nat i < FindFile_ref files key.
Proof.
  intros Hs. revert i. induction Hs as [|g files Hs IH Hg]; intros i Hi; [done|]. cbn [FindFile_ref].
  rewrite Forall_forall in Hg. destruct i as [|i]; cbn in Hi.
  - injection Hi as ->. destruct (Z.ltb_spec (icmp (rep_ (largest f)) key) 0).
    + pose proof (FindFile_ref_range files key). lia.
    + lia.
  - destruct (Z.ltb_spec (icmp (rep_ (largest g)) key) 0) as [Hlt|Hge].
    + rewrite (IH i Hi). lia.
    + split; [|lia]. intros Hf. exfalso.
      assert (largest_le g f) as Hgf by (apply Hg; by eapply list_elem_of_lookup_2).
      pose proof (to_le_lt_trans icmp any_key _ _ key I I I Hgf Hf). lia.
Qed.

Lemma FindFile_loop_ok files key fuel left right :
  StronglySorted largest_le files -> Zlength files < 2 ^ 31 ->
  0 <= left <= FindFile_ref files key -> FindFile_ref files key <= right <= Zlength files ->
  (Z.to_nat (right - left) <= fuel)%nat ->
  FindFile_loop ucmp fuel files key left right = Some (FindFile_ref files key).
Proof.
  intros Hs Hn. revert left right. induction fuel as [|fuel IH]; intros left right Hl Hr Hf;
    cbn [FindFile_loop]; destruct (Z.ltb_spec left right) as [Hlt|Hge];
    [lia|f_equal; lia| |f_equal; lia].
  rewrite (u32_small (left + right)) by (unfold is_u32; lia).
  set (mid := (left + right) / 2).
  assert (left <= mid < right) as Hm.
  { subst mid. split; [apply Z.div_le_lower_bound|apply Z.div_lt_upper_bound]; lia. }
  destruct (lookup_lt_is_Some_2 files (Z.to_nat mid)) as [f Hfm]; [unfold Zlength in *; lia|].
  rewrite Hfm. bind_simpl.
  pose proof (FindFile_ref_spec files key _ f Hs Hfm) as Hiff. rewrite Z2Nat.id in Hiff by lia.
  change (InternalKey_Encode (largest f)) with (rep_ (largest f)).
  destruct (Z.ltb_spec (icmp (rep_ (largest f)) key) 0) as [Hc|Hc].
  - rewrite u32_small by (unfold is_u32; lia). apply IH; lia.
  - apply IH; lia.
Qed.

Lemma FindFile_ok files key :
  StronglySorted largest_le files -> Zlength files < 2 ^ 31 ->
  FindFile ucmp files key = Some (FindFile_ref files key).
Proof.
  intros Hs Hn. pose proof (FindFile_ref_range files key). pose proof (Zlength_nonneg files). unfold FindFile.
  rewrite u32_small by (unfold is_u32; lia).
  apply FindFile_loop_ok; try done; unfold Zlength in *; lia.
Qed.

(** ** Disjoint levels *)

(** A file's bounds are internal keys and in order. *)
Definition file_wf (f : FileMetaData) : Prop :=
  is_Some (ParseInternalKey (rep_ (smallest f))) /\ is_Some (ParseInternalKey (rep_ (largest f))) /\
  icmp (rep_ (smallest f)) (rep_ (largest f)) <= 0.

(** Levels above 0: in order and without overlap of internal keys. *)
Definition level_wf (files : list FileMetaData) : Prop :=
  Forall file_wf files /\
  StronglySorted (fun f g => icmp (rep_ (largest f)) (rep_ (smallest g)) < 0) files.

Lemma icmp_user_le a b : icmp a b <= 0 -> Compare ucmp (ExtractUserKey a) (ExtractUserKey b) <= 0.
Proof. rewrite icmp_le by done. intros [?|[E _]]; [lia|]. rewrite E, (proj2 (ucmp_eq ucmp _ _) eq_refl). lia. Qed.

Lemma level_wf_sorted files : level_wf files -> StronglySorted largest_le files.
Proof.
  intros [Hw Hs]. induction Hs as [|f files Hs IH Hf]; constructor.
  - apply IH. by inversion_clear Hw.
  - inversion_clear Hw as [|? ? _ Hw']. rewrite Forall_forall in *. intros g Hg.
    destruct (Hw' g Hg) as (_ & _ & Hle). specialize (Hf g Hg).
    apply (to_trans (cmp := icmp) (valid := any_key) _ (rep_ (smallest g)) _ I I I); [lia|done].
Qed.

(** No valid internal key sorts before the seek key of its user key. *)
Lemma before_seek_key k u :
  is_Some (ParseInternalKey k) ->
  icmp k (rep_ (InternalKey_new u kMaxSequenceNumber kValueTypeForSeek)) < 0 <->
  Compare ucmp (ExtractUserKey k) u < 0.
Proof.
  intros [p Hp]. apply Parse_inv in Hp as (_ & _ & [Hs0 Hs] & Ht). rewrite icmp_lt by done.
  unfold InternalKey_new. cbn [rep_]. rewrite AppendInternalKey_nil. cbn [user_key sequence type].
  rewrite ExtractUserKey_app, ExtractTag_app by apply Pack_range, seq_ok_max.
  rewrite Ht, !Pack_val by (done || apply seq_ok_max). pose proof (ValueType_range (type p)). cbn [ValueType_to_Z kValueTypeForSeek].
  split; [intros [?|[_ ?]]; [done|lia]|by left].
Qed.

Lemma FindFile_ref_user files u i f :
  level_wf files -> files !! i = Some f ->
  Z.of_nat i < FindFile_ref files (rep_ (InternalKey_new u kMaxSequenceNumber kValueTypeForSeek)) <->
  Compare ucmp (hi_key f) u < 0.
Proof.
  intros Hw Hi. rewrite <- FindFile_ref_spec by (done || by apply level_wf_sorted).
  apply before_seek_key. destruct Hw as [Hw _]. rewrite Forall_lookup in Hw. apply (Hw i f Hi).
Qed.

(** User keys of a well-formed level do not decrease from file to file. *)
Lemma level_wf_user files i j f g :
  level_wf files -> (i < j)%nat -> files !! i = Some f -> files !! j = Some g ->
  Compare ucmp (hi_key f) (lo_key g) <= 0.
Proof.
  intros [_ Hs] Hij Hi Hj. apply icmp_user_le.
  pose proof (sorted_lookup _ _ i j f g Hs Hij Hi Hj) as Hlt. cbn beta in Hlt. lia.
Qed.

Lemma file_wf_user f : file_wf f -> Compare ucmp (lo_key f) (hi_key f) <= 0.
Proof. intros (_ & _ & Hle). by apply icmp_user_le. Qed.

Lemma SomeFileOverlapsRange_ok files lo hi :
  level_wf files -> Zlength files < 2 ^ 31 ->
  SomeFileOverlapsRange ucmp true files lo hi = SomeFileOverlapsRange ucmp false files lo hi.
Proof.
  intros Hw Hn. unfold SomeFileOverlapsRange. cbn [negb].
  set (P := fun f => negb (AfterFile ucmp lo f || BeforeFile ucmp hi f)).
  assert (exists n, match lo with
    | None => Some 0
    | Some u => FindFile ucmp files (InternalKey_Encode (InternalKey_new u kMaxSequenceNumber kValueTypeForSeek))
    end = Some n /\ 0 <= n <= Zlength files /\
    forall i f, files !! i = Some f -> (AfterFile ucmp lo f = true <-> Z.of_nat i < n)) as (n & -> & Hr & Hafter).
  { destruct lo as [u|].
    - eexists. split; [apply FindFile_ok; [by apply level_wf_sorted|done]|]. split; [apply FindFile_ref_range|].
      intros i f Hi. cbn [AfterFile]. unfold InternalKey_Encode. rewrite (FindFile_ref_user files u i f Hw Hi).
      pose proof (ucmp_sgn ucmp u (hi_key f)). rewrite Z.gtb_lt. lia.
    - exists 0. split_and!; [done|lia|apply Zlength_nonneg|]. intros i f _. cbn. split; [done|lia]. }
  bind_simpl. destruct (Z.geb_spec n (Zlength files)) as [Hge|Hlt].
  - f_equal. symmetry. apply not_true_iff_false. rewrite existsb_lookup. intros (i & f & Hi & HP).
    subst P. cbn beta in HP. rewrite (proj2 (Hafter i f Hi)) in HP; [done|].
    apply lookup_lt_Some in Hi. unfold Zlength in *. lia.
  - destruct (lookup_lt_is_Some_2 files (Z.to_nat n)) as [f Hf]; [unfold Zlength in *; lia|].
    rewrite Hf. bind_simpl. f_equal. apply eq_true_iff_eq. rewrite existsb_lookup. split.
    + intros Hb. exists (Z.to_nat n), f. split; [done|]. subst P. cbn beta.
      destruct (AfterFile ucmp lo f) eqn:Ea; [apply (Hafter _ _ Hf) in Ea; lia|done].
    + intros (i & g & Hi & HP). subst P. cbn beta in HP. apply negb_true_iff, orb_false_iff in HP as [Ha Hb].
      apply negb_true_iff. destruct hi as [e|]; [|done]. cbn [BeforeFile] in *.
      apply Z.ltb_ge in Hb. apply Z.ltb_ge.
      destruct (decide (i = Z.to_nat n)) as [->|Hne]; [congruence|].
      assert (Z.to_nat n < i)%nat as Hni.
      { destruct (decide (Z.of_nat i < n)) as [Hin|]; [|lia]. apply (Hafter _ _ Hi) in Hin. congruence. }
      pose proof (level_wf_user files _ _ f g Hw Hni Hf Hi) as Hfg.
      assert (file_wf f) as Hwf by (destruct Hw as [Hw _]; rewrite Forall_lookup in Hw; by eapply Hw).
      pose proof (file_wf_user f Hwf) as Hlh.
      pose proof (ucmp_sgn ucmp e (lo_key g)). pose proof (ucmp_sgn ucmp e (lo_key f)).
      assert (Compare ucmp (lo_key f) e <= 0); [|lia].
      apply (ucmp_trans ucmp _ (lo_key g)); [by apply (ucmp_trans ucmp _ (hi_key f))|lia].
Qed.

(** ** Overlapping inputs *)

Definition before_range (b : option bytes) (f : FileMetaData) : bool :=
  match b with Some b => Compare ucmp (hi_key f) b <? 0 | None => false end.

Definition after_range (e : option bytes) (f : FileMetaData) : bool :=
  match e with Some e => Compare ucmp (lo_key f) e >? 0 | None => false end.

Definition starts_before (b : option bytes) (f : FileMetaData) : bool :=
  match b with Some b => Compare ucmp (lo_key f) b <? 0 | None => false end.

Definition ends_after (e : option bytes) (f : FileMetaData) : bool :=
  match e with Some e => Compare ucmp (hi_key f) e >? 0 | None => false end.

(** The file's user keys meet the range [b, e]; [None] is unbounded. *)
Definition in_range (b e : option bytes) (f : FileMetaData) : Prop :=
  before_range b f = false /\ after_range e f = false.

(** The file lies inside the range. *)
Definition inside (b e : option bytes) (f : FileMetaData) : Prop :=
  starts_before b f = false /\ ends_after e f = false.

(** [b', e'] contains [b, e]. *)
Definition bound_le (b' b : option bytes) : Prop :=
  match b', b with
  | Some x, Some y => Compare ucmp x y <= 0
  | None, None => True
  | _, _ => False
  end.

Definition bound_ge (e' e : option bytes) : Prop :=
  match e', e with
  | Some x, Some y => Compare ucmp y x <= 0
  | None, None => True
  | _, _ => False
  end.

Lemma ucmp_refl a : Compare ucmp a a = 0.
Proof. by apply ucmp_eq. Qed.

Lemma bound_le_refl b : bound_le b b.
Proof. destruct b as [b|]; [|done]. cbn. rewrite ucmp_refl. lia. Qed.

Lemma bound_ge_refl e : bound_ge e e.
Proof. destruct e as [e|]; [|done]. cbn. rewrite ucmp_refl. lia. Qed.

Lemma bound_le_trans a b c : bound_le a b -> bound_le b c -> bound_le a c.
Proof. destruct a, b, c; cbn; try done. apply (ucmp_trans ucmp). Qed.

Lemma bound_ge_trans a b c : bound_ge a b -> bound_ge b c -> bound_ge a c.
Proof. destruct a, b, c; cbn; try done. intros H1 H2. eapply (ucmp_trans ucmp); eassumption. Qed.

(** How many files can still widen the range. *)
Definition widening (files : list FileMetaData) (b e : option bytes) : nat :=
  length (base.filter (fun f => starts_before b f = true) files) +
  length (base.filter (fun f => ends_after e f = true) files).

Lemma widening_begin files b e f :
  f ∈ files -> starts_before b f = true ->
  (widening files (Some (lo_key f)) e < widening files b e)%nat.
Proof.
  intros Hf Hb. unfold widening.
  enough (length (base.filter (fun g => starts_before (Some (lo_key f)) g = true) files) <
    length (base.filter (fun g => starts_before b g = true) files))%nat by lia.
  apply (filter_shrinks _ _ _ f); [done|done| |].
  - cbn. rewrite ucmp_refl. done.
  - intros g Hg. destruct b as [b|]; [|done]. cbn in *. apply Z.ltb_lt in Hg, Hb. apply Z.ltb_lt.
    by apply (to_lt_trans (Compare ucmp) any_key _ (lo_key f)).
Qed.

Lemma widening_end files b e f :
  f ∈ files -> ends_after e f = true ->
  (widening files b (Some (hi_key f)) < widening files b e)%nat.
Proof.
  intros Hf He. unfold widening.
  enough (length (base.filter (fun g => ends_after (Some (hi_key f)) g = true) files) <
    length (base.filter (fun g => ends_after e g = true) files))%nat by lia.
  apply (filter_shrinks _ _ _ f); [done|done| |].
  - cbn. rewrite ucmp_refl. done.
  - intros g Hg. destruct e as [e|]; [|done]. cbn in *. apply Z.gtb_lt in Hg, He. apply Z.gtb_lt.
    pose proof (ucmp_sgn ucmp (hi_key g) (hi_key f)). pose proof (ucmp_sgn ucmp (hi_key f) e).
    pose proof (to_lt_trans (Compare ucmp) any_key e (hi_key f) (hi_key g) I I I ltac:(lia) ltac:(lia)).
    pose proof (ucmp_sgn ucmp e (hi_key g)). lia.
Qed.

#[global] Instance in_range_dec b e f : Decision (in_range b e f).
Proof. unfold in_range. apply _. Defined.

(** The loop returns the files that meet a range containing the given one; on
    level 0 that range contains each of them. *)
Lemma GetOverlappingInputs_loop_ok level0 files fuel done rest b e :
  files = done ++ rest ->
  (widening files b e * S (length files) + length rest <= fuel)%nat ->
  (level0 = true -> Forall (inside b e) (base.filter (in_range b e) done)) ->
  exists b' e', GetOverlappingInputs_loop ucmp fuel level0 files rest b e (base.filter (in_range b e) done) =
      Some (base.filter (in_range b' e') files) /\
    bound_le b' b /\ bound_ge e' e /\
    (level0 = true -> Forall (inside b' e') (base.filter (in_range b' e') files)) /\
    (level0 = false -> b' = b /\ e' = e).
Proof.
  revert done rest b e. induction fuel as [|fuel IH]; intros done rest b e -> Hf Hin.
  { destruct rest; [|cbn in Hf; lia]. rewrite app_nil_r in *. cbn.
    exists b, e. split_and!; auto using bound_le_refl, bound_ge_refl. }
  destruct rest as [|f rest].
  { rewrite app_nil_r in *. cbn. exists b, e. split_and!; auto using bound_le_refl, bound_ge_refl. }
  cbn [GetOverlappingInputs_loop].
  change (match b with Some b0 => Compare ucmp (hi_key f) b0 <? 0 | None => false end) with (before_range b f).
  change (match e with Some e0 => Compare ucmp (lo_key f) e0 >? 0 | None => false end) with (after_range e f).
  change (match b with Some b0 => Compare ucmp (lo_key f) b0 <? 0 | None => false end) with (starts_before b f).
  change (match e with Some e0 => Compare ucmp (hi_key f) e0 >? 0 | None => false end) with (ends_after e f).
  assert (done ++ f :: rest = (done ++ [f]) ++ rest) as Eapp by (by rewrite <- app_assoc).
  assert (~ in_range b e f -> base.filter (in_range b e) (done ++ [f]) = base.filter (in_range b e) done) as Hskip.
  { intros Hn. rewrite filter_app, filter_cons_False, filter_nil, app_nil_r by done. done. }
  assert (in_range b e f -> base.filter (in_range b e) (done ++ [f]) = base.filter (in_range b e) done ++ [f]) as Hkeep.
  { intros Hn. rewrite filter_app, filter_cons_True, filter_nil by done. done. }
  assert ((level0 = true -> Forall (inside b e) (base.filter (in_range b e) (done ++ [f]))) ->
    exists b' e', GetOverlappingInputs_loop ucmp fuel level0 (done ++ f :: rest) rest b e
        (base.filter (in_range b e) (done ++ [f])) = Some (base.filter (in_range b' e') (done ++ f :: rest)) /\
      bound_le b' b /\ bound_ge e' e /\
      (level0 = true -> Forall (inside b' e') (base.filter (in_range b' e') (done ++ f :: rest))) /\
      (level0 = false -> b' = b /\ e' = e)) as Hnext.
  { intros Hin'. apply IH; [done|cbn in Hf; lia|done]. }
  destruct (before_range b f) eqn:Ebf.
  { rewrite Hskip in Hnext by (unfold in_range; rewrite Ebf; naive_solver). auto. }
  destruct (after_range e f) eqn:Eaf.
  { rewrite Hskip in Hnext by (unfold in_range; rewrite Eaf; naive_solver). auto. }
  rewrite Hkeep in Hnext by done. destruct level0; [|by apply Hnext].
  assert (f ∈ done ++ f :: rest) as Hfin by set_solver.
  destruct (starts_before b f) eqn:Esb.
  - pose proof (widening_begin _ _ e f Hfin Esb) as Hw.
    destruct (IH [] (done ++ f :: rest) (Some (lo_key f)) e eq_refl) as (b' & e' & E & Hb & He & Hi & _);
      [cbn [length] in Hf; nia|done|].
    exists b', e'. split_and!; [done| |done|done|done].
    apply (bound_le_trans _ _ _ Hb). destruct b as [b|]; [|done]. cbn in *. lia.
  - destruct (ends_after e f) eqn:Eea.
    + pose proof (widening_end _ b _ f Hfin Eea) as Hw.
      destruct (IH [] (done ++ f :: rest) b (Some (hi_key f)) eq_refl) as (b' & e' & E & Hb & He & Hi & _);
        [cbn [length] in Hf; nia|done|].
      exists b', e'. split_and!; [done|done| |done|done].
      apply (bound_ge_trans _ _ _ He). destruct e as [e|]; [|done]. cbn in *.
      apply Z.gtb_lt in Eea. pose proof (ucmp_sgn ucmp (hi_key f) e). lia.
    + apply Hnext. intros _. apply Forall_app. split; [by apply Hin|]. by apply Forall_singleton.
Qed.

Lemma widening_le files b e : (widening files b e <= 2 * length files)%nat.
Proof. unfold widening. pose proof (length_filter (fun f => starts_before b f = true) files).
  pose proof (length_filter (fun f => ends_after e f = true) files). lia. Qed.

Lemma GetOverlappingInputs_ok v level begin end_ :
  let files := level_files v level in
  exists b e, GetOverlappingInputs ucmp v level begin end_ = Some (base.filter (in_range b e) files) /\
    bound_le b (InternalKey_user_key <$> begin) /\ bound_ge e (InternalKey_user_key <$> end_) /\
    (level = 0%nat -> Forall (inside b e) (base.filter (in_range b e) files)) /\
    (level <> 0%nat -> b = InternalKey_user_key <$> begin /\ e = InternalKey_user_key <$> end_).
Proof.
  intros files. unfold GetOverlappingInputs. fold files.
  destruct (GetOverlappingInputs_loop_ok (level =? 0)%nat files (overlap_fuel (length files)) [] files
    (InternalKey_user_key <$> begin) (InternalKey_user_key <$> end_) eq_refl) as (b & e & E & Hb & He & H0 & H1).
  - unfold overlap_fuel.
    pose proof (widening_le files (InternalKey_user_key <$> begin) (InternalKey_user_key <$> end_)). nia.
  - constructor.
  - exists b, e. split_and!; [done|done|done| |].
    + intros ->. by apply H0.
    + intros Hl. apply H1. by apply Nat.eqb_neq.
Qed.
End Lemmas.

(** ** Reading through a version *)

Section GetLemmas.
Context (ucmp : Comparator) `{!ComparatorLaws ucmp any_key}.
Context (table_get : FileMetaData -> bytes -> Status * option (bytes * bytes)).
Context (ents : FileMetaData -> list mem_entry).
Abbreviation icmp := (InternalKeyCompare ucmp).

(** The internal key of an entry. *)
Definition ik (e : mem_entry) : bytes := AppendInternalKey [] e.1.

Definition raw (e : mem_entry) : bytes * bytes := (ik e, e.2).

(** What a version relies on for a file: the table holds the entries [ents f] in
    order, inside the file's bounds, the largest of which is an entry's key, and a
    lookup hands over the first entry at or past the key. *)
Record table_ok (f : FileMetaData) : Prop := {
  tl_seq : Forall (fun e => seq_ok (sequence e.1)) (ents f);
  tl_sorted : StronglySorted (fun a b => icmp (ik a) (ik b) < 0) (ents f);
  tl_bounds : Forall (fun e => icmp (rep_ (smallest f)) (ik e) <= 0 /\ icmp (ik e) (rep_ (largest f)) <= 0) (ents f);
  tl_largest : exists e, e ∈ ents f /\ ik e = rep_ (largest f);
  tl_get : forall k, table_get f k =
    (Status_OK, (fun e => (ik e, e.2)) <$> List.find (fun e => icmp (ik e) k >=? 0) (ents f))
}.

(** [r] is the newest version of [u] at [s] among the entries that satisfy [P]. *)
Definition is_newest (P : mem_entry -> Prop) (u : bytes) (s : Z) (r : option mem_entry) : Prop :=
  match r with
  | None => forall q, P q -> ~ visible u s q
  | Some e => P e /\ visible u s e /\ forall q, P q -> visible u s q -> q = e \/ sequence q.1 < sequence e.1
  end.

Lemma is_newest_newest es u s r : is_newest (fun e => e ∈ es) u s r -> newest es u s = r.
Proof.
  destruct r as [e|]; cbn.
  - intros (He & Hv & Hmax). by apply (newest_max ucmp).
  - apply newest_none.
Qed.

(** Entries for one user key that follow one another. *)
Lemma ik_lt_seq e q : seq_ok (sequence e.1) -> seq_ok (sequence q.1) ->
  icmp (ik e) (ik q) <= 0 -> user_key e.1 = user_key q.1 -> sequence q.1 <= sequence e.1.
Proof.
  intros He Hq Hle Hu. unfold ik in Hle. rewrite icmp_le, !AppendInternalKey_nil, !ExtractUserKey_app in Hle by done.
  rewrite !ExtractTag_app, !Pack_val in Hle by (done || by apply Pack_range).
  pose proof (ValueType_range (type e.1)). pose proof (ValueType_range (type q.1)).
  destruct Hle as [Hlt|[_ Hle]]; [|lia]. rewrite Hu, (proj2 (ucmp_eq ucmp _ _) eq_refl) in Hlt. lia.
Qed.

Lemma ik_user_le e q : icmp (ik e) (ik q) <= 0 -> Compare ucmp (user_key e.1) (user_key q.1) <= 0.
Proof.
  intros Hle. apply (icmp_user_le ucmp) in Hle. unfold ik in Hle.
  by rewrite !AppendInternalKey_nil, !ExtractUserKey_app in Hle.
Qed.

(** The seek target. *)
Definition target (u : bytes) (s : Z) : bytes := AppendInternalKey [] (MkParsedInternalKey u s kValueTypeForSeek).

Lemma target_past e u s : seq_ok s -> seq_ok (sequence e.1) ->
  icmp (ik e) (target u s) >= 0 <-> Compare ucmp u (user_key e.1) < 0 \/ visible u s e.
Proof.
  intros Hs He. rewrite <- (to_flip_le icmp any_key) by done. unfold target, ik.
  rewrite lookup_key_seek by done. unfold visible. naive_solver.
Qed.

(** Sequence numbers identify the versions of a user key. *)
Definition unique_seqs (P : mem_entry -> Prop) : Prop :=
  forall e q, P e -> P q -> user_key e.1 = user_key q.1 -> sequence e.1 = sequence q.1 -> e = q.

(** The first entry at or past the target is the newest visible one, or there is
    none in the file. *)
Lemma file_newest es u s :
  Forall (fun e => seq_ok (sequence e.1)) es -> StronglySorted (fun a b => icmp (ik a) (ik b) < 0) es ->
  unique_seqs (fun e => e ∈ es) -> seq_ok s ->
  is_newest (fun e => e ∈ es) u s
    (match List.find (fun e => icmp (ik e) (target u s) >=? 0) es with
     | Some e => if Compare ucmp (user_key e.1) u =? 0 then Some e else None
     | None => None
     end).
Proof.
  intros Hseq Hs Hu Hok. induction Hs as [|e es Hs IH He]; cbn [List.find]; [cbn; set_solver|].
  inversion_clear Hseq as [|? ? Hse Hseq']. rewrite Forall_forall in He, Hseq'.
  pose proof (target_past e u s Hok Hse) as Hiff.
  destruct (Z.geb_spec (icmp (ik e) (target u s)) 0) as [Hge|Hlt].
  - destruct (Z.eqb_spec (Compare ucmp (user_key e.1) u) 0) as [Eu%ucmp_eq|Ne]; [|done|]; cbn.
    + destruct (proj1 Hiff ltac:(lia)) as [Hlt|Hv]; [rewrite Eu, (proj2 (ucmp_eq ucmp _ _) eq_refl) in Hlt; lia|].
      split_and!; [left|done|]. intros q [->|Hq]%elem_of_cons Hqv; [by left|]. right.
      assert (sequence q.1 <= sequence e.1).
      { apply ik_lt_seq; auto; [specialize (He q Hq); lia|]. destruct Hqv. congruence. }
      destruct (decide (sequence q.1 = sequence e.1)) as [Eq|]; [|lia]. exfalso.
      assert (q = e) as -> by (apply Hu; [by right|left|destruct Hqv; congruence|done]).
      specialize (He e Hq). rewrite (to_refl icmp any_key) in He by done. lia.
    + intros q Hq Hqv. apply Ne. destruct Hqv as [Eq Hqs].
      assert (Compare ucmp (user_key e.1) (user_key q.1) <= 0).
      { apply elem_of_cons in Hq as [->|Hq]; [rewrite (proj2 (ucmp_eq ucmp _ _) eq_refl); lia|].
        apply ik_user_le. specialize (He q Hq). lia. }
      rewrite Eq in *. destruct (proj1 Hiff ltac:(lia)) as [Hlt|[Ev _]].
      * pose proof (ucmp_sgn ucmp u (user_key e.1)). lia.
      * by apply ucmp_eq.
  - assert (~ visible u s e) as Hnv by (intros Hv; pose proof (proj2 Hiff (or_intror Hv)); lia).
    assert (unique_seqs (fun e => e ∈ es)) as Hu' by (intros a b Ha Hb; apply Hu; by right).
    specialize (IH ltac:(by apply Forall_forall) Hu').
    destruct (match List.find _ es with Some _ => _ | None => None end) as [x|]; cbn in *.
    + destruct IH as (Hx & Hv & Hmax). split_and!; [by right|done|].
      intros q [->|Hq]%elem_of_cons Hqv; [done|auto].
    + intros q [->|Hq]%elem_of_cons; auto.
Qed.

(** What [SaveValue] and the switch make of a file. *)
Definition file_result (f : FileMetaData) (u : bytes) (s : Z) : option mem_entry :=
  match List.find (fun e => icmp (ik e) (target u s) >=? 0) (ents f) with
  | Some e => if Compare ucmp (user_key e.1) u =? 0 then Some e else None
  | None => None
  end.

(** The answer for a version found, with the caller's [value] as default. *)
Definition version_answer (r : option mem_entry) (value : bytes) : Status * bytes :=
  match r with
  | None => (Status_NotFound [] [], value)
  | Some (p, v) =>
      match type p with kTypeValue => (Status_OK, v) | kTypeDeletion => (Status_NotFound [] [], value) end
  end.

(** The first result of a list of searches. *)
Fixpoint first_some {A B} (f : A -> option B) (l : list A) : option B :=
  match l with
  | [] => None
  | x :: l => match f x with Some y => Some y | None => first_some f l end
  end.

Lemma Get_files_ok files level u s value l :
  Forall table_ok files -> seq_ok s ->
  match first_some (fun f => file_result f u s) files with
  | Some e => exists stats, Get_files ucmp table_get files level (target u s) u value l =
                inl ((version_answer (Some e) value).1, (version_answer (Some e) value).2, stats)
  | None => exists l', Get_files ucmp table_get files level (target u s) u value l = inr l'
  end.
Proof.
  intros Hok Hs. revert l. induction Hok as [|f files Hf Hok IH]; intros l; cbn [first_some Get_files]; [eauto|].
  destruct Hf as [Hseq _ _ _ Hget]. rewrite Hget. cbn [negb ok Status_OK state_].
  unfold file_result. destruct (List.find _ (ents f)) as [e|] eqn:Ef; cbn [fmap option_fmap option_map state].
  - apply List.find_some in Ef as [Hin%list_elem_of_In _]. rewrite Forall_forall in Hseq. specialize (Hseq e Hin).
    unfold SaveValue, ik. rewrite Parse_Append by done. cbn [saver_key].
    destruct (Compare ucmp (user_key e.1) u =? 0); [|apply IH].
    destruct e as [p v]. cbn [fst snd version_answer]. destruct (type p); eexists; reflexivity.
  - apply IH.
Qed.

Definition newer (f g : FileMetaData) : Prop :=
  forall e q, e ∈ ents f -> q ∈ ents g -> user_key e.1 = user_key q.1 -> sequence q.1 < sequence e.1.

(** The invariant of versions: above level 0 files do not overlap; on level 0 a
    higher number, and in general a lower level, means newer data. *)
Record version_ok (v : Version) : Prop := {
  vo_tables : forall level f, f ∈ level_files v level -> table_ok f;
  vo_unique : unique_seqs (fun e => exists level f, f ∈ level_files v level /\ e ∈ ents f);
  vo_numbers : NoDup (map number (level_files v 0));
  vo_level0 : forall f g, f ∈ level_files v 0 -> g ∈ level_files v 0 -> number g < number f -> newer f g;
  vo_sorted : forall level, (0 < level)%nat ->
    level_wf ucmp (level_files v level) /\ Zlength (level_files v level) < 2 ^ 31;
  vo_levels : forall i j f g, (i < j)%nat -> f ∈ level_files v i -> g ∈ level_files v j -> newer f g
}.

Lemma file_result_newest v level f u s :
  version_ok v -> f ∈ level_files v level -> seq_ok s ->
  is_newest (fun e => e ∈ ents f) u s (file_result f u s).
Proof.
  intros Hv Hf Hs. destruct (vo_tables _ Hv level f Hf). apply file_newest; try done.
  intros e q He Hq. apply (vo_unique _ Hv); eauto.
Qed.

(** Results of a sequence of ever older sources combine. *)
Lemma is_newest_cons (P Q : mem_entry -> Prop) u s r r' :
  is_newest P u s r -> is_newest Q u s r' ->
  (forall e q, P e -> Q q -> user_key e.1 = user_key q.1 -> sequence q.1 < sequence e.1) ->
  is_newest (fun e => P e \/ Q e) u s (match r with Some e => Some e | None => r' end).
Proof.
  intros Hr Hr' Hnew. destruct r as [e|]; cbn in Hr.
  - destruct Hr as (He & Hv & Hmax). cbn. split_and!; [by left|done|]. intros q [Hq|Hq] Hqv; [auto|right].
    apply Hnew; [done|done|]. destruct Hv, Hqv. congruence.
  - destruct r' as [e|]; cbn in Hr' |- *.
    + destruct Hr' as (He & Hv & Hmax). split_and!; [by right|done|]. intros q [Hq|Hq] Hqv; [|auto].
      exfalso. by apply (Hr q).
    + intros q [Hq|Hq]; auto.
Qed.

Lemma is_newest_ext (P Q : mem_entry -> Prop) u s r :
  (forall e, P e <-> Q e) -> is_newest P u s r -> is_newest Q u s r.
Proof. intros HPQ. destruct r; cbn; setoid_rewrite HPQ; done. Qed.

Lemma first_some_newest v level fs u s :
  version_ok v -> seq_ok s -> fs ⊆ level_files v level -> StronglySorted newer fs ->
  is_newest (fun e => exists f, f ∈ fs /\ e ∈ ents f) u s (first_some (fun f => file_result f u s) fs).
Proof.
  intros Hv Hs Hsub Hnew. induction Hnew as [|f fs Hnew IH Hf]; [by intros q (? & ?%elem_of_nil & _)|].
  rewrite Forall_forall in Hf. cbn [first_some].
  eapply is_newest_ext, (is_newest_cons (fun e => e ∈ ents f) (fun e => exists f, f ∈ fs /\ e ∈ ents f)).
  - intros e. set_solver.
  - apply (file_result_newest v level); [done|set_solver|done].
  - apply IH. set_solver.
  - intros e q He (g & Hg & Hq). by apply (Hf g Hg).
Qed.

(** ** Level 0 *)

Lemma sort_insert_perm f l : sort_insert f l ≡ₚ f :: l.
Proof.
  induction l as [|g l IH]; [done|]. cbn [sort_insert]. case_match; [|done]. rewrite IH. constructor.
Qed.

Lemma sort_newest_perm l : sort_newest l ≡ₚ l.
Proof. induction l as [|f l IH]; [done|]. cbn. by rewrite sort_insert_perm, IH. Qed.

Lemma sort_insert_sorted f l :
  StronglySorted (fun f g => number f >= number g) l ->
  StronglySorted (fun f g => number f >= number g) (sort_insert f l).
Proof.
  induction 1 as [|g l Hs IH Hg]; cbn [sort_insert]; [repeat constructor|]. unfold NewestFirst at 1.
  destruct (Z.gtb_spec (number g) (number f)).
  - constructor; [done|]. apply Forall_forall. intros h Hh. rewrite sort_insert_perm in Hh.
    rewrite Forall_forall in Hg. apply elem_of_cons in Hh as [->|Hh]; [lia|auto].
  - constructor; [by constructor|]. constructor; [lia|]. eapply Forall_impl; [exact Hg|]. cbn. lia.
Qed.

Lemma sort_newest_sorted l : StronglySorted (fun f g => number f >= number g) (sort_newest l).
Proof. induction l as [|f l IH]; [constructor|]. cbn. by apply sort_insert_sorted. Qed.

Lemma level0_order v fs : version_ok v -> fs ⊆ level_files v 0 -> NoDup (map number fs) ->
  StronglySorted newer (sort_newest fs).
Proof.
  intros Hv Hsub Hnd. pose proof (sort_newest_sorted fs) as Hs.
  rewrite <- (sort_newest_perm fs) in Hnd, Hsub. induction Hs as [|f l Hs IH Hf]; constructor.
  - apply IH; [set_solver|]. cbn in Hnd. by apply NoDup_cons in Hnd as [_ ?].
  - cbn in Hnd. apply NoDup_cons in Hnd as [Hni _]. rewrite Forall_forall in *. intros g Hg.
    apply (vo_level0 _ Hv); [set_solver|set_solver|]. specialize (Hf g Hg).
    assert (number f <> number g); [|lia]. intros E. apply Hni. rewrite E.
    by apply list_elem_of_In, in_map, list_elem_of_In.
Qed.

Lemma NoDup_map_filter (P : FileMetaData -> Prop) `{!forall x, Decision (P x)} l :
  NoDup (map number l) -> NoDup (map number (base.filter P l)).
Proof.
  induction l as [|f l IH]; [done|]. cbn [map]. intros [Hni Hnd]%NoDup_cons. rewrite filter_cons.
  case_decide; [|auto]. cbn [map]. apply NoDup_cons. split; [|auto]. intros Hin. apply Hni.
  apply list_elem_of_In, in_map_iff in Hin as (g & <- & Hg%list_elem_of_In).
  apply list_elem_of_In, in_map, list_elem_of_In. by apply list_elem_of_filter in Hg as [_ ?].
Qed.

(** A visible entry is within its file's user key range. *)
Lemma entry_in_file f e : table_ok f -> e ∈ ents f ->
  Compare ucmp (InternalKey_user_key (smallest f)) (user_key e.1) <= 0 /\
  Compare ucmp (user_key e.1) (InternalKey_user_key (largest f)) <= 0.
Proof.
  intros [_ _ Hb _ _] He. rewrite Forall_forall in Hb. destruct (Hb e He) as [H1 H2].
  apply (icmp_user_le ucmp) in H1, H2. unfold ik in *.
  rewrite AppendInternalKey_nil, ExtractUserKey_app in H1, H2. done.
Qed.

Lemma level0_ok v u s : version_ok v -> seq_ok s ->
  exists fs, files_to_search ucmp v 0 (target u s) u = Some fs /\ fs ⊆ level_files v 0 /\
    is_newest (fun e => exists f, f ∈ level_files v 0 /\ e ∈ ents f) u s
      (first_some (fun f => file_result f u s) fs).
Proof.
  intros Hv Hs. eexists. split; [reflexivity|]. set (fl := base.filter _ _).
  assert (fl ⊆ level_files v 0) as Hsub by (intros f Hf; by apply list_elem_of_filter in Hf as [_ ?]).
  assert (sort_newest fl ⊆ level_files v 0) as Hsub' by (by rewrite sort_newest_perm).
  split; [done|].
  pose proof (first_some_newest v 0 (sort_newest fl) u s Hv Hs Hsub'
    (level0_order v fl Hv Hsub (NoDup_map_filter _ _ (vo_numbers _ Hv)))) as Hn.
  assert (forall q, (exists f, f ∈ level_files v 0 /\ q ∈ ents f) -> visible u s q ->
    exists f, f ∈ sort_newest fl /\ q ∈ ents f) as Hall.
  { intros q (f & Hf & Hq) [Eu _]. exists f. split; [|done]. rewrite sort_newest_perm.
    apply list_elem_of_filter. split; [|done].
    destruct (entry_in_file f q (vo_tables _ Hv 0 f Hf) Hq) as [H1 H2]. rewrite Eu in *.
    pose proof (ucmp_sgn ucmp u (InternalKey_user_key (smallest f))). split; lia. }
  destruct (first_some _ _) as [e|]; cbn in *.
  - destruct Hn as ((f & Hf & He) & Hve & Hmax). split_and!; [set_solver|done|]. intros q Hq Hqv. auto.
  - intros q Hq Hqv. by apply (Hn q (Hall q Hq Hqv)).
Qed.

(** ** Levels above 0 *)

Lemma target_le_entry u s e : seq_ok s -> seq_ok (sequence e.1) -> visible u s e -> icmp (target u s) (ik e) <= 0.
Proof.
  intros Hs He Hv. apply (to_flip_le icmp any_key); [done|done|]. apply target_past; auto.
Qed.

Section OneLevel.
Context (v : Version) (level : nat) (u : bytes) (s : Z).
Hypothesis Hv : version_ok v.
Hypothesis Hlevel : (0 < level)%nat.
Hypothesis Hs : seq_ok s.
Let files := level_files v level.
Let n := FindFile_ref ucmp files (target u s).

Lemma level_entry i f q : files !! i = Some f -> q ∈ ents f -> visible u s q -> n <= Z.of_nat i.
Proof.
  intros Hi Hq Hqv. assert (f ∈ files) as Hf by (by eapply list_elem_of_lookup_2).
  destruct (vo_tables _ Hv level f Hf) as [Hseq _ Hb _ _]. rewrite Forall_forall in Hseq, Hb.
  destruct (Hb q Hq) as [_ Hle].
  pose proof (target_le_entry u s q Hs (Hseq q Hq) Hqv) as Ht.
  destruct (Z.lt_ge_cases (Z.of_nat i) n) as [Hlt|]; [|done]. exfalso.
  apply (FindFile_ref_spec ucmp files (target u s) i f) in Hlt; [|by apply level_wf_sorted, (vo_sorted _ Hv)|done].
  pose proof (to_lt_le_trans icmp any_key _ _ (ik q) I I I Hlt Ht) as Hx.
  apply (to_flip_lt icmp any_key) in Hx; [lia|done|done].
Qed.

(** A visible entry in a file past the one the search picks is older than a
    visible entry of that file. *)
Lemma level_later i f g q : files !! Z.to_nat n = Some f -> files !! i = Some g -> n < Z.of_nat i ->
  q ∈ ents g -> visible u s q -> exists e, e ∈ ents f /\ visible u s e /\ sequence q.1 < sequence e.1.
Proof.
  intros Hn Hi Hlt Hq Hqv. pose proof (FindFile_ref_range ucmp files (target u s)) as Hr. fold n in Hr.
  assert (f ∈ files) as Hf by (by eapply list_elem_of_lookup_2).
  assert (g ∈ files) as Hg by (by eapply list_elem_of_lookup_2).
  destruct (vo_tables _ Hv level f Hf) as [Hseq _ _ (e & He & Ee) _].
  destruct (vo_tables _ Hv level g Hg) as [Hseqg _ Hbg _ _].
  rewrite Forall_forall in Hseq, Hseqg, Hbg. destruct (Hbg q Hq) as [Hlo _].
  destruct (vo_sorted _ Hv level Hlevel) as [Hwf _].
  assert (icmp (ik e) (ik q) < 0) as Heq.
  { rewrite Ee. apply (to_lt_le_trans icmp any_key _ (rep_ (smallest g)) _ I I I); [|done].
    destruct Hwf as [_ Hss]. fold files in Hss. apply (sorted_lookup _ _ (Z.to_nat n) i _ _ Hss); [lia|done|done]. }
  assert (icmp (ik e) (target u s) >= 0) as Hpast.
  { rewrite Ee. pose proof (FindFile_ref_spec ucmp files (target u s) (Z.to_nat n) f
      ltac:(by apply level_wf_sorted) Hn) as Hiff. fold n in Hiff. lia. }
  destruct Hqv as [Equ Hqs]. apply target_past in Hpast; [|done|auto].
  assert (Compare ucmp (user_key e.1) u <= 0) as Hle by (rewrite <- Equ; apply ik_user_le; lia).
  assert (visible u s e) as Hev.
  { destruct Hpast as [Hc|]; [|done]. pose proof (ucmp_sgn ucmp u (user_key e.1)). lia. }
  exists e. split_and!; [done|done|]. destruct Hev as [Eu _].
  assert (sequence q.1 <= sequence e.1) by (apply ik_lt_seq; auto; [lia|congruence]).
  destruct (decide (sequence q.1 = sequence e.1)) as [E|]; [|lia]. exfalso.
  assert (q = e) as -> by (apply (vo_unique _ Hv); eauto; congruence).
  rewrite (to_refl icmp any_key) in Heq by done. lia.
Qed.

Lemma files_to_search_pos ikey uk :
  files_to_search ucmp v level ikey uk =
  if (length files =? 0)%nat then Some []
  else
    index ← FindFile ucmp files ikey;
    if index >=? Zlength files then Some []
    else
      f ← files !! Z.to_nat index;
      Some (if Compare ucmp uk (InternalKey_user_key (smallest f)) <? 0 then [] else [f]).
Proof. subst files n. clear Hv. by destruct level; [lia|]. Qed.

Lemma level_ok_pos :
  exists fs, files_to_search ucmp v level (target u s) u = Some fs /\ fs ⊆ files /\
    is_newest (fun e => exists f, f ∈ files /\ e ∈ ents f) u s
      (first_some (fun f => file_result f u s) fs).
Proof.
  pose proof (FindFile_ref_range ucmp files (target u s)) as Hr. fold n in Hr.
  destruct (vo_sorted _ Hv level Hlevel) as [Hwf Hlen].
  rewrite files_to_search_pos by done. fold files in Hwf, Hlen |- *.
  destruct (Nat.eqb_spec (length files) 0) as [E0|E0].
  { exists []. split_and!; [done|set_solver|]. apply nil_length_inv in E0. cbn. intros q (f & Hf & _). rewrite E0 in Hf. set_solver. }
  rewrite FindFile_ok by (done || by apply level_wf_sorted). fold n. bind_simpl.
  assert (forall q, (exists f, f ∈ files /\ q ∈ ents f) -> visible u s q ->
    exists i f, files !! i = Some f /\ q ∈ ents f /\ n <= Z.of_nat i) as Hpos.
  { intros q (f & Hf & Hq) Hqv. apply list_elem_of_lookup in Hf as [i Hi]. exists i, f. split_and!; [done|done|by eapply level_entry]. }
  destruct (Z.geb_spec n (Zlength files)) as [Hge|Hlt].
  { exists []. split_and!; [done|set_solver|]. cbn. intros q Hq Hqv.
    destruct (Hpos q Hq Hqv) as (i & f & Hi & _ & Hni). apply lookup_lt_Some in Hi. unfold Zlength in *. lia. }
  destruct (lookup_lt_is_Some_2 files (Z.to_nat n)) as [f Hf]; [unfold Zlength in *; lia|].
  rewrite Hf. bind_simpl. assert (f ∈ files) as Hfin by (by eapply list_elem_of_lookup_2).
  assert (forall q, (exists f, f ∈ files /\ q ∈ ents f) -> visible u s q ->
    q ∈ ents f \/ exists e, e ∈ ents f /\ visible u s e /\ sequence q.1 < sequence e.1) as Hdom.
  { intros q Hq Hqv. destruct (Hpos q Hq Hqv) as (i & g & Hi & Hqg & Hni).
    destruct (decide (Z.of_nat i = n)) as [E|E].
    - left. assert (g = f) as -> by (subst n; rewrite <- E, Nat2Z.id in Hf; congruence). done.
    - right. apply (level_later i f g q); [done|done|lia|done|done]. }
  pose proof (file_result_newest v level f u s Hv Hfin Hs) as Hres.
  destruct (Z.ltb_spec (Compare ucmp u (InternalKey_user_key (smallest f))) 0) as [Hc|Hc].
  - exists []. split_and!; [done|set_solver|]. cbn. intros q Hq Hqv.
    assert (exists e, e ∈ ents f /\ visible u s e) as (e & He & [Eu _])
      by (destruct (Hdom q Hq Hqv) as [?|(e & ? & ? & _)]; eauto).
    destruct (entry_in_file f e (vo_tables _ Hv level f Hfin) He) as [H1 _]. rewrite Eu in H1.
    pose proof (ucmp_sgn ucmp u (InternalKey_user_key (smallest f))). lia.
  - exists [f]. split_and!; [done|set_solver|]. cbn [first_some].
    destruct (file_result f u s) as [e|]; cbn in Hres |- *.
    + destruct Hres as (He & Hev & Hmax). split_and!; [eauto|done|]. intros q Hq Hqv.
      destruct (Hdom q Hq Hqv) as [?|(e' & He' & Hev' & Hlt')]; [auto|right].
      destruct (Hmax e' He' Hev') as [->|]; lia.
    + intros q Hq Hqv. destruct (Hdom q Hq Hqv) as [?|(e' & He' & Hev' & Hlt')]; [by apply (Hres q)|by apply (Hres e')].
Qed.
End OneLevel.

(** ** All levels *)

Lemma Get_levels_ok v levels u s value l :
  version_ok v -> seq_ok s -> StronglySorted lt levels ->
  exists r stats, Get_levels ucmp table_get v levels (target u s) u value l =
      Some ((version_answer r value).1, (version_answer r value).2, stats) /\
    is_newest (fun e => exists level f, level ∈ levels /\ f ∈ level_files v level /\ e ∈ ents f) u s r.
Proof.
  intros Hv Hs Hsort. revert l. induction Hsort as [|level levels Hsort IH Hlt]; intros l; cbn [Get_levels].
  { exists None, (stats_ l). split; [done|]. cbn. intros q (? & ? & ?%elem_of_nil & _). done. }
  rewrite Forall_forall in Hlt.
  assert (exists fs, files_to_search ucmp v level (target u s) u = Some fs /\ fs ⊆ level_files v level /\
    is_newest (fun e => exists f, f ∈ level_files v level /\ e ∈ ents f) u s
      (first_some (fun f => file_result f u s) fs)) as (fs & -> & Hsub & Hn).
  { destruct level as [|level]; [by apply level0_ok|]. by apply level_ok_pos; [|lia|]. }
  bind_simpl.
  assert (Forall table_ok fs) as Htab.
  { apply Forall_forall. intros f Hf. apply (vo_tables _ Hv level), Hsub, Hf. }
  pose proof (Get_files_ok fs (Z.of_nat level) u s value l Htab Hs) as Hg.
  destruct (first_some _ fs) as [e|] eqn:Ef.
  - destruct Hg as (stats & ->). exists (Some e), stats. split; [done|].
    destruct Hn as (He & Hev & Hmax). cbn. split_and!; [set_solver|done|].
    intros q (level' & g & Hl & Hg & Hq) Hqv. apply elem_of_cons in Hl as [->|Hl]; [eauto|right].
    destruct He as (f & Hf & He). apply (vo_levels _ Hv level level' f g); [by apply Hlt|done|done|done|done|].
    destruct Hev, Hqv. congruence.
  - destruct Hg as (l' & ->). destruct (IH l') as (r & stats & E & Hr). exists r, stats. split; [done|].
    destruct r as [e|]; cbn in Hr, Hn |- *.
    + destruct Hr as ((level' & g & Hl & Hg & He) & Hev & Hmax). split_and!; [set_solver|done|].
      intros q (level'' & f & [->|Hl'']%elem_of_cons & Hf & Hq) Hqv; [|eauto 10]. exfalso. eapply (Hn q); eauto.
    + intros q (level'' & f & [->|Hl'']%elem_of_cons & Hf & Hq); eauto 10.
Qed.
End GetLemmas.

(** ** Properties *)

(** A level of two files for the witnesses. *)
Definition key_at (u : string) (s : Z) : InternalKey := InternalKey_new (str u) s kTypeValue.

Definition sample_file (num : Z) (lo hi : string) : FileMetaData :=
  FileMetaData_new num 100 (key_at lo 9) (key_at hi 3).

Definition sample_level : list FileMetaData := [sample_file 4 "b" "d"; sample_file 7 "f" "h"].

Lemma sample_level_wf : level_wf BytewiseComparator sample_level.
Proof.
  split.
  - repeat constructor; try (by eexists); vm_compute; congruence.
  - repeat constructor.
Qed.

(** The binary search over the files of a level returns what the linear scan
    does: the index of the first file whose largest key is at or past the key, or
    the number of files; it stays inside the array and ends. *)
Theorem FindFile_correct (ucmp : Comparator) `{!ComparatorLaws ucmp any_key}
    (files : list FileMetaData) (key : bytes) :
  StronglySorted (largest_le ucmp) files -> Zlength files < 2 ^ 31 ->
  exists n, FindFile ucmp files key = Some n /\ 0 <= n <= Zlength files /\
    forall i f, files !! i = Some f ->
      (InternalKeyCompare ucmp (rep_ (largest f)) key < 0 <-> Z.of_nat i < n).
Proof.
  intros Hs Hn. exists (FindFile_ref ucmp files key). split_and!.
  - by apply FindFile_ok.
  - apply FindFile_ref_range.
  - apply FindFile_ref_range.
  - intros i f Hi. by apply FindFile_ref_spec.
Qed.

Lemma FindFile_correct_witness :
  exists n, FindFile BytewiseComparator sample_level (rep_ (key_at "e" 5)) = Some n /\ 0 <= n <= Zlength sample_level.
Proof.
  destruct (FindFile_correct BytewiseComparator sample_level (rep_ (key_at "e" 5))) as (n & E & Hn & _).
  - apply level_wf_sorted; [exact Bytewise_laws|exact sample_level_wf].
  - reflexivity.
  - exists n. auto.
Defined.

(** On a level above 0, whose files are in order and disjoint, the binary
    search for an overlap answers what the scan of all files answers, for bounded
    and unbounded ranges. *)
Theorem SomeFileOverlapsRange_correct (ucmp : Comparator) `{!ComparatorLaws ucmp any_key}
    (files : list FileMetaData) (lo hi : option bytes) :
  level_wf ucmp files -> Zlength files < 2 ^ 31 ->
  SomeFileOverlapsRange ucmp true files lo hi =
  Some (existsb (fun f => negb (AfterFile ucmp lo f || BeforeFile ucmp hi f)) files).
Proof. intros Hw Hn. by rewrite SomeFileOverlapsRange_ok. Qed.

Lemma SomeFileOverlapsRange_correct_witness :
  SomeFileOverlapsRange BytewiseComparator true sample_level (Some (str "e")) (Some (str "g")) =
  Some (existsb (fun f => negb (AfterFile BytewiseComparator (Some (str "e")) f ||
                                BeforeFile BytewiseComparator (Some (str "g")) f)) sample_level).
Proof. apply SomeFileOverlapsRange_correct; [exact Bytewise_laws|exact sample_level_wf|reflexivity]. Defined.

(** Collecting the inputs of a compaction ends, restarts included, and
    returns exactly the files of the level that meet a user key range [b, e].
    Above level 0 this is the range asked for; on level 0 it contains it, and
    every file returned lies inside it, so that no file left behind shares a user
    key with a file that is compacted. *)
Theorem GetOverlappingInputs_correct (ucmp : Comparator) `{!ComparatorLaws ucmp any_key}
    (v : Version) (level : nat) (begin end_ : option InternalKey) :
  exists b e inputs, GetOverlappingInputs ucmp v level begin end_ = Some inputs /\
    inputs = base.filter (in_range ucmp b e) (level_files v level) /\
    bound_le ucmp b (InternalKey_user_key <$> begin) /\ bound_ge ucmp e (InternalKey_user_key <$> end_) /\
    (level <> 0%nat -> b = InternalKey_user_key <$> begin /\ e = InternalKey_user_key <$> end_) /\
    (level = 0%nat -> forall f g, f ∈ inputs -> g ∈ level_files v level -> g ∉ inputs ->
       Compare ucmp (InternalKey_user_key (largest g)) (InternalKey_user_key (smallest f)) < 0 \/
       Compare ucmp (InternalKey_user_key (largest f)) (InternalKey_user_key (smallest g)) < 0).
Proof.
  destruct (GetOverlappingInputs_ok ucmp v level begin end_) as (b & e & E & Hb & He & H0 & H1).
  exists b, e, (base.filter (in_range ucmp b e) (level_files v level)). split_and!; try done.
  intros Hl f g Hf Hg Hng. specialize (H0 Hl). rewrite Forall_forall in H0. destruct (H0 f Hf) as [Hi1 Hi2].
  assert (~ in_range ucmp b e g) as Hout by (intros Hr; apply Hng; by apply list_elem_of_filter).
  unfold in_range in Hout. destruct (before_range ucmp b g) eqn:Eb; [left|destruct (after_range ucmp e g) eqn:Ea; [right|naive_solver]].
  - destruct b as [b|]; [|done]. cbn in *. apply Z.ltb_lt in Eb. apply Z.ltb_ge in Hi1.
    apply (to_lt_le_trans (Compare ucmp) any_key _ b); try done.
    pose proof (ucmp_sgn ucmp b (InternalKey_user_key (smallest f))). lia.
  - destruct e as [e|]; [|done]. cbn in *. apply Z.gtb_lt in Ea.
    assert (Compare ucmp (InternalKey_user_key (largest f)) e <= 0) by lia.
    apply (to_le_lt_trans (Compare ucmp) any_key _ e); try done.
    pose proof (ucmp_sgn ucmp e (InternalKey_user_key (smallest g))). lia.
Qed.

Definition overlap_version : Version :=
  MkVersion ([[sample_file 9 "a" "c"; sample_file 8 "b" "f"; sample_file 5 "k" "m"]; sample_level] ++ replicate 5 [])
    None (-1) (double_of_int (-1)) (-1).

Lemma GetOverlappingInputs_correct_witness :
  exists b inputs,
    GetOverlappingInputs BytewiseComparator overlap_version 0 (Some (key_at "c" 5)) (Some (key_at "d" 5)) = Some inputs /\
    map number inputs = [9; 8] /\ bound_le BytewiseComparator b (Some (str "c")).
Proof.
  destruct (GetOverlappingInputs_correct BytewiseComparator overlap_version 0 (Some (key_at "c" 5)) (Some (key_at "d" 5)))
    as (b & e & inputs & E & _ & Hb & _).
  exists b, inputs. split; [exact E|]. split; [|exact Hb].
  vm_compute in E. injection E as <-. reflexivity.
Defined.

(** All entries of a version, level by level. *)
Definition version_entries (ents : FileMetaData -> list mem_entry) (v : Version) : list mem_entry :=
  concat (map (fun level => concat (map ents (level_files v level))) (seq 0 (Z.to_nat config.kNumLevels))).

Lemma elem_of_version_entries ents v e :
  e ∈ version_entries ents v <->
  exists level f, level ∈ seq 0 (Z.to_nat config.kNumLevels) /\ f ∈ level_files v level /\ e ∈ ents f.
Proof.
  unfold version_entries. rewrite list_elem_of_In, in_concat. setoid_rewrite in_map_iff. split.
  - intros (es & (level & <- & Hl) & He). apply in_concat in He as (x & (f & <- & Hf)%in_map_iff & He).
    exists level, f. by rewrite !list_elem_of_In.
  - intros (level & f & Hl & Hf & He). exists (concat (map ents (level_files v level))).
    split; [exists level; split; [done|by apply list_elem_of_In]|].
    apply in_concat. exists (ents f). split; [by apply in_map, list_elem_of_In|by apply list_elem_of_In].
Qed.

Lemma Version_Get_ok (ucmp : Comparator) `{!ComparatorLaws ucmp any_key}
    (table_get : FileMetaData -> bytes -> Status * option (bytes * bytes))
    (ents : FileMetaData -> list mem_entry) (v : Version) (u : bytes) (s : Z) (value : bytes) :
  version_ok ucmp table_get ents v -> seq_ok s ->
  let answer := version_answer (newest (version_entries ents v) u s) value in
  exists stats, Version_Get ucmp table_get v (LookupKey_new u s) value = Some (answer.1, answer.2, stats).
Proof.
  intros Hv Hs. unfold Version_Get. rewrite LookupKey_internal_key, LookupKey_user_key.
  assert (StronglySorted lt (seq 0 (Z.to_nat config.kNumLevels))) as Hsort by (repeat constructor; lia).
  destruct (Get_levels_ok ucmp table_get ents v _ u s value (MkLocals None (MkGetStats None (-1))) Hv Hs Hsort)
    as (r & stats & E & Hr).
  exists stats. unfold target in E. rewrite E. rewrite (is_newest_newest ucmp _ u s r); [done|].
  eapply is_newest_ext; [|exact Hr]. intros e. by rewrite elem_of_version_entries.
Qed.

(** C4: Reading through a version returns the newest version of a user key at or
    before the snapshot, over all its files: the value it holds, or "not found" if
    it is a deletion or there is none.  This rests on what a version promises:
    tables are sorted and inside their files' bounds, files above level 0 do not
    overlap, and newer data is on a lower level or, on level 0, in a file with a
    higher number. *)
Theorem Version_Get_newest (ucmp : Comparator) `{!ComparatorLaws ucmp any_key}
    (table_get : FileMetaData -> bytes -> Status * option (bytes * bytes))
    (ents : FileMetaData -> list mem_entry) (v : Version) (u : bytes) (s : Z) (value : bytes) :
  version_ok ucmp table_get ents v -> seq_ok s ->
  let answer := version_answer (newest (version_entries ents v) u s) value in
  exists stats, Version_Get ucmp table_get v (LookupKey_new u s) value = Some (answer.1, answer.2, stats).
Proof.
  intros Hv Hs. by apply Version_Get_ok.
Qed.

(** A version of one file on level 0 and one on level 1. *)
Definition sample_entries (f : FileMetaData) : list mem_entry :=
  if number f =? 7 then [(MkParsedInternalKey (str "f") 9 kTypeValue, str "new"); (MkParsedInternalKey (str "h") 3 kTypeValue, [])]
  else [(MkParsedInternalKey (str "b") 2 kTypeValue, []); (MkParsedInternalKey (str "f") 1 kTypeValue, str "old")].

Definition sample_version : Version :=
  MkVersion [[sample_file 7 "f" "h"]; [FileMetaData_new 4 100 (key_at "b" 2) (key_at "f" 1)]] None (-1) (double_of_int 0) 0.

Definition sample_get (f : FileMetaData) (k : bytes) : Status * option (bytes * bytes) :=
  (Status_OK, (fun e => (ik e, e.2)) <$>
    List.find (fun e => InternalKeyCompare BytewiseComparator (ik e) k >=? 0) (sample_entries f)).

Lemma sample_levels level f : f ∈ level_files sample_version level ->
  (level = 0%nat /\ f = sample_file 7 "f" "h") \/
  (level = 1%nat /\ f = FileMetaData_new 4 100 (key_at "b" 2) (key_at "f" 1)).
Proof.
  destruct level as [|[|[|level]]]; cbn; intros Hf; try (by apply elem_of_nil in Hf);
    apply list_elem_of_singleton in Hf; auto.
Qed.

Lemma sample_version_ok : version_ok BytewiseComparator sample_get sample_entries sample_version.
Proof.
  assert (forall s, 0 <= s < 100 -> seq_ok s) as Hsq by (intros; unfold seq_ok; rewrite kMaxSequenceNumber_val; lia).
  constructor.
  - intros level f [[-> ->]|[-> ->]]%sample_levels; constructor.
    + repeat constructor; apply Hsq; split; vm_compute; congruence.
    + repeat constructor.
    + repeat constructor; vm_compute; congruence.
    + eexists. split; [right; left|reflexivity].
    + reflexivity.
    + repeat constructor; apply Hsq; split; vm_compute; congruence.
    + repeat constructor.
    + repeat constructor; vm_compute; congruence.
    + eexists. split; [right; left|reflexivity].
    + reflexivity.
  - intros e q (l & f & [[-> ->]|[-> ->]]%sample_levels & He) (l' & g & [[-> ->]|[-> ->]]%sample_levels & Hq);
      cbn in He, Hq; repeat (apply elem_of_cons in He as [->|He]); try (by apply elem_of_nil in He);
      repeat (apply elem_of_cons in Hq as [->|Hq]); try (by apply elem_of_nil in Hq);
      first [by intros|intros E1 E2; vm_compute in E1, E2; congruence].
  - repeat constructor. set_solver.
  - intros f g [[_ ->]|[? _]]%sample_levels [[_ ->]|[? _]]%sample_levels; try lia. 
  - intros level Hl. destruct level as [|[|[|level]]]; [lia| | |]; (split; [|reflexivity]);
      split; repeat constructor; try (by eexists); vm_compute; congruence.
  - intros i j f g Hij [[-> ->]|[-> ->]]%sample_levels [[-> ->]|[-> ->]]%sample_levels; try lia.
    intros e q He Hq. cbn in He, Hq. repeat (apply elem_of_cons in He as [->|He]); try (by apply elem_of_nil in He);
      repeat (apply elem_of_cons in Hq as [->|Hq]); try (by apply elem_of_nil in Hq);
      intros E; vm_compute in E; first [congruence|reflexivity].
Qed.

Lemma Version_Get_newest_witness :
  exists stats, Version_Get BytewiseComparator sample_get sample_version (LookupKey_new (str "f") 20) [] =
    Some (Status_OK, str "new", stats).
Proof.
  apply (Version_Get_newest BytewiseComparator sample_get sample_entries sample_version (str "f") 20 []).
  - exact sample_version_ok.
  - unfold seq_ok. rewrite kMaxSequenceNumber_val. lia.
Defined.
