(* ===== verification/VersionSet.v ===== *)
(** db/version_set.{h,cpp}, second part: building versions from edits, choosing
    compactions, and what a compaction asks about its inputs.

    The set keeps its numbers, the compaction pointers and the current version;
    the manifest's writer is added in Manifest.v, old versions are not kept,
    and a builder holds its base version by value. *)

From Stdlib Require Import ZArith Lia List Bool String Sorting.Sorted Floats.SpecFloat.
From S2P Require Import Prelude Lists Coding Slice Comparator Bloom Filename DbFormat VersionEdit.
From S2P Require Import Arena SkipList MemTable Version.

Definition num_levels : nat := Z.to_nat config.kNumLevels.

Record VersionSet := MkVersionSet {
  next_file_number_ : Z;
  manifest_file_number_ : Z;
  last_sequence_ : Z;
  log_number_ : Z;
  prev_log_number_ : Z;
  compact_pointer_ : list bytes;
  current_ : Version
}.

Definition compact_pointer (vs : VersionSet) (level : nat) : bytes := nth level (compact_pointer_ vs) [].

(** The constructor leaves [log_number_] uninitialised: [garbage]. *)
Definition VersionSet_new (garbage : Z) : VersionSet :=
  MkVersionSet 2 0 0 garbage 0 (replicate num_levels []) Version_new.

Definition NewFileNumber (vs : VersionSet) : Z * VersionSet :=
  (next_file_number_ vs,
   MkVersionSet (u64 (next_file_number_ vs + 1)) (manifest_file_number_ vs) (last_sequence_ vs) (log_number_ vs)
     (prev_log_number_ vs) (compact_pointer_ vs) (current_ vs)).

Definition with_next_file (vs : VersionSet) (n : Z) : VersionSet :=
  MkVersionSet n (manifest_file_number_ vs) (last_sequence_ vs) (log_number_ vs)
    (prev_log_number_ vs) (compact_pointer_ vs) (current_ vs).

Definition ReuseFileNumber (vs : VersionSet) (file_number : Z) : VersionSet :=
  if next_file_number_ vs =? u64 (file_number + 1) then with_next_file vs file_number else vs.

Definition MarkFileNumberUsed (vs : VersionSet) (num : Z) : VersionSet :=
  if next_file_number_ vs <=? num then with_next_file vs (u64 (num + 1)) else vs.

Definition NumLevelFiles (vs : VersionSet) (level : nat) : Z := Zlength (level_files (current_ vs) level).

(** The numbers of the files of [versions], the list of live versions. *)
Definition AddLiveFiles (versions : list Version) (live : gset Z) : gset Z :=
  fold_left (fun live v =>
    fold_left (fun live level =>
      fold_left (fun live f => {[number f]} ∪ live) (level_files v level) live)
    (seq 0 num_levels) live) versions live.

(** ** Sizes and scores: doubles *)

Definition dmul := SFmul 53 1024.
Definition ddiv := SFdiv 53 1024.

Fixpoint MaxBytesForLevel_loop (fuel : nat) (result : spec_float) : spec_float :=
  match fuel with O => result | S n => MaxBytesForLevel_loop n (dmul result (double_of_int 10)) end.

(** The [while (level > 1)] loop multiplies [level - 1] times. *)
Definition MaxBytesForLevel (level : nat) : spec_float :=
  MaxBytesForLevel_loop (level - 1) (dmul (double_of_int 10) (double_of_int 1048576)).

Definition level_score (v : Version) (level : nat) : spec_float :=
  match level with
  | O => ddiv (double_of_int (Zlength (level_files v 0))) (double_of_int config.kL0_CompactionTrigger)
  | _ => ddiv (double_of_int (u64 (TotalFileSize (level_files v level)))) (MaxBytesForLevel level)
  end.

Definition Finalize (v : Version) : Version :=
  let '(best_level, best_score) :=
    fold_left (fun '(best_level, best_score) level =>
      let score := level_score v level in
      if SFltb best_score score then (Z.of_nat level, score) else (best_level, best_score))
    (seq 0 (num_levels - 1)) (-1, double_of_int (-1)) in
  MkVersion (files_ v) (file_to_compact_ v) (file_to_compact_level_ v) best_score best_level.

Definition score_due (v : Version) : bool := SFleb (double_of_int 1) (compaction_score_ v).

Definition NeedsCompaction (vs : VersionSet) : bool :=
  score_due (current_ vs) || match file_to_compact_ (current_ vs) with Some _ => true | None => false end.

Section VersionSet.
Context (ucmp : Comparator).
Abbreviation icmp := (InternalKeyCompare ucmp).

(** ** VersionSet::Builder *)

Definition BySmallestKey (f1 f2 : FileMetaData) : bool :=
  let r := icmp (rep_ (smallest f1)) (rep_ (smallest f2)) in
  if negb (r =? 0) then r <? 0 else number f1 <? number f2.

(** [std::set<FileMetaData*, BySmallestKey>::insert] *)
Fixpoint FileSet_insert (f : FileMetaData) (s : list FileMetaData) : list FileMetaData :=
  match s with
  | [] => [f]
  | g :: s' =>
      if BySmallestKey f g then f :: s
      else if BySmallestKey g f then g :: FileSet_insert f s'
      else s
  end.

Record LevelState := MkLevelState { deleted_files : gset Z; added_files : list FileMetaData }.

Record Builder := MkBuilder { base_ : Version; levels_ : list LevelState }.

Definition Builder_new (base : Version) : Builder :=
  MkBuilder base (replicate num_levels (MkLevelState ∅ [])).

Definition level_state (b : Builder) (level : nat) : LevelState := nth level (levels_ b) (MkLevelState ∅ []).

Definition Apply_delete (levels : list LevelState) (d : Z * Z) : list LevelState :=
  alter (fun st => MkLevelState ({[d.2]} ∪ deleted_files st) (added_files st)) (Z.to_nat d.1) levels.

(** The copy of a new file's metadata that the builder makes. *)
Definition Apply_file (f : FileMetaData) : FileMetaData :=
  let seeks := s32 (u32 (file_size f / 16384)) in
  MkFileMetaData 1 (if seeks <? 100 then 100 else seeks) (number f) (file_size f) (smallest f) (largest f).

Definition Apply_add (levels : list LevelState) (n : Z * FileMetaData) : list LevelState :=
  let f := Apply_file n.2 in
  alter (fun st => MkLevelState (deleted_files st ∖ {[number f]}) (FileSet_insert f (added_files st)))
    (Z.to_nat n.1) levels.

Definition Apply (b : Builder) (edit : VersionEdit) : Builder :=
  let levels := fold_left Apply_delete (deleted_files_ edit) (levels_ b) in
  MkBuilder (base_ b) (fold_left Apply_add (new_files_ edit) levels).

(** The compaction pointers of the set that [Apply] updates. *)
Definition Apply_pointers (pointers : list bytes) (edit : VersionEdit) : list bytes :=
  fold_left (fun ps c => <[Z.to_nat c.1 := InternalKey_Encode c.2]> ps) (compact_pointers_ edit) pointers.

(** [None]: the assertion that files do not overlap fails. *)
Definition MaybeAddFile (level : nat) (deleted : gset Z) (files : list FileMetaData) (f : FileMetaData)
    : option (list FileMetaData) :=
  if decide (number f ∈ deleted) then Some files
  else
    match last files with
    | Some g =>
        if (0 <? level)%nat && negb (icmp (rep_ (largest g)) (rep_ (smallest f)) <? 0) then None
        else Some (files ++ [f])
    | None => Some (files ++ [f])
    end.

Fixpoint MaybeAddFiles (level : nat) (deleted : gset Z) (files fs : list FileMetaData)
    : option (list FileMetaData) :=
  match fs with
  | [] => Some files
  | f :: fs => files ← MaybeAddFile level deleted files f; MaybeAddFiles level deleted files fs
  end.

(** [std::upper_bound] on a sorted range: the elements before the first one that
    [a] is smaller than, and the rest. *)
Fixpoint upper_bound (base : list FileMetaData) (a : FileMetaData) : list FileMetaData * list FileMetaData :=
  match base with
  | [] => ([], [])
  | b :: base' =>
      if BySmallestKey a b then ([], base)
      else let '(pre, post) := upper_bound base' a in (b :: pre, post)
  end.

Fixpoint SaveTo_loop (level : nat) (deleted : gset Z) (base added files : list FileMetaData)
    : option (list FileMetaData) :=
  match added with
  | [] => MaybeAddFiles level deleted files base
  | a :: added =>
      let '(pre, base) := upper_bound base a in
      files ← MaybeAddFiles level deleted files pre;
      files ← MaybeAddFile level deleted files a;
      SaveTo_loop level deleted base added files
  end.

(** The check of debug builds. *)
Fixpoint no_overlap (files : list FileMetaData) : bool :=
  match files with
  | f :: ((g :: _) as rest) => negb (icmp (rep_ (largest f)) (rep_ (smallest g)) >=? 0) && no_overlap rest
  | _ => true
  end.

Definition SaveTo_level (b : Builder) (level : nat) : option (list FileMetaData) :=
  let st := level_state b level in
  files ← SaveTo_loop level (deleted_files st) (level_files (base_ b) level) (added_files st) [];
  if (0 <? level)%nat && negb (no_overlap files) then None else Some files.

Fixpoint SaveTo_levels (b : Builder) (levels : list nat) : option (list (list FileMetaData)) :=
  match levels with
  | [] => Some []
  | level :: levels => fs ← SaveTo_level b level; rest ← SaveTo_levels b levels; Some (fs :: rest)
  end.

Definition SaveTo (b : Builder) : option Version :=
  files ← SaveTo_levels b (seq 0 num_levels);
  Some (MkVersion files None (-1) (double_of_int (-1)) (-1)).

(** ** Ranges *)

(** [None]: [inputs] is empty. *)
Definition GetRange (inputs : list FileMetaData) : option (InternalKey * InternalKey) :=
  match inputs with
  | [] => None
  | f :: inputs =>
      Some (fold_left (fun '(lo, hi) f =>
        (if icmp (rep_ (smallest f)) (rep_ lo) <? 0 then smallest f else lo,
         if icmp (rep_ (largest f)) (rep_ hi) >? 0 then largest f else hi)) inputs (smallest f, largest f))
  end.

Definition GetRange2 (inputs1 inputs2 : list FileMetaData) : option (InternalKey * InternalKey) :=
  GetRange (inputs1 ++ inputs2).

(** ** Compaction *)

Record Compaction := MkCompaction {
  level_ : nat;
  max_output_file_size_ : Z;
  input_version_ : Version;
  edit_ : VersionEdit;
  inputs0_ : list FileMetaData;
  inputs1_ : list FileMetaData;
  grandparents_ : list FileMetaData;
  grandparent_index_ : nat;
  seen_key_ : bool;
  overlapped_bytes_ : Z;
  level_ptrs_ : list nat
}.

Definition Compaction_new (level : nat) (input : Version) (inputs0 : list FileMetaData) : Compaction :=
  MkCompaction level (MaxFileSizeForLevel level) input VersionEdit_new inputs0 [] [] 0 false 0
    (replicate num_levels 0%nat).

Definition with_inputs (c : Compaction) (in0 in1 grand : list FileMetaData) (e : VersionEdit) : Compaction :=
  MkCompaction (level_ c) (max_output_file_size_ c) (input_version_ c) e in0 in1 grand
    (grandparent_index_ c) (seen_key_ c) (overlapped_bytes_ c) (level_ptrs_ c).

(** Growing the inputs on [level] without changing those on [level + 1]; the
    result is the inputs, [largest] and the range of all of them. *)
Definition expand_inputs (v : Version) (level : nat) (in0 in1 : list FileMetaData)
    (hi all_start all_limit : InternalKey)
    : option (list FileMetaData * list FileMetaData * InternalKey * InternalKey * InternalKey) :=
  match in1 with
  | [] => Some (in0, in1, hi, all_start, all_limit)
  | _ =>
      expanded0 ← GetOverlappingInputs ucmp v level (Some all_start) (Some all_limit);
      if (length in0 <? length expanded0)%nat &&
         (TotalFileSize in1 + TotalFileSize expanded0 <? kExpandedCompactionByteSizeLimit) then
        '(new_start, new_limit) ← GetRange expanded0;
        expanded1 ← GetOverlappingInputs ucmp v (level + 1) (Some new_start) (Some new_limit);
        if (length expanded1 =? length in1)%nat then
          '(all_start, all_limit) ← GetRange2 expanded0 expanded1;
          Some (expanded0, expanded1, new_limit, all_start, all_limit)
        else Some (in0, in1, hi, all_start, all_limit)
      else Some (in0, in1, hi, all_start, all_limit)
  end.

Definition SetupOtherInputs (vs : VersionSet) (c : Compaction) : option (VersionSet * Compaction) :=
  let level := level_ c in
  let v := current_ vs in
  '(lo, hi) ← GetRange (inputs0_ c);
  in1 ← GetOverlappingInputs ucmp v (level + 1) (Some lo) (Some hi);
  '(all_start, all_limit) ← GetRange2 (inputs0_ c) in1;
  '(in0, in1, hi, all_start, all_limit) ← expand_inputs v level (inputs0_ c) in1 hi all_start all_limit;
  grand ← (if (level + 2 <? num_levels)%nat
           then GetOverlappingInputs ucmp v (level + 2) (Some all_start) (Some all_limit)
           else Some (grandparents_ c));
  let vs := MkVersionSet (next_file_number_ vs) (manifest_file_number_ vs) (last_sequence_ vs) (log_number_ vs)
              (prev_log_number_ vs) (<[level := InternalKey_Encode hi]> (compact_pointer_ vs)) v in
  Some (vs, with_inputs c in0 in1 grand (SetCompactPointer (edit_ c) (Z.of_nat level) hi)).

(** The first file after the compaction pointer, else the first file. *)
Definition pick_file (vs : VersionSet) (level : nat) : option FileMetaData :=
  let files := level_files (current_ vs) level in
  let ptr := compact_pointer vs level in
  match List.find (fun f => Slice.empty ptr || (icmp (rep_ (largest f)) ptr >? 0)) files with
  | Some f => Some f
  | None => head files
  end.

(** The outer [option] is undefined behaviour, the inner one the NULL result. *)
Definition PickCompaction (vs : VersionSet) : option (option (VersionSet * Compaction)) :=
  let v := current_ vs in
  let setup level f :=
    in0 ← (match level with
           | O => '(lo, hi) ← GetRange [f]; GetOverlappingInputs ucmp v 0 (Some lo) (Some hi)
           | _ => Some [f]
           end);
    r ← SetupOtherInputs vs (Compaction_new level v in0);
    Some (Some r) in
  if score_due v then
    if (compaction_level_ v <? 0) || (config.kNumLevels <=? compaction_level_ v + 1) then None
    else f ← pick_file vs (Z.to_nat (compaction_level_ v)); setup (Z.to_nat (compaction_level_ v)) f
  else
    match file_to_compact_ v with
    | Some f => setup (Z.to_nat (file_to_compact_level_ v)) f
    | None => Some None
    end.

(** The prefix of [inputs] whose size reaches the limit. *)
Fixpoint limit_inputs (limit total : Z) (inputs : list FileMetaData) : list FileMetaData :=
  match inputs with
  | [] => []
  | f :: inputs =>
      let total := u64 (total + file_size f) in
      if limit <=? total then [f] else f :: limit_inputs limit total inputs
  end.

Definition CompactRange (vs : VersionSet) (level : nat) (begin end_ : option InternalKey)
    : option (option (VersionSet * Compaction)) :=
  inputs ← GetOverlappingInputs ucmp (current_ vs) level begin end_;
  match inputs with
  | [] => Some None
  | _ =>
      let inputs := limit_inputs (MaxFileSizeForLevel level) 0 inputs in
      r ← SetupOtherInputs vs (Compaction_new level (current_ vs) inputs);
      Some (Some r)
  end.

Definition IsTrivialMove (c : Compaction) : bool :=
  (length (inputs0_ c) =? 1)%nat && (length (inputs1_ c) =? 0)%nat &&
  (TotalFileSize (grandparents_ c) <=? kMaxGrandParentOverlapBytes).

Definition AddInputDeletions (c : Compaction) (edit : VersionEdit) : VersionEdit :=
  let del lvl e f := DeleteFile e (Z.of_nat lvl) (number f) in
  fold_left (del (level_ c + 1)%nat) (inputs1_ c) (fold_left (del (level_ c)) (inputs0_ c) edit).

(** The inner loop from file [ptr] on, [rest] being the files there: the new
    pointer, and whether the key falls in a file's range. *)
Fixpoint IsBaseLevel_advance (key : bytes) (ptr : nat) (rest : list FileMetaData) : nat * bool :=
  match rest with
  | [] => (ptr, false)
  | f :: rest =>
      if Compare ucmp key (InternalKey_user_key (largest f)) <=? 0 then
        (ptr, Compare ucmp key (InternalKey_user_key (smallest f)) >=? 0)
      else IsBaseLevel_advance key (S ptr) rest
  end.

Fixpoint IsBaseLevel_levels (v : Version) (key : bytes) (levels ptrs : list nat) : bool * list nat :=
  match levels with
  | [] => (true, ptrs)
  | lvl :: levels =>
      let ptr := nth lvl ptrs 0%nat in
      let '(ptr, inside) := IsBaseLevel_advance key ptr (drop ptr (level_files v lvl)) in
      let ptrs := <[lvl := ptr]> ptrs in
      if (inside : bool) then (false, ptrs) else IsBaseLevel_levels v key levels ptrs
  end.

Definition with_ptrs (c : Compaction) (ptrs : list nat) : Compaction :=
  MkCompaction (level_ c) (max_output_file_size_ c) (input_version_ c) (edit_ c) (inputs0_ c) (inputs1_ c)
    (grandparents_ c) (grandparent_index_ c) (seen_key_ c) (overlapped_bytes_ c) ptrs.

Definition IsBaseLevelForKey (c : Compaction) (key : bytes) : bool * Compaction :=
  let '(r, ptrs) := IsBaseLevel_levels (input_version_ c) key
                      (seq (level_ c + 2) (num_levels - (level_ c + 2))) (level_ptrs_ c) in
  (r, with_ptrs c ptrs).

(** The [while] loop never advances [grandparent_index_]; it is left with fuel
    only when its condition is false. *)
Fixpoint ShouldStopBefore_loop (fuel : nat) (c : Compaction) (internal_key : bytes) : option Compaction :=
  match grandparents_ c !! grandparent_index_ c with
  | None => Some c
  | Some g =>
      if icmp internal_key (rep_ (largest g)) >? 0 then
        match fuel with
        | O => None
        | S fuel' =>
            ShouldStopBefore_loop fuel'
              (MkCompaction (level_ c) (max_output_file_size_ c) (input_version_ c) (edit_ c) (inputs0_ c)
                 (inputs1_ c) (grandparents_ c) (grandparent_index_ c) (seen_key_ c)
                 (if seen_key_ c then overlapped_bytes_ c + file_size g else overlapped_bytes_ c)
                 (level_ptrs_ c)) internal_key
        end
      else Some c
  end.

Definition ShouldStopBefore (fuel : nat) (c : Compaction) (internal_key : bytes) : option (bool * Compaction) :=
  c ← ShouldStopBefore_loop fuel c internal_key;
  let mk overlapped :=
    MkCompaction (level_ c) (max_output_file_size_ c) (input_version_ c) (edit_ c) (inputs0_ c)
      (inputs1_ c) (grandparents_ c) (grandparent_index_ c) true overlapped (level_ptrs_ c) in
  if overlapped_bytes_ c >? kMaxGrandParentOverlapBytes then Some (true, mk 0)
  else Some (false, mk (overlapped_bytes_ c)).

End VersionSet.

(** ** Lemmas: the builder *)

Section BuilderLemmas.
Context (ucmp : Comparator) `{!ComparatorLaws ucmp any_key}.
Abbreviation icmp := (InternalKeyCompare ucmp).

(** The merge without deletions and assertions. *)
Fixpoint merge_files (base added : list FileMetaData) : list FileMetaData :=
  match added with
  | [] => base
  | a :: added => let '(pre, base) := upper_bound ucmp base a in pre ++ a :: merge_files base added
  end.

Definition keep (deleted : gset Z) (fs : list FileMetaData) : list FileMetaData :=
  base.filter (fun f => number f ∉ deleted) fs.

Lemma upper_bound_app base a : (upper_bound ucmp base a).1 ++ (upper_bound ucmp base a).2 = base.
Proof.
  induction base as [|b base IH]; [done|]. cbn [upper_bound]. case_match; [done|].
  destruct (upper_bound ucmp base a) as [pre post]. cbn in *. by rewrite IH.
Qed.

Lemma merge_files_perm base added : merge_files base added ≡ₚ base ++ added.
Proof.
  revert base. induction added as [|a added IH]; intros base; cbn [merge_files]; [by rewrite app_nil_r|].
  pose proof (upper_bound_app base a) as E. destruct (upper_bound ucmp base a) as [pre post]. cbn in E. subst base.
  rewrite IH, <- app_assoc. apply Permutation_app_head. by rewrite Permutation_middle.
Qed.

Lemma MaybeAddFiles_app level del files fs fs' :
  MaybeAddFiles ucmp level del files (fs ++ fs') =
  (files ← MaybeAddFiles ucmp level del files fs; MaybeAddFiles ucmp level del files fs').
Proof.
  revert files. induction fs as [|f fs IH]; intros files; [done|]. cbn [MaybeAddFiles app].
  destruct (MaybeAddFile ucmp level del files f); [apply IH|done].
Qed.

Lemma SaveTo_loop_merge level del base added files :
  SaveTo_loop ucmp level del base added files = MaybeAddFiles ucmp level del files (merge_files base added).
Proof.
  revert base files. induction added as [|a added IH]; intros base files; [done|]. cbn [SaveTo_loop merge_files].
  destruct (upper_bound ucmp base a) as [pre post]. rewrite MaybeAddFiles_app. cbn [MaybeAddFiles].
  destruct (MaybeAddFiles ucmp level del files pre) as [fs|]; [|done]. bind_simpl.
  destruct (MaybeAddFile ucmp level del fs a); [apply IH|done].
Qed.

Lemma no_overlap_app l f g : no_overlap ucmp (l ++ [f; g]) =
  no_overlap ucmp (l ++ [f]) && (icmp (rep_ (largest f)) (rep_ (smallest g)) <? 0).
Proof.
  assert (forall x y, negb (x >=? y) = (x <? y)) as E by (intros; rewrite Z.geb_leb, Z.ltb_antisym; done).
  induction l as [|h l IH]; cbn [app no_overlap].
  - by rewrite E, andb_true_r.
  - destruct l as [|h' l]; cbn [app] in *; [cbn [no_overlap]; by rewrite !E, !andb_true_r|].
    cbn [no_overlap] in *. rewrite IH. by rewrite andb_assoc.
Qed.

Lemma no_overlap_prefix l l' : no_overlap ucmp (l ++ l') = true -> no_overlap ucmp l = true.
Proof.
  induction l as [|h l IH]; [done|]. cbn [app no_overlap]. destruct l as [|h' l]; [done|]. cbn [app] in *.
  rewrite !andb_true_iff. intros [-> Hr]. auto.
Qed.

Lemma MaybeAddFiles_0 del files fs : MaybeAddFiles ucmp 0 del files fs = Some (files ++ keep del fs).
Proof.
  unfold keep. revert files. induction fs as [|f fs IH]; intros files; cbn [MaybeAddFiles]; [by rewrite app_nil_r|].
  unfold MaybeAddFile. rewrite filter_cons. destruct (decide (number f ∈ del)) as [Hd|Hd].
  - rewrite decide_False by tauto. apply IH.
  - rewrite decide_True by done. cbn [Nat.ltb Nat.leb andb].
    assert (match last files with Some _ => Some (files ++ [f]) | None => Some (files ++ [f]) end =
      Some (files ++ [f])) as -> by (by destruct (last files)).
    bind_simpl. rewrite IH. by rewrite <- app_assoc.
Qed.

Lemma MaybeAddFiles_pos level del files fs :
  (0 < level)%nat -> no_overlap ucmp files = true ->
  MaybeAddFiles ucmp level del files fs =
  if no_overlap ucmp (files ++ keep del fs) then Some (files ++ keep del fs) else None.
Proof.
  unfold keep. intros Hl. revert files. induction fs as [|f fs IH]; intros files Hf; cbn [MaybeAddFiles].
  { rewrite filter_nil, app_nil_r. by rewrite Hf. }
  unfold MaybeAddFile. rewrite filter_cons. destruct (decide (number f ∈ del)) as [Hd|Hd].
  { rewrite decide_False by tauto. by apply IH. }
  rewrite decide_True by done. rewrite (proj2 (Nat.ltb_lt _ _) Hl). cbn [andb].
  assert (files ++ f :: base.filter (fun g => number g ∉ del) fs =
    (files ++ [f]) ++ base.filter (fun g => number g ∉ del) fs) as -> by (by rewrite <- app_assoc).
  destruct files as [|g files _] using rev_ind.
  - cbn [last mbind option_bind app]. by apply (IH [f]).
  - rewrite last_snoc. pose proof (no_overlap_app files g f) as Ho. rewrite Hf in Ho. cbn [andb] in Ho.
    change [g; f] with ([g] ++ [f]) in Ho. rewrite app_assoc in Ho.
    destruct (icmp (rep_ (largest g)) (rep_ (smallest f)) <? 0); cbn [negb mbind option_bind].
    + by apply IH.
    + destruct (no_overlap ucmp (((files ++ [g]) ++ [f]) ++ _)) eqn:E; [|done].
      apply no_overlap_prefix in E. congruence.
Qed.

(** What a level is saved as. *)
Definition kept (b : Builder) (level : nat) : list FileMetaData :=
  keep (deleted_files (level_state b level)) (merge_files (level_files (base_ b) level) (added_files (level_state b level))).

Lemma SaveTo_level_ok b level :
  SaveTo_level ucmp b level =
  if (level =? 0)%nat || no_overlap ucmp (kept b level) then Some (kept b level) else None.
Proof.
  unfold SaveTo_level. rewrite SaveTo_loop_merge. fold (kept b level).
  destruct level as [|level].
  - rewrite MaybeAddFiles_0. done.
  - rewrite MaybeAddFiles_pos by (done || lia). cbn [app]. fold (kept b (S level)).
    change (keep _ _) with (kept b (S level)). cbn [Nat.eqb orb].
    destruct (no_overlap ucmp (kept b (S level))) eqn:E; [|done]. bind_simpl. by rewrite E.
Qed.

(** ** The order of files *)

Definition by_smallest_le (f g : FileMetaData) : Prop := BySmallestKey ucmp g f = false.

Lemma by_smallest_le_spec f g : by_smallest_le f g <->
  icmp (rep_ (smallest f)) (rep_ (smallest g)) < 0 \/
  (icmp (rep_ (smallest f)) (rep_ (smallest g)) = 0 /\ number f <= number g).
Proof.
  unfold by_smallest_le, BySmallestKey.
  pose proof (to_sgn (cmp := icmp) (valid := any_key) (rep_ (smallest f)) (rep_ (smallest g)) I I) as Hs.
  destruct (Z.eqb_spec (icmp (rep_ (smallest g)) (rep_ (smallest f))) 0) as [E|E]; cbn [negb].
  - rewrite Z.ltb_ge. lia.
  - rewrite Z.ltb_ge. lia.
Qed.

Lemma BySmallestKey_lt f g : BySmallestKey ucmp f g = true -> by_smallest_le f g.
Proof.
  rewrite by_smallest_le_spec. unfold BySmallestKey.
  destruct (Z.eqb_spec (icmp (rep_ (smallest f)) (rep_ (smallest g))) 0) as [E|E]; cbn [negb];
    rewrite Z.ltb_lt; lia.
Qed.

Lemma by_smallest_le_trans f g h : by_smallest_le f g -> by_smallest_le g h -> by_smallest_le f h.
Proof.
  rewrite !by_smallest_le_spec. intros [H1|[H1 N1]] [H2|[H2 N2]].
  - left. by apply (to_lt_trans icmp any_key _ (rep_ (smallest g))).
  - left. apply (to_lt_le_trans icmp any_key _ (rep_ (smallest g))); try done. lia.
  - left. apply (to_le_lt_trans icmp any_key _ (rep_ (smallest g))); try done. lia.
  - right. split; [|lia].
    pose proof (to_trans (cmp := icmp) (valid := any_key) _ _ (rep_ (smallest h)) I I I ltac:(rewrite H1; done) ltac:(rewrite H2; done)).
    apply (to_flip_eq icmp any_key) in H1, H2; try done.
    pose proof (to_trans (cmp := icmp) (valid := any_key) _ _ (rep_ (smallest f)) I I I ltac:(rewrite H2; done) ltac:(rewrite H1; done)) as Hb.
    apply (to_flip_le icmp any_key) in Hb; try done. lia.
Qed.

Lemma upper_bound_sorted base a : StronglySorted by_smallest_le base ->
  Forall (fun b => by_smallest_le b a) (upper_bound ucmp base a).1 /\
  Forall (by_smallest_le a) (upper_bound ucmp base a).2.
Proof.
  induction 1 as [|b base Hs IH Hb]; cbn [upper_bound]; [done|].
  destruct (BySmallestKey ucmp a b) eqn:E.
  - split; [constructor|]. apply BySmallestKey_lt in E. constructor; [done|].
    eapply Forall_impl; [exact Hb|]. intros c. by apply by_smallest_le_trans.
  - destruct (upper_bound ucmp base a) as [pre post]. destruct IH. split; [by constructor|done].
Qed.

Lemma merge_files_sorted base added :
  StronglySorted by_smallest_le base -> StronglySorted by_smallest_le added ->
  StronglySorted by_smallest_le (merge_files base added).
Proof.
  intros Hb Ha. revert base Hb. induction Ha as [|a added Ha IH Hf]; intros base Hb; [done|].
  cbn [merge_files]. destruct (upper_bound_sorted base a Hb) as [Hpre Hpost].
  pose proof (upper_bound_app base a) as E. destruct (upper_bound ucmp base a) as [pre post]. cbn [fst snd] in *.
  subst base. apply StronglySorted_app_inv in Hb as (Hs1 & Hs2 & Hx).
  rewrite Forall_forall in Hpre. rewrite Forall_forall in Hpost. rewrite Forall_forall in Hf.
  assert (forall y, y ∈ merge_files post added -> by_smallest_le a y) as Hay.
  { intros y Hy. rewrite merge_files_perm in Hy. apply elem_of_app in Hy as [Hy|Hy]; auto. }
  apply StronglySorted_app_intro; [done| |].
  - constructor; [by apply IH|]. by apply Forall_forall.
  - intros x y Hxp [->|Hy]%elem_of_cons; [auto|]. apply (by_smallest_le_trans _ a); auto.
Qed.

Lemma FileSet_insert_elem f s g : g ∈ FileSet_insert ucmp f s -> g = f \/ g ∈ s.
Proof.
  induction s as [|h s IH]; cbn [FileSet_insert]; [set_solver|]. repeat case_match; set_solver.
Qed.

Lemma FileSet_insert_sorted f s :
  StronglySorted by_smallest_le s -> StronglySorted by_smallest_le (FileSet_insert ucmp f s).
Proof.
  induction 1 as [|g s Hs IH Hg]; cbn [FileSet_insert]; [repeat constructor|].
  destruct (BySmallestKey ucmp f g) eqn:E1.
  - apply BySmallestKey_lt in E1. constructor; [by constructor|]. constructor; [done|].
    eapply Forall_impl; [exact Hg|]. intros c. by apply by_smallest_le_trans.
  - destruct (BySmallestKey ucmp g f) eqn:E2; [|by constructor].
    constructor; [done|]. rewrite Forall_forall in *. intros h [->|Hh]%FileSet_insert_elem; [|auto].
    by apply BySmallestKey_lt.
Qed.

(** ** The builder as a set of file numbers *)

Definition numbers (fs : list FileMetaData) : gset Z := list_to_set (map number fs).

Lemma elem_of_numbers n fs : n ∈ numbers fs <-> exists f, f ∈ fs /\ number f = n.
Proof.
  unfold numbers. rewrite elem_of_list_to_set, list_elem_of_In, in_map_iff.
  setoid_rewrite <- list_elem_of_In. naive_solver.
Qed.

(** What an edit does to the numbers of a level: deletions, then additions. *)
Definition edit_numbers (level : nat) (S : gset Z) (e : VersionEdit) : gset Z :=
  (S ∖ list_to_set (map snd (base.filter (fun d => Z.to_nat d.1 = level) (deleted_files_ e)))) ∪
  numbers (map snd (base.filter (fun n => Z.to_nat n.1 = level) (new_files_ e))).

(** The numbers a level would be saved with. *)
Definition state_numbers (base : list FileMetaData) (st : LevelState) : gset Z :=
  (numbers base ∪ numbers (added_files st)) ∖ deleted_files st.

Lemma FileSet_insert_numbers f s : numbers (FileSet_insert ucmp f s) = {[number f]} ∪ numbers s.
Proof.
  assert (forall g s, numbers (g :: s) = {[number g]} ∪ numbers s) as Hc by done.
  induction s as [|g s IH]; cbn [FileSet_insert]; [done|].
  destruct (BySmallestKey ucmp f g) eqn:E1; [done|].
  destruct (BySmallestKey ucmp g f) eqn:E2; [rewrite !Hc, IH; set_solver|].
  assert (number f = number g) as E.
  { apply by_smallest_le_spec in E1. apply by_smallest_le_spec in E2.
    pose proof (to_sgn (cmp := icmp) (valid := any_key) (rep_ (smallest f)) (rep_ (smallest g)) I I). lia. }
  rewrite Hc, E. set_solver.
Qed.

Lemma Apply_delete_numbers base level d levels st :
  levels !! level = Some st ->
  exists st', Apply_delete levels d !! level = Some st' /\
    (StronglySorted by_smallest_le (added_files st) -> StronglySorted by_smallest_le (added_files st')) /\
    state_numbers base st' = if decide (Z.to_nat d.1 = level) then state_numbers base st ∖ {[d.2]} else state_numbers base st.
Proof.
  intros E. unfold Apply_delete. case_decide as Hl.
  - subst level. rewrite list_lookup_alter_eq, E. eexists. split; [reflexivity|]. split; [done|].
    unfold state_numbers. cbn [deleted_files added_files]. set_solver.
  - rewrite list_lookup_alter_ne by done. eauto.
Qed.

Lemma Apply_add_numbers base level n levels st :
  levels !! level = Some st ->
  exists st', Apply_add ucmp levels n !! level = Some st' /\
    (StronglySorted by_smallest_le (added_files st) -> StronglySorted by_smallest_le (added_files st')) /\
    state_numbers base st' = if decide (Z.to_nat n.1 = level) then {[number n.2]} ∪ state_numbers base st else state_numbers base st.
Proof.
  intros E. unfold Apply_add. case_decide as Hl.
  - subst level. rewrite list_lookup_alter_eq, E. eexists. split; [reflexivity|].
    split; [apply FileSet_insert_sorted|].
    unfold state_numbers. cbn [deleted_files added_files]. rewrite FileSet_insert_numbers. cbn [Apply_file number].
    apply set_eq. intros x. rewrite !elem_of_difference, !elem_of_union, !elem_of_difference, !elem_of_union, elem_of_singleton.
    destruct (decide (x = number n.2)); tauto.
  - rewrite list_lookup_alter_ne by done. eauto.
Qed.

Lemma fold_delete_numbers base level ds levels st :
  levels !! level = Some st ->
  exists st', fold_left Apply_delete ds levels !! level = Some st' /\
    (StronglySorted by_smallest_le (added_files st) -> StronglySorted by_smallest_le (added_files st')) /\
    state_numbers base st' =
      state_numbers base st ∖ list_to_set (map snd (base.filter (fun d => Z.to_nat d.1 = level) ds)).
Proof.
  revert levels st. induction ds as [|d ds IH]; intros levels st E; cbn [fold_left].
  { exists st. split_and!; [done|done|]. rewrite filter_nil. cbn. set_solver. }
  destruct (Apply_delete_numbers base level d levels st E) as (st1 & E1 & Hs1 & N1).
  destruct (IH _ st1 E1) as (st' & E' & Hs' & N'). exists st'. split_and!; [done|auto|].
  rewrite N', N1, filter_cons. case_decide; [|done]. cbn [map list_to_set]. set_solver.
Qed.

Lemma fold_add_numbers base level ns levels st :
  levels !! level = Some st ->
  exists st', fold_left (Apply_add ucmp) ns levels !! level = Some st' /\
    (StronglySorted by_smallest_le (added_files st) -> StronglySorted by_smallest_le (added_files st')) /\
    state_numbers base st' =
      state_numbers base st ∪ numbers (map snd (base.filter (fun n => Z.to_nat n.1 = level) ns)).
Proof.
  revert levels st. induction ns as [|n ns IH]; intros levels st E; cbn [fold_left].
  { exists st. split_and!; [done|done|]. rewrite filter_nil. unfold numbers. cbn. set_solver. }
  destruct (Apply_add_numbers base level n levels st E) as (st1 & E1 & Hs1 & N1).
  destruct (IH _ st1 E1) as (st' & E' & Hs' & N'). exists st'. split_and!; [done|auto|].
  rewrite N', N1, filter_cons. case_decide; [|done]. unfold numbers. cbn [map list_to_set]. set_solver.
Qed.

Lemma Apply_all_numbers base level edits b st :
  levels_ b !! level = Some st ->
  exists st', levels_ (fold_left (Apply ucmp) edits b) !! level = Some st' /\
    base_ (fold_left (Apply ucmp) edits b) = base_ b /\
    (StronglySorted by_smallest_le (added_files st) -> StronglySorted by_smallest_le (added_files st')) /\
    state_numbers base st' = fold_left (edit_numbers level) edits (state_numbers base st).
Proof.
  revert b st. induction edits as [|e edits IH]; intros b st E; cbn [fold_left]; [eauto 10|].
  destruct (fold_delete_numbers base level (deleted_files_ e) (levels_ b) st E) as (st1 & E1 & Hs1 & N1).
  destruct (fold_add_numbers base level (new_files_ e) _ st1 E1) as (st2 & E2 & Hs2 & N2).
  destruct (IH (Apply ucmp b e) st2 E2) as (st' & E' & Hb & Hs' & N').
  exists st'. split_and!; [done|done|auto|]. rewrite N', N2, N1. done.
Qed.

Lemma kept_numbers b level :
  numbers (kept b level) = state_numbers (level_files (base_ b) level) (level_state b level).
Proof.
  unfold kept, keep, state_numbers. apply set_eq. intros n.
  rewrite elem_of_difference, elem_of_union, !elem_of_numbers. split.
  - intros (f & [Hd Hf]%list_elem_of_filter & <-). rewrite merge_files_perm in Hf.
    apply elem_of_app in Hf as [?|?]; split; eauto.
  - intros [[(f & Hf & <-)|(f & Hf & <-)] Hd]; exists f; (split; [|done]); apply list_elem_of_filter;
      (split; [done|]); rewrite merge_files_perm; apply elem_of_app; auto.
Qed.

(** ** Where saved files come from *)

(** [f] is the builder's copy of a file that an edit adds to [level]. *)
Definition added_by (level : nat) (edits : list VersionEdit) (f : FileMetaData) : Prop :=
  exists e n, e ∈ edits /\ n ∈ new_files_ e /\ Z.to_nat n.1 = level /\ f = Apply_file n.2.

Definition added_at (levels : list LevelState) (level : nat) : list FileMetaData :=
  from_option added_files [] (levels !! level).

Lemma Apply_delete_added levels d level : added_at (Apply_delete levels d) level = added_at levels level.
Proof.
  unfold added_at, Apply_delete. destruct (decide (level = Z.to_nat d.1)) as [->|].
  - rewrite list_lookup_alter_eq. by destruct (levels !! _).
  - by rewrite list_lookup_alter_ne.
Qed.

Lemma Apply_add_added levels n level f :
  f ∈ added_at (Apply_add ucmp levels n) level ->
  f ∈ added_at levels level \/ (Z.to_nat n.1 = level /\ f = Apply_file n.2).
Proof.
  unfold added_at, Apply_add. destruct (decide (Z.to_nat n.1 = level)) as [->|].
  - rewrite list_lookup_alter_eq. destruct (levels !! _) as [st|]; cbn; [|auto].
    intros [->|Hf]%FileSet_insert_elem; auto.
  - rewrite list_lookup_alter_ne by done. auto.
Qed.

Lemma Apply_all_added edits b level f :
  f ∈ added_at (levels_ (fold_left (Apply ucmp) edits b)) level ->
  f ∈ added_at (levels_ b) level \/ added_by level edits f.
Proof.
  assert (forall ns levels, f ∈ added_at (fold_left (Apply_add ucmp) ns levels) level ->
    f ∈ added_at levels level \/ exists n, n ∈ ns /\ Z.to_nat n.1 = level /\ f = Apply_file n.2) as Hadd.
  { induction ns as [|n ns IH]; intros levels Hf; cbn [fold_left] in Hf; [auto|].
    destruct (IH _ Hf) as [Hf'|(m & ? & ?)]; [|right; exists m; set_solver].
    apply Apply_add_added in Hf' as [?|?]; [auto|]. right. exists n. set_solver. }
  assert (forall ds levels, added_at (fold_left Apply_delete ds levels) level = added_at levels level) as Hdel.
  { induction ds as [|d ds IH]; intros levels; cbn [fold_left]; [done|]. by rewrite IH, Apply_delete_added. }
  revert b. induction edits as [|e edits IH]; intros b Hf; cbn [fold_left] in Hf; [auto|].
  destruct (IH _ Hf) as [Hf'|(e' & n & ? & ?)]; [|right; exists e', n; set_solver].
  cbn [Apply levels_] in Hf'. apply Hadd in Hf' as [Hf'|(n & ? & ?)]; [rewrite Hdel in Hf'; auto|].
  right. exists e, n. set_solver.
Qed.

Lemma kept_from b level f :
  f ∈ kept b level -> f ∈ level_files (base_ b) level \/ f ∈ added_at (levels_ b) level.
Proof.
  unfold kept, keep, level_state, added_at. intros [_ Hf]%list_elem_of_filter.
  rewrite merge_files_perm, nth_lookup in Hf. apply elem_of_app in Hf as [?|Hf]; [auto|right].
  by destruct (levels_ b !! level).
Qed.
(** What a builder saves on a level. *)
Lemma Builder_level base edits level : (level < num_levels)%nat ->
  let b := fold_left (Apply ucmp) edits (Builder_new base) in
  numbers (kept b level) = fold_left (edit_numbers level) edits (numbers (level_files base level)) /\
  (forall f, f ∈ kept b level -> f ∈ level_files base level \/ added_by level edits f) /\
  (StronglySorted by_smallest_le (level_files base level) -> StronglySorted by_smallest_le (kept b level)).
Proof.
  intros Hl b.
  destruct (Apply_all_numbers (level_files base level) level edits (Builder_new base) (MkLevelState ∅ []))
    as (st & Est & Eb & Hsorted & Hn).
  { cbn [levels_ Builder_new]. by apply lookup_replicate_2. }
  fold b in Est, Eb. cbn [base_ Builder_new] in Eb.
  assert (level_state b level = st) as Hst by (unfold level_state; by rewrite nth_lookup, Est).
  split_and!.
  - rewrite kept_numbers, Hst, Eb, Hn. f_equal. unfold state_numbers. cbn. set_solver.
  - intros f [Hf|Hf]%kept_from; [rewrite Eb in Hf; auto|].
    destruct (Apply_all_added edits (Builder_new base) level f Hf) as [Hf'|Hf']; [|auto]. clear Hf. rename Hf' into Hf. unfold added_at in Hf. cbn [levels_ Builder_new] in Hf.
    rewrite lookup_replicate_2 in Hf by done. cbn in Hf. by apply elem_of_nil in Hf.
  - intros Hs. unfold kept, keep. apply StronglySorted_filter, merge_files_sorted; [by rewrite Eb|].
    rewrite Hst. apply Hsorted. constructor.
Qed.
End BuilderLemmas.

(** ** Lemmas: ranges *)

Section RangeLemmas.
Context (ucmp : Comparator) `{!ComparatorLaws ucmp any_key}.
Abbreviation icmp := (InternalKeyCompare ucmp).

(** [lo, hi] is the range of [inputs]. *)
Definition range_of (inputs : list FileMetaData) (lo hi : InternalKey) : Prop :=
  forall f, f ∈ inputs -> icmp (rep_ lo) (rep_ (smallest f)) <= 0 /\ icmp (rep_ (largest f)) (rep_ hi) <= 0.

Lemma GetRange_ok inputs : inputs <> [] ->
  exists lo hi, GetRange ucmp inputs = Some (lo, hi) /\ range_of inputs lo hi /\
    (exists f, f ∈ inputs /\ lo = smallest f) /\ (exists f, f ∈ inputs /\ hi = largest f).
Proof.
  destruct inputs as [|f0 inputs]; [done|]. intros _. cbn [GetRange].
  assert (forall fs lo hi done_, range_of done_ lo hi -> (exists f, f ∈ done_ /\ lo = smallest f) ->
    (exists f, f ∈ done_ /\ hi = largest f) ->
    exists lo' hi', fold_left (fun '(lo, hi) f =>
        (if icmp (rep_ (smallest f)) (rep_ lo) <? 0 then smallest f else lo,
         if icmp (rep_ (largest f)) (rep_ hi) >? 0 then largest f else hi)) fs (lo, hi) = (lo', hi') /\
      range_of (done_ ++ fs) lo' hi' /\ (exists f, f ∈ done_ ++ fs /\ lo' = smallest f) /\
      (exists f, f ∈ done_ ++ fs /\ hi' = largest f)) as Hfold.
  { induction fs as [|f fs IH]; intros lo hi d Hr Hlo Hhi; [rewrite app_nil_r; by exists lo, hi|].
    cbn [fold_left]. replace (d ++ f :: fs) with ((d ++ [f]) ++ fs) by (by rewrite <- app_assoc).
    apply IH.
    - intros g Hg. apply elem_of_app in Hg as [Hg|Hg%list_elem_of_singleton].
      + destruct (Hr g Hg) as [H1 H2]. split.
        * destruct (Z.ltb_spec (icmp (rep_ (smallest f)) (rep_ lo)) 0); [|done].
          apply (to_trans (cmp := icmp) (valid := any_key) _ (rep_ lo)); try done. lia.
        * destruct (Z.gtb_spec (icmp (rep_ (largest f)) (rep_ hi)) 0) as [Hgt|]; [|done].
          apply (to_trans (cmp := icmp) (valid := any_key) _ (rep_ hi)); try done.
          apply (to_flip_le icmp any_key); try done. lia.
      + subst g. split.
        * destruct (Z.ltb_spec (icmp (rep_ (smallest f)) (rep_ lo)) 0); [by rewrite (to_refl icmp any_key)|].
          apply (to_flip_le icmp any_key); try done. lia.
        * destruct (Z.gtb_spec (icmp (rep_ (largest f)) (rep_ hi)) 0) as [Hgt|]; [by rewrite (to_refl icmp any_key)|done].
    - destruct (_ <? 0); [exists f; set_solver|]. destruct Hlo as (g & ? & ->). exists g. set_solver.
    - destruct (_ >? 0); [exists f; set_solver|]. destruct Hhi as (g & ? & ->). exists g. set_solver. }
  destruct (Hfold inputs (smallest f0) (largest f0) [f0]) as (lo & hi & E & Hr & Hlo & Hhi).
  - intros g ->%list_elem_of_singleton. by rewrite !(to_refl icmp any_key).
  - exists f0. set_solver.
  - exists f0. set_solver.
  - exists lo, hi. rewrite E. auto.
Qed.
Abbreviation user k := (InternalKey_user_key k).

(** A file of [inputs] meets every range that contains theirs. *)
Lemma range_of_in_range inputs lo hi b e f :
  range_of inputs lo hi -> f ∈ inputs -> file_wf ucmp f ->
  bound_le ucmp b (Some (user lo)) -> bound_ge ucmp e (Some (user hi)) -> in_range ucmp b e f.
Proof.
  intros Hr Hf Hw Hb He. destruct (Hr f Hf) as [H1 H2].
  apply (icmp_user_le ucmp) in H1, H2. pose proof (file_wf_user ucmp f Hw) as Hu.
  destruct b as [b|]; [|done]. destruct e as [e|]; [|done]. cbn in Hb, He.
  pose proof (ucmp_trans ucmp _ _ _ Hb (ucmp_trans ucmp _ _ _ H1 Hu)) as Hlo.
  pose proof (ucmp_trans ucmp _ _ _ (ucmp_trans ucmp _ _ _ Hu H2) He) as Hhi.
  pose proof (ucmp_sgn ucmp b (user (largest f))). pose proof (ucmp_sgn ucmp (user (smallest f)) e).
  split; cbn [before_range after_range].
  - apply Z.ltb_ge. lia.
  - rewrite Z.gtb_ltb. apply Z.ltb_ge. lia.
Qed.

(** The files of [level] that meet the user keys from [lo] to [hi]. *)
Definition meeting (v : Version) (level : nat) (lo hi : InternalKey) : list FileMetaData :=
  base.filter (in_range ucmp (Some (user lo)) (Some (user hi))) (level_files v level).

Lemma GetOverlappingInputs_meeting v level lo hi :
  GetOverlappingInputs ucmp v (S level) (Some lo) (Some hi) = Some (meeting v (S level) lo hi).
Proof.
  destruct (GetOverlappingInputs_ok ucmp v (S level) (Some lo) (Some hi)) as (b & e & -> & _ & _ & _ & H).
  by destruct H as [-> ->].
Qed.

(** A compaction's inputs: files of [level] covering [in0], and what they meet
    on the next level. *)
Definition inputs_ok (v : Version) (level : nat) (in0 in0' in1' : list FileMetaData) (lo hi : InternalKey) : Prop :=
  in0 ⊆ in0' /\ in0' ⊆ level_files v level /\ GetRange ucmp in0' = Some (lo, hi) /\ in1' = meeting v (S level) lo hi.

Lemma range_of_app a b lo hi : range_of (a ++ b) lo hi -> range_of a lo hi.
Proof. intros H f Hf. apply H. set_solver. Qed.

Lemma expand_inputs_ok v level in0 lo hi in1 s0 l0 :
  in0 <> [] -> Forall (file_wf ucmp) in0 -> inputs_ok v level in0 in0 in1 lo hi ->
  GetRange2 ucmp in0 in1 = Some (s0, l0) ->
  exists in0' in1' lo' hi' s l, expand_inputs ucmp v level in0 in1 hi s0 l0 = Some (in0', in1', hi', s, l) /\
    inputs_ok v level in0 in0' in1' lo' hi' /\ GetRange2 ucmp in0' in1' = Some (s, l).
Proof.
  intros Hne Hw Hok HR2. unfold expand_inputs.
  destruct in1 as [|f1 in1]; [by exists in0, [], lo, hi, s0, l0|]. set (in1' := f1 :: in1) in *.
  destruct (GetOverlappingInputs_ok ucmp v level (Some s0) (Some l0)) as (b & e & -> & Hb & He & _ & _).
  set (ex0 := base.filter _ _). bind_simpl.
  case_match; [|by exists in0, in1', lo, hi, s0, l0].
  assert (in0 ⊆ ex0) as Hsub.
  { destruct Hok as (_ & Hsub & _). intros f Hf. apply list_elem_of_filter. split; [|by apply Hsub].
    destruct (GetRange_ok (in0 ++ in1')) as (s & l & E & Hr & _); [by destruct in0|].
    unfold GetRange2 in HR2. rewrite HR2 in E. injection E as -> ->.
    rewrite Forall_forall in Hw. apply (range_of_in_range in0 s l); auto. by eapply range_of_app. }
  assert (ex0 <> []) as Hex by (intros E; rewrite E in Hsub; destruct in0; [done|set_solver]).
  destruct (GetRange_ok ex0 Hex) as (ns & nl & En & _). rewrite En. bind_simpl.
  rewrite Nat.add_1_r, GetOverlappingInputs_meeting. bind_simpl.
  case_match; [|by exists in0, in1', lo, hi, s0, l0].
  destruct (GetRange_ok (ex0 ++ meeting v (S level) ns nl)) as (s & l & E & _); [by destruct ex0|].
  unfold GetRange2. rewrite E. bind_simpl.
  exists ex0, (meeting v (S level) ns nl), ns, nl, s, l. split_and!; [done| |done].
  split_and!; [done| |done|done]. intros f Hf. by apply list_elem_of_filter in Hf as [_ ?].
Qed.
End RangeLemmas.

(** ** Lemmas: what a compaction asks *)

Section CompactionLemmas.
Context (ucmp : Comparator) `{!ComparatorLaws ucmp any_key}.
Abbreviation icmp := (InternalKeyCompare ucmp).
Abbreviation lo_key f := (InternalKey_user_key (smallest f)).
Abbreviation hi_key f := (InternalKey_user_key (largest f)).

(** The key is in the file's range of user keys. *)
Definition covers (key : bytes) (f : FileMetaData) : bool :=
  (Compare ucmp key (hi_key f) <=? 0) && (Compare ucmp key (lo_key f) >=? 0).

Lemma covers_past key f : Compare ucmp (hi_key f) key < 0 -> covers key f = false.
Proof.
  intros H. unfold covers. apply andb_false_iff. left. apply Z.leb_gt.
  pose proof (ucmp_sgn ucmp key (hi_key f)). lia.
Qed.

(** The files before [ptr] end before [key]. *)
Definition passed (files : list FileMetaData) (ptr : nat) (key : bytes) : Prop :=
  forall i f, (i < ptr)%nat -> files !! i = Some f -> Compare ucmp (hi_key f) key < 0.

Lemma passed_mono files ptr key key' :
  Compare ucmp key key' <= 0 -> passed files ptr key -> passed files ptr key'.
Proof. intros Hk Hp i f Hi Hf. apply (to_lt_le_trans (Compare ucmp) any_key _ key); try done. by apply (Hp i). Qed.

Lemma passed_covers files ptr key :
  passed files ptr key -> existsb (covers key) files = existsb (covers key) (drop ptr files).
Proof.
  intros Hp. rewrite <- (take_drop ptr files) at 1. rewrite existsb_app.
  replace (existsb (covers key) (take ptr files)) with false; [done|].
  symmetry. apply not_true_iff_false. rewrite existsb_lookup. intros (i & f & Hi & Hc).
  apply lookup_take_Some in Hi as [Hi Hlt]. rewrite covers_past in Hc by (by apply (Hp i)). done.
Qed.

Lemma IsBaseLevel_advance_ok key files ptr ptr' inside :
  level_wf ucmp files -> passed files ptr key ->
  IsBaseLevel_advance ucmp key ptr (drop ptr files) = (ptr', inside) ->
  passed files ptr' key /\ inside = existsb (covers key) files.
Proof.
  intros Hw. remember (drop ptr files) as rest eqn:E. revert ptr E.
  induction rest as [|f rest IH]; intros ptr E Hp; cbn [IsBaseLevel_advance].
  { intros [= <- <-]. split; [done|]. by rewrite (passed_covers _ _ _ Hp), <- E. }
  assert (files !! ptr = Some f) as Hf by (rewrite <- (Nat.add_0_r ptr), <- lookup_drop, <- E; done).
  assert (rest = drop (S ptr) files) as E' by (rewrite <- Nat.add_1_r, <- drop_drop, <- E; done).
  destruct (Z.leb_spec (Compare ucmp key (hi_key f)) 0) as [Hle|Hgt].
  - intros [= <- <-]. split; [done|]. rewrite (passed_covers _ _ _ Hp), <- E. cbn [existsb].
    unfold covers at 1. rewrite (proj2 (Z.leb_le _ _) Hle). cbn [andb].
    destruct (Z.geb_spec (Compare ucmp key (lo_key f)) 0) as [|Hlt]; [done|]. cbn [orb]. symmetry.
    apply not_true_iff_false. rewrite existsb_lookup. intros (i & g & Hg & Hc).
    rewrite E', lookup_drop in Hg. unfold covers in Hc. apply andb_true_iff in Hc as [_ Hc].
    rewrite Z.geb_leb in Hc. apply Z.leb_le in Hc.
    pose proof (level_wf_user ucmp files ptr (S ptr + i) f g Hw ltac:(lia) Hf Hg) as Hfg.
    destruct Hw as [Hw _]. rewrite Forall_lookup in Hw. pose proof (file_wf_user ucmp f (Hw _ _ Hf)) as Hff.
    pose proof (ucmp_trans ucmp _ _ _ Hff Hfg) as Hlg.
    pose proof (to_lt_le_trans (Compare ucmp) any_key key _ _ I I I Hlt Hlg). lia.
  - intros Hadv. apply (IH (S ptr)); [done| |done]. intros i g Hi Hg.
    destruct (decide (i = ptr)) as [->|]; [|apply (Hp i); [lia|done]].
    rewrite Hf in Hg. injection Hg as <-. pose proof (ucmp_sgn ucmp key (hi_key f)). lia.
Qed.

(** The pointers of every level from [first] on are behind [key]. *)
Definition ptrs_ok (v : Version) (first : nat) (ptrs : list nat) (key : bytes) : Prop :=
  length ptrs = num_levels /\
  forall lvl, (first <= lvl)%nat -> passed (level_files v lvl) (nth lvl ptrs 0%nat) key.

Lemma ptrs_ok_start v first key : ptrs_ok v first (replicate num_levels 0%nat) key.
Proof.
  split; [by rewrite length_replicate|]. intros lvl _ i f Hi. rewrite nth_lookup in Hi.
  destruct (replicate num_levels 0%nat !! lvl) as [n|] eqn:E; cbn in Hi; [|lia].
  apply lookup_replicate in E as [-> _]. lia.
Qed.

Lemma IsBaseLevel_levels_ok v first key levels ptrs :
  (forall lvl, (first <= lvl)%nat -> level_wf ucmp (level_files v lvl)) ->
  Forall (fun lvl => first <= lvl < num_levels)%nat levels -> ptrs_ok v first ptrs key ->
  (IsBaseLevel_levels ucmp v key levels ptrs).1 =
    negb (existsb (fun lvl => existsb (covers key) (level_files v lvl)) levels) /\
  ptrs_ok v first (IsBaseLevel_levels ucmp v key levels ptrs).2 key.
Proof.
  intros Hw Hl. revert ptrs. induction Hl as [|lvl levels Hlvl Hl IH]; intros ptrs Hp; [done|].
  cbn [IsBaseLevel_levels existsb].
  destruct (IsBaseLevel_advance _ _ _ _) as [ptr ins] eqn:E.
  apply IsBaseLevel_advance_ok in E as [Hptr ->]; [|apply Hw; lia|apply Hp; lia].
  assert (ptrs_ok v first (<[lvl:=ptr]> ptrs) key) as Hp'.
  { destruct Hp as [Hlen Hp]. split; [by rewrite length_insert|]. intros l Hfl.
    rewrite nth_lookup. destruct (decide (l = lvl)) as [->|Hne].
    - rewrite list_lookup_insert_eq by lia. done.
    - rewrite list_lookup_insert_ne, <- nth_lookup by done. auto. }
  destruct (existsb (covers key) (level_files v lvl)); [done|]. by apply IH.
Qed.

(** The answers of a run of calls, each from the state the previous one left. *)
Fixpoint base_answers (c : Compaction) (keys : list bytes) : list bool :=
  match keys with
  | [] => []
  | k :: keys => (IsBaseLevelForKey ucmp c k).1 :: base_answers (IsBaseLevelForKey ucmp c k).2 keys
  end.

(** No level below the output level has a file whose range holds [key]. *)
Definition is_base (v : Version) (level : nat) (key : bytes) : bool :=
  negb (existsb (fun lvl => existsb (covers key) (level_files v lvl)) (seq (level + 2) (num_levels - (level + 2)))).

Lemma base_answers_ok c key0 keys :
  (forall lvl, (level_ c + 2 <= lvl)%nat -> level_wf ucmp (level_files (input_version_ c) lvl)) ->
  StronglySorted (fun a b => Compare ucmp a b <= 0) keys -> Forall (fun k => Compare ucmp key0 k <= 0) keys ->
  ptrs_ok (input_version_ c) (level_ c + 2) (level_ptrs_ c) key0 ->
  base_answers c keys = map (is_base (input_version_ c) (level_ c)) keys.
Proof.
  intros Hw Hs. revert c key0 Hw. induction Hs as [|k keys Hs IH Hk]; intros c key0 Hw Hle Hp; [done|].
  cbn [base_answers map]. apply Forall_cons in Hle as [Hle _].
  destruct (IsBaseLevel_levels_ok (input_version_ c) (level_ c + 2) k
    (seq (level_ c + 2) (num_levels - (level_ c + 2))) (level_ptrs_ c) Hw) as [E Hp'].
  - apply Forall_forall. intros l Hl%elem_of_seq. lia.
  - destruct Hp as [Hlen Hp]. split; [done|]. intros l Hl. eapply passed_mono; [exact Hle|auto].
  - unfold IsBaseLevelForKey at 1 2. destruct (IsBaseLevel_levels _ _ _ _ _) as [r ptrs]. cbn [fst snd] in *.
    f_equal; [done|]. apply (IH (with_ptrs c ptrs) k); done.
Qed.
End CompactionLemmas.

(** From a non-empty choice of a level's files, [SetupOtherInputs] succeeds:
    the inputs it settles on contain the choice and come from that level, the
    inputs of the next level are exactly the files there that meet their range,
    the grandparents are exactly the files two levels down that meet the range of
    all inputs, and the level's compaction pointer moves to the largest key of
    its inputs, in the set and in the edit. *)
Lemma SetupOtherInputs_ok (ucmp : Comparator) `{!ComparatorLaws ucmp any_key} (vs : VersionSet) (c : Compaction) :
  inputs0_ c <> [] -> inputs0_ c ⊆ level_files (current_ vs) (level_ c) ->
  Forall (file_wf ucmp) (inputs0_ c) -> (level_ c < length (compact_pointer_ vs))%nat ->
  exists vs' c' lo hi all_lo all_hi,
    SetupOtherInputs ucmp vs c = Some (vs', c') /\
    inputs_ok ucmp (current_ vs) (level_ c) (inputs0_ c) (inputs0_ c') (inputs1_ c') lo hi /\
    GetRange2 ucmp (inputs0_ c') (inputs1_ c') = Some (all_lo, all_hi) /\
    ((level_ c + 2 < num_levels)%nat ->
      grandparents_ c' = meeting ucmp (current_ vs) (level_ c + 2) all_lo all_hi) /\
    compact_pointer vs' (level_ c) = rep_ hi /\ current_ vs' = current_ vs /\ level_ c' = level_ c /\
    edit_ c' = SetCompactPointer (edit_ c) (Z.of_nat (level_ c)) hi.
Proof.
  intros Hne Hsub Hw Hl. unfold SetupOtherInputs.
  destruct (GetRange_ok ucmp (inputs0_ c) Hne) as (lo & hi & E & _). rewrite E. bind_simpl.
  rewrite Nat.add_1_r, GetOverlappingInputs_meeting by done. bind_simpl.
  set (in1 := meeting ucmp (current_ vs) (S (level_ c)) lo hi).
  destruct (GetRange_ok ucmp (inputs0_ c ++ in1)) as (s0 & l0 & E2 & _); [by destruct (inputs0_ c)|].
  assert (GetRange2 ucmp (inputs0_ c) in1 = Some (s0, l0)) as ER2 by done. rewrite ER2. bind_simpl.
  destruct (expand_inputs_ok ucmp (current_ vs) (level_ c) (inputs0_ c) lo hi in1 s0 l0)
    as (in0' & in1' & lo' & hi' & s & l & -> & Hok & HR); [done|done|by split_and!|done|].
  bind_simpl.
  assert (level_ c + 2 = S (S (level_ c)))%nat as E3 by lia. rewrite E3, GetOverlappingInputs_meeting by done.
  destruct (Nat.ltb_spec (S (S (level_ c))) num_levels); bind_simpl;
    eexists _, _, lo', hi', s, l;
    (split_and!; [reflexivity|done|done| | |done|done|done]);
    try (intros; done || lia);
    unfold compact_pointer; cbn [compact_pointer_]; rewrite nth_lookup, list_lookup_insert_eq by done; done.
Qed.

(** * Properties *)

(** C19: For any base version and sequence of edits, what the builder saves on a
    level is a merge without the deleted files, refused exactly when a level above
    0 would overlap; its file numbers are those of the base after each edit's
    deletions and then additions; every file is one of the base's or the
    builder's copy of an added one; and it is ordered by smallest key if the base
    was. *)
Theorem Builder_correct (ucmp : Comparator) `{!ComparatorLaws ucmp any_key} (base : Version)
    (edits : list VersionEdit) (level : nat) :
  (level < num_levels)%nat ->
  let b := fold_left (Apply ucmp) edits (Builder_new base) in
  exists files,
    SaveTo_level ucmp b level = (if (level =? 0)%nat || no_overlap ucmp files then Some files else None) /\
    numbers files = fold_left (edit_numbers level) edits (numbers (level_files base level)) /\
    (forall f, f ∈ files -> f ∈ level_files base level \/ added_by level edits f) /\
    (StronglySorted (by_smallest_le ucmp) (level_files base level) -> StronglySorted (by_smallest_le ucmp) files).
Proof.
  intros Hl b. exists (kept ucmp b level). destruct (Builder_level ucmp base edits level Hl) as (H1 & H2 & H3).
  split_and!; [by apply SaveTo_level_ok|done..].
Qed.

(** An edit that moves a file of level 0 down and adds one. *)
Definition move_edit : VersionEdit :=
  AddFile (AddFile (DeleteFile VersionEdit_new 0 9) 1 9 100 (key_at "a" 9) (key_at "a" 3)) 0 11 100 (key_at "q" 9) (key_at "r" 3).

Lemma Builder_correct_witness :
  exists files, SaveTo_level BytewiseComparator (fold_left (Apply BytewiseComparator) [move_edit] (Builder_new overlap_version)) 1
      = (if (1 =? 0)%nat || no_overlap BytewiseComparator files then Some files else None) /\
    9 ∈ numbers files.
Proof.
  destruct (Builder_correct BytewiseComparator overlap_version [move_edit] 1) as (files & E & Hn & _).
  - vm_compute. lia.
  - exists files. split; [exact E|]. rewrite Hn. apply (bool_decide_unpack _). vm_compute. exact I.
Defined.

(** Asked about keys in order, as a compaction asks, from its initial state
    on, [IsBaseLevelForKey] answers each exactly: true when no file of the levels
    below the output level has a range of user keys that holds the key. *)
Theorem IsBaseLevelForKey_correct (ucmp : Comparator) `{!ComparatorLaws ucmp any_key} (c : Compaction) (keys : list bytes) :
  (forall lvl, (level_ c + 2 <= lvl)%nat -> level_wf ucmp (level_files (input_version_ c) lvl)) ->
  StronglySorted (fun a b => Compare ucmp a b <= 0) keys -> level_ptrs_ c = replicate num_levels 0%nat ->
  base_answers ucmp c keys = map (is_base ucmp (input_version_ c) (level_ c)) keys.
Proof.
  intros Hw Hs Hp. destruct keys as [|k keys]; [done|]. apply (base_answers_ok ucmp c k); [done|done| |].
  - apply Forall_cons. split; [rewrite (ucmp_refl ucmp); lia|]. by inversion Hs.
  - rewrite Hp. apply ptrs_ok_start.
Qed.

(** A compaction of level 0 above the sample level. *)
Definition sample_compaction : Compaction :=
  Compaction_new 0 (MkVersion ([[]; []; sample_level] ++ replicate 4 []) None (-1) (double_of_int (-1)) (-1)) [].

Lemma sample_compaction_wf lvl :
  (level_ sample_compaction + 2 <= lvl)%nat -> level_wf BytewiseComparator (level_files (input_version_ sample_compaction) lvl).
Proof.
  intros Hl. destruct lvl as [|[|[|lvl]]]; [vm_compute in Hl; lia|vm_compute in Hl; lia|exact sample_level_wf|].
  unfold level_files. cbn [sample_compaction input_version_ Compaction_new files_ app nth].
  destruct (nth_in_or_default lvl (replicate 4 []) (@nil FileMetaData)) as [Hin|E].
  + apply list_elem_of_In, elem_of_replicate in Hin as [-> _]. split; constructor.
  + rewrite E. split; constructor.
Qed.

Lemma IsBaseLevelForKey_correct_witness :
  base_answers BytewiseComparator sample_compaction [str "a"; str "c"; str "e"; str "g"] =
  map (is_base BytewiseComparator (input_version_ sample_compaction) 0) [str "a"; str "c"; str "e"; str "g"].
Proof.
  apply (IsBaseLevelForKey_correct BytewiseComparator sample_compaction).
  - exact sample_compaction_wf.
  - repeat constructor; vm_compute; congruence.
  - reflexivity.
Defined.

(** [ShouldStopBefore] never moves to the next grandparent: when the key is
    past the current one its loop does not end, whatever the fuel; otherwise it
    returns at once, with the overlap seen so far. *)
Theorem ShouldStopBefore_hangs (ucmp : Comparator) (c : Compaction) (key : bytes) :
  if from_option (fun g => InternalKeyCompare ucmp key (rep_ (largest g)) >? 0) false (grandparents_ c !! grandparent_index_ c)
  then forall fuel, ShouldStopBefore ucmp fuel c key = None
  else forall fuel, exists c', ShouldStopBefore ucmp fuel c key =
    Some (overlapped_bytes_ c >? kMaxGrandParentOverlapBytes, c') /\
    grandparent_index_ c' = grandparent_index_ c /\ seen_key_ c' = true.
Proof.
  destruct (grandparents_ c !! grandparent_index_ c) as [g|] eqn:E; cbn [from_option].
  - destruct (InternalKeyCompare ucmp key (rep_ (largest g)) >? 0) eqn:Eg; intros fuel; unfold ShouldStopBefore.
    + assert (forall c, grandparents_ c !! grandparent_index_ c = Some g ->
        ShouldStopBefore_loop ucmp fuel c key = None) as ->; [|done|done].
      clear c E. induction fuel as [|fuel IH]; intros c E; cbn [ShouldStopBefore_loop]; rewrite E, Eg; [done|].
      by apply IH.
    + destruct fuel; cbn [ShouldStopBefore_loop]; rewrite E, Eg; bind_simpl;
        (case_match; eexists; split_and!; reflexivity).
  - intros fuel. unfold ShouldStopBefore. destruct fuel; cbn [ShouldStopBefore_loop]; rewrite E; bind_simpl;
      (case_match; eexists; split_and!; reflexivity).
Qed.
