(* ===== verification/Manifest.v ===== *)
(** db/version_set.cpp, third part: [LogAndApply], [WriteSnapshot] and [Recover],
    the durable record of versions, and [DBImpl::NewDB].

    The descriptor log is a log writer ([LogFile]) over a file of the environment
    ([Env]); its records are encoded edits ([VersionEdit]), which builders turn
    into versions ([VersionSet]).  Mutexes are not modelled: the caller keeps
    other threads out of [LogAndApply]. *)

From Stdlib Require Import ZArith Lia List Bool String Sorting.Sorted.
From stdpp Require Import sorting.
From S2P Require Import Prelude Lists Coding Slice Comparator Crc32c Filename Env DbFormat LogFile VersionEdit.
From S2P Require Import Version VersionSet.

(** ** Files of the environment under a log writer *)

Record EnvFile {St : Type} (env : EnvOps St) := MkEnvFile { ef_env : St; ef_name : bytes }.
Arguments MkEnvFile {St env}.
Arguments ef_env {St env}.
Arguments ef_name {St env}.

#[global] Instance EnvFile_ops {St : Type} (env : EnvOps St) : FileOps (EnvFile env) := {|
  Append f data := let '(s, st) := file_Append env (ef_env f) (ef_name f) data in (s, MkEnvFile st (ef_name f));
  Flush f := let '(s, st) := file_Flush env (ef_env f) (ef_name f) in (s, MkEnvFile st (ef_name f))
|}.

(** A set with its [descriptor_log_], a writer on a named file ([descriptor_file_]). *)
Record LogState := MkLogState { the_set : VersionSet; descriptor_log_ : option (Writer bytes) }.

Section Manifest.
Context {St : Type} (env : EnvOps St) `{C : Checksum} (ucmp : Comparator) (dbname : bytes).

Definition log_AddRecord (st : St) (log : Writer bytes) (addr : Z) (record : bytes)
    : option (Status * Writer bytes * St) :=
  '(s, w) ← AddRecord (MkWriter (MkEnvFile (env := env) st (dest_ log)) (block_offset_ log) (type_crc_ log)) addr record;
  Some (s, MkWriter (ef_name (dest_ w)) (block_offset_ w) (type_crc_ w), ef_env (dest_ w)).

(** ** WriteSnapshot *)

Definition snapshot_pointers (vs : VersionSet) (edit : VersionEdit) : VersionEdit :=
  fold_left (fun e level =>
    if negb (Slice.empty (compact_pointer vs level))
    then SetCompactPointer e (Z.of_nat level) (InternalKey_DecodeFrom (compact_pointer vs level)) else e)
  (seq 0 num_levels) edit.

Definition snapshot_files (v : Version) (edit : VersionEdit) : VersionEdit :=
  fold_left (fun e level =>
    fold_left (fun e f => AddFile e (Z.of_nat level) (number f) (file_size f) (smallest f) (largest f))
      (level_files v level) e)
  (seq 0 num_levels) edit.

Definition snapshot_edit (vs : VersionSet) : VersionEdit :=
  snapshot_files (current_ vs) (snapshot_pointers vs (SetComparatorName VersionEdit_new (Name ucmp))).

Definition WriteSnapshot (vs : VersionSet) (st : St) (log : Writer bytes) (addr : Z) : option (Status * Writer bytes * St) :=
  log_AddRecord st log addr (EncodeTo (snapshot_edit vs) []).

(** ** LogAndApply *)

(** The edit completed with the numbers of the set; [None]: an assertion fails. *)
Definition complete_edit (vs : VersionSet) (edit : VersionEdit) : option VersionEdit :=
  edit ← (if has_log_number_ edit then
            if (log_number_ vs <=? VersionEdit.log_number_ edit) && (VersionEdit.log_number_ edit <? next_file_number_ vs)
            then Some edit else None
          else Some (SetLogNumber edit (log_number_ vs)));
  let edit := if negb (has_prev_log_number_ edit) then SetPrevLogNumber edit (prev_log_number_ vs) else edit in
  Some (SetLastSequence (SetNextFile edit (next_file_number_ vs)) (last_sequence_ vs)).

(** The builder applied to the current version: the set with the edit's
    compaction pointers, and the new version. *)
Definition build_version (vs : VersionSet) (edit : VersionEdit) : option (VersionSet * Version) :=
  v ← SaveTo ucmp (Apply ucmp (Builder_new (current_ vs)) edit);
  Some (MkVersionSet (next_file_number_ vs) (manifest_file_number_ vs) (last_sequence_ vs) (log_number_ vs)
          (prev_log_number_ vs) (Apply_pointers (compact_pointer_ vs) edit) (current_ vs),
        Finalize v).

(** A new descriptor, holding a snapshot of the set. *)
Definition new_descriptor (vs : VersionSet) (st : St) (t_addr addr : Z) : option (Status * option (Writer bytes) * St) :=
  let new_manifest_file := DescriptorFileName dbname (manifest_file_number_ vs) in
  let '(s, st) := NewWritableFile env st new_manifest_file in
  if ok s then
    '(s, log, st) ← WriteSnapshot vs st (Writer_new t_addr new_manifest_file) addr;
    Some (s, Some log, st)
  else Some (s, None, st).

(** [AddRecord] and [Sync], when all went well so far. *)
Definition log_edit (s : Status) (log : option (Writer bytes)) (st : St) (edit : VersionEdit) (addr : Z)
    : option (Status * option (Writer bytes) * St) :=
  if ok s then
    log ← log;
    '(s, log, st) ← log_AddRecord st log addr (EncodeTo edit []);
    let '(s, st) := if ok s then file_Sync env st (dest_ log) else (s, st) in
    Some (s, Some log, st)
  else Some (s, log, st).

(** [log_number_] and [prev_log_number_] of the edit, and the new version. *)
Definition install (vs : VersionSet) (edit : VersionEdit) (v : Version) : VersionSet :=
  MkVersionSet (next_file_number_ vs) (manifest_file_number_ vs) (last_sequence_ vs)
    (VersionEdit.log_number_ edit) (VersionEdit.prev_log_number_ edit) (compact_pointer_ vs) v.

(** [t_addr], [a_snapshot] and [a_record] are the addresses of the buffers that
    are checksummed. *)
Definition LogAndApply (m : LogState) (st : St) (edit : VersionEdit) (t_addr a_snapshot a_record : Z)
    : option (Status * LogState * St) :=
  edit ← complete_edit (the_set m) edit;
  '(vs, v) ← build_version (the_set m) edit;
  let fresh := match descriptor_log_ m with Some _ => false | None => true end in
  '(s, log, st) ← (if fresh then new_descriptor vs st t_addr a_snapshot
                   else Some (Status_OK, descriptor_log_ m, st));
  '(s, log, st) ← log_edit s log st edit a_record;
  let '(s, st) := if ok s && fresh then SetCurrentFile env st dbname (manifest_file_number_ vs) else (s, st) in
  if ok s then Some (s, MkLogState (install vs edit v) log, st)
  else if fresh then
    Some (s, MkLogState vs None, (env_DeleteFile env st (DescriptorFileName dbname (manifest_file_number_ vs))).2)
  else Some (s, MkLogState vs log, st).

(** ** Recover *)

(** The locals of [Recover]: [s], the numbers with their [have_] flags, the
    builder, and the set's compaction pointers, which [Apply] changes. *)
Record recovery := MkRecovery {
  r_status : Status;
  r_log_number : option Z;
  r_prev_log_number : option Z;
  r_next_file : option Z;
  r_last_sequence : option Z;
  r_builder : Builder;
  r_pointers : list bytes
}.

Definition with_r_status (x : recovery) (s : Status) : recovery :=
  MkRecovery s (r_log_number x) (r_prev_log_number x) (r_next_file x) (r_last_sequence x) (r_builder x) (r_pointers x).

(** [LogReporter::Corruption] for each report of the reader. *)
Definition note_reports (x : recovery) (reports : list (Z * Status)) : recovery :=
  fold_left (fun x rep => if ok (r_status x) then with_r_status x rep.2 else x) reports x.

Definition mismatch (name : bytes) : Status :=
  Status_InvalidArgument (name ++ str " does not match existing comparator ") (Name ucmp).

(** The body of the loop over records. *)
Definition Recover_record (x : recovery) (record : bytes) : option recovery :=
  '(s, edit) ← DecodeFrom VersionEdit_new record;
  let s := if ok s && has_comparator_ edit && negb (bool_decide (comparator_ edit = Name ucmp))
           then mismatch (comparator_ edit) else s in
  let num (has : bool) (n : Z) (old : option Z) := if has then Some n else old in
  Some (MkRecovery s
    (num (has_log_number_ edit) (VersionEdit.log_number_ edit) (r_log_number x))
    (num (has_prev_log_number_ edit) (VersionEdit.prev_log_number_ edit) (r_prev_log_number x))
    (num (has_next_file_number_ edit) (VersionEdit.next_file_number_ edit) (r_next_file x))
    (num (has_last_sequence_ edit) (VersionEdit.last_sequence_ edit) (r_last_sequence x))
    (if ok s then Apply ucmp (r_builder x) edit else r_builder x)
    (if ok s then Apply_pointers (r_pointers x) edit else r_pointers x)).

(** [while (reader.ReadRecord(&record, &scratch) && s.ok())] *)
Fixpoint Recover_loop (fuel : nat) (r : Reader) (record scratch : bytes) (x : recovery) : option recovery :=
  match fuel with
  | O => None
  | S fuel =>
      '(got, record, scratch, r') ← ReadRecord r record scratch;
      let x := note_reports x (drop (length (reports r)) (reports r')) in
      if (got : bool) && ok (r_status x) then
        x ← Recover_record x record;
        Recover_loop fuel r' record scratch x
      else Some x
  end.

(** What follows the loop. *)
Definition Recover_finish (vs : VersionSet) (x : recovery) : option (Status * VersionSet) :=
  let vs := MkVersionSet (next_file_number_ vs) (manifest_file_number_ vs) (last_sequence_ vs) (log_number_ vs)
              (prev_log_number_ vs) (r_pointers x) (current_ vs) in
  if negb (ok (r_status x)) then Some (r_status x, vs)
  else
    let missing :=
      match r_next_file x, r_log_number x, r_last_sequence x with
      | None, _, _ => Some "no meta-nextfile entry in descriptor"%string
      | _, None, _ => Some "no meta-lognumber entry in descriptor"%string
      | _, _, None => Some "no last-sequence-number entry in descriptor"%string
      | _, _, _ => None
      end in
    let prev_log_number := default 0 (r_prev_log_number x) in
    let log_number := default 0 (r_log_number x) in
    let vs := MarkFileNumberUsed (MarkFileNumberUsed vs prev_log_number) log_number in
    match missing with
    | Some msg => Some (Status_Corruption (str msg) [], vs)
    | None =>
        let next_file := default 0 (r_next_file x) in
        v ← SaveTo ucmp (r_builder x);
        Some (Status_OK, MkVersionSet (u64 (next_file + 1)) next_file (default 0 (r_last_sequence x)) log_number
                           prev_log_number (compact_pointer_ vs) (Finalize v))
    end.

(** The loop consumes bytes of the file: its length plus two is enough fuel.
    [store] is the address of the reader's buffer, [lro] and [eob] its
    uninitialised fields. *)
Definition Recover (vs : VersionSet) (st : St) (store lro eob : Z) : option (Status * VersionSet * St) :=
  '(s, current, st) ← ReadFileToString env st (CurrentFileName dbname);
  if negb (ok s) then Some (s, vs, st)
  else if Slice.empty current || negb (bool_decide (last current = Some Byte.x0a)) then
    Some (Status_Corruption (str "CURRENT file does not end with newline") [], vs, st)
  else
    let current := take (length current - 1) current in
    let dscname := dbname ++ str "/" ++ current in
    let '(s, file, st) := NewSequentialFile env st dscname in
    if negb (ok s) then Some (s, vs, st)
    else
      x ← Recover_loop (length (sf_data file) + 2) (Reader_new file true true store 0 lro eob) [] []
            (MkRecovery s None None None None (Builder_new (current_ vs)) (compact_pointer_ vs));
      '(s, vs) ← Recover_finish vs x;
      Some (s, vs, st).

(** ** DBImpl::NewDB *)

Definition new_db_edit : VersionEdit :=
  SetLastSequence (SetNextFile (SetLogNumber (SetComparatorName VersionEdit_new (Name ucmp)) 0) 2) 0.

Definition NewDB (st : St) (t_addr a_record : Z) : option (Status * St) :=
  let manifest := DescriptorFileName dbname 1 in
  let '(s, st) := NewWritableFile env st manifest in
  if negb (ok s) then Some (s, st)
  else
    '(s, _, st) ← log_AddRecord st (Writer_new t_addr manifest) a_record (EncodeTo new_db_edit []);
    let '(s, st) := if ok s then file_Close env st manifest else (s, st) in
    if ok s then Some (SetCurrentFile env st dbname 1)
    else Some (s, (env_DeleteFile env st manifest).2).

End Manifest.

(** ** Lemmas: replaying edits

    A builder that applies all edits to the first version saves the files that
    saving after each edit leads to, as long as no file number is added to a level
    twice. *)

(** What the manifest records of a file. *)
Definition meta (f : FileMetaData) : FileMetaData := FileMetaData_new (number f) (file_size f) (smallest f) (largest f).

Definition new_at (level : nat) (e : VersionEdit) : list FileMetaData :=
  map (fun n => meta n.2) (base.filter (fun n => Z.to_nat n.1 = level) (new_files_ e)).

(** The files a level can be made of. *)
Definition sources (level : nat) (v : Version) (edits : list VersionEdit) : list FileMetaData :=
  map meta (level_files v level) ++ concat (map (new_at level) edits).

Lemma sources_snoc level v edits e : sources level v (edits ++ [e]) = sources level v edits ++ new_at level e.
Proof. unfold sources. rewrite map_app, concat_app. cbn. by rewrite app_nil_r, app_assoc. Qed.

Lemma map_number_meta l : map number (map meta l) = map number l.
Proof. rewrite map_map. by apply map_ext. Qed.

Section Replay.
Context (ucmp : Comparator) `{!ComparatorLaws ucmp any_key}.
Abbreviation Apply := (Apply ucmp).

(** The files [l] saved from [S], whose numbers are [N]. *)
Record saved (S : list FileMetaData) (N : gset Z) (l : list FileMetaData) : Prop := {
  sv_sorted : StronglySorted (by_smallest_le ucmp) l;
  sv_nodup : NoDup (map number l);
  sv_numbers : numbers l = N;
  sv_from : forall f, f ∈ l -> meta f ∈ S
}.

Lemma NoDup_number_inj S f g : NoDup (map number S) -> f ∈ S -> g ∈ S -> number f = number g -> f = g.
Proof.
  intros Hn [i Hi]%list_elem_of_lookup [j Hj]%list_elem_of_lookup E.
  assert (i = j) as ->; [|congruence].
  eapply NoDup_lookup; [exact Hn| |]; rewrite list_lookup_fmap; [by rewrite Hi|by rewrite Hj, E].
Qed.

Lemma by_smallest_meta f g : BySmallestKey ucmp (meta f) (meta g) = BySmallestKey ucmp f g.
Proof. done. Qed.

Lemma saved_unique S N l1 l2 : NoDup (map number S) -> saved S N l1 -> saved S N l2 -> map meta l1 = map meta l2.
Proof.
  intros HS H1 H2.
  assert (forall l, saved S N l -> StronglySorted (by_smallest_le ucmp) (map meta l) /\ NoDup (map meta l) /\
    forall x, x ∈ map meta l <-> x ∈ S /\ number x ∈ N) as Hl.
  { intros l [Hs Hnd Hn Hf]. split_and!.
    - clear -Hs. induction Hs as [|f l Hs IH Hfa]; cbn; constructor; [done|]. by rewrite Forall_map.
    - apply (NoDup_fmap_1 number). change (NoDup (map number (map meta l))). by rewrite map_number_meta.
    - intros x. rewrite list_elem_of_fmap. split.
      + intros (f & -> & Hi). split; [auto|]. rewrite <- Hn, elem_of_numbers. by exists f.
      + intros [Hx Hxn]. rewrite <- Hn, elem_of_numbers in Hxn. destruct Hxn as (f & Hi & Ef).
        exists f. split; [|done]. eapply NoDup_number_inj; [exact HS|done|auto|by rewrite <- Ef]. }
  destruct (Hl _ H1) as (S1 & N1 & E1), (Hl _ H2) as (S2 & N2 & E2).
  apply (StronglySorted_unique_strong (by_smallest_le ucmp)); [|done..|].
  - intros x y Hx Hy Hle Hge. rewrite !by_smallest_le_spec in Hle, Hge by done.
    pose proof (to_sgn (cmp := InternalKeyCompare ucmp) (valid := any_key) (rep_ (smallest x)) (rep_ (smallest y)) I I).
    apply E1 in Hx as [Hx _]. apply E2 in Hy as [Hy _]. apply (NoDup_number_inj S); [done..|]. lia.
  - apply NoDup_Permutation; [done..|]. intros x. by rewrite E1, E2.
Qed.

Lemma FileSet_insert_sub f s : FileSet_insert ucmp f s ⊆+ f :: s.
Proof.
  induction s as [|g s IH]; cbn [FileSet_insert]; [done|]. repeat case_match; [done| |by apply submseteq_cons].
  rewrite (Permutation_swap g f). by apply submseteq_skip.
Qed.

Lemma Apply_add_sub ns levels level :
  map meta (added_at (fold_left (Apply_add ucmp) ns levels) level) ⊆+
  map meta (added_at levels level) ++ map (fun n => meta n.2) (base.filter (fun n => Z.to_nat n.1 = level) ns).
Proof.
  revert levels. induction ns as [|n ns IH]; intros levels; cbn [fold_left].
  - cbn. by rewrite app_nil_r.
  - rewrite IH. rewrite filter_cons.
    assert (map meta (added_at (Apply_add ucmp levels n) level) ⊆+
      map meta (added_at levels level) ++ (if decide (Z.to_nat n.1 = level) then [meta n.2] else [])) as H.
    { unfold added_at, Apply_add. destruct (decide (Z.to_nat n.1 = level)) as [<-|Hne].
      - rewrite list_lookup_alter, decide_True by done. destruct (levels !! Z.to_nat n.1) as [st|]; [|apply submseteq_nil_l].
        cbn [fmap option_fmap option_map from_option added_files].
        etransitivity; [apply (fmap_submseteq meta), FileSet_insert_sub|]. cbn [fmap list_fmap].
        change (meta (Apply_file n.2)) with (meta n.2). apply Permutation_submseteq, Permutation_cons_append.
      - rewrite list_lookup_alter_ne by done. by rewrite app_nil_r. }
    etransitivity; [apply submseteq_app; [exact H|reflexivity]|].
    case_decide; cbn [map]; by rewrite <- app_assoc.
Qed.

Lemma Apply_all_sub edits b level :
  map meta (added_at (levels_ (fold_left Apply edits b)) level) ⊆+
  map meta (added_at (levels_ b) level) ++ concat (map (new_at level) edits).
Proof.
  revert b. induction edits as [|e edits IH]; intros b; cbn [fold_left map concat].
  - by rewrite app_nil_r.
  - rewrite IH, app_assoc. apply submseteq_app; [|done]. unfold VersionSet.Apply. cbn [levels_].
    rewrite Apply_add_sub. apply submseteq_app; [|done]. clear IH. apply Permutation_submseteq.
    enough (forall ds levels, added_at (fold_left Apply_delete ds levels) level = added_at levels level) as -> by done.
    induction ds as [|d ds IH]; intros levels; cbn [fold_left]; [done|]. by rewrite IH, Apply_delete_added.
Qed.

Lemma fold_Apply_base edits b : base_ (fold_left Apply edits b) = base_ b.
Proof. revert b. induction edits as [|e edits IH]; intros b; cbn [fold_left]; [done|]. by rewrite IH. Qed.

(** What a builder saves on a level when no number comes twice. *)
Lemma Builder_saved base edits level : (level < num_levels)%nat ->
  StronglySorted (by_smallest_le ucmp) (level_files base level) -> NoDup (map number (sources level base edits)) ->
  saved (sources level base edits) (fold_left (edit_numbers level) edits (numbers (level_files base level)))
    (kept ucmp (fold_left Apply edits (Builder_new base)) level).
Proof.
  intros Hl Hs Hn. destruct (Builder_level ucmp base edits level Hl) as (H1 & _ & H3).
  set (b := fold_left Apply edits (Builder_new base)) in *.
  assert (base_ b = base) as Eb by apply fold_Apply_base.
  assert (map meta (kept ucmp b level) ⊆+ sources level base edits) as Hsub.
  { unfold kept, keep. etransitivity; [apply (fmap_submseteq meta), sublist_submseteq, sublist_filter|].
    rewrite (merge_files_perm ucmp), Eb. unfold sources. rewrite fmap_app. apply submseteq_app; [done|].
    pose proof (Apply_all_sub edits (Builder_new base) level) as H. fold b in H.
    unfold added_at in H at 2. cbn [levels_ Builder_new] in H.
    rewrite lookup_replicate_2 in H by done. cbn [from_option added_files map app] in H.
    unfold level_state. unfold added_at in H. rewrite nth_lookup. by destruct (levels_ b !! level). }
  constructor; [by apply H3| |done|].
  - rewrite <- map_number_meta. apply (fmap_submseteq number), submseteq_Permutation in Hsub as [k Hk].
    change (map number (map meta (kept ucmp b level))) with (number <$> (meta <$> kept ucmp b level)).
    apply (NoDup_app (number <$> (meta <$> kept ucmp b level)) k). by rewrite <- Hk.
  - intros f Hf. eapply elem_of_submseteq; [|exact Hsub]. by apply list_elem_of_fmap_2.
Qed.

Lemma SaveTo_levels_files b levels : forall fss, SaveTo_levels ucmp b levels = Some fss <->
  fss = map (kept ucmp b) levels /\ Forall (fun l => l = 0%nat \/ no_overlap ucmp (kept ucmp b l) = true) levels.
Proof.
  induction levels as [|l levels IH]; intros fss; cbn [SaveTo_levels map].
  - split; [intros [= <-]; by split|by intros [-> _]].
  - rewrite SaveTo_level_ok by done. destruct (_ || _) eqn:E.
    + apply orb_true_iff in E. rewrite Nat.eqb_eq in E. bind_simpl.
      destruct (SaveTo_levels ucmp b levels) as [rest|] eqn:Er; bind_simpl.
      * destruct (proj1 (IH _) eq_refl) as [-> Hall]. split; [intros [= <-]|intros [-> _]]; [|done]. split; [done|]. by constructor.
      * split; [done|]. intros [-> Hall%Forall_cons_1]. pose proof (proj2 (IH _) (conj eq_refl (proj2 Hall))). done.
    + apply orb_false_iff in E as [E1 E2]. apply Nat.eqb_neq in E1. split; [done|].
      intros [_ [[?|?] _]%Forall_cons_1]; congruence.
Qed.

Lemma seq_all (P : nat -> Prop) : Forall P (seq 0 num_levels) <-> forall l, (l < num_levels)%nat -> P l.
Proof.
  rewrite Forall_forall. setoid_rewrite elem_of_seq. split; intros H l Hl; apply H; lia.
Qed.

(** When [SaveTo] succeeds and what it saves. *)
Lemma SaveTo_iff b v : SaveTo ucmp b = Some v <->
  v = MkVersion (map (kept ucmp b) (seq 0 num_levels)) None (-1) (double_of_int (-1)) (-1) /\
  forall l, (l < num_levels)%nat -> l = 0%nat \/ no_overlap ucmp (kept ucmp b l) = true.
Proof.
  unfold SaveTo. rewrite <- seq_all. pose proof (SaveTo_levels_files b (seq 0 num_levels)) as H.
  destruct (SaveTo_levels ucmp b (seq 0 num_levels)) as [fss|]; bind_simpl.
  - destruct (proj1 (H fss) eq_refl) as [-> Hall]. split; [intros [= <-]; by split|by intros [-> _]].
  - split; [done|]. intros [_ Hall]. pose proof (proj2 (H _) (conj eq_refl Hall)). done.
Qed.

Lemma level_files_map (f : nat -> list FileMetaData) a b c d l : (l < num_levels)%nat ->
  level_files (MkVersion (map f (seq 0 num_levels)) a b c d) l = f l.
Proof.
  intros Hl. unfold level_files. cbn [files_]. rewrite nth_lookup, list_lookup_fmap, lookup_seq_lt by done. done.
Qed.

Lemma SaveTo_level_files b v l : SaveTo ucmp b = Some v -> (l < num_levels)%nat ->
  level_files v l = kept ucmp b l /\ (l = 0%nat \/ no_overlap ucmp (level_files v l) = true).
Proof. intros [-> Hall]%SaveTo_iff Hl. rewrite level_files_map by done. auto. Qed.

Lemma Finalize_files v l : level_files (Finalize v) l = level_files v l.
Proof. unfold Finalize. by destruct (fold_left _ _ _). Qed.

(** Versions one edit after the other, as [LogAndApply] builds them. *)
Fixpoint apply_all (v : Version) (edits : list VersionEdit) : option Version :=
  match edits with
  | [] => Some v
  | e :: edits => v' ← SaveTo ucmp (Apply (Builder_new v) e); apply_all (Finalize v') edits
  end.

Lemma apply_all_snoc v edits e : apply_all v (edits ++ [e]) =
  v' ← apply_all v edits; v'' ← SaveTo ucmp (Apply (Builder_new v') e); Some (Finalize v'').
Proof.
  revert v. induction edits as [|e0 edits IH]; intros v; cbn [app apply_all]; [done|].
  destruct (SaveTo ucmp _) as [v'|]; bind_simpl; [apply IH|done].
Qed.

Lemma apply_all_saved v0 edits v l : (l < num_levels)%nat ->
  StronglySorted (by_smallest_le ucmp) (level_files v0 l) -> NoDup (map number (sources l v0 edits)) ->
  apply_all v0 edits = Some v ->
  saved (sources l v0 edits) (fold_left (edit_numbers l) edits (numbers (level_files v0 l))) (level_files v l).
Proof.
  intros Hl Hs. revert v. induction edits as [|e edits IH] using rev_ind; intros v Hn Hv.
  - injection Hv as <-. unfold sources in *. cbn [map concat] in *. rewrite app_nil_r in *. constructor; [done| |done|].
    + by rewrite map_number_meta in Hn.
    + intros f. apply list_elem_of_fmap_2.
  - rewrite apply_all_snoc in Hv. destruct (apply_all v0 edits) as [v1|] eqn:E1; [|done]. cbn [mbind option_bind] in Hv.
    destruct (SaveTo ucmp _) as [v2|] eqn:E2; [|done]. injection Hv as <-.
    rewrite sources_snoc in *. rewrite map_app in Hn. apply NoDup_app in Hn as (Hn1 & Hdis & Hn2).
    destruct (IH v1 Hn1 eq_refl) as [Hs1 Hnd Hnum Hfrom].
    assert (NoDup (map number (sources l v1 [e]))) as Hnew.
    { unfold sources. cbn [map concat]. rewrite app_nil_r, map_app, map_number_meta. apply NoDup_app.
      split_and!; [done| |done]. intros n (f & -> & Hf)%list_elem_of_fmap. apply Hdis.
      apply (list_elem_of_fmap_2 number _ (meta f)). auto. }
    pose proof (Builder_saved v1 [e] l Hl Hs1 Hnew) as [Hs2 Hnd2 Hnum2 Hfrom2]. cbn [fold_left] in *.
    rewrite Finalize_files. destruct (SaveTo_level_files _ _ l E2 Hl) as [-> _]. constructor; [done|done| |].
    + rewrite Hnum2, Hnum, fold_left_app. done.
    + intros f Hf. apply Hfrom2 in Hf. unfold sources in Hf. cbn [map concat] in Hf. rewrite app_nil_r in Hf.
      apply elem_of_app in Hf as [Hf|Hf]; apply elem_of_app; [left|by right].
      apply list_elem_of_fmap in Hf as (g & -> & Hg). auto.
Qed.

Lemma no_overlap_meta l : no_overlap ucmp (map meta l) = no_overlap ucmp l.
Proof.
  induction l as [|f [|g l] IH]; [done..|]. cbn [map no_overlap] in *. by rewrite IH.
Qed.

Lemma numbers_meta l l' : map meta l = map meta l' -> numbers l = numbers l'.
Proof. intros E. unfold numbers. by rewrite <- (map_number_meta l), E, map_number_meta. Qed.

Lemma Version_new_level l : level_files Version_new l = [].
Proof.
  unfold level_files, Version_new. cbn [files_]. rewrite nth_lookup.
  by destruct (replicate _ _ !! l) as [x|] eqn:E; [apply lookup_replicate in E as [-> _]|].
Qed.

(** [snap] records exactly the files of [v0]. *)
Definition records (snap : VersionEdit) (v0 : Version) : Prop :=
  forall l, (l < num_levels)%nat -> new_at l snap = map meta (level_files v0 l).

(** One builder fed with the snapshot and the edits saves the files the edits led to. *)
Lemma replay v0 snap edits v : records snap v0 -> edits <> [] -> apply_all v0 edits = Some v ->
  (forall l, (l < num_levels)%nat -> StronglySorted (by_smallest_le ucmp) (level_files v0 l) /\
    NoDup (map number (sources l v0 edits))) ->
  exists v', SaveTo ucmp (fold_left Apply (snap :: edits) (Builder_new Version_new)) = Some v' /\
    forall l, (l < num_levels)%nat -> map meta (level_files v' l) = map meta (level_files v l).
Proof.
  intros Hsnap Hne Hv Hh. set (b := fold_left Apply (snap :: edits) (Builder_new Version_new)).
  assert (forall l, (l < num_levels)%nat -> map meta (kept ucmp b l) = map meta (level_files v l)) as Hk.
  { intros l Hl. destruct (Hh l Hl) as [Hs Hn]. pose proof (apply_all_saved v0 edits v l Hl Hs Hn Hv) as H1.
    assert (sources l Version_new (snap :: edits) = sources l v0 edits) as Es.
    { unfold sources. cbn [map concat]. rewrite Version_new_level, Hsnap by done. done. }
    pose proof (Builder_saved Version_new (snap :: edits) l Hl) as H2. rewrite Es, Version_new_level in H2.
    eapply saved_unique; [exact Hn|apply H2; [constructor|done]|]. cbn [fold_left].
    assert (edit_numbers l (numbers []) snap = numbers (level_files v0 l)) as ->; [|done].
    unfold edit_numbers. change (numbers []) with (∅ : gset Z). rewrite (subseteq_empty_difference_L ∅), union_empty_l_L by set_solver.
    apply numbers_meta. rewrite map_map. by apply Hsnap. }
  destruct (SaveTo ucmp b) as [v'|] eqn:E.
  - exists v'. split; [done|]. intros l Hl. destruct (SaveTo_level_files b v' l E Hl) as [-> _]. auto.
  - exfalso. destruct (exists_last Hne) as (es & e & ->). rewrite apply_all_snoc in Hv.
    destruct (apply_all v0 es) as [v1|]; [|done]. cbn [mbind option_bind] in Hv.
    destruct (SaveTo ucmp (Apply _ e)) as [v2|] eqn:E2; [|done]. injection Hv as <-.
    assert (SaveTo ucmp b = Some (MkVersion (map (kept ucmp b) (seq 0 num_levels)) None (-1) (double_of_int (-1)) (-1)))
      as E'; [|congruence].
    apply SaveTo_iff. split; [done|]. intros l Hl. destruct (SaveTo_level_files _ v2 l E2 Hl) as [_ [?|Ho]]; [by left|right].
    rewrite <- no_overlap_meta, Hk, Finalize_files, no_overlap_meta by done. done.
Qed.

End Replay.

(** ** Lemmas: the snapshot *)

Definition pointer_entry (vs : VersionSet) (level : nat) : option (Z * InternalKey) :=
  if Slice.empty (compact_pointer vs level) then None
  else Some (Z.of_nat level, InternalKey_DecodeFrom (compact_pointer vs level)).

Definition file_entries (v : Version) (level : nat) : list (Z * FileMetaData) :=
  map (fun f => (Z.of_nat level, meta f)) (level_files v level).

Lemma with_lists_id e : with_lists e (compact_pointers_ e) (deleted_files_ e) (new_files_ e) = e.
Proof. by destruct e. Qed.

Lemma snapshot_edit_lists ucmp vs :
  snapshot_edit ucmp vs = with_lists (SetComparatorName VersionEdit_new (Name ucmp))
    (omap (pointer_entry vs) (seq 0 num_levels)) [] (mbind (file_entries (current_ vs)) (seq 0 num_levels)).
Proof.
  assert (forall ls e, fold_left (fun e level => if negb (Slice.empty (compact_pointer vs level))
      then SetCompactPointer e (Z.of_nat level) (InternalKey_DecodeFrom (compact_pointer vs level)) else e) ls e =
    with_lists e (compact_pointers_ e ++ omap (pointer_entry vs) ls) (deleted_files_ e) (new_files_ e)) as H1.
  { induction ls as [|l ls IH]; intros e; cbn [fold_left omap list_omap].
    - by rewrite app_nil_r, with_lists_id.
    - rewrite IH. unfold pointer_entry at 2. destruct (Slice.empty (compact_pointer vs l)); cbn [negb]; [done|].
      unfold with_lists. cbn. by rewrite <- app_assoc. }
  assert (forall level fs e, fold_left (fun e f => AddFile e (Z.of_nat level) (number f) (file_size f) (smallest f) (largest f)) fs e =
    with_lists e (compact_pointers_ e) (deleted_files_ e) (new_files_ e ++ map (fun f => (Z.of_nat level, meta f)) fs)) as H2.
  { induction fs as [|f fs IH]; intros e; cbn [fold_left map].
    - by rewrite app_nil_r, with_lists_id.
    - rewrite IH. unfold with_lists. cbn. by rewrite <- app_assoc. }
  assert (forall ls e, fold_left (fun e level =>
      fold_left (fun e f => AddFile e (Z.of_nat level) (number f) (file_size f) (smallest f) (largest f))
        (level_files (current_ vs) level) e) ls e =
    with_lists e (compact_pointers_ e) (deleted_files_ e) (new_files_ e ++ mbind (file_entries (current_ vs)) ls)) as H3.
  { induction ls as [|l ls IH]; intros e; cbn [fold_left mbind list_bind].
    - by rewrite app_nil_r, with_lists_id.
    - rewrite H2, IH. unfold with_lists. cbn. by rewrite <- app_assoc. }
  unfold snapshot_edit, snapshot_pointers, snapshot_files. rewrite H1, H3. done.
Qed.

Lemma snapshot_new_at v ls l : NoDup ls ->
  map (fun n => meta n.2) (base.filter (fun n => Z.to_nat n.1 = l) (mbind (file_entries v) ls)) =
  if bool_decide (l ∈ ls) then map meta (level_files v l) else [].
Proof.
  assert (forall k fs, base.filter (fun n => Z.to_nat n.1 = l) (map (fun f => (Z.of_nat k, meta f)) fs) =
    if bool_decide (k = l) then map (fun f => (Z.of_nat k, meta f)) fs else []) as Hone.
  { intros k fs. induction fs as [|f fs IH]; cbn [map]; [by case_bool_decide|]. rewrite filter_cons. cbn [fst].
    rewrite Nat2Z.id, IH. by destruct (decide (k = l)); case_bool_decide. }
  induction 1 as [|k ls Hk Hn IH]; [done|]. cbn [mbind list_bind]. rewrite filter_app, map_app, IH.
  unfold file_entries at 1. rewrite Hone. destruct (decide (k = l)) as [->|Hne].
  - rewrite (bool_decide_eq_true_2 (l = l)) by done. rewrite (bool_decide_eq_false_2 (l ∈ ls)) by done.
    rewrite (bool_decide_eq_true_2 (l ∈ l :: ls)) by set_solver. rewrite app_nil_r, map_map. by apply map_ext.
  - rewrite (bool_decide_eq_false_2 (k = l)) by done. cbn [map app]. by destruct (decide (l ∈ ls));
      [rewrite !bool_decide_eq_true_2 by set_solver|rewrite !bool_decide_eq_false_2 by set_solver].
Qed.

Lemma snapshot_records ucmp vs : records (snapshot_edit ucmp vs) (current_ vs).
Proof.
  intros l Hl. rewrite snapshot_edit_lists. unfold new_at. cbn [with_lists new_files_].
  rewrite snapshot_new_at by apply NoDup_seq. rewrite bool_decide_eq_true_2; [done|]. apply elem_of_seq. lia.
Qed.

(** ** Lemmas: compaction pointers *)

Abbreviation set_pointer := (fun (ps : list bytes) (c : Z * InternalKey) => <[Z.to_nat c.1 := InternalKey_Encode c.2]> ps).

Lemma Apply_pointers_insert cs k x ps :
  fold_left set_pointer cs (<[k := x]> ps) =
  (if bool_decide (k ∈ map (fun c => Z.to_nat c.1) cs) then fold_left set_pointer cs ps
   else <[k := x]> (fold_left set_pointer cs ps)).
Proof.
  revert ps. induction cs as [|c cs IH]; intros ps; cbn [fold_left map]; [done|].
  destruct (decide (Z.to_nat c.1 = k)) as [<-|Hne].
  - rewrite list_insert_insert_eq, (bool_decide_eq_true_2 (_ ∈ _ :: _)) by set_solver. done.
  - rewrite list_insert_insert_ne, IH by done.
    by destruct (decide (k ∈ map (fun c => Z.to_nat c.1) cs));
      [rewrite !bool_decide_eq_true_2 by set_solver|rewrite !bool_decide_eq_false_2 by set_solver].
Qed.

(** Replaying an edit's pointers a second time changes nothing. *)
Lemma Apply_pointers_idem e ps : Apply_pointers (Apply_pointers ps e) e = Apply_pointers ps e.
Proof.
  unfold Apply_pointers. induction (compact_pointers_ e) as [|c cs IH] using rev_ind; [done|].
  rewrite !fold_left_app. cbn [fold_left]. rewrite Apply_pointers_insert, IH.
  case_bool_decide; [done|]. apply list_insert_insert_eq.
Qed.

Lemma Apply_pointers_length e ps : length (Apply_pointers ps e) = length ps.
Proof.
  unfold Apply_pointers. revert ps. induction (compact_pointers_ e) as [|c cs IH]; intros ps; cbn [fold_left]; [done|].
  by rewrite IH, length_insert.
Qed.

Lemma Apply_pointers_Forall (P : bytes -> Prop) e ps :
  Forall P ps -> Forall (fun c => P (rep_ c.2)) (compact_pointers_ e) -> Forall P (Apply_pointers ps e).
Proof.
  unfold Apply_pointers. intros Hp Hc. revert ps Hp. induction Hc as [|c cs Hx Hc IH]; intros ps Hp; cbn [fold_left]; [done|].
  apply IH. by apply Forall_insert.
Qed.

(** The snapshot restores the pointers it was taken from. *)
Lemma snapshot_pointers_ok ucmp vs : length (compact_pointer_ vs) = num_levels ->
  Apply_pointers (replicate num_levels []) (snapshot_edit ucmp vs) = compact_pointer_ vs.
Proof.
  intros Hlen. rewrite snapshot_edit_lists. unfold Apply_pointers. cbn [with_lists compact_pointers_].
  assert (forall ls ps, NoDup ls -> (forall l, l ∈ ls -> ps !! l = Some []) ->
    forall i, fold_left set_pointer (omap (pointer_entry vs) ls) ps !! i =
      if bool_decide (i ∈ ls) then Some (compact_pointer vs i) else ps !! i) as H.
  { induction ls as [|l ls IH]; intros ps Hnd Hps i; cbn [omap list_omap fold_left]; [done|].
    apply NoDup_cons in Hnd as [Hl Hnd]. unfold pointer_entry at 1.
    assert (exists ps', fold_left set_pointer (omap (pointer_entry vs) ls) ps' !! i =
        (if Slice.empty (compact_pointer vs l) then fold_left set_pointer (omap (pointer_entry vs) ls) ps
         else fold_left set_pointer ((Z.of_nat l, InternalKey_DecodeFrom (compact_pointer vs l)) :: omap (pointer_entry vs) ls) ps) !! i
      /\ ps' !! l = Some (compact_pointer vs l) /\ forall k, k <> l -> ps' !! k = ps !! k) as (ps' & E & H1 & H2).
    { destruct (Slice.empty (compact_pointer vs l)) eqn:Ee.
      - exists ps. split_and!; [done| |done]. rewrite Hps by set_solver. f_equal. unfold Slice.empty, Slice.size, Zlength in Ee.
        by destruct (compact_pointer vs l).
      - exists (<[l := compact_pointer vs l]> ps). cbn [fold_left fst snd]. rewrite Nat2Z.id. split_and!; [done| |].
        + apply list_lookup_insert_eq. eapply lookup_lt_Some, Hps. set_solver.
        + intros k Hk. by apply list_lookup_insert_ne. }
    transitivity (fold_left set_pointer (omap (pointer_entry vs) ls) ps' !! i);
      [rewrite E; by destruct (Slice.empty (compact_pointer vs l))|].
    rewrite IH; [|done|intros k Hk; rewrite H2 by (intros ->; done); apply Hps; set_solver].
    destruct (decide (i = l)) as [->|Hne].
    - rewrite (bool_decide_eq_false_2 (l ∈ ls)), bool_decide_eq_true_2 by set_solver. done.
    - rewrite H2 by done. by destruct (decide (i ∈ ls)); [rewrite !bool_decide_eq_true_2 by set_solver|rewrite !bool_decide_eq_false_2 by set_solver]. }
  apply list_eq. intros i. rewrite H; [|apply NoDup_seq|intros l Hl%elem_of_seq; apply lookup_replicate_2; lia].
  case_bool_decide as Hi; rewrite elem_of_seq in Hi.
  - unfold compact_pointer. rewrite nth_lookup. destruct (lookup_lt_is_Some_2 (compact_pointer_ vs) i) as [x ->]; [lia|done].
  - rewrite !lookup_ge_None_2; [done|lia|rewrite length_replicate; lia].
Qed.

(** ** Lemmas: what is written decodes *)

Definition file_fits (f : FileMetaData) : Prop :=
  is_u64 (number f) /\ is_u64 (file_size f) /\ short (rep_ (smallest f)) /\ short (rep_ (largest f)).

(** The numbers of a set, its pointers and its files fit their encodings; the
    files of a level are in order. *)
Record set_ok (ucmp : Comparator) (vs : VersionSet) : Prop := {
  so_next : is_u64 (next_file_number_ vs);
  so_manifest : is_u64 (manifest_file_number_ vs);
  so_last : is_u64 (last_sequence_ vs);
  so_log : is_u64 (log_number_ vs);
  so_prev : is_u64 (prev_log_number_ vs);
  so_length : length (compact_pointer_ vs) = num_levels;
  so_pointers : Forall short (compact_pointer_ vs);
  so_files : forall l, (l < num_levels)%nat -> Forall file_fits (level_files (current_ vs) l);
  so_sorted : forall l, (l < num_levels)%nat -> StronglySorted (by_smallest_le ucmp) (level_files (current_ vs) l)
}.

Lemma DecodeFrom_EncodeTo e : edit_ok e -> DecodeFrom VersionEdit_new (EncodeTo e []) = Some (Status_OK, e).
Proof. intros He. rewrite DecodeFrom_ok by done. cbn [compact_pointers_ VersionEdit_new VersionEdit_Clear app]. by rewrite with_lists_id. Qed.

Lemma level_ok_nat l : (l < num_levels)%nat -> level_ok (Z.of_nat l).
Proof. unfold level_ok, num_levels, config.kNumLevels. lia. Qed.

Lemma snapshot_edit_ok ucmp vs : short (Name ucmp) -> Forall short (compact_pointer_ vs) ->
  (forall l, (l < num_levels)%nat -> Forall file_fits (level_files (current_ vs) l)) -> edit_ok (snapshot_edit ucmp vs).
Proof.
  intros Hn Hp Hf. rewrite snapshot_edit_lists. constructor; cbn; try done; [|constructor].
  unfold fields. cbn [with_lists has_comparator_ has_log_number_ has_prev_log_number_ has_next_file_number_ has_last_sequence_
    SetComparatorName VersionEdit_new VersionEdit_Clear when app compact_pointers_ deleted_files_ new_files_ comparator_ map].
  constructor; [done|]. apply Forall_app. split; apply Forall_map, Forall_forall.
  - intros [l k] (i & Hi & E)%list_elem_of_omap. unfold pointer_entry in E. case_match; simplify_eq. cbn.
    apply elem_of_seq in Hi. split; [apply level_ok_nat; lia|]. unfold compact_pointer. rewrite nth_lookup.
    destruct (compact_pointer_ vs !! i) as [x|] eqn:E; cbn; [by eapply Forall_lookup_1|]. unfold short, is_u32, Zlength. cbn. lia.
  - intros [l f] (i & Hx & Hi)%list_elem_of_bind. apply elem_of_seq in Hi. unfold file_entries in Hx.
    apply list_elem_of_fmap in Hx as (g & [= -> ->] & Hg). cbn. split; [apply level_ok_nat; lia|].
    assert (i < num_levels)%nat as Hl by lia. pose proof (Hf i Hl) as H. rewrite Forall_forall in H. destruct (H g Hg) as (? & ? & ? & ?).
    by split_and!.
Qed.

(** The numbers of a set that go into an edit. *)
Definition numbers_ok (vs : VersionSet) : Prop :=
  is_u64 (next_file_number_ vs) /\ is_u64 (last_sequence_ vs) /\ is_u64 (log_number_ vs) /\ is_u64 (prev_log_number_ vs).

Lemma complete_edit_ok vs e e' : numbers_ok vs -> edit_ok e -> complete_edit vs e = Some e' ->
  edit_ok e' /\ has_log_number_ e' = true /\ has_prev_log_number_ e' = true /\ has_next_file_number_ e' = true /\
  has_last_sequence_ e' = true /\ VersionEdit.next_file_number_ e' = next_file_number_ vs /\
  VersionEdit.last_sequence_ e' = last_sequence_ vs /\ new_files_ e' = new_files_ e /\ has_comparator_ e' = has_comparator_ e /\
  comparator_ e' = comparator_ e.
Proof.
  intros (Hn & Hl & Hlg & Hp) [Hf H1 H2 H3 H4 H5 Hs] E. unfold complete_edit in E.
  destruct e as [c ln pn nf ls hc hl hp hn hs cp df nw]. unfold fields in Hf. cbn in *.
  rewrite !Forall_app in Hf. destruct Hf as (F1 & F2 & F3 & F4 & F5 & F6 & F7 & F8).
  destruct hl, hp; cbn in E; repeat case_match; simplify_eq/=; (split; [|done]);
    (constructor; [|done..]); unfold fields; rewrite !Forall_app; split_and!; try done; by apply Forall_singleton.
Qed.

(** ** Lemmas: logging *)

Section Durable.
Context {St : Type} (env : EnvOps St) (contents : St -> bytes -> option bytes) (quiet : St -> Prop).
Context `{!EnvLaws env contents} `{!EnvQuiet env contents quiet}.
Context `{C : Checksum}.
Context (ucmp : Comparator) `{!ComparatorLaws ucmp any_key} (dbname : bytes).

(** The file [name] holds [d], nothing fails, and the other files are as in [base]. *)
Definition holds_in (name : bytes) (base : bytes -> option bytes) (f : EnvFile env) (d : bytes) : Prop :=
  ef_name f = name /\ quiet (ef_env f) /\ contents (ef_env f) name = Some d /\
  forall g, g <> name -> contents (ef_env f) g = base g.

#[local] Instance EnvFile_laws name base : FileLaws (holds_in name base).
Proof.
  split.
  - intros f d x (<- & Hq & Hd & Hb). cbn [Append EnvFile_ops].
    pose proof (quiet_append (ef_env f) (ef_name f) x d Hq Hd) as [Ho Hq'].
    pose proof (append_ok (ef_env f) (ef_name f) x d Hd Ho) as Hc.
    pose proof (append_frame (ef_env f) (ef_name f) x) as Hfr.
    destruct (file_Append env (ef_env f) (ef_name f) x) as [s st]. cbn [fst snd] in *. apply ok_is_OK in Ho as ->.
    eexists. split; [done|]. split_and!; cbn [ef_name ef_env]; [done..|]. intros g Hg. rewrite Hfr by done. auto.
  - intros f d (<- & Hq & Hd & Hb). cbn [Flush EnvFile_ops].
    destruct (quiet_flush (ef_env f) (ef_name f) Hq) as [Ho Hq']; [by rewrite Hd|].
    pose proof (flush_same (ef_env f) (ef_name f)) as Hs.
    destruct (file_Flush env (ef_env f) (ef_name f)) as [s st]. cbn [fst snd] in *. apply ok_is_OK in Ho as ->.
    eexists. split; [done|]. split_and!; cbn [ef_name ef_env]; [done|done|by rewrite Hs|]. intros g Hg. rewrite Hs. auto.
Qed.

(** [log] is the writer of a descriptor that holds [recs]. *)
Definition descriptor_holds (t_addr : Z) (recs : list (Z * bytes)) (log : Writer bytes) (st : St) : Prop :=
  exists out b, written t_addr recs out b /\ log = MkWriter (dest_ log) b (type_crc_ (Writer_new t_addr (dest_ log))) /\
    contents st (dest_ log) = Some out.

Lemma log_AddRecord_ok t_addr recs log st addr rec : quiet st -> descriptor_holds t_addr recs log st ->
  exists log' st', log_AddRecord env st log addr rec = Some (Status_OK, log', st') /\ quiet st' /\
    descriptor_holds t_addr (recs ++ [(addr, rec)]) log' st' /\ dest_ log' = dest_ log /\
    forall g, g <> dest_ log -> contents st' g = contents st g.
Proof.
  intros Hq (out & b & Hw & Elog & Hc). unfold log_AddRecord. rewrite Elog. cbn [dest_ block_offset_ type_crc_].
  destruct (AddRecord_written (holds_in (dest_ log) (contents st)) t_addr recs out b addr rec
    (MkEnvFile st (dest_ log)) Hw) as (out' & b' & f' & Hw' & E & Hn & Hq' & Hc' & Hfr); [by split_and!|].
  change (type_crc_ (Writer_new t_addr (dest_ log))) with (type_crc_ (Writer_new t_addr (MkEnvFile (env := env) st (dest_ log)))).
  rewrite E. bind_simpl. cbn [dest_ block_offset_ type_crc_]. eexists _, _. split; [done|]. cbn [dest_]. rewrite Hn.
  split_and!; [done| |done|done]. exists out', b'. by split_and!.
Qed.

Lemma log_edit_ok t_addr recs log st edit addr : quiet st -> descriptor_holds t_addr recs log st ->
  exists log' st', log_edit env Status_OK (Some log) st edit addr = Some (Status_OK, Some log', st') /\ quiet st' /\
    descriptor_holds t_addr (recs ++ [(addr, EncodeTo edit [])]) log' st' /\ dest_ log' = dest_ log /\
    forall g, g <> dest_ log -> contents st' g = contents st g.
Proof.
  intros Hq Hd. unfold log_edit. change (ok Status_OK) with true. bind_simpl.
  destruct (log_AddRecord_ok t_addr recs log st addr (EncodeTo edit []) Hq Hd) as (log' & st' & -> & Hq' & Hd' & Hn & Hfr).
  bind_simpl. change (ok Status_OK) with true. cbn iota. pose proof Hd' as (out & b & Hw & El & Hc).
  destruct (quiet_sync st' (dest_ log') Hq') as [Ho Hq2]; [by rewrite Hc|].
  pose proof (sync_same st' (dest_ log')) as Hs. destruct (file_Sync env st' (dest_ log')) as [s st2]. cbn [fst snd] in *.
  apply ok_is_OK in Ho as ->. exists log', st2. split_and!; [done|done| |done|].
  - exists out, b. by rewrite Hs.
  - intros g Hg. rewrite Hs. auto.
Qed.

Lemma new_descriptor_ok vs st t_addr addr : quiet st ->
  let name := DescriptorFileName dbname (manifest_file_number_ vs) in
  exists log st', new_descriptor env ucmp dbname vs st t_addr addr = Some (Status_OK, Some log, st') /\ quiet st' /\
    descriptor_holds t_addr [(addr, EncodeTo (snapshot_edit ucmp vs) [])] log st' /\ dest_ log = name /\
    forall g, g <> name -> contents st' g = contents st g.
Proof.
  intros Hq name. unfold new_descriptor. fold name. destruct (quiet_new st name Hq) as [Ho Hq1].
  pose proof (new_ok st name Ho) as Hc. pose proof (new_frame st name) as Hfr.
  destruct (NewWritableFile env st name) as [s st1]. cbn [fst snd] in *. rewrite Ho.
  assert (descriptor_holds t_addr [] (Writer_new t_addr name) st1) as Hd by (exists [], 0; by split_and!).
  unfold WriteSnapshot. destruct (log_AddRecord_ok _ _ _ _ addr (EncodeTo (snapshot_edit ucmp vs) []) Hq1 Hd)
    as (log & st' & -> & Hq' & Hd' & Hn & Hfr'). bind_simpl. exists log, st'. split_and!; [done..|].
  intros g Hg. rewrite Hfr' by done. auto.
Qed.

Definition current_entry (n : Z) : bytes := str "MANIFEST-" ++ print_dec6 n ++ [Byte.x0a].

(** The descriptor of [m] holds [recs], and CURRENT names it. *)
Definition logged (m : LogState) (st : St) (t_addr : Z) (recs : list (Z * bytes)) : Prop :=
  quiet st /\ contents st (CurrentFileName dbname) = Some (current_entry (manifest_file_number_ (the_set m))) /\
  exists log, descriptor_log_ m = Some log /\ descriptor_holds t_addr recs log st /\
    dest_ log = DescriptorFileName dbname (manifest_file_number_ (the_set m)).

(** What [LogAndApply] does to the set in memory. *)
Definition spec_step (vs : VersionSet) (edit : VersionEdit) : option (VersionEdit * VersionSet) :=
  edit ← complete_edit vs edit;
  '(vs, v) ← build_version ucmp vs edit;
  Some (edit, install vs edit v).

Lemma LogAndApply_more m st t_addr recs edit edit' vs' t a_s a_r :
  logged m st t_addr recs -> spec_step (the_set m) edit = Some (edit', vs') ->
  exists m' st', LogAndApply env ucmp dbname m st edit t a_s a_r = Some (Status_OK, m', st') /\ the_set m' = vs' /\
    logged m' st' t_addr (recs ++ [(a_r, EncodeTo edit' [])]).
Proof.
  intros (Hq & Hcur & log & El & Hd & Hn) Hspec. unfold LogAndApply, spec_step in *.
  destruct (complete_edit (the_set m) edit) as [e|]; [|done]. cbn [mbind option_bind] in *.
  destruct (build_version ucmp (the_set m) e) as [[vs v]|] eqn:Eb; [|done]. cbn [mbind option_bind] in *.
  injection Hspec as <- <-. rewrite El. cbn [mbind option_bind andb].
  destruct (log_edit_ok t_addr recs log st e a_r Hq Hd) as (log' & st' & -> & Hq' & Hd' & Hn' & Hfr).
  cbn [mbind option_bind]. change (ok Status_OK) with true. cbn [andb]. eexists _, _. split; [done|]. split; [done|].
  assert (manifest_file_number_ vs = manifest_file_number_ (the_set m)) as Em.
  { unfold build_version in Eb. destruct (SaveTo ucmp _); [|done]. by injection Eb as <- _. }
  unfold logged. cbn [the_set install manifest_file_number_ descriptor_log_]. rewrite Em. split_and!; [done| |].
  - rewrite Hfr; [done|]. rewrite Hn. intros E. by eapply DescriptorFileName_neq_Current.
  - exists log'. split_and!; [done|done|congruence].
Qed.

Lemma LogAndApply_fresh m st edit edit' vs' t a_s a_r :
  quiet st -> descriptor_log_ m = None -> is_u64 (manifest_file_number_ (the_set m)) ->
  spec_step (the_set m) edit = Some (edit', vs') ->
  exists m' st' vs1, LogAndApply env ucmp dbname m st edit t a_s a_r = Some (Status_OK, m', st') /\ the_set m' = vs' /\
    current_ vs1 = current_ (the_set m) /\ compact_pointer_ vs1 = Apply_pointers (compact_pointer_ (the_set m)) edit' /\
    logged m' st' t [(a_s, EncodeTo (snapshot_edit ucmp vs1) []); (a_r, EncodeTo edit' [])].
Proof.
  intros Hq El Hm Hspec. unfold LogAndApply, spec_step in *.
  destruct (complete_edit (the_set m) edit) as [e|]; [|done]. cbn [mbind option_bind] in *.
  destruct (build_version ucmp (the_set m) e) as [[vs v]|] eqn:Eb; [|done]. cbn [mbind option_bind] in *.
  injection Hspec as <- <-. rewrite El.
  assert (manifest_file_number_ vs = manifest_file_number_ (the_set m) /\ current_ vs = current_ (the_set m) /\
    compact_pointer_ vs = Apply_pointers (compact_pointer_ (the_set m)) e) as (Em & Ec & Ep).
  { unfold build_version in Eb. destruct (SaveTo ucmp _); [|done]. by injection Eb as <- _. }
  destruct (new_descriptor_ok vs st t a_s Hq) as (log & st1 & -> & Hq1 & Hd1 & Hn1 & _). cbn [mbind option_bind].
  destruct (log_edit_ok t _ log st1 e a_r Hq1 Hd1) as (log' & st' & -> & Hq' & Hd' & Hn' & Hfr).
  cbn [mbind option_bind]. change (ok Status_OK) with true. cbn [andb]. rewrite Em in *.
  destruct (SetCurrentFile_quiet env contents quiet st' dbname (manifest_file_number_ (the_set m)) Hq') as [Ho Hq2].
  pose proof (SetCurrentFile_spec env contents st' dbname (manifest_file_number_ (the_set m)) Hm) as Hspec.
  destruct (SetCurrentFile env st' dbname (manifest_file_number_ (the_set m))) as [s st2]. cbn [fst snd] in *.
  rewrite Ho in Hspec |- *. destruct Hspec as (Hcur & Hfr2 & _).
  apply ok_is_OK in Ho as ->. eexists _, _, vs. split; [done|]. split_and!; [done..|].
  unfold logged. cbn [the_set install manifest_file_number_ descriptor_log_]. rewrite Em. split_and!; [done|done|].
  exists log'. split_and!; [done| |congruence].
  destruct Hd' as (out & b & Hw & E1 & Hc). exists out, b. split_and!; [done|done|].
  rewrite Hfr2, Hc; [done|..]; rewrite Hn', Hn1; [apply DescriptorFileName_neq_Current|by apply DescriptorFileName_neq_Temp].
Qed.

(** ** Lemmas: recovering *)

Definition override {A} (has : bool) (n : A) (old : option A) : option A := if has then Some n else old.

(** One record, when it decodes. *)
Definition replay_edit (x : recovery) (e : VersionEdit) : recovery :=
  MkRecovery Status_OK
    (override (has_log_number_ e) (VersionEdit.log_number_ e) (r_log_number x))
    (override (has_prev_log_number_ e) (VersionEdit.prev_log_number_ e) (r_prev_log_number x))
    (override (has_next_file_number_ e) (VersionEdit.next_file_number_ e) (r_next_file x))
    (override (has_last_sequence_ e) (VersionEdit.last_sequence_ e) (r_last_sequence x))
    (Apply ucmp (r_builder x) e) (Apply_pointers (r_pointers x) e).

(** Edits that decode and name the right comparator, if any. *)
Definition recoverable (e : VersionEdit) : Prop :=
  edit_ok e /\ (has_comparator_ e = true -> comparator_ e = Name ucmp).

Lemma Recover_record_ok x e : recoverable e -> Recover_record ucmp x (EncodeTo e []) = Some (replay_edit x e).
Proof.
  intros [He Hc]. unfold Recover_record. rewrite DecodeFrom_EncodeTo by done. cbn [mbind option_bind].
  change (ok Status_OK) with true. cbn [andb].
  assert ((if has_comparator_ e && negb (bool_decide (comparator_ e = Name ucmp)) then mismatch ucmp (comparator_ e) else Status_OK)
    = Status_OK) as ->; [|done].
  destruct (has_comparator_ e); [|done]. rewrite Hc by done. by rewrite bool_decide_eq_true_2.
Qed.

Lemma Recover_loop_ok edits : forall r record scratch x fuel,
  reads r (map (fun e => EncodeTo e []) edits) -> r_status x = Status_OK -> Forall recoverable edits ->
  (length edits < fuel)%nat -> Recover_loop ucmp fuel r record scratch x = Some (fold_left replay_edit edits x).
Proof.
  induction edits as [|e edits IH]; intros r record scratch x fuel Hr Hx Hok Hf; (destruct fuel as [|fuel]; [cbn in Hf; lia|]);
    cbn [map reads] in Hr; destruct (Hr record scratch) as (sc & r' & H); cbn [Recover_loop fold_left].
  - destruct H as (rc & -> & Hrep). bind_simpl. rewrite Hrep, drop_ge by lia. done.
  - destruct H as (-> & Hrep & Hr'). bind_simpl. rewrite Hrep, drop_ge by lia. cbn [note_reports fold_left].
    rewrite Hx. change (ok Status_OK) with true. cbn [andb]. inversion Hok; subst. rewrite Recover_record_ok by done.
    bind_simpl. apply IH; [done|done|done|cbn in Hf; lia].
Qed.

Definition complete (e : VersionEdit) : Prop :=
  has_log_number_ e = true /\ has_prev_log_number_ e = true /\ has_next_file_number_ e = true /\ has_last_sequence_ e = true.

Lemma replay_lists edits x : r_builder (fold_left replay_edit edits x) = fold_left (Apply ucmp) edits (r_builder x) /\
  r_pointers (fold_left replay_edit edits x) = fold_left Apply_pointers edits (r_pointers x).
Proof. revert x. induction edits as [|e edits IH]; intros x; cbn [fold_left]; [done|]. apply IH. Qed.

Lemma replay_all edits e x : complete e ->
  fold_left replay_edit (edits ++ [e]) x =
  MkRecovery Status_OK (Some (VersionEdit.log_number_ e)) (Some (VersionEdit.prev_log_number_ e))
    (Some (VersionEdit.next_file_number_ e)) (Some (VersionEdit.last_sequence_ e))
    (fold_left (Apply ucmp) (edits ++ [e]) (r_builder x)) (fold_left Apply_pointers (edits ++ [e]) (r_pointers x)).
Proof.
  intros (H1 & H2 & H3 & H4). rewrite !fold_left_app. cbn [fold_left]. unfold replay_edit at 1. rewrite H1, H2, H3, H4.
  cbn [override].
  by destruct (replay_lists edits x) as [-> ->].
Qed.

(** The checksums of the manifest verify in a buffer at [store]. *)
Definition manifest_verifies (m : LogState) (st : St) (store : Z) : Prop :=
  forall data, contents st (DescriptorFileName dbname (manifest_file_number_ (the_set m))) = Some data -> log_verifies store data = true.

(** Recovery reads back what was logged. *)
Definition fresh_recovery (vs : VersionSet) : recovery :=
  MkRecovery Status_OK None None None None (Builder_new (current_ vs)) (compact_pointer_ vs).

Lemma Recover_replays m st t_addr (addrs : list Z) edits vs0 store lro eob :
  logged m st t_addr (zip addrs (map (fun e => EncodeTo e []) edits)) -> length addrs = length edits ->
  Forall recoverable edits -> is_u64 lro -> manifest_verifies m st store ->
  exists st', Recover env ucmp dbname vs0 st store lro eob =
    '(s, vs) ← Recover_finish ucmp vs0 (fold_left replay_edit edits (fresh_recovery vs0)); Some (s, vs, st').
Proof.
  intros (Hq & Hcur & log & El & (out & b & Hw & Elog & Hc) & Hn) Hlen Hok Hlro Hver. unfold Recover.
  destruct (ReadFileToString_quiet env contents quiet st _ _ Hq Hcur) as (st1 & -> & Hq1 & Hs1). bind_simpl.
  change (ok Status_OK) with true. cbn [negb].
  set (n := manifest_file_number_ (the_set m)) in *.
  assert (Slice.empty (current_entry n) || negb (bool_decide (last (current_entry n) = Some Byte.x0a)) = false) as ->.
  { unfold current_entry. rewrite (app_assoc (str "MANIFEST-")), last_snoc, bool_decide_eq_true_2 by done. done. }
  assert (dbname ++ str "/" ++ take (length (current_entry n) - 1) (current_entry n) = DescriptorFileName dbname n) as ->.
  { unfold current_entry. rewrite (app_assoc (str "MANIFEST-")), length_app. cbn [length].
    rewrite Nat.add_sub, take_app_length. done. }
  rewrite Hn in Hc. specialize (Hver out Hc). rewrite <- Hs1 in Hc. destruct (quiet_open st1 (DescriptorFileName dbname n) out Hq1 Hc) as [Ho _].
  destruct (NewSequentialFile env st1 (DescriptorFileName dbname n)) as [[s file] st2]. cbn [fst] in Ho.
  injection Ho as -> ->. change (ok Status_OK) with true. cbn [negb sf_data].
  pose proof (written_out_reads t_addr _ out b store lro eob true Hw Hver Hlro) as Hread.
  assert (map snd (zip addrs (map (fun e => EncodeTo e []) edits)) = map (fun e => EncodeTo e []) edits) as Es.
  { apply snd_zip. rewrite length_map. lia. }
  rewrite Es in Hread. pose proof (reads_unread _ _ Hread) as Hu. rewrite length_map in Hu. unfold unread in Hu. cbn in Hu.
  rewrite (Recover_loop_ok edits) by (done || lia). by exists st2.
Qed.

Lemma Recover_logged m st t_addr (addrs : list Z) edits e v vs0 store lro eob :
  logged m st t_addr (zip addrs (map (fun e => EncodeTo e []) (edits ++ [e]))) -> length addrs = length (edits ++ [e]) ->
  Forall recoverable (edits ++ [e]) -> complete e -> is_u64 lro -> manifest_verifies m st store ->
  SaveTo ucmp (fold_left (Apply ucmp) (edits ++ [e]) (Builder_new (current_ vs0))) = Some v ->
  exists st', Recover env ucmp dbname vs0 st store lro eob = Some (Status_OK,
    MkVersionSet (u64 (VersionEdit.next_file_number_ e + 1)) (VersionEdit.next_file_number_ e) (VersionEdit.last_sequence_ e)
      (VersionEdit.log_number_ e) (VersionEdit.prev_log_number_ e)
      (fold_left Apply_pointers (edits ++ [e]) (compact_pointer_ vs0)) (Finalize v), st').
Proof.
  intros Hlog Hlen Hok Hce Hlro Hver Hsave.
  destruct (Recover_replays m st t_addr addrs (edits ++ [e]) vs0 store lro eob Hlog Hlen Hok Hlro Hver) as (st' & ->).
  exists st'. rewrite replay_all by done.
  unfold Recover_finish. cbn [fresh_recovery r_status r_next_file r_log_number r_last_sequence r_prev_log_number r_builder r_pointers].
  change (ok Status_OK) with true. cbn [negb default from_option]. rewrite Hsave. bind_simpl.
  unfold MarkFileNumberUsed. by repeat case_match.
Qed.

(** ** Lemmas: a new database *)

Definition with_manifest (n : Z) : VersionSet := MkVersionSet 2 n 0 0 0 [] Version_new.

Lemma NewDB_logged st t_addr a_record : quiet st -> exists st' log, NewDB env ucmp dbname st t_addr a_record = Some (Status_OK, st') /\
  logged (MkLogState (with_manifest 1) (Some log)) st' t_addr [(a_record, EncodeTo (new_db_edit ucmp) [])].
Proof.
  intros Hq. unfold NewDB. set (name := DescriptorFileName dbname 1). destruct (quiet_new st name Hq) as [Ho Hq1].
  pose proof (new_ok st name Ho) as Hc. destruct (NewWritableFile env st name) as [s st1]. cbn [fst snd] in *. rewrite Ho. cbn [negb].
  assert (descriptor_holds t_addr [] (Writer_new t_addr name) st1) as Hd by (exists [], 0; by split_and!).
  destruct (log_AddRecord_ok _ _ _ _ a_record (EncodeTo (new_db_edit ucmp) []) Hq1 Hd)
    as (log & st2 & -> & Hq2 & (out & b & Hw & El & Hc2) & Hn & _). bind_simpl. change (ok Status_OK) with true. cbn iota.
  cbn [Writer_new dest_] in Hn. rewrite Hn in Hc2. destruct (quiet_close st2 name Hq2) as [Ho3 Hq3]; [by rewrite Hc2|].
  pose proof (close_same st2 name) as Hs3. destruct (file_Close env st2 name) as [s3 st3]. cbn [fst snd] in *. rewrite Ho3.
  assert (is_u64 1) as H1 by (unfold is_u64; lia).
  destruct (SetCurrentFile_quiet env contents quiet st3 dbname 1 Hq3) as [Ho4 Hq4].
  pose proof (SetCurrentFile_spec env contents st3 dbname 1 H1) as Hspec.
  destruct (SetCurrentFile env st3 dbname 1) as [s4 st4]. cbn [fst snd] in *. rewrite Ho4 in Hspec.
  destruct Hspec as (Hcur & Hfr & _). apply ok_is_OK in Ho4 as ->. exists st4, log. split; [done|].
  split; [done|]. split; [done|]. exists log. split_and!; [done| |done]. exists out, b. split_and!; [done|done|].
  rewrite Hn, Hfr, Hs3; [done|apply DescriptorFileName_neq_Current|by apply DescriptorFileName_neq_Temp].
Qed.

(** A new database recovers to an empty version and number 3 as the next file. *)
Lemma NewDB_Recover st t_addr a_record : quiet st -> short (Name ucmp) ->
  exists st', NewDB env ucmp dbname st t_addr a_record = Some (Status_OK, st') /\
  forall garbage store lro eob, is_u64 lro -> manifest_verifies (MkLogState (with_manifest 1) None) st' store -> exists vs' st'',
    Recover env ucmp dbname (VersionSet_new garbage) st' store lro eob = Some (Status_OK, vs', st'') /\
    next_file_number_ vs' = 3 /\ manifest_file_number_ vs' = 2 /\ last_sequence_ vs' = 0 /\ log_number_ vs' = 0 /\
    prev_log_number_ vs' = 0 /\ compact_pointer_ vs' = replicate num_levels [] /\ files_ (current_ vs') = replicate num_levels [].
Proof.
  intros Hq Hname. destruct (NewDB_logged st t_addr a_record Hq) as (st' & log & E & Hl). exists st'. split; [done|].
  intros garbage store lro eob Hlro Hver.
  assert (recoverable (new_db_edit ucmp)) as Hr.
  { split; [|done]. constructor; cbn; try done; [|constructor].
    unfold fields. cbn. repeat (apply Forall_cons; split; [first [exact Hname|by unfold field_ok, is_u64; lia]|]). constructor. }
  destruct (Recover_replays _ st' t_addr [a_record] [new_db_edit ucmp] (VersionSet_new garbage) store lro eob Hl)
    as (st'' & ->); [done|by constructor|done|exact Hver|].
  cbn [fold_left]. unfold Recover_finish. cbn. change (ok Status_OK) with true. cbn.
  eexists _, _. split; [reflexivity|]. by vm_compute.
Qed.

(** ** Lemmas: sequences of edits *)

(** A call of [LogAndApply]: the counters of the set at that time ([NewFileNumber]
    and [SetLastSequence] advance them), the edit and the buffers' addresses. *)
Record call := MkCall { c_next : Z; c_last : Z; c_edit : VersionEdit; c_t : Z; c_snap : Z; c_rec : Z }.

Definition at_call (vs : VersionSet) (c : call) : VersionSet :=
  MkVersionSet (c_next c) (manifest_file_number_ vs) (c_last c) (log_number_ vs) (prev_log_number_ vs)
    (compact_pointer_ vs) (current_ vs).

(** The calls one after the other, each of which must return OK. *)
Fixpoint run_calls (m : LogState) (st : St) (calls : list call) : option (LogState * St) :=
  match calls with
  | [] => Some (m, st)
  | c :: calls =>
      '(s, m, st) ← LogAndApply env ucmp dbname (MkLogState (at_call (the_set m) c) (descriptor_log_ m)) st (c_edit c)
                      (c_t c) (c_snap c) (c_rec c);
      if ok s then run_calls m st calls else None
  end.

(** The set in memory, and the edits as they are logged. *)
Fixpoint spec_calls (vs : VersionSet) (calls : list call) : option (VersionSet * list VersionEdit) :=
  match calls with
  | [] => Some (vs, [])
  | c :: calls =>
      '(edit, vs) ← spec_step (at_call vs c) (c_edit c);
      '(vs, edits) ← spec_calls vs calls;
      Some (vs, edit :: edits)
  end.

Definition call_ok (c : call) : Prop :=
  is_u64 (c_next c) /\ is_u64 (c_last c) /\ edit_ok (c_edit c) /\ has_comparator_ (c_edit c) = false.

Lemma run_more calls : forall m st t_addr recs vs edits,
  logged m st t_addr recs -> spec_calls (the_set m) calls = Some (vs, edits) ->
  exists m' st', run_calls m st calls = Some (m', st') /\ the_set m' = vs /\
    logged m' st' t_addr (recs ++ zip (map c_rec calls) (map (fun e => EncodeTo e []) edits)).
Proof.
  induction calls as [|c calls IH]; intros m st t_addr recs vs edits Hlog Hspec; cbn [spec_calls run_calls] in *.
  - injection Hspec as <- <-. exists m, st. by rewrite app_nil_r.
  - destruct (spec_step (at_call (the_set m) c) (c_edit c)) as [[e vs1]|] eqn:E; [|done]. cbn [mbind option_bind] in Hspec.
    destruct (spec_calls vs1 calls) as [[vs2 es]|] eqn:Es; [|done]. injection Hspec as <- <-.
    destruct (LogAndApply_more (MkLogState (at_call (the_set m) c) (descriptor_log_ m)) st t_addr recs (c_edit c) e vs1
      (c_t c) (c_snap c) (c_rec c)) as (m1 & st1 & -> & Em & Hl); [exact Hlog|exact E|]. bind_simpl.
    change (ok Status_OK) with true. cbn iota. rewrite <- Em in Es.
    destruct (IH m1 st1 t_addr _ vs2 es Hl Es) as (m' & st' & -> & Em' & Hl'). exists m', st'. split_and!; [done..|].
    cbn [map zip zip_with]. by rewrite <- app_assoc in Hl'.
Qed.

(** The facts on the edits of a run that recovery needs. *)
Lemma spec_step_facts vs c e vs' : is_u64 (log_number_ vs) -> is_u64 (prev_log_number_ vs) -> call_ok c ->
  spec_step (at_call vs c) (c_edit c) = Some (e, vs') ->
  recoverable e /\ complete e /\ VersionEdit.next_file_number_ e = next_file_number_ vs' /\
  VersionEdit.last_sequence_ e = last_sequence_ vs' /\ VersionEdit.log_number_ e = log_number_ vs' /\
  VersionEdit.prev_log_number_ e = prev_log_number_ vs' /\ compact_pointer_ vs' = Apply_pointers (compact_pointer_ vs) e /\
  new_files_ e = new_files_ (c_edit c) /\ is_u64 (log_number_ vs') /\ is_u64 (prev_log_number_ vs') /\
  manifest_file_number_ vs' = manifest_file_number_ vs /\
  exists v, SaveTo ucmp (Apply ucmp (Builder_new (current_ vs)) e) = Some v /\ current_ vs' = Finalize v.
Proof.
  intros Hlg Hpv (Hn & Hl & He & Hc) E. unfold spec_step in E.
  destruct (complete_edit (at_call vs c) (c_edit c)) as [e1|] eqn:Ec; [|done]. cbn [mbind option_bind] in E.
  assert (numbers_ok (at_call vs c)) as Hso' by done.
  destruct (complete_edit_ok _ _ _ Hso' He Ec) as (Heok & H1 & H2 & H3 & H4 & H5 & H6 & H7 & H8 & H9).
  unfold build_version in E. destruct (SaveTo ucmp _) as [v|] eqn:Es; [|done]. cbn [mbind option_bind] in E.
  injection E as <- <-. cbn [install next_file_number_ last_sequence_ log_number_ prev_log_number_ compact_pointer_ current_
    manifest_file_number_ at_call] in *.
  pose proof (ok_fields _ Heok) as Hf. unfold fields in Hf. rewrite H1, H2 in Hf. rewrite !Forall_app in Hf.
  destruct Hf as (_ & F2 & F3 & _). cbn [when] in F2, F3. rewrite Forall_singleton in F2, F3.
  split; [split; [done|congruence]|]. unfold complete.
  split_and!; [done..|exact F2|exact F3|done|by exists v].
Qed.

Lemma short_pointers e : edit_ok e -> Forall (fun c => short (rep_ c.2)) (compact_pointers_ e).
Proof.
  intros He. pose proof (ok_fields _ He) as Hf. unfold fields in Hf. rewrite !Forall_app in Hf.
  destruct Hf as (_ & _ & _ & _ & _ & F & _). rewrite Forall_map in F. eapply Forall_impl; [exact F|]. by intros [l k] [_ ?].
Qed.

Definition counters_of (vs : VersionSet) (e : VersionEdit) : Prop :=
  VersionEdit.next_file_number_ e = next_file_number_ vs /\ VersionEdit.last_sequence_ e = last_sequence_ vs /\
  VersionEdit.log_number_ e = log_number_ vs /\ VersionEdit.prev_log_number_ e = prev_log_number_ vs.

Lemma spec_calls_facts calls : forall vs vs' edits, is_u64 (log_number_ vs) -> is_u64 (prev_log_number_ vs) ->
  Forall call_ok calls -> spec_calls vs calls = Some (vs', edits) ->
  Forall (fun e => recoverable e /\ complete e) edits /\ apply_all ucmp (current_ vs) edits = Some (current_ vs') /\
  compact_pointer_ vs' = fold_left Apply_pointers edits (compact_pointer_ vs) /\
  map new_files_ edits = map (fun c => new_files_ (c_edit c)) calls /\
  manifest_file_number_ vs' = manifest_file_number_ vs /\
  (forall e, last edits = Some e -> counters_of vs' e).
Proof.
  induction calls as [|c calls IH]; intros vs vs' edits Hlg Hpv Hok Hspec; cbn [spec_calls] in Hspec.
  - injection Hspec as <- <-. by split_and!.
  - destruct (spec_step (at_call vs c) (c_edit c)) as [[e vs1]|] eqn:E; [|done]. cbn [mbind option_bind] in Hspec.
    destruct (spec_calls vs1 calls) as [[vs2 es]|] eqn:Es; [|done]. injection Hspec as <- <-.
    apply Forall_cons in Hok as [Hc Hok].
    destruct (spec_step_facts vs c e vs1 Hlg Hpv Hc E)
      as (Hr & Hcm & H1 & H2 & H3 & H4 & Hp & Hnew & Hlg1 & Hpv1 & Hm & v & Hs & Hcur).
    destruct (IH vs1 vs2 es Hlg1 Hpv1 Hok Es) as (F & Ha & Hps & Hns & Hm' & Hlast).
    split_and!; [by constructor| |by rewrite Hps, Hp|cbn [map]; by rewrite Hnew, Hns|congruence|].
    + cbn [apply_all]. rewrite Hs. cbn [mbind option_bind]. by rewrite <- Hcur.
    + intros e' He'. destruct es as [|e1 es]; [|by apply Hlast]. injection He' as <-.
      destruct calls as [|c1 calls]; [|by cbn in Hns].
      cbn [spec_calls] in Es. injection Es as <-. done.
Qed.

(** The recovered set [vs'] is the set [vs] that was logged, but for the number
    of its next manifest. *)
Definition recovered (vs vs' : VersionSet) : Prop :=
  (forall l, (l < num_levels)%nat -> map meta (level_files (current_ vs') l) = map meta (level_files (current_ vs) l)) /\
  compact_pointer_ vs' = compact_pointer_ vs /\ last_sequence_ vs' = last_sequence_ vs /\
  log_number_ vs' = log_number_ vs /\ prev_log_number_ vs' = prev_log_number_ vs /\
  manifest_file_number_ vs' = next_file_number_ vs /\ next_file_number_ vs' = u64 (next_file_number_ vs + 1).

(** No call adds a file under a number its level has seen. *)
Definition fresh_numbers (vs : VersionSet) (calls : list call) : Prop :=
  forall l, (l < num_levels)%nat -> NoDup (map number (sources l (current_ vs) (map c_edit calls))).

Lemma sources_new l v es es' : map new_files_ es = map new_files_ es' -> sources l v es = sources l v es'.
Proof.
  intros E. unfold sources. do 2 f_equal. revert es' E.
  induction es as [|e es IH]; intros [|e' es'] E; cbn in *; [done..|]. injection E as E1 E2. f_equal; [|auto].
  unfold new_at. by rewrite E1.
Qed.

Lemma run_calls_recover vs0 st0 c calls vs edits : quiet st0 -> set_ok ucmp vs0 -> short (Name ucmp) ->
  Forall call_ok (c :: calls) -> spec_calls vs0 (c :: calls) = Some (vs, edits) -> fresh_numbers vs0 (c :: calls) ->
  exists m st data, run_calls (MkLogState vs0 None) st0 (c :: calls) = Some (m, st) /\ the_set m = vs /\
    contents st (DescriptorFileName dbname (manifest_file_number_ vs)) = Some data /\
    (ChecksumLaws C -> forall store, log_verifies store data = true) /\
    forall garbage store lro eob, is_u64 lro -> log_verifies store data = true -> exists vs' st',
      Recover env ucmp dbname (VersionSet_new garbage) st store lro eob = Some (Status_OK, vs', st') /\ recovered vs vs'.
Proof.
  intros Hq Hso Hname Hok Hspec Hfresh.
  destruct (spec_calls_facts (c :: calls) vs0 vs edits) as (Hrec & Hall & Hptr & Hnew & Hman & Hlast);
    [by destruct Hso..|done|done|].
  cbn [spec_calls] in Hspec. destruct (spec_step (at_call vs0 c) (c_edit c)) as [[e vs1]|] eqn:E; [|done].
  cbn [mbind option_bind] in Hspec. destruct (spec_calls vs1 calls) as [[vs2 es]|] eqn:Es; [|done].
  injection Hspec as <- <-.
  destruct (LogAndApply_fresh (MkLogState (at_call vs0 c) None) st0 (c_edit c) e vs1 (c_t c) (c_snap c) (c_rec c))
    as (m1 & st1 & vsn & E1 & Em1 & Hcn & Hpn & Hl1); [done|done|by destruct Hso|done|].
  rewrite <- Em1 in Es.
  destruct (run_more calls m1 st1 (c_t c) _ vs2 es Hl1 Es) as (m & st & E2 & Em & Hlog).
  pose proof Hlog as (_ & _ & log & _ & (data & b & Hw & _ & Hdata) & Hn). rewrite Hn, Em in Hdata.
  exists m, st, data. split; [cbn [run_calls the_set descriptor_log_]; rewrite E1; cbn [mbind option_bind]; change (ok Status_OK) with true; exact E2|].
  split; [done|]. split; [done|]. split; [by intros L store; eapply written_verifies|]. intros garbage store lro eob Hlro Hver.
  assert (manifest_verifies m st store) as Hmv by (intros data' Hd; rewrite Em in Hd; congruence).
  set (snap := snapshot_edit ucmp vsn) in *. cbn [the_set at_call current_ compact_pointer_] in Hcn, Hpn.
  assert (edit_ok e) as He by (by apply Forall_cons in Hrec as [[[? _] _] _]).
  assert (recoverable snap) as Hsnap.
  { split; [|subst snap; by rewrite snapshot_edit_lists].
    apply snapshot_edit_ok; [done| |rewrite Hcn; by destruct Hso].
    rewrite Hpn. apply Apply_pointers_Forall; [by destruct Hso|by apply short_pointers]. }
  assert (records snap (current_ vs0)) as Hrecs by (rewrite <- Hcn; apply snapshot_records).
  destruct (replay ucmp (current_ vs0) snap (e :: es) (current_ vs2) Hrecs ltac:(done) Hall) as (v' & Hv' & Hv'files).
  { intros l Hl. split; [by destruct Hso; auto|].
    assert (map new_files_ (e :: es) = map new_files_ (map c_edit (c :: calls))) as Enew
      by (rewrite (map_map c_edit new_files_); exact Hnew).
    rewrite (sources_new l (current_ vs0) (e :: es) (map c_edit (c :: calls)) Enew). by apply Hfresh. }
  destruct (exists_last (l := e :: es) ltac:(done)) as (es0 & elast & Elast). rewrite Elast in *.
  specialize (Hlast elast (last_snoc _ _)). destruct Hlast as (L1 & L2 & L3 & L4).
  apply Forall_app in Hrec as Hrec2. destruct Hrec2 as [_ [[Hrl Hcl] _]%Forall_cons].
  assert (Forall recoverable (snap :: es0 ++ [elast])) as Hrall.
  { constructor; [done|]. eapply Forall_impl; [exact Hrec|]. by intros ? [? _]. }
  pose proof Hnew as Hlen. apply (f_equal length) in Hlen. rewrite !length_map in Hlen.
  destruct (Recover_logged m st (c_t c) (c_snap c :: c_rec c :: map c_rec calls) (snap :: es0) elast v' (VersionSet_new garbage)
    store lro eob) as (st' & Erec); [| |exact Hrall|done|done|exact Hmv|exact Hv'|].
  { cbn [app map zip zip_with] in Hlog |- *. rewrite <- Elast. exact Hlog. }
  { cbn [length app]. rewrite length_map. cbn [length] in Hlen. lia. }
  eexists _, _. split; [exact Erec|]. split_and!; cbn; [|..|congruence].
  - intros l Hl. rewrite Finalize_files. by apply Hv'files.
  - cbn [VersionSet_new compact_pointer_ fold_left]. rewrite Hptr. subst snap.
    rewrite snapshot_pointers_ok by (rewrite Hpn, Apply_pointers_length; by destruct Hso). rewrite Hpn, <- Elast.
    cbn [fold_left]. by rewrite Apply_pointers_idem.
  - done.
  - done.
  - done.
  - congruence.
Qed.

(** ** Lemmas: failures *)

Context (durable : St -> bytes -> option bytes) {EDur : EnvDurable env contents durable}.

Definition writable (log : Writer bytes) : Prop := 0 <= block_offset_ log <= kBlockSize.

(** Whatever fails, only the log's file is touched. *)
Lemma log_AddRecord_returns st log addr rec : writable log ->
  exists s log' st', log_AddRecord env st log addr rec = Some (s, log', st') /\ writable log' /\
    dest_ log' = dest_ log /\ touches_only contents (dest_ log) st st'.
Proof.
  intros Hw. unfold log_AddRecord, AddRecord.
  destruct (AddRecord_loop_returns (length rec + 2)
    (MkWriter (MkEnvFile (env := env) st (dest_ log)) (block_offset_ log) (type_crc_ log)) addr rec true Hw)
    as (s & w & E & Hw'); [case_match; lia|]. rewrite E. bind_simpl.
  assert (ef_name (dest_ w) = dest_ log /\ touches_only contents (dest_ log) st (ef_env (dest_ w))) as [Hn Hfr].
  { refine (AddRecord_keeps (fun f => ef_name f = dest_ log /\ touches_only contents (dest_ log) st (ef_env f)) _ _ _ _ _ _ _ _ _ _ E).
    - intros f x [Hn Hf]. cbn [Append EnvFile_ops]. pose proof (append_frame (ef_env f) (ef_name f) x) as H.
      destruct (file_Append env _ _ x) as [s1 st1]. cbn [fst snd ef_name ef_env] in *. split; [done|].
      intros g Hg. rewrite H by congruence. auto.
    - intros f [Hn Hf]. cbn [Flush EnvFile_ops]. pose proof (flush_same (ef_env f) (ef_name f)) as H.
      destruct (file_Flush env _ _) as [s1 st1]. cbn [fst snd ef_name ef_env] in *. split; [done|].
      intros g Hg. rewrite H. auto.
    - by split. }
  eexists _, _, _. split; [done|]. by split_and!.
Qed.

Lemma log_edit_returns s log st edit addr : (ok s = true -> log <> None) -> from_option writable True log ->
  exists s' log' st', log_edit env s log st edit addr = Some (s', log', st') /\ from_option writable True log' /\
    fmap dest_ log' = fmap dest_ log /\ (forall f, fmap dest_ log <> Some f -> contents st' f = contents st f) /\
    (ok s' = true -> ok s = true).
Proof.
  intros Hl Hw. unfold log_edit. destruct (ok s) eqn:Es; [|exists s, log, st; split_and!; [done..|congruence]].
  destruct log as [log|]; [|by destruct (Hl eq_refl)]. bind_simpl.
  destruct (log_AddRecord_returns st log addr (EncodeTo edit []) Hw) as (s1 & log1 & st1 & -> & Hw1 & Hn1 & Hf1). bind_simpl.
  pose proof (sync_same st1 (dest_ log1)) as Hs. destruct (file_Sync env st1 (dest_ log1)) as [s2 st2]. cbn [snd] in Hs.
  destruct (ok s1); eexists _, _, _; (split; [done|]); (split_and!; [done|cbn; congruence| |done]); intros f Hf;
    rewrite ?Hs; apply Hf1; intros ->; by apply Hf.
Qed.

Lemma new_descriptor_returns vs st t_addr addr :
  let name := DescriptorFileName dbname (manifest_file_number_ vs) in
  exists s log st', new_descriptor env ucmp dbname vs st t_addr addr = Some (s, log, st') /\ from_option writable True log /\
    (ok s = true -> log <> None) /\ touches_only contents name st st' /\ (forall f, fmap dest_ log = Some f -> f = name).
Proof.
  intros name. unfold new_descriptor. fold name. pose proof (new_frame st name) as Hf.
  destruct (NewWritableFile env st name) as [s st1]. cbn [snd] in Hf.
  destruct (ok s) eqn:Es; [|exists s, None, st1; split_and!; [done|done|congruence|done|done]].
  unfold WriteSnapshot. destruct (log_AddRecord_returns st1 (Writer_new t_addr name) addr (EncodeTo (snapshot_edit ucmp vs) []))
    as (s1 & log & st2 & -> & Hw & Hn & Hf2); [unfold writable, kBlockSize; cbn; lia|].
  bind_simpl. exists s1, (Some log), st2. split_and!; [done|done|done| |].
  - intros f Hne. rewrite Hf2 by done. auto.
  - cbn. intros f [= <-]. done.
Qed.

(** What [OK] means for the manifest: operations that report success did what
    they report. *)
Definition in_file (name : bytes) (f : EnvFile env) (d : bytes) : Prop := ef_name f = name /\ contents (ef_env f) name = Some d.

#[local] Instance in_file_honest name : FileHonest (in_file name).
Proof.
  split.
  - intros f d x [<- Hd]. cbn [Append EnvFile_ops]. pose proof (append_ok (ef_env f) (ef_name f) x d Hd) as H.
    destruct (file_Append env (ef_env f) (ef_name f) x) as [s st]. cbn [fst snd] in *. intros Ho. split; [done|]. by apply H.
  - intros f d [<- Hd] _. cbn [Flush EnvFile_ops]. pose proof (flush_same (ef_env f) (ef_name f) (ef_name f)) as H.
    destruct (file_Flush env (ef_env f) (ef_name f)) as [s st]. cbn [snd] in *. split; [done|]. cbn [ef_env ef_name]. by rewrite H.
Qed.

Lemma log_AddRecord_records t_addr recs log st addr rec log' st' : descriptor_holds t_addr recs log st -> writable log ->
  pad_bytes (block_offset_ log) = [] -> log_AddRecord env st log addr rec = Some (Status_OK, log', st') ->
  descriptor_holds t_addr (recs ++ [(addr, rec)]) log' st'.
Proof.
  intros (out & b & Hw & El & Hc) Hb Hp E. unfold log_AddRecord in E. unfold writable in Hb. rewrite El in Hb, Hp, E. cbn [dest_ block_offset_ type_crc_] in Hb, Hp, E.
  destruct (AddRecord _ addr rec) as [[s w]|] eqn:Ea; [|done]. cbn [mbind option_bind] in E. injection E as -> <- <-.
  change (type_crc_ (Writer_new t_addr (dest_ log))) with (type_crc_ (Writer_new t_addr (MkEnvFile (env := env) st (dest_ log)))) in Ea.
  assert (in_file (dest_ log) (MkEnvFile st (dest_ log)) out) as Hin by done.
  destruct (AddRecord_written_honest (in_file (dest_ log)) t_addr recs out b addr rec _ w Hw Hin Hb Hp Ea) as (out' & b' & Hw' & [Hn Hd] & Hb' & Htc).
  exists out', b'. cbn [dest_]. split; [done|]. split; [by rewrite Hb', Htc|]. by rewrite Hn.
Qed.

Lemma log_edit_records log st edit addr s' log' st' : log_edit env Status_OK (Some log) st edit addr = Some (s', log', st') -> ok s' = true -> writable log ->
  exists log1, log' = Some log1 /\ dest_ log1 = dest_ log /\ durable st' (dest_ log1) = contents st' (dest_ log1) /\
    forall t_addr recs, descriptor_holds t_addr recs log st -> pad_bytes (block_offset_ log) = [] ->
      descriptor_holds t_addr (recs ++ [(addr, EncodeTo edit [])]) log1 st'.
Proof.
  intros E Hok Hw. unfold log_edit in E. change (ok Status_OK) with true in E. cbn [mbind option_bind] in E.
  destruct (log_AddRecord_returns st log addr (EncodeTo edit []) Hw) as (s1 & log1 & st1 & E1 & _ & Hn & _). rewrite E1 in E. cbn [mbind option_bind] in E.
  pose proof (sync_durable (EnvDurable := EDur) st1 (dest_ log1)) as Hd. pose proof (sync_same st1 (dest_ log1)) as Hs.
  destruct (ok s1) eqn:Es1.
  - destruct (file_Sync env st1 (dest_ log1)) as [s2 st2]. cbn [fst snd] in *. injection E as -> <- <-. exists log1. split; [done|]. split; [done|].
    split; [by rewrite Hs, Hd|]. intros t_addr recs Hh Hp. apply ok_is_OK in Es1 as ->.
    destruct (log_AddRecord_records _ _ _ _ _ _ _ _ Hh Hw Hp E1) as (out & b & Hwr & El & Hc). exists out, b. by rewrite Hs.
  - injection E as -> <- <-. congruence.
Qed.

Lemma new_descriptor_records vs st t_addr addr s log st' : new_descriptor env ucmp dbname vs st t_addr addr = Some (s, Some log, st') -> ok s = true ->
  descriptor_holds t_addr [(addr, EncodeTo (snapshot_edit ucmp vs) [])] log st'.
Proof.
  unfold new_descriptor. set (name := DescriptorFileName dbname (manifest_file_number_ vs)). pose proof (new_ok st name) as Hn.
  destruct (NewWritableFile env st name) as [s0 st0]. cbn [fst snd] in Hn. destruct (ok s0) eqn:E0; [|by intros [= <- _ _]]. specialize (Hn eq_refl).
  unfold WriteSnapshot. destruct (log_AddRecord env st0 _ addr _) as [[[s1 log1] st1]|] eqn:E; [|done]. bind_simpl. intros [= -> -> ->] Hok. apply ok_is_OK in Hok as ->.
  apply (log_AddRecord_records t_addr [] (Writer_new t_addr name) st0); [|unfold writable, kBlockSize; cbn; lia|done|done]. exists [], 0. by split_and!.
Qed.

(** The set when its snapshot is written: the edit's pointers are already in it. *)
Definition with_pointers (vs : VersionSet) (edit : VersionEdit) : VersionSet :=
  MkVersionSet (next_file_number_ vs) (manifest_file_number_ vs) (last_sequence_ vs) (log_number_ vs) (prev_log_number_ vs)
    (Apply_pointers (compact_pointer_ vs) edit) (current_ vs).

(** The manifest holds [recs] when the edit is to be logged: what it held before
    the call or, if it is new, a snapshot of the set. *)
Definition held_before (m : LogState) (st : St) (edit : VersionEdit) (t a_s : Z) (t_addr : Z) (recs : list (Z * bytes)) : Prop :=
  match descriptor_log_ m with
  | Some log => descriptor_holds t_addr recs log st
  | None => t_addr = t /\ recs = [(a_s, EncodeTo (snapshot_edit ucmp (with_pointers (the_set m) edit)) [])]
  end.

(** After the call it is durable, and holds the edit's record too, unless the
    block had to be filled up with a trailer first. *)
Definition edit_logged (m m' : LogState) (st st' : St) (edit : VersionEdit) (t a_s a_r : Z) : Prop :=
  let name := DescriptorFileName dbname (manifest_file_number_ (the_set m)) in
  exists log', descriptor_log_ m' = Some log' /\ dest_ log' = name /\ durable st' name = contents st' name /\
    forall t_addr recs, held_before m st edit t a_s t_addr recs ->
    exists out b, written t_addr recs out b /\ (pad_bytes b = [] -> descriptor_holds t_addr (recs ++ [(a_r, EncodeTo edit [])]) log' st').

Lemma descriptor_holds_offset t_addr recs log st : descriptor_holds t_addr recs log st -> exists out, written t_addr recs out (block_offset_ log).
Proof. intros (out & b & Hw & -> & _). by exists out. Qed.

(** A call of [LogAndApply] whose assertions hold installs the edit, in memory
    and on disk, or leaves the version and CURRENT alone. *)
Lemma LogAndApply_returns m st edit edit' vs' t a_s a_r :
  let n := manifest_file_number_ (the_set m) in let name := DescriptorFileName dbname n in
  is_u64 n -> (forall log, descriptor_log_ m = Some log -> writable log /\ dest_ log = name) ->
  spec_step (the_set m) edit = Some (edit', vs') ->
  exists s m' st', LogAndApply env ucmp dbname m st edit t a_s a_r = Some (s, m', st') /\
    (if ok s then the_set m' = vs' /\ contents st' (CurrentFileName dbname) =
       (match descriptor_log_ m with Some _ => contents st (CurrentFileName dbname) | None => Some (current_entry n) end) /\
       edit_logged m m' st st' edit' t a_s a_r
     else current_ (the_set m') = current_ (the_set m) /\ log_number_ (the_set m') = log_number_ (the_set m) /\
       prev_log_number_ (the_set m') = prev_log_number_ (the_set m) /\
       contents st' (CurrentFileName dbname) = contents st (CurrentFileName dbname) /\
       (descriptor_log_ m = None -> descriptor_log_ m' = None)) /\
    forall f, f <> name -> f <> CurrentFileName dbname -> f <> TempFileName dbname n -> contents st' f = contents st f.
Proof.
  intros n name Hm Hlog Hspec. unfold LogAndApply, spec_step in *.
  destruct (complete_edit (the_set m) edit) as [e|]; [|done]. cbn [mbind option_bind] in *.
  destruct (build_version ucmp (the_set m) e) as [[vs v]|] eqn:Eb; [|done]. cbn [mbind option_bind] in *. injection Hspec as <- <-.
  assert (vs = with_pointers (the_set m) e) as Ev by (unfold build_version in Eb; destruct (SaveTo ucmp _); [|done]; by injection Eb as <- _).
  assert (manifest_file_number_ vs = n) as En by (by rewrite Ev). rewrite En.
  pose proof (DescriptorFileName_neq_Current dbname n) as Hnc. pose proof (DescriptorFileName_neq_Temp dbname n Hm) as Hnt. fold name in Hnc, Hnt.
  destruct (descriptor_log_ m) as [log|] eqn:El.
  - destruct (Hlog log eq_refl) as [Hw Hn]. cbn [mbind option_bind].
    destruct (log_edit_returns Status_OK (Some log) st e a_r ltac:(done) Hw) as (s & log' & st' & E & _ & _ & Hf & _).
    rewrite E. cbn [mbind option_bind andb]. rewrite andb_false_r.
    assert (forall f, f <> name -> contents st' f = contents st f) as Hf' by (intros f Hne; apply Hf; cbn; congruence).
    destruct (ok s) eqn:Es; eexists _, _, _; (split; [done|]); rewrite Es; cbn [the_set]; (split; [|by auto]).
    + split; [done|]. split; [by apply Hf'|]. destruct (log_edit_records _ _ _ _ _ _ _ E Es Hw) as (log1 & -> & Hn1 & Hd & Hr).
      exists log1. cbn [descriptor_log_]. rewrite Hn1, Hn in Hd. split_and!; [done|by rewrite Hn1|done|]. unfold held_before. rewrite El. intros t_addr recs Hh.
      destruct (descriptor_holds_offset _ _ _ _ Hh) as [out Hwr]. exists out, (block_offset_ log). auto.
    + rewrite Ev. split_and!; [done..|by apply Hf'|done].
  - destruct (new_descriptor_returns vs st t a_s) as (s & log & st1 & E1 & Hw & Hl & Hf1 & Hn). rewrite En in *. fold name in Hf1, Hn.
    rewrite E1. cbn [mbind option_bind]. destruct (log_edit_returns s log st1 e a_r Hl Hw) as (s2 & log2 & st2 & E2 & _ & _ & Hf2 & Hs2).
    rewrite E2. cbn [mbind option_bind]. rewrite andb_true_r.
    assert (forall f, f <> name -> contents st2 f = contents st f) as Hf.
    { intros f Hne. rewrite Hf2; [by apply Hf1|]. intros H. by apply Hn in H. }
    pose proof (SetCurrentFile_spec env contents st2 dbname n Hm) as Hcur. pose proof (SetCurrentFile_durable env contents durable st2 dbname n name Hnc Hnt) as Hdur.
    destruct (SetCurrentFile env st2 dbname n) as [s3 st3]. cbn [snd] in Hdur.
    destruct (ok s2) eqn:Es2; cbv iota beta; [destruct (ok s3) eqn:Es3|rewrite Es2]; cbv iota beta.
    + destruct Hcur as (H1 & H2 & _). eexists _, _, _. split; [done|]. rewrite Es3. cbn [the_set]. split; [|intros f H3 H4 H5; rewrite H2 by done; auto].
      split; [done|]. split; [done|]. specialize (Hs2 eq_refl). destruct log as [log|]; [|by destruct (Hl Hs2)]. pose proof (Hn _ eq_refl) as Hn1.
      apply ok_is_OK in Hs2 as ->. pose proof (new_descriptor_records _ _ _ _ _ _ _ E1 eq_refl) as Hh. cbn [from_option] in Hw.
      destruct (log_edit_records _ _ _ _ _ _ _ E2 Es2 Hw) as (log1 & -> & Hn2 & Hd & Hr). rewrite Hn2, Hn1 in Hd.
      exists log1. cbn [descriptor_log_]. split_and!; [done|by rewrite Hn2|change (durable st3 name = contents st3 name); by rewrite Hdur, H2|]. unfold held_before. rewrite El. rewrite Ev in Hh. intros t_addr recs [-> ->].
      destruct (descriptor_holds_offset _ _ _ _ Hh) as [out Hwr]. exists out, (block_offset_ log). split; [done|]. intros Hp.
      destruct (Hr _ _ Hh Hp) as (out' & b' & ? & ? & Hc). exists out', b'. split_and!; [done..|]. rewrite Hn2, Hn1 in *. by rewrite H2.
    + destruct Hcur as (H1 & H2 & _). eexists _, _, _. split; [done|]. rewrite Es3. cbn [the_set]. pose proof (delete_frame st3 name) as Hd.
      split; [rewrite Ev; split_and!; [done..|rewrite Hd, H1 by done; by apply Hf|done]|]. intros f H3 H4 H5. rewrite Hd, H2 by done. auto.
    + eexists _, _, _. split; [done|]. rewrite Es2. cbn [the_set]. pose proof (delete_frame st2 name) as Hd.
      split; [rewrite Ev; split_and!; [done..|rewrite Hd by done; by apply Hf|done]|]. intros f H3 H4 H5. rewrite Hd by done. auto.
Qed.
End Durable.

(** ** Lemmas: recovery from any bytes *)

Section Recovery.
Context {St : Type} (env : EnvOps St) `{C : Checksum} (ucmp : Comparator) (dbname : bytes).






Lemma MarkFileNumberUsed_current vs n : current_ (MarkFileNumberUsed vs n) = current_ vs.
Proof. unfold MarkFileNumberUsed. by case_match. Qed.

End Recovery.

(** ** Properties *)

(** C20: The manifest records the version set.  As long as no file operation fails,
    calls of [LogAndApply] from any well-formed set, with whatever edits and
    counters, return OK while no assertion fails, leave in memory the set the edits
    describe, and write a manifest (a snapshot, then one record a call) that
    CURRENT names.  If the checksums of that manifest are those the reader computes
    in its buffer at [store], a new version set that recovers from the files has
    the same files on every level, in the same order, the same compaction pointers,
    sequence and log numbers, and goes on numbering files after the recorded
    counter.  A checksum that depends on the bytes only always verifies; the code's
    own ([Crc32cChecksum]) depends on the addresses of the writer's and the
    reader's buffers, and verifies for some of them only. *)
Theorem manifest_recovery {St : Type} (env : EnvOps St) (contents : St -> bytes -> option bytes) (quiet : St -> Prop)
    `{!EnvLaws env contents} `{!EnvQuiet env contents quiet} `{C : Checksum}
    (ucmp : Comparator) `{!ComparatorLaws ucmp any_key} (dbname : bytes)
    (vs0 vs : VersionSet) (st0 : St) (calls : list call) (edits : list VersionEdit) :
  quiet st0 -> set_ok ucmp vs0 -> short (Name ucmp) -> calls <> [] -> Forall call_ok calls ->
  spec_calls ucmp vs0 calls = Some (vs, edits) -> fresh_numbers vs0 calls ->
  exists m st data, run_calls env ucmp dbname (MkLogState vs0 None) st0 calls = Some (m, st) /\ the_set m = vs /\
    contents st (DescriptorFileName dbname (manifest_file_number_ vs)) = Some data /\
    (ChecksumLaws C -> forall store, log_verifies store data = true) /\
    forall garbage store lro eob, is_u64 lro -> log_verifies store data = true -> exists vs' st',
      Recover env ucmp dbname (VersionSet_new garbage) st store lro eob = Some (Status_OK, vs', st') /\ recovered vs vs'.
Proof.
  intros Hq Hso Hn Hne Hok Hspec Hf. destruct calls as [|c calls]; [done|].
  by eapply (run_calls_recover env contents quiet ucmp dbname vs0 st0 c calls vs edits).
Qed.

(** A set with one file, a flush that adds another and a compaction of both.  The
    addresses are such that the code's own checksum verifies in a buffer at 1. *)
Definition small_set : VersionSet :=
  MkVersionSet 6 4 10 3 0 (replicate num_levels [])
    (MkVersion ([sample_file 5 "a" "c"] :: replicate 6 []) None (-1) (double_of_int (-1)) (-1)).

Definition flush_call : call :=
  MkCall 8 20 (AddFile (SetLogNumber VersionEdit_new 7) 0 6 100 (key_at "b" 19) (key_at "d" 12)) 0 0 3.

Definition compact_call : call :=
  MkCall 9 30 (AddFile (DeleteFile (DeleteFile (SetCompactPointer VersionEdit_new 0 (key_at "d" 12)) 0 5) 0 6)
                 1 8 190 (key_at "a" 9) (key_at "d" 12)) 0 0 2.

Lemma small_set_ok : set_ok BytewiseComparator small_set.
Proof.
  constructor; try (unfold is_u64; cbn; lia); [done| | |].
  - apply (bool_decide_unpack (Forall (fun x => short x) _)). by vm_compute.
  - intros l Hl. destruct l as [|l].
    + apply Forall_singleton. split_and!; vm_compute; split; congruence.
    + do 6 (destruct l as [|l]; [constructor|]). unfold num_levels, config.kNumLevels in Hl. lia.
  - intros l Hl. destruct l as [|l]; [by repeat constructor|].
    do 6 (destruct l as [|l]; [constructor|]). unfold num_levels, config.kNumLevels in Hl. lia.
Qed.

Lemma call_edits_ok : Forall call_ok [flush_call; compact_call].
Proof.
  repeat (apply Forall_cons; split); [..|constructor]; (split_and!; [unfold is_u64; cbn; lia..| |done]);
    (constructor; cbn; try done; [repeat constructor; vm_compute; congruence|repeat constructor]).
Qed.

Lemma manifest_recovery_witness :
  exists m st, run_calls (C := Crc32cChecksum) MemEnv.ops BytewiseComparator (str "d") (MkLogState small_set None)
      (MemEnv.MkSt ∅ []) [flush_call; compact_call] = Some (m, st) /\
    exists vs' st', Recover (C := Crc32cChecksum) MemEnv.ops BytewiseComparator (str "d") (VersionSet_new 77) st 1 0 0 =
      Some (Status_OK, vs', st') /\ recovered (the_set m) vs'.
Proof.
  destruct (spec_calls BytewiseComparator small_set [flush_call; compact_call]) as [[vs edits]|] eqn:E;
    [|apply (f_equal (fun o => match o with Some _ => true | None => false end)) in E; vm_compute in E; discriminate].
  assert (match run_calls (C := Crc32cChecksum) MemEnv.ops BytewiseComparator (str "d") (MkLogState small_set None) (MemEnv.MkSt ∅ []) [flush_call; compact_call] with
    | Some (m, st) => match MemEnv.contents st (DescriptorFileName (str "d") (manifest_file_number_ (the_set m))) with
        | Some data => log_verifies (C := Crc32cChecksum) 1 data | None => false end
    | None => false end = true) as Hb by (vm_compute; reflexivity).
  destruct (manifest_recovery (C := Crc32cChecksum) MemEnv.ops MemEnv.contents MemEnv.quiet BytewiseComparator (str "d")
    small_set vs (MemEnv.MkSt ∅ []) [flush_call; compact_call] edits) as (m & st & data & E1 & E2 & Ed & _ & H).
  - constructor.
  - exact small_set_ok.
  - vm_compute. split; congruence.
  - done.
  - exact call_edits_ok.
  - exact E.
  - unfold fresh_numbers. apply seq_all. apply (bool_decide_unpack _). vm_compute. exact I.
  - rewrite E1, E2, Ed in Hb. exists m, st. split; [exact E1|]. subst vs. apply (H 77 1 0 0); [unfold is_u64; lia|exact Hb].
Defined.

(** C21: [LogAndApply] is atomic under failures.  Whatever file operations fail, a
    call whose assertions hold returns.  If it reports OK, the set in memory is the
    edited one, CURRENT names its manifest (and is untouched if the manifest is not
    new), and the manifest is durable (synced)
    and holds what it held before the call (if it is new, a snapshot of the set)
    and after it the record of the edit; the manifest's contents are not claimed
    when the record was due after a block trailer, because [AddRecord] ignores the
    status of the trailer's [Append].  If it reports an error, version and log
    numbers are as before, CURRENT is as before, and a manifest that could not be
    installed is given up.  No file but the manifest, CURRENT and the temporary is
    touched. *)
Theorem LogAndApply_atomic {St : Type} (env : EnvOps St) (contents durable : St -> bytes -> option bytes)
    (EL : EnvLaws env contents) (ED : EnvDurable env contents durable) (C : Checksum) (ucmp : Comparator) (dbname : bytes)
    (m : LogState) (st : St) (edit edit' : VersionEdit) (vs' : VersionSet) (t a_s a_r : Z) :
  let number := manifest_file_number_ (the_set m) in
  0 < number < 2 ^ 64 ->
  (forall log, descriptor_log_ m = Some log -> writable log /\ dest_ log = DescriptorFileName dbname number) ->
  spec_step ucmp (the_set m) edit = Some (edit', vs') ->
  exists s m' st', LogAndApply env ucmp dbname m st edit t a_s a_r = Some (s, m', st') /\
    (if ok s then the_set m' = vs' /\ contents st' (CurrentFileName dbname) =
       (match descriptor_log_ m with Some _ => contents st (CurrentFileName dbname) | None => Some (current_entry number) end) /\
       edit_logged contents ucmp dbname durable m m' st st' edit' t a_s a_r
     else current_ (the_set m') = current_ (the_set m) /\ log_number_ (the_set m') = log_number_ (the_set m) /\
       prev_log_number_ (the_set m') = prev_log_number_ (the_set m) /\
       contents st' (CurrentFileName dbname) = contents st (CurrentFileName dbname) /\
       (descriptor_log_ m = None -> descriptor_log_ m' = None)) /\
    forall f, f <> DescriptorFileName dbname number -> f <> CurrentFileName dbname ->
      f <> TempFileName dbname number -> contents st' f = contents st f.
Proof. intros number Hn. apply (LogAndApply_returns env contents ucmp dbname durable). unfold is_u64. lia. Qed.

Lemma LogAndApply_atomic_witness :
  let name := DescriptorFileName (str "d") 4 in
  exists s m' st' log out, LogAndApply (C := Crc32cChecksum) SyncedEnv.ops BytewiseComparator (str "d") (MkLogState small_set None)
      (SyncedEnv.MkSt (MemEnv.MkSt {[CurrentFileName (str "d") := str "old"]} []) ∅) (c_edit compact_call) 0 0 0 = Some (s, m', st') /\ ok s = true /\
    descriptor_log_ m' = Some log /\ SyncedEnv.durable st' name = Some out /\
    exists edit' snap, descriptor_holds SyncedEnv.contents (C := Crc32cChecksum) 0 ([(0, snap)] ++ [(0, EncodeTo edit' [])]) log st'.
Proof.
  intros name. set (st := SyncedEnv.MkSt _ _).
  destruct (spec_step BytewiseComparator small_set (c_edit compact_call)) as [[e vs']|] eqn:E;
    [|apply (f_equal (fun o => match o with Some _ => true | None => false end)) in E; vm_compute in E; discriminate].
  set (snap := EncodeTo (snapshot_edit BytewiseComparator (with_pointers small_set e)) []).
  assert (match spec_step BytewiseComparator small_set (c_edit compact_call) with Some (e, _) =>
      match write_log (C := Crc32cChecksum) (Writer_new (C := Crc32cChecksum) 0 (MkWritableFile [] [])) [(0, EncodeTo (snapshot_edit BytewiseComparator (with_pointers small_set e)) [])] with
      | Some (_, w) => match pad_bytes (block_offset_ w) with [] => true | _ => false end | None => false end
    | None => false end = true) as Hp by (vm_compute; reflexivity). rewrite E in Hp. fold snap in Hp.
  assert (match LogAndApply (C := Crc32cChecksum) SyncedEnv.ops BytewiseComparator (str "d") (MkLogState small_set None) st (c_edit compact_call) 0 0 0 with
    | Some (s, _, _) => ok s | None => false end = true) as Hs by (vm_compute; reflexivity).
  destruct (LogAndApply_atomic SyncedEnv.ops SyncedEnv.contents SyncedEnv.durable _ _ Crc32cChecksum BytewiseComparator (str "d")
    (MkLogState small_set None) st (c_edit compact_call) e vs' 0 0 0) as (s & m' & st' & E' & H & _).
  - cbn. lia.
  - intros log Hlog. discriminate Hlog.
  - exact E.
  - rewrite E' in Hs. rewrite Hs in H. destruct H as (_ & _ & log & El & Hn & Hd & Hr).
    destruct (Hr 0 [(0, snap)]) as (out & b & Hw & Hh); [split; reflexivity|]. unfold written in Hw. rewrite Hw in Hp. cbn [block_offset_] in Hp.
    destruct (pad_bytes b); [|discriminate Hp]. specialize (Hh eq_refl). pose proof Hh as (out' & b' & _ & _ & Hc). rewrite Hn in Hc.
    exists s, m', st', log, out'. split; [exact E'|]. split; [exact Hs|]. split; [exact El|]. split; [exact (eq_trans Hd Hc)|]. exists e, snap. exact Hh.
Defined.

