(* ===== verification/DList.v ===== *)
(** Circular doubly linked lists, shared by the snapshot list (db/snapshot.h) and
    the LRU list (util/cache.cpp).

    A list is seen through two partial functions, [nxt] and [prv], from a node to
    its neighbours; [ring nxt prv hd l] says that from the dummy node [hd] they
    run through [l] and back. *)

From Stdlib Require Import ZArith Lia List Bool.
From S2P Require Import Prelude Lists.

Section Chain.
Context (nxt prv : nat -> option nat).

Definition link (a b : nat) : Prop := nxt a = Some b /\ prv b = Some a.

(** Each element is linked to the one after it. *)
Fixpoint chain (l : list nat) : Prop :=
  match l with
  | a :: ((b :: _) as l') => link a b /\ chain l'
  | _ => True
  end.

Definition ring (hd : nat) (l : list nat) : Prop := chain (hd :: l ++ [hd]) /\ NoDup (hd :: l).

Lemma chain_app l1 a l2 : chain (l1 ++ a :: l2) <-> chain (l1 ++ [a]) /\ chain (a :: l2).
Proof.
  induction l1 as [|b l1 IH]; [cbn; tauto|]. destruct l1 as [|c l1]; [cbn; tauto|].
  cbn [app chain] in *. rewrite IH. tauto.
Qed.

Lemma chain_snoc2 l a b : chain (l ++ [a; b]) <-> chain (l ++ [a]) /\ link a b.
Proof. rewrite (chain_app l a [b]). cbn. tauto. Qed.

(** A ring at a place: what comes before [e] and after it. *)
Lemma ring_around hd l1 e l2 : ring hd (l1 ++ e :: l2) ->
  exists pre p n post, hd :: l1 = pre ++ [p] /\ l2 ++ [hd] = n :: post /\
    chain (pre ++ [p]) /\ link p e /\ link e n /\ chain (n :: post) /\ p <> e /\ n <> e.
Proof.
  intros [Hc Hnd]. destruct (exists_last (l := hd :: l1)) as (pre & p & E); [done|].
  destruct (l2 ++ [hd]) as [|n post] eqn:E2; [by destruct l2|].
  exists pre, p, n, post. rewrite <- app_assoc in Hc. cbn [app] in Hc. rewrite app_comm_cons, E, E2, <- app_assoc in Hc.
  apply chain_app in Hc as [HcA [Hpe [Hen HcB]]]. rewrite app_comm_cons, E in Hnd.
  apply NoDup_app in Hnd as (_ & Hd & [He _]%NoDup_cons).
  assert (p <> e) as Hpe' by (intros ->; apply (Hd e); [set_solver|left]).
  split_and!; try done. intros ->. assert (e ∈ l2 ++ [hd]) as Hin by (rewrite E2; left).
  apply elem_of_app in Hin as [Hin|Hin%list_elem_of_singleton]; [done|]. subst e.
  apply (Hd hd); [rewrite <- E; left|left].
Qed.

Lemma ring_first hd l : ring hd l -> nxt hd = Some (default hd (head l)).
Proof. intros [Hc _]. by destruct l; destruct Hc as [[? _] _]. Qed.

Lemma ring_last hd l : ring hd l -> exists pre p, hd :: l = pre ++ [p] /\ chain (pre ++ [p]) /\ link p hd.
Proof.
  intros [Hc _]. destruct (exists_last (l := hd :: l)) as (pre & p & E); [done|]. exists pre, p.
  rewrite app_comm_cons, E, <- app_assoc in Hc. cbn [app] in Hc. by apply chain_snoc2 in Hc.
Qed.

End Chain.

Section Change.
Context (nxt prv nxt' prv' : nat -> option nat).

(** Links look at the [nxt] of all elements but the last and the [prv] of all but
    the first. *)
Lemma chain_ext a l :
  chain nxt prv (a :: l) -> (forall b, b ∈ removelast (a :: l) -> nxt' b = nxt b) ->
  (forall b, b ∈ l -> prv' b = prv b) -> chain nxt' prv' (a :: l).
Proof.
  revert a. induction l as [|b l IH]; intros a Hc Hn Hp; [done|]. destruct Hc as [[H1 H2] Hc]. split.
  - split; [rewrite Hn by left; done|rewrite Hp by left; done].
  - apply IH; [done| |]; intros x Hx; [apply Hn; by right|apply Hp; by right].
Qed.

(** A chain without repetitions survives changes of [nxt] at its last element and
    of [prv] at its first. *)
Lemma chain_keep a l pre p :
  a :: l = pre ++ [p] -> NoDup (a :: l) -> chain nxt prv (a :: l) ->
  (forall b, b ∈ a :: l -> b <> p -> nxt' b = nxt b) ->
  (forall b, b ∈ a :: l -> b <> a -> prv' b = prv b) -> chain nxt' prv' (a :: l).
Proof.
  intros E Hnd Hc Hn Hp. apply chain_ext; [done| |].
  - rewrite E, removelast_last. intros b Hb. rewrite E in Hnd. apply NoDup_app in Hnd as (_ & Hd & _).
    apply Hn; [rewrite E; set_solver|]. intros ->. apply (Hd p Hb). left.
  - intros b Hb. apply NoDup_cons in Hnd as [Ha _]. apply Hp; [by right|]. by intros ->.
Qed.

Lemma ring_frame hd l : ring nxt prv hd l ->
  (forall x, x ∈ hd :: l -> nxt' x = nxt x) -> (forall x, x ∈ hd :: l -> prv' x = prv x) -> ring nxt' prv' hd l.
Proof.
  intros [Hc Hnd] Hn Hp. split; [|done]. apply chain_ext; [done| |].
  - intros b Hb. rewrite app_comm_cons, removelast_last in Hb. auto.
  - intros b [Hb|Hb%list_elem_of_singleton]%elem_of_app; apply Hp; [by right|subst; left].
Qed.

(** [e] is linked in before [hd], after [p]. *)
Lemma ring_append hd l e p : ring nxt prv hd l -> e ∉ hd :: l -> prv hd = Some p ->
  (forall x, x ∈ e :: hd :: l -> nxt' x = if decide (x = p) then Some e else if decide (x = e) then Some hd else nxt x) ->
  (forall x, x ∈ e :: hd :: l -> prv' x = if decide (x = hd) then Some e else if decide (x = e) then Some p else prv x) ->
  ring nxt' prv' hd (l ++ [e]).
Proof.
  intros Hr He Hpv Hn Hp. destruct (ring_last nxt prv hd l Hr) as (pre & q & E & Hc & [Hq1 Hq2]). destruct Hr as [_ Hnd].
  rewrite Hq2 in Hpv. injection Hpv as ->.
  assert (p ∈ hd :: l) as Hpin by (rewrite E; set_solver). assert (e <> p /\ e <> hd) as [Hep Heh] by set_solver.
  split.
  - rewrite app_comm_cons, app_comm_cons, E, <- !app_assoc. cbn [app].
    change (p :: e :: [hd]) with ([p] ++ [e; hd]). rewrite app_assoc.
    apply chain_snoc2. rewrite <- app_assoc. cbn [app]. rewrite chain_snoc2, <- E. rewrite <- E in Hc. split; [split|].
    + apply (chain_keep hd l pre p); [done|done|done| |]; intros b Hb Hne.
      * rewrite Hn, decide_False by (done || by right). rewrite decide_False; [done|]. by intros ->.
      * rewrite Hp, decide_False by (done || by right). rewrite decide_False; [done|]. by intros ->.
    + split; [by rewrite Hn, decide_True by (done || by right)|]. by rewrite Hp, decide_False, decide_True by (done || left).
    + split; [by rewrite Hn, decide_False, decide_True by (done || left)|]. by rewrite Hp, decide_True by (done || set_solver).
  - rewrite app_comm_cons. apply NoDup_app. split_and!; [done| |apply NoDup_singleton].
    by intros x Hx ->%list_elem_of_singleton.
Qed.

(** [e] is taken out. *)
Lemma ring_remove hd l1 e l2 p n : ring nxt prv hd (l1 ++ e :: l2) -> prv e = Some p -> nxt e = Some n ->
  (forall x, x ∈ hd :: l1 ++ l2 -> nxt' x = if decide (x = p) then Some n else nxt x) ->
  (forall x, x ∈ hd :: l1 ++ l2 -> prv' x = if decide (x = n) then Some p else prv x) ->
  ring nxt' prv' hd (l1 ++ l2).
Proof.
  intros Hr Hpe Hne Hn Hp. destruct (ring_around nxt prv hd l1 e l2 Hr) as (pre & q & m & post & E & E2 & HcA & [Hq1 Hq2] & [Hm1 Hm2] & HcB & Hqe & Hme).
  rewrite Hq2 in Hpe. injection Hpe as ->. rewrite Hm1 in Hne. injection Hne as ->. destruct Hr as [_ Hnd].
  assert (NoDup (hd :: l1 ++ l2)) as Hnd'.
  { rewrite app_comm_cons in *. apply NoDup_app in Hnd as (H1 & H2 & [_ H3]%NoDup_cons). apply NoDup_app.
    split_and!; [done| |done]. intros x Hx Hx2. apply (H2 x Hx). by right. }
  pose proof Hnd' as Hnd2. rewrite app_comm_cons, E in Hnd2. apply NoDup_app in Hnd2 as (HndA & HdA & HndB).
  assert (hd ∈ pre ++ [p]) as Hhd by (rewrite <- E; left).
  assert (forall x, x ∈ n :: post -> x = hd \/ x ∈ l2) as Hpost by (intros x Hx; rewrite <- E2 in Hx; set_solver).
  assert (n = hd \/ n ∈ l2) as Hnin by (apply Hpost; left).
  split; [|done].
  rewrite <- app_assoc, app_comm_cons, E, E2, <- app_assoc. cbn [app]. apply chain_app. rewrite <- E in *. split; [|split].
  - apply (chain_keep hd l1 pre p); [done|done|done| |]; intros x Hx Hx'.
    + by rewrite Hn, decide_False by set_solver.
    + rewrite Hp by set_solver. rewrite decide_False; [done|]. intros ->. destruct Hnin as [->|Hnin]; [done|]. by apply (HdA n Hx).
  - split; [rewrite Hn, decide_True|rewrite Hp, decide_True]; try done; [rewrite app_comm_cons, E; set_solver|set_solver].
  - destruct (exists_last (l := n :: post)) as (preB & q & EB); [done|].
    assert (q = hd /\ preB = l2) as [-> ->] by (rewrite <- E2 in EB; apply app_inj_tail in EB as [-> ->]; done).
    assert (NoDup (n :: post)) as HndB'.
    { rewrite <- E2. apply NoDup_app. split_and!; [done| |apply NoDup_singleton].
      intros x Hx ->%list_elem_of_singleton. by apply (HdA hd). }
    apply (chain_keep n post l2 hd); [done|done|done| |]; intros x Hx Hx'; apply Hpost in Hx as Hx2.
    + rewrite Hn, decide_False; [done| |set_solver]. intros ->. destruct Hx2 as [->|Hx2]; [done|].
      apply (HdA p); [rewrite E; set_solver|done].
    + rewrite Hp, decide_False by set_solver. done.
Qed.
End Change.
