(* ===== verification/Snapshot.v ===== *)
(** db/snapshot.h: the snapshots of a database, a circular doubly linked list.

    The nodes live in a store, a finite map from addresses; address 0 is the
    list's own dummy node [list_].  An access to a node that is not in the store
    (never allocated, or deleted) is undefined behaviour, [None]. *)

From Stdlib Require Import ZArith Lia List Bool Sorting.Sorted.
From S2P Require Import Prelude Lists DList.

Module SnapshotList.

Record SnapshotImpl := MkSnapshotImpl { number_ : Z; prev_ : nat; next_ : nat }.

(** [fresh] is the address the next [new] returns. *)
Record t := Mk { nodes_ : gmap nat SnapshotImpl; fresh : nat }.

Definition list_head : nat := 0%nat.

Definition get_prev (sl : t) (a : nat) : option nat := prev_ <$> nodes_ sl !! a.
Definition get_next (sl : t) (a : nat) : option nat := next_ <$> nodes_ sl !! a.

Definition set_prev (sl : t) (a b : nat) : option t :=
  n ← nodes_ sl !! a; Some (Mk (<[a := MkSnapshotImpl (number_ n) b (next_ n)]> (nodes_ sl)) (fresh sl)).

Definition set_next (sl : t) (a b : nat) : option t :=
  n ← nodes_ sl !! a; Some (Mk (<[a := MkSnapshotImpl (number_ n) (prev_ n) b]> (nodes_ sl)) (fresh sl)).

(** [SnapshotList()]; the dummy node's number is never set. *)
Definition new (garbage : Z) : t :=
  Mk {[ list_head := MkSnapshotImpl garbage list_head list_head ]} 1.

Definition empty (sl : t) : option bool := n ← get_next sl list_head; Some (n =? list_head)%nat.

(** [None] is the failed assertion. *)
Definition oldest (sl : t) : option nat :=
  e ← empty sl; if (e : bool) then None else get_next sl list_head.

Definition newest (sl : t) : option nat :=
  e ← empty sl; if (e : bool) then None else get_prev sl list_head.

Definition number (sl : t) (s : nat) : option Z := number_ <$> nodes_ sl !! s.

(** The new node is linked in before [list_]. *)
Definition New (sl : t) (seq : Z) : option (nat * t) :=
  let s := fresh sl in
  p ← get_prev sl list_head;
  let sl := Mk (<[s := MkSnapshotImpl seq p list_head]> (nodes_ sl)) (S (fresh sl)) in
  sl ← set_next sl p s;
  sl ← set_prev sl list_head s;
  Some (s, sl).

(** The node is unlinked and freed. *)
Definition Delete (sl : t) (s : nat) : option t :=
  p ← get_prev sl s;
  n ← get_next sl s;
  sl ← set_next sl p n;
  n' ← get_next sl s;
  p' ← get_prev sl s;
  sl ← set_prev sl n' p';
  Some (Mk (delete s (nodes_ sl)) (fresh sl)).

End SnapshotList.
Import SnapshotList.

(** ** The list a store stands for *)

(** The store represents the snapshots [l], oldest first: addresses and numbers. *)
Record list_rep (sl : SnapshotList.t) (l : list (nat * Z)) : Prop := {
  lr_ring : ring (get_next sl) (get_prev sl) list_head (map fst l);
  lr_number : forall s n, (s, n) ∈ l -> SnapshotList.number sl s = Some n;
  lr_fresh : forall a, is_Some (nodes_ sl !! a) -> (a < fresh sl)%nat
}.

(** ** Lemmas *)

(** The state after each update, through its accessors. *)
Lemma set_next_ok sl a b : is_Some (nodes_ sl !! a) ->
  exists sl', set_next sl a b = Some sl' /\ fresh sl' = fresh sl /\
    (forall x, is_Some (nodes_ sl' !! x) <-> is_Some (nodes_ sl !! x)) /\
    (forall x, number sl' x = number sl x) /\ (forall x, get_prev sl' x = get_prev sl x) /\
    (forall x, get_next sl' x = if decide (x = a) then Some b else get_next sl x).
Proof.
  intros [n Hn]. unfold set_next. rewrite Hn. eexists. split_and!; [reflexivity|done|..];
    unfold number, get_prev, get_next; cbn [nodes_]; intros x; destruct (decide (x = a)) as [->|Hx];
    rewrite ?lookup_insert_eq, ?lookup_insert_ne, ?Hn by done; try done; cbn; split; eauto.
Qed.

Lemma set_prev_ok sl a b : is_Some (nodes_ sl !! a) ->
  exists sl', set_prev sl a b = Some sl' /\ fresh sl' = fresh sl /\
    (forall x, is_Some (nodes_ sl' !! x) <-> is_Some (nodes_ sl !! x)) /\
    (forall x, number sl' x = number sl x) /\ (forall x, get_next sl' x = get_next sl x) /\
    (forall x, get_prev sl' x = if decide (x = a) then Some b else get_prev sl x).
Proof.
  intros [n Hn]. unfold set_prev. rewrite Hn. eexists. split_and!; [reflexivity|done|..];
    unfold number, get_prev, get_next; cbn [nodes_]; intros x; destruct (decide (x = a)) as [->|Hx];
    rewrite ?lookup_insert_eq, ?lookup_insert_ne, ?Hn by done; try done; cbn; split; eauto.
Qed.

Lemma get_next_some sl a b : get_next sl a = Some b -> is_Some (nodes_ sl !! a).
Proof. unfold get_next. destruct (nodes_ sl !! a); [eauto|done]. Qed.

Lemma get_prev_some sl a b : get_prev sl a = Some b -> is_Some (nodes_ sl !! a).
Proof. unfold get_prev. destruct (nodes_ sl !! a); [eauto|done]. Qed.

Lemma chain_live sl a b l : chain (get_next sl) (get_prev sl) (a :: b :: l) ->
  forall x, x ∈ a :: b :: l -> is_Some (nodes_ sl !! x).
Proof.
  revert a b. induction l as [|c l IH]; intros a b [[H1 H2] Hc] x Hx.
  - apply elem_of_cons in Hx as [->|Hx%list_elem_of_singleton]; [by eapply get_next_some|subst; by eapply get_prev_some].
  - apply elem_of_cons in Hx as [->|Hx]; [by eapply get_next_some|]. by apply (IH b c).
Qed.

Lemma snapshots_new_rep g : list_rep (SnapshotList.new g) [].
Proof.
  split; cbn [map app fst].
  - split; [|apply NoDup_singleton]. cbn [app chain]. unfold link, get_next, get_prev, SnapshotList.new. cbn [nodes_].
    by rewrite lookup_singleton_eq.
  - intros s n H. by apply elem_of_nil in H.
  - intros a [n Hn]. cbn in *. apply lookup_singleton_Some in Hn as [<- _]. unfold list_head. lia.
Qed.

Lemma rep_live sl l a : list_rep sl l -> a ∈ list_head :: map fst l -> is_Some (nodes_ sl !! a) /\ (a < fresh sl)%nat.
Proof.
  intros [[Hc _] _ Hf] Ha. assert (is_Some (nodes_ sl !! a)); [|auto].
  destruct (map fst l ++ [list_head]) as [|b t] eqn:Et; [by destruct (map fst l)|].
  apply (chain_live sl list_head b t Hc). rewrite <- Et. set_solver.
Qed.

(** The fields after [New], from the last snapshot [p] on. *)
Lemma New_fields sl p seq :
  get_prev sl list_head = Some p -> is_Some (nodes_ sl !! p) ->
  (p < fresh sl)%nat -> (list_head < fresh sl)%nat ->
  exists sl', New sl seq = Some (fresh sl, sl') /\ fresh sl' = S (fresh sl) /\
    (forall x, is_Some (nodes_ sl' !! x) <-> x = fresh sl \/ is_Some (nodes_ sl !! x)) /\
    (forall x, number sl' x = if decide (x = fresh sl) then Some seq else number sl x) /\
    (forall x, get_next sl' x =
       if decide (x = p) then Some (fresh sl) else if decide (x = fresh sl) then Some list_head else get_next sl x) /\
    (forall x, get_prev sl' x =
       if decide (x = list_head) then Some (fresh sl) else if decide (x = fresh sl) then Some p else get_prev sl x).
Proof.
  intros Hh Hp Hpf Hhf. unfold New. rewrite Hh. bind_simpl. apply get_prev_some in Hh. set (s := fresh sl) in *.
  set (sl1 := Mk _ _). assert (forall x, nodes_ sl1 !! x = if decide (x = s) then Some (MkSnapshotImpl seq p list_head)
    else nodes_ sl !! x) as H1.
  { intros x. subst sl1. cbn. case_decide as Hx; [subst; apply lookup_insert_eq|by apply lookup_insert_ne]. }
  destruct (set_next_ok sl1 p s) as (sl2 & -> & F2 & D2 & N2 & P2 & X2); [rewrite H1, decide_False by lia; done|].
  bind_simpl.
  destruct (set_prev_ok sl2 list_head s) as (sl3 & -> & F3 & D3 & N3 & X3 & P3);
    [rewrite D2, H1, decide_False by lia; done|].
  bind_simpl. exists sl3. split_and!; [done|by rewrite F3, F2|..]; intros x.
  - rewrite D3, D2, H1. case_decide; [split; [by left|eauto]|naive_solver].
  - rewrite N3, N2. unfold number. rewrite H1. by case_decide.
  - rewrite X3, X2. unfold get_next. rewrite H1. by repeat case_decide.
  - rewrite P3, P2. unfold get_prev. rewrite H1. by repeat case_decide.
Qed.

Lemma New_rep sl l seq : list_rep sl l ->
  exists sl', New sl seq = Some (fresh sl, sl') /\ list_rep sl' (l ++ [(fresh sl, seq)]) /\ fresh sl' = S (fresh sl).
Proof.
  intros Hr. pose proof Hr as [Hc Hnum Hf].
  assert (forall a, a ∈ list_head :: map fst l -> is_Some (nodes_ sl !! a) /\ (a < fresh sl)%nat) as Hlive
    by (intros; by eapply rep_live).
  destruct (ring_last _ _ _ _ Hc) as (pre & p & E & _ & [_ Hp2]).
  assert (p ∈ list_head :: map fst l) as Hpin by (rewrite E; set_solver).
  destruct (Hlive p Hpin) as [Hp Hpf]. destruct (Hlive list_head ltac:(left)) as [Hh Hhf].
  destruct (New_fields sl p seq Hp2 Hp Hpf Hhf) as (sl' & -> & F & D & N & X & P).
  exists sl'. split_and!; [done| |done]. split.
  - rewrite map_app. apply (ring_append (get_next sl) (get_prev sl) _ _ list_head (map fst l) (fresh sl) p); auto.
    intros Hin. destruct (Hlive _ Hin). lia.
  - intros b n [Hb|Hb]%elem_of_app.
    + rewrite N. assert (b ∈ map fst l) as Hb' by (apply list_elem_of_In, in_map_iff; exists (b, n); split; [done|by apply list_elem_of_In]).
      destruct (Hlive b ltac:(by right)). rewrite decide_False by lia. auto.
    + apply list_elem_of_singleton in Hb. injection Hb as -> ->. by rewrite N, decide_True.
  - intros b Hb. rewrite F. apply D in Hb as [->|Hb]; [lia|]. specialize (Hf b Hb). lia.
Qed.

(** The fields of the other nodes after [Delete] of a node between [p] and [n]. *)
Lemma Delete_fields sl s p n :
  get_prev sl s = Some p -> get_next sl s = Some n -> is_Some (nodes_ sl !! p) -> is_Some (nodes_ sl !! n) ->
  p <> s -> n <> s ->
  exists sl', Delete sl s = Some sl' /\ fresh sl' = fresh sl /\
    (forall x, is_Some (nodes_ sl' !! x) <-> x <> s /\ is_Some (nodes_ sl !! x)) /\
    (forall x, x <> s -> number sl' x = number sl x) /\
    (forall x, x <> s -> get_next sl' x = if decide (x = p) then Some n else get_next sl x) /\
    (forall x, x <> s -> get_prev sl' x = if decide (x = n) then Some p else get_prev sl x).
Proof.
  intros Hsp Hsn Hp Hn Hps Hns. unfold Delete. rewrite Hsp, Hsn. bind_simpl.
  destruct (set_next_ok sl p n Hp) as (sl1 & -> & F1 & D1 & N1 & P1 & X1). bind_simpl.
  rewrite X1, decide_False, Hsn, P1, Hsp by done. bind_simpl.
  destruct (set_prev_ok sl1 n p) as (sl2 & -> & F2 & D2 & N2 & X2 & P2); [by rewrite D1|]. bind_simpl.
  eexists. split_and!; [reflexivity|cbn; congruence|..]; intros x.
  - cbn [nodes_]. destruct (decide (x = s)) as [->|Hx].
    + rewrite lookup_delete_eq. split; [by intros [? ?]|naive_solver].
    + rewrite lookup_delete_ne, D2, D1 by done. tauto.
  - intros Hx. rewrite <- N1, <- N2. unfold number. cbn [nodes_]. by rewrite lookup_delete_ne.
  - intros Hx. rewrite <- X1, <- X2. unfold get_next. cbn [nodes_]. by rewrite lookup_delete_ne.
  - intros Hx. rewrite <- P1, <- P2. unfold get_prev. cbn [nodes_]. by rewrite lookup_delete_ne.
Qed.

Lemma Delete_rep sl l1 l2 s n : list_rep sl (l1 ++ (s, n) :: l2) ->
  exists sl', Delete sl s = Some sl' /\ list_rep sl' (l1 ++ l2) /\ fresh sl' = fresh sl.
Proof.
  intros Hr. pose proof Hr as [Hc Hnum Hf].
  assert (forall a, a ∈ list_head :: map fst (l1 ++ (s, n) :: l2) -> is_Some (nodes_ sl !! a)) as Hlive
    by (intros a Ha; by apply (rep_live sl _ a Hr)).
  rewrite map_app in *. cbn [map fst] in *.
  destruct (ring_around _ _ _ _ _ _ Hc) as (pre & p & b & post & E & E2 & _ & [_ Hp2] & [Hb1 _] & _ & Hps & Hbs).
  assert (p ∈ list_head :: map fst l1) as Hpin by (rewrite E; set_solver).
  assert (b ∈ map fst l2 ++ [list_head]) as Hbin by (rewrite E2; left).
  assert (s ∉ list_head :: map fst l1 ++ map fst l2) as Hs.
  { destruct Hc as [_ Hnd]. rewrite <- Permutation_middle in Hnd. inversion Hnd; subst. inversion H2; subst. set_solver. }
  destruct (Delete_fields sl s p b Hp2 Hb1) as (sl' & -> & F & D & N & X & P);
    [apply Hlive; set_solver|apply Hlive; set_solver|done|done|].
  exists sl'. split_and!; [done| |done]. split.
  - rewrite map_app. apply (ring_remove (get_next sl) (get_prev sl) _ _ list_head (map fst l1) s (map fst l2) p b);
      [done|done|done|intros x Hx; apply X; by intros ->|intros x Hx; apply P; by intros ->].
  - intros x m Hx. assert (x <> s) as Hxs.
    { intros ->. apply Hs. right. rewrite <- map_app. apply list_elem_of_In, in_map_iff. exists (s, m). split; [done|by apply list_elem_of_In]. }
    rewrite N by done. apply Hnum. set_solver.
  - intros x [_ Hx]%D. rewrite F. auto.
Qed.

(** ** Sequences of operations *)

Inductive snap_op := OpNew (seq : Z) | OpDelete (s : nat).

Fixpoint run_ops (sl : SnapshotList.t) (ops : list snap_op) : option SnapshotList.t :=
  match ops with
  | [] => Some sl
  | OpNew seq :: ops => '(_, sl) ← New sl seq; run_ops sl ops
  | OpDelete s :: ops => sl ← Delete sl s; run_ops sl ops
  end.

(** The specification: the live snapshots in order of creation, the next address
    being [f].  Only live snapshots may be deleted. *)
Fixpoint live_after (f : nat) (l : list (nat * Z)) (ops : list snap_op) : option (list (nat * Z)) :=
  match ops with
  | [] => Some l
  | OpNew seq :: ops => live_after (S f) (l ++ [(f, seq)]) ops
  | OpDelete s :: ops =>
      if decide (s ∈ map fst l) then live_after f (base.filter (fun x => x.1 <> s) l) ops else None
  end.

(** The numbers of the snapshots created. *)
Fixpoint created (ops : list snap_op) : list Z :=
  match ops with
  | [] => []
  | OpNew seq :: ops => seq :: created ops
  | OpDelete _ :: ops => created ops
  end.

Lemma filter_split s (l : list (nat * Z)) : NoDup (map fst l) -> s ∈ map fst l ->
  exists l1 n l2, l = l1 ++ (s, n) :: l2 /\ base.filter (fun x => x.1 <> s) l = l1 ++ l2.
Proof.
  induction l as [|[a n] l IH]; cbn [map fst]; [set_solver|]. intros [Ha Hnd]%NoDup_cons Hs.
  destruct (decide (a = s)) as [->|Hne].
  - exists [], n, l. split; [done|]. rewrite filter_cons_False by (cbn; tauto). apply filter_all.
    intros [b m] Hx. cbn. intros ->. apply Ha, list_elem_of_In, in_map_iff. exists (s, m). split; [done|by apply list_elem_of_In].
  - apply elem_of_cons in Hs as [->|Hs]; [done|]. destruct (IH Hnd Hs) as (l1 & m & l2 & -> & E).
    exists ((a, n) :: l1), m, l2. split; [done|]. rewrite filter_cons_True by done. by rewrite E.
Qed.

Lemma run_ops_ok ops sl l l' : list_rep sl l -> live_after (fresh sl) l ops = Some l' ->
  exists sl', run_ops sl ops = Some sl' /\ list_rep sl' l'.
Proof.
  revert sl l. induction ops as [|[seq|s] ops IH]; intros sl l Hr; cbn [live_after run_ops].
  - intros [= <-]. eauto.
  - destruct (New_rep sl l seq Hr) as (sl1 & -> & Hr1 & F). bind_simpl. intros Hl.
    apply (IH sl1 _ Hr1). by rewrite F.
  - case_decide as Hs; [|done]. intros Hl.
    destruct (filter_split s l) as (l1 & n & l2 & -> & E); [destruct Hr as [[_ Hnd] _ _]; by apply NoDup_cons in Hnd as [_ ?]|done|].
    destruct (Delete_rep sl l1 l2 s n Hr) as (sl1 & -> & Hr1 & F). bind_simpl.
    apply (IH sl1 (l1 ++ l2)); [done|]. by rewrite F, <- E.
Qed.

(** Numbers in the order of creation stay in order. *)
Lemma live_sorted f l ops l' : live_after f l ops = Some l' ->
  StronglySorted Z.le (map snd l ++ created ops) -> StronglySorted Z.le (map snd l').
Proof.
  revert f l. induction ops as [|[seq|s] ops IH]; intros f l; cbn [live_after created].
  - intros [= ->]. by rewrite app_nil_r.
  - intros Hl Hs. apply (IH _ _ Hl). rewrite map_app, <- app_assoc. done.
  - case_decide; [|done]. intros Hl Hs. apply (IH _ _ Hl).
    apply StronglySorted_app_inv in Hs as (H1 & H2 & H3).
    assert (forall z, z ∈ map snd (base.filter (fun x => x.1 <> s) l) -> z ∈ map snd l) as Hsub.
    { intros z Hz. apply list_elem_of_In, in_map_iff in Hz as (x & <- & Hx%list_elem_of_In).
      apply list_elem_of_In, in_map, list_elem_of_In. by apply list_elem_of_filter in Hx as [_ ?]. }
    apply StronglySorted_app_intro; [|done|auto].
    clear -H1. induction l as [|x l IH]; [done|]. cbn [map] in H1. inversion_clear H1 as [|? ? Hs Hx].
    rewrite filter_cons. case_decide; [|auto]. cbn [map]. constructor; [auto|]. rewrite Forall_forall in *.
    intros z Hz. apply Hx. apply list_elem_of_In, in_map_iff in Hz as (y & <- & Hy%list_elem_of_In).
    apply list_elem_of_In, in_map, list_elem_of_In. by apply list_elem_of_filter in Hy as [_ ?].
Qed.

Lemma rep_ends sl l : list_rep sl l ->
  match l with
  | [] => empty sl = Some true
  | (s, _) :: _ => empty sl = Some false /\ oldest sl = Some s /\ newest sl = fst <$> last l
  end.
Proof.
  intros [Hr _ _]. pose proof (ring_first _ _ _ _ Hr) as E. unfold oldest, newest, empty.
  destruct l as [|[s n] l]; cbn in E; rewrite E; [done|]. bind_simpl.
  assert (s <> list_head) as Hs by (destruct Hr as [_ [Hnd _]%NoDup_cons]; intros ->; apply Hnd; left).
  rewrite (proj2 (Nat.eqb_neq _ _) Hs). split_and!; [done|done|].
  destruct (ring_last _ _ _ _ Hr) as (pre & p & Ep & _ & [_ ->]).
  destruct (exists_last (l := (s, n) :: l)) as (pre' & [q m] & El); [done|]. rewrite El in *.
  rewrite last_snoc. cbn. rewrite map_app, app_comm_cons in Ep. by apply app_inj_tail in Ep as [_ <-].
Qed.

(** * Properties *)

(** The pointer list implements a queue of live snapshots with deletion
    anywhere: after any creations and releases of live snapshots, none of which
    follows a dangling pointer, [empty], [oldest], [newest] and the numbers are
    those of the snapshots still live in order of creation; and if they were
    created with non-decreasing sequence numbers, as the database does, the oldest
    holds the smallest number, which is what a compaction takes it for. *)
Theorem SnapshotList_correct (garbage : Z) (ops : list snap_op) (l : list (nat * Z)) :
  live_after 1 [] ops = Some l ->
  exists sl, run_ops (SnapshotList.new garbage) ops = Some sl /\
    (forall s n, (s, n) ∈ l -> SnapshotList.number sl s = Some n) /\
    match l with
    | [] => empty sl = Some true
    | (s, n) :: _ => empty sl = Some false /\ oldest sl = Some s /\ newest sl = fst <$> last l /\
        (StronglySorted Z.le (created ops) -> Forall (fun x => n <= x.2) l)
    end.
Proof.
  intros Hl. destruct (run_ops_ok ops (SnapshotList.new garbage) [] l (snapshots_new_rep garbage) Hl) as (sl & E & Hr).
  exists sl. split_and!; [done|apply Hr|]. pose proof (rep_ends sl l Hr) as He. destruct l as [|[s n] l]; [done|].
  destruct He as (H1 & H2 & H3). split_and!; [done|done|done|]. intros Hs.
  pose proof (live_sorted 1 [] ops _ Hl Hs) as Hsort. cbn [map snd] in Hsort. inversion_clear Hsort as [|? ? _ Hn].
  rewrite Forall_forall in Hn. constructor; [cbn; lia|]. apply Forall_forall. intros x Hx. apply Hn.
  by apply list_elem_of_In, in_map, list_elem_of_In.
Qed.

Lemma SnapshotList_correct_witness :
  exists sl, run_ops (SnapshotList.new 0) [OpNew 5; OpNew 8; OpDelete 1%nat; OpNew 8; OpDelete 3%nat] = Some sl /\
    oldest sl = Some 2%nat /\ SnapshotList.number sl 2 = Some 8.
Proof.
  destruct (SnapshotList_correct 0 [OpNew 5; OpNew 8; OpDelete 1%nat; OpNew 8; OpDelete 3%nat] [(2%nat, 8)])
    as (sl & E & Hn & _ & Ho & _).
  - reflexivity.
  - exists sl. split; [exact E|]. split; [exact Ho|]. apply Hn. left.
Defined.
