(* ===== verification/Cache.v ===== *)
(** util/cache.cpp: the sharded LRU cache.

    Handles are shared and pointed to from the hash chains, the LRU list and the
    clients, so they live in a store, a finite map from addresses; an access to an
    address that is not allocated is undefined behaviour, [None].  [malloc] picks
    the address of a new handle.  Values and deleters are opaque; the calls of
    deleters are recorded in order.  The mutexes are not modelled.

    The second half of the file shows that the chained hash table implements a
    set of handles with at most one of a key. *)

From Stdlib Require Import ZArith Lia List Bool.
From S2P Require Import Prelude Lists Slice Hashing.

Module LRU.

Record LRUHandle (V D : Type) := MkLRUHandle {
  value : V;
  deleter : D;
  next_hash : option nat;
  next : nat;
  prev : nat;
  charge : Z;
  refs : Z;
  hash : Z;
  key_data : bytes        (* key_length of them *)
}.
Arguments MkLRUHandle {V D}.
Arguments value {V D}.
Arguments deleter {V D}.
Arguments next_hash {V D}.
Arguments next {V D}.
Arguments prev {V D}.
Arguments charge {V D}.
Arguments refs {V D}.
Arguments hash {V D}.
Arguments key_data {V D}.

Section Handles.
Context {V D : Type}.
Abbreviation handle := (LRUHandle V D).
Abbreviation heap := (gmap nat handle).

(** Assignments to a field of [*a]. *)
Definition upd (hp : heap) (a : nat) (f : handle -> handle) : option heap := h ← hp !! a; Some (<[a := f h]> hp).

Definition set_next_hash (p : option nat) (h : handle) : handle :=
  MkLRUHandle (value h) (deleter h) p (next h) (prev h) (charge h) (refs h) (hash h) (key_data h).
Definition set_next (a : nat) (h : handle) : handle :=
  MkLRUHandle (value h) (deleter h) (next_hash h) a (prev h) (charge h) (refs h) (hash h) (key_data h).
Definition set_prev (a : nat) (h : handle) : handle :=
  MkLRUHandle (value h) (deleter h) (next_hash h) (next h) a (charge h) (refs h) (hash h) (key_data h).
Definition set_refs (n : Z) (h : handle) : handle :=
  MkLRUHandle (value h) (deleter h) (next_hash h) (next h) (prev h) (charge h) n (hash h) (key_data h).

(** [LRUHandle::key]: when the handle is linked to itself, its [value] is taken
    for a slice, which no value in the cache is. *)
Definition key (a : nat) (h : handle) : option bytes := if decide (next h = a) then None else Some (key_data h).

(** ** HandleTable *)

Record HandleTable := MkHandleTable { length_ : Z; elems_ : Z; list_ : list (option nat) }.

(** An [LRUHandle**]: a bucket, or the [next_hash] field of a handle. *)
Inductive slot := Bucket (i : nat) | NextHash (a : nat).

Definition deref (list_ : list (option nat)) (hp : heap) (ptr : slot) : option (option nat) :=
  match ptr with
  | Bucket i => list_ !! i
  | NextHash a => next_hash <$> hp !! a
  end.

(** [*ptr = v] *)
Definition assign (list_ : list (option nat)) (hp : heap) (ptr : slot) (v : option nat) : option (list (option nat) * heap) :=
  match ptr with
  | Bucket i => _ ← list_ !! i; Some (<[i := v]> list_, hp)
  | NextHash a => hp ← upd hp a (set_next_hash v); Some (list_, hp)
  end.

Definition bucket (hash length_ : Z) : nat := Z.to_nat (Z.land hash (u32 (length_ - 1))).

(** A chain holds a handle once, so it is no longer than the store. *)
Fixpoint FindPointer_loop (fuel : nat) (list_ : list (option nat)) (hp : heap) (ptr : slot) (k : bytes) (h : Z) : option slot :=
  match fuel with
  | O => None
  | S fuel =>
      p ← deref list_ hp ptr;
      match p with
      | None => Some ptr
      | Some a =>
          e ← hp !! a;
          if negb (hash e =? h) then FindPointer_loop fuel list_ hp (NextHash a) k h
          else
            k' ← key a e;
            if negb (Slice.eqb k k') then FindPointer_loop fuel list_ hp (NextHash a) k h else Some ptr
      end
  end.

Definition FindPointer (t : HandleTable) (hp : heap) (k : bytes) (h : Z) : option slot :=
  FindPointer_loop (S (size hp)) (list_ t) hp (Bucket (bucket h (length_ t))) k h.

Definition HandleTable_Lookup (t : HandleTable) (hp : heap) (k : bytes) (h : Z) : option (option nat) :=
  ptr ← FindPointer t hp k h; deref (list_ t) hp ptr.

(** The length doubles until it reaches [elems]; it wraps to 0 beyond 2^31. *)
Fixpoint Resize_length (fuel : nat) (new_length elems : Z) : option Z :=
  if new_length <? elems then
    match fuel with O => None | S fuel => Resize_length fuel (u32 (new_length * 2)) elems end
  else Some new_length.

(** One old bucket, from handle [h] on. *)
Fixpoint Resize_chain (fuel : nat) (hp : heap) (h : option nat) (new_list : list (option nat)) (new_length count : Z)
    : option (heap * list (option nat) * Z) :=
  match h with
  | None => Some (hp, new_list, count)
  | Some a =>
      match fuel with
      | O => None
      | S fuel =>
          e ← hp !! a;
          let next := next_hash e in
          let i := bucket (u32 (hash e)) new_length in
          v ← new_list !! i;
          hp ← upd hp a (set_next_hash v);
          Resize_chain fuel hp next (<[i := Some a]> new_list) new_length (u32 (count + 1))
      end
  end.

Fixpoint Resize_buckets (buckets : list (option nat)) (hp : heap) (new_list : list (option nat)) (new_length count : Z)
    : option (heap * list (option nat) * Z) :=
  match buckets with
  | [] => Some (hp, new_list, count)
  | h :: buckets =>
      '(hp, new_list, count) ← Resize_chain (size hp) hp h new_list new_length count;
      Resize_buckets buckets hp new_list new_length count
  end.

(** [None] at the end: the assertion on the count fails. *)
Definition Resize (t : HandleTable) (hp : heap) : option (HandleTable * heap) :=
  new_length ← Resize_length 30 4 (elems_ t);
  '(hp, new_list, count) ← Resize_buckets (list_ t) hp (replicate (Z.to_nat new_length) None) new_length 0;
  if elems_ t =? count then Some (MkHandleTable new_length (elems_ t) new_list, hp) else None.

Definition HandleTable_new (hp : heap) : option (HandleTable * heap) := Resize (MkHandleTable 0 0 []) hp.

Definition HandleTable_Insert (t : HandleTable) (hp : heap) (h : nat) : option (option nat * HandleTable * heap) :=
  e ← hp !! h;
  k ← key h e;
  ptr ← FindPointer t hp k (u32 (hash e));
  old ← deref (list_ t) hp ptr;
  rest ← (match old with None => Some None | Some o => next_hash <$> hp !! o end);
  hp ← upd hp h (set_next_hash rest);
  '(l, hp) ← assign (list_ t) hp ptr (Some h);
  match old with
  | Some _ => Some (old, MkHandleTable (length_ t) (elems_ t) l, hp)
  | None =>
      let t := MkHandleTable (length_ t) (u32 (elems_ t + 1)) l in
      if elems_ t >? length_ t then '(t, hp) ← Resize t hp; Some (old, t, hp) else Some (old, t, hp)
  end.

Definition HandleTable_Remove (t : HandleTable) (hp : heap) (k : bytes) (h : Z) : option (option nat * HandleTable * heap) :=
  ptr ← FindPointer t hp k h;
  result ← deref (list_ t) hp ptr;
  match result with
  | Some r =>
      rest ← next_hash <$> hp !! r;
      '(l, hp) ← assign (list_ t) hp ptr rest;
      Some (result, MkHandleTable (length_ t) (u32 (elems_ t - 1)) l, hp)
  | None => Some (result, t, hp)
  end.

(** ** LRUCache *)

Record LRUCache := MkLRUCache {
  capacity_ : Z;
  usage_ : Z;
  last_id_ : Z;
  lru_ : nat;               (* the address of the dummy handle [lru_] *)
  table_ : HandleTable
}.

Definition with_usage (c : LRUCache) (n : Z) : LRUCache := MkLRUCache (capacity_ c) n (last_id_ c) (lru_ c) (table_ c).
Definition with_table (c : LRUCache) (t : HandleTable) : LRUCache := MkLRUCache (capacity_ c) (usage_ c) (last_id_ c) (lru_ c) t.

Definition SetCapacity (c : LRUCache) (capacity : Z) : LRUCache :=
  MkLRUCache capacity (usage_ c) (last_id_ c) (lru_ c) (table_ c).

(** Handles in memory, and the calls of deleters so far. *)
Record memory := MkMemory { handles : heap; deletions : list (D * bytes * V) }.

Definition with_handles (m : memory) (hp : heap) : memory := MkMemory hp (deletions m).

(** The constructor; [g] is what the dummy holds before, [cap] the capacity. *)
Definition LRUCache_new (lru : nat) (g : handle) (cap : Z) (m : memory) : option (LRUCache * memory) :=
  '(t, hp) ← HandleTable_new (<[lru := set_prev lru (set_next lru g)]> (handles m));
  Some (MkLRUCache cap 0 0 lru t, with_handles m hp).

Definition Unref (c : LRUCache) (m : memory) (e : nat) : option (LRUCache * memory) :=
  h ← handles m !! e;
  if negb (refs h >? 0) then None
  else
    let h := set_refs (u32 (refs h - 1)) h in
    if refs h <=? 0 then
      k ← key e h;
      Some (with_usage c (u64 (usage_ c - charge h)),
            MkMemory (delete e (handles m)) (deletions m ++ [(deleter h, k, value h)]))
    else Some (c, with_handles m (<[e := h]> (handles m))).

Definition LRU_Remove (hp : heap) (e : nat) : option heap :=
  n ← next <$> hp !! e; p ← prev <$> hp !! e;
  hp ← upd hp n (set_prev p);
  p ← prev <$> hp !! e; n ← next <$> hp !! e;
  upd hp p (set_next n).

Definition LRU_Append (c : LRUCache) (hp : heap) (e : nat) : option heap :=
  hp ← upd hp e (set_next (lru_ c));
  p ← prev <$> hp !! lru_ c;
  hp ← upd hp e (set_prev p);
  p ← prev <$> hp !! e;
  hp ← upd hp p (set_next e);
  n ← next <$> hp !! e;
  upd hp n (set_prev e).

Definition Lookup (c : LRUCache) (m : memory) (k : bytes) (h : Z) : option (option nat * memory) :=
  e ← HandleTable_Lookup (table_ c) (handles m) k h;
  match e with
  | Some a =>
      hp ← upd (handles m) a (fun x => set_refs (u32 (refs x + 1)) x);
      hp ← LRU_Remove hp a;
      hp ← LRU_Append c hp a;
      Some (e, with_handles m hp)
  | None => Some (e, m)
  end.

Definition Release (c : LRUCache) (m : memory) (handle : nat) : option (LRUCache * memory) := Unref c m handle.

(** [while (usage_ > capacity_ && lru_.next != &lru_)]; a pass takes a handle off
    the list. *)
Fixpoint evict (fuel : nat) (c : LRUCache) (m : memory) : option (LRUCache * memory) :=
  old ← next <$> handles m !! lru_ c;
  if (usage_ c >? capacity_ c) && negb (old =? lru_ c)%nat then
    match fuel with
    | O => None
    | S fuel =>
        hp ← LRU_Remove (handles m) old;
        h ← hp !! old;
        k ← key old h;
        '(_, t, hp) ← HandleTable_Remove (table_ c) hp k (u32 (hash h));
        '(c, m) ← Unref (with_table c t) (with_handles m hp) old;
        evict fuel c m
    end
  else Some (c, m).

Context (malloc : gset nat -> nat).

(** [next_hash], [next] and [prev] of the new handle are set before they are read;
    here they start as [None] and the dummy. *)
Definition Insert (c : LRUCache) (m : memory) (k : bytes) (h : Z) (v : V) (charge : Z) (d : D)
    : option (nat * LRUCache * memory) :=
  let e := malloc (dom (handles m)) in
  let hp := <[e := MkLRUHandle v d None (lru_ c) (lru_ c) charge 2 h k]> (handles m) in
  hp ← LRU_Append c hp e;
  let c := with_usage c (u64 (usage_ c + charge)) in
  '(old, t, hp) ← HandleTable_Insert (table_ c) hp e;
  let c := with_table c t in
  '(c, m) ← (match old with
             | Some o => hp ← LRU_Remove hp o; Unref c (with_handles m hp) o
             | None => Some (c, with_handles m hp)
             end);
  '(c, m) ← evict (size (handles m)) c m;
  Some (e, c, m).

Definition Erase (c : LRUCache) (m : memory) (k : bytes) (h : Z) : option (LRUCache * memory) :=
  '(e, t, hp) ← HandleTable_Remove (table_ c) (handles m) k h;
  let c := with_table c t in
  match e with
  | Some a => hp ← LRU_Remove hp a; Unref c (with_handles m hp) a
  | None => Some (c, with_handles m hp)
  end.

(** The destructor from handle [e] on. *)
Fixpoint destroy_loop (fuel : nat) (c : LRUCache) (m : memory) (e : nat) : option (LRUCache * memory) :=
  if (e =? lru_ c)%nat then Some (c, m)
  else
    match fuel with
    | O => None
    | S fuel =>
        h ← handles m !! e;
        if refs h =? 1 then '(c, m) ← Unref c m e; destroy_loop fuel c m (next h) else None
    end.

Definition LRUCache_destroy (c : LRUCache) (m : memory) : option (LRUCache * memory) :=
  e ← next <$> handles m !! lru_ c; destroy_loop (size (handles m)) c m e.

(** ** ShardedLRUCache *)

Definition kNumShardBits : Z := 4.
Definition kNumShards : Z := Z.shiftl 1 kNumShardBits.

Record ShardedLRUCache := MkSharded { shard_ : list LRUCache; sharded_last_id_ : Z }.

Definition HashSlice (s : bytes) : Z := Hash s 0.
Definition Shard (hash : Z) : nat := Z.to_nat (Z.shiftr hash (32 - kNumShardBits)).

(** The shards' dummies are at the addresses [lrus]. *)
Fixpoint new_shards (lrus : list nat) (g : handle) (per_shard : Z) (m : memory) : option (list LRUCache * memory) :=
  match lrus with
  | [] => Some ([], m)
  | lru :: lrus =>
      '(c, m) ← LRUCache_new lru g 0 m;
      '(cs, m) ← new_shards lrus g per_shard m;
      Some (SetCapacity c per_shard :: cs, m)
  end.

Definition NewLRUCache (lrus : list nat) (g : handle) (capacity : Z) (m : memory) : option (ShardedLRUCache * memory) :=
  let per_shard := u64 (capacity + (kNumShards - 1)) / kNumShards in
  '(cs, m) ← new_shards lrus g per_shard m;
  Some (MkSharded cs 0, m).

Definition with_shard (s : ShardedLRUCache) (i : nat) (c : LRUCache) : ShardedLRUCache :=
  MkSharded (<[i := c]> (shard_ s)) (sharded_last_id_ s).

Definition Sharded_Insert (s : ShardedLRUCache) (m : memory) (k : bytes) (v : V) (charge : Z) (d : D)
    : option (nat * ShardedLRUCache * memory) :=
  let hash := HashSlice k in
  c ← shard_ s !! Shard hash;
  '(e, c, m) ← Insert c m k hash v charge d;
  Some (e, with_shard s (Shard hash) c, m).

Definition Sharded_Lookup (s : ShardedLRUCache) (m : memory) (k : bytes) : option (option nat * memory) :=
  let hash := HashSlice k in
  c ← shard_ s !! Shard hash;
  Lookup c m k hash.

Definition Sharded_Release (s : ShardedLRUCache) (m : memory) (handle : nat) : option (ShardedLRUCache * memory) :=
  h ← handles m !! handle;
  let i := Shard (u32 (hash h)) in
  c ← shard_ s !! i;
  '(c, m) ← Release c m handle;
  Some (with_shard s i c, m).

Definition Sharded_Erase (s : ShardedLRUCache) (m : memory) (k : bytes) : option (ShardedLRUCache * memory) :=
  let hash := HashSlice k in
  c ← shard_ s !! Shard hash;
  '(c, m) ← Erase c m k hash;
  Some (with_shard s (Shard hash) c, m).

(** The shards are destroyed in reverse order. *)
Fixpoint destroy_shards (cs : list LRUCache) (m : memory) : option memory :=
  match cs with
  | [] => Some m
  | c :: cs => '(_, m) ← LRUCache_destroy c m; destroy_shards cs m
  end.

Definition Sharded_destroy (s : ShardedLRUCache) (m : memory) : option memory := destroy_shards (rev (shard_ s)) m.

Definition Value (m : memory) (handle : nat) : option V := value <$> handles m !! handle.

Definition NewId (s : ShardedLRUCache) : Z * ShardedLRUCache :=
  (u64 (sharded_last_id_ s + 1), MkSharded (shard_ s) (u64 (sharded_last_id_ s + 1))).

End Handles.
End LRU.
Import LRU.

(** ** Lemmas: chains *)

Section Table.
Context {V D : Type}.
Abbreviation handle := (LRUHandle V D).
Abbreviation heap := (gmap nat handle).

Definition nh (hp : heap) (a : nat) : option (option nat) := next_hash <$> hp !! a.

(** From [p] the [next_hash] fields run through [l]. *)
Fixpoint hchain (N : nat -> option (option nat)) (p : option nat) (l : list nat) : Prop :=
  match l with
  | [] => p = None
  | a :: l => p = Some a /\ exists q, N a = Some q /\ hchain N q l
  end.

Lemma hchain_frame N N' p l : (forall a, a ∈ l -> N' a = N a) -> hchain N p l -> hchain N' p l.
Proof.
  revert p. induction l as [|a l IH]; intros p H; [done|]. intros (-> & q & Hq & Hl). split; [done|].
  exists q. split; [rewrite H by left; done|]. apply IH; [|done]. intros b Hb. apply H. by right.
Qed.

Lemma hchain_head N p l : hchain N p l -> p = head l.
Proof. destruct l; [done|]. by intros [-> _]. Qed.

(** A handle with key [k] and hash [h]. *)
Definition matches (hp : heap) (k : bytes) (h : Z) (a : nat) : Prop :=
  exists e, hp !! a = Some e /\ hash e = h /\ key_data e = k.

(** A handle whose key can be read. *)
Definition keyed (hp : heap) (a : nat) : Prop := exists e, hp !! a = Some e /\ next e <> a.

Definition slot_of (ptr : slot) (A : list nat) : slot := match last A with None => ptr | Some a => NextHash a end.

Lemma FindPointer_loop_ok ls hp k h fuel : forall ptr p l,
  deref ls hp ptr = Some p -> hchain (nh hp) p l -> Forall (keyed hp) l -> (length l < fuel)%nat ->
  exists A B, l = A ++ B /\ Forall (fun a => ~ matches hp k h a) A /\ (forall b, head B = Some b -> matches hp k h b) /\
    FindPointer_loop fuel ls hp ptr k h = Some (slot_of ptr A) /\
    deref ls hp (slot_of ptr A) = Some (head B) /\ hchain (nh hp) (head B) B.
Proof.
  induction fuel as [|fuel IH]; intros ptr p l Hd Hc Hk Hf; [lia|]. cbn [FindPointer_loop]. rewrite Hd. bind_simpl.
  destruct l as [|a l]; [rewrite Hc in *; by exists [], []|]. destruct Hc as (-> & q & Hq & Hc).
  apply Forall_cons in Hk as [(e & He & Hne) Hk]. rewrite He. bind_simpl. unfold key. rewrite decide_False by done. bind_simpl.
  assert (~ matches hp k h a -> exists A B, a :: l = A ++ B /\ Forall (fun a => ~ matches hp k h a) A /\
    (forall b, head B = Some b -> matches hp k h b) /\ FindPointer_loop fuel ls hp (NextHash a) k h = Some (slot_of ptr A) /\
    deref ls hp (slot_of ptr A) = Some (head B) /\ hchain (nh hp) (head B) B) as Hgo.
  { intros Hm. destruct (IH (NextHash a) q l Hq Hc Hk) as (A & B & -> & HA & HB & E & Hd' & Hc'); [cbn in Hf; lia|].
    assert (slot_of ptr (a :: A) = slot_of (NextHash a) A) as Es
      by (unfold slot_of; rewrite last_cons; by destruct (last A)).
    exists (a :: A), B. rewrite Es. split_and!; try done. by constructor. }
  assert (matches hp k h a <-> hash e = h /\ key_data e = k) as Hm.
  { unfold matches. rewrite He. naive_solver. }
  destruct (Z.eqb_spec (hash e) h) as [E1|E1]; cbn [negb]; [|apply Hgo; naive_solver].
  rewrite Slice_eqb_spec. case_bool_decide as E2; cbn [negb].
  - exists [], (a :: l). split_and!; try done; [by intros b [= <-]; apply Hm|]. split; [done|eauto].
  - apply Hgo. by intros [_ <-]%Hm.
Qed.

(** ** Lemmas: heaps that differ in [next_hash] only *)

Definition same (hp hp' : heap) : Prop := forall a, set_next_hash None <$> hp' !! a = set_next_hash None <$> hp !! a.

Lemma same_refl hp : same hp hp.
Proof. by intros a. Qed.

Lemma same_trans hp1 hp2 hp3 : same hp1 hp2 -> same hp2 hp3 -> same hp1 hp3.
Proof. intros H1 H2 a. by rewrite H2. Qed.

Lemma same_field {T} (f : handle -> T) hp hp' : (forall p h, f (set_next_hash p h) = f h) -> same hp hp' ->
  forall a, f <$> hp' !! a = f <$> hp !! a.
Proof.
  intros Hf Hs a. specialize (Hs a). destruct (hp !! a) as [h|], (hp' !! a) as [h'|]; cbn in *; try done.
  assert (set_next_hash None h' = set_next_hash None h) as E by congruence.
  apply (f_equal f) in E. rewrite !Hf in E. by rewrite E.
Qed.

Lemma same_some hp hp' a h : same hp hp' -> hp !! a = Some h -> exists p, hp' !! a = Some (set_next_hash p h).
Proof.
  intros Hs Ha. specialize (Hs a). rewrite Ha in Hs. destruct (hp' !! a) as [h'|]; [|done].
  exists (next_hash h'). f_equal. destruct h, h'. cbn in Hs. by injection Hs as -> -> -> -> -> -> -> ->.
Qed.

Lemma same_sym hp hp' : same hp hp' -> same hp' hp.
Proof. intros H a. by rewrite H. Qed.

Lemma same_keyed hp hp' a : same hp hp' -> keyed hp a -> keyed hp' a.
Proof. intros Hs (e & He & Hn). destruct (same_some hp hp' a e Hs He) as [p Hp]. by exists (set_next_hash p e). Qed.

Lemma same_matches hp hp' k h a : same hp hp' -> matches hp k h a -> matches hp' k h a.
Proof. intros Hs (e & He & Hh & Hk). destruct (same_some hp hp' a e Hs He) as [p Hp]. by exists (set_next_hash p e). Qed.

Lemma same_dom hp hp' : same hp hp' -> dom hp' = dom hp.
Proof.
  intros Hs. apply set_eq. intros a. rewrite !elem_of_dom. specialize (Hs a).
  destruct (hp !! a), (hp' !! a); try done; split; intros [? ?]; done.
Qed.

Lemma upd_next_hash_ok hp a p : is_Some (hp !! a) ->
  exists hp', upd hp a (set_next_hash p) = Some hp' /\ same hp hp' /\ nh hp' a = Some p /\
    forall x, x <> a -> hp' !! x = hp !! x.
Proof.
  intros [h Hh]. unfold upd. rewrite Hh. bind_simpl. eexists. split; [done|]. split_and!.
  - intros x. destruct (decide (x = a)) as [->|Hne]; [|by rewrite lookup_insert_ne].
    by rewrite lookup_insert_eq, Hh.
  - unfold nh. by rewrite lookup_insert_eq.
  - intros x Hx. by rewrite lookup_insert_ne.
Qed.

Lemma nh_ext hp hp' a : hp' !! a = hp !! a -> nh hp' a = nh hp a.
Proof. unfold nh. by intros ->. Qed.

(** ** Lemmas: buckets *)

Definition chains (N : nat -> option (option nat)) (ls : list (option nat)) (bs : list (list nat)) : Prop :=
  length ls = length bs /\ forall i l, bs !! i = Some l -> exists p, ls !! i = Some p /\ hchain N p l.

Lemma hchain_splice N N' p A a B q B' : hchain N p (A ++ a :: B) -> (forall x, x ∈ A -> N' x = N x) ->
  N' a = Some q -> hchain N' q B' -> hchain N' p (A ++ a :: B').
Proof.
  revert p. induction A as [|x A IH]; intros p H HA Ha HB; cbn [app hchain] in *.
  - destruct H as [-> _]. split; [done|]. by exists q.
  - destruct H as (-> & r & Hr & H). split; [done|]. exists r. split; [rewrite HA by left; done|].
    apply IH; [done| |done|done]. intros y Hy. apply HA. by right.
Qed.

Lemma concat_insert_perm {A} (bs : list (list A)) i l l' : bs !! i = Some l ->
  concat (<[i := l']> bs) ++ l ≡ₚ concat bs ++ l'.
Proof.
  revert i. induction bs as [|b bs IH]; intros [|i] H; cbn in H; simplify_eq; cbn [list_insert insert concat].
  - change (<[0%nat := l']> (l :: bs)) with (l' :: bs). cbn [concat]. solve_Permutation.
  - change (<[S i := l']> (b :: bs)) with (b :: <[i := l']> bs). cbn [concat]. rewrite <- !app_assoc. f_equiv. by apply IH.
Qed.

Lemma in_concat_lookup {A} (bs : list (list A)) i l x : bs !! i = Some l -> x ∈ l -> x ∈ concat bs.
Proof. intros H Hx. apply list_elem_of_In, in_concat. exists l. split; apply list_elem_of_In; [by eapply list_elem_of_lookup_2|done]. Qed.

Lemma NoDup_concat_buckets {A} (bs : list (list A)) i j l l' x : NoDup (concat bs) ->
  bs !! i = Some l -> bs !! j = Some l' -> x ∈ l -> x ∈ l' -> i = j.
Proof.
  revert i j. induction bs as [|b bs IH]; intros i j Hnd Hi Hj Hx Hx'; [done|]. cbn in Hnd.
  apply NoDup_app in Hnd as (H1 & H2 & H3). destruct i as [|i], j as [|j]; cbn in *; simplify_eq; [done|..].
  - destruct (H2 x Hx). by eapply in_concat_lookup.
  - destruct (H2 x Hx'). by eapply in_concat_lookup.
  - f_equal. by eapply IH.
Qed.

Lemma NoDup_concat_bucket {A} (bs : list (list A)) i l : NoDup (concat bs) -> bs !! i = Some l -> NoDup l.
Proof.
  revert i. induction bs as [|b bs IH]; intros [|i] Hnd H; [done..| |]; cbn in *; apply NoDup_app in Hnd as (? & ? & ?);
    simplify_eq; [done|eauto].
Qed.

(** [*ptr = q] where [ptr] is at [B] in bucket [i] puts [B'] there. *)
Lemma assign_ok hp ls bs i A B B' q : chains (nh hp) ls bs -> NoDup (concat bs) -> bs !! i = Some (A ++ B) ->
  Forall (keyed hp) (A ++ B) -> hchain (nh hp) q B' -> (forall x, x ∈ A -> x ∉ B') ->
  exists ls' hp', assign ls hp (slot_of (Bucket i) A) q = Some (ls', hp') /\ same hp hp' /\
    chains (nh hp') ls' (<[i := A ++ B']> bs) /\ (forall x, x ∉ A -> hp' !! x = hp !! x).
Proof.
  intros [Hlen Hch] Hnd Hi Hk Hq Hdis. destruct (Hch i _ Hi) as (p & Hp & Hc). pose proof (lookup_lt_Some _ _ _ Hi) as Hlt.
  assert (forall hp' ls', length ls' = length ls -> (exists p, ls' !! i = Some p /\ hchain (nh hp') p (A ++ B')) ->
    (forall j l, j <> i -> bs !! j = Some l -> exists p, ls' !! j = Some p /\ hchain (nh hp') p l) ->
    chains (nh hp') ls' (<[i := A ++ B']> bs)) as Hfin.
  { intros hp' ls' Hl Hi' Hj. split; [rewrite length_insert; congruence|]. intros j l Hjl.
    destruct (decide (j = i)) as [->|Hne]; [rewrite list_lookup_insert_eq in Hjl by done; by injection Hjl as <-|].
    rewrite list_lookup_insert_ne in Hjl by done. auto. }
  destruct A as [|a A0 _] using rev_ind.
  - cbn [slot_of last assign]. rewrite Hp. bind_simpl. exists (<[i := q]> ls), hp. split_and!; [done|done| |done].
    apply Hfin; [by rewrite length_insert| |].
    + exists q. by rewrite list_lookup_insert_eq by (rewrite Hlen; done).
    + intros j l Hne Hj. rewrite list_lookup_insert_ne by done. by apply Hch.
  - unfold slot_of. rewrite last_snoc. cbn [assign]. rewrite <- app_assoc in Hc, Hk, Hi. cbn [app] in Hc, Hk, Hi.
    assert (is_Some (hp !! a)) as Ha.
    { apply Forall_app in Hk as [_ Hk]. apply Forall_cons in Hk as [(e & He & _) _]. eauto. }
    destruct (upd_next_hash_ok hp a q Ha) as (hp' & -> & Hs & Hna & Hfr). bind_simpl. exists ls, hp'.
    assert (NoDup (A0 ++ a :: B)) as Hndi by (by eapply NoDup_concat_bucket).
    apply NoDup_app in Hndi as (_ & HA0 & _).
    split_and!; [done|done| |intros x Hx; apply Hfr; intros ->; apply Hx; set_solver].
    rewrite <- app_assoc. cbn [app]. rewrite <- app_assoc in Hfin. cbn [app] in Hfin. apply Hfin; [done| |].
    + exists p. split; [done|]. apply (hchain_splice (nh hp) _ _ _ _ B q); [done| |done|].
      * intros x Hx. apply nh_ext, Hfr. intros ->. apply (HA0 a Hx). left.
      * eapply hchain_frame; [|done]. intros x Hx. apply nh_ext, Hfr. intros ->. apply (Hdis a); [set_solver|done].
    + intros j l Hne Hj. destruct (Hch j l Hj) as (p' & Hp' & Hc'). exists p'. split; [done|].
      eapply hchain_frame; [|done]. intros x Hx. apply nh_ext, Hfr. intros ->. apply Hne.
      eapply (NoDup_concat_buckets bs j i l _ a); [done|done|done|done|set_solver].
Qed.

(** ** Lemmas: the table as a set of handles *)

Record table_rep (hp : heap) (t : HandleTable) (bs : list (list nat)) : Prop := {
  tr_pow : exists k, 2 <= k <= 31 /\ length_ t = 2 ^ k;
  tr_len : Z.of_nat (length bs) = length_ t;
  tr_chains : chains (nh hp) (list_ t) bs;
  tr_handles : forall i l a, bs !! i = Some l -> a ∈ l ->
    keyed hp a /\ exists e, hp !! a = Some e /\ is_u32 (hash e) /\ bucket (hash e) (length_ t) = i;
  tr_nodup : NoDup (concat bs);
  tr_elems : elems_ t = Zlength (concat bs);
  tr_load : elems_ t <= length_ t
}.

Definition unique_keys (hp : heap) (ids : list nat) : Prop :=
  forall a b k h, a ∈ ids -> b ∈ ids -> matches hp k h a -> matches hp k h b -> a = b.

(** The table holds the handles [ids], no two with one key. *)
Definition table_holds (hp : heap) (t : HandleTable) (ids : list nat) : Prop :=
  (exists bs, table_rep hp t bs /\ concat bs ≡ₚ ids) /\
  unique_keys hp ids.

(** The answer of a search. *)
Definition found (hp : heap) (ids : list nat) (k : bytes) (h : Z) (r : option nat) : Prop :=
  match r with
  | Some a => a ∈ ids /\ matches hp k h a
  | None => forall a, a ∈ ids -> ~ matches hp k h a
  end.

Definition without (r : option nat) (ids : list nat) : list nat :=
  match r with Some a => base.filter (fun x => x <> a) ids | None => ids end.

Lemma bucket_range h len k : is_u32 h -> 2 <= k <= 31 -> len = 2 ^ k -> (bucket h len < Z.to_nat len)%nat.
Proof.
  intros Hh Hk ->. unfold bucket. assert (0 < 2 ^ k < 2 ^ 32) as Hp.
  { split; [apply Z.pow_pos_nonneg; lia|]. apply Z.pow_lt_mono_r; lia. }
  unfold u32. rewrite Z.mod_small by lia. replace (2 ^ k - 1) with (Z.ones k) by (rewrite Z.ones_equiv; lia). rewrite Z.land_ones by lia.
  pose proof (Z.mod_pos_bound h (2 ^ k)). lia.
Qed.

Lemma chain_size (hp : heap) l : NoDup l -> (forall a, a ∈ l -> is_Some (hp !! a)) -> (length l <= size hp)%nat.
Proof.
  intros Hnd Hl. rewrite <- (size_list_to_set (C := gset nat) l) by done. rewrite <- size_dom.
  apply subseteq_size. intros a Ha%elem_of_list_to_set. apply elem_of_dom. auto.
Qed.

Lemma matches_keys hp k h k' h' a : matches hp k h a -> matches hp k' h' a -> k = k' /\ h = h'.
Proof. intros (e & He & <- & <-) (e' & He' & <- & <-). by simplify_eq. Qed.

(** [FindPointer] in a table. *)
Lemma FindPointer_ok hp t bs k h : table_rep hp t bs -> is_u32 h ->
  (forall a b, a ∈ concat bs -> b ∈ concat bs -> matches hp k h a -> matches hp k h b -> a = b) ->
  let i := bucket h (length_ t) in
  exists A B, bs !! i = Some (A ++ B) /\ FindPointer t hp k h = Some (slot_of (Bucket i) A) /\
    deref (list_ t) hp (slot_of (Bucket i) A) = Some (head B) /\ hchain (nh hp) (head B) B /\
    Forall (keyed hp) (A ++ B) /\ found hp (concat bs) k h (head B).
Proof.
  intros [(kk & Hk & Hpow) Hlen [Hl Hch] Hh Hnd _ _] Hu Huniq i.
  assert (i < length bs)%nat as Hi by (pose proof (bucket_range h (length_ t) kk Hu Hk Hpow); unfold i; lia).
  apply lookup_lt_is_Some in Hi as [l El]. destruct (Hch i l El) as (p & Hp & Hc).
  assert (Forall (keyed hp) l) as Hkeyed by (apply Forall_forall; intros a Ha; by apply (Hh i l a El Ha)).
  destruct (FindPointer_loop_ok (list_ t) hp k h (S (size hp)) (Bucket i) p l Hp Hc Hkeyed) as (A & B & -> & HA & HB & E & Hd & Hc').
  { apply Nat.lt_succ_r, chain_size; [by eapply NoDup_concat_bucket|]. intros a Ha. rewrite Forall_forall in Hkeyed.
    destruct (Hkeyed a Ha) as (e & He & _). eauto. }
  exists A, B. split_and!; try done. destruct (head B) as [b|] eqn:Eb; cbn.
  - split; [|by apply HB]. eapply in_concat_lookup; [exact El|]. destruct B; simplify_eq/=. set_solver.
  - intros a (l & Hl' & Ha)%list_elem_of_In%in_concat Hm. apply list_elem_of_In in Hl', Ha.
    apply list_elem_of_lookup in Hl' as [j Hj]. destruct (Hh j l a Hj Ha) as (_ & e & He & _ & Ej).
    assert (hash e = h) as Eh by (destruct Hm as (e' & He' & <- & _); congruence).
    rewrite Eh in Ej. fold i in Ej. subst j. rewrite El in Hj. injection Hj as <-.
    destruct B; [|done]. rewrite app_nil_r in Ha. rewrite Forall_forall in HA. by apply (HA a).
Qed.

Lemma HandleTable_Lookup_ok hp t ids k h : table_holds hp t ids -> is_u32 h ->
  exists r, HandleTable_Lookup t hp k h = Some r /\ found hp ids k h r.
Proof.
  intros [(bs & Hr & Hp) Hu] Hh.
  destruct (FindPointer_ok hp t bs k h Hr Hh) as (A & B & _ & E & Hd & _ & _ & Hf).
  { intros a b. rewrite Hp. eauto. }
  exists (head B). unfold HandleTable_Lookup. rewrite E. bind_simpl. split; [done|].
  destruct (head B); cbn in *; [by rewrite <- Hp|]. intros a Ha. apply Hf. by rewrite Hp.
Qed.

(** Replacing a bucket by one whose handles are known. *)
Lemma table_rep_splice hp hp' t bs ls' i l l' n : table_rep hp t bs -> bs !! i = Some l -> same hp hp' ->
  chains (nh hp') ls' (<[i := l']> bs) ->
  (forall a, a ∈ l' -> keyed hp a /\ exists e, hp !! a = Some e /\ is_u32 (hash e) /\ bucket (hash e) (length_ t) = i) ->
  NoDup (concat (<[i := l']> bs)) -> n = Zlength (concat (<[i := l']> bs)) -> n <= length_ t ->
  table_rep hp' (MkHandleTable (length_ t) n ls') (<[i := l']> bs).
Proof.
  intros [Hpow Hlen Hch Hh Hnd _ _] Hi Hs Hch' Hl' Hnd' Hn Hle. split; cbn [length_ elems_ list_]; try done.
  - by rewrite length_insert.
  - intros j lj a Hj Ha. assert (keyed hp a /\ exists e, hp !! a = Some e /\ is_u32 (hash e) /\ bucket (hash e) (length_ t) = j)
      as (Hk & e & He & Hu & Hb).
    { destruct (decide (j = i)) as [->|Hne].
      - rewrite list_lookup_insert_eq in Hj by (by eapply lookup_lt_Some). injection Hj as <-. auto.
      - rewrite list_lookup_insert_ne in Hj by done. eauto. }
    split; [by eapply same_keyed|]. destruct (same_some hp hp' a e Hs He) as [p Hp]. by exists (set_next_hash p e).
Qed.

Lemma filter_neq_app (A B : list nat) b : NoDup (A ++ b :: B) -> base.filter (fun x => x <> b) (A ++ b :: B) = A ++ B.
Proof.
  intros (_ & HA & [HB _]%NoDup_cons)%NoDup_app. rewrite filter_app, filter_cons_False by tauto.
  rewrite !filter_all; [done|intros x Hx ->; done|intros x Hx ->; apply (HA b Hx); left].
Qed.

Lemma without_perm ids b l : NoDup ids -> ids ≡ₚ b :: l -> without (Some b) ids ≡ₚ l.
Proof.
  intros Hnd Hp. cbn. rewrite Hp. rewrite Hp in Hnd. rewrite filter_cons_False by tauto.
  apply NoDup_cons in Hnd as [Hb _]. rewrite filter_all; [done|]. by intros x Hx ->.
Qed.

Lemma table_holds_sub hp hp' t' ids ids' bs : same hp hp' -> table_rep hp' t' bs -> concat bs ≡ₚ ids' -> ids' ⊆ ids ->
  (forall a b k h, a ∈ ids -> b ∈ ids -> matches hp k h a -> matches hp k h b -> a = b) -> table_holds hp' t' ids'.
Proof.
  intros Hs Hr Hp Hsub Hu. split; [by exists bs|]. intros a b k h Ha Hb Hma Hmb.
  apply same_sym in Hs. eapply (Hu a b k h); eauto using same_matches.
Qed.

Lemma HandleTable_Remove_ok hp t ids k h : table_holds hp t ids -> is_u32 h ->
  exists r t' hp', HandleTable_Remove t hp k h = Some (r, t', hp') /\ found hp ids k h r /\ same hp hp' /\
    table_holds hp' t' (without r ids) /\ forall x, x ∉ ids -> hp' !! x = hp !! x.
Proof.
  intros [(bs & Hr & Hp) Hu] Hh. pose proof Hr as [Hpow Hlen Hch Hhs Hnd Hel Hld].
  destruct (FindPointer_ok hp t bs k h Hr Hh) as (A & B & Hi & E & Hd & Hc & Hk & Hf); [intros a b; rewrite Hp; eauto|].
  set (i := bucket h (length_ t)) in *. unfold HandleTable_Remove. rewrite E. bind_simpl. rewrite Hd. bind_simpl.
  destruct B as [|b B]; cbn [head] in *.
  { exists None, t, hp. split_and!; [done| |by apply same_refl| |done].
    - intros a Ha. apply Hf. by rewrite Hp.
    - split; [by exists bs|done]. }
  destruct Hc as (_ & q & Hq & Hc). unfold nh in Hq. rewrite Hq. bind_simpl.
  pose proof (NoDup_concat_bucket bs i _ Hnd Hi) as Hndi.
  assert (forall x, x ∈ A -> x ∉ B) as Hdis.
  { intros x Hx HxB. apply NoDup_app in Hndi as (_ & HA & _). apply (HA x Hx). by right. }
  destruct (assign_ok hp (list_ t) bs i A (b :: B) B q Hch Hnd Hi Hk Hc Hdis) as (ls' & hp' & -> & Hs & Hch' & Hfr).
  bind_simpl. assert (concat (<[i := A ++ B]> bs) ++ [b] ≡ₚ concat bs) as Hperm.
  { pose proof (concat_insert_perm bs i _ (A ++ B) Hi) as H.
    apply (Permutation_app_inv_l (A ++ B)). transitivity (concat (<[i:=A ++ B]> bs) ++ (A ++ b :: B)); [solve_Permutation|].
    rewrite H. solve_Permutation. }
  assert (NoDup (concat (<[i := A ++ B]> bs))) as Hnd'.
  { rewrite <- Hperm in Hnd. by apply NoDup_app in Hnd as [? _]. }
  assert (Zlength (concat bs) = Zlength (concat (<[i := A ++ B]> bs)) + 1) as Hz.
  { unfold Zlength. rewrite <- Hperm, length_app. cbn. lia. }
  destruct Hpow as (kk & Hkk & Hpw). assert (length_ t <= 2 ^ 31) as Hb31 by (rewrite Hpw; apply Z.pow_le_mono_r; lia).
  exists (Some b), (MkHandleTable (length_ t) (u32 (elems_ t - 1)) ls'), hp'. split; [done|].
  split; [cbn; by rewrite <- Hp|]. split; [done|]. split.
  - assert (without (Some b) ids ≡ₚ concat (<[i := A ++ B]> bs)) as Hw.
    { apply without_perm; [by rewrite <- Hp|]. rewrite <- Hp, <- Hperm. solve_Permutation. }
    apply (table_holds_sub hp hp' _ ids _ (<[i := A ++ B]> bs)); [done| |by rewrite Hw| |done].
    + pose proof (Zlength_nonneg (concat (<[i := A ++ B]> bs))).
      apply (table_rep_splice hp hp' t bs ls' i (A ++ b :: B)); try done.
      * intros a Ha. apply (Hhs i (A ++ b :: B)); [done|set_solver].
      * unfold u32. rewrite Z.mod_small; lia.
      * unfold u32. rewrite Z.mod_small; lia.
    + cbn. intros x. by intros [_ ?]%list_elem_of_filter.
  - intros x Hx. apply Hfr. intros HxA. apply Hx. rewrite <- Hp. eapply in_concat_lookup; [exact Hi|set_solver].
Qed.

(** ** Lemmas: resizing *)

Lemma Resize_length_ok fuel j elems : 2 <= j <= 31 -> elems <= 2 ^ 31 -> 31 <= j + Z.of_nat fuel ->
  exists k, 2 <= k <= 31 /\ Resize_length fuel (2 ^ j) elems = Some (2 ^ k) /\ elems <= 2 ^ k.
Proof.
  revert j. induction fuel as [|fuel IH]; intros j Hj He Hf; cbn [Resize_length];
    destruct (Z.ltb_spec (2 ^ j) elems) as [Hlt|Hge]; [|by exists j| |by exists j].
  - assert (j = 31) as -> by lia. lia.
  - assert (j < 31) by (destruct (Z.eq_dec j 31) as [->|]; lia).
    replace (2 ^ j * 2) with (2 ^ (j + 1)) by (rewrite Z.pow_add_r; lia).
    assert (2 ^ (j + 1) < 2 ^ 32) by (apply Z.pow_lt_mono_r; lia).
    pose proof (Z.pow_pos_nonneg 2 (j + 1)). unfold u32. rewrite Z.mod_small by lia. apply IH; lia.
Qed.

(** Handle [a] belongs to bucket [i] of a table of [len] buckets. *)
Definition hashed (hp : heap) (len : Z) (i : nat) (a : nat) : Prop :=
  keyed hp a /\ exists e, hp !! a = Some e /\ is_u32 (hash e) /\ bucket (hash e) len = i.

Lemma same_hashed hp hp' len i a : same hp hp' -> hashed hp len i a -> hashed hp' len i a.
Proof.
  intros Hs (Hk & e & He & Hu). split; [by eapply same_keyed|].
  destruct (same_some hp hp' a e Hs He) as [p Hp]. by exists (set_next_hash p e).
Qed.

(** The new table while it is being filled. *)
Record filling (hp : heap) (len : Z) (ls : list (option nat)) (bs : list (list nat)) : Prop := {
  fi_len : Z.of_nat (length bs) = len;
  fi_chains : chains (nh hp) ls bs;
  fi_hashed : forall i l a, bs !! i = Some l -> a ∈ l -> hashed hp len i a
}.

Lemma Resize_chain_ok len k rem : 2 <= k <= 31 -> len = 2 ^ k -> forall fuel hp h ls bs count,
  filling hp len ls bs -> hchain (nh hp) h rem -> NoDup (rem ++ concat bs) ->
  (forall a, a ∈ rem -> keyed hp a /\ exists e, hp !! a = Some e /\ is_u32 (hash e)) ->
  (length rem <= fuel)%nat -> 0 <= count -> count + Zlength rem < 2 ^ 32 ->
  exists hp' ls' bs', Resize_chain fuel hp h ls len count = Some (hp', ls', count + Zlength rem) /\
    filling hp' len ls' bs' /\ concat bs' ≡ₚ rem ++ concat bs /\ same hp hp' /\ forall x, x ∉ rem -> hp' !! x = hp !! x.
Proof.
  intros Hk Hlen. induction rem as [|a rem IH]; intros fuel hp h ls bs count Hfi Hc Hnd Hin Hf Hc0 Hc1.
  - cbn in Hc. subst h. exists hp, ls, bs. replace (count + Zlength []) with count by (rewrite Zlength_nil; lia).
    destruct fuel; split_and!; by try apply same_refl.
  - destruct Hc as (-> & q & Hq & Hc). destruct fuel as [|fuel]; [cbn in Hf; lia|]. cbn [Resize_chain].
    destruct (Hin a ltac:(left)) as (Hka & e & He & Hu). rewrite He. bind_simpl.
    assert (next_hash e = q) as -> by (unfold nh in Hq; rewrite He in Hq; by injection Hq).
    destruct Hfi as [Hl [Hlb Hch] Hh]. assert (u32 (hash e) = hash e) as Eh by (by apply Z.mod_small). rewrite Eh. rewrite Zlength_cons in Hc1.
    set (i := bucket (hash e) len). assert (i < length bs)%nat as Hi by (pose proof (bucket_range (hash e) len k Hu Hk Hlen); unfold i; lia).
    destruct (lookup_lt_is_Some_2 bs i Hi) as [l El]. destruct (Hch i l El) as (p & Hp & Hcl). rewrite Hp. bind_simpl.
    destruct (upd_next_hash_ok hp a p ltac:(eauto)) as (hp1 & -> & Hs & Hna & Hfr). bind_simpl.
    cbn [app] in Hnd. apply NoDup_cons in Hnd as [Ha Hnd].
    assert (concat (<[i := a :: l]> bs) ≡ₚ a :: concat bs) as Hperm.
    { pose proof (concat_insert_perm bs i l (a :: l) El) as H. apply (Permutation_app_inv_r l). rewrite H. solve_Permutation. }
    assert (filling hp1 len (<[i := Some a]> ls) (<[i := a :: l]> bs)) as Hfi1.
    { split; [by rewrite length_insert|split; [by rewrite !length_insert|]|].
      - intros j lj Hj. destruct (decide (j = i)) as [->|Hne].
        + rewrite list_lookup_insert_eq in Hj by done. injection Hj as <-. exists (Some a).
          rewrite list_lookup_insert_eq by (rewrite Hlb; done). split; [done|]. split; [done|]. exists p. split; [done|].
          eapply hchain_frame; [|exact Hcl]. intros x Hx. apply nh_ext, Hfr. intros ->. apply Ha. apply elem_of_app. right.
          eapply in_concat_lookup; [exact El|done].
        + rewrite list_lookup_insert_ne in Hj by done. destruct (Hch j lj Hj) as (pj & Hpj & Hcj). exists pj.
          rewrite list_lookup_insert_ne by done. split; [done|].
          eapply hchain_frame; [|exact Hcj]. intros x Hx. apply nh_ext, Hfr. intros ->. apply Ha. apply elem_of_app. right.
          eapply in_concat_lookup; [exact Hj|done].
      - intros j lj b Hj Hb. apply (same_hashed hp hp1); [done|]. destruct (decide (j = i)) as [->|Hne].
        + rewrite list_lookup_insert_eq in Hj by done. injection Hj as <-.
          apply elem_of_cons in Hb as [->|Hb]; [|eauto]. split; [done|]. by exists e.
        + rewrite list_lookup_insert_ne in Hj by done. eauto. }
    assert (u32 (count + 1) = count + 1) as Eu.
    { pose proof (Zlength_nonneg rem). apply Z.mod_small. lia. }
    rewrite Eu, Zlength_cons.
    destruct (IH fuel hp1 q (<[i := Some a]> ls) (<[i := a :: l]> bs) (count + 1) Hfi1) as (hp' & ls' & bs' & E & Hfi' & Hp' & Hs' & Hfr').
    + eapply hchain_frame; [|exact Hc]. intros x Hx. apply nh_ext, Hfr. intros ->. apply Ha. set_solver.
    + rewrite Hperm. rewrite <- Permutation_middle. by constructor.
    + intros x Hx. destruct (Hin x ltac:(by right)) as (Hkx & ex & Hex & Hux). split; [by eapply same_keyed|].
      destruct (same_some hp hp1 x ex Hs Hex) as [px Hpx]. by exists (set_next_hash px ex).
    + cbn in Hf. lia.
    + lia.
    + lia.
    + exists hp', ls', bs'. split_and!; [rewrite E; do 2 f_equal; lia|done| |by eapply same_trans|].
      * rewrite Hp', Hperm. solve_Permutation.
      * intros x Hx. rewrite Hfr' by set_solver. apply Hfr. set_solver.
Qed.

Lemma filling_slot hp len ls bs i l : filling hp len ls bs -> bs !! i = Some l ->
  exists p, ls !! i = Some p /\ hchain (nh hp) p l.
Proof. intros [_ [_ Hch] _]. apply Hch. Qed.

Lemma Resize_buckets_ok len k obs : 2 <= k <= 31 -> len = 2 ^ k -> forall hp ols ls bs count,
  filling hp len ls bs -> chains (nh hp) ols obs -> NoDup (concat obs ++ concat bs) ->
  (forall a, a ∈ concat obs -> keyed hp a /\ exists e, hp !! a = Some e /\ is_u32 (hash e)) ->
  0 <= count -> count + Zlength (concat obs) < 2 ^ 32 ->
  exists hp' ls' bs', Resize_buckets ols hp ls len count = Some (hp', ls', count + Zlength (concat obs)) /\
    filling hp' len ls' bs' /\ concat bs' ≡ₚ concat obs ++ concat bs /\ same hp hp' /\
    forall x, x ∉ concat obs -> hp' !! x = hp !! x.
Proof.
  intros Hk Hlen. induction obs as [|o obs IH]; intros hp ols ls bs count Hfi [Hol Hch] Hnd Hin Hc0 Hc1.
  - destruct ols; [|done]. exists hp, ls, bs. cbn [concat]. rewrite Zlength_nil, Z.add_0_r. by split_and!; try apply same_refl.
  - destruct ols as [|h ols]; [done|]. cbn [Resize_buckets concat] in *. rewrite Zlength_app in *.
    pose proof (Zlength_nonneg (concat obs)). pose proof (Zlength_nonneg o).
    destruct (Hch 0%nat o eq_refl) as (p & [= ->] & Hc).
    assert (NoDup (o ++ concat bs) /\ (forall x, x ∈ o -> x ∉ concat obs)) as [Hnd1 Hdis].
    { rewrite <- app_assoc in Hnd. apply NoDup_app in Hnd as (H1 & H2 & H3). apply NoDup_app in H3 as (H3 & H4 & H5). split.
      - apply NoDup_app. split_and!; try done. intros x Hx Hx'. apply (H2 x Hx). set_solver.
      - intros x Hx Hx'. apply (H2 x Hx). set_solver. }
    destruct (Resize_chain_ok len k o Hk Hlen (size hp) hp p ls bs count) as (hp1 & ls1 & bs1 & E1 & Hfi1 & Hp1 & Hs1 & Hfr1);
      [done|done|done| | |lia|lia|].
    + intros a Ha. apply Hin. set_solver.
    + apply chain_size; [by apply NoDup_app in Hnd1 as [? _]|]. intros a Ha. destruct (Hin a ltac:(set_solver)) as (_ & e & He & _). eauto.
    + rewrite E1. bind_simpl.
      destruct (IH hp1 ols ls1 bs1 (count + Zlength o)) as (hp2 & ls2 & bs2 & E2 & Hfi2 & Hp2 & Hs2 & Hfr2); [done| | | |lia|lia|].
      * split; [by injection Hol|]. intros i l Hi. destruct (Hch (S i) l Hi) as (p' & Hp' & Hc'). exists p'. split; [done|].
        eapply hchain_frame; [|exact Hc']. intros x Hx. apply nh_ext, Hfr1. intros Hxo. apply (Hdis x Hxo).
        eapply in_concat_lookup; [exact Hi|done].
      * rewrite Hp1. by assert (concat obs ++ o ++ concat bs ≡ₚ (o ++ concat obs) ++ concat bs) as -> by solve_Permutation.
      * intros a Ha. destruct (Hin a ltac:(set_solver)) as (Hka & e & He & Hu). split; [by eapply same_keyed|].
        destruct (same_some hp hp1 a e Hs1 He) as [pa Hpa]. by exists (set_next_hash pa e).
      * exists hp2, ls2, bs2. split_and!; [rewrite E2; do 2 f_equal; lia|done| |by eapply same_trans|].
        -- rewrite Hp2, Hp1. solve_Permutation.
        -- intros x Hx. rewrite Hfr2 by set_solver. apply Hfr1. set_solver.
Qed.

(** What a table is before [Resize]: a [table_rep] that may be overfull, or the
    table under construction. *)
Record table_pre (hp : heap) (t : HandleTable) (bs : list (list nat)) : Prop := {
  tp_chains : chains (nh hp) (list_ t) bs;
  tp_handles : forall a, a ∈ concat bs -> keyed hp a /\ exists e, hp !! a = Some e /\ is_u32 (hash e);
  tp_nodup : NoDup (concat bs);
  tp_elems : elems_ t = Zlength (concat bs)
}.

Lemma concat_replicate_nil {A} n : concat (replicate n (@nil A)) = [].
Proof. by induction n. Qed.

Lemma Resize_ok hp t bs : table_pre hp t bs -> elems_ t <= 2 ^ 31 ->
  exists t' hp' bs', Resize t hp = Some (t', hp') /\ table_rep hp' t' bs' /\ concat bs' ≡ₚ concat bs /\ same hp hp' /\
    forall x, x ∉ concat bs -> hp' !! x = hp !! x.
Proof.
  intros [Hch Hin Hnd Hel] Hle. unfold Resize.
  destruct (Resize_length_ok 30 2 (elems_ t)) as (k & Hk & E & Hek); [lia|lia|lia|].
  change (2 ^ 2) with 4 in E. rewrite E. bind_simpl.
  assert (0 < 2 ^ k) by (apply Z.pow_pos_nonneg; lia).
  destruct (Resize_buckets_ok (2 ^ k) k bs Hk eq_refl hp (list_ t) (replicate (Z.to_nat (2 ^ k)) None)
    (replicate (Z.to_nat (2 ^ k)) []) 0) as (hp' & ls' & bs' & E' & [Hl' Hch' Hh'] & Hp' & Hs & Hfr).
  - split.
    + rewrite length_replicate. lia.
    + split; [by rewrite !length_replicate|]. intros i l Hi. apply lookup_replicate in Hi as [-> Hi].
      exists None. split; [by apply lookup_replicate_2|done].
    + intros i l a Hi. apply lookup_replicate in Hi as [-> _]. by intros ?%elem_of_nil.
  - done.
  - by rewrite concat_replicate_nil, app_nil_r.
  - done.
  - lia.
  - lia.
  - rewrite E'. bind_simpl. rewrite Z.add_0_l, Hel, Z.eqb_refl. rewrite concat_replicate_nil, app_nil_r in Hp'.
    do 3 eexists. split; [done|]. split_and!; try done. split; cbn [length_ elems_ list_]; try done.
    + by exists k.
    + by rewrite Hp'.
    + unfold Zlength. by rewrite Hp'.
    + by rewrite <- Hel.
Qed.

Lemma HandleTable_new_ok hp : exists t hp', HandleTable_new hp = Some (t, hp') /\ hp' = hp /\ table_holds hp' t [].
Proof.
  unfold HandleTable_new. destruct (Resize_ok hp (MkHandleTable 0 0 []) []) as (t & hp' & bs & E & Hr & Hp & Hs & Hfr).
  - split; cbn; [|set_solver|constructor|done]. split; [done|]. intros i l Hi. by rewrite lookup_nil in Hi.
  - cbn. lia.
  - exists t, hp'. split_and!; [done| |].
    + apply map_eq. intros x. apply Hfr. set_solver.
    + split; [by exists bs|]. intros a b k h Ha. by apply elem_of_nil in Ha.
Qed.

Lemma nh_upd (hp : heap) a p q : nh hp a = Some q -> exists hp', upd hp a (set_next_hash p) = Some hp' /\ same hp hp' /\
  nh hp' a = Some p /\ forall x, x <> a -> hp' !! x = hp !! x.
Proof. intros H. apply upd_next_hash_ok. unfold nh in H. destruct (hp !! a); [eauto|done]. Qed.

Lemma matches_same (hp hp' : heap) k h a : same hp hp' -> (matches hp k h a <-> matches hp' k h a).
Proof. intros Hs. split; [by apply same_matches|apply same_matches; by apply same_sym]. Qed.

Lemma same_unique (hp hp' : heap) ids : same hp hp' -> unique_keys hp ids -> unique_keys hp' ids.
Proof. intros Hs Hu a b k h Ha Hb Hma Hmb. apply (matches_same hp) in Hma, Hmb; [|done..]. by apply (Hu a b k h). Qed.

Lemma without_sub r ids : without r ids ⊆ ids.
Proof. destruct r; cbn; [intros x [_ ?]%list_elem_of_filter|]; done. Qed.

(** The handle [h] takes the place of the one found. *)
Lemma insert_perm ids bs i (A B : list nat) h : NoDup ids -> concat bs ≡ₚ ids -> bs !! i = Some (A ++ B) ->
  (forall b, head B = Some b -> b ∈ ids) -> concat (<[i := A ++ h :: tail B]> bs) ≡ₚ h :: without (head B) ids.
Proof.
  intros Hnd Hp Hi HB. pose proof (concat_insert_perm bs i _ (A ++ h :: tail B) Hi) as H. rewrite Hp in H.
  destruct B as [|b B]; cbn [head tail without] in *.
  - rewrite app_nil_r in H. apply (Permutation_app_inv_r A). rewrite H. solve_Permutation.
  - assert (ids ≡ₚ b :: base.filter (fun x => x <> b) ids) as Hb.
    { destruct (list_elem_of_split _ _ (HB b eq_refl)) as (l1 & l2 & El). subst ids. rewrite filter_neq_app by done. solve_Permutation. }
    apply (Permutation_app_inv_r (A ++ b :: B)). rewrite H. rewrite Hb at 1. solve_Permutation.
Qed.

Lemma insert_unique (hp : heap) ids h (e : handle) o : unique_keys hp ids -> hp !! h = Some e ->
  found hp ids (key_data e) (hash e) o -> unique_keys hp (h :: without o ids).
Proof.
  intros Hu He Hf. pose proof (without_sub o ids) as Hsub.
  assert (forall b k h0, b ∈ without o ids -> matches hp k h0 h -> matches hp k h0 b -> h = b) as Hhb.
  { intros b k h0 Hb Hmh Hmb. assert (matches hp (key_data e) (hash e) h) as Hme by (by exists e).
    destruct (matches_keys _ _ _ _ _ _ Hme Hmh) as [<- <-]. destruct o as [o|]; cbn in Hf, Hb.
    - apply list_elem_of_filter in Hb as [Hne Hb]. destruct Hne. destruct Hf as [Ho Hmo]. by eapply Hu.
    - by destruct (Hf b Hb). }
  intros a b k h0 Ha Hb Hma Hmb.
  apply elem_of_cons in Ha as [->|Ha], Hb as [->|Hb]; [done|by eapply Hhb|symmetry; by eapply Hhb|eapply Hu; eauto].
Qed.

(** [HandleTable::Insert]: the handle takes the place of the one with its key. *)
Lemma HandleTable_Insert_ok (hp : heap) t ids h (e : handle) : table_holds hp t ids -> h ∉ ids -> keyed hp h -> hp !! h = Some e ->
  is_u32 (hash e) -> Zlength ids < 2 ^ 31 ->
  exists r t' hp', HandleTable_Insert t hp h = Some (r, t', hp') /\ found hp ids (key_data e) (hash e) r /\ same hp hp' /\
    table_holds hp' t' (h :: without r ids) /\ forall x, x ∉ h :: ids -> hp' !! x = hp !! x.
Proof.
  intros [(bs & Hr & Hp) Hu] Hh Hkh He Hue Hsz. pose proof Hr as [Hpow Hlen Hch Hhs Hnd Hel Hld].
  destruct (FindPointer_ok hp t bs (key_data e) (hash e) Hr Hue) as (A & B & Hi & E & Hd & Hc & Hk & Hf); [intros a b; rewrite Hp; eauto|].
  set (i := bucket (hash e) (length_ t)) in *. unfold HandleTable_Insert. rewrite He. bind_simpl.
  assert (key h e = Some (key_data e)) as ->.
  { destruct Hkh as (e' & He' & Hne). unfold key. by rewrite decide_False by congruence. }
  bind_simpl. rewrite (u32_small (hash e)) by done. rewrite E. bind_simpl. rewrite Hd. bind_simpl.
  assert (found hp ids (key_data e) (hash e) (head B)) as Hf'.
  { destruct (head B); cbn in *; [by rewrite <- Hp|]. intros a Ha. apply Hf. by rewrite Hp. }
  assert (NoDup ids) as Hndi by (by rewrite <- Hp).
  assert (h ∉ A ++ B) as HhAB by (intros HAB; apply Hh; rewrite <- Hp; by eapply in_concat_lookup).
  assert (exists q, (match head B with None => Some None | Some o => next_hash <$> hp !! o end) = Some q /\
    hchain (nh hp) q (tail B)) as (q & Eq & Hcq).
  { destruct B as [|b B]; cbn [head tail] in *; [by exists None|]. destruct Hc as (_ & q & Hq & Hcq). by exists q. }
  rewrite Eq. bind_simpl. destruct (upd_next_hash_ok hp h q ltac:(eauto)) as (hp1 & -> & Hs1 & Hn1 & Hfr1). bind_simpl.
  pose proof (NoDup_concat_bucket bs i _ Hnd Hi) as HndAB.
  assert (forall x, x ∈ A -> x ∉ h :: tail B) as Hdis.
  { intros x Hx [->|HxB]%elem_of_cons; [set_solver|]. apply NoDup_app in HndAB as (_ & HA & _). apply (HA x Hx).
    destruct B; [by apply elem_of_nil in HxB|by right]. }
  destruct (assign_ok hp1 (list_ t) bs i A B (h :: tail B) (Some h)) as (ls' & hp2 & E2 & Hs2 & Hch2 & Hfr2); [|done|done| | |done|].
  { destruct Hch as [Hl Hch]. split; [done|]. intros j l Hj. destruct (Hch j l Hj) as (p & Hp' & Hcp). exists p. split; [done|].
    eapply hchain_frame; [|exact Hcp]. intros x Hx. apply nh_ext, Hfr1. intros ->. apply Hh. rewrite <- Hp. by eapply in_concat_lookup. }
  { eapply Forall_impl; [exact Hk|]. intros x. by apply same_keyed. }
  { split; [done|]. exists q. split; [done|]. eapply hchain_frame; [|exact Hcq]. intros x Hx. apply nh_ext, Hfr1. intros ->.
    apply HhAB, elem_of_app. right. destruct B; [done|by right]. }
  rewrite E2. bind_simpl. pose proof (same_trans _ _ _ Hs1 Hs2) as Hs.
  assert (concat (<[i := A ++ h :: tail B]> bs) ≡ₚ h :: without (head B) ids) as Hperm.
  { apply insert_perm; [done|done|done|]. intros b Eb. rewrite Eb in Hf'. by apply Hf'. }
  assert (NoDup (h :: without (head B) ids)) as Hnd'.
  { apply NoDup_cons. destruct (head B); cbn; [|done]. split; [|by apply NoDup_filter].
    by intros [_ ?]%list_elem_of_filter. }
  assert (unique_keys hp2 (h :: without (head B) ids)) as Hu'
    by (apply (same_unique hp); [done|]; by apply (insert_unique hp ids h e)).
  assert (forall x, x ∉ h :: ids -> hp2 !! x = hp !! x) as Hfr.
  { intros x Hx. rewrite Hfr2, Hfr1; [done|set_solver|]. intros HxA. apply Hx. right. rewrite <- Hp.
    eapply in_concat_lookup; [exact Hi|set_solver]. }
  assert (forall a, a ∈ A ++ h :: tail B -> hashed hp (length_ t) i a) as Hin.
  { intros a Ha. assert (a = h \/ a ∈ A ++ B) as [->|HaAB].
    { apply elem_of_app in Ha as [?|[?|Ha]%elem_of_cons]; [set_solver|by left|]. right. apply elem_of_app. right. destruct B; [done|by right]. }
    - split; [done|]. by exists e.
    - by apply (Hhs i (A ++ B)). }
  exists (head B). destruct (head B) as [b|] eqn:Eb.
  - exists (MkHandleTable (length_ t) (elems_ t) ls'), hp2. split_and!; try done. split; [|done].
    exists (<[i := A ++ h :: tail B]> bs). split; [|done].
    assert (Zlength (concat (<[i := A ++ h :: tail B]> bs)) = elems_ t) as Ez.
    { rewrite Hel. unfold Zlength. rewrite Hperm. cbn [length without].
      assert (b ∈ ids) as (l1 & l2 & El)%list_elem_of_split by (apply Hf'). subst ids. rewrite filter_neq_app by done.
      f_equal. rewrite Hp. rewrite !length_app. cbn. lia. }
    apply (table_rep_splice hp hp2 t bs ls' i (A ++ B)); try done. by rewrite Hperm.
  - destruct B; [|done]. cbn [tail without] in *.
    assert (Zlength (concat (<[i := A ++ [h]]> bs)) = elems_ t + 1) as Ez.
    { rewrite Hel. unfold Zlength. rewrite Hperm. cbn [length without]. rewrite Hp. lia. }
    assert (elems_ t = Zlength ids) as Ei by (rewrite Hel; unfold Zlength; by rewrite Hp).
    pose proof (Zlength_nonneg ids). assert (u32 (elems_ t + 1) = elems_ t + 1) as Eu by (apply u32_small; unfold is_u32; lia).
    rewrite Eu. cbn [length_ elems_]. rewrite Z.gtb_ltb. destruct (Z.ltb_spec (length_ t) (elems_ t + 1)) as [Hgt|Hle].
    + destruct (Resize_ok hp2 (MkHandleTable (length_ t) (elems_ t + 1) ls') (<[i := A ++ [h]]> bs))
        as (t3 & hp3 & bs3 & E3 & Hr3 & Hp3 & Hs3 & Hfr3); [|cbn [elems_]; lia|].
      { split; cbn [list_ elems_]; [done| |by rewrite Hperm|done]. intros a Ha.
        apply list_elem_of_In, in_concat in Ha as (l & Hl & Ha). apply list_elem_of_In in Hl, Ha.
        apply list_elem_of_lookup in Hl as [j Hj].
        assert (hashed hp (length_ t) j a) as Hha.
        { destruct (decide (j = i)) as [->|Hne].
          - rewrite list_lookup_insert_eq in Hj by (by eapply lookup_lt_Some). injection Hj as <-. by apply Hin.
          - rewrite list_lookup_insert_ne in Hj by done. by apply (Hhs j l). }
        apply (same_hashed hp hp2) in Hha as (? & e' & ? & ? & _); [|done]. eauto. }
      rewrite E3. bind_simpl. exists t3, hp3. pose proof (same_trans _ _ _ Hs Hs3) as Hs'. split_and!; try done.
      * apply (table_holds_sub hp2 hp3 t3 (h :: ids) (h :: ids) bs3); try done. by rewrite Hp3, Hperm.
      * intros x Hx. rewrite Hfr3; [by apply Hfr|]. by rewrite Hperm.
    + exists (MkHandleTable (length_ t) (elems_ t + 1) ls'), hp2. split_and!; try done. split; [|done].
      exists (<[i := A ++ [h]]> bs). split; [|done].
      apply (table_rep_splice hp hp2 t bs ls' i (A ++ [])); try done. by rewrite Hperm.
Qed.

End Table.
