(* ===== verification/CacheStore.v ===== *)
(** The store of a shard of the LRU cache (util/cache.cpp), one step at a time.

    [phys] relates a store to the LRU list, the handles in the hash table and the
    entries with their reference counts; each step of an operation (linking,
    unlinking, counting, allocating, freeing, changing the table) changes one of
    them. *)

From Stdlib Require Import ZArith Lia List Bool.
From S2P Require Import Prelude Lists DList Slice Hashing Cache.
Import LRU.

Record entry (V D : Type) := MkEntry { e_key : bytes; e_hash : Z; e_value : V; e_charge : Z; e_deleter : D }.
Arguments MkEntry {V D}.
Arguments e_key {V D}.
Arguments e_hash {V D}.
Arguments e_value {V D}.
Arguments e_charge {V D}.
Arguments e_deleter {V D}.

Section Phys.
Context {V D : Type}.
Abbreviation handle := (LRUHandle V D).
Abbreviation heap := (gmap nat handle).
Abbreviation cells := (nat -> option (entry V D * Z)).

Definition entry_of (h : handle) : entry V D := MkEntry (key_data h) (hash h) (value h) (charge h) (deleter h).

Definition nxt (hp : heap) (a : nat) : option nat := next <$> hp !! a.
Definition prv (hp : heap) (a : nat) : option nat := prev <$> hp !! a.

(** The LRU list is [order], the table holds [ids], and the handles of [cell] have
    these entries and reference counts. *)
Record phys (hp : heap) (lru : nat) (order ids : list nat) (cell : cells) (t : HandleTable) : Prop := {
  ph_ring : ring (nxt hp) (prv hp) lru order;
  ph_table : table_holds hp t ids;
  ph_cell : forall a x r, cell a = Some (x, r) ->
    exists h, hp !! a = Some h /\ entry_of h = x /\ refs h = r /\ next h <> a /\ is_u32 (hash h);
  ph_order : forall a, a ∈ order -> is_Some (cell a);
  ph_ids : forall a, a ∈ ids -> is_Some (cell a);
  ph_lru : cell lru = None
}.

(** The addresses a shard may write. *)
Definition foot (lru : nat) (cell : cells) (a : nat) : Prop := a = lru \/ is_Some (cell a).

Definition keeps (lru : nat) (cell : cells) (hp hp' : heap) : Prop := forall x, ~ foot lru cell x -> hp' !! x = hp !! x.

Definition cell_set (cell : cells) (a : nat) (v : option (entry V D * Z)) : cells := fun b => if decide (b = a) then v else cell b.

Lemma store_keeps_trans lru cell hp1 hp2 hp3 : keeps lru cell hp1 hp2 -> keeps lru cell hp2 hp3 -> keeps lru cell hp1 hp3.
Proof. intros H1 H2 x Hx. by rewrite H2, H1. Qed.

Lemma phys_ext hp lru order ids cell cell' t : (forall a, cell' a = cell a) -> phys hp lru order ids cell t ->
  phys hp lru order ids cell' t.
Proof. intros E [H1 H2 H3 H4 H5 H6]. split; [done|done|..]; intros *; rewrite E; auto. Qed.

Lemma table_holds_perm (hp : heap) t ids ids' : ids ≡ₚ ids' -> table_holds hp t ids -> table_holds hp t ids'.
Proof.
  intros Hp [(bs & Hr & Hb) Hu]. split; [exists bs; split; [done|by rewrite Hb]|]. intros a b k h. rewrite <- !Hp. apply Hu.
Qed.

Lemma phys_perm hp lru order ids ids' (cell : cells) t : ids ≡ₚ ids' -> phys hp lru order ids cell t -> phys hp lru order ids' cell t.
Proof. intros Hp [H1 H2 H3 H4 H5 H6]. split; try done; [by eapply table_holds_perm|]. intros a. rewrite <- Hp. apply H5. Qed.

(** The table looks at these fields only. *)
Definition tkey (h : handle) : option nat * Z * bytes := (next_hash h, hash h, key_data h).

Lemma table_holds_ext (hp hp' : heap) t ids : (forall a, a ∈ ids -> keyed hp' a) ->
  (forall a, a ∈ ids -> tkey <$> hp' !! a = tkey <$> hp !! a) -> table_holds hp t ids -> table_holds hp' t ids.
Proof.
  intros Hk Ht [(bs & [Hpow Hlen [Hl Hch] Hh Hnd Hel Hld] & Hp) Hu].
  assert (forall a k h, a ∈ ids -> matches hp' k h a -> matches hp k h a) as Hm.
  { intros a k h Ha (e & He & <- & <-). specialize (Ht a Ha). rewrite He in Ht.
    destruct (hp !! a) as [e'|] eqn:E'; [|done]. exists e'. injection Ht. done. }
  assert (forall i l a, bs !! i = Some l -> a ∈ l -> a ∈ ids) as Hin by (intros i l a Hi Ha; rewrite <- Hp; by eapply in_concat_lookup).
  split; [|intros a b k h Ha Hb Hma Hmb; apply (Hu a b k h); auto].
  exists bs. split; [|done]. split; try done.
  - split; [done|]. intros i l Hi. destruct (Hch i l Hi) as (p & Hpi & Hc). exists p. split; [done|].
    eapply hchain_frame; [|exact Hc]. intros a Ha. specialize (Ht a ltac:(eauto)). unfold nh.
    destruct (hp !! a) as [e|], (hp' !! a) as [e'|]; try done. cbn in *. by injection Ht as -> _ _.
  - intros i l a Hi Ha. split; [eauto|]. destruct (Hh i l a Hi Ha) as (_ & e & He & Hue & Hb). specialize (Ht a ltac:(eauto)).
    rewrite He in Ht. destruct (hp' !! a) as [e'|]; [|done]. exists e'. injection Ht as _ -> _. done.
Qed.

Lemma ring_next_ne nx pv hd l x : ring nx pv hd l -> x ∈ l -> exists n, nx x = Some n /\ n <> x.
Proof.
  intros Hr (l1 & l2 & ->)%list_elem_of_split.
  destruct (ring_around _ _ _ _ _ _ Hr) as (_ & _ & n & _ & _ & _ & _ & _ & [Hn _] & _ & _ & Hne). eauto.
Qed.

Lemma foot_ring lru order ids (cell : cells) hp t x : phys hp lru order ids cell t -> x ∈ lru :: order -> foot lru cell x.
Proof. intros Hp [->|Hx]%elem_of_cons; [by left|]. right. by apply Hp. Qed.

Lemma foot_alloc lru order ids (cell : cells) hp t x : phys hp lru order ids cell t -> foot lru cell x -> is_Some (hp !! x).
Proof.
  intros Hp [->|[[e r] Hx]].
  - pose proof (ring_first _ _ _ _ (ph_ring _ _ _ _ _ _ Hp)) as H. unfold nxt in H. destruct (hp !! lru); [eauto|done].
  - destruct (ph_cell _ _ _ _ _ _ Hp x e r Hx) as (h & -> & _). eauto.
Qed.

(** *** Links *)

(** Everything but the links. *)
Definition unlinked (h : handle) : handle := set_next 0 (set_prev 0 h).

Definition relinked (hp hp' : heap) : Prop := forall a, unlinked <$> hp' !! a = unlinked <$> hp !! a.

Lemma relinked_trans hp1 hp2 hp3 : relinked hp1 hp2 -> relinked hp2 hp3 -> relinked hp1 hp3.
Proof. intros H1 H2 a. by rewrite H2, H1. Qed.

Lemma relinked_dom hp hp' : relinked hp hp' -> dom hp' = dom hp.
Proof.
  intros Hr. apply set_eq. intros a. rewrite !elem_of_dom. specialize (Hr a).
  destruct (hp !! a), (hp' !! a); try done; split; intros [? ?]; done.
Qed.

Lemma upd_next_ok (hp : heap) a b : is_Some (hp !! a) -> exists hp', upd hp a (set_next b) = Some hp' /\ relinked hp hp' /\
  (forall x, nxt hp' x = if decide (x = a) then Some b else nxt hp x) /\ (forall x, prv hp' x = prv hp x) /\
  forall x, x <> a -> hp' !! x = hp !! x.
Proof.
  intros [h Hh]. unfold upd. rewrite Hh. bind_simpl. eexists. split; [done|].
  split_and!; intros x; try (intros Hx; by rewrite lookup_insert_ne); unfold nxt, prv;
    destruct (decide (x = a)) as [->|Hx]; rewrite ?lookup_insert_eq, ?lookup_insert_ne, ?Hh by done; done.
Qed.

Lemma upd_prev_ok (hp : heap) a b : is_Some (hp !! a) -> exists hp', upd hp a (set_prev b) = Some hp' /\ relinked hp hp' /\
  (forall x, nxt hp' x = nxt hp x) /\ (forall x, prv hp' x = if decide (x = a) then Some b else prv hp x) /\
  forall x, x <> a -> hp' !! x = hp !! x.
Proof.
  intros [h Hh]. unfold upd. rewrite Hh. bind_simpl. eexists. split; [done|].
  split_and!; intros x; try (intros Hx; by rewrite lookup_insert_ne); unfold nxt, prv;
    destruct (decide (x = a)) as [->|Hx]; rewrite ?lookup_insert_eq, ?lookup_insert_ne, ?Hh by done; done.
Qed.

Lemma relinked_is_Some hp hp' a : relinked hp hp' -> is_Some (hp !! a) -> is_Some (hp' !! a).
Proof. intros Hr [h Hh]. specialize (Hr a). rewrite Hh in Hr. destruct (hp' !! a); [eauto|done]. Qed.

Lemma relinked_field {T} (f : handle -> T) (hp hp' : heap) a h : (forall h, f (unlinked h) = f h) -> relinked hp hp' ->
  hp !! a = Some h -> exists h', hp' !! a = Some h' /\ f h' = f h.
Proof.
  intros Hf Hr Ha. specialize (Hr a). rewrite Ha in Hr. destruct (hp' !! a) as [h'|]; [|done]. exists h'. split; [done|].
  injection Hr as E. rewrite <- Hf, <- (Hf h). cbn. destruct h, h'. unfold unlinked. cbn in *. by simplify_eq.
Qed.

(** New links between the handles. *)
Lemma phys_relink hp hp' lru order order' ids (cell : cells) t : phys hp lru order ids cell t -> relinked hp hp' ->
  ring (nxt hp') (prv hp') lru order' -> (forall a, a ∈ order' -> is_Some (cell a)) ->
  (forall a, is_Some (cell a) -> a ∉ order' -> nxt hp' a = nxt hp a) -> phys hp' lru order' ids cell t.
Proof.
  intros [Hr Ht Hc Ho Hi Hl] Hre Hr' Ho' Hn.
  assert (forall a x r, cell a = Some (x, r) ->
    exists h, hp' !! a = Some h /\ entry_of h = x /\ refs h = r /\ next h <> a /\ is_u32 (hash h)) as Hc'.
  { intros a x r Ha. destruct (Hc a x r Ha) as (h & Hh & Hx & Hrr & Hne & Hu).
    destruct (relinked_field (fun h => (entry_of h, refs h, hash h)) hp hp' a h) as (h' & Hh' & E); [by intros []|done|done|].
    injection E as E1 E2 E3 E4 E5 E6. exists h'. split_and!; try done.
    - unfold entry_of in *. congruence.
    - congruence.
    - destruct (decide (a ∈ order')) as [Hin|Hout].
      + destruct (ring_next_ne _ _ _ _ _ Hr' Hin) as (n & En & Hna). unfold nxt in En. rewrite Hh' in En. cbn in En. congruence.
      + specialize (Hn a ltac:(eauto) Hout). unfold nxt in Hn. rewrite Hh, Hh' in Hn. cbn in Hn. congruence.
    - congruence. }
  split; try done. apply (table_holds_ext hp); [| |done].
  - intros a Ha. destruct (Hi a Ha) as [[x r] Ex]. destruct (Hc' a x r Ex) as (h & Hh & _ & _ & Hne & _). by exists h.
  - intros a Ha. destruct (Hi a Ha) as [[x r] Ex]. destruct (Hc a x r Ex) as (h & Hh & _).
    destruct (relinked_field tkey hp hp' a h) as (h' & Hh' & E); [by intros []|done|done|]. rewrite Hh, Hh'. cbn. by rewrite E.
Qed.

Lemma LRU_Remove_ok hp lru l1 e l2 ids (cell : cells) t : phys hp lru (l1 ++ e :: l2) ids cell t ->
  exists hp', LRU_Remove hp e = Some hp' /\ phys hp' lru (l1 ++ l2) ids cell t /\ keeps lru cell hp hp' /\ relinked hp hp'.
Proof.
  intros Hph. pose proof (ph_ring _ _ _ _ _ _ Hph) as Hr.
  destruct (ring_around _ _ _ _ _ _ Hr) as (pre & p & n & post & E1 & E2 & _ & [_ Hp] & [Hn _] & _ & Hpe & Hne).
  assert (forall x, x ∈ lru :: l1 ++ e :: l2 -> is_Some (hp !! x)) as Hin
    by (intros x Hx; eapply foot_alloc; [exact Hph|by eapply foot_ring]).
  assert (p ∈ lru :: l1) as Hpin by (rewrite E1; set_solver).
  assert (n ∈ lru :: l2) as Hnin by (assert (n ∈ l2 ++ [lru]) by (rewrite E2; left); set_solver).
  destruct (upd_prev_ok hp n p) as (hp1 & U1 & R1 & N1 & P1 & F1); [apply Hin; set_solver|].
  destruct (upd_next_ok hp1 p n) as (hp2 & U2 & R2 & N2 & P2 & F2); [eapply relinked_is_Some; [exact R1|apply Hin; set_solver]|].
  pose proof (N1 e) as N1e. pose proof (P1 e) as P1e. rewrite decide_False in P1e by done.
  pose proof (relinked_trans _ _ _ R1 R2) as R. unfold nxt, prv in N1e, P1e, Hn, Hp.
  exists hp2. split; [|split; [|split]].
  - unfold LRU_Remove. rewrite Hn, Hp. bind_simpl. rewrite U1. bind_simpl. rewrite P1e, Hp. bind_simpl. rewrite N1e, Hn. done.
  - assert (NoDup (l1 ++ e :: l2)) as Hnd by (destruct Hr as [_ Hnd]; by apply NoDup_cons in Hnd as [_ ?]).
    apply (phys_relink hp hp2 lru (l1 ++ e :: l2)); [done|done| | |].
    + apply (ring_remove (nxt hp) (prv hp) _ _ lru l1 e l2 p n); [done|done|done| |]; intros x _.
      * by rewrite N2, N1.
      * by rewrite P2, P1.
    + intros a Ha. apply (ph_order _ _ _ _ _ _ Hph). set_solver.
    + intros a Ha Hna. rewrite N2, N1, decide_False; [done|]. intros ->. apply elem_of_cons in Hpin as [->|?]; [|set_solver].
      rewrite (ph_lru _ _ _ _ _ _ Hph) in Ha. by destruct Ha.
  - intros x Hx. assert (x ∉ lru :: l1 ++ e :: l2) as Hx' by (intros ?; apply Hx; by eapply foot_ring).
    rewrite F2, F1; [done| |]; intros ->; set_solver.
  - done.
Qed.

Lemma LRU_Append_ok (c : LRUCache) hp order e ids (cell : cells) t : phys hp (lru_ c) order ids cell t -> e ∉ order -> is_Some (cell e) ->
  exists hp', LRU_Append c hp e = Some hp' /\ phys hp' (lru_ c) (order ++ [e]) ids cell t /\ keeps (lru_ c) cell hp hp' /\ relinked hp hp'.
Proof.
  intros Hph He Hce. set (lru := lru_ c) in *. pose proof (ph_ring _ _ _ _ _ _ Hph) as Hr.
  destruct (ring_last _ _ _ _ Hr) as (pre & p & E1 & _ & [Hn Hp]).
  assert (e <> lru) as Hel by (intros ->; rewrite (ph_lru _ _ _ _ _ _ Hph) in Hce; by destruct Hce).
  assert (forall x, foot lru cell x -> is_Some (hp !! x)) as Hin by (intros x Hx; by eapply foot_alloc).
  assert (p ∈ lru :: order) as Hpin by (rewrite E1; set_solver). assert (p <> e) as Hpe by set_solver.
  destruct (upd_next_ok hp e lru) as (hp1 & U1 & R1 & N1 & P1 & F1); [apply Hin; by right|].
  destruct (upd_prev_ok hp1 e p) as (hp2 & U2 & R2 & N2 & P2 & F2); [eapply relinked_is_Some; [exact R1|apply Hin; by right]|].
  pose proof (relinked_trans _ _ _ R1 R2) as R12.
  destruct (upd_next_ok hp2 p e) as (hp3 & U3 & R3 & N3 & P3 & F3); [eapply relinked_is_Some; [exact R12|apply Hin; by eapply foot_ring]|].
  pose proof (relinked_trans _ _ _ R12 R3) as R13.
  destruct (upd_prev_ok hp3 lru e) as (hp4 & U4 & R4 & N4 & P4 & F4); [eapply relinked_is_Some; [exact R13|apply Hin; by left]|].
  pose proof (relinked_trans _ _ _ R13 R4) as R.
  assert (forall x, nxt hp4 x = if decide (x = p) then Some e else if decide (x = e) then Some lru else nxt hp x) as HN
    by (intros x; by rewrite N4, N3, N2, N1).
  assert (forall x, prv hp4 x = if decide (x = lru) then Some e else if decide (x = e) then Some p else prv hp x) as HP
    by (intros x; by rewrite P4, P3, P2, P1).
  exists hp4. split; [|split; [|split]].
  - unfold LRU_Append. fold lru. rewrite U1. bind_simpl. pose proof (P1 lru) as E. rewrite Hp in E. unfold prv in E. rewrite E.
    bind_simpl. rewrite U2. bind_simpl. pose proof (P2 e) as E'. rewrite decide_True in E' by done. unfold prv in E'. rewrite E'.
    bind_simpl. rewrite U3. bind_simpl. pose proof (N3 e) as E3. rewrite decide_False, N2, N1, decide_True in E3 by done.
    unfold nxt in E3. rewrite E3. done.
  - apply (phys_relink hp hp4 lru order); [done|done| | |].
    + apply (ring_append (nxt hp) (prv hp) _ _ lru order e p); [done|set_solver|done|intros x _; apply HN|intros x _; apply HP].
    + intros a [Ha| ->%list_elem_of_singleton]%elem_of_app; [by apply (ph_order _ _ _ _ _ _ Hph)|done].
    + intros a Ha Hna. rewrite HN, decide_False, decide_False; [done|set_solver|]. intros ->.
      apply elem_of_cons in Hpin as [->|?]; [|set_solver]. rewrite (ph_lru _ _ _ _ _ _ Hph) in Ha. by destruct Ha.
  - intros x Hx. assert (x <> e) by (intros ->; apply Hx; by right). assert (x <> lru) by (intros ->; apply Hx; by left).
    assert (x <> p) by (intros ->; apply Hx; by eapply foot_ring). by rewrite F4, F3, F2, F1.
  - done.
Qed.

(** *** Counts, allocation, the table *)

Lemma nxt_insert_eq (hp : heap) a h h' : hp !! a = Some h -> next h' = next h -> forall x, nxt (<[a := h']> hp) x = nxt hp x.
Proof.
  intros Ha Hn x. unfold nxt. destruct (decide (x = a)) as [->|Hx]; [|by rewrite lookup_insert_ne].
  rewrite lookup_insert_eq, Ha. cbn. by rewrite Hn.
Qed.

Lemma prv_insert_eq (hp : heap) a h h' : hp !! a = Some h -> prev h' = prev h -> forall x, prv (<[a := h']> hp) x = prv hp x.
Proof.
  intros Ha Hn x. unfold prv. destruct (decide (x = a)) as [->|Hx]; [|by rewrite lookup_insert_ne].
  rewrite lookup_insert_eq, Ha. cbn. by rewrite Hn.
Qed.

Lemma phys_refs (hp : heap) lru order ids (cell : cells) t a h x r n : phys hp lru order ids cell t -> cell a = Some (x, r) ->
  hp !! a = Some h -> phys (<[a := set_refs n h]> hp) lru order ids (cell_set cell a (Some (x, n))) t.
Proof.
  intros [Hr Ht Hc Ho Hi Hl] Ha Hh.
  assert (forall b, is_Some (cell b) -> is_Some (cell_set cell a (Some (x, n)) b)) as Hcs
    by (intros b Hb; unfold cell_set; case_decide; eauto).
  assert (forall b, keyed hp b -> keyed (<[a := set_refs n h]> hp) b) as Hks.
  { intros b (e & He & Hne). destruct (decide (b = a)) as [->|Hba]; [|by exists e; rewrite lookup_insert_ne].
    exists (set_refs n h). rewrite lookup_insert_eq. split; [done|]. cbn. congruence. }
  split; auto.
  - apply (ring_frame (nxt hp) (prv hp)); [done|..]; intros b _; [by apply (nxt_insert_eq hp a h)|by apply (prv_insert_eq hp a h)].
  - apply (table_holds_ext hp); [| |done].
    + intros b Hb. apply Hks. destruct (Hi b Hb) as [[y m] Hy]. destruct (Hc b y m Hy) as (e & He & _ & _ & Hne & _). by exists e.
    + intros b Hb. destruct (decide (b = a)) as [->|Hba]; [|by rewrite lookup_insert_ne]. by rewrite lookup_insert_eq, Hh.
  - intros b y m. unfold cell_set. case_decide as Hb.
    + intros [= <- <-]. subst b. exists (set_refs n h). rewrite lookup_insert_eq.
      destruct (Hc a x r Ha) as (h' & Hh' & Hx & _ & Hne & Hu). rewrite Hh in Hh'. injection Hh' as <-. by split_and!.
    + intros Hb'. rewrite lookup_insert_ne by done. by apply Hc.
  - unfold cell_set. rewrite decide_False; [done|]. intros ->. congruence.
Qed.

Lemma phys_free (hp : heap) lru order ids (cell : cells) t a : phys hp lru order ids cell t -> a <> lru -> a ∉ order -> a ∉ ids ->
  phys (delete a hp) lru order ids (cell_set cell a None) t.
Proof.
  intros [Hr Ht Hc Ho Hi Hl] Ha Hao Hai. split.
  - apply (ring_frame (nxt hp) (prv hp)); [done|..]; intros b Hb; unfold nxt, prv; rewrite lookup_delete_ne; try done; set_solver.
  - apply (table_holds_ext hp); [| |done].
    + intros b Hb. destruct (Hi b Hb) as [[y m] Hy]. destruct (Hc b y m Hy) as (e & He & _ & _ & Hne & _). exists e.
      split; [|done]. rewrite lookup_delete_ne; [done|]. by intros ->.
    + intros b Hb. rewrite lookup_delete_ne; [done|]. by intros ->.
  - intros b y m. unfold cell_set. case_decide as Hb; [done|]. intros Hy. rewrite lookup_delete_ne by done. by apply Hc.
  - intros b Hb. unfold cell_set. rewrite decide_False by (by intros ->). auto.
  - intros b Hb. unfold cell_set. rewrite decide_False by (by intros ->). auto.
  - unfold cell_set. by case_decide.
Qed.

Lemma phys_alloc (hp : heap) lru order ids (cell : cells) t a h : phys hp lru order ids cell t -> hp !! a = None -> next h <> a ->
  is_u32 (hash h) -> phys (<[a := h]> hp) lru order ids (cell_set cell a (Some (entry_of h, refs h))) t.
Proof.
  intros Hph Ha Hne Hu. assert (forall x, foot lru cell x -> x <> a) as Hf.
  { intros x Hx ->. destruct (foot_alloc _ _ _ _ _ _ _ Hph Hx). congruence. }
  assert (forall x, x ∈ lru :: order -> x <> a) as Hf' by (intros x Hx; by eapply Hf, foot_ring).
  destruct Hph as [Hr Ht Hc Ho Hi Hl]. split.
  - apply (ring_frame (nxt hp) (prv hp)); [done|..]; intros b Hb; unfold nxt, prv; rewrite lookup_insert_ne; try done;
      apply not_eq_sym; auto.
  - apply (table_holds_ext hp); [| |done]; intros b Hb; assert (b <> a) by (apply Hf; right; auto); rewrite ?lookup_insert_ne by done; [|done].
    destruct (Hi b Hb) as [[y m] Hy]. destruct (Hc b y m Hy) as (e & He & _ & _ & Hn & _). exists e. by rewrite lookup_insert_ne.
  - intros b y m. unfold cell_set. case_decide as Hb.
    + intros [= <- <-]. subst b. exists h. by rewrite lookup_insert_eq.
    + intros Hy. rewrite lookup_insert_ne by done. by apply Hc.
  - intros b Hb. unfold cell_set. rewrite decide_False by (apply Hf; right; auto). auto.
  - intros b Hb. unfold cell_set. rewrite decide_False by (apply Hf; right; auto). auto.
  - unfold cell_set. rewrite decide_False; [done|]. apply Hf. by left.
Qed.

(** Changes of the [next_hash] fields by the table. *)
Lemma phys_table (hp hp' : heap) lru order ids ids' (cell : cells) t t' : phys hp lru order ids cell t -> same hp hp' ->
  table_holds hp' t' ids' -> (forall a, a ∈ ids' -> is_Some (cell a)) -> phys hp' lru order ids' cell t'.
Proof.
  intros [Hr Ht Hc Ho Hi Hl] Hs Ht' Hi'. split; try done.
  - apply (ring_frame (nxt hp) (prv hp)); [done|..]; intros b _; by apply same_field.
  - intros a x r Ha. destruct (Hc a x r Ha) as (h & Hh & Hx & Hrr & Hne & Hu).
    destruct (same_some hp hp' a h Hs Hh) as [p Hp]. by exists (set_next_hash p h).
Qed.

Lemma phys_Remove hp lru order ids (cell : cells) t k h : phys hp lru order ids cell t -> is_u32 h ->
  exists r t' hp', HandleTable_Remove t hp k h = Some (r, t', hp') /\ found hp ids k h r /\
    phys hp' lru order (without r ids) cell t' /\ keeps lru cell hp hp' /\ same hp hp'.
Proof.
  intros Hph Hu. destruct (HandleTable_Remove_ok hp t ids k h (ph_table _ _ _ _ _ _ Hph) Hu) as (r & t' & hp' & E & Hf & Hs & Ht & Hfr).
  exists r, t', hp'. split_and!; [done|done| | |done].
  - apply (phys_table hp hp' lru order ids _ cell t t'); [done|done|done|]. intros a Ha. apply (ph_ids _ _ _ _ _ _ Hph).
    destruct r; cbn in Ha; [by apply list_elem_of_filter in Ha as [_ ?]|done].
  - intros x Hx. apply Hfr. intros Hx'. apply Hx. right. by apply (ph_ids _ _ _ _ _ _ Hph).
Qed.

Lemma phys_Insert (hp : heap) lru order ids (cell : cells) t e x r : phys hp lru order ids cell t -> e ∉ ids -> cell e = Some (x, r) ->
  Zlength ids < 2 ^ 31 -> exists o t' hp', HandleTable_Insert t hp e = Some (o, t', hp') /\ found hp ids (e_key x) (e_hash x) o /\
    phys hp' lru order (e :: without o ids) cell t' /\ keeps lru cell hp hp' /\ same hp hp'.
Proof.
  intros Hph He Hce Hsz. destruct (ph_cell _ _ _ _ _ _ Hph e x r Hce) as (h & Hh & Hx & _ & Hne & Hu).
  destruct (HandleTable_Insert_ok hp t ids e h (ph_table _ _ _ _ _ _ Hph) He) as (o & t' & hp' & E & Hf & Hs & Ht & Hfr);
    [by exists h|done|done|done|].
  exists o, t', hp'. split_and!; [done|by subst x| | |done].
  - apply (phys_table hp hp' lru order ids _ cell t t'); [done|done|done|]. intros a [->|Ha]%elem_of_cons; [eauto|].
    apply (ph_ids _ _ _ _ _ _ Hph). destruct o; cbn in Ha; [by apply list_elem_of_filter in Ha as [_ ?]|done].
  - intros y Hy. apply Hfr. intros [->|Hy']%elem_of_cons; apply Hy; right; [eauto|]. by apply (ph_ids _ _ _ _ _ _ Hph).
Qed.

(** The call of a deleter. *)
Definition finalized (x : entry V D) : D * bytes * V := (e_deleter x, e_key x, e_value x).

Lemma Unref_last (c : LRUCache) m order ids (cell : cells) t a x : phys (handles m) (lru_ c) order ids cell t -> cell a = Some (x, 1) ->
  a ∉ order -> a ∉ ids ->
  exists hp', Unref c m a = Some (with_usage c (u64 (usage_ c - e_charge x)), MkMemory hp' (deletions m ++ [finalized x])) /\
    phys hp' (lru_ c) order ids (cell_set cell a None) t /\ keeps (lru_ c) cell (handles m) hp' /\ hp' = delete a (handles m).
Proof.
  intros Hph Ha Hao Hai. destruct (ph_cell _ _ _ _ _ _ Hph a x 1 Ha) as (h & Hh & Hx & Hr & Hne & Hu).
  exists (delete a (handles m)). split_and!; [| | |done].
  - unfold Unref. rewrite Hh. bind_simpl. rewrite Hr. change (1 >? 0) with true. change (u32 (1 - 1)) with 0. cbn [negb refs set_refs]. change (0 <=? 0) with true. cbv iota.
    unfold key. cbn [set_refs next]. rewrite decide_False by done. bind_simpl. by subst x.
  - apply phys_free; [done| |done|done]. intros ->. rewrite (ph_lru _ _ _ _ _ _ Hph) in Ha. done.
  - intros y Hy. apply lookup_delete_ne. intros ->. apply Hy. right. eauto.
Qed.

Lemma Unref_more (c : LRUCache) m order ids (cell : cells) t a x r : phys (handles m) (lru_ c) order ids cell t -> cell a = Some (x, r) ->
  1 < r < 2 ^ 32 ->
  exists hp', Unref c m a = Some (c, MkMemory hp' (deletions m)) /\
    phys hp' (lru_ c) order ids (cell_set cell a (Some (x, r - 1))) t /\ keeps (lru_ c) cell (handles m) hp' /\
    dom hp' = dom (handles m).
Proof.
  intros Hph Ha Hr1. destruct (ph_cell _ _ _ _ _ _ Hph a x r Ha) as (h & Hh & Hx & Hr & Hne & Hu).
  exists (<[a := set_refs (r - 1) h]> (handles m)). split_and!.
  - unfold Unref. rewrite Hh. bind_simpl. rewrite Hr, Z.gtb_ltb. destruct (Z.ltb_spec 0 r); [|lia]. cbn [negb].
    cbn [refs set_refs]. rewrite u32_small by (unfold is_u32; lia). destruct (Z.leb_spec (r - 1) 0); [lia|]. done.
  - by eapply phys_refs.
  - intros y Hy. apply lookup_insert_ne. intros ->. apply Hy. right. eauto.
  - rewrite dom_insert_L. assert (a ∈ dom (handles m)) by (apply elem_of_dom; eauto). set_solver.
Qed.

End Phys.
