(* ===== verification/CacheSpec.v ===== *)
(** The specification of the LRU cache (util/cache.cpp) and its refinement.

    The specification of a shard has no pointers and no table: the live entries,
    each with the number of references clients hold, and the addresses of those in
    the cache, least recently used first. *)

From Stdlib Require Import ZArith Lia List Bool.
From S2P Require Import Prelude Lists DList Slice Hashing Cache CacheStore.
Import LRU.

(** ** The specification *)

Module Spec.
Section Spec.
Context {V D : Type}.
Abbreviation entry := (entry V D).
Abbreviation finalization := (D * bytes * V)%type.

Record shard := MkShard { live : gmap nat (entry * nat); order : list nat }.

Definition empty : shard := MkShard ∅ [].

Definition total (l : gmap nat (entry * nat)) : Z := map_fold (fun _ p acc => e_charge p.1 + acc) 0 l.

Definition usage (s : shard) : Z := u64 (total (live s)).

Definition has_key (s : shard) (k : bytes) (h : Z) (a : nat) : bool :=
  match live s !! a with Some (x, _) => bool_decide (e_key x = k /\ e_hash x = h) | None => false end.

Definition find (s : shard) (k : bytes) (h : Z) : option nat := List.find (has_key s k h) (order s).

Definition remove (a : nat) (l : list nat) : list nat := base.filter (fun x => x <> a) l.

(** An entry no client holds is finalised. *)
Definition reap (a : nat) (s : shard) : shard * list finalization :=
  match live s !! a with
  | Some (x, O) => (MkShard (delete a (live s)) (order s), [finalized x])
  | _ => (s, [])
  end.

(** Out of the cache. *)
Definition uncache (a : nat) (s : shard) : shard * list finalization := reap a (MkShard (live s) (remove a (order s))).

Definition lookup (s : shard) (k : bytes) (h : Z) : option nat * shard :=
  match find s k h with
  | Some a => (Some a, MkShard (alter (fun p => (p.1, S p.2)) a (live s)) (remove a (order s) ++ [a]))
  | None => (None, s)
  end.

(** Undefined unless a client holds the handle. *)
Definition release (s : shard) (a : nat) : option (shard * list finalization) :=
  match live s !! a with
  | Some (x, S n) =>
      let s := MkShard (<[a := (x, n)]> (live s)) (order s) in
      Some (if decide (a ∈ order s) then (s, []) else reap a s)
  | _ => None
  end.

Definition erase (s : shard) (k : bytes) (h : Z) : shard * list finalization :=
  match find s k h with Some a => uncache a s | None => (s, []) end.

(** The oldest entries leave until the charges fit. *)
Fixpoint evict (capacity : Z) (l : list nat) (s : shard) : shard * list finalization :=
  match l with
  | [] => (s, [])
  | a :: l =>
      if usage s >? capacity then
        let '(s1, d1) := uncache a s in let '(s2, d2) := evict capacity l s1 in (s2, d1 ++ d2)
      else (s, [])
  end.

Definition insert (capacity : Z) (s : shard) (a : nat) (x : entry) : shard * list finalization :=
  let s1 := MkShard (<[a := (x, 1%nat)]> (live s)) (order s ++ [a]) in
  let '(s2, d1) := match find s (e_key x) (e_hash x) with Some o => uncache o s1 | None => (s1, []) end in
  let '(s3, d2) := evict capacity (order s2) s2 in
  (s3, d1 ++ d2).

End Spec.
End Spec.
Import Spec.

(** ** Refinement of one shard *)

Section Shard.
Context {V D : Type}.
Abbreviation entry := (entry V D).
Abbreviation shard := (@Spec.shard V D).
Abbreviation handle := (LRUHandle V D).
Abbreviation heap := (gmap nat handle).

(** The cache holds one reference of its own. *)
Definition cell_of (s : shard) (a : nat) : option (entry * Z) :=
  match live s !! a with
  | Some (x, n) => Some (x, Z.of_nat n + (if decide (a ∈ order s) then 1 else 0))
  | None => None
  end.

(** A shard with capacity [cap] and dummy [lru], whose table holds [ids]; [B] are
    the addresses in use that are not its entries. *)
Record rep_ids (B : gset nat) (cap : Z) (lru : nat) (ids : list nat) (c : LRUCache) (m : memory) (s : shard) : Prop := {
  rp_cap : capacity_ c = cap;
  rp_lru : lru_ c = lru;
  rp_usage : usage_ c = usage s;
  rp_phys : phys (handles m) lru (order s) ids (cell_of s) (table_ c);
  rp_held : forall a x, live s !! a = Some (x, O) -> a ∈ order s;
  rp_dom : dom (handles m) = B ∪ dom (live s);
  rp_disj : B ## dom (live s);
  rp_in : lru ∈ B
}.

(** Between operations the table holds the entries of the list. *)
Definition rep (B : gset nat) (cap : Z) (lru : nat) (c : LRUCache) (m : memory) (s : shard) : Prop :=
  rep_ids B cap lru (order s) c m s.

(** What an operation leaves alone and appends to the calls of deleters. *)
Definition moves (B : gset nat) (lru : nat) (m m' : memory) (ds : list (D * bytes * V)) : Prop :=
  deletions m' = deletions m ++ ds /\ forall x, x ∈ B -> x <> lru -> handles m' !! x = handles m !! x.

(** At most [N] entries in the cache, each held at most [N] times. *)
Definition small (N : Z) (s : shard) : Prop :=
  Zlength (order s) <= N /\ forall a x n, live s !! a = Some (x, n) -> Z.of_nat n <= N.

Lemma moves_refl B lru m : moves B lru m m [].
Proof. split; [by rewrite app_nil_r|done]. Qed.

Lemma moves_trans B lru m1 m2 m3 d1 d2 : moves B lru m1 m2 d1 -> moves B lru m2 m3 d2 -> moves B lru m1 m3 (d1 ++ d2).
Proof. intros [E1 F1] [E2 F2]. split; [by rewrite E2, E1, app_assoc|]. intros x Hx Hl. by rewrite F2, F1. Qed.

Lemma moves_keeps B lru (cell : nat -> option (entry * Z)) (m m' : memory) ds : deletions m' = deletions m ++ ds ->
  keeps lru cell (handles m) (handles m') -> (forall a, is_Some (cell a) -> a ∉ B) -> moves B lru m m' ds.
Proof. intros Hd Hk HB. split; [done|]. intros x Hx Hl. apply Hk. intros [->|Hc]; [done|]. by apply (HB x). Qed.

Lemma cell_of_live s a : is_Some (cell_of s a) <-> a ∈ dom (live s).
Proof. unfold cell_of. rewrite elem_of_dom. destruct (live s !! a) as [[x n]|]; split; intros [? ?]; eauto; done. Qed.

Lemma elem_of_remove a b l : b ∈ remove a l <-> b <> a /\ b ∈ l.
Proof. unfold remove. by rewrite list_elem_of_filter. Qed.

Lemma remove_split a l : NoDup l -> a ∈ l -> exists l1 l2, l = l1 ++ a :: l2 /\ remove a l = l1 ++ l2.
Proof. intros Hnd (l1 & l2 & ->)%list_elem_of_split. exists l1, l2. split; [done|]. by apply filter_neq_app. Qed.

Lemma remove_notin a l : a ∉ l -> remove a l = l.
Proof. intros Ha. apply filter_all. by intros x Hx ->. Qed.

(** *** Charges *)

Lemma total_insert (l : gmap nat (entry * nat)) a p : l !! a = None -> total (<[a := p]> l) = e_charge p.1 + total l.
Proof. intros Ha. unfold total. rewrite map_fold_insert_L; [done| |done]. intros. lia. Qed.

Lemma total_delete (l : gmap nat (entry * nat)) a p : l !! a = Some p -> total l = e_charge p.1 + total (delete a l).
Proof.
  intros Ha. rewrite <- (insert_delete_id l a p Ha) at 1. rewrite total_insert; [done|]. apply lookup_delete_eq.
Qed.

Lemma total_held (l : gmap nat (entry * nat)) a x n n' : l !! a = Some (x, n) -> total (<[a := (x, n')]> l) = total l.
Proof.
  intros Ha. rewrite <- (insert_delete_eq l a), total_insert by apply lookup_delete_eq. by rewrite (total_delete l a (x, n)).
Qed.

Lemma usage_delete (s : shard) a x n o : live s !! a = Some (x, n) ->
  u64 (usage s - e_charge x) = usage (MkShard (delete a (live s)) o).
Proof.
  intros Ha. unfold usage. cbn [live]. rewrite (total_delete (live s) a (x, n) Ha). cbn [fst]. unfold u64.
  rewrite Zminus_mod_idemp_l. f_equal. lia.
Qed.

(** *** Operations *)

Lemma cell_live B cap lru ids c (m : memory) s a x r : rep_ids B cap lru ids c m s -> cell_of s a = Some (x, r) ->
  exists n, live s !! a = Some (x, n) /\ r = Z.of_nat n + (if decide (a ∈ order s) then 1 else 0).
Proof. intros _. unfold cell_of. destruct (live s !! a) as [[y n]|]; [|done]. intros [= -> <-]. eauto. Qed.

Lemma order_live B cap lru ids c (m : memory) s a : rep_ids B cap lru ids c m s -> a ∈ order s ->
  exists x n, live s !! a = Some (x, n) /\ cell_of s a = Some (x, Z.of_nat n + 1).
Proof.
  intros Hr Ha. pose proof (ph_order _ _ _ _ _ _ (rp_phys _ _ _ _ _ _ _ Hr) a Ha) as [[x r] E]. pose proof E as E'.
  unfold cell_of in E. destruct (live s !! a) as [[y n]|] eqn:El; [|done]. injection E as -> <-. exists x, n.
  rewrite decide_True in E' by done. done.
Qed.

Lemma rep_nodup B cap lru ids c (m : memory) s : rep_ids B cap lru ids c m s -> NoDup (order s).
Proof. intros Hr. pose proof (ph_ring _ _ _ _ _ _ (rp_phys _ _ _ _ _ _ _ Hr)) as [_ H]. by apply NoDup_cons in H as [_ ?]. Qed.

Lemma rep_matches B cap lru c (m : memory) s k h a : rep B cap lru c m s -> a ∈ order s ->
  matches (handles m) k h a <-> has_key s k h a = true.
Proof.
  intros Hr Ha. destruct (order_live _ _ _ _ _ _ _ a Hr Ha) as (x & n & El & Ec).
  destruct (ph_cell _ _ _ _ _ _ (rp_phys _ _ _ _ _ _ _ Hr) a _ _ Ec) as (e & He & Hx & _). unfold has_key, matches.
  rewrite El, bool_decide_eq_true. subst x. cbn. naive_solver.
Qed.

(** What the table finds. *)
Lemma found_find B cap lru c (m : memory) s k h r : rep B cap lru c m s -> found (handles m) (order s) k h r -> r = find s k h.
Proof.
  intros Hr Hf. unfold find. destruct (List.find (has_key s k h) (order s)) as [b|] eqn:E.
  - apply find_some in E as [Hb Hkb]. apply list_elem_of_In in Hb. apply (rep_matches B cap lru c m) in Hkb as Hm; [|done..].
    destruct r as [a|]; [|by destruct (Hf b Hb)]. destruct Hf as [Ha Hma]. f_equal.
    destruct (ph_table _ _ _ _ _ _ (rp_phys _ _ _ _ _ _ _ Hr)) as [_ Hu]. by apply (Hu a b k h).
  - destruct r as [a|]; [|done]. destruct Hf as [Ha Hma]. assert (has_key s k h a = true) by (by apply (rep_matches B cap lru c m)).
    pose proof (find_none _ _ E a ltac:(by apply list_elem_of_In)). congruence.
Qed.

Lemma find_in (s : shard) k h a : find s k h = Some a -> a ∈ order s.
Proof. unfold find. intros [H _]%find_some. by apply list_elem_of_In. Qed.

Lemma rep_phys_at B cap lru c (m : memory) s : rep B cap lru c m s -> phys (handles m) (lru_ c) (order s) (order s) (cell_of s) (table_ c).
Proof. intros Hr. rewrite (rp_lru _ _ _ _ _ _ _ Hr). apply Hr. Qed.

Lemma rep_outside B cap lru ids c (m : memory) s a : rep_ids B cap lru ids c m s -> is_Some (cell_of s a) -> a ∉ B.
Proof. intros Hr Ha%cell_of_live Hb. by apply (rp_disj _ _ _ _ _ _ _ Hr a). Qed.

(** The last step of leaving the cache. *)
Lemma Unref_uncached B cap lru ids c c' (m m' : memory) s a t : rep_ids B cap lru ids c m s -> a ∈ order s -> small (2 ^ 31) s ->
  c' = with_table c t -> phys (handles m') lru (remove a (order s)) (remove a (order s)) (cell_of s) t ->
  dom (handles m') = dom (handles m) -> moves B lru m m' [] ->
  exists c'' m'', Unref c' m' a = Some (c'', m'') /\ rep B cap lru c'' m'' (uncache a s).1 /\ moves B lru m m'' (uncache a s).2.
Proof.
  intros Hr Ha [_ Hsm] -> Hph Hdom Hmv. pose proof Hr as [Hc Hl Hus _ Hheld Hd Hdis HB].
  destruct (order_live _ _ _ _ _ _ _ a Hr Ha) as (x & n & El & Ec).
  assert (a ∉ remove a (order s)) as Hna by (intros H%elem_of_remove; tauto).
  assert (forall b, b <> a -> (if decide (b ∈ remove a (order s)) then 1 else 0) = (if decide (b ∈ order s) then 1 else 0)) as Hdec.
  { intros b Hb. repeat case_decide; try done; rewrite elem_of_remove in *; tauto. }
  rewrite <- Hl in Hph. unfold uncache, reap. cbn [live order]. rewrite El.
  assert (forall b, is_Some (cell_of s b) -> b ∉ B) as Hout by (intros b; by eapply rep_outside).
  destruct n as [|n].
  - destruct (Unref_last (with_table c t) m' _ _ (cell_of s) t a x Hph Ec Hna Hna) as (hp & E & Hp & Hk & Ehp).
    rewrite E. do 2 eexists. split; [done|]. cbn [fst snd]. split.
    + split; cbn [with_table with_usage capacity_ lru_ usage_ table_ handles live order]; try done.
      * rewrite Hus. by apply (usage_delete s a x 0).
      * rewrite <- Hl. eapply phys_ext; [|exact Hp]. intros b. unfold cell_set, cell_of. cbn [live order].
        destruct (decide (b = a)) as [->|Hb]; [by rewrite lookup_delete_eq|]. rewrite lookup_delete_ne by done. by rewrite Hdec.
      * intros b y Hb. destruct (decide (b = a)) as [->|Hne]; [by rewrite lookup_delete_eq in Hb|].
        rewrite lookup_delete_ne in Hb by done. apply elem_of_remove. eauto.
      * rewrite Ehp, dom_delete_L, dom_delete_L, Hdom, Hd. assert (a ∉ B); [|set_solver]. apply Hout. eauto.
      * rewrite dom_delete_L. set_solver.
    + change [finalized x] with ([] ++ [finalized x]). eapply moves_trans; [exact Hmv|].
      eapply moves_keeps; [done|rewrite <- Hl; exact Hk|done].
  - destruct (Unref_more (with_table c t) m' _ _ (cell_of s) t a x _ Hph Ec) as (hp & E & Hp & Hk & Ehp);
      [specialize (Hsm a x _ El); lia|].
    rewrite E. do 2 eexists. split; [done|]. cbn [fst snd]. split.
    + split; cbn [with_table with_usage capacity_ lru_ usage_ table_ handles live order]; try done.
      * rewrite <- Hl. eapply phys_ext; [|exact Hp]. intros b. unfold cell_set, cell_of. cbn [live order].
        destruct (decide (b = a)) as [->|Hb]; [|by rewrite Hdec].
        rewrite El, decide_False by done. do 2 f_equal. lia.
      * intros b y Hb. apply elem_of_remove. split; [intros ->; congruence|eauto].
      * by rewrite Ehp, Hdom.
    + change [] with ([] ++ [] : list (D * bytes * V)). eapply moves_trans; [exact Hmv|].
      eapply moves_keeps; [by rewrite app_nil_r|rewrite <- Hl; exact Hk|done].
Qed.

Lemma decide_01 (P Q : Prop) `{Decision P} `{Decision Q} : (P <-> Q) -> (if decide P then 1 else 0) = (if decide Q then 1 else 0).
Proof. intros HPQ. repeat case_decide; tauto. Qed.

Lemma Lookup_ok B cap lru c (m : memory) s k h : rep B cap lru c m s -> small (2 ^ 31) s -> is_u32 h ->
  exists m', LRU.Lookup c m k h = Some ((Spec.lookup s k h).1, m') /\ rep B cap lru c m' (Spec.lookup s k h).2 /\ moves B lru m m' [].
Proof.
  intros Hr [_ Hsm] Hu. pose proof Hr as [Hc Hl Hus Hph Hheld Hd Hdis HB].
  destruct (HandleTable_Lookup_ok (handles m) (table_ c) (order s) k h (ph_table _ _ _ _ _ _ Hph) Hu) as (r & E & Hf).
  apply (found_find B cap lru c m) in Hf; [|done]. subst r. unfold LRU.Lookup, Spec.lookup. rewrite E. bind_simpl.
  destruct (find s k h) as [a|] eqn:Ef; [|exists m; split_and!; [done|done|apply moves_refl]].
  pose proof (find_in _ _ _ _ Ef) as Ha. destruct (order_live _ _ _ _ _ _ _ a Hr Ha) as (x & n & El & Ec).
  destruct (ph_cell _ _ _ _ _ _ Hph a _ _ Ec) as (hd & Hhd & _ & Hrf & _). unfold upd at 1. rewrite Hhd. bind_simpl.
  specialize (Hsm a x n El) as Hn. rewrite Hrf, u32_small by (unfold is_u32; lia).
  pose proof (phys_refs _ _ _ _ _ _ a hd x _ (Z.of_nat n + 1 + 1) Hph Ec Hhd) as Hph1.
  destruct (remove_split a (order s)) as (l1 & l2 & Eo & Er); [by eapply rep_nodup|done|]. rewrite Er. rewrite Eo in Hph1 at 1.
  destruct (LRU_Remove_ok _ _ _ _ _ _ _ _ Hph1) as (hp2 & -> & Hph2 & Hk2 & Hr2). bind_simpl.
  assert (a ∉ l1 ++ l2) as Hna by (rewrite <- Er, elem_of_remove; tauto). rewrite <- Hl in Hph2.
  destruct (LRU_Append_ok c hp2 _ a _ _ _ Hph2 Hna) as (hp3 & -> & Hph3 & Hk3 & Hr3).
  { unfold cell_set. rewrite decide_True by done. eauto. }
  bind_simpl. eexists. split; [done|]. cbn [fst snd].
  assert (order s ≡ₚ (l1 ++ l2) ++ [a]) as Hperm by (rewrite Eo; solve_Permutation).
  assert (forall b, cell_of (MkShard (alter (fun p => (p.1, S p.2)) a (live s)) ((l1 ++ l2) ++ [a])) b =
    cell_set (cell_of s) a (Some (x, Z.of_nat n + 1 + 1)) b) as Hcell.
  { intros b. unfold cell_of, cell_set. cbn [live order]. destruct (decide (b = a)) as [->|Hb].
    - rewrite lookup_alter_eq, El. cbn. rewrite decide_True by set_solver. do 2 f_equal. lia.
    - rewrite lookup_alter_ne by done. destruct (live s !! b) as [[y j]|]; [|done].
      do 3 f_equal. apply decide_01. by rewrite <- Hperm. }
  split.
  - split; cbn [with_handles handles live order]; try done.
    + rewrite Hus. unfold usage. cbn [live]. f_equal. rewrite <- (total_held (live s) a x n (S n)) by done. f_equal.
      apply map_eq. intros b. destruct (decide (b = a)) as [->|Hb];
        [by rewrite lookup_insert_eq, lookup_alter_eq, El|by rewrite lookup_insert_ne, lookup_alter_ne].
    + rewrite <- Hl. eapply phys_ext; [exact Hcell|]. eapply phys_perm; [exact Hperm|]. done.
    + intros b y Hb. rewrite <- Hperm. destruct (decide (b = a)) as [->|Hne]; [done|]. rewrite lookup_alter_ne in Hb by done. eauto.
    + rewrite (relinked_dom _ _ Hr3), (relinked_dom _ _ Hr2), dom_insert_L, dom_alter_L, Hd.
      assert (a ∈ dom (live s)) by (apply elem_of_dom; eauto). set_solver.
    + by rewrite dom_alter_L.
  - split; [by rewrite app_nil_r|]. intros y Hy Hyl. cbn [with_handles handles].
    assert (~ foot lru (cell_set (cell_of s) a (Some (x, Z.of_nat n + 1 + 1))) y) as Hfy.
    { intros [->|Hs]; [done|]. revert Hy. apply (rep_outside B cap lru (order s) c m s); [done|]. unfold cell_set in Hs. case_decide; [subst; eauto|done]. }
    rewrite Hk3, Hk2 by (rewrite ?Hl; done). apply lookup_insert_ne. intros ->. apply Hfy. right. unfold cell_set. rewrite decide_True; eauto.
Qed.

Lemma Release_ok B cap lru c (m : memory) s a s' ds : rep B cap lru c m s -> small (2 ^ 31) s -> Spec.release s a = Some (s', ds) ->
  exists c' m', LRU.Release c m a = Some (c', m') /\ rep B cap lru c' m' s' /\ moves B lru m m' ds.
Proof.
  intros Hr [_ Hsm] Hrel. pose proof Hr as [Hc Hl Hus Hph Hheld Hd Hdis HB]. unfold Spec.release in Hrel. cbn [live order] in Hrel.
  destruct (live s !! a) as [[x [|n]]|] eqn:El; [done| |done]. injection Hrel as Hrel. unfold LRU.Release.
  assert (cell_of s a = Some (x, Z.of_nat (S n) + (if decide (a ∈ order s) then 1 else 0))) as Ec by (unfold cell_of; by rewrite El).
  pose proof (Hsm a x _ El) as Hn. rewrite <- Hl in Hph.
  assert (forall b, is_Some (cell_of s b) -> b ∉ B) as Hout by (intros b; by eapply rep_outside).
  destruct (decide ((a ∉ order s) /\ n = 0%nat)) as [[Ha ->]|Hmore].
  - rewrite decide_False in Hrel by done. rewrite decide_False in Ec by done. unfold reap in Hrel. cbn [live order] in Hrel. rewrite lookup_insert_eq in Hrel.
    injection Hrel as <- <-. destruct (Unref_last c m _ _ (cell_of s) _ a x Hph Ec Ha Ha) as (hp & -> & Hp & Hk & Ehp).
    do 2 eexists. split; [done|]. rewrite delete_insert_eq. split.
    + split; cbn [with_usage capacity_ lru_ usage_ table_ handles live order]; try done.
      * rewrite Hus. by apply (usage_delete s a x 1).
      * rewrite <- Hl. eapply phys_ext; [|exact Hp]. intros b. unfold cell_set, cell_of. cbn [live order].
        destruct (decide (b = a)) as [->|Hb]; [by rewrite lookup_delete_eq|]. by rewrite lookup_delete_ne.
      * intros b y Hb. destruct (decide (b = a)) as [->|Hne]; [by rewrite lookup_delete_eq in Hb|].
        rewrite lookup_delete_ne in Hb by done. eauto.
      * rewrite Ehp, dom_delete_L, dom_delete_L, Hd. assert (a ∉ B); [|set_solver]. apply Hout. eauto.
      * rewrite dom_delete_L. set_solver.
    + eapply moves_keeps; [done|rewrite <- Hl; exact Hk|done].
  - assert (MkShard (<[a := (x, n)]> (live s)) (order s) = s' /\ ds = []) as [<- ->].
    { case_decide as Ha; [by injection Hrel|]. unfold reap in Hrel. cbn [live order] in Hrel. rewrite lookup_insert_eq in Hrel.
      destruct n as [|n]; [tauto|]. by injection Hrel. }
    destruct (Unref_more c m _ _ (cell_of s) _ a x _ Hph Ec) as (hp & -> & Hp & Hk & Ehp).
    { case_decide; [lia|]. destruct n; [tauto|lia]. }
    do 2 eexists. split; [done|]. split.
    + split; cbn [handles live order]; try done.
      * rewrite Hus. unfold usage. cbn [live]. by rewrite (total_held (live s) a x (S n) n).
      * rewrite <- Hl. eapply phys_ext; [|exact Hp]. intros b. unfold cell_set, cell_of. cbn [live order].
        destruct (decide (b = a)) as [->|Hb]; [|by rewrite lookup_insert_ne]. rewrite lookup_insert_eq. do 2 f_equal. lia.
      * intros b y Hb. destruct (decide (b = a)) as [->|Hne]; [|rewrite lookup_insert_ne in Hb by done; eauto].
        rewrite lookup_insert_eq in Hb. injection Hb as -> ->. destruct (decide (a ∈ order s)); [done|tauto].
      * rewrite Ehp, dom_insert_L, Hd. assert (a ∈ dom (live s)) by (apply elem_of_dom; eauto). set_solver.
      * rewrite dom_insert_L. assert (a ∈ dom (live s)) by (apply elem_of_dom; eauto). set_solver.
    + eapply moves_keeps; [by rewrite app_nil_r|rewrite <- Hl; exact Hk|done].
Qed.

Lemma Erase_ok B cap lru c (m : memory) s k h : rep B cap lru c m s -> small (2 ^ 31) s -> is_u32 h ->
  exists c' m', LRU.Erase c m k h = Some (c', m') /\ rep B cap lru c' m' (Spec.erase s k h).1 /\ moves B lru m m' (Spec.erase s k h).2.
Proof.
  intros Hr Hsm Hu. pose proof (rep_phys_at _ _ _ _ _ _ Hr) as Hph. pose proof (rp_lru _ _ _ _ _ _ _ Hr) as Hl.
  destruct (phys_Remove (handles m) _ _ _ _ _ k h Hph Hu) as (r & t & hp1 & E & Hf & Hp1 & Hk1 & Hs1).
  apply (found_find B cap lru c m) in Hf; [|done]. subst r. unfold LRU.Erase, Spec.erase. rewrite E. bind_simpl.
  destruct (find s k h) as [a|] eqn:Ef.
  - pose proof (find_in _ _ _ _ Ef) as Ha. destruct (remove_split a (order s)) as (l1 & l2 & Eo & Er); [by eapply rep_nodup|done|].
    rewrite Eo in Hp1 at 1. destruct (LRU_Remove_ok _ _ _ _ _ _ _ _ Hp1) as (hp2 & -> & Hp2 & Hk2 & Hr2). bind_simpl.
    apply (Unref_uncached B cap lru (order s) c _ m _ s a t); [done|done|done|done| | |].
    + cbn [with_handles handles]. rewrite Er at 1. rewrite <- Hl. done.
    + cbn [with_handles handles]. by rewrite (relinked_dom _ _ Hr2), (same_dom _ _ Hs1).
    + rewrite Hl in Hk1, Hk2. eapply moves_keeps; [by rewrite app_nil_r|by eapply store_keeps_trans|intros b; by eapply rep_outside].
  - do 2 eexists. split; [done|]. cbn [fst snd]. rewrite Hl in Hp1, Hk1. split.
    + destruct Hr as [Hc _ Hus _ Hheld Hd Hdis HB]. split; try done. cbn [with_handles handles]. by rewrite (same_dom _ _ Hs1).
    + eapply moves_keeps; [by rewrite app_nil_r|done|intros b; by eapply rep_outside].
Qed.

Lemma found_self (hp : heap) t ids k h r a : table_holds hp t ids -> a ∈ ids -> matches hp k h a -> found hp ids k h r -> r = Some a.
Proof. intros [_ Hu] Ha Hm Hf. destruct r as [b|]; [|by destruct (Hf a Ha)]. destruct Hf as [Hb Hmb]. f_equal. by apply (Hu b a k h). Qed.

Lemma uncache_order (s : shard) a : order (uncache a s).1 = remove a (order s).
Proof. unfold uncache, reap. cbn [live order]. by destruct (live s !! a) as [[x [|n]]|]. Qed.

Lemma uncache_small N (s : shard) a : small N s -> small N (uncache a s).1.
Proof.
  intros [H1 H2]. split.
  - rewrite uncache_order. pose proof (length_filter (fun x => x <> a) (order s)). unfold remove, Zlength in *. lia.
  - unfold uncache, reap. cbn [live order]. destruct (live s !! a) as [[x [|n]]|]; cbn [fst live]; [|done..].
    intros b y j Hb. apply lookup_delete_Some in Hb as [_ Hb]. eauto.
Qed.

(** A pass of the eviction loop. *)
Lemma evict_step B cap lru c (m : memory) s a l : rep B cap lru c m s -> small (2 ^ 31) s -> order s = a :: l ->
  exists hp1 hd k r t hp2 c' m', LRU_Remove (handles m) a = Some hp1 /\ hp1 !! a = Some hd /\ key a hd = Some k /\
    HandleTable_Remove (table_ c) hp1 k (u32 (hash hd)) = Some (r, t, hp2) /\
    Unref (with_table c t) (with_handles m hp2) a = Some (c', m') /\
    rep B cap lru c' m' (uncache a s).1 /\ moves B lru m m' (uncache a s).2 /\ order (uncache a s).1 = l.
Proof.
  intros Hr Hsm Eo. pose proof (rp_phys _ _ _ _ _ _ _ Hr) as Hph. pose proof (rep_nodup _ _ _ _ _ _ _ Hr) as Hnd. rewrite Eo in Hnd.
  assert (remove a (order s) = l) as Er.
  { rewrite Eo. unfold remove. rewrite filter_cons_False by tauto. apply NoDup_cons in Hnd as [Ha _]. by apply remove_notin. }
  rewrite Eo in Hph at 1. destruct (LRU_Remove_ok _ _ [] _ _ _ _ _ Hph) as (hp1 & E1 & Hp1 & Hk1 & Hr1). cbn [app] in Hp1.
  assert (a ∈ order s) as Ha by (rewrite Eo; left). destruct (order_live _ _ _ _ _ _ _ a Hr Ha) as (x & n & El & Ec).
  destruct (ph_cell _ _ _ _ _ _ Hp1 a _ _ Ec) as (hd & Hhd & _ & _ & Hne & Hu).
  destruct (phys_Remove hp1 _ _ _ _ _ (key_data hd) (hash hd) Hp1 Hu) as (r & t & hp2 & E2 & Hf & Hp2 & Hk2 & Hs2).
  apply (found_self _ _ _ _ _ _ a (ph_table _ _ _ _ _ _ Hp1)) in Hf; [|done|by exists hd]. subst r.
  destruct (Unref_uncached B cap lru (order s) c (with_table c t) m (with_handles m hp2) s a t) as (c' & m' & E3 & Hr' & Hm'); try done.
  - rewrite Er at 1. done.
  - cbn [with_handles handles]. by rewrite (same_dom _ _ Hs2), (relinked_dom _ _ Hr1).
  - eapply moves_keeps; [by rewrite app_nil_r|by eapply store_keeps_trans|intros b; by eapply rep_outside].
  - exists hp1, hd, (key_data hd), (Some a), t, hp2, c', m'. split_and!; try done.
    + unfold key. by rewrite decide_False.
    + by rewrite u32_small.
    + by rewrite uncache_order.
Qed.

Lemma evict_ok B cap lru l : forall fuel c (m : memory) s, rep B cap lru c m s -> small (2 ^ 31) s -> order s = l -> (length l <= fuel)%nat ->
  exists c' m', LRU.evict fuel c m = Some (c', m') /\ rep B cap lru c' m' (Spec.evict cap l s).1 /\
    moves B lru m m' (Spec.evict cap l s).2.
Proof.
  induction l as [|a l IH]; intros fuel c m s Hr Hsm Eo Hf; pose proof (rp_phys _ _ _ _ _ _ _ Hr) as Hph;
    pose proof (ring_first _ _ _ _ (ph_ring _ _ _ _ _ _ Hph)) as Hn; unfold nxt in Hn; rewrite Eo in Hn; cbn [head default id] in Hn;
    rewrite <- (rp_lru _ _ _ _ _ _ _ Hr) in Hn.
  - exists c, m. split; [|split; [done|apply moves_refl]].
    destruct fuel; cbn [LRU.evict]; rewrite Hn; bind_simpl; rewrite Nat.eqb_refl, andb_false_r; done.
  - destruct fuel as [|fuel]; [cbn in Hf; lia|]. cbn [LRU.evict Spec.evict]. rewrite Hn. bind_simpl.
    rewrite (rp_usage _ _ _ _ _ _ _ Hr), (rp_cap _ _ _ _ _ _ _ Hr).
    assert (a <> lru_ c) as Hal.
    { rewrite (rp_lru _ _ _ _ _ _ _ Hr). intros ->. destruct (ph_ring _ _ _ _ _ _ Hph) as [_ Hnd]. rewrite Eo in Hnd.
      apply NoDup_cons in Hnd as [H _]. apply H. left. }
    rewrite (proj2 (Nat.eqb_neq _ _) Hal), andb_true_r. cbn [negb].
    destruct (usage s >? cap); [|exists c, m; split; [done|split; [done|apply moves_refl]]].
    destruct (evict_step B cap lru c m s a l Hr Hsm Eo) as (hp1 & hd & k & r & t & hp2 & c1 & m1 & -> & E1 & E2 & E3 & E4 & Hr1 & Hm1 & Eo1).
    bind_simpl. rewrite E1. bind_simpl. rewrite E2. bind_simpl. rewrite E3. bind_simpl. rewrite E4. bind_simpl.
    destruct (IH fuel c1 m1 _ Hr1) as (c2 & m2 & -> & Hr2 & Hm2); [by apply uncache_small|done|cbn in Hf; lia|].
    exists c2, m2. destruct (uncache a s) as [s1 d1]. cbn [fst snd] in *. destruct (Spec.evict cap l s1) as [s2 d2]. cbn [fst snd] in *.
    split; [done|]. split; [done|]. by eapply moves_trans.
Qed.

Lemma found_ext (hp hp' : heap) ids k h r : (forall a, a ∈ ids -> (matches hp k h a <-> matches hp' k h a)) ->
  found hp ids k h r -> found hp' ids k h r.
Proof. intros E. destruct r as [a|]; cbn; [intros [Ha Hm]; by rewrite <- E|]. intros H a Ha. rewrite <- E; auto. Qed.

(** The new entry is in the list and in the table. *)
Lemma Insert_enter B cap lru c (m : memory) s e x d : rep B cap lru c m s -> small (2 ^ 31 - 1) s -> e ∉ dom (handles m) ->
  is_u32 (e_hash x) -> d = MkLRUHandle (e_value x) (e_deleter x) None (lru_ c) (lru_ c) (e_charge x) 2 (e_hash x) (e_key x) ->
  let s1 := MkShard (<[e := (x, 1%nat)]> (live s)) (order s ++ [e]) in
  let o := find s (e_key x) (e_hash x) in
  exists hp1 t hp2, LRU_Append c (<[e := d]> (handles m)) e = Some hp1 /\ HandleTable_Insert (table_ c) hp1 e = Some (o, t, hp2) /\
    rep_ids B cap lru (e :: without o (order s)) (with_table (with_usage c (u64 (usage_ c + e_charge x))) t) (with_handles m hp2) s1 /\
    moves B lru m (with_handles m hp2) [].
Proof.
  intros Hr [Hsm _] He Hu -> s1 o. set (d := MkLRUHandle _ _ _ _ _ _ _ _ _). pose proof Hr as [Hc Hl Hus Hph Hheld Hd Hdis HB].
  assert (handles m !! e = None) as Hen by (by apply not_elem_of_dom). rewrite Hd in He.
  assert (lru <> e) as Hle by set_solver. assert (live s !! e = None) as Hel by (apply not_elem_of_dom; set_solver).
  pose proof (phys_alloc (handles m) lru _ _ _ _ e d Hph Hen) as Hp0. cbn [next hash d] in Hp0. rewrite Hl in Hp0 at 1.
  specialize (Hp0 Hle Hu). replace (entry_of d, refs d) with (x, 2) in Hp0 by (by destruct x).
  set (cell := cell_set (cell_of s) e (Some (x, 2))) in *. assert (cell e = Some (x, 2)) as Hce by (unfold cell, cell_set; by rewrite decide_True).
  assert (e ∉ order s) as Heo.
  { intros Hin. destruct (order_live _ _ _ _ _ _ _ e Hr Hin) as (? & ? & ? & _). congruence. }
  rewrite <- Hl in Hp0. destruct (LRU_Append_ok c _ _ e _ _ _ Hp0 Heo) as (hp1 & E1 & Hp1 & Hk1 & Hr1); [eauto|].
  destruct (phys_Insert hp1 _ _ _ _ _ e x 2 Hp1 Heo Hce) as (r & t & hp2 & E2 & Hf & Hp2 & Hk2 & Hs2); [lia|].
  assert (r = o) as ->.
  { apply (found_find B cap lru c m); [done|]. eapply found_ext; [|exact Hf]. intros a Ha.
    assert (a <> e) as Hae by (by intros ->). destruct (order_live _ _ _ _ _ _ _ a Hr Ha) as (y & n & _ & Ec).
    destruct (ph_cell _ _ _ _ _ _ Hph a _ _ Ec) as (ha & Hha & _).
    destruct (relinked_field tkey (<[e := d]> (handles m)) hp1 a ha) as (ha' & Hha' & Ek); [by intros []|done|by rewrite lookup_insert_ne|].
    unfold matches. rewrite Hha, Hha'. injection Ek as _ E3 E4. naive_solver congruence. }
  assert (forall b, cell_of s1 b = cell b) as Hcell.
  { intros b. unfold s1, cell, cell_of, cell_set. cbn [live order]. destruct (decide (b = e)) as [->|Hb].
    - rewrite lookup_insert_eq, decide_True by set_solver. done.
    - rewrite lookup_insert_ne by done. destruct (live s !! b) as [[y n]|]; [|done]. do 3 f_equal. apply decide_01. set_solver. }
  exists hp1, t, hp2. split_and!; [done|done| |].
  - split; cbn [with_table with_usage with_handles capacity_ lru_ usage_ table_ handles]; try done.
    + unfold usage, s1. cbn [live]. rewrite total_insert by done. cbn [fst]. rewrite Hus. unfold usage, u64.
      rewrite Zplus_mod_idemp_l. f_equal. lia.
    + rewrite <- Hl. eapply phys_ext; [exact Hcell|done].
    + intros a y. unfold s1. cbn [live order]. destruct (decide (a = e)) as [->|Hae]; [by rewrite lookup_insert_eq|].
      rewrite lookup_insert_ne by done. intros Ha. apply elem_of_app. left. eauto.
    + unfold s1. cbn [live]. rewrite (same_dom _ _ Hs2), (relinked_dom _ _ Hr1), !dom_insert_L, Hd. set_solver.
    + unfold s1. cbn [live]. rewrite dom_insert_L. set_solver.
  - split; [by rewrite app_nil_r|]. intros y Hy Hyl. cbn [with_handles handles].
    assert (y <> e) as Hye by set_solver.
    assert (~ foot (lru_ c) cell y) as Hfy.
    { rewrite Hl. intros [->|Hs]; [done|]. unfold cell, cell_set in Hs. rewrite decide_False in Hs by done.
      revert Hy. by apply (rep_outside B cap lru (order s) c m s). }
    rewrite Hk2, Hk1 by done. by rewrite lookup_insert_ne.
Qed.

Lemma LRU_Insert_ok malloc B cap lru c (m : memory) s k h v charge d : (forall X, malloc X ∉ X) -> rep B cap lru c m s ->
  small (2 ^ 31 - 1) s -> is_u32 h ->
  let e := malloc (dom (handles m)) in
  let x := MkEntry k h v charge d in
  exists c' m', LRU.Insert malloc c m k h v charge d = Some (e, c', m') /\ rep B cap lru c' m' (Spec.insert cap s e x).1 /\
    moves B lru m m' (Spec.insert cap s e x).2.
Proof.
  intros Hm Hr Hsm Hu e x. pose proof Hr as [Hc Hl Hus Hph Hheld Hd Hdis HB].
  destruct (Insert_enter B cap lru c m s e x _ Hr Hsm (Hm _) Hu eq_refl) as (hp1 & t & hp2 & E1 & E2 & Hr2 & Hm2).
  unfold LRU.Insert, Spec.insert. fold e. cbn [e_key e_hash e_value e_charge e_deleter x] in *. rewrite E1. bind_simpl.
  cbn [with_usage table_]. rewrite E2. bind_simpl. fold x.
  set (s1 := MkShard (<[e := (x, 1%nat)]> (live s)) (order s ++ [e])) in *.
  set (c1 := with_table _ t) in *. assert (small (2 ^ 31) s1) as Hs1.
  { destruct Hsm as [H1 H2]. split; [unfold s1; cbn [order]; rewrite Zlength_app, Zlength_cons, Zlength_nil; lia|].
    intros a y n. unfold s1. cbn [live]. intros [[_ [= _ <-]]|[_ Ha]]%lookup_insert_Some; [lia|]. specialize (H2 a y n Ha). lia. }
  assert (e ∉ order s) as Heo.
  { intros Hin. destruct (order_live _ _ _ _ _ _ _ e Hr Hin) as (y & n & El & _). apply (Hm (dom (handles m))). fold e.
    rewrite Hd. apply elem_of_union. right. apply elem_of_dom. eauto. }
  assert (exists c2 m2, (match find s k h with
       | Some o => hp ← LRU_Remove hp2 o; Unref c1 (with_handles m hp) o
       | None => Some (c1, with_handles m hp2)
       end) = Some (c2, m2) /\
     rep B cap lru c2 m2 (match find s k h with Some o => uncache o s1 | None => (s1, []) end).1 /\
     moves B lru m m2 (match find s k h with Some o => uncache o s1 | None => (s1, []) end).2 /\
     small (2 ^ 31) (match find s k h with Some o => uncache o s1 | None => (s1, []) end).1) as (c2 & m2 & E3 & Hr3 & Hm3 & Hs3).
  { destruct (find s k h) as [o|] eqn:Ef; cbn [without] in Hr2.
    - pose proof (find_in _ _ _ _ Ef) as Ho. assert (o ∈ order s1) as Ho1 by (apply elem_of_app; by left).
      destruct (remove_split o (order s1)) as (l1 & l2 & Eo & Er); [by eapply rep_nodup|done|].
      pose proof (rp_phys _ _ _ _ _ _ _ Hr2) as Hp2. cbn [with_handles handles] in Hp2. rewrite Eo in Hp2 at 1.
      destruct (LRU_Remove_ok _ _ _ _ _ _ _ _ Hp2) as (hp3 & -> & Hp3 & Hk3 & Hr3). bind_simpl.
      destruct (Unref_uncached B cap lru _ c1 c1 (with_handles m hp2) (with_handles m hp3) s1 o t Hr2 Ho1 Hs1) as (c2 & m2 & E & Hr4 & Hm4).
      + done.
      + cbn [with_handles handles]. rewrite Er at 1. eapply phys_perm; [|exact Hp3]. unfold s1. cbn [order].
        unfold remove. rewrite filter_app, filter_cons_True; [|intros ->; done]. cbn. solve_Permutation.
      + cbn [with_handles handles]. by rewrite (relinked_dom _ _ Hr3).
      + apply (moves_keeps B lru (cell_of s1) (with_handles m hp2) (with_handles m hp3)); [by rewrite app_nil_r|done|].
        intros b. by eapply rep_outside.
      + exists c2, m2. split; [done|]. split; [done|]. split; [|by apply uncache_small].
        change ((uncache o s1).2) with ([] ++ (uncache o s1).2). by eapply moves_trans.
    - exists c1, (with_handles m hp2). split; [done|]. split; [|done].
      destruct Hr2 as [H1 H2 H3 H4 H5 H6 H7 H8]. split; try done. eapply phys_perm; [|done]. unfold s1. cbn [order fst]. solve_Permutation. }
  rewrite E3. bind_simpl. destruct (match find s k h with Some o => uncache o s1 | None => (s1, []) end) as [s2 d1]. cbn [fst snd] in *.
  destruct (evict_ok B cap lru (order s2) (size (handles m2)) c2 m2 s2 Hr3 Hs3 eq_refl) as (c4 & m4 & E4 & Hr4 & Hm4).
  { apply chain_size; [by eapply rep_nodup|]. intros a Ha. eapply foot_alloc; [by apply Hr3|]. eapply foot_ring; [by apply Hr3|by right]. }
  rewrite E4. bind_simpl. exists c4, m4. destruct (Spec.evict cap (order s2) s2) as [s3 d2]. cbn [fst snd] in *.
  split; [done|]. split; [done|]. by eapply moves_trans.
Qed.

Lemma LRUCache_new_ok lru g cap (m : memory) : lru ∉ dom (handles m) ->
  exists c m', LRUCache_new lru g 0 m = Some (c, m') /\ rep (dom (handles m')) cap lru (SetCapacity c cap) m' Spec.empty /\
    deletions m' = deletions m /\ dom (handles m') = {[lru]} ∪ dom (handles m) /\
    forall x, x <> lru -> handles m' !! x = handles m !! x.
Proof.
  intros Hl. unfold LRUCache_new. set (d := set_prev lru (set_next lru g)).
  destruct (HandleTable_new_ok (<[lru := d]> (handles m))) as (t & hp & -> & -> & Ht). bind_simpl.
  do 2 eexists. split; [done|]. cbn [with_handles handles deletions]. split_and!; [|done|by rewrite dom_insert_L|intros x Hx; by rewrite lookup_insert_ne].
  split; cbn [SetCapacity capacity_ lru_ usage_ table_ Spec.empty live order handles]; try done.
  - split; try done; [|set_solver..]. split; [|apply NoDup_singleton]. cbn. unfold link, nxt, prv. by rewrite lookup_insert_eq.
  - rewrite dom_empty_L. by rewrite union_empty_r_L.
  - rewrite dom_insert_L. set_solver.
Qed.

End Shard.
