(* ===== verification/CacheRun.v ===== *)
(** The sharded LRU cache of util/cache.cpp under sequences of calls. *)

From Stdlib Require Import ZArith Lia List Bool.
From S2P Require Import Prelude Lists DList Slice Hashing Cache CacheStore CacheSpec.
Import LRU Spec.

(** ** Calls *)

Section Calls.
Context {V D : Type}.
Context (malloc : gset nat -> nat).
Abbreviation entry := (entry V D).
Abbreviation shard := (@Spec.shard V D).
Abbreviation memory := (@LRU.memory V D).
Abbreviation finalization := (D * bytes * V)%type.

Inductive cache_op :=
  | OpInsert (k : bytes) (v : V) (charge : Z) (d : D)
  | OpLookup (k : bytes)
  | OpRelease (a : nat)
  | OpErase (k : bytes)
  | OpValue (a : nat)
  | OpNewId.

Inductive outcome := OutHandle (r : option nat) | OutValue (v : V) | OutId (id : Z) | OutUnit.

Definition call (s : ShardedLRUCache) (m : memory) (op : cache_op) : option (outcome * ShardedLRUCache * memory) :=
  match op with
  | OpInsert k v charge d => '(e, s, m) ← Sharded_Insert malloc s m k v charge d; Some (OutHandle (Some e), s, m)
  | OpLookup k => '(r, m) ← Sharded_Lookup s m k; Some (OutHandle r, s, m)
  | OpRelease a => '(s, m) ← Sharded_Release s m a; Some (OutUnit, s, m)
  | OpErase k => '(s, m) ← Sharded_Erase s m k; Some (OutUnit, s, m)
  | OpValue a => v ← Value m a; Some (OutValue v, s, m)
  | OpNewId => let '(id, s) := NewId s in Some (OutId id, s, m)
  end.

Fixpoint calls (s : ShardedLRUCache) (m : memory) (ops : list cache_op) : option (list outcome * ShardedLRUCache * memory) :=
  match ops with
  | [] => Some ([], s, m)
  | op :: ops => '(o, s, m) ← call s m op; '(os, s, m) ← calls s m ops; Some (o :: os, s, m)
  end.

(** The specification of the whole: its shards, the last id and the deleter calls. *)
Record cache := MkCache { shards : list shard; last_id : Z; log : list finalization }.

(** The addresses in use, [lrus] being the shards' dummies. *)
Definition alloc (lrus : list nat) (ss : list shard) : gset nat := list_to_set lrus ∪ ⋃ (map (fun s => dom (live s)) ss).

(** The shard whose live entry is at [a]. *)
Definition owner (ss : list shard) (a : nat) : option (nat * shard) := list_find (fun s => is_Some (live s !! a)) ss.

Definition put (C : cache) (i : nat) (r : shard * list finalization) : cache :=
  MkCache (<[i := r.1]> (shards C)) (last_id C) (log C ++ r.2).

(** A client may release, or take the value of, a handle it holds only. *)
Definition spec_call (lrus : list nat) (cap : Z) (C : cache) (op : cache_op) : option (outcome * cache) :=
  match op with
  | OpInsert k v charge d =>
      let h := HashSlice k in
      let a := malloc (alloc lrus (shards C)) in
      s ← shards C !! Shard h;
      Some (OutHandle (Some a), put C (Shard h) (Spec.insert cap s a (MkEntry k h v charge d)))
  | OpLookup k =>
      let h := HashSlice k in
      s ← shards C !! Shard h;
      Some (OutHandle (Spec.lookup s k h).1, put C (Shard h) ((Spec.lookup s k h).2, []))
  | OpRelease a =>
      '(i, s) ← owner (shards C) a;
      r ← Spec.release s a;
      Some (OutUnit, put C i r)
  | OpErase k =>
      let h := HashSlice k in
      s ← shards C !! Shard h;
      Some (OutUnit, put C (Shard h) (Spec.erase s k h))
  | OpValue a =>
      '(i, s) ← owner (shards C) a;
      match live s !! a with Some (x, S _) => Some (OutValue (e_value x), C) | _ => None end
  | OpNewId => let id := u64 (last_id C + 1) in Some (OutId id, MkCache (shards C) id (log C))
  end.

Fixpoint spec_calls (lrus : list nat) (cap : Z) (C : cache) (ops : list cache_op) : option (list outcome * cache) :=
  match ops with
  | [] => Some ([], C)
  | op :: ops => '(o, C) ← spec_call lrus cap C op; '(os, C) ← spec_calls lrus cap C ops; Some (o :: os, C)
  end.

Definition new_cache : cache := MkCache (replicate (Z.to_nat kNumShards) Spec.empty) 0 [].

(** What is inserted, and its charge. *)
Definition inserted (ops : list cache_op) : list finalization :=
  omap (fun op => match op with OpInsert k v _ d => Some (d, k, v) | _ => None end) ops.

Definition charged (ops : list cache_op) : Z :=
  foldr (fun op n => match op with OpInsert _ _ charge _ => charge + n | _ => n end) 0 ops.

(** Charges are [size_t]. *)
Definition op_ok (op : cache_op) : Prop := match op with OpInsert _ _ charge _ => 0 <= charge | _ => True end.

(** Entries that are not finalised. *)
Definition remaining_map (l : gmap nat (entry * nat)) : list finalization := map (fun p => finalized p.2.1) (map_to_list l).

Definition remaining (s : shard) : list finalization := remaining_map (live s).

Definition remaining_all (ss : list shard) : list finalization := concat (remaining <$> ss).

End Calls.
Arguments cache_op : clear implicits.
Arguments outcome : clear implicits.
Arguments cache : clear implicits.

(** ** Lemmas *)

Section Runs.
Context {V D : Type}.
Abbreviation entry := (entry V D).
Abbreviation shard := (@Spec.shard V D).
Abbreviation memory := (@LRU.memory V D).
Abbreviation finalization := (D * bytes * V)%type.

(** *** What the operations do to the entries of a shard *)

Definition all_entries (P : entry -> Prop) (s : shard) : Prop := forall a x n, live s !! a = Some (x, n) -> P x.

Lemma reap_all P (s : shard) a : all_entries P s -> all_entries P (reap a s).1.
Proof.
  intros H. unfold reap. destruct (live s !! a) as [[x [|n]]|]; [|done..]. intros b y n. cbn. intros [_ Hb]%lookup_delete_Some. by eapply H.
Qed.

Lemma with_entry_all P (s : shard) a x n o : P x -> all_entries P s -> all_entries P (MkShard (<[a := (x, n)]> (live s)) o).
Proof. intros Hx H b y j Hb. cbn [live] in Hb. apply lookup_insert_Some in Hb as [[_ [= <- _]]|[_ Hb]]; [done|by eapply H]. Qed.

Lemma uncache_all P (s : shard) a : all_entries P s -> all_entries P (uncache a s).1.
Proof. intros H. by apply reap_all. Qed.

Lemma evict_all P cap l : forall s : shard, all_entries P s -> all_entries P (Spec.evict cap l s).1.
Proof.
  induction l as [|a l IH]; intros s H; [done|]. cbn [Spec.evict]. destruct (_ >? _); [|done].
  pose proof (uncache_all P s a H) as H1. destruct (uncache a s) as [s1 d1]. specialize (IH s1 H1).
  by destruct (Spec.evict cap l s1).
Qed.

Lemma insert_all P cap (s : shard) a x : P x -> all_entries P s -> all_entries P (Spec.insert cap s a x).1.
Proof.
  intros Hx H. unfold Spec.insert. set (s1 := MkShard _ _).
  assert (all_entries P s1) as H1 by (by apply with_entry_all).
  assert (all_entries P (match find s (e_key x) (e_hash x) with Some o => uncache o s1 | None => (s1, []) end).1) as H2
    by (destruct (find _ _ _); [by apply uncache_all|done]).
  destruct (match find s (e_key x) (e_hash x) with Some o => uncache o s1 | None => (s1, []) end) as [s2 d1].
  pose proof (evict_all P cap (order s2) s2 H2). by destruct (Spec.evict _ _ s2).
Qed.

Lemma lookup_all P (s : shard) k h : all_entries P s -> all_entries P (Spec.lookup s k h).2.
Proof.
  intros H. unfold Spec.lookup. destruct (find s k h) as [a|]; [|done]. intros b y n. cbn. rewrite lookup_alter.
  case_decide as Hb; [|intros Hy; by eapply H]. intros ([z j] & Hz & [= -> _])%fmap_Some. by eapply H.
Qed.

Lemma release_all P (s s' : shard) a ds : Spec.release s a = Some (s', ds) -> all_entries P s -> all_entries P s'.
Proof.
  intros Hr H. unfold Spec.release in Hr. destruct (live s !! a) as [[x [|n]]|] eqn:El; [done| |done]. cbn [live order] in Hr.
  set (s1 := MkShard _ _) in Hr. assert (all_entries P s1) as H1 by (apply with_entry_all; [by eapply H|done]).
  case_decide; injection Hr as Hr; [by simplify_eq|]. pose proof (reap_all P s1 a H1) as H2. by rewrite Hr in H2.
Qed.

Lemma erase_all P (s : shard) k h : all_entries P s -> all_entries P (Spec.erase s k h).1.
Proof. intros H. unfold Spec.erase. destruct (find s k h); [by apply uncache_all|done]. Qed.

Lemma small_mono N N' (s : shard) : N <= N' -> small N s -> small N' s.
Proof. intros H [H1 H2]. split; [lia|]. intros a x n Ha. specialize (H2 a x n Ha). lia. Qed.

Lemma evict_small N cap l : forall s : shard, small N s -> small N (Spec.evict cap l s).1.
Proof.
  induction l as [|a l IH]; intros s H; [done|]. cbn [Spec.evict]. destruct (_ >? _); [|done].
  pose proof (uncache_small N s a H) as H1. destruct (uncache a s) as [s1 d1]. specialize (IH s1 H1).
  by destruct (Spec.evict cap l s1).
Qed.

Lemma insert_small N cap (s : shard) a x : 0 <= N -> small N s -> small (N + 1) (Spec.insert cap s a x).1.
Proof.
  intros HN [H1 H2]. unfold Spec.insert. set (s1 := MkShard _ _). assert (small (N + 1) s1) as Hs1.
  { split; [unfold s1; cbn [order]; rewrite Zlength_app, Zlength_cons, Zlength_nil; lia|]. intros b y n Hb. unfold s1 in Hb. cbn [live] in Hb.
    apply lookup_insert_Some in Hb as [[_ [= _ <-]]|[_ Hb]]; [lia|]. specialize (H2 b y n Hb). lia. }
  assert (small (N + 1) (match find s (e_key x) (e_hash x) with Some o => uncache o s1 | None => (s1, []) end).1) as Hs2
    by (destruct (find _ _ _); [by apply uncache_small|done]).
  destruct (match find s (e_key x) (e_hash x) with Some o => uncache o s1 | None => (s1, []) end) as [s2 d1].
  pose proof (evict_small (N + 1) cap (order s2) s2 Hs2). by destruct (Spec.evict _ _ s2).
Qed.

Lemma lookup_small N (s : shard) k h : small N s -> small (N + 1) (Spec.lookup s k h).2.
Proof.
  intros [H1 H2]. unfold Spec.lookup. destruct (find s k h) as [a|] eqn:Ef; [|apply (small_mono N); [lia|done]]. split; cbn [order live snd].
  - pose proof (length_filter (fun x => x <> a) (order s)). unfold remove. rewrite Zlength_app, Zlength_cons, Zlength_nil. unfold Zlength in *. lia.
  - intros b y n. rewrite lookup_alter. case_decide as Hb; [|intros Hy; specialize (H2 b y n Hy); lia].
    intros ([z j] & Hz & [= -> ->])%fmap_Some. specialize (H2 a z j Hz). cbn [snd]. lia.
Qed.

Lemma release_small N (s s' : shard) a ds : Spec.release s a = Some (s', ds) -> small N s -> small N s'.
Proof.
  intros Hr [H1 H2]. unfold Spec.release in Hr. destruct (live s !! a) as [[x [|n]]|] eqn:El; [done| |done]. cbn [live order] in Hr.
  set (s1 := MkShard _ _) in Hr. assert (small N s1) as [H3 H4].
  { split; [done|]. intros b y j Hb. unfold s1 in Hb. cbn [live] in Hb. apply lookup_insert_Some in Hb as [[-> [= _ <-]]|[_ Hb]].
    - specialize (H2 b x _ El). lia.
    - by eapply H2. }
  case_decide; injection Hr as Hr; [by simplify_eq|]. unfold reap in Hr.
  destruct (live s1 !! a) as [[y [|j]]|]; simplify_eq; [|done..]. split; [done|]. intros b z i. cbn [live].
  intros [_ Hb]%lookup_delete_Some. by eapply H4.
Qed.

Lemma erase_small N (s : shard) k h : small N s -> small N (Spec.erase s k h).1.
Proof. intros H. unfold Spec.erase. destruct (find s k h); [by apply uncache_small|done]. Qed.

(** *** All shards *)

Definition in_shard (i : nat) (x : entry) : Prop := e_hash x = HashSlice (e_key x) /\ Shard (e_hash x) = i.

Record srep (lrus : list nat) (cap : Z) (ss : ShardedLRUCache) (m : memory) (C : cache V D) : Prop := {
  sr_len : length (shard_ ss) = length lrus /\ length (shards C) = length lrus;
  sr_shard : forall i c s lru, shard_ ss !! i = Some c -> shards C !! i = Some s -> lrus !! i = Some lru ->
    rep (dom (handles m) ∖ dom (live s)) cap lru c m s;
  sr_keys : forall i s, shards C !! i = Some s -> all_entries (in_shard i) s;
  sr_dom : dom (handles m) = alloc lrus (shards C);
  sr_disj : forall i j s s', i <> j -> shards C !! i = Some s -> shards C !! j = Some s' -> dom (live s) ## dom (live s');
  sr_lru : forall j s lru, lru ∈ lrus -> shards C !! j = Some s -> lru ∉ dom (live s);
  sr_nodup : NoDup lrus;
  sr_id : sharded_last_id_ ss = last_id C;
  sr_log : deletions m = log C
}.

Lemma elem_of_alloc lrus (ss : list shard) a : a ∈ alloc lrus ss <-> a ∈ lrus \/ exists i s, ss !! i = Some s /\ a ∈ dom (live s).
Proof.
  unfold alloc. rewrite elem_of_union, elem_of_list_to_set, elem_of_union_list. f_equiv. split.
  - intros (X & HX & Ha). apply list_elem_of_In, in_map_iff in HX as (s & <- & Hs). apply list_elem_of_In, list_elem_of_lookup in Hs as [i Hi]. eauto.
  - intros (i & s & Hi & Ha). exists (dom (live s)). split; [|done]. apply list_elem_of_In, in_map_iff. exists s. split; [done|].
    apply list_elem_of_In. by eapply list_elem_of_lookup_2.
Qed.

(** A shard looks at its own handles. *)
Lemma rep_frame (B B' : gset nat) cap lru c (m m' : memory) (s : shard) : rep B cap lru c m s ->
  (forall x, x = lru \/ x ∈ dom (live s) -> handles m' !! x = handles m !! x) -> dom (handles m') = B' ∪ dom (live s) ->
  B' ## dom (live s) -> lru ∈ B' -> rep B' cap lru c m' s.
Proof.
  intros [Hc Hl Hus Hph Hheld Hd Hdis HB] Hx Hd' Hdis' HB'. split; try done.
  assert (forall x, foot lru (cell_of s) x -> handles m' !! x = handles m !! x) as Hfoot
    by (intros x [->|Hx0%cell_of_live]; apply Hx; auto).
  pose proof Hph as [Hr Ht Hce Ho Hi Hlr]. split; try done.
  - apply (ring_frame (nxt (handles m)) (prv (handles m))); [done|..]; intros x Hin; unfold nxt, prv;
      rewrite Hfoot; try done; by eapply foot_ring.
  - apply (table_holds_ext (handles m)); [| |done]; intros a Ha; destruct (Hi a Ha) as [[x r] Ex].
    + destruct (Hce a x r Ex) as (h & Hh & _ & _ & Hne & _). exists h. rewrite Hfoot by (right; eauto). done.
    + rewrite Hfoot by (right; eauto). done.
  - intros a x r Ex. rewrite Hfoot by (right; eauto). by apply Hce.
Qed.

(** A step of shard [i]. *)
Lemma srep_put lrus cap ss (m m' : memory) (C : cache V D) i c s lru c' r :
  srep lrus cap ss m C -> shard_ ss !! i = Some c -> shards C !! i = Some s -> lrus !! i = Some lru ->
  rep (dom (handles m) ∖ dom (live s)) cap lru c' m' r.1 -> moves (dom (handles m) ∖ dom (live s)) lru m m' r.2 ->
  all_entries (in_shard i) r.1 -> srep lrus cap (with_shard ss i c') m' (put C i r).
Proof.
  intros [[Hl1 Hl2] Hsh Hk Hd Hdj Hlr Hnd Hid Hlog] Hc Hs Hlru Hr [Hdel Hmv] Hall.
  set (B := dom (handles m) ∖ dom (live s)) in *. pose proof (rp_dom _ _ _ _ _ _ _ Hr) as Hdm. pose proof (rp_disj _ _ _ _ _ _ _ Hr) as HdB.
  assert (forall j s', j <> i -> shards C !! j = Some s' -> dom (live s') ⊆ B) as Hsub.
  { intros j s' Hj Hs'. intros a Ha. unfold B. rewrite Hd. apply elem_of_difference. split; [apply elem_of_alloc; eauto|].
    intros Ha'. by apply (Hdj j i s' s Hj Hs' Hs a). }
  assert (forall lru', lru' ∈ lrus -> lru' ∈ B) as HlB.
  { intros l Hl. unfold B. rewrite Hd. apply elem_of_difference. split; [apply elem_of_alloc; auto|]. by eapply Hlr. }
  assert (i < length (shards C))%nat as Hi by (by eapply lookup_lt_Some).
  split; cbn [put shards last_id log with_shard shard_ sharded_last_id_].
  - by rewrite !length_insert.
  - intros j cj sj lj Hcj Hsj Hlj. destruct (decide (j = i)) as [->|Hne].
    + rewrite list_lookup_insert_eq in Hcj by lia. rewrite list_lookup_insert_eq in Hsj by lia. simplify_eq.
      replace (dom (handles m') ∖ dom (live r.1)) with B; [done|]. rewrite Hdm. set_solver.
    + rewrite list_lookup_insert_ne in Hcj by done. rewrite list_lookup_insert_ne in Hsj by done. pose proof (Hsh j cj sj lj Hcj Hsj Hlj) as Hrj.
      assert (lj ∈ B) as HljB by (apply HlB; by eapply list_elem_of_lookup_2).
      assert (lj <> lru) as Hlne by (intros ->; apply Hne; by eapply NoDup_lookup).
      assert (lru ∉ dom (live sj)) as Hlrj by (eapply Hlr; [by eapply list_elem_of_lookup_2|done]).
      specialize (Hsub j sj Hne Hsj).
      eapply rep_frame; [exact Hrj| | | |].
      * intros x [->|Hx]; apply Hmv; [done|done|by apply Hsub|]. by intros ->.
      * rewrite difference_union_L, Hdm. set_solver.
      * set_solver.
      * apply elem_of_difference. split; [rewrite Hdm; set_solver|]. eapply Hlr; [by eapply list_elem_of_lookup_2|done].
  - intros j sj Hsj. destruct (decide (j = i)) as [->|Hne]; [|rewrite list_lookup_insert_ne in Hsj by done; eauto].
    rewrite list_lookup_insert_eq in Hsj by done. by injection Hsj as <-.
  - apply set_eq. intros a. rewrite elem_of_alloc, Hdm, elem_of_union. split.
    + intros [Ha|Ha]; [|right; exists i, r.1; by rewrite list_lookup_insert_eq by done].
      unfold B in Ha. apply elem_of_difference in Ha as [Ha Hna]. rewrite Hd in Ha. apply elem_of_alloc in Ha as [Ha|(j & sj & Hj & Ha)]; [by left|].
      right. exists j, sj. rewrite list_lookup_insert_ne; [done|]. intros ->. by simplify_eq.
    + intros [Ha|(j & sj & Hj & Ha)]; [left; auto|]. destruct (decide (j = i)) as [->|Hne].
      * rewrite list_lookup_insert_eq in Hj by done. injection Hj as <-. by right.
      * rewrite list_lookup_insert_ne in Hj by done. left. by eapply Hsub.
  - assert (forall j sj, j <> i -> shards C !! j = Some sj -> dom (live r.1) ## dom (live sj)) as Hdr.
    { intros j sj Hj Hsj. specialize (Hsub j sj Hj Hsj). set_solver. }
    intros j1 j2 s1 s2 Hne H1 H2. destruct (decide (j1 = i)) as [->|H1i].
    + rewrite list_lookup_insert_eq in H1 by done. injection H1 as <-. rewrite list_lookup_insert_ne in H2 by done. by eapply Hdr.
    + rewrite list_lookup_insert_ne in H1 by done. destruct (decide (j2 = i)) as [->|H2i].
      * rewrite list_lookup_insert_eq in H2 by done. injection H2 as <-. symmetry. by eapply Hdr.
      * rewrite list_lookup_insert_ne in H2 by done. by apply (Hdj j1 j2).
  - intros j sj l Hl Hsj. destruct (decide (j = i)) as [->|Hne]; [|rewrite list_lookup_insert_ne in Hsj by done; by eapply Hlr].
    rewrite list_lookup_insert_eq in Hsj by done. injection Hsj as <-. specialize (HlB l Hl). set_solver.
  - done.
  - done.
  - by rewrite Hdel, Hlog.
Qed.

Definition all_small (N : Z) (C : cache V D) : Prop := forall i s, shards C !! i = Some s -> small N s.

Lemma put_small N (C : cache V D) i r : all_small N C -> small (N + 1) r.1 -> all_small (N + 1) (put C i r).
Proof.
  intros Hs Hr j s Hj. cbn in Hj. destruct (decide (j = i)) as [->|Hne].
  - apply list_lookup_insert_Some in Hj as [(_ & <- & _)|[? _]]; done.
  - rewrite list_lookup_insert_ne in Hj by done. apply (small_mono N); [lia|eauto].
Qed.

Lemma srep_at lrus cap ss m (C : cache V D) i s : srep lrus cap ss m C -> shards C !! i = Some s ->
  exists c lru, shard_ ss !! i = Some c /\ lrus !! i = Some lru /\ rep (dom (handles m) ∖ dom (live s)) cap lru c m s.
Proof.
  intros Hr Hs. pose proof (lookup_lt_Some _ _ _ Hs) as Hi. pose proof (sr_len _ _ _ _ _ Hr) as [Hl1 Hl2].
  destruct (lookup_lt_is_Some_2 (shard_ ss) i) as [c Hc]; [lia|]. destruct (lookup_lt_is_Some_2 lrus i) as [lru Hl]; [lia|].
  exists c, lru. split_and!; [done|done|]. by eapply sr_shard.
Qed.

Lemma HashSlice_u32 k : is_u32 (HashSlice k).
Proof. apply Hash_range. vm_compute. split; congruence. Qed.

(** The live handle at [a]. *)
Lemma srep_handle lrus cap ss m (C : cache V D) i s a x n : srep lrus cap ss m C -> shards C !! i = Some s -> live s !! a = Some (x, n) ->
  exists h, handles m !! a = Some h /\ entry_of h = x /\ is_u32 (hash h).
Proof.
  intros Hr Hs Ha. destruct (srep_at _ _ _ _ _ _ _ Hr Hs) as (c & lru & _ & _ & Hrep).
  destruct (ph_cell _ _ _ _ _ _ (rp_phys _ _ _ _ _ _ _ Hrep) a x (Z.of_nat n + (if decide (a ∈ order s) then 1 else 0))) as (h & Hh & Hx & _ & _ & Hu);
    [unfold cell_of; by rewrite Ha|eauto].
Qed.

(** *** A new cache *)

Lemma new_shards_ok g cap lrus : forall m : memory, NoDup lrus -> (forall l, l ∈ lrus -> l ∉ dom (handles m)) ->
  exists cs m', new_shards lrus g cap m = Some (cs, m') /\ length cs = length lrus /\ deletions m' = deletions m /\
    dom (handles m') = list_to_set lrus ∪ dom (handles m) /\ (forall x, x ∉ lrus -> handles m' !! x = handles m !! x) /\
    forall i c l, cs !! i = Some c -> lrus !! i = Some l -> rep (dom (handles m')) cap l c m' Spec.empty.
Proof.
  induction lrus as [|l lrus IH]; intros m Hnd Hl; cbn [new_shards].
  - exists [], m. split_and!; try done. cbn [list_to_set foldr]. set_solver.
  - apply NoDup_cons in Hnd as [Hln Hnd]. destruct (LRUCache_new_ok l g cap m) as (c & m1 & -> & Hr1 & Hd1 & Hdom1 & Hf1); [apply Hl; left|].
    bind_simpl. destruct (IH m1 Hnd) as (cs & m2 & -> & Hlen & Hd2 & Hdom2 & Hf2 & Hr2).
    { intros l' Hl' Hin. rewrite Hdom1 in Hin. apply elem_of_union in Hin as [->%elem_of_singleton|Hin]; [done|].
      apply (Hl l'); [by right|done]. }
    bind_simpl. do 2 eexists. split; [done|]. split_and!.
    + cbn. by rewrite Hlen.
    + by rewrite Hd2.
    + rewrite Hdom2, Hdom1, list_to_set_cons. set_solver.
    + intros x Hx. rewrite Hf2 by set_solver. apply Hf1. set_solver.
    + intros [|i] c' l' Hc' Hl'; cbn in Hc', Hl'; simplify_eq; [|eauto].
      eapply rep_frame; [exact Hr1| | | |]; cbn [Spec.empty live]; rewrite ?dom_empty_L; try set_solver.
Qed.

(** Each shard's share of the capacity. *)
Definition per_shard (capacity : Z) : Z := u64 (capacity + 15) / 16.

Lemma new_cache_ok lrus g capacity : NoDup lrus -> length lrus = 16%nat ->
  exists ss m, NewLRUCache lrus g capacity (MkMemory (V := V) (D := D) ∅ []) = Some (ss, m) /\
    srep lrus (per_shard capacity) ss m (new_cache (V := V) (D := D)) /\ all_small 0 (new_cache (V := V) (D := D)).
Proof.
  intros Hnd Hlen. unfold NewLRUCache. change (kNumShards - 1) with 15. change kNumShards with 16. fold (per_shard capacity).
  destruct (new_shards_ok g (per_shard capacity) lrus (MkMemory ∅ []) Hnd) as (cs & m & -> & Hl & Hd & Hdom & Hf & Hr).
  { intros l _. cbn [handles]. rewrite dom_empty_L. set_solver. }
  bind_simpl. do 2 eexists. split; [done|]. unfold new_cache. change (Z.to_nat kNumShards) with 16%nat.
  split; [|intros i s [-> _]%lookup_replicate; split; [done|intros a x n]; cbn; by rewrite lookup_empty].
  split; cbn [shard_ shards last_id log sharded_last_id_]; try done.
  - intros i c s lru Hc [-> _]%lookup_replicate Hlru. cbn [Spec.empty live]. rewrite dom_empty_L, difference_empty_L. by eapply Hr.
  - intros i s [-> _]%lookup_replicate a x n. cbn. by rewrite lookup_empty.
  - intros i j s s' _ [-> _]%lookup_replicate _. cbn. rewrite dom_empty_L. set_solver.
  - intros j s lru _ [-> _]%lookup_replicate. cbn. rewrite dom_empty_L. set_solver.
Qed.

End Runs.

Section Simulation.
Context {V D : Type}.
Context (malloc : gset nat -> nat) (malloc_fresh : forall X, malloc X ∉ X).

Lemma call_ok lrus cap ss m (C C' : cache V D) N op o : srep lrus cap ss m C -> all_small N C -> 0 <= N < 2 ^ 31 ->
  spec_call malloc lrus cap C op = Some (o, C') ->
  exists ss' m', call malloc ss m op = Some (o, ss', m') /\ srep lrus cap ss' m' C' /\ all_small (N + 1) C'.
Proof.
  intros Hr Hsm HN Hcall. destruct op as [k v charge d|k|a|k|a|]; cbn [spec_call call] in *.
  - destruct (shards C !! Shard (HashSlice k)) as [s|] eqn:Es; [|done]. cbn [mbind option_bind] in Hcall. injection Hcall as <- <-.
    destruct (srep_at _ _ _ _ _ _ _ Hr Es) as (c & lru & Ec & El & Hrep). unfold Sharded_Insert. rewrite Ec. bind_simpl.
    destruct (LRU_Insert_ok malloc _ cap lru c m s k (HashSlice k) v charge d malloc_fresh Hrep) as (c' & m' & E & Hrep' & Hmv);
      [apply (small_mono N); [lia|eauto]|apply HashSlice_u32|].
    rewrite E. bind_simpl. rewrite <- (sr_dom _ _ _ _ _ Hr). do 2 eexists. split; [done|]. split.
    + eapply srep_put; try done. apply insert_all; [done|]. by eapply sr_keys.
    + apply put_small; [done|]. apply insert_small; [lia|eauto].
  - destruct (shards C !! Shard (HashSlice k)) as [s|] eqn:Es; [|done]. cbn [mbind option_bind] in Hcall. injection Hcall as <- <-.
    destruct (srep_at _ _ _ _ _ _ _ Hr Es) as (c & lru & Ec & El & Hrep). unfold Sharded_Lookup. rewrite Ec. bind_simpl.
    destruct (Lookup_ok _ cap lru c m s k (HashSlice k) Hrep) as (m' & E & Hrep' & Hmv);
      [apply (small_mono N); [lia|eauto]|apply HashSlice_u32|].
    rewrite E. bind_simpl. do 2 eexists. split; [done|]. split; [|apply put_small; [done|]; apply lookup_small; eauto].
    replace ss with (with_shard ss (Shard (HashSlice k)) c) by (destruct ss; unfold with_shard; cbn in *; f_equal; by apply list_insert_id).
    eapply srep_put; try done. apply lookup_all. by eapply sr_keys.
  - unfold owner in Hcall. destruct (list_find _ (shards C)) as [[i s]|] eqn:Ef; [|done]. cbn [mbind option_bind] in Hcall.
    apply list_find_Some in Ef as (Es & [[x n] Ha] & _). destruct (Spec.release s a) as [[s' ds]|] eqn:Erel; [|done].
    cbn [mbind option_bind] in Hcall. injection Hcall as <- <-. destruct (srep_handle _ _ _ _ _ _ _ _ _ _ Hr Es Ha) as (h & Hh & Hx & Hu).
    destruct (srep_at _ _ _ _ _ _ _ Hr Es) as (c & lru & Ec & El & Hrep). unfold Sharded_Release. rewrite Hh. bind_simpl.
    destruct (sr_keys _ _ _ _ _ Hr i s Es a x n Ha) as [_ Hi]. subst x. cbn [entry_of e_hash] in Hi.
    rewrite u32_small, Hi by done. rewrite Ec. bind_simpl.
    destruct (Release_ok _ cap lru c m s a s' ds Hrep) as (c' & m' & E & Hrep' & Hmv); [apply (small_mono N); [lia|eauto]|done|].
    rewrite E. bind_simpl. do 2 eexists. split; [done|]. split.
    + apply (srep_put lrus cap ss m m' C i c s lru c' (s', ds)); try done. eapply release_all; [exact Erel|]. by eapply sr_keys.
    + apply put_small; [done|]. apply (small_mono N); [lia|]. eapply release_small; [exact Erel|eauto].
  - destruct (shards C !! Shard (HashSlice k)) as [s|] eqn:Es; [|done]. cbn [mbind option_bind] in Hcall. injection Hcall as <- <-.
    destruct (srep_at _ _ _ _ _ _ _ Hr Es) as (c & lru & Ec & El & Hrep). unfold Sharded_Erase. rewrite Ec. bind_simpl.
    destruct (Erase_ok _ cap lru c m s k (HashSlice k) Hrep) as (c' & m' & E & Hrep' & Hmv);
      [apply (small_mono N); [lia|eauto]|apply HashSlice_u32|].
    rewrite E. bind_simpl. do 2 eexists. split; [done|]. split.
    + eapply srep_put; try done. apply erase_all. by eapply sr_keys.
    + apply put_small; [done|]. apply (small_mono N); [lia|]. apply erase_small. eauto.
  - unfold owner in Hcall. destruct (list_find _ (shards C)) as [[i s]|] eqn:Ef; [|done]. cbn [mbind option_bind] in Hcall.
    apply list_find_Some in Ef as (Es & [[x n] Ha] & _). rewrite Ha in Hcall. destruct n as [|n]; [done|]. injection Hcall as <- <-.
    destruct (srep_handle _ _ _ _ _ _ _ _ _ _ Hr Es Ha) as (h & Hh & Hx & Hu). unfold Value. rewrite Hh. bind_simpl.
    subst x. do 2 eexists. split; [done|]. split; [done|]. intros j sj Hj. apply (small_mono N); [lia|eauto].
  - injection Hcall as <- <-. unfold NewId. rewrite (sr_id _ _ _ _ _ Hr). do 2 eexists. split; [done|]. split.
    + destruct Hr as [H1 H2 H3 H4 H5 H6 H7 H8 H9]. by split.
    + intros j sj Hj. apply (small_mono N); [lia|eauto].
Qed.

Lemma calls_ok lrus cap ops : forall ss m (C C' : cache V D) N os, srep lrus cap ss m C -> all_small N C -> 0 <= N -> N + Zlength ops <= 2 ^ 31 ->
  spec_calls malloc lrus cap C ops = Some (os, C') ->
  exists ss' m', calls malloc ss m ops = Some (os, ss', m') /\ srep lrus cap ss' m' C'.
Proof.
  induction ops as [|op ops IH]; intros ss m C C' N os Hr Hsm HN HN' Hc; cbn [spec_calls calls] in *; [injection Hc as <- <-; eauto|].
  rewrite Zlength_cons in HN'. pose proof (Zlength_nonneg ops).
  destruct (spec_call malloc lrus cap C op) as [[o C1]|] eqn:E1; [|done]. cbn [mbind option_bind] in Hc.
  destruct (spec_calls malloc lrus cap C1 ops) as [[os' C2]|] eqn:E2; [|done]. cbn [mbind option_bind] in Hc. injection Hc as <- <-.
  destruct (call_ok lrus cap ss m C C1 N op o Hr Hsm) as (ss1 & m1 & -> & Hr1 & Hs1); [lia|done|]. bind_simpl.
  destruct (IH ss1 m1 C1 C2 (N + 1) os' Hr1 Hs1) as (ss2 & m2 & -> & Hr2); [lia|lia|done|]. bind_simpl. eauto.
Qed.

End Simulation.

(** * Properties *)

(** C33: The cache implements its specification: for any calls by clients that
    release, and take the values of, only handles they hold, no dangling pointer is
    followed and no assertion fails; every call returns what the specification says
    (the handle, the value or the id), the deleters are called with the same
    arguments in the same order, exactly the dummies and the live entries are
    allocated, and the handles of live entries give their values. *)
Theorem ShardedLRUCache_refines {V D} (malloc : gset nat -> nat) (lrus : list nat) (g : LRUHandle V D) (capacity : Z)
    (ops : list (cache_op V D)) (os : list (outcome V)) (C : cache V D) :
  (forall X, malloc X ∉ X) -> NoDup lrus -> length lrus = 16%nat -> Zlength ops <= 2 ^ 31 ->
  spec_calls malloc lrus (per_shard capacity) new_cache ops = Some (os, C) ->
  exists ss0 m0 ss m, NewLRUCache lrus g capacity (MkMemory ∅ []) = Some (ss0, m0) /\
    calls malloc ss0 m0 ops = Some (os, ss, m) /\ deletions m = log C /\ dom (handles m) = alloc lrus (shards C) /\
    forall i s a x n, shards C !! i = Some s -> live s !! a = Some (x, n) -> Value m a = Some (e_value x).
Proof.
  intros Hm Hnd Hlen Hops Hc. destruct (new_cache_ok lrus g capacity Hnd Hlen) as (ss0 & m0 & E0 & Hr0 & Hs0).
  destruct (calls_ok malloc Hm lrus _ ops ss0 m0 _ C 0 os Hr0 Hs0) as (ss & m & E & Hr); [done|lia|done|].
  exists ss0, m0, ss, m. split_and!; [done|done|by apply Hr|by apply Hr|]. intros i s a x n Hs Ha.
  destruct (srep_handle _ _ _ _ _ _ _ _ _ _ Hr Hs Ha) as (h & Hh & <- & _). unfold Value. by rewrite Hh.
Qed.

(** A small cache: an entry replaced while a client holds it is finalised when it
    is released. *)
Definition demo_ops : list (cache_op nat unit) :=
  [OpInsert [Byte.x61] 7%nat 1 tt; OpInsert [Byte.x61] 8%nat 1 tt; OpValue 16; OpRelease 16; OpLookup [Byte.x61]; OpRelease 17;
   OpErase [Byte.x61]; OpNewId].

Definition demo_dummy : LRUHandle nat unit := MkLRUHandle 0%nat tt None 0%nat 0%nat 0 0 0 [].

Lemma ShardedLRUCache_refines_witness : exists ss0 m0 ss m,
  NewLRUCache (seq 0 16) demo_dummy 100 (MkMemory ∅ []) = Some (ss0, m0) /\
  calls fresh ss0 m0 demo_ops = Some ([OutHandle (Some 16%nat); OutHandle (Some 17%nat); OutValue 7%nat; OutUnit; OutHandle (Some 17%nat);
    OutUnit; OutUnit; OutId 1], ss, m) /\ deletions m = [(tt, [Byte.x61], 7%nat)].
Proof.
  destruct (ShardedLRUCache_refines fresh (seq 0 16) demo_dummy 100 demo_ops
    [OutHandle (Some 16%nat); OutHandle (Some 17%nat); OutValue 7%nat; OutUnit; OutHandle (Some 17%nat); OutUnit; OutUnit; OutId 1]
    (default new_cache (snd <$> spec_calls fresh (seq 0 16) (per_shard 100) new_cache demo_ops))) as (ss0 & m0 & ss & m & E0 & E & Hd & _).
  - intros X. apply is_fresh.
  - apply (bool_decide_unpack _). vm_compute. exact I.
  - reflexivity.
  - vm_compute. congruence.
  - vm_compute. reflexivity.
  - exists ss0, m0, ss, m. split; [exact E0|]. split; [exact E|]. rewrite Hd. vm_compute. reflexivity.
Defined.
