(* ===== verification/CacheAccount.v ===== *)
(** The LRU cache of util/cache.cpp: every entry is finalised once, the charges
    stay within the capacity, and the destructor leaves nothing behind. *)

From Stdlib Require Import ZArith Lia List Bool.
From S2P Require Import Prelude Lists DList Slice Hashing Cache CacheStore CacheSpec CacheRun.
Import LRU Spec.

Section Account.
Context {V D : Type}.
Abbreviation entry := (entry V D).
Abbreviation shard := (@Spec.shard V D).
Abbreviation memory := (@LRU.memory V D).
Abbreviation finalization := (D * bytes * V)%type.

(** ** Accounting *)

Lemma remaining_insert (l : gmap nat (entry * nat)) a x n : l !! a = None -> remaining_map (<[a := (x, n)]> l) ≡ₚ finalized x :: remaining_map l.
Proof. intros Ha. unfold remaining_map. rewrite map_to_list_insert by done. done. Qed.

Lemma remaining_delete (l : gmap nat (entry * nat)) a x n : l !! a = Some (x, n) -> remaining_map l ≡ₚ finalized x :: remaining_map (delete a l).
Proof. intros Ha. rewrite <- (insert_delete_id l a _ Ha) at 1. apply remaining_insert, lookup_delete_eq. Qed.

Lemma remaining_held (l : gmap nat (entry * nat)) a x n n' : l !! a = Some (x, n) -> remaining_map (<[a := (x, n')]> l) ≡ₚ remaining_map l.
Proof.
  intros Ha. rewrite <- (insert_delete_eq l a), remaining_insert by apply lookup_delete_eq. by rewrite (remaining_delete l a x n).
Qed.

Lemma alter_hold (l : gmap nat (entry * nat)) a x n : l !! a = Some (x, n) -> alter (fun p => (p.1, S p.2)) a l = <[a := (x, S n)]> l.
Proof.
  intros Ha. apply map_eq. intros b. destruct (decide (b = a)) as [->|Hb];
    [by rewrite lookup_insert_eq, lookup_alter_eq, Ha|by rewrite lookup_insert_ne, lookup_alter_ne].
Qed.

Lemma reap_remaining (s : shard) a : remaining s ≡ₚ (reap a s).2 ++ remaining (reap a s).1.
Proof. unfold reap. destruct (live s !! a) as [[x [|n]]|] eqn:E; [|done..]. cbn. by apply remaining_delete with (n := 0%nat). Qed.

Lemma uncache_remaining (s : shard) a : remaining s ≡ₚ (uncache a s).2 ++ remaining (uncache a s).1.
Proof. apply (reap_remaining (MkShard (live s) (remove a (order s)))). Qed.

Lemma evict_remaining cap l : forall s : shard, remaining s ≡ₚ (Spec.evict cap l s).2 ++ remaining (Spec.evict cap l s).1.
Proof.
  induction l as [|a l IH]; intros s; [done|]. cbn [Spec.evict]. destruct (_ >? _); [|done].
  rewrite (uncache_remaining s a). destruct (uncache a s) as [s1 d1]. cbn [fst snd]. rewrite (IH s1).
  destruct (Spec.evict cap l s1) as [s2 d2]. cbn [fst snd]. by rewrite app_assoc.
Qed.

Lemma insert_remaining cap (s : shard) a x : live s !! a = None ->
  finalized x :: remaining s ≡ₚ (Spec.insert cap s a x).2 ++ remaining (Spec.insert cap s a x).1.
Proof.
  intros Ha. unfold Spec.insert. set (s1 := MkShard _ _).
  assert (finalized x :: remaining s ≡ₚ remaining s1) as -> by (symmetry; by apply remaining_insert).
  assert (remaining s1 ≡ₚ (match find s (e_key x) (e_hash x) with Some o => uncache o s1 | None => (s1, []) end).2 ++
    remaining (match find s (e_key x) (e_hash x) with Some o => uncache o s1 | None => (s1, []) end).1) as ->
    by (destruct (find _ _ _); [apply uncache_remaining|done]).
  destruct (match find s (e_key x) (e_hash x) with Some o => uncache o s1 | None => (s1, []) end) as [s2 d1]. cbn [fst snd].
  rewrite (evict_remaining cap (order s2) s2). destruct (Spec.evict _ _ s2) as [s3 d2]. cbn [fst snd]. by rewrite app_assoc.
Qed.

Lemma find_live (s : shard) k h a : find s k h = Some a -> exists x n, live s !! a = Some (x, n).
Proof. unfold find, has_key. intros [_ H]%find_some. destruct (live s !! a) as [[x n]|]; [eauto|done]. Qed.

Lemma lookup_remaining (s : shard) k h : remaining s ≡ₚ remaining (Spec.lookup s k h).2.
Proof.
  unfold Spec.lookup. destruct (find s k h) as [a|] eqn:Ef; [|done]. destruct (find_live s k h a Ef) as (x & n & El).
  cbn [snd]. unfold remaining. cbn [live]. rewrite (alter_hold _ a x n El). by rewrite remaining_held.
Qed.

Lemma release_remaining (s : shard) a r : Spec.release s a = Some r -> remaining s ≡ₚ r.2 ++ remaining r.1.
Proof.
  unfold Spec.release. destruct (live s !! a) as [[x [|n]]|] eqn:El; [done| |done]. cbn [live order]. set (s1 := MkShard _ _). intros [= <-].
  assert (remaining s ≡ₚ remaining s1) as -> by (symmetry; by eapply remaining_held). case_decide; [done|]. apply reap_remaining.
Qed.

Lemma erase_remaining (s : shard) k h : remaining s ≡ₚ (Spec.erase s k h).2 ++ remaining (Spec.erase s k h).1.
Proof. unfold Spec.erase. destruct (find s k h); [apply uncache_remaining|done]. Qed.

Lemma put_remaining (C : cache V D) i s r new : shards C !! i = Some s -> new ++ remaining s ≡ₚ r.2 ++ remaining r.1 ->
  new ++ log C ++ remaining_all (shards C) ≡ₚ log (put C i r) ++ remaining_all (shards (put C i r)).
Proof.
  intros Hs Hp. unfold put, remaining_all. cbn [log shards].
  rewrite list_fmap_insert. pose proof (concat_insert_perm (remaining <$> shards C) i (remaining s) (remaining r.1)) as H.
  rewrite list_lookup_fmap, Hs in H. specialize (H eq_refl). apply (Permutation_app_inv_r (remaining s)).
  rewrite <- !app_assoc. rewrite H.
  transitivity (log C ++ (new ++ remaining s) ++ concat (remaining <$> shards C)); [solve_Permutation|]. rewrite Hp. solve_Permutation.
Qed.

Lemma inserted_cons (op : cache_op V D) ops : inserted (op :: ops) = inserted [op] ++ inserted ops.
Proof. unfold inserted. cbn [omap list_omap]. by destruct op. Qed.

(** ** Capacity *)

Definition charged_ok (s : shard) : Prop := all_entries (fun x => 0 <= e_charge x) s.

(** The charges fit, or no entry is in the cache. *)
Definition fits (cap : Z) (s : shard) : Prop := total (live s) <= cap \/ order s = [].

Lemma total_nonneg (l : gmap nat (entry * nat)) : (forall a x n, l !! a = Some (x, n) -> 0 <= e_charge x) -> 0 <= total l.
Proof.
  induction l as [|a [x n] l Ha IH] using map_ind; intros Hl.
  - unfold total. by rewrite map_fold_empty.
  - rewrite total_insert by done. cbn [fst]. pose proof (Hl a x n ltac:(by rewrite lookup_insert_eq)).
    assert (0 <= total l); [|lia]. apply IH. intros b y m Hb. apply (Hl b y m). rewrite lookup_insert_ne; [done|]. intros ->. congruence.
Qed.

Lemma reap_total (s : shard) a : charged_ok s -> total (live (reap a s).1) <= total (live s).
Proof.
  intros Hs. unfold reap. destruct (live s !! a) as [[x [|n]]|] eqn:E; cbn [fst live]; [|lia..].
  rewrite (total_delete (live s) a (x, 0%nat) E). specialize (Hs a x _ E). cbn in *. lia.
Qed.

Lemma uncache_total (s : shard) a : charged_ok s -> total (live (uncache a s).1) <= total (live s).
Proof. intros Hs. by apply (reap_total (MkShard (live s) (remove a (order s)))). Qed.

Lemma uncache_fits cap (s : shard) a : charged_ok s -> fits cap s -> fits cap (uncache a s).1.
Proof.
  intros Hs [Ht|Ho]; [left|right; by rewrite uncache_order, Ho]. pose proof (uncache_total s a Hs). lia.
Qed.

Lemma evict_fits cap l : forall s : shard, NoDup l -> order s = l -> charged_ok s -> total (live s) < 2 ^ 64 ->
  fits cap (Spec.evict cap l s).1 /\ total (live (Spec.evict cap l s).1) <= total (live s).
Proof.
  induction l as [|a l IH]; intros s Hnd Ho Hs Ht; cbn [Spec.evict fst]; [split; [by right|lia]|].
  assert (usage s = total (live s)) as Eu by (apply u64_small; split; [by apply total_nonneg|done]). rewrite Eu, Z.gtb_ltb.
  destruct (Z.ltb_spec cap (total (live s))) as [_|Hle]; [|cbn [fst]; split; [by left|lia]].
  pose proof (uncache_total s a Hs) as Ht1. pose proof (uncache_all _ s a Hs) as Hs1. pose proof (uncache_order s a) as Ho1.
  destruct (uncache a s) as [s1 d1]. cbn [fst] in *. apply NoDup_cons in Hnd as [Ha Hnd].
  destruct (IH s1) as [IH1 IH2]; [done| |done|lia|].
  - rewrite Ho1, Ho. unfold remove. rewrite filter_cons_False by tauto. by apply remove_notin.
  - destruct (Spec.evict cap l s1) as [s2 d2]. cbn [fst] in *. split; [done|lia].
Qed.

Lemma remove_nodup a l : NoDup l -> NoDup (remove a l).
Proof. apply NoDup_filter. Qed.

Lemma insert_fits cap (s : shard) a x : NoDup (order s) -> a ∉ order s -> live s !! a = None -> charged_ok s -> 0 <= e_charge x ->
  e_charge x + total (live s) < 2 ^ 64 ->
  fits cap (Spec.insert cap s a x).1 /\ total (live (Spec.insert cap s a x).1) <= e_charge x + total (live s).
Proof.
  intros Hnd Ha Hl Hs Hx Ht. unfold Spec.insert. set (s1 := MkShard _ _).
  assert (total (live s1) = e_charge x + total (live s)) as Et1 by (unfold s1; cbn [live]; by rewrite total_insert).
  assert (charged_ok s1) as Hs1 by (by apply with_entry_all).
  assert (NoDup (order s1)) as Hn1.
  { unfold s1. cbn [order]. apply NoDup_app. split_and!; [done| |apply NoDup_singleton]. by intros y Hy ->%list_elem_of_singleton. }
  assert (forall r, r = match find s (e_key x) (e_hash x) with Some o => uncache o s1 | None => (s1, []) end ->
    charged_ok r.1 /\ NoDup (order r.1) /\ total (live r.1) <= total (live s1)) as Hr.
  { intros r ->. destruct (find _ _ _) as [o|]; [|by split_and!]. split_and!; [by apply uncache_all| |by apply uncache_total].
    rewrite uncache_order. by apply remove_nodup. }
  destruct (match find s (e_key x) (e_hash x) with Some o => uncache o s1 | None => (s1, []) end) as [s2 d1].
  destruct (Hr _ eq_refl) as (H1 & H2 & H3). cbn [fst] in *.
  pose proof (evict_fits cap (order s2) s2 H2 eq_refl H1 ltac:(lia)) as [H4 H5]. destruct (Spec.evict _ _ s2) as [s3 d2]. cbn [fst] in *.
  split; [done|lia].
Qed.

Lemma lookup_fits cap (s : shard) k h : fits cap s -> fits cap (Spec.lookup s k h).2 /\ total (live (Spec.lookup s k h).2) = total (live s).
Proof.
  intros Hf. unfold Spec.lookup. destruct (find s k h) as [a|] eqn:Ef; [|done]. destruct (find_live s k h a Ef) as (x & n & El).
  cbn [snd live]. rewrite (alter_hold _ a x n El), (total_held _ a x n) by done. split; [|done].
  destruct Hf as [Ht|Ho]; [left|]. { cbn [live]. by rewrite (total_held _ a x n). }
  apply find_in in Ef. rewrite Ho in Ef. by apply elem_of_nil in Ef.
Qed.

Lemma release_fits cap (s : shard) a r : Spec.release s a = Some r -> charged_ok s -> fits cap s -> fits cap r.1 /\ total (live r.1) <= total (live s).
Proof.
  unfold Spec.release. destruct (live s !! a) as [[x [|n]]|] eqn:El; [done| |done]. cbn [live order]. set (s1 := MkShard _ _). intros [= <-] Hs Hf.
  assert (total (live s1) = total (live s)) as Et by (by eapply total_held).
  assert (charged_ok s1) as Hs1 by (apply with_entry_all; [by eapply Hs|done]).
  assert (fits cap s1) as Hf1 by (destruct Hf; [left; lia|by right]).
  case_decide; [split; [done|cbn [fst]; lia]|]. pose proof (reap_total s1 a Hs1). split; [|lia].
  destruct Hf1 as [Ht|Ho]; [left; lia|right]. unfold reap. by destruct (live s1 !! a) as [[y [|j]]|].
Qed.

Lemma erase_fits cap (s : shard) k h : charged_ok s -> fits cap s -> fits cap (Spec.erase s k h).1 /\ total (live (Spec.erase s k h).1) <= total (live s).
Proof.
  intros Hs Hf. unfold Spec.erase. destruct (find s k h); [|by split; [|cbn [fst]; lia]].
  split; [by apply uncache_fits|by apply uncache_total].
Qed.

(** All shards fit, with charges of at most [T]. *)
Definition all_fit (cap T : Z) (C : cache V D) : Prop :=
  forall i s, shards C !! i = Some s -> charged_ok s /\ fits cap s /\ total (live s) <= T.

Lemma put_fit cap T T' (C : cache V D) i r : all_fit cap T C -> T <= T' -> charged_ok r.1 -> fits cap r.1 -> total (live r.1) <= T' ->
  all_fit cap T' (put C i r).
Proof.
  intros Hs HT H1 H2 H3 j s Hj. cbn in Hj. destruct (decide (j = i)) as [->|Hne].
  - apply list_lookup_insert_Some in Hj as [(_ & <- & _)|[? _]]; done.
  - rewrite list_lookup_insert_ne in Hj by done. destruct (Hs j s Hj) as (? & ? & ?). split_and!; [done|done|lia].
Qed.

(** ** The destructor *)

Lemma remaining_order (o : list nat) : forall l : gmap nat (entry * nat), NoDup o -> (forall a, a ∈ o <-> is_Some (l !! a)) ->
  remaining_map l ≡ₚ omap (fun a => finalized ∘ fst <$> l !! a) o.
Proof.
  induction o as [|a o IH]; intros l Hnd Ho.
  - assert (l = ∅) as ->; [|done]. apply map_empty. intros a. destruct (l !! a) as [p|] eqn:E; [|done].
    assert (a ∈ @nil nat) as H by (apply Ho; eauto). by apply elem_of_nil in H.
  - apply NoDup_cons in Hnd as [Ha Hnd]. destruct (proj1 (Ho a) ltac:(left)) as [[x n] El].
    cbn [omap list_omap]. rewrite El. cbn [fmap option_fmap option_map]. rewrite (remaining_delete l a x n El). constructor.
    rewrite (IH (delete a l) Hnd).
    + apply Permutation_refl', list_omap_ext, Forall_Forall2_diag, Forall_forall. intros b Hb.
      rewrite lookup_delete_ne; [done|]. by intros ->.
    + intros b. destruct (decide (b = a)) as [->|Hb].
      * rewrite lookup_delete_eq. split; [done|by intros [? ?]].
      * rewrite lookup_delete_ne, <- Ho by done. set_solver.
Qed.

Lemma destroy_loop_ok (l : list nat) : forall fuel c (m : memory), NoDup l -> lru_ c ∉ l ->
  chain (nxt (handles m)) (prv (handles m)) (l ++ [lru_ c]) ->
  (forall a, a ∈ l -> exists h, handles m !! a = Some h /\ refs h = 1 /\ next h <> a) -> (length l <= fuel)%nat ->
  exists c' m', destroy_loop fuel c m (default (lru_ c) (head l)) = Some (c', m') /\
    deletions m' = deletions m ++ omap (fun a => finalized ∘ entry_of <$> handles m !! a) l /\
    forall x, handles m' !! x = if decide (x ∈ l) then None else handles m !! x.
Proof.
  induction l as [|a l IH]; intros fuel c m Hnd Hl Hc Hin Hf.
  - exists c, m. split; [destruct fuel; cbn; by rewrite Nat.eqb_refl|]. split; [by rewrite app_nil_r|]. intros x. by rewrite decide_False by set_solver.
  - destruct fuel as [|fuel]; [cbn in Hf; lia|]. apply NoDup_cons in Hnd as [Ha Hnd]. cbn [destroy_loop head default id].
    rewrite (proj2 (Nat.eqb_neq _ _)) by set_solver. destruct (Hin a ltac:(left)) as (h & Hh & Hr & Hne).
    rewrite Hh. bind_simpl. rewrite Hr, Z.eqb_refl. unfold Unref. rewrite Hh. bind_simpl. rewrite Hr.
    change (1 >? 0) with true. change (u32 (1 - 1)) with 0. cbn [negb refs set_refs]. change (0 <=? 0) with true. cbv iota.
    unfold key. cbn [set_refs next]. rewrite decide_False by done. bind_simpl.
    assert (next h = default (lru_ c) (head l) /\ chain (nxt (handles m)) (prv (handles m)) (l ++ [lru_ c])) as [-> Hc'].
    { destruct l as [|b l]; cbn in Hc; destruct Hc as [[H _] Hc]; unfold nxt in H; rewrite Hh in H; injection H as ->; done. }
    destruct (IH fuel (with_usage c (u64 (usage_ c - charge h))) (MkMemory (delete a (handles m)) (deletions m ++ [finalized (entry_of h)])))
      as (c' & m' & E & Hd & Hm'); cbn [handles deletions with_usage lru_ length] in *.
    + done.
    + set_solver.
    + destruct l as [|b l]; [done|]. cbn [app] in *. apply (chain_ext (nxt (handles m)) (prv (handles m))); [done|..]; intros x Hx;
        unfold nxt, prv; rewrite lookup_delete_ne; try done; intros ->.
      * rewrite app_comm_cons, removelast_last in Hx. done.
      * apply Ha. right. apply elem_of_app in Hx as [?| ->%list_elem_of_singleton]; [done|]. set_solver.
    + intros b Hb. destruct (Hin b ltac:(by right)) as (hb & Hhb & ?). exists hb. rewrite lookup_delete_ne; [done|]. by intros ->.
    + lia.
    + exists c', m'. split; [exact E|]. split.
      * rewrite Hd, <- app_assoc. cbn [omap list_omap app]. rewrite Hh. cbn [fmap option_fmap option_map]. do 2 f_equal.
        apply list_omap_ext, Forall_Forall2_diag, Forall_forall. intros b Hb. rewrite lookup_delete_ne; [done|]. by intros ->.
      * intros x. rewrite Hm'. destruct (decide (x = a)) as [->|Hx].
        -- rewrite lookup_delete_eq. rewrite (decide_True (P := a ∈ a :: l)) by left. by case_decide.
        -- rewrite lookup_delete_ne by done. repeat case_decide; try done; set_solver.
Qed.

(** Nothing is held. *)
Definition unheld (s : shard) : Prop := forall a x n, live s !! a = Some (x, n) -> n = 0%nat.

Lemma destroy_ok B cap lru c (m : memory) s : rep B cap lru c m s -> unheld s ->
  exists c' m', LRUCache_destroy c m = Some (c', m') /\ deletions m' ≡ₚ deletions m ++ remaining s /\
    forall x, handles m' !! x = if decide (x ∈ dom (live s)) then None else handles m !! x.
Proof.
  intros Hr Hu. pose proof (rp_phys _ _ _ _ _ _ _ Hr) as Hph. pose proof (ph_ring _ _ _ _ _ _ Hph) as Hring.
  assert (forall a, a ∈ order s <-> is_Some (live s !! a)) as Ho.
  { intros a. split.
    - intros Ha. destruct (order_live _ _ _ _ _ _ _ a Hr Ha) as (x & n & -> & _). eauto.
    - intros [[x n] Ha]. rewrite (Hu a x n Ha) in Ha. by eapply rp_held. }
  unfold LRUCache_destroy. pose proof (ring_first _ _ _ _ Hring) as Hn. unfold nxt in Hn. rewrite (rp_lru _ _ _ _ _ _ _ Hr), Hn. bind_simpl.
  pose proof Hring as [Hc Hnd]. apply NoDup_cons in Hnd as [Hl Hnd].
  destruct (destroy_loop_ok (order s) (size (handles m)) c m Hnd) as (c' & m' & E & Hd & Hm'); rewrite ?(rp_lru _ _ _ _ _ _ _ Hr) in *.
  - done.
  - destruct (order s) as [|b o]; [done|]. by destruct Hc as [_ Hc].
  - intros a Ha. destruct (order_live _ _ _ _ _ _ _ a Hr Ha) as (x & n & El & Ec). rewrite (Hu a x n El) in Ec.
    destruct (ph_cell _ _ _ _ _ _ Hph a _ _ Ec) as (h & Hh & _ & Hrf & Hne & _). by exists h.
  - apply chain_size; [done|]. intros a Ha. eapply foot_alloc; [exact Hph|]. eapply foot_ring; [exact Hph|by right].
  - exists c', m'. split; [exact E|]. split.
    + rewrite Hd. f_equiv. symmetry. unfold remaining. rewrite (remaining_order (order s) (live s) Hnd Ho).
      apply Permutation_refl', list_omap_ext, Forall_Forall2_diag, Forall_forall. intros a Ha.
      destruct (order_live _ _ _ _ _ _ _ a Hr Ha) as (x & n & El & Ec).
      destruct (ph_cell _ _ _ _ _ _ Hph a _ _ Ec) as (h & Hh & Hx & _). rewrite El, Hh. cbn. by rewrite Hx.
    + intros x. rewrite Hm'. assert (x ∈ order s <-> x ∈ dom (live s)) by (rewrite elem_of_dom; apply Ho).
      repeat case_decide; tauto.
Qed.

(** The shards below [n], the last first. *)
Lemma destroy_take cap lrus (cs : list LRUCache) (sh : list shard) n :
  (forall i j s s', i <> j -> sh !! i = Some s -> sh !! j = Some s' -> dom (live s) ## dom (live s')) ->
  (forall j s l, l ∈ lrus -> sh !! j = Some s -> l ∉ dom (live s)) ->
  (n <= length cs)%nat -> (n <= length sh)%nat -> (n <= length lrus)%nat -> forall m : memory,
  (forall i c s l, (i < n)%nat -> cs !! i = Some c -> sh !! i = Some s -> lrus !! i = Some l ->
    rep (dom (handles m) ∖ dom (live s)) cap l c m s /\ unheld s) ->
  exists m', destroy_shards (rev (take n cs)) m = Some m' /\ deletions m' ≡ₚ deletions m ++ remaining_all (take n sh) /\
    forall x, handles m' !! x = if decide (Exists (fun s => x ∈ dom (live s)) (take n sh)) then None else handles m !! x.
Proof.
  intros Hdj Hlr. induction n as [|n IH]; intros Hn1 Hn2 Hn3 m Hr.
  - exists m. split; [done|]. split; [by rewrite app_nil_r|]. intros x. rewrite decide_False; [done|]. cbn [take]. by intros ?%Exists_nil.
  - destruct (lookup_lt_is_Some_2 cs n) as [c Hc]; [lia|]. destruct (lookup_lt_is_Some_2 sh n) as [s Hs]; [lia|].
    destruct (lookup_lt_is_Some_2 lrus n) as [l Hl]; [lia|]. destruct (Hr n c s l ltac:(lia) Hc Hs Hl) as [Hrep Hu].
    destruct (destroy_ok _ cap l c m s Hrep Hu) as (c' & m1 & E & Hd & Hm1).
    rewrite (take_S_r cs n c Hc), (take_S_r sh n s Hs), rev_app_distr. cbn [rev app destroy_shards]. rewrite E. bind_simpl.
    destruct (IH ltac:(lia) ltac:(lia) ltac:(lia) m1) as (m2 & E2 & Hd2 & Hm2).
    + intros i ci si li Hi Hci Hsi Hli. destruct (Hr i ci si li ltac:(lia) Hci Hsi Hli) as [Hri Hui]. split; [|done].
      assert (li ∉ dom (live s)) as Hlis by (eapply Hlr; [by eapply list_elem_of_lookup_2|done]).
      assert (dom (live si) ## dom (live s)) as Hdis by (apply (Hdj i n); [lia|done|done]).
      assert (dom (handles m1) = dom (handles m) ∖ dom (live s)) as Hdm.
      { apply set_eq. intros x. rewrite elem_of_difference, !(elem_of_dom (D := gset nat)), Hm1.
        case_decide as Hx; rewrite elem_of_dom in Hx; split; try tauto; by intros [? ?]. }
      pose proof (rp_dom _ _ _ _ _ _ _ Hri) as Hdi. pose proof (rp_in _ _ _ _ _ _ _ Hri) as Hini.
      eapply rep_frame; [exact Hri| | | |].
      * intros x Hx. rewrite Hm1, decide_False; [done|]. destruct Hx as [->|Hx]; [done|]. set_solver.
      * rewrite difference_union_L, Hdm. apply set_eq. intros x. split; [set_solver|]. intros [Hx|Hx]%elem_of_union; [done|].
        apply elem_of_difference. split; [rewrite Hdi; set_solver|set_solver].
      * set_solver.
      * rewrite Hdm. set_solver.
    + exists m2. split; [exact E2|]. split.
      * rewrite Hd2, Hd. unfold remaining_all. rewrite fmap_app, concat_app. cbn. rewrite app_nil_r. solve_Permutation.
      * intros x. rewrite Hm2, Hm1. repeat case_decide; try done; exfalso; rewrite Exists_app, Exists_cons, Exists_nil in *; tauto.
Qed.

Lemma charged_cons (op : cache_op V D) ops : charged (op :: ops) = charged [op] + charged ops.
Proof. unfold charged. destruct op; cbn [foldr]; lia. Qed.

Lemma charged_nonneg (ops : list (cache_op V D)) : Forall op_ok ops -> 0 <= charged ops.
Proof.
  induction 1 as [|op ops Hop _ IH]; [done|]. rewrite charged_cons. unfold charged at 1. destruct op; cbn [foldr op_ok] in *; lia.
Qed.

Lemma new_cache_fit cap : all_fit cap 0 (new_cache (V := V) (D := D)).
Proof.
  intros i s [-> _]%lookup_replicate. split_and!; [intros a x n; cbn; by rewrite lookup_empty|by right|].
  cbn [Spec.empty live]. unfold total. by rewrite map_fold_empty.
Qed.

End Account.

Section Sequences.
Context {V D : Type}.
Context (malloc : gset nat -> nat) (malloc_fresh : forall X, malloc X ∉ X).

Lemma spec_call_remaining lrus cap (C C' : cache V D) op o : spec_call malloc lrus cap C op = Some (o, C') ->
  inserted [op] ++ log C ++ remaining_all (shards C) ≡ₚ log C' ++ remaining_all (shards C').
Proof.
  intros Hc. destruct op as [k v charge d|k|a|k|a|]; cbn [spec_call inserted omap list_omap app] in *.
  - destruct (shards C !! Shard (HashSlice k)) as [s|] eqn:Es; [|done]. cbn [mbind option_bind] in Hc. injection Hc as _ <-.
    eapply (put_remaining _ _ _ _ [(d, k, v)]); [done|]. apply (insert_remaining _ s _ (MkEntry k (HashSlice k) v charge d)).
    apply not_elem_of_dom. intros Ha. apply (malloc_fresh (alloc lrus (shards C))). apply elem_of_alloc. eauto.
  - destruct (shards C !! Shard (HashSlice k)) as [s|] eqn:Es; [|done]. cbn [mbind option_bind] in Hc. injection Hc as _ <-.
    eapply (put_remaining _ _ _ _ []); [done|]. apply lookup_remaining.
  - destruct (owner _ _) as [[i s]|] eqn:Ef; [|done]. cbn [mbind option_bind] in Hc. apply list_find_Some in Ef as (Es & _).
    destruct (Spec.release s a) as [r|] eqn:Er; [|done]. cbn [mbind option_bind] in Hc. injection Hc as _ <-.
    eapply (put_remaining _ _ _ _ []); [done|]. by eapply release_remaining.
  - destruct (shards C !! Shard (HashSlice k)) as [s|] eqn:Es; [|done]. cbn [mbind option_bind] in Hc. injection Hc as _ <-.
    eapply (put_remaining _ _ _ _ []); [done|]. apply erase_remaining.
  - destruct (owner _ _) as [[i s]|]; [|done]. cbn [mbind option_bind] in Hc. destruct (live s !! a) as [[x [|n]]|]; [done| |done].
    by injection Hc as _ <-.
  - by injection Hc as _ <-.
Qed.

Lemma spec_calls_remaining lrus cap ops : forall (C C' : cache V D) os, spec_calls malloc lrus cap C ops = Some (os, C') ->
  inserted ops ++ log C ++ remaining_all (shards C) ≡ₚ log C' ++ remaining_all (shards C').
Proof.
  induction ops as [|op ops IH]; intros C C' os Hc; cbn [spec_calls] in Hc; [by injection Hc as _ <-|].
  destruct (spec_call malloc lrus cap C op) as [[o C1]|] eqn:E1; [|done]. cbn [mbind option_bind] in Hc.
  destruct (spec_calls malloc lrus cap C1 ops) as [[os' C2]|] eqn:E2; [|done]. cbn [mbind option_bind] in Hc. injection Hc as _ <-.
  rewrite inserted_cons. rewrite <- (IH C1 C2 os' E2), <- (spec_call_remaining _ _ _ _ _ _ E1). solve_Permutation.
Qed.

Lemma spec_call_fit lrus cap ss m (C C' : cache V D) T op o : srep lrus cap ss m C -> all_fit cap T C -> op_ok op -> T + charged [op] < 2 ^ 64 ->
  spec_call malloc lrus cap C op = Some (o, C') -> all_fit cap (T + charged [op]) C'.
Proof.
  intros Hr HC Hop HT Hc. destruct op as [k v charge d|k|a|k|a|]; cbn [spec_call charged foldr op_ok] in *; rewrite ?Z.add_0_r in *.
  - destruct (shards C !! Shard (HashSlice k)) as [s|] eqn:Es; [|done]. cbn [mbind option_bind] in Hc. injection Hc as _ <-.
    destruct (HC _ s Es) as (H1 & H2 & H3). destruct (srep_at _ _ _ _ _ _ _ Hr Es) as (c & lru & _ & _ & Hrep).
    set (a := malloc (alloc lrus (shards C))).
    assert (live s !! a = None) as Ha.
    { apply not_elem_of_dom. intros Hin. apply (malloc_fresh (alloc lrus (shards C))). apply elem_of_alloc. eauto. }
    destruct (insert_fits cap s a (MkEntry k (HashSlice k) v charge d)) as [H4 H5]; [by eapply rep_nodup| |done|done|done|cbn; lia|].
    { intros Hin. destruct (order_live _ _ _ _ _ _ _ a Hrep Hin) as (? & ? & ? & _). congruence. }
    cbn [e_charge] in H5. apply (put_fit cap T); [done|lia| |done|lia]. by apply insert_all.
  - destruct (shards C !! Shard (HashSlice k)) as [s|] eqn:Es; [|done]. cbn [mbind option_bind] in Hc. injection Hc as _ <-.
    destruct (HC _ s Es) as (H1 & H2 & H3). destruct (lookup_fits cap s k (HashSlice k) H2) as [H4 H5].
    apply (put_fit cap T); [done|lia|by apply lookup_all|done|cbn [fst]; lia].
  - destruct (owner _ _) as [[i s]|] eqn:Ef; [|done]. cbn [mbind option_bind] in Hc. apply list_find_Some in Ef as (Es & _).
    destruct (Spec.release s a) as [[s' ds]|] eqn:Er; [|done]. cbn [mbind option_bind] in Hc. injection Hc as _ <-.
    destruct (HC _ s Es) as (H1 & H2 & H3). destruct (release_fits cap s a _ Er H1 H2) as [H4 H5].
    apply (put_fit cap T); [done|lia|by eapply release_all|done|lia].
  - destruct (shards C !! Shard (HashSlice k)) as [s|] eqn:Es; [|done]. cbn [mbind option_bind] in Hc. injection Hc as _ <-.
    destruct (HC _ s Es) as (H1 & H2 & H3). destruct (erase_fits cap s k (HashSlice k) H1 H2) as [H4 H5].
    apply (put_fit cap T); [done|lia|by apply erase_all|done|lia].
  - destruct (owner _ _) as [[i s]|]; [|done]. cbn [mbind option_bind] in Hc. destruct (live s !! a) as [[x [|n]]|]; [done| |done].
    by injection Hc as _ <-.
  - by injection Hc as _ <-.
Qed.

Lemma calls_fit lrus cap ops : forall ss m (C C' : cache V D) N T os, srep lrus cap ss m C -> all_small N C -> all_fit cap T C ->
  Forall op_ok ops -> 0 <= N -> N + Zlength ops <= 2 ^ 31 -> T + charged ops < 2 ^ 64 ->
  spec_calls malloc lrus cap C ops = Some (os, C') -> all_fit cap (T + charged ops) C'.
Proof.
  induction ops as [|op ops IH]; intros ss m C C' N T os Hr Hsm Hfit Hok HN HN' HT Hc; cbn [spec_calls] in Hc.
  - injection Hc as _ <-. cbn. by rewrite Z.add_0_r.
  - apply Forall_cons in Hok as [Hop Hok]. rewrite Zlength_cons in HN'. pose proof (Zlength_nonneg ops).
    pose proof (charged_cons op ops) as Ech. pose proof (charged_nonneg ops Hok).
    destruct (spec_call malloc lrus cap C op) as [[o C1]|] eqn:E1; [|done]. cbn [mbind option_bind] in Hc.
    destruct (spec_calls malloc lrus cap C1 ops) as [[os' C2]|] eqn:E2; [|done]. cbn [mbind option_bind] in Hc. injection Hc as _ <-.
    destruct (call_ok malloc malloc_fresh lrus cap ss m C C1 N op o Hr Hsm) as (ss1 & m1 & _ & Hr1 & Hs1); [lia|done|].
    pose proof (spec_call_fit lrus cap ss m C C1 T op o Hr Hfit Hop ltac:(lia) E1) as Hfit1.
    rewrite Ech, Z.add_assoc. apply (IH ss1 m1 C1 C2 (N + 1) _ os'); try done; lia.
Qed.

End Sequences.

(** * Properties *)

(** C34: Over any calls by clients that release only handles they hold, with charges
    that sum to less than 2^64: every inserted entry is either finalised, exactly
    once, by its own deleter, or still live; each shard's usage is within its
    capacity or nothing is left to evict; and when no handle is held, destroying the
    cache finalises the rest, so that each insertion is finalised exactly once and
    no handle stays allocated. *)
Theorem ShardedLRUCache_accounts {V D} (malloc : gset nat -> nat) (lrus : list nat) (g : LRUHandle V D) (capacity : Z)
    (ops : list (cache_op V D)) (os : list (outcome V)) (C : cache V D) :
  (forall X, malloc X ∉ X) -> NoDup lrus -> length lrus = 16%nat -> Zlength ops <= 2 ^ 31 -> Forall op_ok ops -> charged ops < 2 ^ 64 ->
  spec_calls malloc lrus (per_shard capacity) new_cache ops = Some (os, C) ->
  exists ss0 m0 ss m, NewLRUCache lrus g capacity (MkMemory ∅ []) = Some (ss0, m0) /\
    calls malloc ss0 m0 ops = Some (os, ss, m) /\
    inserted ops ≡ₚ deletions m ++ remaining_all (shards C) /\
    (forall c, c ∈ shard_ ss -> usage_ c <= capacity_ c \/ next <$> handles m !! lru_ c = Some (lru_ c)) /\
    ((forall s, s ∈ shards C -> unheld s) -> exists m', Sharded_destroy ss m = Some m' /\ deletions m' ≡ₚ inserted ops /\
      dom (handles m') = list_to_set lrus).
Proof.
  intros Hm Hnd Hlen Hops Hok Hch Hc. destruct (new_cache_ok lrus g capacity Hnd Hlen) as (ss0 & m0 & E0 & Hr0 & Hs0).
  destruct (calls_ok malloc Hm lrus _ ops ss0 m0 _ C 0 os Hr0 Hs0) as (ss & m & E & Hr); [done|lia|done|].
  pose proof (calls_fit malloc Hm lrus _ ops ss0 m0 _ C 0 0 os Hr0 Hs0 (new_cache_fit _) Hok ltac:(lia) ltac:(lia) ltac:(lia) Hc) as Hfit.
  pose proof (spec_calls_remaining malloc Hm lrus _ ops _ C os Hc) as Hacc.
  assert (inserted ops ≡ₚ deletions m ++ remaining_all (shards C)) as Hins by (rewrite (sr_log _ _ _ _ _ Hr), <- Hacc; cbn; by rewrite app_nil_r).
  pose proof (sr_len _ _ _ _ _ Hr) as [Hl1 Hl2]. exists ss0, m0, ss, m. split_and!; [done|done|done| |].
  - intros c [i Hi]%list_elem_of_lookup. destruct (lookup_lt_is_Some_2 (shards C) i) as [s Hs]; [apply lookup_lt_Some in Hi; lia|].
    destruct (srep_at _ _ _ _ _ _ _ Hr Hs) as (c' & lru & Hc' & _ & Hrep). simplify_eq. destruct (Hfit i s Hs) as (Hco & Hf & Ht).
    rewrite (rp_lru _ _ _ _ _ _ _ Hrep). destruct Hf as [Hf|Hf]; [left|right].
    + rewrite (rp_cap _ _ _ _ _ _ _ Hrep), (rp_usage _ _ _ _ _ _ _ Hrep). unfold usage. rewrite u64_small; [done|].
      split; [by apply total_nonneg|lia].
    + pose proof (ring_first _ _ _ _ (ph_ring _ _ _ _ _ _ (rp_phys _ _ _ _ _ _ _ Hrep))) as Hn. by rewrite Hf in Hn.
  - intros Hu. destruct (destroy_take (per_shard capacity) lrus (shard_ ss) (shards C) 16 (sr_disj _ _ _ _ _ Hr) (sr_lru _ _ _ _ _ Hr)
      ltac:(lia) ltac:(lia) ltac:(lia) m) as (m' & E' & Hd' & Hm').
    { intros i c s l _ H1 H2 H3. split; [by eapply sr_shard|]. apply Hu. by eapply list_elem_of_lookup_2. }
    assert (take 16 (shard_ ss) = shard_ ss /\ take 16 (shards C) = shards C) as [T1 T2] by (split; apply take_ge; lia).
    rewrite T1 in E'. rewrite T2 in Hd', Hm'. exists m'. split; [exact E'|]. split; [by rewrite Hd', Hins|].
    apply set_eq. intros a. rewrite elem_of_dom, Hm', elem_of_list_to_set. case_decide as Hex.
    + split; [by intros [? ?]|]. intros Ha. apply Exists_exists in Hex as (s & Hs & Hin). apply list_elem_of_lookup in Hs as [j Hj].
      by destruct (sr_lru _ _ _ _ _ Hr j s a Ha Hj).
    + rewrite <- elem_of_dom, (sr_dom _ _ _ _ _ Hr), elem_of_alloc. split; [|by left]. intros [?|(j & s & Hj & Ha)]; [done|].
      destruct Hex. apply Exists_exists. exists s. split; [by eapply list_elem_of_lookup_2|done].
Qed.

Lemma ShardedLRUCache_accounts_witness : exists ss0 m0 ss m m',
  NewLRUCache (seq 0 16) demo_dummy 100 (MkMemory ∅ []) = Some (ss0, m0) /\
  calls fresh ss0 m0 (OpInsert [Byte.x62] 9%nat 3 tt :: OpRelease 16 :: [OpInsert [Byte.x61] 5%nat 7 tt; OpRelease 17]) =
    Some ([OutHandle (Some 16%nat); OutUnit; OutHandle (Some 17%nat); OutUnit], ss, m) /\
  Sharded_destroy ss m = Some m' /\ deletions m' ≡ₚ [(tt, [Byte.x62], 9%nat); (tt, [Byte.x61], 5%nat)] /\
  dom (handles m') = list_to_set (seq 0 16).
Proof.
  set (ops := OpInsert [Byte.x62] 9%nat 3 tt :: OpRelease 16 :: [OpInsert [Byte.x61] 5%nat 7 tt; OpRelease 17]).
  set (C := default new_cache (snd <$> spec_calls fresh (seq 0 16) (per_shard 100) new_cache ops)).
  destruct (ShardedLRUCache_accounts fresh (seq 0 16) demo_dummy 100 ops
    [OutHandle (Some 16%nat); OutUnit; OutHandle (Some 17%nat); OutUnit] C) as (ss0 & m0 & ss & m & E0 & E & _ & _ & Hd).
  - intros X. apply is_fresh.
  - apply (bool_decide_unpack _). vm_compute. exact I.
  - reflexivity.
  - vm_compute. congruence.
  - repeat constructor; vm_compute; congruence.
  - vm_compute. reflexivity.
  - vm_compute. reflexivity.
  - destruct Hd as (m' & E' & Hp & Hdom).
    + intros s Hs a x n Ha.
      assert (forallb (fun s => forallb (fun p => (p.2.2 =? 0)%nat) (map_to_list (live s))) (shards C) = true) as H by (vm_compute; reflexivity).
      rewrite forallb_forall in H. specialize (H s (proj1 (list_elem_of_In _ _) Hs)). rewrite forallb_forall in H.
      apply Nat.eqb_eq, (H (a, (x, n))), list_elem_of_In. by apply elem_of_map_to_list.
    + exists ss0, m0, ss, m, m'. split; [exact E0|]. split; [exact E|]. split; [exact E'|]. split; [exact Hp|exact Hdom].
Defined.
