(* ===== verification/CacheLaws.v ===== *)
(** leveldb/cache.h: what clients of a cache rely on, and that the sharded LRU
    cache of util/cache.cpp provides it.

    [CacheOps] is the virtual interface (the deleter passed to [Insert] is not
    looked at here); [CacheLaws] its contract in terms of [serves P hs n c]: the
    clients hold the handles [hs], every entry that a lookup can find satisfies
    [P], and [n] more calls are possible before a reference count could overflow. *)

From Stdlib Require Import ZArith Lia List Bool.
From S2P Require Import Prelude Lists DList Slice Hashing Cache CacheStore CacheSpec CacheRun CacheAccount.
Import LRU Spec.

Class CacheOps (K V : Type) := {
  cache_Insert : K -> bytes -> V -> Z -> option (nat * K);
  cache_Lookup : K -> bytes -> option (option nat * K);
  cache_Release : K -> nat -> option K;
  cache_Value : K -> nat -> option V;
  cache_Erase : K -> bytes -> option K;
  cache_NewId : K -> Z * K
}.

#[global] Hint Mode CacheOps ! - : typeclass_instances.

Class CacheLaws (K V : Type) `{!CacheOps K V} (serves : (bytes -> V -> Prop) -> list nat -> nat -> K -> Prop) : Prop := {
  lookup_serves P hs n c k : serves P hs (S n) c ->
    exists r c', cache_Lookup c k = Some (r, c') /\
      match r with
      | None => serves P hs n c'
      | Some a => serves P (a :: hs) n c' /\ exists v, cache_Value c' a = Some v /\ P k v
      end;
  insert_serves (P : bytes -> V -> Prop) hs n c k v charge : serves P hs (S n) c -> P k v ->
    exists a c', cache_Insert c k v charge = Some (a, c') /\ serves P (a :: hs) n c' /\ cache_Value c' a = Some v;
  release_serves P hs n c a : serves P (a :: hs) (S n) c -> exists c', cache_Release c a = Some c' /\ serves P hs n c';
  (** after an erasure nothing is known of, or found under, the key *)
  erase_serves (P P' : bytes -> V -> Prop) hs n c k : serves P hs (S n) c -> (forall k' v, k' <> k -> P k' v -> P' k' v) ->
    exists c', cache_Erase c k = Some c' /\ serves P' hs n c';
  newid_serves P hs n c : serves P hs (S n) c -> serves P hs n (cache_NewId c).2;
  serves_less P hs n c : serves P hs (S n) c -> serves P hs n c;
  serves_weaken (P P' : bytes -> V -> Prop) hs n c : (forall k v, P k v -> P' k v) -> serves P hs n c -> serves P' hs n c
}.

(** ** What the specification's operations do to entries that clients hold *)

Section Held.
Context {V D : Type}.
Abbreviation shard := (@Spec.shard V D).
Abbreviation entry := (entry V D).

Definition keeps_held (s s' : shard) : Prop := forall a x j, live s !! a = Some (x, S j) -> live s' !! a = Some (x, S j).

Lemma reap_held (s : shard) a : keeps_held s (reap a s).1.
Proof.
  intros b y j Hb. unfold reap. destruct (live s !! a) as [[x [|n]]|] eqn:E; [|done..]. cbn. rewrite lookup_delete_ne; [done|]. intros ->. congruence.
Qed.

Lemma uncache_held (s : shard) a : keeps_held s (uncache a s).1.
Proof. apply (reap_held (MkShard (live s) (remove a (order s)))). Qed.

Lemma evict_held cap l : forall s : shard, keeps_held s (Spec.evict cap l s).1.
Proof.
  induction l as [|a l IH]; intros s; [by intros ?|]. cbn [Spec.evict]. destruct (_ >? _); [|by intros ?].
  pose proof (uncache_held s a) as H1. destruct (uncache a s) as [s1 d1]. specialize (IH s1). destruct (Spec.evict cap l s1).
  intros b y j Hb. by apply IH, H1.
Qed.

Lemma insert_held cap (s : shard) a x : live s !! a = None ->
  keeps_held s (Spec.insert cap s a x).1 /\ live (Spec.insert cap s a x).1 !! a = Some (x, 1%nat).
Proof.
  intros Ha. unfold Spec.insert. set (s1 := MkShard _ _).
  assert (keeps_held s s1) as H1. { intros b y j Hb. unfold s1. cbn [live]. rewrite lookup_insert_ne; [done|]. intros ->. congruence. }
  assert (live s1 !! a = Some (x, 1%nat)) as Ha1 by apply lookup_insert_eq.
  set (p := match find s (e_key x) (e_hash x) with Some o => uncache o s1 | None => (s1, []) end).
  assert (keeps_held s1 p.1) as H2 by (subst p; destruct (find _ _ _); [apply uncache_held|by intros ?]). destruct p as [s2 d1]. cbn [fst] in H2.
  pose proof (evict_held cap (order s2) s2) as H3. destruct (Spec.evict cap (order s2) s2) as [s3 d2]. cbn [fst] in *.
  split; [intros b y j Hb; by apply H3, H2, H1|by apply H3, H2].
Qed.

Lemma erase_held (s : shard) k h : keeps_held s (Spec.erase s k h).1.
Proof. unfold Spec.erase. destruct (find s k h); [apply uncache_held|by intros ?]. Qed.

(** ** What a lookup can find *)

Definition cached_ok (P : bytes -> V -> Prop) (s : shard) : Prop :=
  forall a x n, a ∈ order s -> live s !! a = Some (x, n) -> P (e_key x) (e_value x).

Lemma reap_cached P (s : shard) a : cached_ok P s -> cached_ok P (reap a s).1.
Proof. intros H. unfold reap. destruct (live s !! a) as [[x [|n]]|]; [|done..]. intros b y n Hb. cbn. intros [_ Hy]%lookup_delete_Some. by eapply H. Qed.

Lemma uncache_cached P (s : shard) a : cached_ok P s -> cached_ok P (uncache a s).1.
Proof. intros H. apply reap_cached. intros b y n [_ Hb]%list_elem_of_filter. by apply H. Qed.

Lemma evict_cached P cap l : forall s : shard, cached_ok P s -> cached_ok P (Spec.evict cap l s).1.
Proof.
  induction l as [|a l IH]; intros s H; [done|]. cbn [Spec.evict]. destruct (_ >? _); [|done].
  pose proof (uncache_cached P s a H) as H1. destruct (uncache a s) as [s1 d1]. specialize (IH s1 H1). by destruct (Spec.evict cap l s1).
Qed.

Lemma insert_cached P cap (s : shard) a x : live s !! a = None -> P (e_key x) (e_value x) -> cached_ok P s -> cached_ok P (Spec.insert cap s a x).1.
Proof.
  intros Ha Hx H. unfold Spec.insert. set (s1 := MkShard _ _). assert (cached_ok P s1) as H1.
  { intros b y n Hb Hy. unfold s1 in Hb, Hy. cbn [live order] in *. apply lookup_insert_Some in Hy as [[_ [= <- _]]|[Hne Hy]]; [done|].
    apply (H b y n); [|done]. set_solver. }
  set (p := match find s (e_key x) (e_hash x) with Some o => uncache o s1 | None => (s1, []) end).
  assert (cached_ok P p.1) as H2 by (subst p; destruct (find _ _ _); [by apply uncache_cached|done]). destruct p as [s2 d1]. cbn [fst] in H2.
  pose proof (evict_cached P cap (order s2) s2 H2). by destruct (Spec.evict cap (order s2) s2).
Qed.

Lemma lookup_cached P (s : shard) k h : cached_ok P s -> cached_ok P (Spec.lookup s k h).2.
Proof.
  intros H. unfold Spec.lookup. destruct (find s k h) as [a|] eqn:Ef; [|done]. intros b y n. cbn [snd order live]. rewrite lookup_alter. intros Hb.
  apply find_in in Ef. case_decide as Hab; [subst b|intros Hy; apply (H b y n); [|done]; unfold remove in Hb; rewrite elem_of_app, list_elem_of_filter in Hb; set_solver].
  intros ([z j] & Hz & [= -> _])%fmap_Some. by apply (H a z j).
Qed.

Lemma release_cached P (s : shard) a r : Spec.release s a = Some r -> cached_ok P s -> cached_ok P r.1.
Proof.
  unfold Spec.release. destruct (live s !! a) as [[x [|n]]|] eqn:El; [done| |done]. cbn [live order]. set (s1 := MkShard _ _). intros [= <-] H.
  assert (cached_ok P s1) as H1.
  { intros b y j Hb Hy. unfold s1 in Hb, Hy. cbn [live order] in *. apply lookup_insert_Some in Hy as [[-> [= <- _]]|[_ Hy]]; by eapply H. }
  case_decide; [done|by apply reap_cached].
Qed.

(** A key occurs once in the cache, so an erasure removes it. *)
Lemma erase_cached (P P' : bytes -> V -> Prop) (s : shard) k h :
  (forall a b x y n m, a ∈ order s -> b ∈ order s -> live s !! a = Some (x, n) -> live s !! b = Some (y, m) -> e_key x = e_key y -> e_hash x = e_hash y -> a = b) ->
  (forall a x n, live s !! a = Some (x, n) -> e_key x = k -> e_hash x = h) ->
  (forall k' v, k' <> k -> P k' v -> P' k' v) -> cached_ok P s -> cached_ok P' (Spec.erase s k h).1.
Proof.
  intros Hu Hh HP H. unfold Spec.erase. destruct (find s k h) as [a|] eqn:Ef.
  - apply reap_cached. intros b y n Hb Hy. unfold remove in Hb. cbn [order live] in *. apply list_elem_of_filter in Hb as [Hne Hb]. apply HP; [|by eapply H].
    intros Hk. apply Hne. pose proof (find_in s k h a Ef) as Ha. apply find_some in Ef as [_ Ef]. unfold has_key in Ef.
    destruct (live s !! a) as [[x m]|] eqn:Ex; [|done]. apply bool_decide_eq_true in Ef as [Ek Eh]. eapply Hu; [exact Hb|exact Ha|exact Hy|exact Ex|congruence|].
    rewrite Eh. by eapply Hh.
  - cbn [fst]. intros b y n Hb Hy. apply HP; [|by eapply H]. intros Hk. pose proof (find_none _ _ Ef b) as Hn. unfold has_key in Hn. rewrite Hy in Hn.
    specialize (Hn ltac:(by apply list_elem_of_In)). apply bool_decide_eq_false in Hn. apply Hn. split; [done|]. by eapply Hh.
Qed.

End Held.

(** ** The sharded LRU cache keeps the contract *)

Section LRUCacheLaws.
Context {V : Type} (malloc : gset nat -> nat) (malloc_fresh : forall X, malloc X ∉ X).
Abbreviation K := (ShardedLRUCache * @LRU.memory V unit)%type.
Abbreviation shard := (@Spec.shard V unit).

#[local] Instance LRU_ops : CacheOps K V := {|
  cache_Insert c k v charge := '(a, s, m) ← Sharded_Insert malloc c.1 c.2 k v charge tt; Some (a, (s, m));
  cache_Lookup c k := '(r, m) ← Sharded_Lookup c.1 c.2 k; Some (r, (c.1, m));
  cache_Release c a := Sharded_Release c.1 c.2 a;
  cache_Value c a := Value c.2 a;
  cache_Erase c k := Sharded_Erase c.1 c.2 k;
  cache_NewId c := let '(id, s) := NewId c.1 in (id, (s, c.2))
|}.

Context (lrus : list nat) (Hlrus : length lrus = 16%nat) (cap : Z).

(** Clients hold each handle of [hs] as often as it occurs. *)
Definition held_in (C : cache V unit) (a j : nat) : Prop := exists i s x, shards C !! i = Some s /\ live s !! a = Some (x, j).

Definition hold_all (C : cache V unit) (hs : list nat) : Prop :=
  forall a, a ∈ hs -> exists j, held_in C a (S j) /\ (count_occ Nat.eq_dec hs a <= S j)%nat.

Definition LRU_serves (P : bytes -> V -> Prop) (hs : list nat) (n : nat) (c : K) : Prop :=
  exists C N, srep lrus cap c.1 c.2 C /\ all_small N C /\ 0 <= N /\ N + Z.of_nat n <= 2 ^ 31 /\
    (forall i s, shards C !! i = Some s -> cached_ok P s) /\ hold_all C hs.

Lemma shard_at (C : cache V unit) c k : srep lrus cap c.1 c.2 C -> exists s, shards C !! Shard (HashSlice k) = Some s.
Proof.
  intros Hr. apply lookup_lt_is_Some_2. destruct (sr_len _ _ _ _ _ Hr) as [_ ->]. rewrite Hlrus. unfold Shard, kNumShardBits.
  destruct (HashSlice_u32 k) as [H1 H2]. rewrite Z.shiftr_div_pow2 by lia. change (2 ^ (32 - 4)) with (2 ^ 28).
  assert (HashSlice k / 2 ^ 28 < 16) by (apply Z.div_lt_upper_bound; lia). lia.
Qed.

Lemma put_held (C : cache V unit) i s r a j : shards C !! i = Some s -> keeps_held s r.1 -> held_in C a (S j) -> held_in (put C i r) a (S j).
Proof.
  intros Hs Hk (i' & s' & x & Hs' & Ha). destruct (decide (i' = i)) as [->|Hne].
  - rewrite Hs in Hs'. injection Hs' as <-. exists i, r.1, x. split; [|by apply Hk]. cbn. apply list_lookup_insert_eq. by eapply lookup_lt_Some.
  - exists i', s', x. split; [|done]. cbn. by rewrite list_lookup_insert_ne.
Qed.

Lemma put_cached P (C : cache V unit) i r : (forall j s, shards C !! j = Some s -> cached_ok P s) -> cached_ok P r.1 ->
  forall j s, shards (put C i r) !! j = Some s -> cached_ok P s.
Proof. intros H Hr j s Hj. cbn in Hj. apply list_lookup_insert_Some in Hj as [(_ & <- & _)|[_ Hj]]; [done|eauto]. Qed.

(** A handle is live in one shard. *)
Lemma live_unique (C : cache V unit) c i j s s' a : srep lrus cap c.1 c.2 C -> shards C !! i = Some s -> shards C !! j = Some s' ->
  is_Some (live s !! a) -> is_Some (live s' !! a) -> i = j /\ s = s'.
Proof.
  intros Hr Hi Hj Ha Ha'. destruct (decide (i = j)) as [->|Hne]; [split; [done|congruence]|]. exfalso.
  pose proof (sr_disj _ _ _ _ _ Hr i j s s' Hne Hi Hj) as Hd. apply (Hd a); by apply elem_of_dom.
Qed.

Lemma hold_fresh (C : cache V unit) c hs : srep lrus cap c.1 c.2 C -> hold_all C hs -> (malloc (alloc lrus (shards C)) ∉ hs) /\
  forall i s, shards C !! i = Some s -> live s !! malloc (alloc lrus (shards C)) = None.
Proof.
  intros Hr Hh. pose proof (malloc_fresh (alloc lrus (shards C))) as Hf. rewrite elem_of_alloc in Hf. split.
  - intros Hin. destruct (Hh _ Hin) as (j & (i & s & x & Hs & Ha) & _). apply Hf. right. exists i, s. split; [done|]. apply elem_of_dom. eauto.
  - intros i s Hs. destruct (live s !! _) eqn:E; [|done]. exfalso. apply Hf. right. exists i, s. split; [done|]. apply elem_of_dom. eauto.
Qed.

(** Another handle for [a] is held. *)
Lemma hold_more (C C' : cache V unit) hs a j : hold_all C hs -> held_in C' a (S j) ->
  (forall b i, b <> a -> held_in C b (S i) -> held_in C' b (S i)) -> (a ∈ hs -> forall i, held_in C a (S i) -> (i < j)%nat) -> hold_all C' (a :: hs).
Proof.
  intros Hh Ha Ho Hup b Hb. destruct (decide (b = a)) as [->|Hne].
  - exists j. split; [done|]. rewrite count_occ_cons_eq by done. destruct (decide (a ∈ hs)) as [Hin|Hn].
    + destruct (Hh a Hin) as (i & Hi & Hc). specialize (Hup Hin i Hi). lia.
    + assert (count_occ Nat.eq_dec hs a = 0)%nat as -> by (apply count_occ_not_In; by rewrite <- list_elem_of_In). lia.
  - apply elem_of_cons in Hb as [|Hb]; [done|]. destruct (Hh b Hb) as (i & Hi & Hc). exists i. split; [by apply Ho|]. by rewrite count_occ_cons_neq.
Qed.

Lemma hold_same (C C' : cache V unit) hs : hold_all C hs -> (forall b i, held_in C b (S i) -> held_in C' b (S i)) -> hold_all C' hs.
Proof. intros Hh Ho b Hb. destruct (Hh b Hb) as (i & Hi & Hc). exists i. split; [by apply Ho|done]. Qed.

Lemma LRU_lookup P hs n c k : LRU_serves P hs (S n) c ->
  exists r c', cache_Lookup c k = Some (r, c') /\
    match r with None => LRU_serves P hs n c' | Some a => LRU_serves P (a :: hs) n c' /\ exists v, cache_Value c' a = Some v /\ P k v end.
Proof.
  intros (C & N & Hr & Hs & HN & HN' & Hc & Hh). destruct (shard_at C c k Hr) as [s Es].
  set (C' := put C (Shard (HashSlice k)) ((Spec.lookup s k (HashSlice k)).2, [])).
  destruct (call_ok malloc malloc_fresh lrus cap c.1 c.2 C C' N (OpLookup k) (OutHandle (Spec.lookup s k (HashSlice k)).1) Hr Hs) as (ss & m & E & Hr' & Hs');
    [lia|cbn [spec_call]; by rewrite Es|].
  cbn [call] in E. cbn [cache_Lookup LRU_ops]. destruct (Sharded_Lookup c.1 c.2 k) as [[r m']|]; [|done]. cbn [mbind option_bind] in E |- *.
  injection E as Er <- ->. subst r. eexists _, _. split; [done|].
  assert (forall i s0, shards C' !! i = Some s0 -> cached_ok P s0) as Hc' by (apply put_cached; [done|]; apply lookup_cached; eauto).
  assert (forall hs', hold_all C' hs' -> LRU_serves P hs' n (c.1, m)) as Hserve by (intros hs' Hh'; exists C', (N + 1); split_and!; [done|done|lia|lia|done|done]).
  pose proof (lookup_lt_Some _ _ _ Es) as Hlt. unfold Spec.lookup in *. destruct (find s k (HashSlice k)) as [a|] eqn:Ef; cbn [fst].
  - destruct (find_live s k _ a Ef) as (x & j & Ea). cbn [snd] in *.
    assert (shards C' !! Shard (HashSlice k) = Some (MkShard (alter (fun p => (p.1, S p.2)) a (live s)) (remove a (order s) ++ [a]))) as Es' by (by apply list_lookup_insert_eq).
    assert (live (MkShard (alter (fun p => (p.1, S p.2)) a (live s)) (remove a (order s) ++ [a])) !! a = Some (x, S j)) as Ea' by (cbn; by rewrite lookup_alter_eq, Ea).
    split.
    + apply Hserve. apply (hold_more C C' hs a j Hh); [by do 3 eexists| |].
      * intros b i Hne (i' & s' & y & Hs0 & Hy). destruct (decide (i' = Shard (HashSlice k))) as [->|Hi].
        -- rewrite Es in Hs0. injection Hs0 as <-. do 3 eexists. split; [exact Es'|]. cbn. by rewrite lookup_alter_ne.
        -- exists i', s', y. split; [|done]. unfold C'. cbn. by rewrite list_lookup_insert_ne.
      * intros _ i (i' & s' & y & Hs0 & Hy). destruct (live_unique C c _ _ s s' a Hr Es Hs0) as [_ <-]; [by eexists..|]. rewrite Ea in Hy. injection Hy as _ ->. lia.
    + destruct (srep_handle lrus cap _ m C' _ _ a x (S j) Hr' Es' Ea') as (h & Hha & <- & _). exists (value h). split; [cbn; unfold Value; by rewrite Hha|].
      pose proof (find_in s k _ a Ef) as Ha. pose proof (Hc _ _ Es a _ j Ha Ea) as HP. apply find_some in Ef as [_ Ef]. unfold has_key in Ef. rewrite Ea in Ef.
      apply bool_decide_eq_true in Ef as [Ek _]. by rewrite Ek in HP.
  - apply Hserve. apply (hold_same C C' hs Hh). intros b i Hb. eapply put_held; [exact Es| |exact Hb]. by intros ?.
Qed.

Lemma LRU_insert (P : bytes -> V -> Prop) hs n c k v charge : LRU_serves P hs (S n) c -> P k v ->
  exists a c', cache_Insert c k v charge = Some (a, c') /\ LRU_serves P (a :: hs) n c' /\ cache_Value c' a = Some v.
Proof.
  intros (C & N & Hr & Hs & HN & HN' & Hc & Hh) HP. destruct (shard_at C c k Hr) as [s Es]. destruct (hold_fresh C c hs Hr Hh) as [Hfh Hfl].
  set (a := malloc (alloc lrus (shards C))) in *. set (x := MkEntry k (HashSlice k) v charge tt). set (C' := put C (Shard (HashSlice k)) (Spec.insert cap s a x)).
  destruct (call_ok malloc malloc_fresh lrus cap c.1 c.2 C C' N (OpInsert k v charge tt) (OutHandle (Some a)) Hr Hs) as (ss & m & E & Hr' & Hs');
    [lia|cbn [spec_call]; by rewrite Es|].
  cbn [call] in E. cbn [cache_Insert LRU_ops]. destruct (Sharded_Insert malloc c.1 c.2 k v charge tt) as [[[a' ss'] m']|]; [|done]. cbn [mbind option_bind] in E |- *.
  injection E as -> -> ->. exists a, (ss, m). split; [done|]. destruct (insert_held cap s a x (Hfl _ _ Es)) as [Hk Ha].
  assert (shards C' !! Shard (HashSlice k) = Some (Spec.insert cap s a x).1) as Es' by (apply list_lookup_insert_eq; by eapply lookup_lt_Some).
  split.
  - exists C', (N + 1). split_and!; [done|done|lia|lia| |].
    + apply put_cached; [done|]. apply insert_cached; [eauto|done|eauto].
    + apply (hold_more C C' hs a 0 Hh); [by do 3 eexists| |done]. intros b i _ Hb. by eapply put_held.
  - destruct (srep_handle lrus cap _ m C' _ _ a x _ Hr' Es' Ha) as (h & Hha & Hx & _). cbn. unfold Value. rewrite Hha. cbn. by injection Hx as _ _ -> _.
Qed.

Lemma LRU_release P hs n c a : LRU_serves P (a :: hs) (S n) c -> exists c', cache_Release c a = Some c' /\ LRU_serves P hs n c'.
Proof.
  intros (C & N & Hr & Hs & HN & HN' & Hc & Hh). destruct (Hh a ltac:(left)) as (j & (i & s & x & Es & Ea) & Hcnt). rewrite count_occ_cons_eq in Hcnt by done.
  assert (owner (shards C) a = Some (i, s)) as Eo.
  { unfold owner. destruct (list_find (fun s0 => is_Some (live s0 !! a)) (shards C)) as [[i' s']|] eqn:Ef.
    - apply list_find_Some in Ef as (Es' & Ha' & _). destruct (live_unique C c i i' s s' a Hr Es Es') as [-> ->]; [by eexists|done|done].
    - exfalso. rewrite list_find_None, Forall_forall in Ef. apply (Ef s); [by eapply list_elem_of_lookup_2|by eexists]. }
  destruct (Spec.release s a) as [r|] eqn:Erel; [|unfold Spec.release in Erel; rewrite Ea in Erel; done]. set (C' := put C i r).
  destruct (call_ok malloc malloc_fresh lrus cap c.1 c.2 C C' N (OpRelease a) OutUnit Hr Hs) as (ss & m & E & Hr' & Hs');
    [lia|cbn [spec_call]; rewrite Eo; cbn; by rewrite Erel|].
  cbn [call] in E. cbn [cache_Release LRU_ops]. destruct (Sharded_Release c.1 c.2 a) as [[ss' m']|]; [|done]. cbn [mbind option_bind] in E. injection E as -> ->.
  exists (ss, m). split; [done|]. exists C', (N + 1). split_and!; [done|done|lia|lia|apply put_cached; [done|]; eapply release_cached; [done|eauto]|].
  assert (shards C' !! i = Some r.1) as Es' by (apply list_lookup_insert_eq; by eapply lookup_lt_Some).
  unfold Spec.release in Erel. rewrite Ea in Erel. cbn [live order] in Erel. set (s1 := MkShard _ _) in Erel.
  assert (forall b y q, b <> a \/ (0 < j)%nat -> live s1 !! b = Some (y, S q) -> live r.1 !! b = Some (y, S q)) as Hkeep.
  { intros b y q _ Hb. case_decide; injection Erel as <-; [done|]. by apply reap_held. }
  intros b Hb. destruct (Hh b ltac:(by right)) as (q & (i' & s' & y & Hs0 & Hy) & Hq). destruct (decide (b = a)) as [->|Hne].
  - assert (0 < count_occ Nat.eq_dec hs a)%nat by (apply count_occ_In; by rewrite <- list_elem_of_In). destruct j as [|j]; [lia|]. exists j. split; [|lia].
    exists i, r.1, x. split; [done|]. apply Hkeep; [right; lia|]. unfold s1. cbn. apply lookup_insert_eq.
  - rewrite count_occ_cons_neq in Hq by done. exists q. split; [|done]. destruct (decide (i' = i)) as [->|Hi].
    + rewrite Es in Hs0. injection Hs0 as <-. exists i, r.1, y. split; [done|]. apply Hkeep; [by left|]. unfold s1. cbn. by rewrite lookup_insert_ne.
    + exists i', s', y. split; [|done]. unfold C'. cbn. by rewrite list_lookup_insert_ne.
Qed.

Lemma LRU_erase (P P' : bytes -> V -> Prop) hs n c k : LRU_serves P hs (S n) c -> (forall k' v, k' <> k -> P k' v -> P' k' v) ->
  exists c', cache_Erase c k = Some c' /\ LRU_serves P' hs n c'.
Proof.
  intros (C & N & Hr & Hs & HN & HN' & Hc & Hh) HP. destruct (shard_at C c k Hr) as [s Es]. set (C' := put C (Shard (HashSlice k)) (Spec.erase s k (HashSlice k))).
  destruct (call_ok malloc malloc_fresh lrus cap c.1 c.2 C C' N (OpErase k) OutUnit Hr Hs) as (ss & m & E & Hr' & Hs'); [lia|cbn [spec_call]; by rewrite Es|].
  cbn [call] in E. cbn [cache_Erase LRU_ops]. destruct (Sharded_Erase c.1 c.2 k) as [[ss' m']|]; [|done]. cbn [mbind option_bind] in E. injection E as -> ->.
  exists (ss, m). split; [done|]. exists C', (N + 1). split_and!; [done|done|lia|lia| |].
  - intros j s0 Hj. unfold C' in Hj. cbn in Hj. destruct (decide (j = Shard (HashSlice k))) as [->|Hne].
    + rewrite list_lookup_insert_eq in Hj by (by eapply lookup_lt_Some). injection Hj as <-. destruct (srep_at _ _ _ _ _ _ _ Hr Es) as (lc & lru & _ & _ & Hrep).
      apply (erase_cached P); [| |done|eauto].
      * intros a b x y p q Ha Hb Hx Hy Hk Hhash. destruct (srep_handle _ _ _ _ _ _ _ _ _ _ Hr Es Hx) as (ha & Hha & Ea & _).
        destruct (srep_handle _ _ _ _ _ _ _ _ _ _ Hr Es Hy) as (hb & Hhb & Eb & _). destruct (ph_table _ _ _ _ _ _ (rp_phys _ _ _ _ _ _ _ Hrep)) as [_ Hu].
        subst x y. apply (Hu a b (key_data ha) (hash ha) Ha Hb); [by exists ha|by exists hb].
      * intros a x p Hx Hk. destruct (sr_keys _ _ _ _ _ Hr _ _ Es a x p Hx) as [Hh' _]. by rewrite Hh', Hk.
    + rewrite list_lookup_insert_ne in Hj by done. intros a x p Ha Hx. apply HP; [|by eapply Hc]. intros Hk.
      destruct (sr_keys _ _ _ _ _ Hr _ _ Hj a x p Hx) as [Hh' Hsh]. rewrite Hh', Hk in Hsh. by apply Hne.
  - apply (hold_same C C' hs Hh). intros b i Hb. eapply put_held; [exact Es|apply erase_held|exact Hb].
Qed.

#[export] Instance LRU_laws : CacheLaws K V LRU_serves.
Proof.
  split.
  - apply LRU_lookup.
  - apply LRU_insert.
  - apply LRU_release.
  - apply LRU_erase.
  - intros P hs n c (C & N & Hr & Hs & HN & HN' & Hc & Hh).
    destruct (call_ok malloc malloc_fresh lrus cap c.1 c.2 C _ N OpNewId _ Hr Hs ltac:(lia) eq_refl) as (ss & m & E & Hr' & Hs'). cbn [call] in E. cbn [cache_NewId LRU_ops].
    destruct (NewId c.1) as [id ss']. injection E as _ -> <-. do 2 eexists. split; [exact Hr'|]. split; [exact Hs'|]. split_and!; [lia|lia|done|done].
  - intros P hs n c (C & N & Hr & Hs & HN & HN' & Hc & Hh). exists C, N. split_and!; try done. lia.
  - intros P P' hs n c HP (C & N & Hr & Hs & HN & HN' & Hc & Hh). exists C, N. split_and!; try done. intros i s Hi a x p Ha Hx. by eapply HP, Hc.
Qed.

End LRUCacheLaws.

(** A new cache is empty. *)
Lemma LRU_new_serves {V} (lrus : list nat) (g : LRUHandle V unit) (capacity : Z) (P : bytes -> V -> Prop) (n : nat) :
  NoDup lrus -> length lrus = 16%nat -> Z.of_nat n <= 2 ^ 31 ->
  exists c, NewLRUCache lrus g capacity (MkMemory ∅ []) = Some c /\ LRU_serves lrus (per_shard capacity) P [] n c.
Proof.
  intros Hnd Hl Hn. destruct (new_cache_ok lrus g capacity Hnd Hl) as (ss & m & E & Hr & Hs). exists (ss, m). split; [done|].
  exists new_cache, 0. split_and!; [done|done|lia|lia| |by intros a ?%not_elem_of_nil].
  intros i s [-> _]%lookup_replicate a x j _ Ha. cbn in Ha. by rewrite lookup_empty in Ha.
Qed.
