(* ===== verification/CompactionWork.v ===== *)
(** db/db_impl.cpp, compactions: [DoCompactionWork] and the routines that open,
    finish and install its output files.

    The loop reads the merged input entry by entry, drops the entries no snapshot
    can see, and writes the others to output tables.  What it calls outside
    itself (the environment, the table builder, the table cache, the version
    set's file numbers and [LogAndApply], the flags other threads set, the
    memtable compaction it makes way for) is the interface [World]; its laws,
    [WorldLaws], speak about the entries of the table being built and of the
    finished tables.  Statistics and info logs are left out.  The input iterator
    is the list of the entries it yields, and its final status.  [None] is a
    failed assertion, an access to a missing output, or [ShouldStopBefore] not
    returning. *)

From Stdlib Require Import ZArith Lia List Bool String Sorting.Sorted.
From S2P Require Import Prelude Lists Coding Slice Comparator Bloom Filename DbFormat VersionEdit.
From S2P Require Import Arena SkipList MemTable Version VersionSet Snapshot.

(** ** The interface *)

Class World (W : Type) := {
  shutting_down_ : W -> bool * W;               (* Acquire_Load *)
  compact_imm : W -> W;                         (* the has_imm_ branch *)
  new_output_number : W -> Z * W;               (* NewFileNumber, pending_outputs_.insert *)
  NewWritableFile : bytes -> W -> Status * W;
  new_builder : W -> W;                         (* new TableBuilder on that file *)
  builder_Add : bytes -> bytes -> W -> W;
  builder_NumEntries : W -> Z;
  builder_FileSize : W -> Z;
  builder_Finish : W -> Status * W;
  builder_Abandon : W -> W;
  outfile_Sync : W -> Status * W;
  outfile_Close : W -> Status * W;
  verify_table : Z -> Z -> W -> Status * W;     (* table_cache_->NewIterator, its status *)
  LogAndApply : VersionEdit -> W -> Status * VersionEdit * W
}.

(** ** CompactionState *)

Record Output := MkOutput { out_number : Z; out_file_size : Z; out_smallest : InternalKey; out_largest : InternalKey }.

(** [builder] tells whether [builder] and [outfile] are set. *)
Record CompactionState := MkCompactionState {
  compaction : Compaction;
  smallest_snapshot : Z;
  outputs : list Output;
  builder : bool;
  total_bytes : Z
}.

Definition CompactionState_new (c : Compaction) : CompactionState := MkCompactionState c 0 [] false 0.

Definition with_compaction (cs : CompactionState) (c : Compaction) : CompactionState :=
  MkCompactionState c (smallest_snapshot cs) (outputs cs) (builder cs) (total_bytes cs).

Definition with_outputs (cs : CompactionState) (outs : list Output) (b : bool) : CompactionState :=
  MkCompactionState (compaction cs) (smallest_snapshot cs) outs b (total_bytes cs).

(** [current_output()]: the last output is replaced by what [f] makes of it. *)
Definition update_current (cs : CompactionState) (f : Output -> Output) : option CompactionState :=
  out ← last (outputs cs); Some (with_outputs cs (removelast (outputs cs) ++ [f out]) (builder cs)).

Section Work.
Context {W : Type} `{!World W}.
Context (ucmp : Comparator) (dbname : bytes).

(** The new output's [file_size] is not set yet. *)
Definition OpenCompactionOutputFile (cs : CompactionState) (w : W) : option (Status * CompactionState * W) :=
  if builder cs then None
  else
    let '(file_number, w) := new_output_number w in
    let outs := outputs cs ++ [MkOutput file_number 0 (InternalKey_DecodeFrom []) (InternalKey_DecodeFrom [])] in
    let '(s, w) := NewWritableFile (TableFileName dbname file_number) w in
    if ok s then Some (s, with_outputs cs outs true, new_builder w)
    else Some (s, with_outputs cs outs false, w).

Definition FinishCompactionOutputFile (input_status : Status) (cs : CompactionState) (w : W)
    : option (Status * CompactionState * W) :=
  if negb (builder cs) then None
  else
    out ← last (outputs cs);
    if out_number out =? 0 then None
    else
      let current_entries := builder_NumEntries w in
      let '(s, w) := if ok input_status then builder_Finish w else (input_status, builder_Abandon w) in
      let current_bytes := builder_FileSize w in
      cs ← update_current cs (fun o => MkOutput (out_number o) current_bytes (out_smallest o) (out_largest o));
      let cs := MkCompactionState (compaction cs) (smallest_snapshot cs) (outputs cs) false
                  (u64 (total_bytes cs + current_bytes)) in
      let '(s, w) := if ok s then outfile_Sync w else (s, w) in
      let '(s, w) := if ok s then outfile_Close w else (s, w) in
      let '(s, w) := if ok s && (current_entries >? 0) then verify_table (out_number out) current_bytes w else (s, w) in
      Some (s, cs, w).

(** Deletes the inputs and adds the outputs. *)
Definition install_edit (c : Compaction) (outs : list Output) : VersionEdit :=
  fold_left (fun e out =>
    AddFile e (Z.of_nat (level_ c + 1)) (out_number out) (out_file_size out) (out_smallest out) (out_largest out))
    outs (AddInputDeletions c (edit_ c)).

Definition InstallCompactionResults (cs : CompactionState) (w : W) : Status * CompactionState * W :=
  let c := compaction cs in
  let '(s, edit, w) := LogAndApply (install_edit c (outputs cs)) w in
  (s, with_compaction cs (with_inputs c (inputs0_ c) (inputs1_ c) (grandparents_ c) edit), w).

(** ** Which entries are dropped *)

Record drop_state := MkDropState {
  current_user_key : bytes;
  has_current_user_key : bool;
  last_sequence_for_key : Z
}.

Definition drop_state_new : drop_state := MkDropState [] false kMaxSequenceNumber.

(** The part of the loop body that decides on [drop]. *)
Definition drop_key (snapshot : Z) (c : Compaction) (st : drop_state) (key : bytes)
    : bool * Compaction * drop_state :=
  match ParseInternalKey key with
  | None => (false, c, MkDropState [] false kMaxSequenceNumber)
  | Some ikey =>
      let st :=
        if negb (has_current_user_key st) || negb (Compare ucmp (user_key ikey) (current_user_key st) =? 0)
        then MkDropState (user_key ikey) true kMaxSequenceNumber
        else st in
      let '(drop, c) :=
        if last_sequence_for_key st <=? snapshot then (true, c)
        else if bool_decide (type ikey = kTypeDeletion) && (sequence ikey <=? snapshot) then
          IsBaseLevelForKey ucmp c (user_key ikey)
        else (false, c) in
      (drop, c, MkDropState (current_user_key st) (has_current_user_key st) (sequence ikey))
  end.

(** ** The loop *)

(** An entry that is not dropped is added to the output, which is opened before
    and finished after when necessary. *)
Definition emit_entry (input_status : Status) (cs : CompactionState) (key value : bytes) (w : W)
    : option (Status * CompactionState * W) :=
  '(s, cs, w) ← (if builder cs then Some (Status_OK, cs, w) else OpenCompactionOutputFile cs w);
  if negb (ok s) then Some (s, cs, w)
  else
    cs ← (if builder_NumEntries w =? 0 then
            update_current cs (fun o => MkOutput (out_number o) (out_file_size o) (InternalKey_DecodeFrom key) (out_largest o))
          else Some cs);
    cs ← update_current cs (fun o => MkOutput (out_number o) (out_file_size o) (out_smallest o) (InternalKey_DecodeFrom key));
    let w := builder_Add key value w in
    if builder_FileSize w >=? max_output_file_size_ (compaction cs)
    then FinishCompactionOutputFile input_status cs w
    else Some (s, cs, w).

(** [fuel] is that of [ShouldStopBefore].  The status of the iterator is read when
    an output is finished, at which point the model takes it to be its final one. *)
Fixpoint DoCompactionWork_loop (fuel : nat) (input_status : Status) (input : list (bytes * bytes))
    (cs : CompactionState) (st : drop_state) (w : W) : option (Status * CompactionState * W) :=
  match input with
  | [] => Some (Status_OK, cs, w)
  | (key, value) :: input =>
      let '(down, w) := shutting_down_ w in
      if (down : bool) then Some (Status_OK, cs, w)
      else
        let w := compact_imm w in
        '(stop, c) ← ShouldStopBefore ucmp fuel (compaction cs) key;
        let cs := with_compaction cs c in
        '(s, cs, w) ← (if stop && builder cs then FinishCompactionOutputFile input_status cs w
                       else Some (Status_OK, cs, w));
        if negb (ok s) then Some (s, cs, w)
        else
          let '(drop, c, st) := drop_key (smallest_snapshot cs) (compaction cs) st key in
          let cs := with_compaction cs c in
          if (drop : bool) then DoCompactionWork_loop fuel input_status input cs st w
          else
            '(s, cs, w) ← emit_entry input_status cs key value w;
            if negb (ok s) then Some (s, cs, w)
            else DoCompactionWork_loop fuel input_status input cs st w
  end.

(** [snapshots_] and [LastSequence()] give the smallest snapshot. *)
Definition pick_smallest_snapshot (snapshots : SnapshotList.t) (last_sequence : Z) : option Z :=
  e ← SnapshotList.empty snapshots;
  if (e : bool) then Some last_sequence
  else s ← SnapshotList.oldest snapshots; SnapshotList.number snapshots s.

Definition DoCompactionWork (fuel : nat) (snapshots : SnapshotList.t) (last_sequence : Z) (input_status : Status)
    (input : list (bytes * bytes)) (cs : CompactionState) (w : W) : option (Status * CompactionState * W) :=
  if (length (level_files (input_version_ (compaction cs)) (level_ (compaction cs))) =? 0)%nat || builder cs then None
  else
    snapshot ← pick_smallest_snapshot snapshots last_sequence;
    let cs := MkCompactionState (compaction cs) snapshot (outputs cs) (builder cs) (total_bytes cs) in
    '(s, cs, w) ← DoCompactionWork_loop fuel input_status input cs drop_state_new w;
    let '(s, w) :=
      if ok s then
        let '(down, w) := shutting_down_ w in
        (if (down : bool) then Status_IOError (str "Deleting DB during compaction") [] else s, w)
      else (s, w) in
    '(s, cs, w) ← (if ok s && builder cs then FinishCompactionOutputFile input_status cs w else Some (s, cs, w));
    let s := if ok s then input_status else s in
    if ok s then Some (InstallCompactionResults cs w) else Some (s, cs, w).

End Work.

(** ** Lemmas: the entries kept *)

Section Kept.
Context (ucmp : Comparator) `{!ComparatorLaws ucmp any_key}.
Abbreviation icmp := (InternalKeyCompare ucmp).

(** The entries of the input that are not dropped. *)
Fixpoint kept (snapshot : Z) (c : Compaction) (st : drop_state) (es : list mem_entry) : list mem_entry :=
  match es with
  | [] => []
  | e :: es =>
      let '(drop, c, st) := drop_key ucmp snapshot c st (ik e) in
      (if (drop : bool) then [] else [e]) ++ kept snapshot c st es
  end.

(** Rule (A): the entry before is a version of the same user key that every
    snapshot sees. *)
Definition hidden (snapshot : Z) (prev : option mem_entry) (e : mem_entry) : bool :=
  match prev with
  | Some q => bool_decide (user_key q.1 = user_key e.1) && (sequence q.1 <=? snapshot)
  | None => false
  end.

(** The other rule: a deletion that has nothing left to delete. *)
Definition obsolete (snapshot : Z) (v : Version) (level : nat) (e : mem_entry) : bool :=
  bool_decide (type e.1 = kTypeDeletion) && (sequence e.1 <=? snapshot) && is_base ucmp v level (user_key e.1).

(** The reference: no state but the entry before. *)
Fixpoint kept_ref (snapshot : Z) (v : Version) (level : nat) (prev : option mem_entry) (es : list mem_entry)
    : list mem_entry :=
  match es with
  | [] => []
  | e :: es =>
      (if hidden snapshot prev e || obsolete snapshot v level e then [] else [e]) ++
      kept_ref snapshot v level (Some e) es
  end.

Definition state_of (prev : option mem_entry) (st : drop_state) : Prop :=
  match prev with
  | Some q => st = MkDropState (user_key q.1) true (sequence q.1)
  | None => has_current_user_key st = false
  end.

Definition ptrs_at (c : Compaction) (key : bytes) : Prop :=
  ptrs_ok ucmp (input_version_ c) (level_ c + 2) (level_ptrs_ c) key.

Lemma IsBaseLevelForKey_ok c key :
  (forall lvl, (level_ c + 2 <= lvl)%nat -> level_wf ucmp (level_files (input_version_ c) lvl)) ->
  ptrs_at c key ->
  exists c', IsBaseLevelForKey ucmp c key = (is_base ucmp (input_version_ c) (level_ c) key, c') /\
    input_version_ c' = input_version_ c /\ level_ c' = level_ c /\ ptrs_at c' key.
Proof.
  intros Hw Hp. unfold IsBaseLevelForKey.
  destruct (IsBaseLevel_levels_ok ucmp (input_version_ c) (level_ c + 2) key
    (seq (level_ c + 2) (num_levels - (level_ c + 2))) (level_ptrs_ c) Hw) as [E Hp'];
    [apply Forall_forall; intros l Hl%elem_of_seq; lia|done|].
  destruct (IsBaseLevel_levels _ _ _ _ _) as [r ptrs]. cbn [fst snd] in *. subst r.
  by eexists.
Qed.

Lemma drop_key_ok snapshot c st prev e :
  (forall lvl, (level_ c + 2 <= lvl)%nat -> level_wf ucmp (level_files (input_version_ c) lvl)) ->
  snapshot < kMaxSequenceNumber -> seq_ok (sequence e.1) -> state_of prev st -> ptrs_at c (user_key e.1) ->
  exists c' st', drop_key ucmp snapshot c st (ik e) =
      (hidden snapshot prev e || obsolete snapshot (input_version_ c) (level_ c) e, c', st') /\
    state_of (Some e) st' /\ input_version_ c' = input_version_ c /\ level_ c' = level_ c /\ ptrs_at c' (user_key e.1).
Proof.
  intros Hw Hsn Hs Hst Hp. unfold drop_key, ik. rewrite Parse_Append by done.
  set (st1 := if _ || _ then _ else _).
  assert (st1 = MkDropState (user_key e.1) true
    (match prev with Some q => if bool_decide (user_key q.1 = user_key e.1) then sequence q.1 else kMaxSequenceNumber
     | None => kMaxSequenceNumber end)) as ->.
  { subst st1. destruct prev as [q|]; cbn in Hst; [subst st|by rewrite Hst]. cbn [has_current_user_key negb orb current_user_key].
    destruct (Z.eqb_spec (Compare ucmp (user_key e.1) (user_key q.1)) 0) as [Eu%(ucmp_eq ucmp)|Hne]; cbn [negb].
    - by rewrite Eu, bool_decide_true.
    - rewrite bool_decide_false; [done|]. intros E. apply Hne. by rewrite E, (ucmp_refl ucmp). }
  cbn [last_sequence_for_key current_user_key has_current_user_key].
  set (last := match prev with Some _ => _ | None => _ end).
  assert ((last <=? snapshot) = hidden snapshot prev e) as ->.
  { subst last. destruct prev as [q|]; cbn [hidden]; [|by apply Z.leb_gt].
    case_bool_decide; cbn [andb]; [done|by apply Z.leb_gt]. }
  destruct (hidden snapshot prev e); cbn [orb]; [by eexists _, _|]. unfold obsolete.
  destruct (bool_decide (type e.1 = kTypeDeletion) && (sequence e.1 <=? snapshot)); cbn [andb]; [|by eexists _, _].
  destruct (IsBaseLevelForKey_ok c (user_key e.1) Hw Hp) as (c' & -> & ? & ? & ?). by eexists _, _.
Qed.

Lemma kept_ok snapshot es c st prev :
  (forall lvl, (level_ c + 2 <= lvl)%nat -> level_wf ucmp (level_files (input_version_ c) lvl)) ->
  snapshot < kMaxSequenceNumber -> Forall (fun e => seq_ok (sequence e.1)) es ->
  StronglySorted (fun a b => icmp (ik a) (ik b) < 0) es -> state_of prev st ->
  (forall e, e ∈ es -> ptrs_at c (user_key e.1)) ->
  kept snapshot c st es = kept_ref snapshot (input_version_ c) (level_ c) prev es.
Proof.
  intros Hw Hsn Hseq Hs. revert c st prev Hw. induction Hs as [|e es Hs IH He]; intros c st prev Hw Hst Hp; [done|].
  inversion_clear Hseq as [|? ? Hse Hseq']. cbn [kept kept_ref].
  destruct (drop_key_ok snapshot c st prev e Hw Hsn Hse Hst ltac:(apply Hp; left)) as (c' & st' & -> & Hst' & Ev & El & Hp').
  f_equal. rewrite <- Ev, <- El. apply IH; [done|by rewrite Ev, El|done|].
  intros q Hq. rewrite Forall_forall in He. destruct Hp' as [Hlen Hp']. split; [done|]. intros lvl Hl.
  eapply passed_mono; [done| |by apply Hp']. apply (ik_user_le ucmp). specialize (He q Hq). lia.
Qed.

(** ** What a snapshot sees of the kept entries *)

Lemma kept_ref_sub snapshot v level prev es : kept_ref snapshot v level prev es ⊆ es.
Proof.
  revert prev. induction es as [|e es IH]; intros prev x; [done|]. cbn [kept_ref].
  intros [Hx|Hx]%elem_of_app; [|right; by apply (IH _ x Hx)]. destruct (_ || _); [set_solver|].
  apply list_elem_of_singleton in Hx as ->. left.
Qed.

Definition ik_sorted (es : list mem_entry) : Prop :=
  Forall (fun e => seq_ok (sequence e.1)) es /\ StronglySorted (fun a b => icmp (ik a) (ik b) < 0) es.

Lemma ik_sorted_cons e es : ik_sorted (e :: es) ->
  seq_ok (sequence e.1) /\ ik_sorted es /\
  forall q, q ∈ es -> seq_ok (sequence q.1) /\ Compare ucmp (user_key e.1) (user_key q.1) <= 0 /\
    (user_key e.1 = user_key q.1 -> sequence q.1 <= sequence e.1).
Proof.
  intros [Hq Hs]. inversion_clear Hq as [|? ? He Hes]. inversion_clear Hs as [|? ? Hs' Hf].
  split_and!; [done|by split|]. intros q Hin. rewrite Forall_forall in Hf, Hes. specialize (Hf q Hin). split_and!.
  - by apply Hes.
  - apply (ik_user_le ucmp). lia.
  - intros Hu. apply (ik_lt_seq ucmp); auto. lia.
Qed.

(** After a version of [u] that every snapshot sees, no version of [u] is kept. *)
Lemma kept_ref_hidden snapshot v level q es :
  ik_sorted (q :: es) -> sequence q.1 <= snapshot ->
  forall e, e ∈ kept_ref snapshot v level (Some q) es -> user_key e.1 <> user_key q.1.
Proof.
  revert q. induction es as [|x es IH]; intros q Hs Hle e He; [by apply elem_of_nil in He|].
  destruct (ik_sorted_cons q (x :: es) Hs) as (_ & Hs' & Hq). destruct (Hq x ltac:(left)) as (_ & Hux & Hseq).
  cbn [kept_ref hidden] in He. destruct (decide (user_key x.1 = user_key q.1)) as [E|Hne].
  - rewrite bool_decide_true, (proj2 (Z.leb_le _ _) Hle) in He by done. cbn [andb orb app] in He.
    rewrite <- E. apply (IH x Hs'); [specialize (Hseq (eq_sym E)); lia|done].
  - apply elem_of_app in He as [He|He].
    + destruct (_ || _); [by apply elem_of_nil in He|]. by apply list_elem_of_singleton in He as ->.
    + apply kept_ref_sub in He. destruct (ik_sorted_cons x es Hs') as (_ & _ & Hx).
      destruct (Hx e He) as (_ & Hxe & _). intros E. rewrite E in Hxe. apply Hne, (ucmp_eq ucmp).
      pose proof (ucmp_sgn ucmp (user_key x.1) (user_key q.1)). lia.
Qed.

(** A visible newest version is kept unless it is an obsolete deletion, and then
    no version is. *)
Lemma kept_ref_newest snapshot v level prev es u s :
  ik_sorted es -> snapshot <= s -> unique_seqs (fun e => e ∈ es) ->
  (forall q, prev = Some q -> user_key q.1 = u -> snapshot < sequence q.1) ->
  newest (kept_ref snapshot v level prev es) u s =
  match newest es u s with
  | Some e => if obsolete snapshot v level e then None else Some e
  | None => None
  end.
Proof.
  intros Hs Hsn. revert prev. induction es as [|x es IH]; intros prev Hu Hprev; [done|].
  destruct (ik_sorted_cons x es Hs) as (Hx & Hs' & Hxq).
  assert (unique_seqs (fun e => e ∈ es)) as Hu' by (intros a b Ha Hb; apply Hu; by right).
  destruct (decide (visible u s x)) as [Hv|Hv].
  - assert (newest (x :: es) u s = Some x) as ->.
    { apply (newest_max ucmp); [left|done|]. intros q [->|Hq]%elem_of_cons [Hqu Hqs]; [by left|].
      destruct Hv as [Hxu _]. destruct (Hxq q Hq) as (_ & _ & Hle). specialize (Hle ltac:(congruence)).
      destruct (decide (sequence q.1 = sequence x.1)) as [E|]; [left|right; lia].
      apply Hu; [by right|left|congruence|done]. }
    destruct Hv as [Hxu Hxs]. cbn [kept_ref].
    assert (hidden snapshot prev x = false) as ->.
    { destruct prev as [q|]; [|done]. cbn [hidden]. case_bool_decide as E; [|done]. cbn [andb].
      apply Z.leb_gt, (Hprev q); [done|congruence]. }
    cbn [orb]. destruct (obsolete snapshot v level x) eqn:Eo; cbn [app].
    + apply newest_none. intros e He [Heu _]. unfold obsolete in Eo. rewrite !andb_true_iff, Z.leb_le in Eo.
      apply (kept_ref_hidden snapshot v level x es Hs ltac:(tauto) e He). congruence.
    + apply (newest_max ucmp); [left|done|]. intros q [->|Hq]%elem_of_cons [Hqu Hqs]; [by left|].
      apply kept_ref_sub in Hq. destruct (Hxq q Hq) as (_ & _ & Hle). specialize (Hle ltac:(congruence)).
      destruct (decide (sequence q.1 = sequence x.1)) as [E|]; [left|right; lia].
      apply Hu; [by right|left|congruence|done].
  - assert (forall l, newest (x :: l) u s = newest l u s) as Hskip.
    { intros l. cbn [newest]. destruct (bool_decide _ && _) eqn:E; [|done]. by apply visible_dec in E. }
    rewrite Hskip, <- (IH Hs' (Some x) Hu').
    + cbn [kept_ref]. destruct (_ || _); [done|]. apply Hskip.
    + intros q [= <-] Hqu. unfold visible in Hv. destruct (decide (sequence x.1 <= s)); [tauto|lia].
Qed.

(** Newer entries answer first. *)
Lemma newest_app a b u s :
  (forall e q, e ∈ a -> q ∈ b -> user_key e.1 = user_key q.1 -> sequence q.1 < sequence e.1) ->
  newest (a ++ b) u s = match newest a u s with Some e => Some e | None => newest b u s end.
Proof.
  induction a as [|x a IH]; intros Hab; [done|]. cbn [app newest].
  rewrite IH by (intros e q He Hq; apply Hab; [by right|done]).
  destruct (bool_decide _ && _) eqn:E; [|done]. apply visible_dec in E as [Exu Exs].
  destruct (newest a u s) as [q|]; [by destruct (_ <? _)|].
  destruct (newest b u s) as [q|] eqn:Eb; [|done]. apply (newest_visible ucmp) in Eb as [Hq [Hqu _]].
  rewrite (proj2 (Z.ltb_lt _ _)); [done|]. apply Hab; [left|done|congruence].
Qed.
End Kept.

(** ** Lemmas: the output tables *)

(** What the interface's laws speak about: the entries of the table under
    construction and its file, the finished tables by name, the file numbers
    handed out, and how many 64-bit numbers are left at least. *)
Class WorldModel (W : Type) := {
  building : W -> list (bytes * bytes);
  file : W -> bytes;
  table : W -> bytes -> option (list (bytes * bytes));
  given : W -> Z -> Prop;
  room : W -> nat -> Prop
}.

(** Finished tables, except that of one file, and numbers handed out stay. *)
Definition keeps {W} `{!WorldModel W} (except : option bytes) (w w' : W) : Prop :=
  (forall f es, except <> Some f -> table w f = Some es -> table w' f = Some es) /\ (forall n, given w n -> given w' n).

Definition steady {W} `{!WorldModel W} (w w' : W) : Prop :=
  keeps None w w' /\ building w' = building w /\ file w' = file w.

Class WorldLaws (W : Type) `{!World W} `{!WorldModel W} : Prop := {
  wl_shutting w : steady w (shutting_down_ w).2;
  wl_down w : (shutting_down_ w).1 = true -> (shutting_down_ (shutting_down_ w).2).1 = true;
  wl_imm w : steady w (compact_imm w);
  wl_number w : steady w (new_output_number w).2 /\ forall k, room w (S k) ->
    ~ given w (new_output_number w).1 /\ given (new_output_number w).2 (new_output_number w).1 /\
    0 < (new_output_number w).1 < 2 ^ 64 /\ room (new_output_number w).2 k;
  wl_open f w : keeps (Some f) w (NewWritableFile f w).2 /\
    (ok (NewWritableFile f w).1 = true -> file (NewWritableFile f w).2 = f);
  wl_builder w : keeps None w (new_builder w) /\ building (new_builder w) = [] /\ file (new_builder w) = file w;
  wl_Add k v w : keeps None w (builder_Add k v w) /\ building (builder_Add k v w) = building w ++ [(k, v)] /\
    file (builder_Add k v w) = file w;
  wl_NumEntries w : builder_NumEntries w = Zlength (building w);
  wl_Finish w : keeps (Some (file w)) w (builder_Finish w).2 /\
    (ok (builder_Finish w).1 = true -> table (builder_Finish w).2 (file w) = Some (building w));
  wl_Abandon w : keeps (Some (file w)) w (builder_Abandon w);
  wl_Sync w : keeps None w (outfile_Sync w).2;
  wl_Close w : keeps None w (outfile_Close w).2;
  wl_verify n size w : keeps None w (verify_table n size w).2;
  wl_LogAndApply e w : keeps None w (LogAndApply e w).2;
  wl_room_less w k : room w (S k) -> room w k;
  wl_room_imm w k : room w (S k) -> room (compact_imm w) k;
  wl_room w k : room w k ->
    room (shutting_down_ w).2 k /\ (forall f, room (NewWritableFile f w).2 k) /\ room (new_builder w) k /\
    (forall key v, room (builder_Add key v w) k) /\ room (builder_Finish w).2 k /\ room (builder_Abandon w) k /\
    room (outfile_Sync w).2 k /\ room (outfile_Close w).2 k /\ (forall n size, room (verify_table n size w).2 k)
}.

(** Room for numbers is left by every operation that takes none. *)
Ltac keep_room := intros k Hk; destruct (wl_room _ k Hk) as (? & ? & ? & ? & ? & ? & ? & ? & ?); auto.

Section Outputs.
Context {W : Type} `{!World W} `{!WorldModel W} `{!WorldLaws W}.
Context (ucmp : Comparator) (dbname : bytes).

Abbreviation entries := (list (bytes * bytes)).

Lemma keeps_refl x w : keeps x w w.
Proof. by split. Qed.

Lemma keeps_trans x w1 w2 w3 : keeps x w1 w2 -> keeps x w2 w3 -> keeps x w1 w3.
Proof. intros [H1 H2] [H3 H4]. split; eauto. Qed.

Lemma keeps_weaken x w w' : keeps None w w' -> keeps x w w'.
Proof. intros [H1 H2]. split; [|done]. intros f es _. by apply H1. Qed.

Definition table_name (o : Output) : bytes := TableFileName dbname (out_number o).

Definition bounds (o : Output) (g : entries) : Prop :=
  g = [] \/ (fst <$> head g = Some (rep_ (out_smallest o)) /\ fst <$> last g = Some (rep_ (out_largest o))).

(** A finished output. *)
Definition out_ok (w : W) (o : Output) (g : entries) : Prop :=
  g <> [] /\ table w (table_name o) = Some g /\ bounds o g.

Definition numbers_ok (w : W) (outs : list Output) : Prop :=
  NoDup (map out_number outs) /\ Forall (fun o => given w (out_number o) /\ 0 < out_number o < 2 ^ 64) outs.

(** The finished outputs hold [gs], the one under construction [cur]. *)
Definition outs_ok (cs : CompactionState) (w : W) (gs : list entries) (cur : entries) : Prop :=
  numbers_ok w (outputs cs) /\
  if builder cs then
    exists fin o, outputs cs = fin ++ [o] /\ Forall2 (out_ok w) fin gs /\ file w = table_name o /\
      building w = cur /\ bounds o cur
  else Forall2 (out_ok w) (outputs cs) gs /\ cur = [].

Lemma out_ok_keeps w w' x o g : keeps x w w' -> x <> Some (table_name o) -> out_ok w o g -> out_ok w' o g.
Proof. intros [Ht _] Hx (H1 & H2 & H3). split_and!; auto. Qed.

Lemma Forall2_out_ok_keeps w w' x fin gs :
  keeps x w w' -> (forall o, o ∈ fin -> x <> Some (table_name o)) -> Forall2 (out_ok w) fin gs -> Forall2 (out_ok w') fin gs.
Proof.
  intros Hk Hx H. induction H as [|o g fin gs Ho H IH]; constructor.
  - apply (out_ok_keeps w w' x); [done|apply Hx; left|done].
  - apply IH. intros. apply Hx. by right.
Qed.

Lemma numbers_ok_keeps x w w' outs : keeps x w w' -> numbers_ok w outs -> numbers_ok w' outs.
Proof. intros [_ Hg] [H1 H2]. split; [done|]. eapply Forall_impl; [exact H2|]. cbn. naive_solver. Qed.

Lemma outs_ok_steady cs w w' gs cur : steady w w' -> outs_ok cs w gs cur -> outs_ok cs w' gs cur.
Proof.
  intros (Hk & Hb & Hf) [Hn Ho]. split; [by eapply numbers_ok_keeps|]. destruct (builder cs).
  - destruct Ho as (fin & o & E & Hfin & Hfo & Hbo & Hbd). exists fin, o.
    split_and!; [done| |congruence|congruence|done]. eapply Forall2_out_ok_keeps; [exact Hk|done|done].
  - destruct Ho as [Hfin ->]. split; [|done]. eapply Forall2_out_ok_keeps; [exact Hk|done|done].
Qed.

(** Different outputs have different files. *)
Lemma table_names_ne w fin o : numbers_ok w (fin ++ [o]) -> forall p, p ∈ fin -> Some (table_name o) <> Some (table_name p).
Proof.
  intros [Hnd Hall] p Hp [= E]. rewrite Forall_forall in Hall.
  destruct (Hall p ltac:(set_solver)) as [_ Hp1]. destruct (Hall o ltac:(set_solver)) as [_ Ho1].
  apply TableFileName_inj in E; [|unfold is_u64; lia|unfold is_u64; lia].
  rewrite map_app in Hnd. apply NoDup_app in Hnd as (_ & Hd & _). apply (Hd (out_number p)).
  - by apply list_elem_of_In, in_map, list_elem_of_In.
  - rewrite <- E. left.
Qed.

Lemma update_current_last cs fin o f : outputs cs = fin ++ [o] ->
  update_current cs f = Some (with_outputs cs (fin ++ [f o]) (builder cs)).
Proof. intros E. unfold update_current. rewrite E, last_snoc, removelast_last. done. Qed.

(** The fields that opening, filling and finishing outputs leave alone. *)
Definition same_work (cs cs' : CompactionState) : Prop :=
  compaction cs' = compaction cs /\ smallest_snapshot cs' = smallest_snapshot cs.

Lemma numbers_ok_number w fin o o' : out_number o' = out_number o -> numbers_ok w (fin ++ [o]) -> numbers_ok w (fin ++ [o']).
Proof.
  intros E [H1 H2]. split; [rewrite map_app in *; cbn in *; by rewrite E|].
  apply Forall_app in H2 as [H2 H3]. apply Forall_app. split; [done|]. inversion_clear H3. constructor; [by rewrite E|done].
Qed.

(** A call that is only made while all is well. *)
Lemma if_ok_step (b : bool) s (step : W -> Status * W) w :
  (forall w, keeps None w (step w).2 /\ forall k, room w k -> room (step w).2 k) ->
  (keeps None w (if ok s && b then step w else (s, w)).2 /\
   forall k, room w k -> room (if ok s && b then step w else (s, w)).2 k) /\ (ok (if ok s && b then step w else (s, w)).1 = true -> ok s = true).
Proof.
  intros Hs. destruct (ok s) eqn:E; cbn [andb]; [|split; [split; [apply keeps_refl|done]|cbn; congruence]].
  destruct b; split; auto using keeps_refl.
Qed.

Lemma Finish_ok st cs w gs cur :
  outs_ok cs w gs cur -> builder cs = true -> cur <> [] ->
  exists s cs' w', FinishCompactionOutputFile st cs w = Some (s, cs', w') /\ same_work cs cs' /\ builder cs' = false /\
    (forall k, room w k -> room w' k) /\ (ok s = true -> ok st = true /\ outs_ok cs' w' (gs ++ [cur]) []).
Proof.
  intros [Hn Ho] Hb Hcur. rewrite Hb in Ho. destruct Ho as (fin & o & E & Hfin & Hfo & Hbo & Hbd).
  unfold FinishCompactionOutputFile. rewrite Hb, E, last_snoc. bind_simpl. rewrite E in Hn.
  assert (0 < out_number o) as Hpos.
  { destruct Hn as [_ Hn]. apply Forall_app in Hn as [_ Hn]. inversion_clear Hn. lia. }
  rewrite (proj2 (Z.eqb_neq _ _)) by lia. cbn [negb].
  set (p1 := if ok st then _ else _). assert (keeps (Some (file w)) w p1.2 /\ (forall k, room w k -> room p1.2 k) /\
    (ok p1.1 = true -> ok st = true /\ table p1.2 (file w) = Some cur)) as (Hk1 & Hr1 & Ht1).
  { subst p1. destruct (ok st) eqn:Es.
    - rewrite <- Hbo. destruct (wl_Finish w). split_and!; [done| |auto]. keep_room.
    - split_and!; [apply wl_Abandon| |cbn; congruence]. keep_room. }
  destruct p1 as [s1 w1]. cbn [fst snd] in *.
  rewrite (update_current_last cs fin o) by done. bind_simpl. cbn [with_outputs outputs builder compaction smallest_snapshot].
  set (o' := MkOutput _ _ _ _).
  destruct (if_ok_step true s1 outfile_Sync w1) as [[Hk2 Hr2] Ht2];
    [intros w'; split; [apply wl_Sync|keep_room]|].
  rewrite andb_true_r in Hk2, Hr2, Ht2.
  destruct (if ok s1 then _ else _) as [s2 w2]. cbn [fst snd] in *.
  destruct (if_ok_step true s2 outfile_Close w2) as [[Hk3 Hr3] Ht3];
    [intros w'; split; [apply wl_Close|keep_room]|].
  rewrite andb_true_r in Hk3, Hr3, Ht3.
  destruct (if ok s2 then _ else _) as [s3 w3]. cbn [fst snd] in *.
  destruct (if_ok_step (builder_NumEntries w >? 0) s3 (verify_table (out_number o) (builder_FileSize w1)) w3)
    as [[Hk4 Hr4] Ht4]; [intros w'; split; [apply wl_verify|keep_room]|].
  destruct (if ok s3 && _ then _ else _) as [s4 w4]. cbn [fst snd] in *.
  eexists _, _, _. split_and!; [reflexivity|done|done|auto|]. intros Hok.
  destruct (Ht1 (Ht2 (Ht3 (Ht4 Hok)))) as [Hst Ht]. split; [done|].
  assert (keeps None w1 w4) as Hk by eauto using keeps_trans.
  split; cbn [outputs builder].
  - apply (numbers_ok_number w4 fin o); [done|]. eapply numbers_ok_keeps; [exact Hk|]. by eapply numbers_ok_keeps.
  - split; [|done]. apply Forall2_app; [|constructor; [|constructor]].
    + eapply Forall2_out_ok_keeps; [exact Hk|done|]. eapply Forall2_out_ok_keeps; [exact Hk1| |exact Hfin].
      rewrite Hfo. by eapply table_names_ne.
    + split_and!; [done| |done]. apply Hk; [done|]. by rewrite <- Ht, Hfo.
Qed.


Lemma Open_ok cs w gs k :
  outs_ok cs w gs [] -> builder cs = false -> room w (S k) ->
  exists s cs' w', OpenCompactionOutputFile dbname cs w = Some (s, cs', w') /\ same_work cs cs' /\ room w' k /\
    (ok s = true -> builder cs' = true /\ outs_ok cs' w' gs []).
Proof.
  intros [Hn Ho] Hb Hroom. rewrite Hb in Ho. destruct Ho as [Hfin _]. unfold OpenCompactionOutputFile. rewrite Hb.
  destruct (wl_number w) as [(Hk1 & _ & _) Hnum]. destruct (Hnum k Hroom) as (Hnew & Hgiven & Hpos & Hr1).
  destruct (new_output_number w) as [n w1]. cbn [fst snd] in *. set (o := MkOutput n 0 _ _).
  destruct (wl_open (TableFileName dbname n) w1) as [Hk2 Hf2].
  pose proof (proj1 (proj2 (wl_room w1 k Hr1)) (TableFileName dbname n)) as Hr2.
  destruct (NewWritableFile (TableFileName dbname n) w1) as [s w2]. cbn [fst snd] in *.
  destruct (ok s) eqn:Es; [|eexists _, _, _; split_and!; [reflexivity|done|done|congruence]].
  eexists _, _, _. split_and!; [reflexivity|done|by apply (wl_room w2 k Hr2)|]. intros _. split; [done|].
  destruct (wl_builder w2) as (Hk3 & Hb3 & Hf3).
  assert (numbers_ok w1 (outputs cs ++ [o])) as Hn1.
  { pose proof Hn as [_ Hold]. rewrite Forall_forall in Hold. apply (numbers_ok_keeps None w w1) in Hn as [Hnd Hall]; [|done]. split.
    - rewrite map_app. apply NoDup_app. split_and!; [done| |apply NoDup_singleton].
      intros m Hm Hin%list_elem_of_singleton. cbn in Hin. subst m. apply Hnew.
      apply list_elem_of_In, in_map_iff in Hm as (p & <- & Hp%list_elem_of_In).
      by apply Hold.
    - apply Forall_app. split; [done|]. by constructor. }
  split; cbn [outputs with_outputs builder].
  - eapply numbers_ok_keeps; [exact Hk3|]. by eapply numbers_ok_keeps.
  - exists (outputs cs), o. split_and!; [done| |by rewrite Hf3, Hf2|done|by left].
    eapply Forall2_out_ok_keeps; [exact Hk3|done|]. eapply (Forall2_out_ok_keeps w1); [exact Hk2| |].
    + by eapply (table_names_ne w1 _ o).
    + eapply Forall2_out_ok_keeps; [exact Hk1|done|done].
Qed.

(** Between entries: an output under construction is not empty. *)
Definition work_ok (cs : CompactionState) (w : W) (gs : list entries) (cur : entries) : Prop :=
  outs_ok cs w gs cur /\ (builder cs = true -> cur <> []).

Lemma outs_ok_Add cs w gs cur key value cs1 :
  outs_ok cs w gs cur -> builder cs = true ->
  (if builder_NumEntries w =? 0
   then update_current cs (fun o => MkOutput (out_number o) (out_file_size o) (InternalKey_DecodeFrom key) (out_largest o))
   else Some cs) = Some cs1 ->
  exists cs2, update_current cs1 (fun o => MkOutput (out_number o) (out_file_size o) (out_smallest o) (InternalKey_DecodeFrom key))
      = Some cs2 /\ same_work cs cs2 /\ builder cs2 = true /\
    outs_ok cs2 (builder_Add key value w) gs (cur ++ [(key, value)]).
Proof.
  intros [Hn Ho] Hb. rewrite Hb in Ho. destruct Ho as (fin & o & E & Hfin & Hfo & Hbo & Hbd). rewrite E in Hn.
  rewrite wl_NumEntries, Hbo. destruct (wl_Add key value w) as (Hk & Hb2 & Hf2). intros E1.
  assert (exists o1, cs1 = with_outputs cs (fin ++ [o1]) true /\ out_number o1 = out_number o /\
    fst <$> head (cur ++ [(key, value)]) = Some (rep_ (out_smallest o1))) as (o1 & -> & Hn1 & Hs1).
  { destruct (Z.eqb_spec (Zlength cur) 0) as [Hz|Hz].
    - rewrite (update_current_last cs fin o) in E1 by done. injection E1 as <-. rewrite Hb. eexists. split; [reflexivity|].
      destruct cur; [done|]. rewrite Zlength_cons in Hz. pose proof (Zlength_nonneg cur). lia.
    - injection E1 as <-. exists o. split_and!; [unfold with_outputs; rewrite <- E, <- Hb; by destruct cs|done|].
      destruct cur as [|x cur]; [done|]. destruct Hbd as [?|[Hbd _]]; [done|]. exact Hbd. }
  rewrite (update_current_last _ fin o1) by done. eexists. split_and!; [reflexivity|done|done|].
  split; cbn [outputs with_outputs builder].
  - apply (numbers_ok_number _ fin o); [done|]. by eapply numbers_ok_keeps.
  - eexists fin, _. split_and!; [reflexivity| | | |].
    + eapply Forall2_out_ok_keeps; [exact Hk|done|done].
    + rewrite Hf2, Hfo. unfold table_name. cbn. by rewrite Hn1.
    + by rewrite Hb2, Hbo.
    + right. split; [exact Hs1|]. by rewrite last_snoc.
Qed.

Lemma emit_ok st cs w gs cur key value k :
  work_ok cs w gs cur -> room w (S k) ->
  exists s cs' w', emit_entry dbname st cs key value w = Some (s, cs', w') /\ same_work cs cs' /\ room w' k /\
    (ok s = true -> exists gs' cur', work_ok cs' w' gs' cur' /\ concat gs' ++ cur' = concat gs ++ cur ++ [(key, value)]).
Proof.
  intros [Ho Hc] Hroom. unfold emit_entry.
  assert (exists s cs1 w1, (if builder cs then Some (Status_OK, cs, w) else OpenCompactionOutputFile dbname cs w) = Some (s, cs1, w1) /\
    same_work cs cs1 /\ room w1 k /\ (ok s = true -> builder cs1 = true /\ outs_ok cs1 w1 gs cur))
    as (s & cs1 & w1 & -> & Hsame & Hr1 & H1).
  { destruct (builder cs) eqn:Eb; [eexists _, _, _; split_and!; [reflexivity|done|by apply wl_room_less|done]|].
    assert (cur = []) as -> by (destruct Ho as [_ Ho]; rewrite Eb in Ho; tauto). by apply Open_ok. }
  bind_simpl. destruct (ok s) eqn:Es; cbn [negb]; [|eexists _, _, _; split_and!; [reflexivity|done|done|congruence]].
  destruct (H1 eq_refl) as [Hb1 Ho1].
  assert (exists cs2, (if builder_NumEntries w1 =? 0
    then update_current cs1 (fun o => MkOutput (out_number o) (out_file_size o) (InternalKey_DecodeFrom key) (out_largest o))
    else Some cs1) = Some cs2) as [cs2 E2].
  { destruct (_ =? 0); [|eauto]. destruct Ho1 as [_ Ho1]. rewrite Hb1 in Ho1. destruct Ho1 as (fin & o & E & _).
    rewrite (update_current_last _ fin o) by done. eauto. }
  rewrite E2. bind_simpl. destruct (outs_ok_Add cs1 w1 gs cur key value cs2 Ho1 Hb1 E2) as (cs3 & -> & Hsame3 & Hb3 & Ho3).
  bind_simpl. pose proof (proj1 (proj2 (proj2 (proj2 (wl_room w1 k Hr1)))) key value) as Hr3.
  assert (same_work cs cs3) as Hs3 by (destruct Hsame, Hsame3; split; congruence).
  destruct (_ >=? _).
  - destruct (Finish_ok st cs3 _ gs _ Ho3 Hb3) as (s' & cs4 & w4 & -> & Hs4 & Hb4 & Hr4 & H4); [by destruct cur|].
    eexists _, _, _. split_and!; [reflexivity|destruct Hs3, Hs4; split; congruence|auto|]. intros Hok.
    destruct (H4 Hok) as [_ Ho4]. eexists _, []. split; [split; [exact Ho4|congruence]|].
    rewrite concat_app, app_nil_r. cbn. by rewrite app_nil_r.
  - eexists _, _, _. split_and!; [reflexivity|done|done|]. intros _. exists gs, (cur ++ [(key, value)]).
    split; [split; [done|]|done]. intros _. by destruct cur.
Qed.

(** ** Lemmas: the loop *)

(** What the base-level test looks at. *)
Definition same_base (c c' : Compaction) : Prop :=
  input_version_ c' = input_version_ c /\ level_ c' = level_ c /\ level_ptrs_ c' = level_ptrs_ c.

(** What the loop leaves alone in a compaction. *)
Definition same_plan (c c' : Compaction) : Prop :=
  input_version_ c' = input_version_ c /\ level_ c' = level_ c /\ inputs0_ c' = inputs0_ c /\ inputs1_ c' = inputs1_ c /\
  grandparents_ c' = grandparents_ c /\ grandparent_index_ c' = grandparent_index_ c /\ edit_ c' = edit_ c.

Lemma same_plan_trans c1 c2 c3 : same_plan c1 c2 -> same_plan c2 c3 -> same_plan c1 c3.
Proof. unfold same_plan. intros. destruct_and!. split_and!; congruence. Qed.

Lemma IsBaseLevelForKey_plan c key : same_plan c (IsBaseLevelForKey ucmp c key).2.
Proof. unfold IsBaseLevelForKey. by destruct (IsBaseLevel_levels _ _ _ _ _). Qed.

Lemma drop_key_plan snapshot c st key : same_plan c (drop_key ucmp snapshot c st key).1.2.
Proof.
  unfold drop_key. destruct (ParseInternalKey key) as [ikey|]; [|done].
  set (st1 := if _ || _ then _ else _). destruct (_ <=? snapshot); [done|]. destruct (_ && _); [|done].
  pose proof (IsBaseLevelForKey_plan c (user_key ikey)) as H. by destruct (IsBaseLevelForKey ucmp c (user_key ikey)).
Qed.

Lemma drop_key_base snapshot c c' st key : same_base c c' ->
  (drop_key ucmp snapshot c' st key).1.1 = (drop_key ucmp snapshot c st key).1.1 /\
  (drop_key ucmp snapshot c' st key).2 = (drop_key ucmp snapshot c st key).2 /\
  same_base (drop_key ucmp snapshot c st key).1.2 (drop_key ucmp snapshot c' st key).1.2.
Proof.
  intros Hb. unfold drop_key. destruct (ParseInternalKey key) as [ikey|]; [|done].
  set (st1 := if _ || _ then _ else _). destruct (_ <=? snapshot); [done|]. destruct (_ && _); [|done].
  unfold IsBaseLevelForKey. destruct Hb as (Ev & El & Ep). rewrite Ev, El, Ep.
  by destruct (IsBaseLevel_levels _ _ _ _ _).
Qed.

Lemma kept_base snapshot es c c' st : same_base c c' -> kept ucmp snapshot c' st es = kept ucmp snapshot c st es.
Proof.
  revert c c' st. induction es as [|e es IH]; intros c c' st Hb; [done|]. cbn [kept].
  destruct (drop_key_base snapshot c c' st (ik e) Hb) as (E1 & E2 & E3).
  destruct (drop_key ucmp snapshot c st (ik e)) as [[d c1] st1], (drop_key ucmp snapshot c' st (ik e)) as [[d' c1'] st1'].
  cbn [fst snd] in *. subst. f_equal. by apply IH.
Qed.

(** The key does not pass the current grandparent. *)
Definition not_past (c : Compaction) (key : bytes) : Prop :=
  forall g, grandparents_ c !! grandparent_index_ c = Some g -> InternalKeyCompare ucmp key (rep_ (largest g)) <= 0.

Lemma ShouldStopBefore_ok fuel c key : not_past c key ->
  exists stop c', ShouldStopBefore ucmp fuel c key = Some (stop, c') /\ same_base c c' /\ same_plan c c'.
Proof.
  intros Hp. unfold ShouldStopBefore.
  assert (ShouldStopBefore_loop ucmp fuel c key = Some c) as ->.
  { destruct fuel; cbn [ShouldStopBefore_loop]; destruct (grandparents_ c !! grandparent_index_ c) as [g|] eqn:E; try done;
      specialize (Hp g E); rewrite Z.gtb_ltb, (proj2 (Z.ltb_ge _ _)) by lia; done. }
  bind_simpl. case_match; by eexists _, _.
Qed.

(** The output is finished early when the grandparents ask for it. *)
Lemma stop_ok ist cs w gs cur stop : work_ok cs w gs cur ->
  exists s cs' w', (if stop && builder cs then FinishCompactionOutputFile ist cs w else Some (Status_OK, cs, w))
      = Some (s, cs', w') /\ same_work cs cs' /\ (forall k, room w k -> room w' k) /\
    (ok s = true -> exists gs' cur', work_ok cs' w' gs' cur' /\ concat gs' ++ cur' = concat gs ++ cur).
Proof.
  intros [Ho Hc]. destruct stop; cbn [andb]; [|eexists _, _, _; split_and!; [reflexivity|done|done|by exists gs, cur]].
  destruct (builder cs) eqn:Eb; [|eexists _, _, _; split_and!; [reflexivity|done|done|]].
  - destruct (Finish_ok ist cs w gs cur Ho Eb (Hc eq_refl)) as (s & cs2 & w3 & -> & ? & Hb & Hr & H).
    eexists _, _, _. split_and!; [reflexivity|done|done|]. intros Hok. destruct (H Hok) as [_ Ho2].
    exists (gs ++ [cur]), []. split; [split; [done|congruence]|]. rewrite concat_app. cbn. by rewrite !app_nil_r.
  - intros _. exists gs, cur. split; [split; [done|congruence]|done].
Qed.

(** One decision on an entry, for the compaction the loop carries. *)
Lemma decide_ok snapshot c c1 st e es :
  same_base c c1 -> same_plan c c1 ->
  exists d c2 st2, drop_key ucmp snapshot c1 st (ik e) = (d, c2, st2) /\ same_plan c c2 /\
    kept ucmp snapshot c st (e :: es) = (if (d : bool) then [] else [e]) ++ kept ucmp snapshot c2 st2 es.
Proof.
  intros Hb Hp. destruct (drop_key_base snapshot c c1 st (ik e) Hb) as (E1 & E2 & E3).
  pose proof (drop_key_plan snapshot c1 st (ik e)) as Hp2. cbn [kept].
  destruct (drop_key ucmp _ c1 st (ik e)) as [[d c2] st2], (drop_key ucmp _ c st (ik e)) as [[d' c2'] st2'].
  cbn [fst snd] in *. subst d' st2'. exists d, c2, st2. split_and!; [done|by eapply same_plan_trans|].
  by rewrite (kept_base _ es c2' c2 st2 E3).
Qed.

Lemma loop_ok fuel ist es cs st w gs cur :
  work_ok cs w gs cur -> (forall e, e ∈ es -> not_past (compaction cs) (ik e)) -> room w (2 * length es) ->
  exists s cs' w', DoCompactionWork_loop ucmp dbname fuel ist (map raw es) cs st w = Some (s, cs', w') /\
    same_plan (compaction cs) (compaction cs') /\
    (ok s = true -> (shutting_down_ w').1 = true \/
      exists gs' cur', work_ok cs' w' gs' cur' /\
        concat gs' ++ cur' = concat gs ++ cur ++ map raw (kept ucmp (smallest_snapshot cs) (compaction cs) st es)).
Proof.
  revert cs st w gs cur. induction es as [|e es IH]; intros cs st w gs cur Hw Hnp Hroom.
  { eexists _, _, _. split_and!; [reflexivity|done|]. intros _. right. exists gs, cur. by rewrite app_nil_r. }
  replace (2 * length (e :: es))%nat with (S (S (2 * length es))) in Hroom by (cbn; lia).
  cbn [map DoCompactionWork_loop raw]. fold raw. pose proof (wl_shutting w) as Hs1. pose proof (wl_down w) as Hd.
  apply wl_room in Hroom as [Hroom _]. destruct (shutting_down_ w) as [down w1]. cbn [fst snd] in *.
  destruct down; [eexists _, _, _; split_and!; [reflexivity|done|auto]|].
  assert (work_ok cs (compact_imm w1) gs cur) as Hw1.
  { destruct Hw as [Ho Hc]. split; [|done]. eapply outs_ok_steady; [apply wl_imm|]. by eapply outs_ok_steady. }
  apply wl_room_imm in Hroom. set (w2 := compact_imm w1) in *.
  destruct (ShouldStopBefore_ok fuel (compaction cs) (ik e) ltac:(apply Hnp; left)) as (stop & c1 & -> & Hb1 & Hp1).
  bind_simpl. destruct (stop_ok ist (with_compaction cs c1) w2 gs cur stop Hw1) as (s & cs2 & w3 & -> & [Ec2 Es2] & Hr3 & H2).
  bind_simpl. cbn [with_compaction compaction smallest_snapshot] in Ec2, Es2. apply Hr3 in Hroom.
  destruct (ok s) eqn:Es; cbn [negb]; [|eexists _, _, _; split_and!; [reflexivity|by rewrite Ec2|congruence]].
  destruct (H2 eq_refl) as (gs2 & cur2 & Hw3 & Econc). rewrite Ec2, Es2.
  destruct (decide_ok (smallest_snapshot cs) (compaction cs) c1 st e es Hb1 Hp1) as (d & c2 & st2 & -> & Hp3 & ->).
  assert (forall q, q ∈ es -> not_past c2 (ik q)) as Hnp2.
  { intros q Hq g. destruct Hp3 as (_ & _ & _ & _ & Eg & Ei & _). rewrite Eg, Ei. apply Hnp. by right. }
  set (cs3 := with_compaction cs2 c2). assert (work_ok cs3 w3 gs2 cur2) as Hw4 by exact Hw3. destruct d.
  - destruct (IH cs3 st2 w3 gs2 cur2 Hw4 Hnp2) as (s' & cs' & w' & -> & Hp4 & H4); [by apply wl_room_less|].
    eexists _, _, _. split_and!; [reflexivity|by eapply same_plan_trans|]. intros Hok.
    destruct (H4 Hok) as [?|(gs' & cur' & Hw' & E')]; [auto|right]. exists gs', cur'. split; [done|].
    rewrite E', !app_assoc, Econc, <- !app_assoc. cbn [cs3 with_compaction smallest_snapshot compaction app]. by rewrite Es2.
  - destruct (emit_ok ist cs3 w3 gs2 cur2 (ik e) e.2 _ Hw4 Hroom) as (s' & cs4 & w4 & -> & [Ec4 Es4] & Hr4 & H4). bind_simpl.
    cbn [cs3 with_compaction compaction smallest_snapshot] in Ec4, Es4.
    destruct (ok s') eqn:Es'; cbn [negb]; [|eexists _, _, _; split_and!; [reflexivity|by rewrite Ec4|congruence]].
    destruct (H4 eq_refl) as (gs4 & cur4 & Hw5 & E4). rewrite <- Ec4 in Hnp2, Hp3.
    destruct (IH cs4 st2 w4 gs4 cur4 Hw5 Hnp2 Hr4) as (s5 & cs5 & w5 & -> & Hp5 & H5).
    eexists _, _, _. split_and!; [reflexivity|by eapply same_plan_trans|]. intros Hok.
    destruct (H5 Hok) as [?|(gs' & cur' & Hw' & E')]; [auto|right]. exists gs', cur'. split; [done|].
    rewrite E', !app_assoc, E4, Ec4, Es4, Es2, !app_assoc, Econc, <- !app_assoc. done.
Qed.

(** What follows the loop. *)
Lemma finish_last_ok ist s0 cs w gs cur : work_ok cs w gs cur ->
  exists s cs' w', (if builder cs then FinishCompactionOutputFile ist cs w else Some (s0, cs, w)) = Some (s, cs', w') /\
    compaction cs' = compaction cs /\ builder cs' = false /\
    (ok s = true -> exists gs', Forall2 (out_ok w') (outputs cs') gs' /\ numbers_ok w' (outputs cs') /\
       concat gs' = concat gs ++ cur).
Proof.
  intros [Ho Hc]. destruct (builder cs) eqn:Eb.
  - destruct (Finish_ok ist cs w gs cur Ho Eb (Hc eq_refl)) as (s & cs2 & w3 & -> & [Ec _] & Hb & _ & H).
    eexists _, _, _. split_and!; [reflexivity|done|done|]. intros Hok. destruct (H Hok) as [_ [Hn2 Ho2]].
    rewrite Hb in Ho2. destruct Ho2 as [Ho2 _]. exists (gs ++ [cur]). split_and!; [done|done|].
    rewrite concat_app. cbn. by rewrite app_nil_r.
  - eexists _, _, _. split_and!; [reflexivity|done|done|]. intros _. destruct Ho as [Hn Ho]. rewrite Eb in Ho.
    destruct Ho as [Ho ->]. exists gs. by rewrite app_nil_r.
Qed.

End Outputs.

(** * Properties *)

(** C17: A compaction changes no read that can still be made.  For every snapshot
    at or past the smallest one, and every user key, the newest visible version
    among newer entries, the entries kept and older entries answers as it did
    among newer entries, the entries of the inputs and older ones.  Older entries
    lie below the output level, in files whose ranges [IsBaseLevelForKey] looks
    at; deletions it drops there have nothing left to hide. *)
Theorem compaction_preserves_reads (ucmp : Comparator) `{!ComparatorLaws ucmp any_key} (c : Compaction) (snapshot : Z)
    (newer es older : list mem_entry) (u : bytes) (s : Z) (value : bytes) :
  let v := input_version_ c in
  (forall lvl, (level_ c + 2 <= lvl)%nat -> level_wf ucmp (level_files v lvl)) ->
  level_ptrs_ c = replicate num_levels 0%nat -> snapshot < kMaxSequenceNumber ->
  ik_sorted ucmp es -> unique_seqs (fun e => e ∈ es) ->
  (forall q, q ∈ older -> exists lvl f, (level_ c + 2 <= lvl < num_levels)%nat /\ f ∈ level_files v lvl /\
     covers ucmp (user_key q.1) f = true) ->
  (forall e q, e ∈ newer -> q ∈ es \/ q ∈ older -> user_key e.1 = user_key q.1 -> sequence q.1 < sequence e.1) ->
  (forall e q, e ∈ es -> q ∈ older -> user_key e.1 = user_key q.1 -> sequence q.1 < sequence e.1) ->
  snapshot <= s ->
  version_answer (newest (newer ++ kept ucmp snapshot c drop_state_new es ++ older) u s) value =
  version_answer (newest (newer ++ es ++ older) u s) value.
Proof.
  intros v Hw Hp Hsn Hs Hu Hold Hn He Hle. pose proof Hs as [Hseq Hsort].
  rewrite (kept_ok ucmp snapshot es c drop_state_new None); [|done|done|done|done|done|].
  2: { intros e _. unfold ptrs_at. rewrite Hp. apply ptrs_ok_start. }
  set (k := kept_ref _ _ _ _ _ _). assert (forall q, q ∈ k -> q ∈ es) as Hsub by (intros q; apply (kept_ref_sub ucmp)).
  rewrite !(newest_app ucmp) by (intros e q; rewrite ?elem_of_app; naive_solver).
  destruct (newest newer u s); [done|].
  pose proof (kept_ref_newest ucmp snapshot v (level_ c) None es u s Hs Hle Hu ltac:(done)) as Hk.
  fold v in k. fold k in Hk. rewrite Hk. destruct (newest es u s) as [e|] eqn:E; [|done].
  destruct (obsolete ucmp snapshot v (level_ c) e) eqn:Eo; [|done].
  apply (newest_visible ucmp) in E as [_ [<- _]]. rewrite newest_none.
  - unfold obsolete in Eo. rewrite !andb_true_iff, bool_decide_eq_true in Eo. destruct Eo as [[Ht _] _].
    destruct e as [p x]. cbn in *. by rewrite Ht.
  - intros q Hq [Equ _]. destruct (Hold q Hq) as (lvl & f & Hl & Hf & Hc).
    unfold obsolete, is_base in Eo. rewrite !andb_true_iff, negb_true_iff in Eo. destruct Eo as [_ Eo].
    apply not_true_iff_false in Eo. apply Eo, existsb_exists. exists lvl. split; [apply in_seq; lia|].
    apply existsb_exists. exists f. rewrite <- Equ. split; [by apply list_elem_of_In|done].
Qed.

(** Values and deletions for the witnesses. *)
Definition put_at (u : string) (s : Z) : mem_entry := (MkParsedInternalKey (str u) s kTypeValue, str "v").
Definition del_at (u : string) (s : Z) : mem_entry := (MkParsedInternalKey (str u) s kTypeDeletion, []).

Definition sample_inputs : list mem_entry := [put_at "a" 7; put_at "a" 5; del_at "c" 6; del_at "e" 4].

Example sample_kept :
  kept BytewiseComparator 8 sample_compaction drop_state_new sample_inputs = [put_at "a" 7; del_at "c" 6].
Proof. reflexivity. Qed.

Lemma sample_inputs_sorted : ik_sorted BytewiseComparator sample_inputs.
Proof. split; repeat constructor; vm_compute; congruence. Qed.

Lemma compaction_preserves_reads_witness :
  version_answer (newest ([put_at "a" 20] ++ kept BytewiseComparator 8 sample_compaction drop_state_new sample_inputs
    ++ [put_at "c" 1]) (str "c") 9) [] =
  version_answer (newest ([put_at "a" 20] ++ sample_inputs ++ [put_at "c" 1]) (str "c") 9) [].
Proof.
  apply (compaction_preserves_reads BytewiseComparator sample_compaction 8).
  - exact sample_compaction_wf.
  - reflexivity.
  - reflexivity.
  - exact sample_inputs_sorted.
  - intros e q He Hq. cbn in He, Hq. set_unfold.
    destruct He as [->|[->|[->|[->|[]]]]], Hq as [->|[->|[->|[->|[]]]]]; cbn; congruence.
  - intros q Hq. apply list_elem_of_singleton in Hq as ->. exists 2%nat, (sample_file 4 "b" "d").
    split; [vm_compute; lia|]. split; [left|reflexivity].
  - intros e q He Hq. apply list_elem_of_singleton in He as ->. cbn in Hq. set_unfold.
    destruct Hq as [[->|[->|[->|[->|[]]]]]|[->|[]]]; cbn; (lia || congruence).
  - intros e q He Hq. apply list_elem_of_singleton in Hq as ->. cbn in He. set_unfold.
    destruct He as [->|[->|[->|[->|[]]]]]; cbn; (lia || congruence).
  - lia.
Defined.

(** A world in memory: nothing fails, nobody interferes. *)
Record MemWorld := MkMemWorld {
  mw_building : list (bytes * bytes);
  mw_file : bytes;
  mw_tables : gmap bytes (list (bytes * bytes));
  mw_next : Z;
  mw_edits : list VersionEdit
}.

#[global] Instance MemWorld_ops : World MemWorld := {
  shutting_down_ w := (false, w);
  compact_imm w := w;
  new_output_number w := (mw_next w, MkMemWorld (mw_building w) (mw_file w) (mw_tables w) (mw_next w + 1) (mw_edits w));
  NewWritableFile f w := (Status_OK, MkMemWorld (mw_building w) f (delete f (mw_tables w)) (mw_next w) (mw_edits w));
  new_builder w := MkMemWorld [] (mw_file w) (mw_tables w) (mw_next w) (mw_edits w);
  builder_Add k v w := MkMemWorld (mw_building w ++ [(k, v)]) (mw_file w) (mw_tables w) (mw_next w) (mw_edits w);
  builder_NumEntries w := Zlength (mw_building w);
  builder_FileSize w := fold_left (fun n e => n + Zlength e.1 + Zlength e.2) (mw_building w) 0;
  builder_Finish w := (Status_OK, MkMemWorld (mw_building w) (mw_file w) (<[mw_file w := mw_building w]> (mw_tables w))
                         (mw_next w) (mw_edits w));
  builder_Abandon w := w;
  outfile_Sync w := (Status_OK, w);
  outfile_Close w := (Status_OK, w);
  verify_table _ _ w := (Status_OK, w);
  LogAndApply e w := (Status_OK, e, MkMemWorld (mw_building w) (mw_file w) (mw_tables w) (mw_next w) (mw_edits w ++ [e]))
}.

#[global] Instance MemWorld_model : WorldModel MemWorld := {
  building := mw_building;
  file := mw_file;
  table w f := mw_tables w !! f;
  given w n := 0 < n < mw_next w;
  room w k := 0 < mw_next w /\ mw_next w + Z.of_nat k < 2 ^ 64
}.

Lemma MemWorld_laws : WorldLaws MemWorld.
Proof.
  split; unfold keeps, steady; cbn [building file table given room shutting_down_ compact_imm new_output_number
    NewWritableFile new_builder builder_Add builder_NumEntries builder_FileSize builder_Finish builder_Abandon
    outfile_Sync outfile_Close verify_table LogAndApply MemWorld_ops MemWorld_model fst snd
    mw_building mw_file mw_tables mw_next mw_edits];
    repeat first [progress intros | split]; cbn in *; try done; try lia.
  - rewrite lookup_delete_ne by congruence. done.
  - rewrite lookup_insert_ne by congruence. done.
  - by rewrite lookup_insert_eq.
Qed.

(** C18: A compaction writes exactly the entries it keeps.  From a fresh state,
    and unless a key passes the current grandparent, [DoCompactionWork] returns;
    when its status is OK, its outputs are finished, non-empty tables under
    different numbers whose contents, one after the other, are the entries kept
    of the input, with bounds that are their first and last keys, and the edit
    it logged deletes the inputs and adds these outputs. *)
Theorem DoCompactionWork_correct {W : Type} `{!World W} `{!WorldModel W} `{!WorldLaws W} (ucmp : Comparator)
    (dbname : bytes) (fuel : nat) (snapshots : SnapshotList.t) (last_sequence snapshot : Z) (input_status : Status)
    (es : list mem_entry) (c : Compaction) (w : W) :
  level_files (input_version_ c) (level_ c) <> [] ->
  pick_smallest_snapshot snapshots last_sequence = Some snapshot ->
  (forall e, e ∈ es -> not_past ucmp c (ik e)) -> room w (2 * length es) ->
  exists s cs w', DoCompactionWork ucmp dbname fuel snapshots last_sequence input_status (map raw es)
      (CompactionState_new c) w = Some (s, cs, w') /\
    (ok s = true -> exists tables,
       Forall2 (out_ok dbname w') (outputs cs) tables /\ NoDup (map out_number (outputs cs)) /\
       concat tables = map raw (kept ucmp snapshot c drop_state_new es) /\
       exists w1, LogAndApply (install_edit c (outputs cs)) w1 = (s, edit_ (compaction cs), w')).
Proof.
  intros Hlevel Hsnap Hnp Hroom. unfold DoCompactionWork, CompactionState_new. cbn [compaction builder outputs total_bytes].
  rewrite (proj2 (Nat.eqb_neq _ _)) by (by destruct (level_files _ _)). cbn [orb]. rewrite Hsnap. bind_simpl.
  set (cs0 := MkCompactionState c snapshot [] false 0).
  assert (work_ok dbname cs0 w [] []) as Hw0.
  { split; [|done]. split; [split; constructor|]. split; [constructor|done]. }
  destruct (loop_ok ucmp dbname fuel input_status es cs0 drop_state_new w [] [] Hw0 Hnp Hroom)
    as (s & cs1 & w1 & -> & Hp & H1). bind_simpl.
  destruct (ok s) eqn:Es; [|rewrite ?Es; cbn [andb]; bind_simpl; rewrite ?Es; eexists _, _, _; split; [reflexivity|congruence]].
  pose proof (wl_shutting w1) as Hs1. destruct (shutting_down_ w1) as [down w2]. cbn [fst snd] in *.
  destruct down; [cbn [ok Status_IOError andb]; bind_simpl; eexists _, _, _; split; [reflexivity|done]|].
  rewrite ?Es. cbn [andb]. destruct (H1 eq_refl) as [?|(gs & cur & [Ho Hc] & Econc)]; [done|].
  apply (outs_ok_steady dbname cs1 w1 w2) in Ho; [|done].
  destruct (finish_last_ok dbname input_status s cs1 w2 gs cur (conj Ho Hc)) as (s3 & cs3 & w3 & -> & Ec3 & Hb3 & H3).
  bind_simpl. destruct (ok s3) eqn:Es3; [|rewrite ?Es3; eexists _, _, _; split; [reflexivity|congruence]].
  destruct (ok input_status) eqn:Ei; [|eexists _, _, _; split; [reflexivity|congruence]].
  rewrite ?Es3, ?Ei. unfold InstallCompactionResults. pose proof (wl_LogAndApply (install_edit (compaction cs3) (outputs cs3)) w3) as Hk.
  destruct (LogAndApply _ w3) as [[s4 edit] w4] eqn:El. cbn [snd] in Hk.
  eexists _, _, _. split; [reflexivity|]. intros _. destruct (H3 eq_refl) as (gs' & Hout & Hnum & Egs).
  exists gs'. cbn [outputs with_compaction]. split_and!.
  - eapply Forall2_out_ok_keeps; [exact Hk|done|done].
  - by destruct Hnum.
  - rewrite Egs, Econc. done.
  - exists w3. cbn [compaction with_compaction edit_ with_inputs]. rewrite <- El. f_equal. rewrite Ec3.
    unfold install_edit, AddInputDeletions. destruct Hp as (_ & E2 & E3 & E4 & _ & _ & E5).
    cbn [cs0 compaction] in *. by rewrite E2, E3, E4, E5.
Qed.

(** A compaction of level 0 of a version with files on levels 0 and 2. *)
Definition work_compaction : Compaction :=
  Compaction_new 0 (MkVersion ([sample_level; []; sample_level] ++ replicate 4 []) None (-1) (double_of_int (-1)) (-1))
    sample_level.

Lemma DoCompactionWork_correct_witness :
  exists s cs w' tables,
    DoCompactionWork BytewiseComparator (str "db") 0 (SnapshotList.new 0) 8 Status_OK (map raw sample_inputs)
      (CompactionState_new work_compaction) (MkMemWorld [] [] ∅ 10 []) = Some (s, cs, w') /\
    Forall2 (out_ok (str "db") w') (outputs cs) tables /\
    concat tables = map raw [put_at "a" 7; del_at "c" 6].
Proof.
  destruct (DoCompactionWork_correct (WorldLaws0 := MemWorld_laws) BytewiseComparator (str "db") 0 (SnapshotList.new 0) 8 8
    Status_OK sample_inputs work_compaction (MkMemWorld [] [] ∅ 10 [])) as (s & cs & w' & E & H).
  - discriminate.
  - reflexivity.
  - intros e _ g Hg. discriminate Hg.
  - cbn. lia.
  - destruct H as (tables & Hout & _ & Econc & _).
    + apply (f_equal (fmap (fun r => ok r.1.1))) in E. vm_compute in E. injection E as ->. reflexivity.
    + exists s, cs, w', tables. split; [exact E|]. split; [exact Hout|]. rewrite Econc. reflexivity.
Defined.
