(* ===== verification/Iterators.v ===== *)
(** leveldb/iterator.h, table/iterator.cpp and table/iterator_wrapper.h: the
    iterator interface.

    [Iterator.Ops] is the virtual interface.  What its comments promise is
    [Iterator.Laws]: an iterator walks a sorted list of entries, and each operation
    moves it to the position they describe.  Clients are proved against the class;
    the empty iterator, the caching wrapper, and (in other files) the memtable,
    level, merging and two-level iterators are instances.  [None] is undefined
    behaviour or a failed assertion.  [status()] has a class of its own, because
    one implementation does not return from it. *)

From Stdlib Require Import ZArith Lia List Bool Sorting.Sorted.
From stdpp Require Import sorting.
From S2P Require Import Prelude Lists Slice Comparator.

(** * Positions in a sorted list of entries *)

Abbreviation entry := (bytes * bytes)%type.

(** The entries whose key satisfies [P]; in a sorted list they come first when
    [P] holds of every key below one it holds of. *)
Definition cnt (P : bytes -> bool) (es : list entry) : nat := length (base.filter (fun e => P e.1 = true) es).

Definition at_index (es : list entry) (i : nat) : option nat := if (i <? length es)%nat then Some i else None.

Definition before (i : nat) : option nat := match i with O => None | S j => Some j end.

Definition is_valid (p : option nat) : bool := match p with Some _ => true | None => false end.

Section Cuts.
Context (cmp : bytes -> bytes -> Z) (valid : bytes -> Prop) `{!TotalPreorder cmp valid}.
Implicit Types es : list entry.
Implicit Types P Q : bytes -> bool.

Definition sorted_entries es : Prop :=
  Forall (fun e => valid e.1) es /\ StronglySorted (fun a b => cmp a.1 b.1 < 0) es.

Definition down_closed P : Prop :=
  forall a b, valid a -> valid b -> cmp a b <= 0 -> P b = true -> P a = true.

Definition below (t : bytes) : bytes -> bool := fun k => cmp k t <? 0.
Definition upto (t : bytes) : bytes -> bool := fun k => cmp k t <=? 0.

Lemma sorted_valid es e : sorted_entries es -> e ∈ es -> valid e.1.
Proof. intros [Hv _] He. rewrite Forall_forall in Hv. auto. Qed.

Lemma sorted_valid_at es i e : sorted_entries es -> es !! i = Some e -> valid e.1.
Proof. intros Hs He. eapply sorted_valid; [done|]. by eapply list_elem_of_lookup_2. Qed.

Lemma sorted_at es i j a b : sorted_entries es -> (i < j)%nat -> es !! i = Some a -> es !! j = Some b -> cmp a.1 b.1 < 0.
Proof. intros [_ Hs]. by apply (sorted_lookup (fun a b => cmp a.1 b.1 < 0)). Qed.

Lemma below_down t : valid t -> down_closed (below t).
Proof.
  intros Ht a b Ha Hb Hab Hbt%Z.ltb_lt. apply Z.ltb_lt. by apply (to_le_lt_trans cmp valid a b t).
Qed.

Lemma upto_down t : valid t -> down_closed (upto t).
Proof. intros Ht a b Ha Hb Hab Hbt%Z.leb_le. apply Z.leb_le. by apply (to_trans a b t). Qed.

Lemma cnt_le P es : (cnt P es <= length es)%nat.
Proof. apply length_filter. Qed.

Lemma cnt_ext P Q es : (forall e, e ∈ es -> P e.1 = Q e.1) -> cnt P es = cnt Q es.
Proof.
  intros HPQ. unfold cnt. f_equal. induction es as [|e es IH]; [done|].
  rewrite !filter_cons, (HPQ e ltac:(left)), IH; [done|]. intros. apply HPQ. by right.
Qed.

Lemma cnt_cons P e es : cnt P (e :: es) = if P e.1 then S (cnt P es) else cnt P es.
Proof. unfold cnt. rewrite filter_cons. case_decide as E; [by rewrite E|]. by destruct (P e.1). Qed.

Lemma cnt_app P a b : cnt P (a ++ b) = (cnt P a + cnt P b)%nat.
Proof. unfold cnt. by rewrite filter_app, length_app. Qed.

Lemma cnt_none P es : (forall e, e ∈ es -> P e.1 = false) -> cnt P es = 0%nat.
Proof.
  intros HP. rewrite (cnt_ext P (fun _ => false)) by done. clear HP.
  induction es as [|e es IH]; [done|]. by rewrite cnt_cons, IH.
Qed.

Lemma cnt_all P es : (forall e, e ∈ es -> P e.1 = true) -> cnt P es = length es.
Proof.
  intros HP. rewrite (cnt_ext P (fun _ => true)) by done. clear HP.
  induction es as [|e es IH]; [done|]. by rewrite cnt_cons, IH.
Qed.

(** The entries that satisfy [P] are the first ones. *)
Lemma cnt_lookup P es i e : sorted_entries es -> down_closed P -> es !! i = Some e ->
  (i < cnt P es)%nat <-> P e.1 = true.
Proof.
  intros Hs Hd. revert i. induction es as [|a es IH]; intros i Hi; [done|].
  assert (sorted_entries es) as Hs' by (destruct Hs as [Hv Hs]; inversion Hv; inversion Hs; by split).
  rewrite cnt_cons. destruct i as [|i].
  - injection Hi as ->. destruct (P e.1) eqn:E; [split; [done|lia]|].
    rewrite cnt_none; [split; [lia|done]|]. intros b [j Hb]%list_elem_of_lookup_1.
    destruct (P b.1) eqn:Eb; [|done]. exfalso.
    assert (cmp e.1 b.1 < 0) by (by apply (sorted_at (e :: es) 0 (S j) e b Hs ltac:(lia))).
    rewrite (Hd e.1 b.1) in E; [done|..|lia|done];
      [by apply (sorted_valid_at _ 0 e Hs)|by apply (sorted_valid_at _ (S j) b Hs)].
  - specialize (IH Hs' i Hi). destruct (P a.1) eqn:Ea; [rewrite <- IH; lia|].
    rewrite <- IH. rewrite cnt_none; [lia|]. intros b [j Hb]%list_elem_of_lookup_1.
    destruct (P b.1) eqn:Eb; [|done]. exfalso.
    assert (cmp a.1 b.1 < 0) by (by apply (sorted_at (a :: es) 0 (S j) a b Hs ltac:(lia))).
    rewrite (Hd a.1 b.1) in Ea; [done|..|lia|done];
      [by apply (sorted_valid_at _ 0 a Hs)|by apply (sorted_valid_at _ (S j) b Hs)].
Qed.

(** The position of an entry, from its key. *)
Lemma cnt_below es i e : sorted_entries es -> es !! i = Some e -> cnt (below e.1) es = i.
Proof.
  intros Hs Hi. assert (valid e.1) as He by (by eapply sorted_valid_at).
  assert (~ (i < cnt (below e.1) es)%nat) as H1.
  { rewrite (cnt_lookup (below e.1) es i e) by (done || by apply below_down). unfold below.
    rewrite to_refl with (valid := valid) by done. done. }
  destruct (decide (cnt (below e.1) es < i)%nat) as [Hlt|]; [|lia]. exfalso.
  destruct (lookup_lt_is_Some_2 es (cnt (below e.1) es)) as [b Hb]; [apply lookup_lt_Some in Hi; lia|].
  assert (~ (below e.1 b.1 = true)) as Hn.
  { rewrite <- (cnt_lookup (below e.1) es _ b) by (done || by apply below_down). lia. }
  apply Hn, Z.ltb_lt. by apply (sorted_at es (cnt (below e.1) es) i).
Qed.

Lemma cnt_upto es i e : sorted_entries es -> es !! i = Some e -> cnt (upto e.1) es = S i.
Proof.
  intros Hs Hi. assert (valid e.1) as He by (by eapply sorted_valid_at).
  assert (i < cnt (upto e.1) es)%nat as H1.
  { apply (cnt_lookup (upto e.1) es i e); [done|by apply upto_down|done|]. unfold upto.
    by rewrite to_refl with (valid := valid). }
  destruct (decide (S i < cnt (upto e.1) es)%nat) as [Hlt|]; [|lia]. exfalso.
  destruct (lookup_lt_is_Some_2 es (S i)) as [b Hb]; [pose proof (cnt_le (upto e.1) es); lia|].
  apply (cnt_lookup (upto e.1) es (S i) b) in Hlt as Hle%Z.leb_le; [|done|by apply upto_down|done].
  pose proof (sorted_at es i (S i) e b Hs ltac:(lia) Hi Hb) as Hab.
  apply (to_flip_lt cmp valid) in Hab; [lia|done|by eapply sorted_valid_at].
Qed.

(** Keys that are not in the list are not counted differently. *)
Lemma cnt_upto_below es t : sorted_entries es -> valid t -> (forall e, e ∈ es -> cmp e.1 t <> 0) ->
  cnt (upto t) es = cnt (below t) es.
Proof.
  intros Hs Ht Hn. apply cnt_ext. intros e He. unfold upto, below. specialize (Hn e He).
  apply eq_true_iff_eq. rewrite Z.leb_le, Z.ltb_lt. lia.
Qed.

(** A sorted list is determined by its elements. *)
Lemma sorted_entries_unique es es' : sorted_entries es -> sorted_entries es' -> es ≡ₚ es' -> es = es'.
Proof.
  intros [Hv Hs] [Hv' Hs']. apply StronglySorted_unique_strong with (R := fun a b => cmp a.1 b.1 < 0); [|done..].
  intros a b Ha Hb Hab Hba. rewrite Forall_forall in Hv. rewrite Forall_forall in Hv'.
  apply (to_flip_lt cmp valid) in Hab; [lia|auto..].
Qed.

Lemma at_index_lt es i : (i < length es)%nat -> at_index es i = Some i.
Proof. intros. unfold at_index. by rewrite (proj2 (Nat.ltb_lt _ _)). Qed.

Lemma at_index_ge es i : (length es <= i)%nat -> at_index es i = None.
Proof. intros. unfold at_index. by rewrite (proj2 (Nat.ltb_ge _ _)). Qed.

Lemma at_index_Some es i j : at_index es i = Some j <-> j = i /\ (i < length es)%nat.
Proof. unfold at_index. destruct (Nat.ltb_spec i (length es)); split; [naive_solver..|naive_solver|]. intros [-> ?]. lia. Qed.

Lemma before_Some i j : before i = Some j <-> i = S j.
Proof. destruct i; cbn; naive_solver. Qed.
End Cuts.

(** * The interface *)

Module Iterator.

Class Ops (I : Type) := {
  Valid : I -> bool;
  SeekToFirst : I -> option I;
  SeekToLast : I -> option I;
  Seek : bytes -> I -> option I;
  Next : I -> option I;
  Prev : I -> option I;
  key : I -> option bytes;
  value : I -> option bytes;
  status : I -> option Status
}.

(** The iterator is over the entries and at the index given, or not valid. *)
Class Model (I : Type) := rep : I -> list entry -> option nat -> Prop.

Class Laws (cmp : bytes -> bytes -> Z) (valid : bytes -> Prop) (I : Type) `{!Ops I} `{!Model I} : Prop := {
  l_sorted it es p : rep it es p -> sorted_entries cmp valid es;
  l_bound it es i : rep it es (Some i) -> (i < length es)%nat;
  l_Valid it es p : rep it es p -> Valid it = is_valid p;
  l_key it es i e : rep it es (Some i) -> es !! i = Some e -> key it = Some e.1 /\ value it = Some e.2;
  l_SeekToFirst it es p : rep it es p -> exists it', SeekToFirst it = Some it' /\ rep it' es (at_index es 0);
  l_SeekToLast it es p : rep it es p -> exists it', SeekToLast it = Some it' /\ rep it' es (before (length es));
  l_Seek t it es p : valid t -> rep it es p ->
    exists it', Seek t it = Some it' /\ rep it' es (at_index es (cnt (below cmp t) es));
  l_Next it es i : rep it es (Some i) -> exists it', Next it = Some it' /\ rep it' es (at_index es (S i));
  l_Prev it es i : rep it es (Some i) -> exists it', Prev it = Some it' /\ rep it' es (before i)
}.

(** [status()] returns. *)
Class StatusLaws (I : Type) `{!Ops I} `{!Model I} : Prop :=
  l_status it es p : rep it es p -> exists s, status it = Some s.

#[global] Hint Mode Ops ! : typeclass_instances.
#[global] Hint Mode Model ! : typeclass_instances.

End Iterator.

(** ** Cleanup functions: [RegisterCleanup] and the destructor *)

Module Cleanup.
Section Cleanup.
Context {F : Type}.

(** [cleanup_]: the function of the first node, and the nodes it links to. *)
Record t := Mk { function : option F; next : list F }.

Definition new : t := Mk None [].

Definition RegisterCleanup (c : t) (f : F) : t :=
  match function c with
  | None => Mk (Some f) (next c)
  | Some g => Mk (Some g) (f :: next c)
  end.

(** The functions in the order the destructor calls them. *)
Definition destroy (c : t) : list F :=
  match function c with
  | None => []
  | Some g => g :: next c
  end.
End Cleanup.
End Cleanup.

(** ** EmptyIterator *)

Record EmptyIterator := MkEmptyIterator { status_ : Status }.

#[global] Instance EmptyIterator_ops : Iterator.Ops EmptyIterator := {
  Iterator.Valid := fun _ => false;
  Iterator.SeekToFirst := fun it => Some it;
  Iterator.SeekToLast := fun it => Some it;
  Iterator.Seek := fun _ it => Some it;
  Iterator.Next := fun _ => None;
  Iterator.Prev := fun _ => None;
  Iterator.key := fun _ => None;
  Iterator.value := fun _ => None;
  Iterator.status := fun it => Some (status_ it)
}.

Definition NewEmptyIterator : EmptyIterator := MkEmptyIterator Status_OK.
Definition NewErrorIterator (s : Status) : EmptyIterator := MkEmptyIterator s.

#[global] Instance EmptyIterator_model : Iterator.Model EmptyIterator := fun _ es p => es = [] /\ p = None.

#[global] Instance EmptyIterator_laws cmp valid : Iterator.Laws cmp valid EmptyIterator.
Proof.
  split; try (intros; match goal with H : Iterator.rep _ _ _ |- _ => destruct H as [-> E]; try discriminate E end; cbn).
  - split; constructor.
  - by subst.
  - eexists. by split.
  - eexists. by split.
  - eexists. by split.
Qed.

#[global] Instance EmptyIterator_status : Iterator.StatusLaws EmptyIterator.
Proof. intros it es p _. by eexists. Qed.

(** ** IteratorWrapper *)

Record IteratorWrapper (I : Type) := MkWrapper { iter_ : option I; valid_ : bool; key_ : bytes }.
Arguments MkWrapper {I}.
Arguments iter_ {I}.
Arguments valid_ {I}.
Arguments key_ {I}.

Section Wrapper.
Context {I : Type} `{!Iterator.Ops I}.
Abbreviation W := (IteratorWrapper I).

Definition Wrapper_null : W := MkWrapper None false [].

(** [Update], after [iter_] became [it]. *)
Definition Wrapper_Update (w : W) (it : I) : option W :=
  if Iterator.Valid it then k ← Iterator.key it; Some (MkWrapper (Some it) true k)
  else Some (MkWrapper (Some it) false (key_ w)).

Definition Wrapper_Set (w : W) (iter : option I) : option W :=
  match iter with
  | None => Some (MkWrapper None false (key_ w))
  | Some it => Wrapper_Update w it
  end.

Definition Wrapper_move (op : I -> option I) (w : W) : option W :=
  it ← iter_ w; it ← op it; Wrapper_Update w it.

#[global] Instance Wrapper_ops : Iterator.Ops W := {
  Iterator.Valid := valid_;
  Iterator.SeekToFirst := Wrapper_move Iterator.SeekToFirst;
  Iterator.SeekToLast := Wrapper_move Iterator.SeekToLast;
  Iterator.Seek := fun k => Wrapper_move (Iterator.Seek k);
  Iterator.Next := Wrapper_move Iterator.Next;
  Iterator.Prev := Wrapper_move Iterator.Prev;
  Iterator.key := fun w => if valid_ w then Some (key_ w) else None;
  Iterator.value := fun w => if valid_ w then it ← iter_ w; Iterator.value it else None;
  Iterator.status := fun w => it ← iter_ w; Iterator.status it
}.

Context `{!Iterator.Model I}.

(** The cached fields are those of the iterator. *)
#[global] Instance Wrapper_model : Iterator.Model W := fun w es p =>
  exists it, iter_ w = Some it /\ Iterator.rep it es p /\ valid_ w = is_valid p /\
    (forall i e, p = Some i -> es !! i = Some e -> key_ w = e.1).

Context (cmp : bytes -> bytes -> Z) (valid : bytes -> Prop) `{!Iterator.Laws cmp valid I}.

Lemma Wrapper_Update_ok w it es p : Iterator.rep it es p ->
  exists w', Wrapper_Update w it = Some w' /\ Iterator.rep w' es p.
Proof.
  intros Hr. unfold Wrapper_Update. rewrite (Iterator.l_Valid _ _ _ Hr). destruct p as [i|]; cbn [is_valid].
  - destruct (lookup_lt_is_Some_2 es i (Iterator.l_bound _ _ _ Hr)) as [e He].
    destruct (Iterator.l_key _ _ _ _ Hr He) as [-> _]. bind_simpl. eexists. split; [done|].
    exists it. split_and!; [done..|]. cbn. naive_solver.
  - eexists. split; [done|]. exists it. by split_and!.
Qed.

Lemma Wrapper_Set_ok w it es p : Iterator.rep it es p ->
  exists w', Wrapper_Set w (Some it) = Some w' /\ Iterator.rep w' es p.
Proof. apply Wrapper_Update_ok. Qed.

Lemma Wrapper_move_ok op w it es q : iter_ w = Some it ->
  (exists it', op it = Some it' /\ Iterator.rep it' es q) ->
  exists w', Wrapper_move op w = Some w' /\ Iterator.rep w' es q.
Proof.
  intros Ew (it' & Eo & Hr). unfold Wrapper_move. rewrite Ew. bind_simpl. rewrite Eo. bind_simpl.
  by apply Wrapper_Update_ok.
Qed.

#[global] Instance Wrapper_laws : Iterator.Laws cmp valid W.
Proof.
  split; [intros w es p (it & Ew & Hr & Ev & Ek)|intros w es i (it & Ew & Hr & Ev & Ek)
         |intros w es p (it & Ew & Hr & Ev & Ek)|intros w es i e (it & Ew & Hr & Ev & Ek) He
         |intros w es p (it & Ew & Hr & Ev & Ek)|intros w es p (it & Ew & Hr & Ev & Ek)
         |intros t w es p Ht (it & Ew & Hr & Ev & Ek)|intros w es i (it & Ew & Hr & Ev & Ek)
         |intros w es i (it & Ew & Hr & Ev & Ek)].
  - by eapply Iterator.l_sorted.
  - by eapply Iterator.l_bound.
  - done.
  - cbn. rewrite Ev. cbn. split; [f_equal; by eapply Ek|]. rewrite Ew. bind_simpl. by eapply Iterator.l_key.
  - eapply Wrapper_move_ok; [done|]. by eapply Iterator.l_SeekToFirst.
  - eapply Wrapper_move_ok; [done|]. by eapply Iterator.l_SeekToLast.
  - eapply Wrapper_move_ok; [done|]. by eapply Iterator.l_Seek.
  - eapply Wrapper_move_ok; [done|]. by eapply Iterator.l_Next.
  - eapply Wrapper_move_ok; [done|]. by eapply Iterator.l_Prev.
Qed.

#[global] Instance Wrapper_status `{!Iterator.StatusLaws I} : Iterator.StatusLaws W.
Proof.
  intros w es p (it & Ew & Hr & _). cbn. rewrite Ew. bind_simpl. by eapply Iterator.l_status.
Qed.
End Wrapper.

(** ** One of two kinds of iterator: what [Iterator*] points to *)

Section Sum.
Context {A B : Type} `{!Iterator.Ops A} `{!Iterator.Ops B}.

Definition sum_move (f : A -> option A) (g : B -> option B) (it : A + B) : option (A + B) :=
  match it with inl a => a ← f a; Some (inl a) | inr b => b ← g b; Some (inr b) end.

Definition sum_read {R} (f : A -> R) (g : B -> R) (it : A + B) : R := match it with inl a => f a | inr b => g b end.

#[global] Instance sum_ops : Iterator.Ops (A + B) := {
  Iterator.Valid := sum_read Iterator.Valid Iterator.Valid;
  Iterator.SeekToFirst := sum_move Iterator.SeekToFirst Iterator.SeekToFirst;
  Iterator.SeekToLast := sum_move Iterator.SeekToLast Iterator.SeekToLast;
  Iterator.Seek := fun t => sum_move (Iterator.Seek t) (Iterator.Seek t);
  Iterator.Next := sum_move Iterator.Next Iterator.Next;
  Iterator.Prev := sum_move Iterator.Prev Iterator.Prev;
  Iterator.key := sum_read Iterator.key Iterator.key;
  Iterator.value := sum_read Iterator.value Iterator.value;
  Iterator.status := sum_read Iterator.status Iterator.status
}.

Context `{!Iterator.Model A} `{!Iterator.Model B}.

#[global] Instance sum_model : Iterator.Model (A + B) := fun it es p =>
  match it with inl a => Iterator.rep a es p | inr b => Iterator.rep b es p end.

Context (cmp : bytes -> bytes -> Z) (valid : bytes -> Prop) `{!Iterator.Laws cmp valid A} `{!Iterator.Laws cmp valid B}.

Lemma sum_move_ok f g (it : A + B) es q :
  (forall a, it = inl a -> exists a', f a = Some a' /\ Iterator.rep a' es q) ->
  (forall b, it = inr b -> exists b', g b = Some b' /\ Iterator.rep b' es q) ->
  exists it', sum_move f g it = Some it' /\ Iterator.rep it' es q.
Proof.
  intros Hf Hg. destruct it as [a|b]; cbn [sum_move].
  - destruct (Hf a eq_refl) as (a' & -> & Ha). by exists (inl a').
  - destruct (Hg b eq_refl) as (b' & -> & Hb). by exists (inr b').
Qed.

#[global] Instance sum_laws : Iterator.Laws cmp valid (A + B).
Proof.
  split.
  - intros [a|b] es p Hr; [exact (Iterator.l_sorted (I := A) _ _ _ Hr)|exact (Iterator.l_sorted (I := B) _ _ _ Hr)].
  - intros [a|b] es i Hr; [exact (Iterator.l_bound (I := A) _ _ _ Hr)|exact (Iterator.l_bound (I := B) _ _ _ Hr)].
  - intros [a|b] es p Hr; [exact (Iterator.l_Valid (I := A) _ _ _ Hr)|exact (Iterator.l_Valid (I := B) _ _ _ Hr)].
  - intros [a|b] es i e Hr He; [exact (Iterator.l_key (I := A) _ _ _ _ Hr He)|exact (Iterator.l_key (I := B) _ _ _ _ Hr He)].
  - intros it es p Hr. apply sum_move_ok; intros x ->;
      [exact (Iterator.l_SeekToFirst (I := A) x es p Hr)|exact (Iterator.l_SeekToFirst (I := B) x es p Hr)].
  - intros it es p Hr. apply sum_move_ok; intros x ->;
      [exact (Iterator.l_SeekToLast (I := A) x es p Hr)|exact (Iterator.l_SeekToLast (I := B) x es p Hr)].
  - intros t it es p Ht Hr. apply sum_move_ok; intros x ->;
      [exact (Iterator.l_Seek (I := A) t x es p Ht Hr)|exact (Iterator.l_Seek (I := B) t x es p Ht Hr)].
  - intros it es i Hr. apply sum_move_ok; intros x ->;
      [exact (Iterator.l_Next (I := A) x es i Hr)|exact (Iterator.l_Next (I := B) x es i Hr)].
  - intros it es i Hr. apply sum_move_ok; intros x ->;
      [exact (Iterator.l_Prev (I := A) x es i Hr)|exact (Iterator.l_Prev (I := B) x es i Hr)].
Qed.

#[global] Instance sum_status `{!Iterator.StatusLaws A} `{!Iterator.StatusLaws B} : Iterator.StatusLaws (A + B).
Proof.
  intros [a|b] es p Hr; [exact (Iterator.l_status (I := A) a es p Hr)|exact (Iterator.l_status (I := B) b es p Hr)].
Qed.
End Sum.

(** * Sequences of moves *)

Inductive move := MSeekToFirst | MSeekToLast | MSeek (target : bytes) | MNext | MPrev.

(** A client's calls, in order. *)
Definition do_move {I} `{!Iterator.Ops I} (mv : move) (it : I) : option I :=
  match mv with
  | MSeekToFirst => Iterator.SeekToFirst it
  | MSeekToLast => Iterator.SeekToLast it
  | MSeek t => Iterator.Seek t it
  | MNext => Iterator.Next it
  | MPrev => Iterator.Prev it
  end.

Fixpoint do_moves {I} `{!Iterator.Ops I} (mvs : list move) (it : I) : option I :=
  match mvs with
  | [] => Some it
  | mv :: mvs => it ← do_move mv it; do_moves mvs it
  end.

(** What a client sees: nothing, or the key and the value. *)
Definition observe {I} `{!Iterator.Ops I} (it : I) : option (option entry) :=
  if Iterator.Valid it then k ← Iterator.key it; v ← Iterator.value it; Some (Some (k, v)) else Some None.

(** The same calls on a position in the list of entries; [None]: [Next] or
    [Prev] at no entry, which the interface forbids. *)
Definition spec_move (cmp : bytes -> bytes -> Z) (es : list entry) (mv : move) (p : option nat) : option (option nat) :=
  match mv with
  | MSeekToFirst => Some (at_index es 0)
  | MSeekToLast => Some (before (length es))
  | MSeek t => Some (at_index es (cnt (below cmp t) es))
  | MNext => i ← p; Some (at_index es (S i))
  | MPrev => i ← p; Some (before i)
  end.

Fixpoint spec_moves (cmp : bytes -> bytes -> Z) (es : list entry) (mvs : list move) (p : option nat) : option (option nat) :=
  match mvs with
  | [] => Some p
  | mv :: mvs => p ← spec_move cmp es mv p; spec_moves cmp es mvs p
  end.

Definition move_ok (valid : bytes -> Prop) (mv : move) : Prop := match mv with MSeek t => valid t | _ => True end.

Section Moves.
Context (cmp : bytes -> bytes -> Z) (valid : bytes -> Prop).
Context {I : Type} `{!Iterator.Ops I} `{!Iterator.Model I} `{!Iterator.Laws cmp valid I}.

Lemma observe_ok (it : I) es p : Iterator.rep it es p -> observe it = Some (i ← p; es !! i).
Proof.
  intros Hr. unfold observe. rewrite (Iterator.l_Valid _ _ _ Hr). destruct p as [i|]; [|done]. cbn [is_valid]. bind_simpl.
  destruct (lookup_lt_is_Some_2 es i (Iterator.l_bound _ _ _ Hr)) as [[k v] He].
  destruct (Iterator.l_key _ _ _ _ Hr He) as [-> ->]. by rewrite He.
Qed.

Lemma do_moves_ok mvs (it : I) es p q : Forall (move_ok valid) mvs -> Iterator.rep it es p ->
  spec_moves cmp es mvs p = Some q -> exists it', do_moves mvs it = Some it' /\ Iterator.rep it' es q.
Proof.
  revert it p. induction mvs as [|mv mvs IH]; intros it p Hok Hr Hs; cbn in *; [by simplify_eq; eauto|].
  inversion_clear Hok as [|? ? Hmv Hok']. destruct (spec_move cmp es mv p) as [p'|] eqn:Ep; [|done]. cbn in Hs.
  assert (exists it', do_move mv it = Some it' /\ Iterator.rep it' es p') as (it' & -> & Hr'); [|by eapply IH].
  destruct mv; cbn in *; simplify_eq.
  - by eapply Iterator.l_SeekToFirst.
  - by eapply Iterator.l_SeekToLast.
  - by eapply Iterator.l_Seek.
  - destruct p as [i|]; [|done]. injection Ep as <-. by eapply Iterator.l_Next.
  - destruct p as [i|]; [|done]. injection Ep as <-. by eapply Iterator.l_Prev.
Qed.

(** Any sequence of calls shows what it shows on the list of entries. *)
Lemma moves_observe mvs (it : I) es p q : Forall (move_ok valid) mvs -> Iterator.rep it es p ->
  spec_moves cmp es mvs p = Some q ->
  exists it', do_moves mvs it = Some it' /\ observe it' = Some (i ← q; es !! i).
Proof.
  intros Hok Hr Hs. destruct (do_moves_ok mvs it es p q Hok Hr Hs) as (it' & E & Hr'). exists it'. split; [done|].
  by apply observe_ok.
Qed.
End Moves.

(** * Reading everything: [SeekToFirst], then [Next] while [Valid] *)

Fixpoint scan_loop {I} `{!Iterator.Ops I} (n : nat) (it : I) : option (list entry) :=
  match n with
  | O => None
  | S n =>
      if Iterator.Valid it then
        k ← Iterator.key it;
        v ← Iterator.value it;
        it ← Iterator.Next it;
        rest ← scan_loop n it;
        Some ((k, v) :: rest)
      else Some []
  end.

Definition scan {I} `{!Iterator.Ops I} (n : nat) (it : I) : option (list entry) :=
  it ← Iterator.SeekToFirst it; scan_loop n it.

Section Scan.
Context (cmp : bytes -> bytes -> Z) (valid : bytes -> Prop).
Context {I : Type} `{!Iterator.Ops I} `{!Iterator.Model I} `{!Iterator.Laws cmp valid I}.

Lemma scan_loop_ok n (it : I) es i : Iterator.rep it es (at_index es i) -> (length es - i < n)%nat ->
  scan_loop n it = Some (drop i es).
Proof.
  revert it i. induction n as [|n IH]; intros it i Hr Hn; [lia|]. cbn [scan_loop]. rewrite (Iterator.l_Valid _ _ _ Hr).
  unfold at_index in Hr |- *. destruct (Nat.ltb_spec i (length es)) as [Hi|Hi]; cbn [is_valid]; [|by rewrite drop_ge].
  destruct (lookup_lt_is_Some_2 es i Hi) as [[k v] He]. destruct (Iterator.l_key _ _ _ _ Hr He) as [-> ->]. bind_simpl.
  destruct (Iterator.l_Next _ _ _ Hr) as (it' & -> & Hr'). bind_simpl. rewrite (IH it' (S i) Hr') by lia. bind_simpl.
  by rewrite (drop_S _ _ _ He).
Qed.

Lemma scan_ok n (it : I) es p : Iterator.rep it es p -> (length es < n)%nat -> scan n it = Some es.
Proof.
  intros Hr Hn. unfold scan. destruct (Iterator.l_SeekToFirst _ _ _ Hr) as (it' & -> & Hr'). bind_simpl.
  rewrite (scan_loop_ok n it' es 0 Hr') by lia. done.
Qed.
End Scan.
