(* ===== verification/InternalIters.v ===== *)
(** The iterators over internal keys at the bottom of a read: MemTableIterator of
    db/memtable.cpp and Version::LevelFileNumIterator of db/version_set.cpp, as
    implementations of the iterator interface, with the laws it promises. *)

From Stdlib Require Import ZArith Lia List Bool String Sorting.Sorted.
From S2P Require Import Prelude Lists Coding Slice Comparator DbFormat Arena SkipList MemTable VersionEdit Version.
From S2P Require Import Iterators.

(** Internal keys that fit a memtable entry: what iterators are asked to seek. *)
Definition internal_ok (k : bytes) : Prop :=
  exists p, seq_ok (sequence p) /\ Zlength (user_key p) + 8 < 2 ^ 32 /\ k = AppendInternalKey [] p.

#[global] Instance internal_order (ucmp : Comparator) `{!ComparatorLaws ucmp any_key} :
  TotalPreorder (InternalKeyCompare ucmp) internal_ok.
Proof.
  split.
  - intros a b _ _. by apply (to_sgn (valid := any_key)).
  - intros x y z _ _ _. by apply (to_trans (valid := any_key)).
Qed.

(** ** MemTableIterator *)

(** The table, whose comparator is part of its type, and the node of its iterator. *)
Record MemTableIterator (ucmp : Comparator) := MkMemTableIterator { mi_table : MemTable; mi_node : option nat }.
Arguments MkMemTableIterator {ucmp}.
Arguments mi_table {ucmp}.
Arguments mi_node {ucmp}.

Definition MemTable_NewIterator (ucmp : Comparator) (m : MemTable) : MemTableIterator ucmp :=
  MkMemTableIterator m SkipList.Iterator_new.

Definition mi_move {ucmp} (it : MemTableIterator ucmp) (node : option (option nat)) : option (MemTableIterator ucmp) :=
  n ← node; Some (MkMemTableIterator (mi_table it) n).

#[global] Instance MemTableIterator_ops (ucmp : Comparator) : Iterator.Ops (MemTableIterator ucmp) := {
  Iterator.Valid := fun it => SkipList.Iterator_Valid (mi_node it);
  Iterator.SeekToFirst := fun it => mi_move it (MemIter_SeekToFirst (mi_table it));
  Iterator.SeekToLast := fun it => mi_move it (MemIter_SeekToLast (mi_table it));
  Iterator.Seek := fun k it => mi_move it (MemIter_Seek ucmp (mi_table it) k);
  Iterator.Next := fun it => mi_move it (MemIter_Next (mi_table it) (mi_node it));
  Iterator.Prev := fun it => mi_move it (MemIter_Prev ucmp (mi_table it) (mi_node it));
  Iterator.key := fun it => MemIter_key (mi_table it) (mi_node it);
  Iterator.value := fun it => MemIter_value (mi_table it) (mi_node it);
  Iterator.status := fun _ => Some Status_OK
}.

(** ** LevelFileNumIterator *)

Record LevelFileNumIterator (ucmp : Comparator) := MkLevelFileNumIterator { flist_ : list FileMetaData; index_ : Z }.
Arguments MkLevelFileNumIterator {ucmp}.
Arguments flist_ {ucmp}.
Arguments index_ {ucmp}.

Definition NewLevelFileNumIterator (ucmp : Comparator) (flist : list FileMetaData) : LevelFileNumIterator ucmp :=
  MkLevelFileNumIterator flist (LevelIter_new flist).

Definition li_move {ucmp} (it : LevelFileNumIterator ucmp) (index : Z) : LevelFileNumIterator ucmp := MkLevelFileNumIterator (flist_ it) index.

#[global] Instance LevelFileNumIterator_ops (ucmp : Comparator) : Iterator.Ops (LevelFileNumIterator ucmp) := {
  Iterator.Valid := fun it => LevelIter_Valid (flist_ it) (index_ it);
  Iterator.SeekToFirst := fun it => Some (li_move it LevelIter_SeekToFirst);
  Iterator.SeekToLast := fun it => Some (li_move it (LevelIter_SeekToLast (flist_ it)));
  Iterator.Seek := fun k it => i ← LevelIter_Seek ucmp (flist_ it) k; Some (li_move it i);
  Iterator.Next := fun it =>
    if LevelIter_Valid (flist_ it) (index_ it) then Some (li_move it (LevelIter_Next (index_ it))) else None;
  Iterator.Prev := fun it =>
    if LevelIter_Valid (flist_ it) (index_ it) then Some (li_move it (LevelIter_Prev (flist_ it) (index_ it))) else None;
  Iterator.key := fun it => LevelIter_key (flist_ it) (index_ it);
  Iterator.value := fun it => LevelIter_value (flist_ it) (index_ it);
  Iterator.status := fun _ => Some Status_OK
}.

(** ** Lemmas *)

Section Laws.
Context (ucmp : Comparator) `{!ComparatorLaws ucmp any_key}.
Abbreviation icmp := (InternalKeyCompare ucmp).

Lemma enc_icmp a b : entry_ok a -> entry_ok b -> KeyComparator ucmp (enc a) (enc b) = icmp (ik a) (ik b).
Proof. intros Ha Hb. rewrite !enc_mkey by done. destruct Ha as (_ & ? & _), Hb as (_ & ? & _). by apply KeyComparator_mkey. Qed.

Lemma ik_internal_ok e : entry_ok e -> internal_ok (ik e).
Proof. intros (Hs & Hk & _). by exists e.1. Qed.

Lemma EncodeKey_mkey p : Zlength (user_key p) + 8 < 2 ^ 32 -> EncodeKey (AppendInternalKey [] p) = mkey p [].
Proof.
  intros Hl. unfold EncodeKey, mkey. rewrite app_nil_r, ikey_Zlength, u32_small; [done|].
  pose proof (Zlength_nonneg (user_key p)). unfold is_u32. lia.
Qed.

(** The iterator is at the entry the node holds; the entries are those of the
    table, in the order of their internal keys. *)
#[global] Instance MemTableIterator_model : Iterator.Model (MemTableIterator ucmp) := fun it es p =>
  exists mes ids, Forall entry_ok mes /\ rep (KeyComparator ucmp) mkey_ok (table_ (mi_table it)) ids /\
    contents (table_ (mi_table it)) ids = map enc mes /\ es = map raw mes /\
    mi_node it = (i ← p; ids !! i) /\ (forall i, p = Some i -> (i < length mes)%nat).

(** A table that holds [es] gives an iterator over its sorted entries. *)
Lemma MemTable_NewIterator_ok m es : mem_rep ucmp m es ->
  exists mes, mes ≡ₚ es /\ Iterator.rep (MemTable_NewIterator ucmp m) (map raw mes) None.
Proof.
  intros (Hok & _ & ids & Hr & Hc). destruct (Permutation_map_inv _ _ Hc) as (mes & Em & Hp).
  exists mes. split; [done|]. exists mes, ids. split_and!; try done. by rewrite <- Hp.
Qed.

Section At.
Context (sl : SkipList.t (K := bytes)) (mes : list mem_entry) (ids : list nat).
Hypothesis Hok : Forall entry_ok mes.
Hypothesis Hr : rep (KeyComparator ucmp) mkey_ok sl ids.
Hypothesis Hc : contents sl ids = map enc mes.

Lemma mem_ids_length : length ids = length mes.
Proof. rewrite <- (length_map enc mes), <- Hc. symmetry. by apply (contents_length (KeyComparator ucmp) mkey_ok sl ids). Qed.

Lemma mem_sorted : sorted_entries icmp internal_ok (map raw mes).
Proof.
  pose proof (contents_sorted (KeyComparator ucmp) mkey_ok sl ids Hr) as Hs. rewrite Hc in Hs. clear Hc. split.
  - apply Forall_map. eapply Forall_impl; [done|]. intros e He. by apply ik_internal_ok.
  - induction Hok as [|e mes' He Hmes IH]; cbn; [constructor|]. cbn in Hs. inversion_clear Hs as [|? ? Hs' Hf].
    constructor; [by apply IH|]. rewrite Forall_map in Hf. rewrite Forall_map. rewrite Forall_forall in Hf, Hmes.
    apply Forall_forall. intros x Hx. change (icmp (ik e) (ik x) < 0). rewrite <- enc_icmp by auto. by apply Hf.
Qed.

Lemma mem_count p : seq_ok (sequence p) -> Zlength (user_key p) + 8 < 2 ^ 32 ->
  length (filter (fun a => KeyComparator ucmp a (mkey p []) < 0) (map enc mes)) =
  cnt (below icmp (AppendInternalKey [] p)) (map raw mes).
Proof.
  intros Hs Hl. clear Hc. induction Hok as [|e mes' He Hmes IH]; [done|]. cbn [map]. rewrite filter_cons, cnt_cons.
  cbn [raw fst]. unfold below at 1. rewrite <- IH by done.
  assert (KeyComparator ucmp (enc e) (mkey p []) = icmp (ik e) (AppendInternalKey [] p)) as ->.
  { rewrite enc_mkey by done. destruct He as (_ & ? & _). by apply KeyComparator_mkey. }
  destruct (Z.ltb_spec (icmp (ik e) (AppendInternalKey [] p)) 0); case_decide; cbn [length]; lia.
Qed.

Lemma mem_moves p : seq_ok (sequence p) -> Zlength (user_key p) + 8 < 2 ^ 32 ->
  let n := cnt (below icmp (AppendInternalKey [] p)) (map raw mes) in
  SkipList.Iterator_Seek (KeyComparator ucmp) sl (EncodeKey (AppendInternalKey [] p)) = Some (ids !! n) /\
  SkipList.Iterator_SeekToFirst sl = Some (ids !! 0%nat) /\
  SkipList.Iterator_SeekToLast sl = Some (ids !! (length ids - 1)%nat) /\
  (forall i, (i < length ids)%nat ->
    SkipList.Iterator_Next sl (ids !! i) = Some (ids !! S i) /\
    SkipList.Iterator_Prev (KeyComparator ucmp) sl (ids !! i) = Some (match i with O => None | S j => ids !! j end) /\
    SkipList.Iterator_key sl (ids !! i) = enc <$> mes !! i).
Proof.
  intros Hs Hl n. destruct (SkipList.Iterator_ok (KeyComparator ucmp) mkey_ok sl ids (mkey p []) Hr) as (_ & H1 & _ & H2 & H3 & H4).
  { by exists p, []. }
  rewrite EncodeKey_mkey by done. rewrite H1, H2, H3. split_and!; [|done..|].
  - do 2 f_equal. rewrite Hc. by apply mem_count.
  - intros i Hi. destruct (H4 i Hi) as (-> & -> & ->). rewrite Hc. by rewrite <- list_lookup_fmap.
Qed.
End At.

Lemma lookup_at_index {A} (ids : list A) (es : list entry) n : length ids = length es ->
  ids !! n = (i ← at_index es n; ids !! i).
Proof.
  intros Hl. unfold at_index. destruct (Nat.ltb_spec n (length es)); [done|]. cbn. apply lookup_ge_None. lia.
Qed.

Lemma lookup_before_last {A} (ids : list A) n : length ids = n -> ids !! (n - 1)%nat = (i ← before n; ids !! i).
Proof. intros <-. destruct ids as [|x ids]; [done|]. cbn [length before]. by rewrite Nat.sub_1_r. Qed.

(** A move to node [n], at position [q]. *)
Lemma mi_move_ok (it : MemTableIterator ucmp) es p q n : Iterator.rep it es p ->
  (forall mes ids, length ids = length mes -> es = map raw mes -> rep (KeyComparator ucmp) mkey_ok (table_ (mi_table it)) ids ->
    contents (table_ (mi_table it)) ids = map enc mes -> Forall entry_ok mes -> mi_node it = (i ← p; ids !! i) ->
    (forall i, p = Some i -> (i < length mes)%nat) -> n = Some (i ← q; ids !! i) /\ (forall i, q = Some i -> (i < length mes)%nat)) ->
  exists it', mi_move it n = Some it' /\ Iterator.rep it' es q.
Proof.
  intros (mes & ids & Hok & Hr & Hc & He & Hn & Hi) Hnew.
  destruct (Hnew mes ids) as [-> Hq]; try done; [by apply (mem_ids_length (table_ (mi_table it)))|].
  eexists. split; [done|]. exists mes, ids. by split_and!.
Qed.

Lemma seq_ok_0 : seq_ok (sequence (MkParsedInternalKey [] 0 kTypeValue)).
Proof. unfold seq_ok. rewrite kMaxSequenceNumber_val. cbn. lia. Qed.

Lemma mi_key_ok (it : MemTableIterator ucmp) es i e : Iterator.rep it es (Some i) -> es !! i = Some e ->
  Iterator.key it = Some e.1 /\ Iterator.value it = Some e.2.
Proof.
  intros (mes & ids & Hok & Hr & Hc & -> & Hn & Hi) He. rewrite list_lookup_fmap in He.
  destruct (mes !! i) as [m|] eqn:Em; [|done]. injection He as <-.
  destruct (mem_moves (table_ (mi_table it)) mes ids Hok Hr Hc _ seq_ok_0 ltac:(done)) as (_ & _ & _ & Hk).
  destruct (Hk i) as (_ & _ & Ek); [rewrite (mem_ids_length (table_ (mi_table it)) mes) by done; by eapply Hi|].
  rewrite Forall_lookup in Hok. specialize (Hok i m Em). cbn. unfold MemIter_key, MemIter_value. rewrite Hn. cbn [mbind option_bind].
  rewrite Ek, Em. cbn [fmap option_fmap option_map]. bind_simpl. rewrite enc_mkey by done.
  pose proof Hok as (_ & Hl & Hv). rewrite mkey_decode by done. bind_simpl. by rewrite value_decode.
Qed.

#[global] Instance MemTableIterator_laws : Iterator.Laws icmp internal_ok (MemTableIterator ucmp).
Proof.
  split.
  - intros it es p (mes & ids & Hok & Hr & Hc & -> & _). by apply (mem_sorted (table_ (mi_table it)) mes ids).
  - intros it es i (mes & ids & _ & _ & _ & -> & _ & Hi). rewrite length_map. by apply Hi.
  - intros it es p (mes & ids & Hok & Hr & Hc & -> & Hn & Hi). cbn. rewrite Hn. destruct p as [i|]; [|done]. cbn.
    destruct (lookup_lt_is_Some_2 ids i) as [x ->]; [|done]. rewrite (mem_ids_length (table_ (mi_table it)) mes) by done. by apply Hi.
  - apply mi_key_ok.
  - intros it es p Hrep. eapply mi_move_ok; [done|]. intros mes ids Hl -> Hr Hc Hok _ _.
    destruct (mem_moves _ mes ids Hok Hr Hc _ seq_ok_0 ltac:(done)) as (_ & E & _). unfold MemIter_SeekToFirst. rewrite E. split.
    + f_equal. apply lookup_at_index. by rewrite length_map.
    + intros i [-> Hi]%at_index_Some. by rewrite length_map in Hi.
  - intros it es p Hrep. eapply mi_move_ok; [done|]. intros mes ids Hl -> Hr Hc Hok _ _.
    destruct (mem_moves _ mes ids Hok Hr Hc _ seq_ok_0 ltac:(done)) as (_ & _ & E & _). unfold MemIter_SeekToLast. rewrite E, length_map. split.
    + f_equal. rewrite Hl. by apply lookup_before_last.
    + intros i Hi%before_Some. lia.
  - intros t it es p (k & Hs & Hlk & ->) Hrep. eapply mi_move_ok; [done|]. intros mes ids Hl -> Hr Hc Hok _ _.
    destruct (mem_moves _ mes ids Hok Hr Hc _ Hs Hlk) as (E & _). unfold MemIter_Seek. rewrite E. split.
    + f_equal. apply lookup_at_index. by rewrite length_map.
    + intros i [-> Hi]%at_index_Some. by rewrite length_map in Hi.
  - intros it es i Hrep. eapply mi_move_ok; [done|]. intros mes ids Hl -> Hr Hc Hok Hn Hi.
    destruct (mem_moves _ mes ids Hok Hr Hc _ seq_ok_0 ltac:(done)) as (_ & _ & _ & E). unfold MemIter_Next.
    rewrite Hn. cbn [mbind option_bind]. destruct (E i) as (-> & _); [rewrite Hl; by apply Hi|]. split.
    + f_equal. apply lookup_at_index. by rewrite length_map.
    + intros j [-> Hj]%at_index_Some. by rewrite length_map in Hj.
  - intros it es i Hrep. eapply mi_move_ok; [done|]. intros mes ids Hl -> Hr Hc Hok Hn Hi.
    destruct (mem_moves _ mes ids Hok Hr Hc _ seq_ok_0 ltac:(done)) as (_ & _ & _ & E). unfold MemIter_Prev.
    rewrite Hn. cbn [mbind option_bind]. specialize (Hi i eq_refl). destruct (E i) as (_ & -> & _); [lia|]. split.
    + by destruct i.
    + intros j Hj%before_Some. lia.
Qed.

#[global] Instance MemTableIterator_status : Iterator.StatusLaws (MemTableIterator ucmp).
Proof. intros it es p _. by eexists. Qed.

(** *** LevelFileNumIterator *)

(** The entry of a file: its largest key, with its number and its size. *)
Definition level_entry (f : FileMetaData) : entry :=
  (InternalKey_Encode (largest f), EncodeFixed64 (number f) ++ EncodeFixed64 (file_size f)).

#[global] Instance LevelFileNumIterator_model : Iterator.Model (LevelFileNumIterator ucmp) := fun it es p =>
  level_wf ucmp (flist_ it) /\ Forall (fun f => internal_ok (rep_ (largest f))) (flist_ it) /\ Zlength (flist_ it) < 2 ^ 31 /\
  es = map level_entry (flist_ it) /\
  index_ it = match p with Some i => Z.of_nat i | None => Zlength (flist_ it) end /\
  (forall i, p = Some i -> (i < length (flist_ it))%nat).

Lemma level_sorted files : level_wf ucmp files -> Forall (fun f => internal_ok (rep_ (largest f))) files ->
  sorted_entries icmp internal_ok (map level_entry files).
Proof.
  intros [Hf Hs] Hi. split; [by rewrite Forall_map|].
  induction Hs as [|f fs Hs IH Hfs]; cbn; [constructor|]. inversion_clear Hf as [|? ? Hwf Hwfs]. inversion_clear Hi.
  constructor; [by apply IH|]. rewrite Forall_map. rewrite Forall_forall in *. intros g Hg.
  change (icmp (rep_ (largest f)) (rep_ (largest g)) < 0).
  apply (to_lt_le_trans icmp any_key _ (rep_ (smallest g))); [done..|by apply Hfs|]. by destruct (Hwfs g Hg) as (_ & _ & ?).
Qed.

Lemma level_count files t : level_wf ucmp files -> Forall (fun f => internal_ok (rep_ (largest f))) files -> internal_ok t ->
  FindFile_ref ucmp files t = Z.of_nat (cnt (below icmp t) (map level_entry files)).
Proof.
  intros Hw Hi Ht. pose proof (level_wf_sorted ucmp files Hw) as Hs. pose proof (level_sorted files Hw Hi) as Hse.
  pose proof (FindFile_ref_range ucmp files t) as Hrange. set (n := cnt (below icmp t) (map level_entry files)).
  assert (n <= length files)%nat as Hn by (rewrite <- (length_map level_entry); apply cnt_le).
  assert (forall i, (i < length files)%nat -> Z.of_nat i < FindFile_ref ucmp files t <-> (i < n)%nat) as Hiff.
  { intros i Hlt. destruct (lookup_lt_is_Some_2 files i Hlt) as [f Hf]. rewrite <- (FindFile_ref_spec ucmp files t i f Hs Hf).
    unfold n. rewrite (cnt_lookup icmp internal_ok (below icmp t) _ i (level_entry f));
      [|done|by apply (below_down icmp internal_ok)|by rewrite list_lookup_fmap, Hf]. unfold below. by rewrite Z.ltb_lt. }
  unfold Zlength in Hrange. destruct (Z.lt_trichotomy (FindFile_ref ucmp files t) (Z.of_nat n)) as [Hl|[?|Hl]]; [|done|].
  - specialize (Hiff (Z.to_nat (FindFile_ref ucmp files t)) ltac:(lia)). lia.
  - specialize (Hiff n ltac:(lia)). lia.
Qed.

Lemma level_key_ok (it : LevelFileNumIterator ucmp) es i e : Iterator.rep it es (Some i) -> es !! i = Some e ->
  Iterator.key it = Some e.1 /\ Iterator.value it = Some e.2.
Proof.
  intros (_ & _ & _ & -> & Ei & _) He. rewrite list_lookup_fmap in He.
  destruct (flist_ it !! i) as [f|] eqn:Ef; [|done]. injection He as <-. cbn. unfold LevelIter_key, LevelIter_value.
  rewrite Ei, Nat2Z.id, Ef. done.
Qed.

#[global] Instance LevelFileNumIterator_laws : Iterator.Laws icmp internal_ok (LevelFileNumIterator ucmp).
Proof.
  assert (forall (it : LevelFileNumIterator ucmp) es p q n, Iterator.rep it es p ->
    n = match q with Some i => Z.of_nat i | None => Zlength (flist_ it) end ->
    (forall i, q = Some i -> (i < length (flist_ it))%nat) -> Iterator.rep (li_move it n) es q) as Hmove.
  { intros it es p q n (Hw & Hi & Hl & He & _) Hn Hq. by split_and!. }
  assert (forall (it : LevelFileNumIterator ucmp) es i, Iterator.rep it es (Some i) ->
    LevelIter_Valid (flist_ it) (index_ it) = true) as Hvalid.
  { intros it es i (_ & _ & _ & _ & -> & Hi). apply Z.ltb_lt. specialize (Hi i eq_refl). unfold Zlength. lia. }
  split.
  - intros it es p (Hw & Hi & _ & -> & _). by apply level_sorted.
  - intros it es i (_ & _ & _ & -> & _ & Hi). rewrite length_map. by apply Hi.
  - intros it es [i|] Hrep; [by eapply Hvalid|]. destruct Hrep as (_ & _ & _ & _ & Ei & _). cbn. unfold LevelIter_Valid.
    by rewrite Ei, Z.ltb_irrefl.
  - apply level_key_ok.
  - intros it es p Hrep. eexists. split; [done|]. pose proof Hrep as (_ & _ & _ & -> & _).
    eapply Hmove; [done|..]; unfold at_index; rewrite length_map; destruct (flist_ it); cbn; naive_solver lia.
  - intros it es p Hrep. eexists. split; [done|]. pose proof Hrep as (_ & _ & Hl & -> & _).
    eapply Hmove; [done|..]; rewrite length_map; unfold LevelIter_SeekToLast, Zlength in *; destruct (flist_ it) as [|f fs]; cbn [length before] in *;
      try done; [|naive_solver lia]. rewrite u32_small by (unfold is_u32; lia). lia.
  - intros t it es p Ht Hrep. pose proof Hrep as (Hw & Hi & Hl & -> & _). cbn. unfold LevelIter_Seek.
    rewrite FindFile_ok by (done || by apply level_wf_sorted). bind_simpl. eexists. split; [done|].
    eapply Hmove; [done|..]; try rewrite level_count by done; unfold at_index; rewrite length_map; destruct (Nat.ltb_spec (cnt (below icmp t) (map level_entry (flist_ it))) (length (flist_ it)));
      try done; [|naive_solver lia]. pose proof (cnt_le (below icmp t) (map level_entry (flist_ it))). rewrite length_map in *. unfold Zlength. lia.
  - intros it es i Hrep. cbn. rewrite (Hvalid _ _ _ Hrep). eexists. split; [done|]. pose proof Hrep as (_ & _ & Hl & -> & Ei & Hi).
    specialize (Hi i eq_refl). unfold Zlength in Hl. eapply Hmove; [done|..]; unfold LevelIter_Next, at_index; rewrite length_map; destruct (Nat.ltb_spec (S i) (length (flist_ it)));
      try done; [..|naive_solver lia]; rewrite Ei, u32_small by (unfold is_u32; lia); unfold Zlength; lia.
  - intros it es i Hrep. cbn. rewrite (Hvalid _ _ _ Hrep). eexists. split; [done|]. pose proof Hrep as (_ & _ & Hl & -> & Ei & Hi).
    specialize (Hi i eq_refl). unfold Zlength in Hl. eapply Hmove; [done|..]; [|intros j Hj%before_Some; lia].
    unfold LevelIter_Prev. rewrite Ei. destruct i as [|i]; cbn [before].
    + cbn. apply u32_small. unfold is_u32, Zlength. lia.
    + rewrite (proj2 (Z.eqb_neq _ _)) by lia. lia.
Qed.

#[global] Instance LevelFileNumIterator_status : Iterator.StatusLaws (LevelFileNumIterator ucmp).
Proof. intros it es p _. by eexists. Qed.
End Laws.

(** Iterators over parts of a small level, for the witnesses. *)
Definition sample_iter (files : list FileMetaData) : LevelFileNumIterator BytewiseComparator :=
  NewLevelFileNumIterator BytewiseComparator files.

Lemma sample_iter_rep files : files = sample_level \/ (exists f, f ∈ sample_level /\ files = [f]) \/ files = [] ->
  Iterator.rep (sample_iter files) (map level_entry files) None.
Proof.
  intros Hf. pose proof sample_level_wf as [Hw Hs].
  assert (Forall (fun f => internal_ok (rep_ (largest f))) sample_level) as Hi.
  { assert (forall u, Zlength (str u) + 8 < 2 ^ 32 -> internal_ok (rep_ (key_at u 3))) as Hk.
    { intros u Hu. exists (MkParsedInternalKey (str u) 3 kTypeValue). split_and!; [|done|done].
      unfold seq_ok. rewrite kMaxSequenceNumber_val. cbn. lia. }
    apply Forall_cons. split; [by apply (Hk "d"%string)|]. apply Forall_singleton. by apply (Hk "h"%string). }
  destruct Hf as [->|[(f & Hf & ->)| ->]].
  - by split_and!.
  - rewrite Forall_forall in Hw. rewrite Forall_forall in Hi. split_and!; try done; repeat constructor; auto; by apply Hw.
  - split_and!; try done; repeat constructor.
Qed.
