(* ===== verification/Merger.v ===== *)
(** table/merger.{h,cpp}: the iterator that merges sorted children.

    Children are wrapped iterators of one type, [current_] the index of the child
    the iterator is at.  The theorem shows that a merging iterator over children
    that meet [Iterator.Laws] meets them too, for the sorted union of their
    entries, in either direction and across changes of direction. *)

From Stdlib Require Import ZArith Lia List Bool String Sorting.Sorted.
From S2P Require Import Prelude Lists Slice Comparator DbFormat Version Iterators InternalIters.

Inductive Direction := kForward | kReverse.

#[global] Instance Direction_eq_dec : EqDecision Direction.
Proof. solve_decision. Defined.

Module Merging.

(** The comparator is part of the type. *)
Record t (cmp : bytes -> bytes -> Z) (I : Type) := Mk {
  children_ : list (IteratorWrapper I);
  current_ : option nat;
  direction_ : Direction
}.
Arguments Mk {cmp I}.
Arguments children_ {cmp I}.
Arguments current_ {cmp I}.
Arguments direction_ {cmp I}.

Section Merging.
Context {cmp : bytes -> bytes -> Z} {I : Type} `{!Iterator.Ops I}.
Abbreviation W := (IteratorWrapper I).
Abbreviation t := (t cmp I).

(** A loop over the children that replaces each. *)
Fixpoint each_child (f : nat -> W -> option W) (i : nat) (ws : list W) : option (list W) :=
  match ws with
  | [] => Some []
  | w :: ws => w ← f i w; ws ← each_child f (S i) ws; Some (w :: ws)
  end.

(** The constructor. *)
Fixpoint wrap_all (iters : list I) : option (list W) :=
  match iters with
  | [] => Some []
  | it :: iters => w ← Wrapper_Set Wrapper_null (Some it); ws ← wrap_all iters; Some (w :: ws)
  end.

Definition new (iters : list I) : option t := ws ← wrap_all iters; Some (Mk ws None kForward).

(** The loops of [FindSmallest] and [FindLargest] over the children [idx];
    [better a b] tells whether key [a] replaces key [b]. *)
Fixpoint find_best (better : bytes -> bytes -> bool) (ws : list W) (idx : list nat) (best : option nat)
    : option (option nat) :=
  match idx with
  | [] => Some best
  | i :: idx =>
      child ← ws !! i;
      if Iterator.Valid child then
        match best with
        | None => find_best better ws idx (Some i)
        | Some b =>
            bw ← ws !! b;
            k ← Iterator.key child;
            kb ← Iterator.key bw;
            find_best better ws idx (if better k kb then Some i else best)
        end
      else find_best better ws idx best
  end.

Definition FindSmallest (ws : list W) : option (option nat) :=
  find_best (fun a b => cmp a b <? 0) ws (seq 0 (length ws)) None.

Definition FindLargest (ws : list W) : option (option nat) :=
  find_best (fun a b => cmp a b >? 0) ws (rev (seq 0 (length ws))) None.

Definition Valid (m : t) : bool := match current_ m with Some _ => true | None => false end.

Definition current (m : t) : option W := c ← current_ m; children_ m !! c.

Definition key (m : t) : option bytes := w ← current m; Iterator.key w.
Definition value (m : t) : option bytes := w ← current m; Iterator.value w.

Definition SeekToFirst (m : t) : option t :=
  ws ← each_child (fun _ => Iterator.SeekToFirst) 0 (children_ m);
  cur ← FindSmallest ws;
  Some (Mk ws cur kForward).

Definition SeekToLast (m : t) : option t :=
  ws ← each_child (fun _ => Iterator.SeekToLast) 0 (children_ m);
  cur ← FindLargest ws;
  Some (Mk ws cur kReverse).

Definition Seek (target : bytes) (m : t) : option t :=
  ws ← each_child (fun _ => Iterator.Seek target) 0 (children_ m);
  cur ← FindSmallest ws;
  Some (Mk ws cur kForward).

(** The child is put after [k]. *)
Definition turn_forward (k : bytes) (c i : nat) (w : W) : option W :=
  if bool_decide (i = c) then Some w
  else
    w ← Iterator.Seek k w;
    if Iterator.Valid w then
      ck ← Iterator.key w;
      if cmp k ck =? 0 then Iterator.Next w else Some w
    else Some w.

(** The child is put before [k]. *)
Definition turn_reverse (k : bytes) (c i : nat) (w : W) : option W :=
  if bool_decide (i = c) then Some w
  else
    w ← Iterator.Seek k w;
    if Iterator.Valid w then Iterator.Prev w else Iterator.SeekToLast w.

(** [current_->Next()] or [current_->Prev()]. *)
Definition move_current (op : W -> option W) (c : nat) (ws : list W) : option (list W) :=
  w ← ws !! c; w ← op w; Some (<[c := w]> ws).

(** [current_] is not moved by the loop, so its key is the same in every round. *)
Definition Next (m : t) : option t :=
  c ← current_ m;
  k ← key m;
  ws ← (if bool_decide (direction_ m = kForward) then Some (children_ m)
        else each_child (turn_forward k c) 0 (children_ m));
  ws ← move_current Iterator.Next c ws;
  cur ← FindSmallest ws;
  Some (Mk ws cur kForward).

Definition Prev (m : t) : option t :=
  c ← current_ m;
  k ← key m;
  ws ← (if bool_decide (direction_ m = kReverse) then Some (children_ m)
        else each_child (turn_reverse k c) 0 (children_ m));
  ws ← move_current Iterator.Prev c ws;
  cur ← FindLargest ws;
  Some (Mk ws cur kReverse).

(** The first status that is not ok. *)
Fixpoint status_loop (ws : list W) (s : Status) : option Status :=
  match ws with
  | [] => Some s
  | w :: ws => s ← Iterator.status w; if negb (ok s) then Some s else status_loop ws s
  end.

Definition status (m : t) : option Status := status_loop (children_ m) Status_OK.

#[global] Instance ops : Iterator.Ops t := {
  Iterator.Valid := Valid; Iterator.SeekToFirst := SeekToFirst; Iterator.SeekToLast := SeekToLast;
  Iterator.Seek := Seek; Iterator.Next := Next; Iterator.Prev := Prev;
  Iterator.key := key; Iterator.value := value; Iterator.status := status
}.
End Merging.
Arguments FindSmallest cmp {I _} ws.
Arguments FindLargest cmp {I _} ws.
Arguments turn_forward cmp {I _} k c i w.
End Merging.

(** ** NewMergingIterator *)

Abbreviation MergedIterator cmp I := (EmptyIterator + (I + Merging.t cmp I))%type.

Definition NewMergingIterator (cmp : bytes -> bytes -> Z) {I} `{!Iterator.Ops I} (list_ : list I)
    : option (MergedIterator cmp I) :=
  match list_ with
  | [] => Some (inl NewEmptyIterator)
  | [it] => Some (inr (inl it))
  | _ => m ← Merging.new list_; Some (inr (inr m))
  end.

(** ** Lemmas *)

Section Laws.
Context (cmp : bytes -> bytes -> Z) (valid : bytes -> Prop) `{!TotalPreorder cmp valid}.
Context {I : Type} `{!Iterator.Ops I} `{!Iterator.Model I} `{!Iterator.Laws cmp valid I}.
Abbreviation W := (IteratorWrapper I).
Implicit Types (ws : list W) (ess : list (list entry)) (M : list entry).

(** The key of a child, if it is valid. *)
Definition child_key ws (i : nat) : option bytes := w ← ws !! i; if Iterator.Valid w then Iterator.key w else None.

Definition keys_ok ws : Prop := forall i w, ws !! i = Some w -> Iterator.Valid w = true ->
  exists k, Iterator.key w = Some k /\ valid k.

Lemma child_key_valid ws i k : keys_ok ws -> child_key ws i = Some k -> valid k.
Proof.
  intros Hok. unfold child_key. destruct (ws !! i) as [w|] eqn:Ew; [|done]. bind_simpl.
  destruct (Iterator.Valid w) eqn:Ev; [|done]. destruct (Hok i w Ew Ev) as (? & -> & ?). naive_solver.
Qed.

(** [r] is the first in the order among the valid children of the visited ones. *)
Definition best_of (ord : bytes -> bytes -> Z) ws (visited : list nat) (r : option nat) : Prop :=
  match r with
  | None => forall i, i ∈ visited -> child_key ws i = None
  | Some b => b ∈ visited /\ exists kb, child_key ws b = Some kb /\
      forall i k, i ∈ visited -> child_key ws i = Some k -> ord kb k <= 0
  end.

Lemma best_of_skip ord ws visited r i : best_of ord ws visited r -> child_key ws i = None ->
  best_of ord ws (i :: visited) r.
Proof.
  intros Hr Hi. destruct r as [b|]; cbn in *.
  - destruct Hr as (Hb & kb & Ekb & Hle). split; [by right|]. exists kb. split; [done|].
    intros j k [->|Hj]%elem_of_cons Ek; [congruence|eauto].
  - intros j [->|Hj]%elem_of_cons; auto.
Qed.

Lemma best_of_keep ord ws visited b kb i k : best_of ord ws visited (Some b) -> child_key ws b = Some kb ->
  child_key ws i = Some k -> ord kb k <= 0 -> best_of ord ws (i :: visited) (Some b).
Proof.
  intros (Hb & kb' & Ekb & Hle) Eb Ei Hk. assert (kb' = kb) as -> by congruence. split; [by right|]. exists kb. split; [done|].
  intros j q [->|Hj]%elem_of_cons Eq; [by simplify_eq|eauto].
Qed.

Lemma best_of_take ord `{!TotalPreorder ord valid} ws visited r i k : keys_ok ws -> best_of ord ws visited r ->
  child_key ws i = Some k -> (forall b kb, r = Some b -> child_key ws b = Some kb -> ord k kb <= 0) ->
  best_of ord ws (i :: visited) (Some i).
Proof.
  intros Hok Hr Ei Hk. assert (valid k) as Hv by (by eapply child_key_valid). split; [left|]. exists k. split; [done|].
  intros j q [->|Hj]%elem_of_cons Eq.
  - simplify_eq. by rewrite (to_refl ord valid).
  - destruct r as [b|]; [|by rewrite (Hr j Hj) in Eq]. destruct Hr as (_ & kb & Ekb & Hle).
    apply (to_trans k kb q); [done|by eapply child_key_valid..|by eapply Hk|by eapply Hle].
Qed.

Lemma find_best_ok ord `{!TotalPreorder ord valid} better ws idx visited best :
  (forall a b, valid a -> valid b -> better a b = true <-> ord a b < 0) ->
  keys_ok ws -> (forall i, i ∈ idx -> (i < length ws)%nat) -> best_of ord ws visited best ->
  exists r, Merging.find_best better ws idx best = Some r /\ best_of ord ws (rev idx ++ visited) r.
Proof.
  intros Hb Hok. revert visited best. induction idx as [|i idx IH]; intros visited best Hin Hbest;
    cbn [Merging.find_best rev]; [by exists best|].
  rewrite <- app_assoc. cbn [app].
  destruct (lookup_lt_is_Some_2 ws i (Hin i ltac:(left))) as [w Ew]. rewrite Ew. bind_simpl.
  assert (forall j, j ∈ idx -> (j < length ws)%nat) as Hin' by (intros; apply Hin; by right).
  assert (child_key ws i = if Iterator.Valid w then Iterator.key w else None) as Eck
    by (unfold child_key; by rewrite Ew).
  destruct (Iterator.Valid w) eqn:Ev; [|apply IH; [done|by apply best_of_skip]].
  destruct (Hok i w Ew Ev) as (k & Ek & Hk). rewrite Ek in Eck.
  destruct best as [b|]; [|apply IH; [done|]; eapply best_of_take; [done..|naive_solver]].
  pose proof Hbest as (_ & kb & Ekb & _). pose proof (child_key_valid _ _ _ Hok Ekb) as Hkb.
  pose proof Ekb as Ekb'. unfold child_key in Ekb'. destruct (ws !! b) as [wb|]; [|done]. cbn [mbind option_bind] in Ekb'.
  destruct (Iterator.Valid wb); [|done]. bind_simpl. rewrite Ek. bind_simpl. rewrite Ekb'. bind_simpl. specialize (Hb k kb Hk Hkb).
  apply IH; [done|]. destruct (better k kb).
  - eapply best_of_take; [done..|]. intros b' kb' [= <-] ?. simplify_eq. apply Z.lt_le_incl. tauto.
  - eapply best_of_keep; [done..|]. apply (to_flip_le ord valid); [done..|].
    destruct (Z.lt_ge_cases (ord k kb) 0) as [Hl|]; [|lia]. by apply Hb in Hl.
Qed.

(** *** Children and their union *)

(** Every child is over its entries, at the position [f] gives. *)
Definition placed ws ess (f : nat -> list entry -> option nat) : Prop :=
  length ws = length ess /\
  forall j w es, ws !! j = Some w -> ess !! j = Some es -> Iterator.rep w es (f j es).

(** [M] is the sorted union of the children's entries, whose keys all differ. *)
Definition merge_of ess M : Prop := sorted_entries cmp valid M /\ M ≡ₚ concat ess.

(** Where the children are when child [c] is at key [k]. *)
Definition place (d : Direction) (k : bytes) (c j : nat) (es : list entry) : option nat :=
  let n := cnt (below cmp k) es in
  if bool_decide (j = c) then Some n
  else match d with kForward => at_index es n | kReverse => before n end.

#[global] Instance Merging_model : Iterator.Model (Merging.t cmp I) := fun m M p =>
  exists ess, merge_of ess M /\
    match p with
    | None => Merging.current_ m = None /\ exists f, placed (Merging.children_ m) ess f
    | Some i => exists c es e, Merging.current_ m = Some c /\ M !! i = Some e /\ ess !! c = Some es /\ e ∈ es /\
        placed (Merging.children_ m) ess (place (Merging.direction_ m) e.1 c)
    end.

Lemma each_child_ok f g ws ess i : length ws = length ess ->
  (forall j w es, ws !! j = Some w -> ess !! j = Some es ->
    exists w', f (i + j)%nat w = Some w' /\ Iterator.rep w' es (g (i + j)%nat es)) ->
  exists ws', Merging.each_child f i ws = Some ws' /\ placed ws' ess (fun j => g (i + j)%nat).
Proof.
  revert ess i. induction ws as [|w ws IH]; intros [|es ess] i Hl Hf; try done.
  - exists []. split; [done|]. split; [done|]. intros j w es Hj. done.
  - destruct (Hf 0%nat w es eq_refl eq_refl) as (w' & Ew & Hw). rewrite Nat.add_0_r in Ew, Hw.
    destruct (IH ess (S i)) as (ws' & Ews & Hl' & Hws); [by injection Hl|..].
    { intros j u fs Hu Hfs. specialize (Hf (S j) u fs Hu Hfs). by rewrite Nat.add_succ_r in Hf. }
    exists (w' :: ws'). cbn [Merging.each_child]. rewrite Ew. bind_simpl. rewrite Ews. bind_simpl. split; [done|].
    split; [cbn; by f_equal|]. intros [|j] u fs Hu Hfs; cbn in Hu, Hfs.
    + simplify_eq. by rewrite Nat.add_0_r.
    + rewrite Nat.add_succ_r. by apply Hws.
Qed.

Lemma placed_ext ws ess f g : placed ws ess f ->
  (forall j es, ess !! j = Some es -> f j es = g j es) -> placed ws ess g.
Proof. intros [Hl Hp] Hfg. split; [done|]. intros j w es Hw Hes. rewrite <- Hfg by done. by apply Hp. Qed.

Lemma placed_lookup ws ess f j es : placed ws ess f -> ess !! j = Some es ->
  exists w, ws !! j = Some w /\ Iterator.rep w es (f j es).
Proof.
  intros [Hl Hp] Hj. destruct (lookup_lt_is_Some_2 ws j) as [w Hw]; [apply lookup_lt_Some in Hj; lia|]. eauto.
Qed.

Lemma placed_sorted ws ess f j es : placed ws ess f -> ess !! j = Some es -> sorted_entries cmp valid es.
Proof. intros Hp Hj. destruct (placed_lookup _ _ _ _ _ Hp Hj) as (w & _ & Hr). exact (Iterator.l_sorted _ _ _ Hr). Qed.

Lemma placed_update ws ess f g c w es : placed ws ess f -> ess !! c = Some es -> Iterator.rep w es (g c es) ->
  (forall j es', j <> c -> ess !! j = Some es' -> f j es' = g j es') -> placed (<[c := w]> ws) ess g.
Proof.
  intros [Hl Hp] Hc Hr Hfg. split; [by rewrite length_insert|]. intros j u es' Hu Hes.
  destruct (decide (j = c)) as [->|Hne].
  - rewrite list_lookup_insert_eq in Hu by (apply lookup_lt_Some in Hc; lia). by simplify_eq.
  - rewrite list_lookup_insert_ne in Hu by done. rewrite <- Hfg by done. by apply Hp.
Qed.

Lemma child_key_placed ws ess f j es : placed ws ess f -> ess !! j = Some es ->
  child_key ws j = (i ← f j es; e ← es !! i; Some e.1).
Proof.
  intros Hp Hj. destruct (placed_lookup _ _ _ _ _ Hp Hj) as (w & Hw & Hr). unfold child_key. rewrite Hw. bind_simpl.
  rewrite (Iterator.l_Valid _ _ _ Hr). destruct (f j es) as [i|]; [|done]. cbn [is_valid]. bind_simpl.
  destruct (lookup_lt_is_Some_2 es i (Iterator.l_bound _ _ _ Hr)) as [e He]. rewrite He. bind_simpl.
  by destruct (Iterator.l_key _ _ _ _ Hr He).
Qed.

Lemma placed_keys_ok ws ess f : placed ws ess f -> keys_ok ws.
Proof.
  intros Hp j w Hw Hv. pose proof Hp as [Hl _].
  destruct (lookup_lt_is_Some_2 ess j) as [es Hes]; [apply lookup_lt_Some in Hw; lia|].
  destruct (placed_lookup _ _ _ _ _ Hp Hes) as (w' & Hw' & Hr). simplify_eq. rewrite (Iterator.l_Valid _ _ _ Hr) in Hv.
  destruct (f j es) as [i|]; [|done]. destruct (lookup_lt_is_Some_2 es i (Iterator.l_bound _ _ _ Hr)) as [e He].
  destruct (Iterator.l_key _ _ _ _ Hr He) as [Ek _]. exists e.1. split; [done|].
  eapply (sorted_valid_at cmp); [by eapply placed_sorted|done].
Qed.

Lemma merge_elem ess M e : merge_of ess M -> e ∈ M <-> exists j es, ess !! j = Some es /\ e ∈ es.
Proof.
  intros [_ HM]. rewrite HM, list_elem_of_In, in_concat. split.
  - intros (es & [j Hj]%list_elem_of_In%list_elem_of_lookup & Hin%list_elem_of_In). eauto.
  - intros (j & es & Hj%list_elem_of_lookup_2%list_elem_of_In & Hin%list_elem_of_In). eauto.
Qed.

(** Keys of different children differ. *)
Lemma merge_apart ess M c j es es' e x : merge_of ess M -> ess !! c = Some es -> ess !! j = Some es' -> j <> c ->
  e ∈ es -> x ∈ es' -> cmp x.1 e.1 <> 0.
Proof.
  intros [[Hv Hs] HM] Hc Hj Hne (l1 & l2 & ->)%list_elem_of_split Hx.
  set (rest := concat (take c ess) ++ l1 ++ l2 ++ concat (drop (S c) ess)).
  assert (concat ess ≡ₚ e :: rest) as Hrest.
  { rewrite <- (take_drop_middle ess c _ Hc) at 1. rewrite concat_app. cbn [concat]. unfold rest.
    rewrite <- !app_assoc. cbn [app]. by rewrite <- !Permutation_middle. }
  assert (x ∈ rest) as Hin.
  { unfold rest. rewrite !elem_of_app. destruct (decide (j < c)%nat).
    - left. rewrite list_elem_of_In, in_concat. exists es'. split; apply list_elem_of_In; [|done].
      apply (list_elem_of_lookup_2 _ j). by rewrite lookup_take_lt.
    - do 3 right. rewrite list_elem_of_In, in_concat. exists es'. split; apply list_elem_of_In; [|done].
      apply (list_elem_of_lookup_2 _ (j - S c)). rewrite lookup_drop. by replace (S c + (j - S c))%nat with j by lia. }
  rewrite Hrest in HM. destruct (Permutation_vs_cons_inv HM) as (A & B & ->).
  symmetry in HM. apply Permutation_cons_app_inv in HM. rewrite HM, elem_of_app in Hin.
  apply StronglySorted_app_inv in Hs as (_ & Hs & HA). inversion_clear Hs as [|? ? _ HB]. rewrite Forall_forall in HB, Hv.
  destruct Hin as [Hin|Hin].
  - specialize (HA x e Hin ltac:(left)). cbn in HA. lia.
  - specialize (HB x Hin). cbn in HB. apply (to_flip_lt cmp valid) in HB; [lia|apply Hv..]; set_solver.
Qed.

(** *** FindSmallest and FindLargest *)

#[local] Instance flipped_order : TotalPreorder (fun a b => cmp b a) valid.
Proof.
  split.
  - intros a b Ha Hb. by apply (to_sgn (cmp := cmp)).
  - intros x y z Hx Hy Hz Hxy Hyz. by apply (to_trans z y x).
Qed.

(** A position in every child that the same keys precede is one in the union. *)
Lemma merge_cnt_ext ess M P Q : merge_of ess M ->
  (forall j es x, ess !! j = Some es -> x ∈ es -> P x.1 = Q x.1) ->
  cnt P M = cnt Q M /\ forall j es, ess !! j = Some es -> cnt P es = cnt Q es.
Proof.
  intros HM HPQ. split; [|intros; apply cnt_ext; eauto].
  apply cnt_ext. intros x (j & es & Hj & Hx)%(merge_elem ess). 2: done. eauto.
Qed.

Lemma elem_of_children (n i : nat) : i ∈ rev (seq 0 n) ++ [] <-> (i < n)%nat.
Proof. rewrite app_nil_r, list_elem_of_In, <- in_rev, in_seq. lia. Qed.

(** If [e] is the first entry past [P] in any child, [P] holds of the keys below it. *)
Lemma smallest_cut es P (e x : entry) : sorted_entries cmp valid es -> down_closed cmp valid P -> valid e.1 -> P e.1 = false ->
  (forall y, es !! cnt P es = Some y -> cmp e.1 y.1 <= 0) -> x ∈ es -> P x.1 = below cmp e.1 x.1.
Proof.
  intros Hs Hd Hve HPe Hle Hx. assert (valid x.1) as Hvx by (by eapply sorted_valid).
  unfold below. destruct (P x.1) eqn:EP; symmetry.
  - apply Z.ltb_lt. destruct (Z.lt_ge_cases (cmp x.1 e.1) 0); [done|].
    rewrite (Hd e.1 x.1) in HPe; [done..|by apply (to_flip_le cmp valid); [..|lia]|done].
  - apply Z.ltb_ge. apply list_elem_of_lookup_1 in Hx as [n Hn].
    assert (cnt P es <= n)%nat as Hn'.
    { destruct (decide (n < cnt P es)%nat) as [Hlt|]; [|lia].
      apply (cnt_lookup cmp valid P es n x) in Hlt; [congruence|done..]. }
    destruct (lookup_lt_is_Some_2 es (cnt P es)) as [y Hy]; [apply lookup_lt_Some in Hn; lia|].
    assert (valid y.1) as Hvy by (by eapply (sorted_valid_at cmp)). specialize (Hle y Hy).
    apply Z.ge_le, (to_flip_le cmp valid); [done..|]. destruct (decide (cnt P es = n)) as [<-|]; [by simplify_eq|].
    apply (to_trans e.1 y.1 x.1); [done..|]. apply Z.lt_le_incl. eapply (sorted_at cmp); [done| |done..]. lia.
Qed.

(** If [e] is the last entry of [P] in any child, [P] holds of the keys up to it. *)
Lemma largest_cut es P (e x : entry) : sorted_entries cmp valid es -> down_closed cmp valid P -> valid e.1 -> P e.1 = true ->
  (forall i y, cnt P es = S i -> es !! i = Some y -> cmp y.1 e.1 <= 0) -> x ∈ es -> P x.1 = upto cmp e.1 x.1.
Proof.
  intros Hs Hd Hve HPe Hle Hx. assert (valid x.1) as Hvx by (by eapply sorted_valid).
  unfold upto. destruct (P x.1) eqn:EP; symmetry.
  - apply Z.leb_le. apply list_elem_of_lookup_1 in Hx as [n Hn].
    assert (n < cnt P es)%nat as Hn' by (by apply (cnt_lookup cmp valid P es n x)).
    destruct (cnt P es) as [|i] eqn:Ec; [lia|]. pose proof (cnt_le P es).
    destruct (lookup_lt_is_Some_2 es i ltac:(lia)) as [y Hy]. specialize (Hle i y eq_refl Hy).
    assert (valid y.1) as Hvy by (by eapply (sorted_valid_at cmp)).
    destruct (decide (n = i)) as [->|]; [by simplify_eq|].
    apply (to_trans x.1 y.1 e.1); [done..| |done]. apply Z.lt_le_incl. eapply (sorted_at cmp); [done| |done..]. lia.
  - apply Z.leb_gt. destruct (Z.lt_ge_cases 0 (cmp x.1 e.1)); [done|].
    by rewrite (Hd x.1 e.1) in EP by (done || lia).
Qed.

Lemma FindSmallest_ok ws ess M P : merge_of ess M -> down_closed cmp valid P ->
  placed ws ess (fun _ es => at_index es (cnt P es)) ->
  exists cur, Merging.FindSmallest cmp ws = Some cur /\
    Iterator.rep (Merging.Mk ws cur kForward) M (at_index M (cnt P M)).
Proof.
  intros HM Hd Hp. pose proof Hp as [Hl _]. unfold Merging.FindSmallest.
  destruct (find_best_ok cmp (fun a b => cmp a b <? 0) ws (seq 0 (length ws)) [] None) as (r & Er & Hr).
  { intros. apply Z.ltb_lt. } { by eapply placed_keys_ok. } { intros i Hi%list_elem_of_In%in_seq. lia. } { set_solver. }
  exists r. split; [done|]. exists ess. split; [done|].
  assert (forall j es y, ess !! j = Some es -> es !! cnt P es = Some y -> child_key ws j = Some y.1) as Hck.
  { intros j es y Hj Hy. rewrite (child_key_placed _ _ _ _ _ Hp Hj), at_index_lt by (by eapply lookup_lt_Some).
    bind_simpl. by rewrite Hy. }
  assert (forall j es, ess !! j = Some es -> j ∈ rev (seq 0 (length ws)) ++ []) as Hj'
    by (intros j es Hj; apply elem_of_children; rewrite Hl; by eapply lookup_lt_Some).
  destruct r as [c|]; cbn in Hr.
  - destruct Hr as (Hc%elem_of_children & kb & Ekb & Hle).
    destruct (lookup_lt_is_Some_2 ess c ltac:(lia)) as [es Hes]. rewrite (child_key_placed _ _ _ _ _ Hp Hes) in Ekb.
    destruct (at_index es (cnt P es)) as [i|] eqn:Ei; [|done]. cbn [mbind option_bind] in Ekb.
    destruct (es !! i) as [e|] eqn:Ee; [|done]. injection Ekb as <-. apply at_index_Some in Ei as [-> Hi].
    assert (e ∈ es) as Hin by (by eapply list_elem_of_lookup_2).
    assert (e ∈ M) as [m Hm]%list_elem_of_lookup_1 by (apply (merge_elem ess); eauto).
    assert (P e.1 = false) as HPe.
    { apply not_true_iff_false. rewrite <- (cnt_lookup cmp valid P es _ e) by (done || by eapply placed_sorted). lia. }
    destruct (merge_cnt_ext ess M P (below cmp e.1) HM) as [EM Ees].
    { intros j es' x Hj Hx. apply (smallest_cut es'); try done; [by eapply placed_sorted| |by eauto].
      eapply (sorted_valid_at cmp); [by apply HM|done]. }
    rewrite EM, (cnt_below cmp valid M m e) by (done || by apply HM). rewrite at_index_lt by (by eapply lookup_lt_Some).
    exists c, es, e. split_and!; [done..|]. eapply placed_ext; [done|]. intros j es' Hj. cbn. unfold place.
    rewrite <- (Ees j es' Hj). case_bool_decide; [|done]. subst. simplify_eq. by apply at_index_lt.
  - rewrite at_index_ge; [split; [done|by eexists]|]. rewrite (cnt_all P M); [done|].
    intros x (j & es & Hj & [n Hn]%list_elem_of_lookup_1)%(merge_elem ess). 2: done.
    apply (cnt_lookup cmp valid P es n x); [by eapply placed_sorted|done..|]. apply lookup_lt_Some in Hn as Hn'.
    destruct (decide (cnt P es < length es)%nat) as [Hlt|]; [|lia].
    destruct (lookup_lt_is_Some_2 es _ Hlt) as [y Hy]. specialize (Hck j es y Hj Hy). rewrite Hr in Hck by eauto. done.
Qed.

Lemma FindLargest_ok ws ess M P : merge_of ess M -> down_closed cmp valid P ->
  placed ws ess (fun _ es => before (cnt P es)) ->
  exists cur, Merging.FindLargest cmp ws = Some cur /\
    Iterator.rep (Merging.Mk ws cur kReverse) M (before (cnt P M)).
Proof.
  intros HM Hd Hp. pose proof Hp as [Hl _]. unfold Merging.FindLargest.
  destruct (find_best_ok (fun a b => cmp b a) (fun a b => cmp a b >? 0) ws (rev (seq 0 (length ws))) [] None)
    as (r & Er & Hr).
  { intros a b Ha Hb. rewrite Z.gtb_lt, (to_flip_lt cmp valid) by done. lia. }
  { by eapply placed_keys_ok. } { intros i Hi%list_elem_of_In%in_rev%in_seq. lia. } { set_solver. }
  rewrite rev_involutive, app_nil_r in Hr. exists r. split; [done|]. exists ess. split; [done|].
  assert (forall j es i y, ess !! j = Some es -> cnt P es = S i -> es !! i = Some y -> child_key ws j = Some y.1) as Hck.
  { intros j es i y Hj Hi Hy. rewrite (child_key_placed _ _ _ _ _ Hp Hj), Hi. cbn [before]. bind_simpl. by rewrite Hy. }
  assert (forall j es, ess !! j = Some es -> j ∈ seq 0 (length ws)) as Hj'
    by (intros j es Hj; apply list_elem_of_In, in_seq; apply lookup_lt_Some in Hj; lia).
  destruct r as [c|]; cbn in Hr.
  - destruct Hr as (Hc%list_elem_of_In%in_seq & kb & Ekb & Hle).
    destruct (lookup_lt_is_Some_2 ess c ltac:(lia)) as [es Hes]. rewrite (child_key_placed _ _ _ _ _ Hp Hes) in Ekb.
    destruct (before (cnt P es)) as [i|] eqn:Ei; [|done]. cbn [mbind option_bind] in Ekb.
    destruct (es !! i) as [e|] eqn:Ee; [|done]. injection Ekb as <-. apply before_Some in Ei.
    assert (e ∈ es) as Hin by (by eapply list_elem_of_lookup_2).
    assert (e ∈ M) as [m Hm]%list_elem_of_lookup_1 by (apply (merge_elem ess); eauto).
    assert (valid e.1) as Hve by (eapply (sorted_valid_at cmp); [by apply HM|done]).
    assert (P e.1 = true) as HPe.
    { apply (cnt_lookup cmp valid P es i e); [by eapply placed_sorted|done..|lia]. }
    destruct (merge_cnt_ext ess M P (upto cmp e.1) HM) as [EM Ees].
    { intros j es' x Hj Hx. apply (largest_cut es'); try done; [by eapply placed_sorted|by eauto]. }
    rewrite EM, (cnt_upto cmp valid M m e) by (done || by apply HM).
    exists c, es, e. split_and!; [done..|]. eapply placed_ext; [done|]. intros j es' Hj. cbn. unfold place.
    rewrite (Ees j es' Hj). pose proof (placed_sorted _ _ _ _ _ Hp Hj) as Hs'. case_bool_decide as Ejc.
    + subst. simplify_eq. by rewrite (cnt_upto cmp valid es i e), (cnt_below cmp valid es i e).
    + rewrite (cnt_upto_below cmp valid); [done..|]. intros x Hx. by apply (merge_apart ess M c j es es' e x).
  - rewrite (cnt_none P M); [split; [done|by eexists]|].
    intros x (j & es & Hj & [n Hn]%list_elem_of_lookup_1)%(merge_elem ess). 2: done.
    apply not_true_iff_false. rewrite <- (cnt_lookup cmp valid P es n x) by (done || by eapply placed_sorted).
    intros Hlt. destruct (cnt P es) as [|i] eqn:Ec; [lia|]. pose proof (cnt_le P es).
    destruct (lookup_lt_is_Some_2 es i ltac:(lia)) as [y Hy]. specialize (Hck j es i y Hj Ec Hy).
    rewrite Hr in Hck by eauto. done.
Qed.

(** *** Operations *)

Lemma rep_placed (m : Merging.t cmp I) M p : Iterator.rep m M p ->
  exists ess f, merge_of ess M /\ placed (Merging.children_ m) ess f.
Proof. intros (ess & HM & Hp). destruct p as [i|]; [destruct Hp as (c & es & e & _ & _ & _ & _ & Hp)|destruct Hp as [_ [f Hp]]]; eauto. Qed.

(** The same move of every child. *)
Lemma each_child_move (op : W -> option W) (g : list entry -> option nat) ws ess f : placed ws ess f ->
  (forall w es p, Iterator.rep w es p -> exists w', op w = Some w' /\ Iterator.rep w' es (g es)) ->
  exists ws', Merging.each_child (fun _ => op) 0 ws = Some ws' /\ placed ws' ess (fun _ => g).
Proof. intros Hp Hop. apply (each_child_ok (fun _ => op) (fun _ => g)); [apply Hp|]. intros j w es Hw Hes. eapply Hop. by apply Hp. Qed.

Lemma down_closed_const (b : bool) : down_closed cmp valid (fun _ => b).
Proof. by intros ????. Qed.

Lemma Merging_SeekToFirst_ok (m : Merging.t cmp I) M p : Iterator.rep m M p ->
  exists m', Merging.SeekToFirst m = Some m' /\ Iterator.rep m' M (at_index M 0).
Proof.
  intros (ess & f & HM & Hp)%rep_placed. unfold Merging.SeekToFirst.
  destruct (each_child_move Iterator.SeekToFirst (fun es => at_index es (cnt (fun _ => false) es)) _ _ _ Hp) as (ws & -> & Hws).
  { intros w es q Hr. rewrite cnt_none by done. by apply (Iterator.l_SeekToFirst (cmp := cmp) (valid := valid) w es q). }
  bind_simpl. destruct (FindSmallest_ok ws ess M _ HM (down_closed_const false) Hws) as (cur & -> & Hr).
  bind_simpl. eexists. split; [done|]. by rewrite cnt_none in Hr.
Qed.

Lemma Merging_SeekToLast_ok (m : Merging.t cmp I) M p : Iterator.rep m M p ->
  exists m', Merging.SeekToLast m = Some m' /\ Iterator.rep m' M (before (length M)).
Proof.
  intros (ess & f & HM & Hp)%rep_placed. unfold Merging.SeekToLast.
  destruct (each_child_move Iterator.SeekToLast (fun es => before (cnt (fun _ => true) es)) _ _ _ Hp) as (ws & -> & Hws).
  { intros w es q Hr. rewrite cnt_all by done. by apply (Iterator.l_SeekToLast (cmp := cmp) (valid := valid) w es q). }
  bind_simpl. destruct (FindLargest_ok ws ess M _ HM (down_closed_const true) Hws) as (cur & -> & Hr).
  bind_simpl. eexists. split; [done|]. by rewrite cnt_all in Hr.
Qed.

Lemma Merging_Seek_ok t (m : Merging.t cmp I) M p : valid t -> Iterator.rep m M p ->
  exists m', Merging.Seek t m = Some m' /\ Iterator.rep m' M (at_index M (cnt (below cmp t) M)).
Proof.
  intros Ht (ess & f & HM & Hp)%rep_placed. unfold Merging.Seek.
  destruct (each_child_move (Iterator.Seek t) (fun es => at_index es (cnt (below cmp t) es)) _ _ _ Hp) as (ws & -> & Hws).
  { intros w es q Hr. by apply (Iterator.l_Seek (cmp := cmp) (valid := valid) t w es q). }
  bind_simpl. destruct (FindSmallest_ok ws ess M _ HM (below_down cmp valid t Ht) Hws) as (cur & -> & Hr).
  bind_simpl. by eexists.
Qed.

(** What [Next] and [Prev] start from. *)
Lemma Merging_at (m : Merging.t cmp I) M i : Iterator.rep m M (Some i) ->
  exists ess c es e, merge_of ess M /\ Merging.current_ m = Some c /\ M !! i = Some e /\ ess !! c = Some es /\ e ∈ es /\
    placed (Merging.children_ m) ess (place (Merging.direction_ m) e.1 c) /\ Merging.key m = Some e.1 /\
    Merging.value m = Some e.2 /\ valid e.1 /\ (exists n, es !! n = Some e /\ cnt (below cmp e.1) es = n).
Proof.
  intros (ess & HM & c & es & e & Ec & Hi & Hc & Hin & Hp). exists ess, c, es, e.
  destruct (placed_lookup _ _ _ _ _ Hp Hc) as (w & Hw & Hr). pose proof (placed_sorted _ _ _ _ _ Hp Hc) as Hs.
  apply list_elem_of_lookup_1 in Hin as Hn. destruct Hn as [n Hn].
  unfold place in Hr. rewrite bool_decide_true, (cnt_below cmp valid es n e) in Hr by done.
  unfold Merging.key, Merging.value, Merging.current. rewrite Ec. bind_simpl. rewrite Hw. bind_simpl.
  destruct (Iterator.l_key (cmp := cmp) (valid := valid) w es n e Hr Hn) as [Ek Ev].
  split_and!; try done; [by eapply (sorted_valid_at cmp)|]. exists n. split; [done|]. by apply (cnt_below cmp valid).
Qed.

(** [current_] moves from the entry it is at. *)
Lemma move_current_ok (op : W -> option W) ws ess d (g : list entry -> option nat) (c : nat) es (e : entry) n :
  placed ws ess (place d e.1 c) -> ess !! c = Some es -> cnt (below cmp e.1) es = n ->
  (forall w, Iterator.rep w es (Some n) -> exists w', op w = Some w' /\ Iterator.rep w' es (g es)) ->
  (forall j es', j <> c -> ess !! j = Some es' -> place d e.1 c j es' = g es') ->
  exists ws', Merging.move_current op c ws = Some ws' /\ placed ws' ess (fun _ => g).
Proof.
  intros Hp Hc Hn Hop Hg. destruct (placed_lookup _ _ _ _ _ Hp Hc) as (w & Hw & Hr).
  unfold place in Hr. rewrite bool_decide_true, Hn in Hr by done. destruct (Hop w Hr) as (w' & Eo & Hr').
  unfold Merging.move_current. rewrite Hw. bind_simpl. rewrite Eo. bind_simpl. eexists. split; [done|].
  by eapply placed_update.
Qed.

Lemma turn_forward_ok k c ws ess M d : valid k -> placed ws ess (place d k c) -> merge_of ess M ->
  (exists e es, ess !! c = Some es /\ e ∈ es /\ k = e.1) ->
  exists ws', Merging.each_child (Merging.turn_forward cmp k c) 0 ws = Some ws' /\ placed ws' ess (place kForward k c).
Proof.
  intros Hk Hp HM (e & es0 & Hc & He & ->). apply (each_child_ok _ (place kForward e.1 c)); [apply Hp|].
  intros j w es Hw Hes. cbn [Nat.add]. pose proof (proj2 Hp j w es Hw Hes) as Hr.
  unfold Merging.turn_forward, place in *. case_bool_decide as Ej; [by exists w|].
  destruct (Iterator.l_Seek (cmp := cmp) (valid := valid) e.1 w es _ Hk Hr) as (w' & -> & Hr'). bind_simpl.
  rewrite (Iterator.l_Valid _ _ _ Hr'). destruct (at_index _ _) as [n|] eqn:En; [|by exists w']. cbn [is_valid].
  destruct (lookup_lt_is_Some_2 es n (Iterator.l_bound _ _ _ Hr')) as [x Hx].
  destruct (Iterator.l_key (cmp := cmp) (valid := valid) w' es n x Hr' Hx) as [-> _]. bind_simpl.
  assert (cmp x.1 e.1 <> 0) as Hne by (apply (merge_apart ess M c j es0 es); try done; by eapply list_elem_of_lookup_2).
  rewrite (proj2 (Z.eqb_neq _ _)); [by exists w'|]. intros E. apply Hne, (to_flip_eq cmp valid); [|done..].
  eapply (sorted_valid_at cmp); [by eapply placed_sorted|done].
Qed.

Lemma turn_reverse_ok k c ws ess d : valid k -> placed ws ess (place d k c) ->
  exists ws', Merging.each_child (Merging.turn_reverse k c) 0 ws = Some ws' /\ placed ws' ess (place kReverse k c).
Proof.
  intros Hk Hp. apply (each_child_ok _ (place kReverse k c)); [apply Hp|].
  intros j w es Hw Hes. cbn [Nat.add]. pose proof (proj2 Hp j w es Hw Hes) as Hr.
  unfold Merging.turn_reverse, place in *. case_bool_decide as Ej; [by exists w|].
  destruct (Iterator.l_Seek (cmp := cmp) (valid := valid) k w es _ Hk Hr) as (w' & -> & Hr'). bind_simpl.
  rewrite (Iterator.l_Valid _ _ _ Hr'). destruct (at_index es (cnt (below cmp k) es)) as [n|] eqn:En; cbn [is_valid].
  - apply at_index_Some in En as [-> _]. by apply (Iterator.l_Prev (cmp := cmp) (valid := valid)).
  - destruct (Iterator.l_SeekToLast (cmp := cmp) (valid := valid) w' es None Hr') as (w2 & E & Hr2). exists w2. split; [done|].
    unfold at_index in En. destruct (Nat.ltb_spec (cnt (below cmp k) es) (length es)); [done|].
    pose proof (cnt_le (below cmp k) es). by replace (cnt (below cmp k) es) with (length es) by lia.
Qed.

Lemma Merging_Next_ok (m : Merging.t cmp I) M i : Iterator.rep m M (Some i) ->
  exists m', Merging.Next m = Some m' /\ Iterator.rep m' M (at_index M (S i)).
Proof.
  intros (ess & c & es & e & HM & Ec & Hi & Hc & Hin & Hp & Ek & _ & Hv & n & Hn & En)%Merging_at.
  unfold Merging.Next. rewrite Ec, Ek. bind_simpl.
  assert (exists ws, (if bool_decide (Merging.direction_ m = kForward) then Some (Merging.children_ m)
    else Merging.each_child (Merging.turn_forward cmp e.1 c) 0 (Merging.children_ m)) = Some ws /\
    placed ws ess (place kForward e.1 c)) as (ws & -> & Hws).
  { case_bool_decide as Ed; [rewrite Ed in Hp; eauto|]. eapply turn_forward_ok; eauto. }
  bind_simpl. destruct (move_current_ok Iterator.Next ws ess kForward (fun es => at_index es (cnt (upto cmp e.1) es)) c es e n)
    as (ws' & -> & Hws'); [done..| | |].
  { intros w Hr. rewrite (cnt_upto cmp valid es n e) by (done || by eapply placed_sorted).
    by apply (Iterator.l_Next (cmp := cmp) (valid := valid)). }
  { intros j es' Hj Hes. unfold place. rewrite bool_decide_false by done.
    rewrite (cnt_upto_below cmp valid); [done|by eapply placed_sorted|done|].
    intros x Hx. by apply (merge_apart ess M c j es es' e x). }
  bind_simpl. destruct (FindSmallest_ok ws' ess M _ HM (upto_down cmp valid e.1 Hv) Hws') as (cur & -> & Hr).
  bind_simpl. eexists. split; [done|]. by rewrite (cnt_upto cmp valid M i e) in Hr by (done || apply HM).
Qed.

Lemma Merging_Prev_ok (m : Merging.t cmp I) M i : Iterator.rep m M (Some i) ->
  exists m', Merging.Prev m = Some m' /\ Iterator.rep m' M (before i).
Proof.
  intros (ess & c & es & e & HM & Ec & Hi & Hc & Hin & Hp & Ek & _ & Hv & n & Hn & En)%Merging_at.
  unfold Merging.Prev. rewrite Ec, Ek. bind_simpl.
  assert (exists ws, (if bool_decide (Merging.direction_ m = kReverse) then Some (Merging.children_ m)
    else Merging.each_child (Merging.turn_reverse e.1 c) 0 (Merging.children_ m)) = Some ws /\
    placed ws ess (place kReverse e.1 c)) as (ws & -> & Hws).
  { case_bool_decide as Ed; [rewrite Ed in Hp; eauto|]. by eapply turn_reverse_ok. }
  bind_simpl. destruct (move_current_ok Iterator.Prev ws ess kReverse (fun es => before (cnt (below cmp e.1) es)) c es e n)
    as (ws' & -> & Hws'); [done..| | |].
  { intros w Hr. rewrite En. by apply (Iterator.l_Prev (cmp := cmp) (valid := valid)). }
  { intros j es' Hj Hes. unfold place. by rewrite bool_decide_false by done. }
  bind_simpl. destruct (FindLargest_ok ws' ess M _ HM (below_down cmp valid e.1 Hv) Hws') as (cur & -> & Hr).
  bind_simpl. eexists. split; [done|]. by rewrite (cnt_below cmp valid M i e) in Hr by (done || apply HM).
Qed.

#[global] Instance Merging_laws : Iterator.Laws cmp valid (Merging.t cmp I).
Proof.
  split.
  - intros m M p (ess & f & HM & _)%rep_placed. apply HM.
  - intros m M i (ess & HM & c & es & e & _ & Hi & _). by eapply lookup_lt_Some.
  - intros m M [i|] (ess & HM & H'); cbn; unfold Merging.Valid.
    + by destruct H' as (c & es & e & -> & _).
    + by destruct H' as [-> _].
  - intros m M i e (ess & c & es & e' & HM & _ & Hi & _ & _ & _ & Ek & Ev & _)%Merging_at He. by simplify_eq.
  - apply Merging_SeekToFirst_ok.
  - apply Merging_SeekToLast_ok.
  - apply Merging_Seek_ok.
  - apply Merging_Next_ok.
  - apply Merging_Prev_ok.
Qed.

Lemma status_loop_ok `{!Iterator.StatusLaws I} ws s : (forall w, w ∈ ws -> exists es p, Iterator.rep w es p) ->
  exists s', Merging.status_loop ws s = Some s'.
Proof.
  revert s. induction ws as [|w ws IH]; intros s Hws; cbn [Merging.status_loop]; [eauto|].
  destruct (Hws w ltac:(left)) as (es & p & Hr). destruct (Iterator.l_status w es p Hr) as [s' ->]. bind_simpl.
  destruct (negb (ok s')); [eauto|]. apply IH. intros. apply Hws. by right.
Qed.

#[global] Instance Merging_status `{!Iterator.StatusLaws I} : Iterator.StatusLaws (Merging.t cmp I).
Proof.
  intros m M p (ess & f & _ & Hl & Hp)%rep_placed. apply status_loop_ok. intros w [j Hj]%list_elem_of_lookup_1.
  destruct (lookup_lt_is_Some_2 ess j) as [es Hes]; [apply lookup_lt_Some in Hj; lia|]. eauto.
Qed.

(** *** Construction *)

Lemma wrap_all_ok iters ess : Forall2 (fun it es => exists p, Iterator.rep it es p) iters ess ->
  exists ws f, Merging.wrap_all iters = Some ws /\ placed ws ess f.
Proof.
  intros Hf. assert (exists ws, Merging.wrap_all iters = Some ws /\ length ws = length ess /\
    forall j w es, ws !! j = Some w -> ess !! j = Some es -> exists p, Iterator.rep w es p) as (ws & E & Hl & Hws).
  { induction Hf as [|it es iters ess [p Hp] Hf (ws & E & Hl & Hws)]; [by exists []|]. cbn [Merging.wrap_all].
    destruct (Wrapper_Set_ok cmp valid Wrapper_null it es p Hp) as (w & -> & Hw). bind_simpl. rewrite E. bind_simpl.
    exists (w :: ws). split; [done|]. split; [cbn; by f_equal|]. intros [|j] u fs Hu Hfs; cbn in Hu, Hfs; simplify_eq; eauto. }
  exists ws, (fun j es => match ws !! j with Some w => if Iterator.Valid w then Some (cnt (below cmp (key_ w)) es) else None | None => None end).
  split; [done|]. split; [done|]. intros j w es Hj Hes. destruct (Hws j w es Hj Hes) as [p Hr]. rewrite Hj.
  rewrite (Iterator.l_Valid _ _ _ Hr). destruct p as [i|]; [|done]. cbn [is_valid].
  destruct (lookup_lt_is_Some_2 es i (Iterator.l_bound _ _ _ Hr)) as [e He].
  pose proof Hr as (it & _ & _ & _ & Hk). rewrite (Hk i e eq_refl He), (cnt_below cmp valid es i e); [done| |done].
  exact (Iterator.l_sorted _ _ _ Hr).
Qed.

Lemma NewMergingIterator_ok (iters : list I) ess M : Forall2 (fun it es => exists p, Iterator.rep it es p) iters ess ->
  merge_of ess M -> exists it p, NewMergingIterator cmp iters = Some it /\ Iterator.rep it M p.
Proof.
  intros Hf HM. pose proof HM as [Hs Hperm]. destruct Hf as [|it es iters ess [p Hp] Hf].
  - exists (inl NewEmptyIterator), None. split; [done|]. cbn in Hperm. by apply Permutation_nil_r in Hperm.
  - destruct Hf as [|it2 es2 iters ess [p2 Hp2] Hf].
    + exists (inr (inl it)), p. split; [done|]. cbn in Hperm. rewrite app_nil_r in Hperm.
      replace M with es; [done|]. symmetry. apply (sorted_entries_unique cmp valid); [done|exact (Iterator.l_sorted _ _ _ Hp)|done].
    + destruct (wrap_all_ok (it :: it2 :: iters) (es :: es2 :: ess)) as (ws & f & E & Hws); [constructor; [eauto|]; constructor; eauto|].
      exists (inr (inr (Merging.Mk ws None kForward))), None. cbn [NewMergingIterator]. unfold Merging.new. rewrite E.
      split; [done|]. eexists. split; [done|]. split; [done|by eexists].
Qed.
End Laws.

(** ** Properties *)

(** C12: A merging iterator over children that meet the iterator laws behaves as an
    iterator over the sorted union of their entries (keys differ between
    children): construction succeeds, and after any sequence of [SeekToFirst],
    [SeekToLast], [Seek], [Next] and [Prev] that the interface allows, changes of
    direction included, no assertion has failed and [Valid], [key] and [value]
    show the entry the same calls reach in that sorted list. *)
Theorem MergingIterator_correct (cmp : bytes -> bytes -> Z) (valid : bytes -> Prop) `{!TotalPreorder cmp valid}
    {I : Type} `{!Iterator.Ops I} `{!Iterator.Model I} `{!Iterator.Laws cmp valid I}
    (iters : list I) (ess : list (list entry)) (M : list entry) (mvs : list move) (q : option nat) :
  Forall2 (fun it es => exists p, Iterator.rep it es p) iters ess ->
  sorted_entries cmp valid M -> M ≡ₚ concat ess ->
  Forall (move_ok valid) mvs -> spec_moves cmp M mvs (at_index M 0) = Some q ->
  exists it it', NewMergingIterator cmp iters = Some it /\
    do_moves (MSeekToFirst :: mvs) it = Some it' /\
    observe it' = Some (i ← q; M !! i).
Proof.
  intros Hf Hs HM Hok Hq. destruct (NewMergingIterator_ok cmp valid iters ess M Hf (conj Hs HM)) as (it & p & E & Hr).
  destruct (moves_observe cmp valid (MSeekToFirst :: mvs) it M p q) as (it' & Em & Eo).
  - by constructor.
  - done.
  - done.
  - by exists it, it'.
Qed.

Lemma MergingIterator_correct_witness :
  let iters := [sample_iter [sample_file 7 "f" "h"]; sample_iter []; sample_iter [sample_file 4 "b" "d"]] in
  exists it it', NewMergingIterator (InternalKeyCompare BytewiseComparator) iters = Some it /\
    do_moves [MSeekToFirst; MNext; MPrev; MNext] it = Some it' /\
    observe it' = Some (Some (level_entry (sample_file 7 "f" "h"))).
Proof.
  apply (MergingIterator_correct (InternalKeyCompare BytewiseComparator) internal_ok
    [sample_iter [sample_file 7 "f" "h"]; sample_iter []; sample_iter [sample_file 4 "b" "d"]]
    [map level_entry [sample_file 7 "f" "h"]; []; map level_entry [sample_file 4 "b" "d"]] (map level_entry sample_level)
    [MNext; MPrev; MNext] (Some 1%nat)).
  - repeat constructor; exists None; apply (sample_iter_rep); [right; left; eexists; split; [|done]; unfold sample_level; set_solver
      |by right; right|right; left; eexists; split; [|done]; unfold sample_level; set_solver].
  - exact (Iterator.l_sorted _ _ _ (sample_iter_rep sample_level (or_introl eq_refl))).
  - apply Permutation_swap.
  - repeat constructor.
  - reflexivity.
Defined.
