(* ===== verification/TwoLevel.v ===== *)
(** table/two_level_iterator.{h,cpp}: the iterator over the blocks an index names.

    The index iterator walks (separator, handle) entries and [block_function]
    opens the block of a handle (the reader of a table's blocks, or the opener of
    a level's files); it is part of the iterator's type here.  The loops that skip
    empty blocks take fuel: one round per index entry.  [status()] has no
    [return] on its last path, which is undefined behaviour: [None]. *)

From Stdlib Require Import ZArith Lia List Bool String Sorting.Sorted.
From S2P Require Import Prelude Lists Slice Comparator DbFormat VersionEdit Version Iterators InternalIters.

Record TwoLevelIterator {X D : Type} (block_function : bytes -> option D) (fuel : nat) := MkTwoLevel {
  tl_status_ : Status;
  index_iter_ : IteratorWrapper X;
  data_iter_ : IteratorWrapper D;
  data_block_handle_ : bytes
}.
Arguments MkTwoLevel {X D block_function fuel}.
Arguments tl_status_ {X D block_function fuel}.
Arguments index_iter_ {X D block_function fuel}.
Arguments data_iter_ {X D block_function fuel}.
Arguments data_block_handle_ {X D block_function fuel}.

Module TwoLevel.
Section TwoLevel.
Context {X D : Type} `{!Iterator.Ops X} `{!Iterator.Ops D} {block_function : bytes -> option D} {fuel : nat}.
Abbreviation t := (TwoLevelIterator (X := X) block_function fuel).

(** NewTwoLevelIterator *)
Definition new (index_iter : X) : option t :=
  w ← Wrapper_Set Wrapper_null (Some index_iter);
  Some (MkTwoLevel Status_OK w Wrapper_null []).

Definition with_index (it : t) (w : IteratorWrapper X) : t :=
  MkTwoLevel (tl_status_ it) w (data_iter_ it) (data_block_handle_ it).

Definition with_data (it : t) (w : IteratorWrapper D) : t :=
  MkTwoLevel (tl_status_ it) (index_iter_ it) w (data_block_handle_ it).

Definition SaveError (status s : Status) : Status := if ok status && negb (ok s) then s else status.

Definition has_data (it : t) : bool := match iter_ (data_iter_ it) with Some _ => true | None => false end.

Definition SetDataIterator (it : t) (data_iter : option D) : option t :=
  s ← (if has_data it then s ← Iterator.status (data_iter_ it); Some (SaveError (tl_status_ it) s)
       else Some (tl_status_ it));
  w ← Wrapper_Set (data_iter_ it) data_iter;
  Some (MkTwoLevel s (index_iter_ it) w (data_block_handle_ it)).

Definition InitDataBlock (it : t) : option t :=
  if negb (Iterator.Valid (index_iter_ it)) then SetDataIterator it None
  else
    handle ← Iterator.value (index_iter_ it);
    if has_data it && (Slice.compare handle (data_block_handle_ it) =? 0) then Some it
    else
      SetDataIterator (MkTwoLevel (tl_status_ it) (index_iter_ it) (data_iter_ it) handle) (block_function handle).

(** [if (data_iter_.iter() != NULL) data_iter_.op();] *)
Definition on_data (op : IteratorWrapper D -> option (IteratorWrapper D)) (it : t) : option t :=
  if has_data it then w ← op (data_iter_ it); Some (with_data it w) else Some it.

Definition on_index (op : IteratorWrapper X -> option (IteratorWrapper X)) (it : t) : option t :=
  w ← op (index_iter_ it); Some (with_index it w).

Fixpoint SkipEmptyDataBlocksForward (n : nat) (it : t) : option t :=
  match n with
  | O => None
  | S n =>
      if has_data it && Iterator.Valid (data_iter_ it) then Some it
      else if negb (Iterator.Valid (index_iter_ it)) then SetDataIterator it None
      else
        it ← on_index Iterator.Next it;
        it ← InitDataBlock it;
        it ← on_data Iterator.SeekToFirst it;
        SkipEmptyDataBlocksForward n it
  end.

Fixpoint SkipEmptyDataBlocksBackward (n : nat) (it : t) : option t :=
  match n with
  | O => None
  | S n =>
      if has_data it && Iterator.Valid (data_iter_ it) then Some it
      else if negb (Iterator.Valid (index_iter_ it)) then SetDataIterator it None
      else
        it ← on_index Iterator.Prev it;
        it ← InitDataBlock it;
        it ← on_data Iterator.SeekToLast it;
        SkipEmptyDataBlocksBackward n it
  end.

Definition Seek (target : bytes) (it : t) : option t :=
  it ← on_index (Iterator.Seek target) it;
  it ← InitDataBlock it;
  it ← on_data (Iterator.Seek target) it;
  SkipEmptyDataBlocksForward fuel it.

Definition SeekToFirst (it : t) : option t :=
  it ← on_index Iterator.SeekToFirst it;
  it ← InitDataBlock it;
  it ← on_data Iterator.SeekToFirst it;
  SkipEmptyDataBlocksForward fuel it.

Definition SeekToLast (it : t) : option t :=
  it ← on_index Iterator.SeekToLast it;
  it ← InitDataBlock it;
  it ← on_data Iterator.SeekToLast it;
  SkipEmptyDataBlocksBackward fuel it.

Definition Next (it : t) : option t :=
  if negb (Iterator.Valid (data_iter_ it)) then None
  else w ← Iterator.Next (data_iter_ it); SkipEmptyDataBlocksForward fuel (with_data it w).

Definition Prev (it : t) : option t :=
  if negb (Iterator.Valid (data_iter_ it)) then None
  else w ← Iterator.Prev (data_iter_ it); SkipEmptyDataBlocksBackward fuel (with_data it w).

(** The last branch of [status] evaluates [status_] and does not return it. *)
Definition status (it : t) : option Status :=
  s ← Iterator.status (index_iter_ it);
  if negb (ok s) then Some s
  else if has_data it then
    s ← Iterator.status (data_iter_ it);
    if negb (ok s) then Some s else None
  else None.

#[global] Instance ops : Iterator.Ops t := {
  Iterator.Valid := fun it => Iterator.Valid (data_iter_ it);
  Iterator.SeekToFirst := SeekToFirst; Iterator.SeekToLast := SeekToLast; Iterator.Seek := Seek;
  Iterator.Next := Next; Iterator.Prev := Prev;
  Iterator.key := fun it => Iterator.key (data_iter_ it);
  Iterator.value := fun it => Iterator.value (data_iter_ it);
  Iterator.status := status
}.
End TwoLevel.
End TwoLevel.

(** ** Lemmas *)

Section Laws.
Context (cmp : bytes -> bytes -> Z) (valid : bytes -> Prop) `{!TotalPreorder cmp valid}.
Context {X D : Type} `{!Iterator.Ops X} `{!Iterator.Model X} `{!Iterator.Laws cmp valid X}.
Context `{!Iterator.Ops D} `{!Iterator.Model D} `{!Iterator.Laws cmp valid D} `{!Iterator.StatusLaws D}.
Context {block_function : bytes -> option D} {fuel : nat}.
Abbreviation t := (TwoLevelIterator (X := X) block_function fuel).
Implicit Types (it : t) (idx : list entry) (cont : bytes -> list entry).

(** The entries of the blocks an index names, and where those of block [j] start. *)
Definition blocks cont idx : list (list entry) := map (fun e => cont e.2) idx.
Definition all_entries cont idx : list entry := concat (blocks cont idx).
Definition offset cont idx (j : nat) : nat := length (concat (take j (blocks cont idx))).

(** Every handle opens its block; the key of an index entry is at or past the
    block's keys and before those of the blocks after it. *)
Record index_ok cont idx : Prop := {
  io_open : forall e, e ∈ idx -> exists d p, block_function e.2 = Some d /\ Iterator.rep d (cont e.2) p;
  io_upper : forall e x, e ∈ idx -> x ∈ cont e.2 -> cmp x.1 e.1 <= 0;
  io_lower : forall i j e e' x, (i < j)%nat -> idx !! i = Some e -> idx !! j = Some e' -> x ∈ cont e'.2 -> cmp e.1 x.1 < 0;
  io_fuel : (S (S (length idx)) < fuel)%nat
}.

(** [q] is the position of the index, [dq] the handle and the position of the data. *)
Definition inside cont idx it (q : option nat) (dq : option (bytes * option nat)) : Prop :=
  Iterator.rep (index_iter_ it) idx q /\
  match dq with
  | None => iter_ (data_iter_ it) = None /\ valid_ (data_iter_ it) = false
  | Some (h, n) => data_block_handle_ it = h /\ Iterator.rep (data_iter_ it) (cont h) n
  end.

#[global] Instance TwoLevel_model : Iterator.Model t := fun it es p =>
  exists cont idx, index_ok cont idx /\ es = all_entries cont idx /\
    match p with
    | None => exists q, inside cont idx it q None
    | Some i => exists j e n, idx !! j = Some e /\ (n < length (cont e.2))%nat /\ i = (offset cont idx j + n)%nat /\
        inside cont idx it (Some j) (Some (e.2, Some n))
    end.

(** *** Entries of blocks *)

Lemma blocks_split cont idx j e : idx !! j = Some e ->
  all_entries cont idx = concat (take j (blocks cont idx)) ++ cont e.2 ++ concat (drop (S j) (blocks cont idx)).
Proof.
  intros Hj. unfold all_entries. rewrite <- (take_drop_middle (blocks cont idx) j (cont e.2)) at 1.
  - by rewrite concat_app.
  - unfold blocks. by rewrite list_lookup_fmap, Hj.
Qed.

Lemma offset_S cont idx j e : idx !! j = Some e -> offset cont idx (S j) = (offset cont idx j + length (cont e.2))%nat.
Proof.
  intros Hj. unfold offset. erewrite take_S_r; [|unfold blocks; by rewrite list_lookup_fmap, Hj].
  rewrite concat_app, length_app. cbn. by rewrite app_nil_r.
Qed.

Lemma offset_all cont idx : offset cont idx (length idx) = length (all_entries cont idx).
Proof. unfold offset, all_entries. rewrite firstn_all2; [done|]. unfold blocks. by rewrite length_map. Qed.

Lemma block_lookup cont idx j e n : idx !! j = Some e -> (n < length (cont e.2))%nat ->
  all_entries cont idx !! (offset cont idx j + n)%nat = cont e.2 !! n.
Proof.
  intros Hj Hn. rewrite (blocks_split cont idx j e Hj). unfold offset. rewrite lookup_app_r by lia.
  rewrite lookup_app_l by lia. f_equal. lia.
Qed.

Lemma offset_lt cont idx j e n : idx !! j = Some e -> (n < length (cont e.2))%nat ->
  (offset cont idx j + n < length (all_entries cont idx))%nat.
Proof. intros Hj Hn. eapply lookup_lt_is_Some_1. rewrite (block_lookup cont idx j e n Hj Hn). by apply lookup_lt_is_Some_2. Qed.

Lemma elem_of_blocks cont idx (l : list (list entry)) (f : nat -> nat) x :
  (forall i b, l !! i = Some b -> blocks cont idx !! f i = Some b) ->
  x ∈ concat l -> exists i e, (i < length l)%nat /\ idx !! f i = Some e /\ x ∈ cont e.2.
Proof.
  intros Hl (b & [i Hi]%list_elem_of_In%list_elem_of_lookup & Hx%list_elem_of_In)%list_elem_of_In%in_concat.
  pose proof (Hl i b Hi) as Hb. unfold blocks in Hb. rewrite list_lookup_fmap in Hb.
  destruct (idx !! f i) as [e|] eqn:Ee; [|done]. injection Hb as <-. exists i, e. split; [by eapply lookup_lt_Some|done].
Qed.

Lemma elem_of_before cont idx j x : x ∈ concat (take j (blocks cont idx)) ->
  exists i e, (i < j)%nat /\ idx !! i = Some e /\ x ∈ cont e.2.
Proof.
  intros (i & e & Hi & He & Hx)%(elem_of_blocks cont idx _ (fun i => i)).
  - exists i, e. split; [|done]. rewrite length_take in Hi. lia.
  - intros i b Hb. apply lookup_take_Some in Hb. tauto.
Qed.

Lemma elem_of_after cont idx j x : x ∈ concat (drop j (blocks cont idx)) ->
  exists i e, (j <= i)%nat /\ idx !! i = Some e /\ x ∈ cont e.2.
Proof.
  intros (i & e & Hi & He & Hx)%(elem_of_blocks cont idx _ (fun i => (j + i)%nat)).
  - exists (j + i)%nat, e. split; [lia|done].
  - intros i b Hb. by rewrite lookup_drop in Hb.
Qed.

Lemma elem_of_all cont idx x : x ∈ all_entries cont idx -> exists i e, idx !! i = Some e /\ x ∈ cont e.2.
Proof.
  intros (i & e & _ & He & Hx)%(elem_of_blocks cont idx _ (fun i => i)); [eauto|done].
Qed.

Lemma block_sorted cont idx e : index_ok cont idx -> e ∈ idx -> sorted_entries cmp valid (cont e.2).
Proof. intros Hok He. destruct (io_open _ _ Hok e He) as (d & p & _ & Hr). exact (Iterator.l_sorted _ _ _ Hr). Qed.

(** The entries of the blocks are sorted. *)
Lemma all_sorted cont idx : index_ok cont idx -> sorted_entries cmp valid idx -> sorted_entries cmp valid (all_entries cont idx).
Proof.
  intros Hok Hidx. split.
  - apply Forall_forall. intros x (i & e & He%list_elem_of_lookup_2 & Hx)%elem_of_all.
    eapply sorted_valid; [by eapply block_sorted|done].
  - assert (forall j, (j <= length idx)%nat -> StronglySorted (fun a b => cmp a.1 b.1 < 0) (concat (take j (blocks cont idx)))) as Hj.
    { induction j as [|j IH]; intros Hj; [constructor|]. destruct (lookup_lt_is_Some_2 idx j ltac:(lia)) as [e He].
      erewrite take_S_r; [|unfold blocks; by rewrite list_lookup_fmap, He]. rewrite concat_app. cbn [concat]. rewrite app_nil_r.
      assert (e ∈ idx) as Hein by (by eapply list_elem_of_lookup_2).
      apply StronglySorted_app_intro; [apply IH; lia|by apply (block_sorted _ _ _ Hok)|].
      intros x y (i & e' & Hi & He' & Hx)%elem_of_before Hy. assert (e' ∈ idx) as Hein' by (by eapply list_elem_of_lookup_2).
      apply (to_le_lt_trans cmp valid x.1 e'.1 y.1).
      - eapply sorted_valid; [by apply (block_sorted cont idx e')|done].
      - by eapply sorted_valid.
      - eapply sorted_valid; [by apply (block_sorted cont idx e)|done].
      - by apply (io_upper _ _ Hok e' x).
      - by apply (io_lower _ _ Hok i j e' e y). }
    specialize (Hj (length idx) ltac:(lia)). rewrite firstn_all2 in Hj; [done|]. unfold blocks. by rewrite length_map.
Qed.

(** The first entry at or past [k] is in the block of the first separator at or past it. *)
Lemma cnt_all_entries cont idx k : index_ok cont idx -> sorted_entries cmp valid idx -> valid k ->
  cnt (below cmp k) (all_entries cont idx) =
  match idx !! cnt (below cmp k) idx with
  | Some e => (offset cont idx (cnt (below cmp k) idx) + cnt (below cmp k) (cont e.2))%nat
  | None => length (all_entries cont idx)
  end.
Proof.
  intros Hok Hidx Hk. set (j := cnt (below cmp k) idx).
  assert (forall i e x, idx !! i = Some e -> x ∈ cont e.2 -> (i < j)%nat -> cmp x.1 k < 0) as Hlow.
  { intros i e x He Hx Hi. assert (e ∈ idx) as Hin by (by eapply list_elem_of_lookup_2).
    apply (cnt_lookup cmp valid (below cmp k) idx i e) in Hi as Hlt%Z.ltb_lt; [|done|by apply (below_down cmp valid)|done].
    apply (to_le_lt_trans cmp valid x.1 e.1 k); try done;
      [eapply sorted_valid; [by apply (block_sorted cont idx e)|done]|by eapply sorted_valid|by apply (io_upper _ _ Hok e x)]. }
  destruct (idx !! j) as [e|] eqn:He.
  - rewrite (blocks_split cont idx j e He), !cnt_app. unfold offset. rewrite cnt_all.
    2:{ intros x (i & e' & Hi & He' & Hx)%elem_of_before. apply Z.ltb_lt. by apply (Hlow i e' x). }
    rewrite (cnt_none _ (concat (drop _ _))); [lia|]. intros x (i & e' & Hi & He' & Hx)%elem_of_after. apply Z.ltb_ge.
    assert (~ (below cmp k e.1 = true)) as Hjj.
    { rewrite <- (cnt_lookup cmp valid (below cmp k) idx j e); [unfold j; lia|done|by apply (below_down cmp valid)|done]. }
    unfold below in Hjj. rewrite Z.ltb_lt in Hjj.
    assert (valid e.1 /\ valid x.1) as [Hve Hvx].
    { split; [by eapply (sorted_valid_at cmp)|]. eapply sorted_valid; [apply (block_sorted cont idx e' Hok); by eapply list_elem_of_lookup_2|done]. }
    apply Z.lt_le_incl, Z.gt_lt, (to_flip_lt cmp valid); [done..|]. apply (to_le_lt_trans cmp valid k e.1 x.1); try done.
    + apply (to_flip_le cmp valid); [done..|lia].
    + by apply (io_lower _ _ Hok j i e e' x).
  - apply cnt_all. intros x (i & e & He' & Hx)%elem_of_all. apply Z.ltb_lt. apply (Hlow i e x He' Hx).
    apply lookup_ge_None in He. apply lookup_lt_Some in He'. lia.
Qed.

(** *** The data iterator *)

Lemma has_data_inside cont idx it q dq : inside cont idx it q dq ->
  TwoLevel.has_data it = match dq with Some _ => true | None => false end.
Proof.
  intros [_ Hd]. unfold TwoLevel.has_data. destruct dq as [[h n]|].
  - destruct Hd as (_ & d & -> & _). done.
  - by destruct Hd as [-> _].
Qed.

(** The status of the data iterator, if there is one, can be read. *)
Definition closable it : Prop := TwoLevel.has_data it = true -> exists es n, Iterator.rep (data_iter_ it) es n.

Lemma inside_closable cont idx it q dq : inside cont idx it q dq -> closable it.
Proof.
  intros Hin. intros Hd. rewrite (has_data_inside _ _ _ _ _ Hin) in Hd. destruct Hin as [_ Hin].
  destruct dq as [[h n]|]; [|done]. destruct Hin as [_ Hin]. eauto.
Qed.

Lemma SetDataIterator_eq it d : closable it ->
  exists s, TwoLevel.SetDataIterator it d =
    (w ← Wrapper_Set (data_iter_ it) d; Some (MkTwoLevel s (index_iter_ it) w (data_block_handle_ it))).
Proof.
  intros Hc. unfold TwoLevel.SetDataIterator. destruct (TwoLevel.has_data it) eqn:E; [|by eexists].
  destruct (Hc E) as (es & n & Hr). destruct (Iterator.l_status _ _ _ Hr) as [s ->]. by eexists.
Qed.

Lemma SetDataIterator_ok cont idx it q d h n : Iterator.rep (index_iter_ it) idx q -> closable it ->
  data_block_handle_ it = h -> Iterator.rep d (cont h) n ->
  exists it', TwoLevel.SetDataIterator it (Some d) = Some it' /\ inside cont idx it' q (Some (h, n)).
Proof.
  intros Hq Hc Hh Hr. destruct (SetDataIterator_eq it (Some d) Hc) as [s ->].
  destruct (Wrapper_Set_ok cmp valid (data_iter_ it) d (cont h) n Hr) as (w & -> & Hw). bind_simpl.
  eexists. split; [done|]. by split.
Qed.

Lemma SetDataIterator_null cont idx it q dq : inside cont idx it q dq ->
  exists it', TwoLevel.SetDataIterator it None = Some it' /\ inside cont idx it' q None.
Proof.
  intros Hin. destruct (SetDataIterator_eq it None (inside_closable _ _ _ _ _ Hin)) as [s ->].
  eexists. split; [done|]. split; [apply Hin|done].
Qed.

(** After [InitDataBlock] the data iterator is over the block of the index. *)
Definition opened idx (q : option nat) (dq : option (bytes * option nat)) : Prop :=
  match q with
  | None => dq = None
  | Some j => exists e n, idx !! j = Some e /\ dq = Some (e.2, n)
  end.

Lemma InitDataBlock_ok cont idx it q dq : index_ok cont idx -> inside cont idx it q dq ->
  exists it' dq', TwoLevel.InitDataBlock it = Some it' /\ inside cont idx it' q dq' /\ opened idx q dq'.
Proof.
  intros Hok Hin. unfold TwoLevel.InitDataBlock. rewrite (has_data_inside _ _ _ _ _ Hin). pose proof Hin as [Hq Hd].
  rewrite (Iterator.l_Valid _ _ _ Hq). destruct q as [j|]; cbn [is_valid negb].
  2:{ destruct (SetDataIterator_null _ _ _ _ _ Hin) as (it' & E & Hin'). by exists it', None. }
  destruct (lookup_lt_is_Some_2 idx j (Iterator.l_bound _ _ _ Hq)) as [e He].
  destruct (Iterator.l_key (cmp := cmp) (valid := valid) _ _ _ _ Hq He) as [_ ->]. bind_simpl.
  assert (e ∈ idx) as Hein by (by eapply list_elem_of_lookup_2).
  destruct (_ && _) eqn:Esame.
  - destruct dq as [[h n]|]; [|done]. rewrite Slice_compare_lex in Esame. apply Z.eqb_eq, lex_compare_eq in Esame.
    exists it, (Some (h, n)). split_and!; [done..|]. exists e, n. split; [done|]. destruct Hd as [Hh _]. by rewrite Esame, Hh.
  - destruct (io_open _ _ Hok e Hein) as (d & p & -> & Hr).
    destruct (SetDataIterator_ok cont idx (MkTwoLevel (tl_status_ it) (index_iter_ it) (data_iter_ it) e.2) (Some j) d e.2 p Hq)
      as (it' & E & Hin'); [exact (inside_closable _ _ _ _ _ Hin)|done|done|].
    exists it', (Some (e.2, p)). split_and!; [done..|]. by exists e, p.
Qed.

(** A move of the index, the block opened, and a move of the data. *)
Lemma reposition_ok (iop : IteratorWrapper X -> option (IteratorWrapper X)) (dop : IteratorWrapper D -> option (IteratorWrapper D))
    (g : list entry -> option nat) cont idx it q0 dq0 q :
  index_ok cont idx -> inside cont idx it q0 dq0 ->
  (exists w, iop (index_iter_ it) = Some w /\ Iterator.rep w idx q) ->
  (forall w es n, Iterator.rep w es n -> exists w', dop w = Some w' /\ Iterator.rep w' es (g es)) ->
  exists it', (it ← TwoLevel.on_index iop it; it ← TwoLevel.InitDataBlock it; TwoLevel.on_data dop it) = Some it' /\
    inside cont idx it' q (match q with Some j => e ← idx !! j; Some (e.2, g (cont e.2)) | None => None end).
Proof.
  intros Hok [_ Hd] (w & E & Hw) Hdop. unfold TwoLevel.on_index. rewrite E. bind_simpl.
  destruct (InitDataBlock_ok cont idx (TwoLevel.with_index it w) q dq0 Hok ltac:(by split)) as (it1 & dq1 & -> & Hin & Ho).
  bind_simpl. unfold TwoLevel.on_data. rewrite (has_data_inside _ _ _ _ _ Hin). destruct q as [j|]; cbn in Ho.
  - destruct Ho as (e & n & He & ->). destruct Hin as [Hq [Hh Hr]]. destruct (Hdop _ _ _ Hr) as (w' & -> & Hw'). bind_simpl.
    rewrite He. bind_simpl. eexists. split; [done|]. by split.
  - subst dq1. by eexists.
Qed.

(** *** Skipping empty blocks *)

Lemma rep_at cont idx it j e n : index_ok cont idx -> idx !! j = Some e -> (n < length (cont e.2))%nat ->
  inside cont idx it (Some j) (Some (e.2, Some n)) ->
  Iterator.rep it (all_entries cont idx) (Some (offset cont idx j + n)%nat).
Proof. intros Hok He Hn Hin. exists cont, idx. split_and!; [done..|]. by exists j, e, n. Qed.

Lemma rep_end cont idx it q : index_ok cont idx -> inside cont idx it q None -> Iterator.rep it (all_entries cont idx) None.
Proof. intros Hok Hin. exists cont, idx. split_and!; [done..|]. by exists q. Qed.

Lemma skip_valid cont idx it q e n : inside cont idx it q (Some (e, n)) -> Iterator.Valid (data_iter_ it) = is_valid n.
Proof. intros [_ [_ Hr]]. exact (Iterator.l_Valid _ _ _ Hr). Qed.

Lemma skip_null cont idx it q : inside cont idx it q None -> Iterator.Valid (data_iter_ it) = false.
Proof. by intros [_ [_ Hv]]. Qed.

(** The index has run off its end. *)
Lemma SkipForward_null cont idx k it : (0 < k)%nat -> index_ok cont idx -> inside cont idx it None None ->
  exists it', TwoLevel.SkipEmptyDataBlocksForward k it = Some it' /\ Iterator.rep it' (all_entries cont idx) None.
Proof.
  intros Hk Hok Hin. destruct k as [|k]; [lia|]. cbn [TwoLevel.SkipEmptyDataBlocksForward]. rewrite (has_data_inside _ _ _ _ _ Hin). cbn [andb].
  pose proof Hin as [Hq _]. rewrite (Iterator.l_Valid _ _ _ Hq). cbn [is_valid negb].
  destruct (SetDataIterator_null _ _ _ _ _ Hin) as (it' & -> & Hin'). exists it'. split; [done|]. by eapply rep_end.
Qed.

Lemma SkipBackward_null cont idx k it : (0 < k)%nat -> index_ok cont idx -> inside cont idx it None None ->
  exists it', TwoLevel.SkipEmptyDataBlocksBackward k it = Some it' /\ Iterator.rep it' (all_entries cont idx) None.
Proof.
  intros Hk Hok Hin. destruct k as [|k]; [lia|]. cbn [TwoLevel.SkipEmptyDataBlocksBackward]. rewrite (has_data_inside _ _ _ _ _ Hin). cbn [andb].
  pose proof Hin as [Hq _]. rewrite (Iterator.l_Valid _ _ _ Hq). cbn [is_valid negb].
  destruct (SetDataIterator_null _ _ _ _ _ Hin) as (it' & -> & Hin'). exists it'. split; [done|]. by eapply rep_end.
Qed.

(** Where the iterator goes from position [n] of block [j]. *)
Definition forward_pos cont idx (j : nat) (n : option nat) : option nat :=
  match n with
  | Some n => Some (offset cont idx j + n)%nat
  | None => at_index (all_entries cont idx) (offset cont idx (S j))
  end.

Definition backward_pos cont idx (j : nat) (n : option nat) : option nat :=
  match n with
  | Some n => Some (offset cont idx j + n)%nat
  | None => before (offset cont idx j)
  end.

Lemma bind_assoc3 {A B C E} (a : option A) (f : A -> option B) (g : B -> option C) (h : C -> option E) :
  (x ← a; y ← f x; z ← g y; h z) = (z ← (x ← a; y ← f x; g y); h z).
Proof. destruct a as [x|]; [|done]. cbn. by destruct (f x). Qed.

Lemma SkipForward_ok cont idx k it j e n : index_ok cont idx -> idx !! j = Some e ->
  (length idx - j + 2 <= k)%nat -> inside cont idx it (Some j) (Some (e.2, n)) ->
  exists it', TwoLevel.SkipEmptyDataBlocksForward k it = Some it' /\
    Iterator.rep it' (all_entries cont idx) (forward_pos cont idx j n).
Proof.
  intros Hok. revert it j e n. induction k as [|k IH]; intros it j e n He Hk Hin; [lia|].
  cbn [TwoLevel.SkipEmptyDataBlocksForward]. rewrite (has_data_inside _ _ _ _ _ Hin), (skip_valid _ _ _ _ _ _ Hin). cbn [andb].
  destruct n as [n|]; cbn [is_valid].
  { exists it. split; [done|]. eapply rep_at; try done. destruct Hin as [_ [_ Hr]]. exact (Iterator.l_bound _ _ _ Hr). }
  pose proof Hin as [Hq _]. rewrite (Iterator.l_Valid _ _ _ Hq). cbn [is_valid negb]. rewrite bind_assoc3.
  destruct (reposition_ok Iterator.Next Iterator.SeekToFirst (fun es => at_index es 0) cont idx it _ _ (at_index idx (S j)) Hok Hin)
    as (it' & -> & Hin').
  { by apply (Iterator.l_Next (cmp := cmp) (valid := valid)). } { intros. by eapply (Iterator.l_SeekToFirst (cmp := cmp) (valid := valid)). }
  bind_simpl. unfold forward_pos. destruct (decide (S j < length idx)%nat) as [Hj|Hj].
  - rewrite at_index_lt in Hin' by done. destruct (lookup_lt_is_Some_2 idx (S j) Hj) as [e' He']. rewrite He' in Hin'.
    destruct (IH it' (S j) e' _ He' ltac:(lia) Hin') as (it2 & E & Hr). exists it2. split; [done|].
    unfold at_index in Hr at 1. destruct (Nat.ltb_spec 0 (length (cont e'.2))) as [Hl|Hl]; cbn [forward_pos] in Hr.
    + rewrite Nat.add_0_r in Hr. rewrite at_index_lt; [done|]. rewrite <- (Nat.add_0_r (offset _ _ _)). by eapply offset_lt.
    + by rewrite (offset_S _ _ _ _ He'), (proj1 (Nat.le_0_r _) Hl), Nat.add_0_r in Hr.
  - rewrite at_index_ge in Hin' by lia.
    assert (S j = length idx) as -> by (apply lookup_lt_Some in He; lia).
    rewrite offset_all, at_index_ge by done. apply SkipForward_null; [lia|done..].
Qed.

Lemma SkipBackward_ok cont idx k it j e n : index_ok cont idx -> idx !! j = Some e ->
  (j + 2 <= k)%nat -> inside cont idx it (Some j) (Some (e.2, n)) ->
  exists it', TwoLevel.SkipEmptyDataBlocksBackward k it = Some it' /\
    Iterator.rep it' (all_entries cont idx) (backward_pos cont idx j n).
Proof.
  intros Hok. revert it j e n. induction k as [|k IH]; intros it j e n He Hk Hin; [lia|].
  cbn [TwoLevel.SkipEmptyDataBlocksBackward]. rewrite (has_data_inside _ _ _ _ _ Hin), (skip_valid _ _ _ _ _ _ Hin). cbn [andb].
  destruct n as [n|]; cbn [is_valid].
  { exists it. split; [done|]. eapply rep_at; try done. destruct Hin as [_ [_ Hr]]. exact (Iterator.l_bound _ _ _ Hr). }
  pose proof Hin as [Hq _]. rewrite (Iterator.l_Valid _ _ _ Hq). cbn [is_valid negb]. rewrite bind_assoc3.
  destruct (reposition_ok Iterator.Prev Iterator.SeekToLast (fun es => before (length es)) cont idx it _ _ (before j) Hok Hin)
    as (it' & -> & Hin').
  { by apply (Iterator.l_Prev (cmp := cmp) (valid := valid)). } { intros. by eapply (Iterator.l_SeekToLast (cmp := cmp) (valid := valid)). }
  bind_simpl. unfold backward_pos. destruct j as [|j]; cbn [before] in Hin'.
  - apply SkipBackward_null; [lia|done..].
  - destruct (lookup_lt_is_Some_2 idx j) as [e' He']; [apply lookup_lt_Some in He; lia|]. rewrite He' in Hin'.
    destruct (IH it' j e' _ He' ltac:(lia) Hin') as (it2 & E & Hr). exists it2. split; [done|].
    rewrite (offset_S _ _ _ _ He'). destruct (length (cont e'.2)) as [|l] eqn:El; cbn [before backward_pos] in Hr.
    + by rewrite Nat.add_0_r.
    + by rewrite Nat.add_succ_r.
Qed.

(** *** Operations *)

Lemma rep_inside it es p : Iterator.rep it es p ->
  exists cont idx q dq, index_ok cont idx /\ es = all_entries cont idx /\ inside cont idx it q dq.
Proof.
  intros (cont & idx & Hok & -> & Hp). destruct p as [i|].
  - destruct Hp as (j & e & n & _ & _ & _ & Hin). by exists cont, idx, (Some j), (Some (e.2, Some n)).
  - destruct Hp as [q Hin]. by exists cont, idx, q, None.
Qed.

Lemma inside_sorted cont idx it q dq : inside cont idx it q dq -> sorted_entries cmp valid idx.
Proof. intros [Hq _]. exact (Iterator.l_sorted _ _ _ Hq). Qed.

Lemma TwoLevel_Seek_ok k it es p : valid k -> Iterator.rep it es p ->
  exists it', TwoLevel.Seek k it = Some it' /\ Iterator.rep it' es (at_index es (cnt (below cmp k) es)).
Proof.
  intros Hk (cont & idx & q & dq & Hok & -> & Hin)%rep_inside. unfold TwoLevel.Seek. rewrite bind_assoc3.
  destruct (reposition_ok (Iterator.Seek k) (Iterator.Seek k) (fun es => at_index es (cnt (below cmp k) es)) cont idx it _ _
    (at_index idx (cnt (below cmp k) idx)) Hok Hin) as (it' & -> & Hin').
  { eapply (Iterator.l_Seek (cmp := cmp) (valid := valid)); [done|]. apply Hin. }
  { intros. by eapply (Iterator.l_Seek (cmp := cmp) (valid := valid)). }
  bind_simpl. rewrite (cnt_all_entries cont idx k Hok (inside_sorted _ _ _ _ _ Hin) Hk). pose proof (io_fuel _ _ Hok).
  destruct (idx !! cnt (below cmp k) idx) as [e|] eqn:He.
  - rewrite at_index_lt in Hin' by (by eapply lookup_lt_Some). rewrite He in Hin'.
    destruct (SkipForward_ok cont idx fuel it' _ e _ Hok He ltac:(lia) Hin') as (it2 & E & Hr). exists it2. split; [done|].
    unfold at_index in Hr at 1. pose proof (cnt_le (below cmp k) (cont e.2)).
    destruct (Nat.ltb_spec (cnt (below cmp k) (cont e.2)) (length (cont e.2))); cbn [forward_pos] in Hr.
    + by rewrite at_index_lt by (by eapply offset_lt).
    + rewrite (offset_S _ _ _ _ He) in Hr. by replace (cnt (below cmp k) (cont e.2)) with (length (cont e.2)) by lia.
  - rewrite at_index_ge in Hin' by (by apply lookup_ge_None). rewrite at_index_ge by done.
    apply SkipForward_null; [lia|done..].
Qed.

Lemma TwoLevel_SeekToFirst_ok it es p : Iterator.rep it es p ->
  exists it', TwoLevel.SeekToFirst it = Some it' /\ Iterator.rep it' es (at_index es 0).
Proof.
  intros (cont & idx & q & dq & Hok & -> & Hin)%rep_inside. unfold TwoLevel.SeekToFirst. rewrite bind_assoc3.
  destruct (reposition_ok Iterator.SeekToFirst Iterator.SeekToFirst (fun es => at_index es 0) cont idx it _ _
    (at_index idx 0) Hok Hin) as (it' & -> & Hin').
  { eapply (Iterator.l_SeekToFirst (cmp := cmp) (valid := valid)). apply Hin. }
  { intros. by eapply (Iterator.l_SeekToFirst (cmp := cmp) (valid := valid)). }
  bind_simpl. pose proof (io_fuel _ _ Hok). destruct idx as [|e idx].
  - apply SkipForward_null; [lia|done..].
  - destruct (SkipForward_ok cont (e :: idx) fuel it' 0 e _ Hok eq_refl ltac:(lia) Hin') as (it2 & E & Hr). exists it2. split; [done|].
    unfold at_index in Hr at 1. destruct (Nat.ltb_spec 0 (length (cont e.2))); cbn [forward_pos] in Hr.
    + rewrite at_index_lt; [done|]. by apply (offset_lt cont (e :: idx) 0 e 0 eq_refl).
    + rewrite (offset_S cont (e :: idx) 0 e eq_refl) in Hr. by replace (length (cont e.2)) with 0%nat in Hr by lia.
Qed.

Lemma TwoLevel_SeekToLast_ok it es p : Iterator.rep it es p ->
  exists it', TwoLevel.SeekToLast it = Some it' /\ Iterator.rep it' es (before (length es)).
Proof.
  intros (cont & idx & q & dq & Hok & -> & Hin)%rep_inside. unfold TwoLevel.SeekToLast. rewrite bind_assoc3.
  destruct (reposition_ok Iterator.SeekToLast Iterator.SeekToLast (fun es => before (length es)) cont idx it _ _
    (before (length idx)) Hok Hin) as (it' & -> & Hin').
  { eapply (Iterator.l_SeekToLast (cmp := cmp) (valid := valid)). apply Hin. }
  { intros. by eapply (Iterator.l_SeekToLast (cmp := cmp) (valid := valid)). }
  bind_simpl. pose proof (io_fuel _ _ Hok). rewrite <- offset_all.
  destruct (length idx) as [|j] eqn:El; cbn [before] in Hin'.
  - apply SkipBackward_null; [lia|done..].
  - destruct (lookup_lt_is_Some_2 idx j ltac:(lia)) as [e He]. rewrite He in Hin'.
    destruct (SkipBackward_ok cont idx fuel it' j e _ Hok He ltac:(lia) Hin') as (it2 & E & Hr). exists it2. split; [done|].
    rewrite (offset_S _ _ _ _ He). destruct (length (cont e.2)) as [|l]; cbn [before backward_pos] in Hr.
    + by rewrite Nat.add_0_r.
    + by rewrite Nat.add_succ_r.
Qed.

Lemma TwoLevel_Next_ok it es i : Iterator.rep it es (Some i) ->
  exists it', TwoLevel.Next it = Some it' /\ Iterator.rep it' es (at_index es (S i)).
Proof.
  intros (cont & idx & Hok & -> & j & e & n & He & Hn & -> & Hin). unfold TwoLevel.Next. pose proof (io_fuel _ _ Hok).
  rewrite (skip_valid _ _ _ _ _ _ Hin). cbn [is_valid negb]. destruct Hin as [Hq [Hh Hr]].
  destruct (Iterator.l_Next (cmp := cmp) (valid := valid) _ _ _ Hr) as (w & -> & Hw). bind_simpl.
  destruct (SkipForward_ok cont idx fuel (TwoLevel.with_data it w) j e (at_index (cont e.2) (S n)) Hok He ltac:(lia)) as (it' & E & Hr');
    [by split|]. exists it'. split; [done|]. unfold at_index in Hr' at 1. rewrite <- Nat.add_succ_r.
  destruct (Nat.ltb_spec (S n) (length (cont e.2))); cbn [forward_pos] in Hr'.
  - by rewrite at_index_lt by (by eapply offset_lt).
  - rewrite (offset_S _ _ _ _ He) in Hr'. by replace (length (cont e.2)) with (S n) in Hr' by lia.
Qed.

Lemma TwoLevel_Prev_ok it es i : Iterator.rep it es (Some i) ->
  exists it', TwoLevel.Prev it = Some it' /\ Iterator.rep it' es (before i).
Proof.
  intros (cont & idx & Hok & -> & j & e & n & He & Hn & -> & Hin). unfold TwoLevel.Prev. pose proof (io_fuel _ _ Hok).
  rewrite (skip_valid _ _ _ _ _ _ Hin). cbn [is_valid negb]. destruct Hin as [Hq [Hh Hr]]. pose proof (lookup_lt_Some _ _ _ He).
  destruct (Iterator.l_Prev (cmp := cmp) (valid := valid) _ _ _ Hr) as (w & -> & Hw). bind_simpl.
  destruct (SkipBackward_ok cont idx fuel (TwoLevel.with_data it w) j e (before n) Hok He ltac:(lia)) as (it' & E & Hr');
    [by split|]. exists it'. split; [done|]. destruct n as [|n]; cbn [before backward_pos] in Hr'.
  - by rewrite Nat.add_0_r.
  - by rewrite Nat.add_succ_r.
Qed.

#[global] Instance TwoLevel_laws : Iterator.Laws cmp valid t.
Proof.
  split.
  - intros it es p (cont & idx & q & dq & Hok & -> & Hin)%rep_inside. eapply all_sorted; [done|]. by eapply inside_sorted.
  - intros it es i (cont & idx & Hok & -> & j & e & n & He & Hn & -> & _). by eapply offset_lt.
  - intros it es [i|] (cont & idx & Hok & -> & Hp).
    + destruct Hp as (j & e & n & _ & _ & _ & Hin). exact (skip_valid _ _ _ _ _ _ Hin).
    + destruct Hp as [q Hin]. exact (skip_null _ _ _ _ Hin).
  - intros it es i x (cont & idx & Hok & -> & j & e & n & He & Hn & -> & Hin) Hx. rewrite (block_lookup _ _ _ _ _ He Hn) in Hx.
    destruct Hin as [_ [_ Hr]]. exact (Iterator.l_key _ _ _ _ Hr Hx).
  - apply TwoLevel_SeekToFirst_ok.
  - apply TwoLevel_SeekToLast_ok.
  - apply TwoLevel_Seek_ok.
  - apply TwoLevel_Next_ok.
  - apply TwoLevel_Prev_ok.
Qed.

Lemma TwoLevel_new_ok cont idx (x : X) q : index_ok cont idx -> Iterator.rep x idx q ->
  exists it, TwoLevel.new x = Some it /\ Iterator.rep it (all_entries cont idx) None.
Proof.
  intros Hok Hr. unfold TwoLevel.new. destruct (Wrapper_Set_ok cmp valid Wrapper_null x idx q Hr) as (w & -> & Hw). bind_simpl.
  eexists. split; [done|]. eapply rep_end; [done|]. by split.
Qed.
End Laws.

(** ** Properties *)

(** C13: A two-level iterator behaves as an iterator over the entries of all its
    blocks in order, whatever blocks are empty: if every handle of the index opens
    an iterator over its block, an index key is at or past the keys of its block
    and before those of later blocks, and [status()] of the block iterators
    returns, then after any sequence of calls the interface allows nothing has
    gone wrong and the entry shown is the one the calls reach in the concatenation
    of the blocks; the loops that skip empty blocks end within one round per
    index entry. *)
Theorem TwoLevelIterator_correct (cmp : bytes -> bytes -> Z) (valid : bytes -> Prop) `{!TotalPreorder cmp valid}
    {X D : Type} `{!Iterator.Ops X} `{!Iterator.Model X} `{!Iterator.Laws cmp valid X}
    `{!Iterator.Ops D} `{!Iterator.Model D} `{!Iterator.Laws cmp valid D} `{!Iterator.StatusLaws D}
    (block_function : bytes -> option D) (fuel : nat) (index_iter : X) (idx : list entry) (q0 : option nat)
    (cont : bytes -> list entry) (mvs : list move) (q : option nat) :
  Iterator.rep index_iter idx q0 -> index_ok cmp (block_function := block_function) (fuel := fuel) cont idx ->
  Forall (move_ok valid) mvs -> spec_moves cmp (all_entries cont idx) mvs None = Some q ->
  exists it it', TwoLevel.new (block_function := block_function) (fuel := fuel) index_iter = Some it /\
    do_moves mvs it = Some it' /\ observe it' = Some (i ← q; all_entries cont idx !! i).
Proof.
  intros Hr Hok Hmv Hq. destruct (TwoLevel_new_ok cmp valid cont idx index_iter q0 Hok Hr) as (it & E & Hit).
  destruct (moves_observe cmp valid mvs it _ _ q Hmv Hit Hq) as (it' & Em & Eo). by exists it, it'.
Qed.

(** The block of a handle of the sample level: the file it stands for. *)
Definition sample_block (h : bytes) : list FileMetaData := base.filter (fun f => (level_entry f).2 = h) sample_level.

Lemma TwoLevelIterator_correct_witness :
  exists it it', TwoLevel.new (block_function := fun h => Some (sample_iter (sample_block h))) (fuel := 5)
      (sample_iter sample_level) = Some it /\
    do_moves [MSeekToLast; MPrev; MNext] it = Some it' /\ observe it' = Some (Some (level_entry (sample_file 7 "f" "h"))).
Proof.
  apply (TwoLevelIterator_correct (InternalKeyCompare BytewiseComparator) internal_ok
    (fun h => Some (sample_iter (sample_block h))) 5 (sample_iter sample_level) (map level_entry sample_level) None
    (fun h => map level_entry (sample_block h)) [MSeekToLast; MPrev; MNext] (Some 1%nat)).
  - apply sample_iter_rep. by left.
  - split.
    + intros e [->|[->|[]%elem_of_nil]%elem_of_cons]%elem_of_cons; eexists _, None; (split; [reflexivity|]);
        apply sample_iter_rep; right; left; eexists; (split; [|reflexivity]); unfold sample_level; set_solver.
    + intros e x [->|[->|[]%elem_of_nil]%elem_of_cons]%elem_of_cons Hx; apply list_elem_of_singleton in Hx as ->; vm_compute; congruence.
    + intros [|[|i]] [|[|j]] e e' x Hij He He' Hx; try lia; try done; cbn in He, He'; simplify_eq.
      apply list_elem_of_singleton in Hx as ->. vm_compute. congruence.
    + cbn. lia.
  - repeat constructor.
  - reflexivity.
Defined.

(** The index and the block are in good state, and [status()] returns nothing: the
    last branch of the function has no [return]. *)
Lemma TwoLevel_status_undefined {X D : Type} `{!Iterator.Ops X} `{!Iterator.Ops D}
    (block_function : bytes -> option D) (fuel : nat) (it : TwoLevelIterator (X := X) block_function fuel) :
  Iterator.status (index_iter_ it) = Some Status_OK ->
  (iter_ (data_iter_ it) = None \/ Iterator.status (data_iter_ it) = Some Status_OK) ->
  TwoLevel.status it = None.
Proof.
  intros Hi Hd. unfold TwoLevel.status, TwoLevel.has_data. rewrite Hi. bind_simpl. cbn [negb ok Status_OK].
  destruct Hd as [-> | ->]; [done|]. by destruct (iter_ (data_iter_ it)).
Qed.
