(* ===== verification/DbIter.v ===== *)
(** db/db_iter.{h,cpp}: the iterator a client sees.

    The internal iterator walks internal keys (user key, sequence number, type);
    DBIter shows, for each user key, the newest version its snapshot sees, unless
    that is a deletion.  [skip] points to [saved_key_] in every call, so the model
    reads and writes that field.  Capacities of strings are not modelled: both
    branches of [ClearSavedValue] leave an empty string.  The loops take fuel, one
    round per entry of the internal iterator. *)

From Stdlib Require Import ZArith Lia List Bool String Sorting.Sorted.
From S2P Require Import Prelude Lists Coding Slice Comparator DbFormat Arena MemTable Version.
From S2P Require Import Iterators Merger InternalIters CompactionWork.

Module DBIter.

Record t (I : Type) (user_comparator_ : Comparator) (fuel : nat) := Mk {
  iter_ : I;
  sequence_ : Z;
  direction_ : Direction;
  valid_ : bool;
  status_ : Status;
  saved_key_ : bytes;
  saved_value_ : bytes
}.
Arguments Mk {I user_comparator_ fuel}.
Arguments iter_ {I user_comparator_ fuel}.
Arguments sequence_ {I user_comparator_ fuel}.
Arguments direction_ {I user_comparator_ fuel}.
Arguments valid_ {I user_comparator_ fuel}.
Arguments status_ {I user_comparator_ fuel}.
Arguments saved_key_ {I user_comparator_ fuel}.
Arguments saved_value_ {I user_comparator_ fuel}.

Section DBIter.
Context {I : Type} `{!Iterator.Ops I} {ucmp : Comparator} {fuel : nat}.
Abbreviation it := (t I ucmp fuel).

(** NewDBIterator *)
Definition new (internal_iter : I) (s : Z) : it := Mk internal_iter s kForward false Status_OK [] [].

Definition with_iter (d : it) (i : I) : it :=
  Mk i (sequence_ d) (direction_ d) (valid_ d) (status_ d) (saved_key_ d) (saved_value_ d).
Definition with_direction (d : it) (dir : Direction) : it :=
  Mk (iter_ d) (sequence_ d) dir (valid_ d) (status_ d) (saved_key_ d) (saved_value_ d).
Definition with_valid (d : it) (b : bool) : it :=
  Mk (iter_ d) (sequence_ d) (direction_ d) b (status_ d) (saved_key_ d) (saved_value_ d).
Definition with_status (d : it) (s : Status) : it :=
  Mk (iter_ d) (sequence_ d) (direction_ d) (valid_ d) s (saved_key_ d) (saved_value_ d).
(** [SaveKey] *)
Definition with_key (d : it) (k : bytes) : it :=
  Mk (iter_ d) (sequence_ d) (direction_ d) (valid_ d) (status_ d) k (saved_value_ d).
Definition with_value (d : it) (v : bytes) : it :=
  Mk (iter_ d) (sequence_ d) (direction_ d) (valid_ d) (status_ d) (saved_key_ d) v.

Definition ClearSavedValue (d : it) : it := with_value d [].

Definition Valid (d : it) : bool := valid_ d.

Definition key (d : it) : option bytes :=
  if valid_ d then
    match direction_ d with
    | kForward => k ← Iterator.key (iter_ d); Some (ExtractUserKey k)
    | kReverse => Some (saved_key_ d)
    end
  else None.

Definition value (d : it) : option bytes :=
  if valid_ d then
    match direction_ d with
    | kForward => Iterator.value (iter_ d)
    | kReverse => Some (saved_value_ d)
    end
  else None.

Definition status (d : it) : option Status := if ok (status_ d) then Iterator.status (iter_ d) else Some (status_ d).

Definition ParseKey (d : it) : option (option ParsedInternalKey * it) :=
  k ← Iterator.key (iter_ d);
  match ParseInternalKey k with
  | None => Some (None, with_status d (Status_Corruption (str "corrupted internal key in DBIter") []))
  | Some ikey => Some (Some ikey, d)
  end.

(** The body of the loop of [FindNextUserEntry]: [inl] is the [return], [inr] goes
    on with [skipping]. *)
Definition FindNextUserEntry_body (skipping : bool) (d : it) : option (it + bool * it) :=
  '(parsed, d) ← ParseKey d;
  match parsed with
  | Some ikey =>
      if sequence ikey <=? sequence_ d then
        match type ikey with
        | kTypeDeletion => Some (inr (true, with_key d (user_key ikey)))
        | kTypeValue =>
            if skipping && (Compare ucmp (user_key ikey) (saved_key_ d) <=? 0) then Some (inr (skipping, d))
            else Some (inl (with_key (with_valid d true) []))
        end
      else Some (inr (skipping, d))
  | None => Some (inr (skipping, d))
  end.

Fixpoint FindNextUserEntry_loop (n : nat) (skipping : bool) (d : it) : option it :=
  match n with
  | O => None
  | S n =>
      r ← FindNextUserEntry_body skipping d;
      match r with
      | inl d => Some d
      | inr (skipping, d) =>
          i ← Iterator.Next (iter_ d);
          let d := with_iter d i in
          if Iterator.Valid i then FindNextUserEntry_loop n skipping d
          else Some (with_valid (with_key d []) false)
      end
  end.

Definition FindNextUserEntry (skipping : bool) (d : it) : option it :=
  if negb (Iterator.Valid (iter_ d)) || bool_decide (direction_ d <> kForward) then None
  else FindNextUserEntry_loop fuel skipping d.

(** The end of [Next]: the entries of the current user key are skipped. *)
Definition skip_current (d : it) : option it :=
  k ← Iterator.key (iter_ d); FindNextUserEntry true (with_key d (ExtractUserKey k)).

Definition Next (d : it) : option it :=
  if negb (valid_ d) then None
  else
    match direction_ d with
    | kReverse =>
        i ← (if negb (Iterator.Valid (iter_ d)) then Iterator.SeekToFirst (iter_ d) else Iterator.Next (iter_ d));
        let d := with_iter (with_direction d kForward) i in
        if negb (Iterator.Valid i) then Some (with_key (with_valid d false) []) else skip_current d
    | kForward => skip_current d
    end.

(** The loop of [FindPrevUserEntry], with [value_type].  The call of
    [iter_->Prev()] is inside the condition: an entry the snapshot does not see is
    looked at again. *)
Fixpoint FindPrevUserEntry_loop (n : nat) (value_type : ValueType) (d : it) : option (ValueType * it) :=
  match n with
  | O => None
  | S n =>
      '(parsed, d) ← ParseKey d;
      match parsed with
      | Some ikey =>
          if sequence ikey <=? sequence_ d then
            if bool_decide (value_type <> kTypeDeletion) && (Compare ucmp (user_key ikey) (saved_key_ d) <? 0)
            then Some (value_type, d)
            else
              let value_type := type ikey in
              d ← (match value_type with
                   | kTypeDeletion => Some (ClearSavedValue (with_key d []))
                   | kTypeValue =>
                       raw_value ← Iterator.value (iter_ d);
                       k ← Iterator.key (iter_ d);
                       Some (with_value (with_key d (ExtractUserKey k)) raw_value)
                   end);
              i ← Iterator.Prev (iter_ d);
              let d := with_iter d i in
              if Iterator.Valid i then FindPrevUserEntry_loop n value_type d else Some (value_type, d)
          else if Iterator.Valid (iter_ d) then FindPrevUserEntry_loop n value_type d else Some (value_type, d)
      | None => if Iterator.Valid (iter_ d) then FindPrevUserEntry_loop n value_type d else Some (value_type, d)
      end
  end.

Definition FindPrevUserEntry (d : it) : option it :=
  if bool_decide (direction_ d <> kReverse) then None
  else
    '(value_type, d) ← (if Iterator.Valid (iter_ d) then FindPrevUserEntry_loop fuel kTypeDeletion d
                        else Some (kTypeDeletion, d));
    match value_type with
    | kTypeDeletion => Some (with_direction (ClearSavedValue (with_key (with_valid d false) [])) kForward)
    | kTypeValue => Some (with_valid d true)
    end.

(** The scan of [Prev] back to a smaller user key; [false]: it ran off the start. *)
Fixpoint Prev_loop (n : nat) (d : it) : option (bool * it) :=
  match n with
  | O => None
  | S n =>
      i ← Iterator.Prev (iter_ d);
      let d := with_iter d i in
      if negb (Iterator.Valid i) then Some (false, ClearSavedValue (with_key (with_valid d false) []))
      else
        k ← Iterator.key i;
        if Compare ucmp (ExtractUserKey k) (saved_key_ d) <? 0 then Some (true, d) else Prev_loop n d
  end.

Definition Prev (d : it) : option it :=
  if negb (valid_ d) then None
  else
    match direction_ d with
    | kForward =>
        if negb (Iterator.Valid (iter_ d)) then None
        else
          k ← Iterator.key (iter_ d);
          '(found, d) ← Prev_loop fuel (with_key d (ExtractUserKey k));
          if (found : bool) then FindPrevUserEntry (with_direction d kReverse) else Some d
    | kReverse => FindPrevUserEntry d
    end.

Definition Seek (target : bytes) (d : it) : option it :=
  let d := ClearSavedValue (with_direction d kForward) in
  let d := with_key d (AppendInternalKey [] (MkParsedInternalKey target (sequence_ d) kValueTypeForSeek)) in
  i ← Iterator.Seek (saved_key_ d) (iter_ d);
  let d := with_iter d i in
  if Iterator.Valid i then FindNextUserEntry false d else Some (with_valid d false).

Definition SeekToFirst (d : it) : option it :=
  let d := ClearSavedValue (with_direction d kForward) in
  i ← Iterator.SeekToFirst (iter_ d);
  let d := with_iter d i in
  if Iterator.Valid i then FindNextUserEntry false d else Some (with_valid d false).

Definition SeekToLast (d : it) : option it :=
  let d := ClearSavedValue (with_direction d kReverse) in
  i ← Iterator.SeekToLast (iter_ d);
  FindPrevUserEntry (with_iter d i).

#[global] Instance ops : Iterator.Ops it := {
  Iterator.Valid := Valid; Iterator.SeekToFirst := SeekToFirst; Iterator.SeekToLast := SeekToLast;
  Iterator.Seek := Seek; Iterator.Next := Next; Iterator.Prev := Prev;
  Iterator.key := key; Iterator.value := value; Iterator.status := status
}.
End DBIter.
End DBIter.

(** ** The view of a snapshot *)

(** The (user key, value) pairs a snapshot sees in internal entries that are sorted
    by internal key; [last] is the user key of the last entry it has seen. *)
Fixpoint user_view (s : Z) (last : option bytes) (mes : list mem_entry) : list entry :=
  match mes with
  | [] => []
  | e :: mes =>
      if sequence e.1 <=? s then
        if bool_decide (last = Some (user_key e.1)) then user_view s last mes
        else
          match type e.1 with
          | kTypeValue => [(user_key e.1, e.2)]
          | kTypeDeletion => []
          end ++ user_view s (Some (user_key e.1)) mes
      else user_view s last mes
  end.

Fixpoint last_seen (s : Z) (last : option bytes) (mes : list mem_entry) : option bytes :=
  match mes with
  | [] => last
  | e :: mes => last_seen s (if sequence e.1 <=? s then Some (user_key e.1) else last) mes
  end.

Lemma user_view_app s last A B : user_view s last (A ++ B) = user_view s last A ++ user_view s (last_seen s last A) B.
Proof.
  revert last. induction A as [|e A IH]; intros last; [done|]. cbn [app user_view last_seen].
  destruct (sequence e.1 <=? s); [|apply IH]. case_bool_decide as E; [|by rewrite IH, <- app_assoc].
  rewrite IH. by subst.
Qed.

Lemma last_seen_app s last A B : last_seen s last (A ++ B) = last_seen s (last_seen s last A) B.
Proof. revert last. induction A as [|e A IH]; intros last; [done|]. apply IH. Qed.

Lemma last_seen_in s last A u : last_seen s last A = Some u ->
  last = Some u \/ exists e, e ∈ A /\ sequence e.1 <= s /\ user_key e.1 = u.
Proof.
  revert last. induction A as [|e A IH]; intros last; cbn; [by left|]. intros [E|(a & Ha & ? & ?)]%IH.
  - destruct (Z.leb_spec (sequence e.1) s); [|by left]. injection E as <-. right. exists e. split; [left|done].
  - right. exists a. split; [by right|done].
Qed.

(** A user key that no entry has may be forgotten. *)
Lemma user_view_last s last B : (forall e, e ∈ B -> sequence e.1 <= s -> last <> Some (user_key e.1)) ->
  user_view s last B = user_view s None B.
Proof.
  induction B as [|e B IH]; intros Hn; [done|]. cbn [user_view].
  destruct (Z.leb_spec (sequence e.1) s) as [Hs|]; [|apply IH; intros; apply Hn; [by right|done]].
  rewrite !bool_decide_false; [done|done|]. apply Hn; [left|done].
Qed.

Lemma elem_of_view s last B x : x ∈ user_view s last B ->
  exists e, e ∈ B /\ sequence e.1 <= s /\ type e.1 = kTypeValue /\ x = (user_key e.1, e.2).
Proof.
  revert last. induction B as [|e B IH]; intros last; cbn [user_view]; [set_solver|].
  destruct (Z.leb_spec (sequence e.1) s) as [Hs|]; [|intros (a & Ha & ?)%IH; exists a; split; [by right|done]].
  case_bool_decide; [intros (a & Ha & ?)%IH; exists a; split; [by right|done]|].
  intros [Hx|(a & Ha & ?)%IH]%elem_of_app; [|exists a; split; [by right|done]].
  destruct (type e.1) eqn:Et; [set_solver|]. apply list_elem_of_singleton in Hx as ->. exists e. split; [left|done].
Qed.

Section View.
Context (ucmp : Comparator) `{!ComparatorLaws ucmp any_key}.

(** The keys of the view increase, past the last one seen. *)
Lemma view_sorted s last B : ik_sorted ucmp B ->
  (forall e u, e ∈ B -> last = Some u -> Compare ucmp u (user_key e.1) <= 0) ->
  StronglySorted (fun a b => Compare ucmp a.1 b.1 < 0) (user_view s last B) /\
  (forall x u, x ∈ user_view s last B -> last = Some u -> Compare ucmp u x.1 < 0).
Proof.
  revert last. induction B as [|e B IH]; intros last Hs Hl; cbn [user_view]; [split; [constructor|set_solver]|].
  apply ik_sorted_cons in Hs as (He & HB & Hle); [|done].
  assert (forall e' u, e' ∈ B -> Some (user_key e.1) = Some u -> Compare ucmp u (user_key e'.1) <= 0) as Hl'.
  { intros e' u He' [= <-]. by apply Hle. }
  assert (forall e' u, e' ∈ B -> last = Some u -> Compare ucmp u (user_key e'.1) <= 0) as Hl''.
  { intros e' u He' Hu. apply Hl; [by right|done]. }
  destruct (Z.leb_spec (sequence e.1) s) as [Hv|]; [|by apply IH]. case_bool_decide as E; [by apply IH|].
  destruct (IH (Some (user_key e.1)) HB Hl') as [IH1 IH2].
  assert (forall u, last = Some u -> Compare ucmp u (user_key e.1) < 0) as Hlt.
  { intros u Hu. specialize (Hl e u ltac:(left) Hu). destruct (decide (Compare ucmp u (user_key e.1) = 0)) as [E0|]; [|lia].
    apply (ucmp_eq ucmp) in E0. congruence. }
  split.
  - destruct (type e.1); cbn [app]; [done|]. constructor; [done|]. apply Forall_forall. intros x Hx. by apply (IH2 x).
  - intros x u [Hx|Hx]%elem_of_app Hu.
    + destruct (type e.1); [set_solver|]. apply list_elem_of_singleton in Hx as ->. by apply Hlt.
    + apply (to_lt_trans (Compare ucmp) any_key u (user_key e.1) x.1); [done..|by apply Hlt|by apply (IH2 x)].
Qed.

Lemma app_sorted A B : ik_sorted ucmp (A ++ B) -> ik_sorted ucmp A /\ ik_sorted ucmp B /\
  forall a b, a ∈ A -> b ∈ B -> Compare ucmp (user_key a.1) (user_key b.1) <= 0.
Proof.
  intros [Hq Hs]. apply Forall_app in Hq as [HqA HqB]. apply StronglySorted_app_inv in Hs as (HA & HB & HAB).
  split_and!; [by split|by split|]. intros a b Ha Hb. apply (ik_user_le ucmp). by apply Z.lt_le_incl, HAB.
Qed.

Lemma newest_cons_other e B u s : ~ visible u s e -> newest (e :: B) u s = newest B u s.
Proof. intros Hn. cbn [newest]. destruct (bool_decide _ && _) eqn:E; [by apply visible_dec in E|done]. Qed.

(** The view holds what reads at the snapshot return. *)
Lemma user_view_newest s last B u v : ik_sorted ucmp B -> ForallOrdPairs fresh_pair B ->
  (forall e u', e ∈ B -> last = Some u' -> Compare ucmp u' (user_key e.1) <= 0) ->
  (u, v) ∈ user_view s last B <->
  last <> Some u /\ exists p, newest B u s = Some (p, v) /\ type p = kTypeValue.
Proof.
  revert last. induction B as [|e B IH]; intros last Hs Hf Hl; [cbn; split; [set_solver|naive_solver]|].
  pose proof (ik_sorted_cons ucmp e B Hs) as (He & HB & Hle). inversion_clear Hf as [|? ? Hfe HfB].
  rewrite Forall_forall in Hfe.
  assert (forall e' u', e' ∈ B -> last = Some u' -> Compare ucmp u' (user_key e'.1) <= 0) as HlB by (intros; apply Hl; [by right|done]).
  cbn [user_view]. destruct (Z.leb_spec (sequence e.1) s) as [Hv|Hv].
  2:{ rewrite newest_cons_other by (intros [_ ?]; lia). by apply IH. }
  destruct (decide (user_key e.1 = u)) as [Eu|Nu].
  - assert (newest (e :: B) u s = Some e) as En.
    { apply (newest_max ucmp); [left|done|]. intros q [->|Hq]%elem_of_cons [Hqu _]; [by left|right].
      destruct (Hle q Hq) as (_ & _ & Hseq). specialize (Hseq ltac:(congruence)). pose proof (Hfe q Hq ltac:(congruence)). lia. }
    rewrite En. case_bool_decide as El.
    + split; [|intros [? _]; congruence]. intros Hin. exfalso.
      apply (IH last HB HfB HlB) in Hin as [Hne _]. congruence.
    + assert ((u, v) ∉ user_view s (Some (user_key e.1)) B) as Hnot.
      { intros Hin. apply IH in Hin as [Hne _]; [congruence|done..|]. intros e' u' He' [= <-]. by apply Hle. }
      rewrite elem_of_app. destruct e as [p w]; cbn [fst snd] in *. destruct (type p) eqn:Et.
      * split; [set_solver|]. intros (_ & q & [= <- <-] & ?). congruence.
      * rewrite list_elem_of_singleton. split; [intros [[= -> ->]|?]; [|done]; split; [congruence|eauto]|].
        intros (_ & q & [= <- <-] & _). left. congruence.
  - rewrite newest_cons_other by (intros [? _]; done). case_bool_decide as El; [by apply IH|].
    assert (forall e' u', e' ∈ B -> Some (user_key e.1) = Some u' -> Compare ucmp u' (user_key e'.1) <= 0) as Hl'
      by (intros e' u' He' [= <-]; by apply Hle).
    rewrite elem_of_app, (IH _ HB HfB Hl'). split.
    + intros [Hx|[_ Hn]]; [destruct (type e.1); [set_solver|]; apply list_elem_of_singleton in Hx; congruence|].
      split; [|done]. intros ->. destruct Hn as (p & [Hp [Epu _]]%(newest_visible ucmp) & _). cbn [fst] in Epu.
      pose proof (Hl e u ltac:(left) eq_refl) as H1. destruct (Hle _ Hp) as (_ & H2 & _). cbn [fst] in H2. rewrite Epu in H2.
      apply Nu, (ucmp_eq ucmp). pose proof (ucmp_sgn ucmp u (user_key e.1)). lia.
    + intros [_ Hn]. right. split; [congruence|done].
Qed.
End View.

(** ** Lemmas: moving forward *)

Section Laws.
Context (ucmp : Comparator) `{!ComparatorLaws ucmp any_key}.
Context {I : Type} `{!Iterator.Ops I} `{!Iterator.Model I} `{!Iterator.Laws (InternalKeyCompare ucmp) internal_ok I}.
Context {fuel : nat}.
Abbreviation icmp := (InternalKeyCompare ucmp).
Abbreviation it := (DBIter.t I ucmp fuel).
Implicit Types (d : it) (mes A B : list mem_entry) (e : mem_entry).

(** The internal iterator is over [mes], at position [q]. *)
Definition over d mes (q : option nat) : Prop :=
  Iterator.rep (DBIter.iter_ d) (map raw mes) q /\ Forall (fun e => seq_ok (sequence e.1)) mes /\
  seq_ok (DBIter.sequence_ d) /\ (length mes < fuel)%nat.

Lemma over_sorted d mes q : over d mes q -> ik_sorted ucmp mes.
Proof.
  intros (Hr & Hq & _). split; [done|]. pose proof (Iterator.l_sorted _ _ _ Hr) as [_ Hs]. clear Hr Hq.
  induction mes as [|e mes IH]; [constructor|]. cbn in Hs. inversion_clear Hs as [|? ? Hs' Hf]. constructor; [by apply IH|].
  by rewrite Forall_map in Hf.
Qed.

Lemma over_seq d mes q e : over d mes q -> e ∈ mes -> seq_ok (sequence e.1).
Proof. intros (_ & Hq & _) He. rewrite Forall_forall in Hq. auto. Qed.

(** The entry the internal iterator is at. *)
Lemma over_at d A e B : over d (A ++ e :: B) (Some (length A)) ->
  Iterator.Valid (DBIter.iter_ d) = true /\ Iterator.key (DBIter.iter_ d) = Some (ik e) /\
  Iterator.value (DBIter.iter_ d) = Some e.2 /\ DBIter.ParseKey d = Some (Some e.1, d) /\ ExtractUserKey (ik e) = user_key e.1.
Proof.
  intros Ho. pose proof Ho as (Hr & _). split; [exact (Iterator.l_Valid _ _ _ Hr)|].
  destruct (Iterator.l_key (cmp := icmp) (valid := internal_ok) _ _ _ (raw e) Hr) as [Ek Ev].
  { rewrite map_app. rewrite lookup_app_r by (by rewrite length_map). by rewrite length_map, Nat.sub_diag. }
  split_and!; [done..| |unfold ik; by rewrite AppendInternalKey_nil, ExtractUserKey_app].
  unfold DBIter.ParseKey. rewrite Ek. bind_simpl. unfold raw, ik; cbn [fst]. rewrite Parse_Append; [done|].
  eapply over_seq; [done|]. set_solver.
Qed.

Lemma over_next d A e B : over d (A ++ e :: B) (Some (length A)) ->
  exists i, Iterator.Next (DBIter.iter_ d) = Some i /\
    match B with
    | [] => Iterator.Valid i = false /\ Iterator.rep i (map raw (A ++ e :: B)) None
    | _ => Iterator.Valid i = true /\ Iterator.rep i (map raw (A ++ e :: B)) (Some (length (A ++ [e])))
    end.
Proof.
  intros (Hr & _). destruct (Iterator.l_Next (cmp := icmp) (valid := internal_ok) _ _ _ Hr) as (i & E & Hi). exists i. split; [done|].
  unfold at_index in Hi. rewrite length_map, length_app in Hi. cbn [length] in Hi.
  destruct B as [|b B]; [|rewrite length_app; cbn [length]].
  - rewrite (proj2 (Nat.ltb_ge _ _)) in Hi by (cbn; lia). split; [exact (Iterator.l_Valid _ _ _ Hi)|done].
  - rewrite (proj2 (Nat.ltb_lt _ _)) in Hi by (cbn; lia). rewrite Nat.add_1_r. split; [exact (Iterator.l_Valid _ _ _ Hi)|done].
Qed.

Lemma over_iter d i mes q q' : over d mes q -> Iterator.rep i (map raw mes) q' -> over (DBIter.with_iter d i) mes q'.
Proof. intros (_ & Hq & Hs & Hf) Hr. by split_and!. Qed.

(** [e] is what the snapshot shows for its user key, after the entries [A]. *)
Definition shown (s : Z) A e : Prop :=
  sequence e.1 <= s /\ type e.1 = kTypeValue /\ last_seen s None A <> Some (user_key e.1).

(** The body of the loop of [FindNextUserEntry] against the view. *)
Lemma FindNext_body_ok (skipping : bool) d A e B last : let s := DBIter.sequence_ d in
  over d (A ++ e :: B) (Some (length A)) ->
  (if skipping then last = Some (DBIter.saved_key_ d) else forall x, x ∈ e :: B -> sequence x.1 <= s -> last <> Some (user_key x.1)) ->
  (forall x u, x ∈ e :: B -> last = Some u -> Compare ucmp u (user_key x.1) <= 0) ->
  (DBIter.FindNextUserEntry_body skipping d = Some (inl (DBIter.with_key (DBIter.with_valid d true) [])) /\
     sequence e.1 <= s /\ type e.1 = kTypeValue /\ last <> Some (user_key e.1)) \/
  (exists (skipping' : bool) k, DBIter.FindNextUserEntry_body skipping d = Some (inr (skipping', DBIter.with_key d k)) /\
     let last' := last_seen s last [e] in
     (forall X, user_view s last (e :: X) = user_view s last' X) /\
     (if skipping' then last' = Some k else forall x, x ∈ B -> sequence x.1 <= s -> last' <> Some (user_key x.1)) /\
     (forall x u, x ∈ B -> last' = Some u -> Compare ucmp u (user_key x.1) <= 0)).
Proof.
  intros s Ho Hskip Hle. destruct (over_at _ _ _ _ Ho) as (_ & _ & _ & EP & _).
  unfold DBIter.FindNextUserEntry_body. rewrite EP. bind_simpl. fold s. cbn [last_seen user_view].
  pose proof (over_sorted _ _ _ Ho) as (_ & Hs%(ik_sorted_cons ucmp) & _)%(app_sorted ucmp). destruct Hs as (_ & _ & Hs).
  assert (forall x u, x ∈ B -> Some (user_key e.1) = Some u -> Compare ucmp u (user_key x.1) <= 0) as Hle'
    by (intros x u Hx [= <-]; by apply Hs).
  assert (d = DBIter.with_key d (DBIter.saved_key_ d)) as Ed by (by destruct d).
  destruct (Z.leb_spec (sequence e.1) s) as [Hv|Hv].
  2:{ right. exists skipping, (DBIter.saved_key_ d). rewrite <- Ed. split_and!; [done..| |].
      - destruct skipping; [done|]. intros x Hx. apply Hskip. by right.
      - intros x u Hx. apply Hle. by right. }
  destruct (type e.1) eqn:Et.
  - right. exists true, (user_key e.1). split_and!; [done| |done|done]. intros X. case_bool_decide as El; [by rewrite El|done].
  - destruct (skipping && _) eqn:Esk; [right|left].
    + apply andb_true_iff in Esk as [-> Hc%Z.leb_le]. exists true, (DBIter.saved_key_ d). rewrite <- Ed.
      assert (last = Some (user_key e.1)) as El.
      { rewrite Hskip. f_equal. apply (ucmp_eq ucmp). specialize (Hle e _ ltac:(left) Hskip).
        pose proof (ucmp_sgn ucmp (DBIter.saved_key_ d) (user_key e.1)). lia. }
      split_and!; [done| |congruence|done]. intros X. by rewrite bool_decide_true, El.
    + split_and!; [done..|]. intros El. destruct skipping; [|by apply (Hskip e ltac:(left) Hv)]. cbn [andb] in Esk.
      rewrite El in Hskip. injection Hskip as Eu. rewrite <- Eu, (proj2 (ucmp_eq ucmp _ _) eq_refl) in Esk. done.
Qed.

Lemma FindNext_loop_ok n (skipping : bool) d A e B last : let s := DBIter.sequence_ d in
  over d (A ++ e :: B) (Some (length A)) -> (length B < n)%nat -> DBIter.direction_ d = kForward ->
  (if skipping then last = Some (DBIter.saved_key_ d) else forall x, x ∈ e :: B -> sequence x.1 <= s -> last <> Some (user_key x.1)) ->
  (forall x u, x ∈ e :: B -> last = Some u -> Compare ucmp u (user_key x.1) <= 0) ->
  exists d', DBIter.FindNextUserEntry_loop n skipping d = Some d' /\
    DBIter.sequence_ d' = s /\ DBIter.direction_ d' = kForward /\
    ((DBIter.valid_ d' = false /\ user_view s last (e :: B) = [] /\ over d' (A ++ e :: B) None) \/
     exists B1 e' B2, e :: B = B1 ++ e' :: B2 /\ user_view s last B1 = [] /\
       sequence e'.1 <= s /\ type e'.1 = kTypeValue /\ last_seen s last B1 <> Some (user_key e'.1) /\
       DBIter.valid_ d' = true /\ over d' (A ++ e :: B) (Some (length (A ++ B1)))).
Proof.
  intros s. revert skipping d A e B last s. induction n as [|n IH]; intros skipping d A e B last s Ho Hn Hdir Hskip Hle; [lia|].
  cbn [DBIter.FindNextUserEntry_loop].
  destruct (FindNext_body_ok skipping d A e B last Ho Hskip Hle) as [(-> & Hv & Ht & Hl)|(sk & k & -> & Hview & Hskip' & Hle')]; bind_simpl.
  - eexists. split; [done|]. split_and!; [done..|]. right. exists [], e, B. rewrite app_nil_r. by split_and!.
  - destruct (over_next _ _ _ _ Ho) as (i & Ei & Hi). cbn [DBIter.iter_ DBIter.with_key]. rewrite Ei. bind_simpl.
    destruct B as [|b B]; destruct Hi as [-> Hi].
    + eexists. split; [done|]. split_and!; [done..|]. left. split_and!; [done|by rewrite Hview|]. by eapply over_iter.
    + assert (A ++ e :: b :: B = (A ++ [e]) ++ b :: B) as EA by (by rewrite <- app_assoc).
      set (d1 := DBIter.with_iter (DBIter.with_key d k) i).
      assert (over d1 ((A ++ [e]) ++ b :: B) (Some (length (A ++ [e])))) as Ho1.
      { rewrite <- EA. destruct Ho as (_ & ? & ? & ?). by split_and!. }
      destruct (IH sk d1 (A ++ [e]) b B (last_seen s last [e]) Ho1 ltac:(cbn in Hn; lia) Hdir Hskip' Hle') as (d' & -> & Es & Ed & Hres).
      exists d'. split; [done|]. split_and!; [done..|]. rewrite Hview, EA. destruct Hres as [Hres|Hres]; [by left|right].
      destruct Hres as (B1 & e' & B2 & EB & HB1 & Hv & Ht & Hl & Hd' & Ho'). exists (e :: B1), e', B2.
      rewrite Hview. cbn [last_seen] in *. split_and!; try done; [cbn; by f_equal|]. by rewrite <- (app_assoc A [e] B1) in Ho'.
Qed.

(** What the iterator shows: position [p] of the view of [mes]. *)
Definition shows d mes (p : option nat) : Prop :=
  let s := DBIter.sequence_ d in
  match p with
  | None => DBIter.valid_ d = false /\ exists q, over d mes q
  | Some i => DBIter.valid_ d = true /\ exists A e B, mes = A ++ e :: B /\ shown s A e /\ i = length (user_view s None A) /\
      match DBIter.direction_ d with
      | kForward => over d mes (Some (length A))
      | kReverse => over d mes (before (length A)) /\ DBIter.saved_key_ d = user_key e.1 /\ DBIter.saved_value_ d = e.2
      end
  end.

Lemma view_split s A e B : shown s A e ->
  user_view s None (A ++ e :: B) = user_view s None A ++ (user_key e.1, e.2) :: user_view s (Some (user_key e.1)) B.
Proof.
  intros (Hv & Ht & Hl). rewrite user_view_app. cbn [user_view]. by rewrite (proj2 (Z.leb_le _ _)), bool_decide_false, Ht by done.
Qed.

(** [FindNextUserEntry] from an entry: [VA] is the part of the view before it. *)
Lemma FindNext_ok (skipping : bool) d A e B last VA : let s := DBIter.sequence_ d in
  over d (A ++ e :: B) (Some (length A)) -> DBIter.direction_ d = kForward ->
  (if skipping then last = Some (DBIter.saved_key_ d) else forall x, x ∈ e :: B -> sequence x.1 <= s -> last <> Some (user_key x.1)) ->
  (forall x u, x ∈ e :: B -> last = Some u -> Compare ucmp u (user_key x.1) <= 0) ->
  user_view s None (A ++ e :: B) = VA ++ user_view s last (e :: B) ->
  (forall B1 e' B2, e :: B = B1 ++ e' :: B2 -> last_seen s last B1 <> Some (user_key e'.1) ->
    user_view s None (A ++ B1) = VA ++ user_view s last B1 /\ last_seen s None (A ++ B1) = last_seen s last B1) ->
  exists d', DBIter.FindNextUserEntry skipping d = Some d' /\ DBIter.sequence_ d' = s /\ DBIter.direction_ d' = kForward /\
    shows d' (A ++ e :: B) (at_index (user_view s None (A ++ e :: B)) (length VA)).
Proof.
  intros s Ho Hdir Hskip Hle HV Hsplit. unfold DBIter.FindNextUserEntry.
  destruct (over_at _ _ _ _ Ho) as (-> & _). rewrite bool_decide_false by (intros Hc; by apply Hc). cbn [negb orb].
  destruct (FindNext_loop_ok fuel skipping d A e B last Ho) as (d' & -> & Es & Ed & Hres); [|done..|].
  { destruct Ho as (_ & _ & _ & Hf). rewrite length_app in Hf. cbn in Hf. lia. }
  change (DBIter.sequence_ d) with s in Es, Hres. exists d'. split_and!; [done..|]. destruct Hres as [(Hv & Hnil & Ho')|(B1 & e' & B2 & EB & HB1 & Hv & Ht & Hl & Hd' & Ho')].
  - rewrite HV, Hnil, app_nil_r. rewrite at_index_ge by done. split; [done|by eexists].
  - destruct (Hsplit B1 e' B2 EB Hl) as [HVA HlA]. rewrite HB1, app_nil_r in HVA.
    assert (A ++ e :: B = (A ++ B1) ++ e' :: B2) as EA by (by rewrite EB, app_assoc).
    assert (shown s (A ++ B1) e') as Hsh by (split_and!; [done..|]; by rewrite HlA).
    rewrite at_index_lt.
    + split; [done|]. exists (A ++ B1), e', B2. rewrite Es, Ed. split_and!; try done. by rewrite HVA.
    + rewrite EA, (view_split _ _ _ _ Hsh), length_app. rewrite HVA. cbn. lia.
Qed.

(** ** Operations that move forward *)

Lemma last_seen_le s A B u x : ik_sorted ucmp (A ++ B) -> last_seen s None A = Some u -> x ∈ B ->
  Compare ucmp u (user_key x.1) <= 0.
Proof. intros (_ & _ & Hs)%(app_sorted ucmp) [?|(e & He & _ & <-)]%last_seen_in Hx; [done|]. by apply Hs. Qed.

(** The user-level order on the keys of the view. *)
Definition user_ok (u : bytes) : Prop := Zlength u + 8 < 2 ^ 32.

Lemma view_keys d mes q x : over d mes q -> x ∈ user_view (DBIter.sequence_ d) None mes -> user_ok x.1.
Proof.
  intros Ho (e & He & _ & _ & ->)%elem_of_view. pose proof Ho as (Hr & _). pose proof (Iterator.l_sorted _ _ _ Hr) as [Hk _].
  rewrite Forall_map, Forall_forall in Hk. destruct (Hk e He) as (p & Hp & Hl & E). change (AppendInternalKey [] e.1 = AppendInternalKey [] p) in E.
  apply (f_equal ParseInternalKey) in E. rewrite !Parse_Append in E by (done || by eapply over_seq). injection E as ->. done.
Qed.

Lemma shows_over d mes p : shows d mes p -> exists q, over d mes q.
Proof.
  intros Hsh. destruct p as [i|]; [|apply Hsh]. destruct Hsh as (_ & A & e & B & _ & _ & _ & Ho).
  destruct (DBIter.direction_ d); [eauto|]. destruct Ho as [Ho _]. eauto.
Qed.

Lemma SeekToFirst_ok d mes p : shows d mes p ->
  exists d', DBIter.SeekToFirst d = Some d' /\ DBIter.sequence_ d' = DBIter.sequence_ d /\ DBIter.direction_ d' = kForward /\
    shows d' mes (at_index (user_view (DBIter.sequence_ d) None mes) 0).
Proof.
  intros [q Ho]%shows_over.
  unfold DBIter.SeekToFirst. pose proof Ho as (Hr & _). cbn [DBIter.iter_ DBIter.ClearSavedValue DBIter.with_direction DBIter.with_value].
  destruct (Iterator.l_SeekToFirst (cmp := icmp) (valid := internal_ok) _ _ _ Hr) as (i & -> & Hi). bind_simpl.
  rewrite (Iterator.l_Valid _ _ _ Hi). unfold at_index in Hi. rewrite length_map in Hi.
  destruct mes as [|e B]; cbn in Hi.
  - eexists. split; [done|]. split_and!; [done..|]. cbn. split; [done|]. exists None. by eapply (over_iter d).
  - cbn [at_index map length Nat.ltb Nat.leb is_valid].
    set (d1 := DBIter.with_iter _ i).
    destruct (FindNext_ok false d1 [] e B None []) as (d' & -> & Es & Ed & Hsh'); [by eapply (over_iter d)|done..| |].
    { intros B1 e' B2 _ _. done. }
    exists d'. by split_and!.
Qed.

Lemma target_ok t s : seq_ok s -> user_ok t -> internal_ok (AppendInternalKey [] (MkParsedInternalKey t s kValueTypeForSeek)).
Proof. intros Hs Ht. by exists (MkParsedInternalKey t s kValueTypeForSeek). Qed.

(** The entries before the seek target, and the user keys from it on. *)
Lemma seek_cut d mes q t : over d mes q -> let s := DBIter.sequence_ d in
  let n := cnt (below icmp (AppendInternalKey [] (MkParsedInternalKey t s kValueTypeForSeek))) (map raw mes) in
  user_ok t ->
  (forall e, e ∈ take n mes -> sequence e.1 <= s -> Compare ucmp (user_key e.1) t < 0) /\
  (forall e, e ∈ drop n mes -> Compare ucmp t (user_key e.1) <= 0).
Proof.
  intros Ho s n Ht. pose proof Ho as (Hr & _ & Hs & _). pose proof (Iterator.l_sorted _ _ _ Hr) as Hsort.
  assert (forall i e, mes !! i = Some e -> (i < n)%nat <-> ~ (Compare ucmp t (user_key e.1) < 0 \/ (t = user_key e.1 /\ sequence e.1 <= s))) as Hiff.
  { intros i e He. unfold n. rewrite (cnt_lookup icmp internal_ok _ _ i (raw e) Hsort).
    - rewrite <- (lookup_key_seek ucmp t s e.1 Hs) by (eapply over_seq; [done|by eapply list_elem_of_lookup_2]).
      unfold below. change (fst (raw e)) with (AppendInternalKey [] e.1). rewrite Z.ltb_lt, (to_flip_lt icmp any_key) by done. lia.
    - apply (below_down icmp internal_ok). by apply target_ok.
    - by rewrite list_lookup_fmap, He. }
  pose proof (ucmp_sgn ucmp) as Hsgn. split; intros e He.
  - intros Hv. apply list_elem_of_lookup_1 in He as [i Hi]. apply lookup_take_Some in Hi as [Hi Hlt].
    apply (Hiff i e Hi) in Hlt. specialize (Hsgn t (user_key e.1)).
    destruct (decide (Compare ucmp t (user_key e.1) = 0)) as [E%(ucmp_eq ucmp)|]; [exfalso; auto|]. lia.
  - apply list_elem_of_lookup_1 in He as [i Hi]. rewrite lookup_drop in Hi.
    destruct (decide (Compare ucmp t (user_key e.1) <= 0)) as [|Hn]; [done|]. exfalso.
    assert (n + i < n)%nat; [|lia]. apply (Hiff _ e Hi). intros [?|[-> _]]; [lia|].
    rewrite (proj2 (ucmp_eq ucmp _ _) eq_refl) in Hn. lia.
Qed.

Lemma Seek_ok t d mes p : user_ok t -> shows d mes p ->
  exists d', DBIter.Seek t d = Some d' /\ DBIter.sequence_ d' = DBIter.sequence_ d /\ DBIter.direction_ d' = kForward /\
    let V := user_view (DBIter.sequence_ d) None mes in
    shows d' mes (at_index V (cnt (below (Compare ucmp) t) V)).
Proof.
  intros Ht [q Ho]%shows_over. pose proof Ho as (Hr & _ & Hs & _). pose proof (seek_cut d mes q t Ho Ht) as [HA HB].
  unfold DBIter.Seek. cbn [DBIter.saved_key_ DBIter.iter_ DBIter.ClearSavedValue DBIter.with_direction DBIter.with_value DBIter.with_key DBIter.sequence_].
  set (s := DBIter.sequence_ d) in *. set (tgt := AppendInternalKey [] (MkParsedInternalKey t s kValueTypeForSeek)) in *.
  destruct (Iterator.l_Seek (cmp := icmp) (valid := internal_ok) tgt _ _ _ (target_ok t s Hs Ht) Hr) as (i & -> & Hi). bind_simpl.
  rewrite (Iterator.l_Valid _ _ _ Hi). set (n := cnt (below icmp tgt) (map raw mes)) in *.
  assert (user_view s None mes = user_view s None (take n mes) ++ user_view s (last_seen s None (take n mes)) (drop n mes)) as HV
    by (rewrite <- user_view_app; by rewrite take_drop).
  assert (cnt (below (Compare ucmp) t) (user_view s None mes) = length (user_view s None (take n mes))) as ->.
  { rewrite HV, cnt_app, cnt_all, cnt_none; [lia|..].
    - intros x (e & He & _ & _ & ->)%elem_of_view. apply Z.ltb_ge. specialize (HB e He). cbn.
      pose proof (ucmp_sgn ucmp t (user_key e.1)). lia.
    - intros x (e & He & Hv & _ & ->)%elem_of_view. apply Z.ltb_lt. by apply HA. }
  unfold at_index in Hi |- * at 1. rewrite length_map in Hi |- *. destruct (Nat.ltb_spec n (length mes)) as [Hn|Hn]; cbn [is_valid].
  - destruct (drop n mes) as [|e B] eqn:EB; [apply (f_equal length) in EB; rewrite length_drop in EB; cbn in EB; lia|].
    assert (length (take n mes) = n) as El by (rewrite length_take; lia).
    assert (mes = take n mes ++ e :: B) as Em by (rewrite <- EB; by rewrite take_drop).
    set (d1 := DBIter.with_iter _ i).
    destruct (FindNext_ok false d1 (take n mes) e B (last_seen s None (take n mes)) (user_view s None (take n mes)))
      as (d' & E & Es & Ed & Hsh').
    + rewrite <- Em, El. by eapply (over_iter d).
    + done.
    + intros x Hx Hv Hl. apply last_seen_in in Hl as [?|(a & Ha & Hva & Eu)]; [done|].
      specialize (HA a Ha Hva). specialize (HB x Hx). rewrite Eu in HA. pose proof (ucmp_sgn ucmp t (user_key x.1)). lia.
    + intros x u Hx Hl. apply (last_seen_le s (take n mes) (e :: B)); [|done|done]. rewrite <- Em. by eapply over_sorted.
    + apply user_view_app.
    + intros B1 e' B2 _ _. split; [apply user_view_app|apply last_seen_app].
    + exists d'. rewrite <- Em in Hsh'. by split_and!.
  - eexists. split; [done|]. split_and!; [done..|]. rewrite take_ge by lia. rewrite at_index_ge by done. split; [done|].
    exists None. by eapply (over_iter d).
Qed.

Lemma skip_current_ok d A e B : let s := DBIter.sequence_ d in
  over d (A ++ e :: B) (Some (length A)) -> DBIter.direction_ d = kForward -> shown s A e ->
  exists d', DBIter.skip_current d = Some d' /\ DBIter.sequence_ d' = s /\ DBIter.direction_ d' = kForward /\
    shows d' (A ++ e :: B) (at_index (user_view s None (A ++ e :: B)) (S (length (user_view s None A)))).
Proof.
  intros s Ho Hdir Hsh. pose proof Hsh as (Hv & Ht & Hl). unfold DBIter.skip_current.
  destruct (over_at _ _ _ _ Ho) as (_ & Ek & _ & _ & Eu). rewrite Ek. bind_simpl. rewrite Eu.
  pose proof (over_sorted _ _ _ Ho) as (_ & Hs%(ik_sorted_cons ucmp) & _)%(app_sorted ucmp). destruct Hs as (_ & _ & Hs).
  assert (forall X, user_view s (Some (user_key e.1)) (e :: X) = user_view s (Some (user_key e.1)) X) as Hhide.
  { intros X. cbn [user_view]. by rewrite (proj2 (Z.leb_le _ _)), bool_decide_true by done. }
  destruct (FindNext_ok true (DBIter.with_key d (user_key e.1)) A e B (Some (user_key e.1))
    (user_view s None A ++ [(user_key e.1, e.2)])) as (d' & -> & Es & Ed & Hsh').
  - done.
  - done.
  - done.
  - intros x u [->|Hx]%elem_of_cons [= <-]; [by rewrite (proj2 (ucmp_eq ucmp _ _) eq_refl)|by apply Hs].
  - cbn [DBIter.sequence_ DBIter.with_key]. fold s. by rewrite Hhide, (view_split _ _ _ _ Hsh), <- app_assoc.
  - cbn [DBIter.sequence_ DBIter.with_key]. fold s. intros B1 e' B2 EB Hne. destruct B1 as [|b B1].
    { cbn in EB, Hne. injection EB as -> ->. done. }
    injection EB as <- EB. rewrite Hhide, (view_split _ _ _ _ Hsh), <- app_assoc, last_seen_app. split; [done|].
    cbn [last_seen]. by rewrite (proj2 (Z.leb_le _ _)) by done.
  - exists d'. split_and!; [done..|]. cbn [DBIter.sequence_ DBIter.with_key] in Hsh'. fold s in Hsh'.
    by rewrite length_app, Nat.add_1_r in Hsh'.
Qed.

Lemma DBIter_Next_ok d mes i : shows d mes (Some i) ->
  exists d', DBIter.Next d = Some d' /\ DBIter.sequence_ d' = DBIter.sequence_ d /\ DBIter.direction_ d' = kForward /\
    shows d' mes (at_index (user_view (DBIter.sequence_ d) None mes) (S i)).
Proof.
  intros (Hvalid & A & e & B & -> & Hsh & -> & Hdir). unfold DBIter.Next. rewrite Hvalid. cbn [negb].
  destruct (DBIter.direction_ d) eqn:Ed; [by apply skip_current_ok|]. destruct Hdir as (Ho & _ & _).
  assert (exists i, (if negb (Iterator.Valid (DBIter.iter_ d)) then Iterator.SeekToFirst (DBIter.iter_ d) else Iterator.Next (DBIter.iter_ d)) = Some i /\
    Iterator.rep i (map raw (A ++ e :: B)) (Some (length A))) as (i & -> & Hi).
  { pose proof Ho as (Hr & _). rewrite (Iterator.l_Valid _ _ _ Hr). destruct (length A) as [|n] eqn:El; cbn [before is_valid negb] in *.
    - destruct (Iterator.l_SeekToFirst (cmp := icmp) (valid := internal_ok) _ _ _ Hr) as (i & E & Hi). exists i. split; [done|].
      rewrite at_index_lt in Hi; [done|]. rewrite length_map, length_app. cbn. lia.
    - destruct (Iterator.l_Next (cmp := icmp) (valid := internal_ok) _ _ _ Hr) as (i & E & Hi). exists i. split; [done|].
      rewrite at_index_lt in Hi; [done|]. rewrite length_map, length_app. cbn. lia. }
  bind_simpl. rewrite (Iterator.l_Valid _ _ _ Hi). cbn [is_valid negb].
  by apply (skip_current_ok (DBIter.with_iter (DBIter.with_direction d kForward) i) A e B); [eapply (over_iter d)|..].
Qed.

(** ** Operations that move backward, when the snapshot sees every entry *)

Definition all_seen (s : Z) mes : Prop := Forall (fun e => sequence e.1 <= s) mes.

(** The entries [Q] have been scanned; the first of them decides. *)
Definition scanned d (vt : ValueType) (Q : list mem_entry) : Prop :=
  match Q with
  | [] => vt = kTypeDeletion
  | e :: Q => vt = type e.1 /\ (vt = kTypeValue -> DBIter.saved_key_ d = user_key e.1 /\ DBIter.saved_value_ d = e.2) /\
      user_view (DBIter.sequence_ d) (Some (user_key e.1)) Q = []
  end.

Lemma over_prev d A a R : over d (A ++ a :: R) (Some (length A)) ->
  exists i, Iterator.Prev (DBIter.iter_ d) = Some i /\ Iterator.rep i (map raw (A ++ a :: R)) (before (length A)) /\
    Iterator.Valid i = is_valid (before (length A)).
Proof.
  intros (Hr & _). destruct (Iterator.l_Prev (cmp := icmp) (valid := internal_ok) _ _ _ Hr) as (i & E & Hi). exists i.
  split_and!; [done..|]. exact (Iterator.l_Valid _ _ _ Hi).
Qed.

(** Taking an entry as the new candidate keeps the invariant. *)
Lemma scanned_take d d' vt Q a : scanned d vt Q -> DBIter.sequence_ d' = DBIter.sequence_ d ->
  Forall (fun e => sequence e.1 <= DBIter.sequence_ d) Q ->
  (forall e Q', Q = e :: Q' -> vt = kTypeValue -> user_key a.1 = user_key e.1) ->
  (type a.1 = kTypeValue -> DBIter.saved_key_ d' = user_key a.1 /\ DBIter.saved_value_ d' = a.2) ->
  scanned d' (type a.1) (a :: Q).
Proof.
  intros HS Es Hv Hsame Hsave. split_and!; [done..|]. rewrite Es. destruct Q as [|e Q]; [done|].
  destruct HS as (-> & _ & Hnil). inversion_clear Hv as [|? ? Hve _]. cbn [user_view].
  rewrite (proj2 (Z.leb_le _ _)) by done. destruct (type e.1) eqn:Et.
  - case_bool_decide as Eu; [by rewrite Eu|done].
  - by rewrite bool_decide_true, (Hsame e Q eq_refl) by (f_equal; by apply (Hsame e Q)).
Qed.

Lemma FindPrev_loop_ok n vt d A a Q R : let s := DBIter.sequence_ d in
  over d (A ++ a :: Q ++ R) (Some (length A)) -> (length A < n)%nat -> all_seen s (A ++ a :: Q) -> scanned d vt Q ->
  exists vt' d' A' e Q', DBIter.FindPrevUserEntry_loop n vt d = Some (vt', d') /\ A ++ a :: Q = A' ++ e :: Q' /\
    over d' (A ++ a :: Q ++ R) (before (length A')) /\ DBIter.sequence_ d' = s /\ DBIter.direction_ d' = DBIter.direction_ d /\
    scanned d' vt' (e :: Q') /\
    (A' = [] \/ vt' = kTypeValue /\ exists A0 b, A' = A0 ++ [b] /\ Compare ucmp (user_key b.1) (user_key e.1) < 0).
Proof.
  intros s. revert vt d A a Q s. induction n as [|n IH]; intros vt d A a Q s Ho Hn Hseen HS; [lia|].
  cbn [DBIter.FindPrevUserEntry_loop]. destruct (over_at _ _ _ _ Ho) as (_ & Ek & Ev & EP & Eu). rewrite EP. bind_simpl.
  pose proof Hseen as [_ HvS]%Forall_app. inversion_clear HvS as [|? ? Hva HvS']. fold s.
  rewrite (proj2 (Z.leb_le _ _)) by done.
  destruct (bool_decide (vt <> kTypeDeletion) && _) eqn:Ebreak.
  { apply andb_true_iff in Ebreak as [Hvt%bool_decide_eq_true Hlt%Z.ltb_lt]. destruct Q as [|e Q]; [by destruct Hvt|].
    pose proof HS as (Evt & Hsv & _). assert (vt = kTypeValue) as Evt' by (by destruct vt). destruct (Hsv Evt') as [Esk _].
    rewrite Esk in Hlt. exists vt, d, (A ++ [a]), e, Q. rewrite <- app_assoc. split_and!; try done.
    - rewrite length_app, Nat.add_1_r. done.
    - right. split; [done|]. by exists A, a. }
  assert (forall e Q', Q = e :: Q' -> vt = kTypeValue -> user_key a.1 = user_key e.1) as Hsame.
  { intros e Q' -> ->. destruct HS as (_ & Hsv & _). destruct (Hsv eq_refl) as [Esk _]. cbn in Ebreak. rewrite Esk in Ebreak.
    apply Z.ltb_ge in Ebreak. apply (ucmp_eq ucmp).
    pose proof (over_sorted _ _ _ Ho) as (_ & Hs%(ik_sorted_cons ucmp) & _)%(app_sorted ucmp). destruct Hs as (_ & _ & Hs).
    destruct (Hs e) as (_ & Hle & _); [left|]. lia. }
  set (d1 := match type a.1 with
    | kTypeDeletion => DBIter.ClearSavedValue (DBIter.with_key d [])
    | kTypeValue => DBIter.with_value (DBIter.with_key d (user_key a.1)) a.2 end).
  assert (match type a.1 with
    | kTypeDeletion => Some (DBIter.ClearSavedValue (DBIter.with_key d []))
    | kTypeValue => raw_value ← Iterator.value (DBIter.iter_ d); k ← Iterator.key (DBIter.iter_ d);
        Some (DBIter.with_value (DBIter.with_key d (ExtractUserKey k)) raw_value) end = Some d1) as ->.
  { unfold d1. destruct (type a.1); [done|]. rewrite Ev, Ek. bind_simpl. by rewrite Eu. }
  bind_simpl. assert (DBIter.iter_ d1 = DBIter.iter_ d) as -> by (unfold d1; by destruct (type a.1)).
  destruct (over_prev _ _ _ _ Ho) as (i & -> & Hi & Hvi). bind_simpl. rewrite Hvi.
  assert (over (DBIter.with_iter d1 i) (A ++ a :: Q ++ R) (before (length A))) as Ho1.
  { destruct Ho as (_ & ? & ? & ?). split_and!; try done. unfold d1. by destruct (type a.1). }
  assert (scanned (DBIter.with_iter d1 i) (type a.1) (a :: Q)) as HS1.
  { eapply scanned_take; [done| |done|done|]; unfold d1; by destruct (type a.1). }
  assert (DBIter.sequence_ (DBIter.with_iter d1 i) = s /\ DBIter.direction_ (DBIter.with_iter d1 i) = DBIter.direction_ d) as [Es Ed]
    by (unfold d1; by destruct (type a.1)).
  destruct A as [|a0 A _] using rev_ind; [cbn [length before is_valid]|rewrite length_app, Nat.add_1_r; cbn [before is_valid]].
  - exists (type a.1), (DBIter.with_iter d1 i), [], a, Q. split_and!; try done. by left.
  - rewrite length_app, Nat.add_1_r in Ho1. cbn [before] in Ho1. rewrite <- app_assoc in Ho1, Hseen. cbn [app] in Ho1, Hseen.
    destruct (IH (type a.1) (DBIter.with_iter d1 i) A a0 (a :: Q) Ho1) as (vt' & d' & A' & e & Q' & E & EA & Ho' & Es' & Ed' & HS' & Hend).
    + rewrite length_app in Hn. cbn in Hn. lia.
    + by rewrite Es.
    + done.
    + exists vt', d', A', e, Q'. rewrite <- !app_assoc. cbn [app]. split_and!; try done; congruence.
Qed.

Lemma FindPrev_ok d A R : let s := DBIter.sequence_ d in
  over d (A ++ R) (before (length A)) -> DBIter.direction_ d = kReverse -> all_seen s A ->
  exists d', DBIter.FindPrevUserEntry d = Some d' /\ DBIter.sequence_ d' = s /\
    shows d' (A ++ R) (before (length (user_view s None A))).
Proof.
  intros s Ho Hdir Hseen. unfold DBIter.FindPrevUserEntry. rewrite bool_decide_false by (intros Hc; by apply Hc).
  pose proof Ho as (Hr & _). rewrite (Iterator.l_Valid _ _ _ Hr).
  destruct A as [|a A _] using rev_ind; [|rewrite length_app, Nat.add_1_r in *]; cbn [before is_valid length] in *.
  { bind_simpl. eexists. split_and!; [done..|]. cbn. split; [done|]. by exists None. }
  rewrite <- app_assoc in Ho. cbn [app] in Ho.
  destruct (FindPrev_loop_ok fuel kTypeDeletion d A a [] R Ho) as (vt & d' & A' & e & Q' & -> & EA & Ho' & Es & Ed & HQ & Hend); [|done..|].
  { destruct Ho as (_ & _ & _ & Hf). rewrite length_app in Hf. cbn in Hf. lia. }
  bind_simpl. rewrite EA in Hseen |- *. fold s in Es. apply Forall_app in Hseen as [HsA Hse]. inversion_clear Hse as [|? ? Hve _].
  assert (over d' ((A' ++ e :: Q') ++ R) (before (length A'))) as Ho2 by (rewrite <- EA, <- app_assoc; done). clear Ho'.
  destruct HQ as (Evt & Hsv & Hnil). rewrite Es in Hnil. destruct vt.
  - destruct Hend as [->|[? _]]; [|done]. eexists. split_and!; [done|done|]. cbn [app user_view].
    rewrite (proj2 (Z.leb_le _ _)), bool_decide_false, <- Evt, Hnil by done. split; [done|]. by exists (before 0).
  - destruct (Hsv eq_refl) as [Esk Esv]. eexists. split_and!; [done|done|].
    assert (shown s A' e) as Hsh.
    { split_and!; [done|done|]. intros [?|(x & Hx & _ & Ex)]%last_seen_in; [done|].
      destruct Hend as [->|(_ & A0 & b & -> & Hlt)]; [set_solver|].
      assert (Compare ucmp (user_key x.1) (user_key b.1) <= 0) as Hxb.
      { pose proof (over_sorted _ _ _ Ho2) as Hso. rewrite <- !app_assoc in Hso. apply (app_sorted ucmp) in Hso as (_ & _ & Hso).
        apply elem_of_app in Hx as [Hx|Hx]; [apply Hso; [done|cbn; left]|].
        apply list_elem_of_singleton in Hx as ->. by rewrite (proj2 (ucmp_eq ucmp _ _) eq_refl). }
      rewrite Ex in Hxb. pose proof (ucmp_sgn ucmp (user_key b.1) (user_key e.1)). lia. }
    rewrite (view_split _ _ _ _ Hsh), Hnil, length_app, Nat.add_1_r. cbn [before]. split; [done|].
    exists A', e, (Q' ++ R). cbn [DBIter.sequence_ DBIter.direction_ DBIter.with_valid DBIter.saved_key_ DBIter.saved_value_].
    rewrite Es, Ed, Hdir. split_and!; try done. by rewrite <- app_assoc.
Qed.

Lemma SeekToLast_ok d mes p : all_seen (DBIter.sequence_ d) mes -> shows d mes p ->
  exists d', DBIter.SeekToLast d = Some d' /\ DBIter.sequence_ d' = DBIter.sequence_ d /\
    shows d' mes (before (length (user_view (DBIter.sequence_ d) None mes))).
Proof.
  intros Hseen [q Ho]%shows_over. pose proof Ho as (Hr & _). unfold DBIter.SeekToLast.
  cbn [DBIter.iter_ DBIter.ClearSavedValue DBIter.with_direction DBIter.with_value].
  destruct (Iterator.l_SeekToLast (cmp := icmp) (valid := internal_ok) _ _ _ Hr) as (i & -> & Hi). bind_simpl.
  rewrite length_map in Hi. set (d1 := DBIter.with_iter _ i).
  destruct (FindPrev_ok d1 mes []) as (d' & E & Es & Hsh); [|done|done|].
  - rewrite app_nil_r. by eapply (over_iter d).
  - exists d'. rewrite app_nil_r in Hsh. by split_and!.
Qed.

(** One round of the scan of [Prev]. *)
Lemma Prev_loop_step n d : (0 < n)%nat -> DBIter.Prev_loop n d =
  (i ← Iterator.Prev (DBIter.iter_ d);
   let d := DBIter.with_iter d i in
   if negb (Iterator.Valid i) then Some (false, DBIter.ClearSavedValue (DBIter.with_key (DBIter.with_valid d false) []))
   else
     k ← Iterator.key i;
     if Compare ucmp (ExtractUserKey k) (DBIter.saved_key_ d) <? 0 then Some (true, d) else DBIter.Prev_loop (n - 1) d).
Proof. intros Hn. destruct n as [|n]; [lia|]. cbn [DBIter.Prev_loop]. by replace (S n - 1)%nat with n by lia. Qed.

Lemma DBIter_Prev_ok d mes i : all_seen (DBIter.sequence_ d) mes -> shows d mes (Some i) ->
  exists d', DBIter.Prev d = Some d' /\ DBIter.sequence_ d' = DBIter.sequence_ d /\ shows d' mes (before i).
Proof.
  intros Hseen (Hvalid & A & e & B & -> & Hsh & -> & Hdir). unfold DBIter.Prev. rewrite Hvalid. cbn [negb].
  apply Forall_app in Hseen as [HsA _].
  destruct (DBIter.direction_ d) eqn:Ed; [|destruct Hdir as (Ho & _); by apply FindPrev_ok].
  rename Hdir into Ho. destruct (over_at _ _ _ _ Ho) as (-> & -> & _ & _ & Eu). cbn [negb]. bind_simpl. rewrite Eu.
  destruct Ho as (Hr0 & Hq0 & Hs0 & Hf0). rewrite Prev_loop_step by lia. pose proof (conj Hr0 (conj Hq0 (conj Hs0 Hf0)) : over _ _ _) as Ho.
  cbn [DBIter.iter_ DBIter.with_key]. destruct (over_prev _ _ _ _ Ho) as (i & -> & Hi & Hvi). bind_simpl. cbv zeta. rewrite Hvi.
  destruct A as [|a A _] using rev_ind; [|rewrite length_app, Nat.add_1_r in *]; cbn [before is_valid negb length] in *.
  - bind_simpl. eexists. split_and!; [done..|]. cbn. split; [done|]. exists None. by eapply (over_iter d).
  - set (d1 := DBIter.with_iter _ i).
    assert (over d1 (A ++ a :: (e :: B)) (Some (length A))) as Ho1.
    { rewrite <- app_assoc in Ho, Hi. eapply (over_iter d); [done|]. by rewrite length_map in Hi || done. }
    destruct (over_at _ _ _ _ Ho1) as (_ & Ek & _ & _ & Eua). cbn [DBIter.iter_ d1 DBIter.with_iter] in Ek. rewrite Ek. bind_simpl. rewrite Eua.
    assert (Compare ucmp (user_key a.1) (user_key e.1) < 0) as Hlt.
    { destruct Hsh as (_ & _ & Hl). rewrite last_seen_app in Hl. cbn [last_seen] in Hl. apply Forall_app in HsA as [_ Hsa].
      inversion_clear Hsa as [|? ? Hva _]. rewrite (proj2 (Z.leb_le _ _)) in Hl by done.
      pose proof (over_sorted _ _ _ Ho1) as (_ & Hs%(ik_sorted_cons ucmp) & _)%(app_sorted ucmp). destruct Hs as (_ & _ & Hs).
      destruct (Hs e) as (_ & Hle & _); [left|]. destruct (decide (Compare ucmp (user_key a.1) (user_key e.1) = 0)) as [E%(ucmp_eq ucmp)|]; [congruence|lia]. }
    cbn [DBIter.saved_key_ d1 DBIter.with_iter DBIter.with_key]. rewrite (proj2 (Z.ltb_lt _ _)) by done. bind_simpl.
    apply (FindPrev_ok (DBIter.with_direction d1 kReverse) (A ++ [a]) (e :: B)); [|done|done].
    rewrite length_app, Nat.add_1_r, <- app_assoc. cbn [before app]. destruct Ho1 as (? & ? & ? & ?). by split_and!.
Qed.

(** ** Sequences of calls *)

Definition forward_move (mv : move) : Prop := match mv with MSeekToLast | MPrev => False | _ => True end.

Lemma observe_shows d mes p : shows d mes p -> observe d = Some (i ← p; user_view (DBIter.sequence_ d) None mes !! i).
Proof.
  intros Hsh. unfold observe. cbn [Iterator.Valid Iterator.key Iterator.value DBIter.ops]. unfold DBIter.Valid, DBIter.key, DBIter.value.
  destruct p as [i|]; [|destruct Hsh as [-> _]; done].
  destruct Hsh as (-> & A & e & B & -> & Hsh & -> & Hdir). bind_simpl. rewrite (view_split _ _ _ _ Hsh), lookup_app_r, Nat.sub_diag by done.
  cbn [lookup list_lookup]. destruct (DBIter.direction_ d).
  - destruct (over_at _ _ _ _ Hdir) as (_ & -> & -> & _ & Eu). bind_simpl. by rewrite Eu.
  - by destruct Hdir as (_ & -> & ->).
Qed.

Lemma moves_shows mvs d mes p q : let V := user_view (DBIter.sequence_ d) None mes in
  Forall (move_ok user_ok) mvs -> Forall forward_move mvs \/ all_seen (DBIter.sequence_ d) mes -> shows d mes p ->
  spec_moves (Compare ucmp) V mvs p = Some q ->
  exists d', do_moves mvs d = Some d' /\ shows d' mes q /\ DBIter.sequence_ d' = DBIter.sequence_ d.
Proof.
  intros V. subst V. revert d p. induction mvs as [|mv mvs IH]; intros d p Hok Hdir Hsh Hq; cbn in Hq |- *; [by simplify_eq; eauto|].
  inversion_clear Hok as [|? ? Hmv Hok'].
  destruct (spec_move _ _ mv p) as [p'|] eqn:Ep; [|done]. cbn in Hq.
  assert (exists d', do_move mv d = Some d' /\ DBIter.sequence_ d' = DBIter.sequence_ d /\ shows d' mes p') as (d' & -> & Es & Hsh').
  { assert (forward_move mv \/ all_seen (DBIter.sequence_ d) mes) as Hone by (destruct Hdir as [Hdir|]; [left; by inversion Hdir|by right]).
    destruct mv; cbn in Ep |- *; simplify_eq.
    - destruct (SeekToFirst_ok d mes p Hsh) as (d' & ? & ? & _ & ?). eauto.
    - apply (SeekToLast_ok d mes p); [by destruct Hone|done].
    - destruct (Seek_ok target d mes p Hmv Hsh) as (d' & ? & ? & _ & ?). eauto.
    - destruct p as [i|]; [|done]. injection Ep as <-. destruct (DBIter_Next_ok d mes i Hsh) as (d' & ? & ? & _ & ?). eauto.
    - destruct p as [i|]; [|done]. injection Ep as <-. apply (DBIter_Prev_ok d mes i); [by destruct Hone|done]. }
  bind_simpl. rewrite <- Es in Hq. destruct (IH d' p' Hok') as (d2 & E2 & Hsh2 & Es2); [|done|done|].
  - rewrite Es. destruct Hdir as [Hdir|]; [left; by inversion Hdir|by right].
  - exists d2. split_and!; [done..|congruence].
Qed.
End Laws.

(** Moving backward does not end when the snapshot does not see the entry the
    internal iterator is at: [iter_->Prev()] is called for visible entries only,
    so the loop of [FindPrevUserEntry] comes back to the same state. *)
Lemma FindPrevUserEntry_hangs (ucmp : Comparator) {I : Type} `{!Iterator.Ops I} (fuel : nat)
    (d : DBIter.t I ucmp fuel) (p : ParsedInternalKey) (vt : ValueType) :
  Iterator.Valid (DBIter.iter_ d) = true -> Iterator.key (DBIter.iter_ d) = Some (AppendInternalKey [] p) ->
  seq_ok (sequence p) -> DBIter.sequence_ d < sequence p ->
  forall n, DBIter.FindPrevUserEntry_loop n vt d = None.
Proof.
  intros Hv Hk Hs Hlt n. induction n as [|n IH]; [done|]. cbn [DBIter.FindPrevUserEntry_loop]. unfold DBIter.ParseKey.
  rewrite Hk. bind_simpl. rewrite Parse_Append by done. bind_simpl. rewrite (proj2 (Z.leb_gt _ _)) by done. by rewrite Hv.
Qed.

(** So [SeekToLast] hangs when the last entry is newer than the snapshot. *)
Lemma SeekToLast_hangs (ucmp : Comparator) {I : Type} `{!Iterator.Ops I} `{!Iterator.Model I} `{!Iterator.Laws (InternalKeyCompare ucmp) internal_ok I}
    (fuel : nat) (i : I) (mes : list mem_entry) (e : mem_entry) (q : option nat) (s : Z) :
  Iterator.rep i (map raw (mes ++ [e])) q -> seq_ok (sequence e.1) -> s < sequence e.1 ->
  DBIter.SeekToLast (DBIter.new i s : DBIter.t I ucmp fuel) = None.
Proof.
  intros Hr Hs Hlt. unfold DBIter.SeekToLast. cbn [DBIter.new DBIter.iter_ DBIter.ClearSavedValue DBIter.with_direction DBIter.with_value].
  destruct (Iterator.l_SeekToLast (cmp := InternalKeyCompare ucmp) (valid := internal_ok) _ _ _ Hr) as (j & -> & Hj). bind_simpl.
  rewrite length_map, length_app, Nat.add_comm in Hj. cbn in Hj. rewrite ?Nat.sub_0_r in Hj.
  assert (map raw (mes ++ [e]) !! length mes = Some (raw e)) as He by (rewrite list_lookup_fmap, list_lookup_middle; done).
  destruct (Iterator.l_key (cmp := InternalKeyCompare ucmp) (valid := internal_ok) _ _ _ _ Hj He) as [Hk _].
  pose proof (Iterator.l_Valid (cmp := InternalKeyCompare ucmp) (valid := internal_ok) _ _ _ Hj) as Hv. cbn in Hv.
  unfold DBIter.FindPrevUserEntry. cbn [DBIter.direction_ DBIter.with_iter]. rewrite bool_decide_eq_false_2 by (intros Hne; by apply Hne).
  cbn [DBIter.iter_ DBIter.with_iter]. rewrite Hv. by rewrite (FindPrevUserEntry_hangs ucmp fuel _ e.1).
Qed.

(** ** Properties *)

(** C11: The database iterator shows a snapshot.  Over internal entries sorted by
    internal key, with one entry per user key and sequence number, any allowed
    sequence of calls that moves forward ([SeekToFirst], [Seek], [Next]) shows the
    pairs of the snapshot's view in order.  The view is sorted by user key and holds
    exactly the pairs that a read at the snapshot returns: the newest version of the
    user key at or before it, when that is a value.  A sequence that also moves
    backward ([SeekToLast], [Prev]) shows them too if the snapshot sees every entry;
    otherwise it may not return: when the last entry is newer than the snapshot,
    [SeekToLast] loops for ever (db_iter.cpp calls [iter_->Prev()] for visible
    entries only). *)
Theorem DBIter_correct (ucmp : Comparator) `{!ComparatorLaws ucmp any_key}
    {I : Type} `{!Iterator.Ops I} `{!Iterator.Model I} `{!Iterator.Laws (InternalKeyCompare ucmp) internal_ok I}
    (fuel : nat) (internal_iter : I) (mes : list mem_entry) (q0 : option nat) (s : Z) (mvs : list move) (q : option nat) :
  Iterator.rep internal_iter (map raw mes) q0 -> Forall (fun e => seq_ok (sequence e.1)) mes -> seq_ok s ->
  ForallOrdPairs fresh_pair mes -> (length mes < fuel)%nat -> Forall (move_ok user_ok) mvs ->
  let V := user_view s None mes in
  (forall mes' e, mes = mes' ++ [e] -> s < sequence e.1 ->
     do_moves [MSeekToLast] (DBIter.new (ucmp := ucmp) (fuel := fuel) internal_iter s) = None) /\
  (Forall forward_move mvs \/ all_seen s mes -> spec_moves (Compare ucmp) V mvs None = Some q ->
   exists d, do_moves mvs (DBIter.new (ucmp := ucmp) (fuel := fuel) internal_iter s) = Some d /\
     observe d = Some (i ← q; V !! i)) /\
  StronglySorted (fun a b => Compare ucmp a.1 b.1 < 0) V /\
  (forall u v, (u, v) ∈ V <-> exists p, newest mes u s = Some (p, v) /\ type p = kTypeValue).
Proof.
  intros Hr Hseq Hs Hfresh Hfuel Hmv V. set (d0 := DBIter.new internal_iter s : DBIter.t I ucmp fuel).
  assert (over ucmp d0 mes q0) as Ho by (by split_and!). pose proof (over_sorted ucmp _ _ _ Ho) as Hik. split_and!.
  - intros mes' e -> Hlt. apply Forall_app in Hseq as [_ Hl]. pose proof (Forall_inv Hl) as He.
    pose proof (SeekToLast_hangs ucmp fuel internal_iter mes' e q0 s Hr He Hlt) as Hn.
    change ((it ← DBIter.SeekToLast (DBIter.new internal_iter s : DBIter.t I ucmp fuel); do_moves [] it) = None). by rewrite Hn.
  - intros Hdir Hq. destruct (moves_shows ucmp mvs d0 mes None q) as (d & E & Hsh & Es); [done|done| |done|].
    { split; [done|by exists q0]. }
    exists d. split; [done|]. rewrite (observe_shows ucmp d mes q Hsh), Es. done.
  - by apply (view_sorted ucmp s None mes).
  - intros u v. unfold V. rewrite (user_view_newest ucmp s None mes u v) by done. naive_solver.
Qed.

(** Writes to a memtable, and the order its iterator shows them in. *)
Definition sample_writes : list mem_entry := [put_at "a" 1; put_at "b" 2; del_at "a" 3; put_at "c" 4].
Definition sample_sorted : list mem_entry := [del_at "a" 3; put_at "a" 1; put_at "b" 2; put_at "c" 4].

Lemma sample_writes_ok : Forall entry_ok sample_writes /\ ForallOrdPairs fresh_pair sample_writes.
Proof.
  split; [repeat constructor; unfold seq_ok; rewrite ?kMaxSequenceNumber_val; cbn; lia|].
  repeat constructor; unfold fresh_pair; cbn; (congruence || lia).
Qed.

Lemma sample_memtable : exists m, add_all (H := BumpHeap) BytewiseComparator (MemTable_new (H := BumpHeap)) sample_writes = Some m /\
  Iterator.rep (MemTable_NewIterator BytewiseComparator m) (map raw sample_sorted) None.
Proof.
  pose proof sample_writes_ok as [Hok Hf].
  destruct (add_all_ok (HA := BumpHeap) BytewiseComparator sample_writes _ [] (MemTable_new_rep (HA := BumpHeap) BytewiseComparator) Hok Hf) as (m & E & Hm).
  exists m. split; [done|]. destruct (MemTable_NewIterator_ok BytewiseComparator m _ Hm) as (mes & Hp & Hr).
  replace (map raw sample_sorted) with (map raw mes); [done|]. pose proof (Iterator.l_sorted _ _ _ Hr) as [Hv Hs].
  assert (map raw mes ≡ₚ map raw sample_sorted) as Hp'.
  { apply Permutation_map. rewrite Hp. symmetry. apply (Permutation_middle [put_at "a" 1; put_at "b" 2] [put_at "c" 4] (del_at "a" 3)). }
  apply (sorted_entries_unique (InternalKeyCompare BytewiseComparator) internal_ok); [by split| |].
  - split; [by rewrite <- Hp'|]. repeat constructor.
  - done.
Qed.

Lemma DBIter_correct_witness :
  exists m, add_all (H := BumpHeap) BytewiseComparator (MemTable_new (H := BumpHeap)) sample_writes = Some m /\
    (exists d, do_moves [MSeekToLast; MPrev; MNext]
        (DBIter.new (ucmp := BytewiseComparator) (fuel := 5) (MemTable_NewIterator BytewiseComparator m) 7) = Some d /\
      observe d = Some (Some (str "c", str "v"))) /\
    do_moves [MSeekToLast] (DBIter.new (ucmp := BytewiseComparator) (fuel := 5) (MemTable_NewIterator BytewiseComparator m) 3) = None.
Proof.
  destruct sample_memtable as (m & E & Hr). exists m. split; [exact E|].
  assert (forall s, seq_ok s -> _) as H by (intros s Hs; refine (DBIter_correct BytewiseComparator 5 (MemTable_NewIterator BytewiseComparator m) sample_sorted None s
    [MSeekToLast; MPrev; MNext] (Some 1%nat) Hr _ Hs _ _ _);
    [repeat constructor; unfold seq_ok; rewrite ?kMaxSequenceNumber_val; cbn; lia|repeat constructor; unfold fresh_pair; cbn; (congruence || lia)|cbn; lia|repeat constructor]).
  split.
  - destruct (H 7) as (_ & Hd & _); [unfold seq_ok; rewrite kMaxSequenceNumber_val; lia|]. apply Hd; [right; repeat constructor; cbn; lia|reflexivity].
  - destruct (H 3) as (Hd & _); [unfold seq_ok; rewrite kMaxSequenceNumber_val; lia|].
    apply (Hd [del_at "a" 3; put_at "a" 1; put_at "b" 2] (put_at "c" 4)); [reflexivity|cbn; lia].
Defined.
