(* ===== verification/ReadIters.v ===== *)
(** The iterators of db/version_set.cpp and db/db_impl.cpp that put the others
    together: GetFileIterator, Version::NewConcatenatingIterator,
    Version::AddIterators, VersionSet::MakeInputIterator and
    DBImpl::NewInternalIterator.

    [new_table_iterator] is TableCache::NewIterator with the options of the call: a
    parameter, of which the theorems use that it opens an iterator over the
    entries [ents f] of a file, one whose [status()] returns. *)

From Stdlib Require Import ZArith Lia List Bool String Sorting.Sorted.
From stdpp Require Import sorting.
From S2P Require Import Prelude Lists Coding Slice Comparator DbFormat Arena MemTable VersionEdit Version VersionSet.
From S2P Require Import Iterators InternalIters Merger TwoLevel CompactionWork DbIter.

Section ReadIters.
Context (ucmp : Comparator) {T : Type} `{!Iterator.Ops T} (new_table_iterator : Z -> Z -> T) (fuel : nat).

(** The block function of a level: an error iterator if the value is not that of a
    LevelFileNumIterator. *)
Definition GetFileIterator (file_value : bytes) : option (EmptyIterator + T) :=
  if negb (Zlength file_value =? 16) then
    Some (inl (NewErrorIterator (Status_Corruption (str "FileReader invoked with unexpected value") [])))
  else Some (inr (new_table_iterator (DecodeFixed64 file_value) (DecodeFixed64 (drop 8 file_value)))).

Abbreviation ConcatIterator := (TwoLevelIterator (X := LevelFileNumIterator ucmp) GetFileIterator fuel).

Definition NewConcatenatingIterator (flist : list FileMetaData) : option ConcatIterator :=
  TwoLevel.new (NewLevelFileNumIterator ucmp flist).

(** Iterators over single files, or over the files of a level. *)
Abbreviation LevelIterator := (T + ConcatIterator)%type.

Definition file_iterator (f : FileMetaData) : LevelIterator := inl (new_table_iterator (number f) (file_size f)).

(** The levels above 0 that are not empty. *)
Fixpoint AddIterators_levels (levels : list (list FileMetaData)) : option (list LevelIterator) :=
  match levels with
  | [] => Some []
  | files :: levels =>
      if (length files =? 0)%nat then AddIterators_levels levels
      else
        c ← NewConcatenatingIterator files;
        rest ← AddIterators_levels levels;
        Some (inr c :: rest)
  end.

Definition AddIterators (v : Version) : option (list LevelIterator) :=
  rest ← AddIterators_levels (map (level_files v) (seq 1 (Z.to_nat config.kNumLevels - 1)));
  Some (map file_iterator (level_files v 0) ++ rest).

(** One round of the loop over [which]; [level] is [c->level() + which]. *)
Definition input_iterators (level : nat) (files : list FileMetaData) : option (list LevelIterator) :=
  if (length files =? 0)%nat then Some []
  else if (level =? 0)%nat then Some (map file_iterator files)
  else c ← NewConcatenatingIterator files; Some [inr c].

Definition MakeInputIterator (c : Compaction) : option (MergedIterator (InternalKeyCompare ucmp) LevelIterator) :=
  let space := if (level_ c =? 0)%nat then (length (inputs0_ c) + 1)%nat else 2%nat in
  l0 ← input_iterators (level_ c) (inputs0_ c);
  l1 ← input_iterators (level_ c + 1) (inputs1_ c);
  let list_ := l0 ++ l1 in
  if (space <? length list_)%nat then None
  else NewMergingIterator (InternalKeyCompare ucmp) list_.

(** The memtables and the current version; references are not modelled. *)
Definition NewInternalIterator (mem : MemTable) (imm : option MemTable) (current : Version)
    : option (MergedIterator (InternalKeyCompare ucmp) (MemTableIterator ucmp + LevelIterator)) :=
  files ← AddIterators current;
  let mems := MemTable_NewIterator ucmp mem :: match imm with Some m => [MemTable_NewIterator ucmp m] | None => [] end in
  NewMergingIterator (InternalKeyCompare ucmp) (map inl mems ++ map inr files).

(** DBImpl::NewIterator: the snapshot of the options, or the last sequence number. *)
Definition NewIterator (mem : MemTable) (imm : option MemTable) (current : Version) (last_sequence : Z) (snapshot : option Z)
    : option (DBIter.t (MergedIterator (InternalKeyCompare ucmp) (MemTableIterator ucmp + LevelIterator)) ucmp fuel) :=
  internal_iter ← NewInternalIterator mem imm current;
  Some (DBIter.new internal_iter (match snapshot with Some s => s | None => last_sequence end)).
End ReadIters.

(** ** Entries with different keys can be sorted *)

(** The newest version has the largest sequence number, whatever the order. *)
Lemma newest_ge (es : list mem_entry) u s q : q ∈ es -> visible u s q ->
  exists e, newest es u s = Some e /\ sequence q.1 <= sequence e.1.
Proof.
  induction es as [|a es IH]; intros Hq Hv; [set_solver|]. cbn [newest].
  destruct (bool_decide _ && _) eqn:E.
  - apply elem_of_cons in Hq as [->|Hq].
    + destruct (newest es u s) as [x|]; [|by exists a]. destruct (Z.ltb_spec (sequence x.1) (sequence a.1)); eexists; split; [done|lia|done|lia].
    + destruct (IH Hq Hv) as (x & -> & Hx). destruct (Z.ltb_spec (sequence x.1) (sequence a.1)); eexists; split; [done|lia|done|lia].
  - apply elem_of_cons in Hq as [->|Hq]; [|by apply IH]. by rewrite (proj2 (visible_dec u s a) Hv) in E.
Qed.

Lemma newest_perm (ucmp : Comparator) `{!ComparatorLaws ucmp any_key} (es es' : list mem_entry) u s : es ≡ₚ es' -> ForallOrdPairs fresh_pair es' ->
  newest es u s = newest es' u s.
Proof.
  intros Hp Hf. destruct (newest es' u s) as [e|] eqn:En.
  - pose proof (newest_visible ucmp _ _ _ _ En) as [He Hv]. apply (newest_max ucmp); [by rewrite Hp|done|]. intros q Hq Hqv. rewrite Hp in Hq.
    destruct (newest_ge es' u s q Hq Hqv) as (x & Ex & Hx). assert (x = e) as -> by congruence.
    destruct (fresh_in es' e q Hf He Hq) as [->|Hne]; [by left|right].
    specialize (Hne ltac:(destruct Hv, Hqv; congruence)). lia.
  - apply newest_none. intros q Hq Hqv. rewrite Hp in Hq. destruct (newest_ge es' u s q Hq Hqv) as (x & Ex & _). congruence.
Qed.

Section Sort.
Context (ucmp : Comparator) `{!ComparatorLaws ucmp any_key}.
Abbreviation icmp := (InternalKeyCompare ucmp).

Lemma fresh_perm (es es' : list mem_entry) : es ≡ₚ es' -> ForallOrdPairs fresh_pair es -> ForallOrdPairs fresh_pair es'.
Proof.
  induction 1 as [|x l l' Hp IH|x y l|l l' l'' _ IH1 _ IH2]; intros Hf; [done| | |auto].
  - inversion_clear Hf as [|? ? Hx Hl]. constructor; [by rewrite <- Hp|auto].
  - inversion_clear Hf as [|? ? Hy Hl]. inversion_clear Hl as [|? ? Hx Hl']. inversion_clear Hy as [|? ? Hyx Hyl].
    constructor; [constructor; [|done]|by constructor]. unfold fresh_pair in *. intros E E'. by apply Hyx.
Qed.

#[local] Instance ik_le_dec (a b : mem_entry) : Decision (icmp (ik a) (ik b) <= 0).
Proof. apply _. Defined.

Lemma ik_sort (es : list mem_entry) : Forall (fun e => seq_ok (sequence e.1)) es -> ForallOrdPairs fresh_pair es ->
  exists mes, mes ≡ₚ es /\ ik_sorted ucmp mes /\ ForallOrdPairs fresh_pair mes.
Proof.
  intros Hq Hf. set (R := fun a b : mem_entry => icmp (ik a) (ik b) <= 0).
  assert (Transitive R) as HT by (intros a b c Hab Hbc; by apply (to_trans (cmp := icmp) (valid := any_key) _ (ik b))).
  assert (Total R) as HR.
  { intros a b. unfold R. pose proof (to_sgn (cmp := icmp) (valid := any_key) (ik a) (ik b) Logic.I Logic.I). lia. }
  pose proof (merge_sort_Permutation R es) as Hp. exists (merge_sort R es). split; [done|].
  assert (ForallOrdPairs fresh_pair (merge_sort R es)) as Hf' by (eapply fresh_perm; [|done]; by symmetry).
  split; [|done]. split; [by rewrite Hp|]. pose proof (StronglySorted_merge_sort R es) as Hs.
  assert (Forall (fun e => seq_ok (sequence e.1)) (merge_sort R es)) as Hq' by (by rewrite Hp).
  clear Hp. induction Hs as [|a l Hs IH Ha]; [constructor|]. inversion_clear Hf' as [|? ? Hfa Hfl]. inversion_clear Hq' as [|? ? Hqa Hql].
  constructor; [by apply IH|]. rewrite Forall_forall in *. intros b Hb. specialize (Ha b Hb). unfold R in Ha.
  destruct (decide (icmp (ik a) (ik b) = 0)) as [E|]; [|lia]. exfalso.
  apply (icmp_eq ucmp) in E; [|unfold ik; rewrite AppendInternalKey_nil; apply ikey_app_ok..].
  apply (f_equal ParseInternalKey) in E. unfold ik in E. rewrite !Parse_Append in E by auto. injection E as E.
  apply (Hfa b Hb); by rewrite E.
Qed.

Lemma sorted_raw mes : ik_sorted ucmp mes -> Forall (fun e => Zlength (user_key e.1) + 8 < 2 ^ 32) mes ->
  sorted_entries icmp internal_ok (map raw mes).
Proof.
  intros [Hq Hs] Hl. split.
  - rewrite Forall_map. rewrite Forall_forall in *. intros e He. exists e.1. by split_and!; [apply Hq|apply Hl|].
  - clear Hq Hl. induction Hs as [|a l Hs IH Ha]; cbn; constructor; [done|]. by rewrite Forall_map.
Qed.
End Sort.

(** ** Files and levels *)

Section Laws.
Context (ucmp : Comparator) `{!ComparatorLaws ucmp any_key}.
Context {T : Type} `{!Iterator.Ops T} `{!Iterator.Model T}
  `{!Iterator.Laws (InternalKeyCompare ucmp) internal_ok T} `{!Iterator.StatusLaws T}.
Context (new_table_iterator : Z -> Z -> T) (fuel : nat) (ents : FileMetaData -> list mem_entry).
Abbreviation icmp := (InternalKeyCompare ucmp).
Abbreviation ConcatIterator := (TwoLevelIterator (X := LevelFileNumIterator ucmp) (GetFileIterator new_table_iterator) fuel).
Abbreviation LevelIterator := (T + ConcatIterator)%type.

#[local] Instance Concat_model : Iterator.Model ConcatIterator := TwoLevel_model icmp.

#[local] Instance Concat_laws : Iterator.Laws icmp internal_ok ConcatIterator.
Proof. exact (TwoLevel_laws icmp internal_ok). Qed.

#[local] Instance Merging_internal_model {I} `{!Iterator.Ops I} `{!Iterator.Model I} : Iterator.Model (Merging.t icmp I) :=
  Merging_model icmp internal_ok.

#[local] Instance Merging_internal_laws {I} `{!Iterator.Ops I} `{!Iterator.Model I} `{!Iterator.Laws icmp internal_ok I} :
  Iterator.Laws icmp internal_ok (Merging.t icmp I).
Proof. exact (Merging_laws icmp internal_ok). Qed.

(** The file opens as an iterator over its entries, which are inside its bounds. *)
Record file_ok (f : FileMetaData) : Prop := {
  fo_number : is_u64 (number f);
  fo_size : is_u64 (file_size f);
  fo_largest : internal_ok (rep_ (largest f));
  fo_open : exists p, Iterator.rep (new_table_iterator (number f) (file_size f)) (map raw (ents f)) p;
  fo_bounds : forall e, e ∈ ents f -> icmp (rep_ (smallest f)) (ik e) <= 0 /\ icmp (ik e) (rep_ (largest f)) <= 0
}.

(** The files of one level: above level 0, in order and disjoint. *)
Definition files_ok (level : nat) (files : list FileMetaData) : Prop :=
  Forall file_ok files /\
  ((0 < level)%nat -> level_wf ucmp files /\ NoDup (map number files) /\ Zlength files < 2 ^ 31 /\ (length files + 2 < fuel)%nat).

Definition entries_of (files : list FileMetaData) : list mem_entry := concat (map ents files).

(** The entries behind a handle of the level. *)
Definition level_content (files : list FileMetaData) (h : bytes) : list entry :=
  match List.find (fun f => bool_decide ((level_entry f).2 = h)) files with
  | Some f => map raw (ents f)
  | None => []
  end.

Lemma level_entry_inj files f g : Forall file_ok files -> NoDup (map number files) -> f ∈ files -> g ∈ files ->
  (level_entry f).2 = (level_entry g).2 -> f = g.
Proof.
  intros Hok Hnd Hf Hg E. rewrite Forall_forall in Hok. unfold level_entry in E. cbn [snd] in E.
  apply (f_equal DecodeFixed64) in E. rewrite !DecodeFixed64_app, !u64_small in E by (apply fo_number; auto).
  apply list_elem_of_lookup_1 in Hf as [i Hi]. apply list_elem_of_lookup_1 in Hg as [j Hj].
  assert (i = j) as <-; [|congruence]. eapply (NoDup_lookup _ _ _ (number f)); [done|..].
  - by rewrite list_lookup_fmap, Hi.
  - rewrite list_lookup_fmap, Hj. cbn. by rewrite E.
Qed.

Lemma level_content_ok files f : Forall file_ok files -> NoDup (map number files) -> f ∈ files ->
  level_content files (level_entry f).2 = map raw (ents f).
Proof.
  intros Hok Hnd Hf. unfold level_content. destruct (List.find _ files) as [g|] eqn:Eg.
  - apply find_some in Eg as [Hg%list_elem_of_In Eg%bool_decide_eq_true]. by rewrite (level_entry_inj files g f).
  - apply (find_none _ _) with (x := f) in Eg; [|by apply list_elem_of_In]. by apply bool_decide_eq_false in Eg.
Qed.

Lemma GetFileIterator_ok f : file_ok f -> exists p,
  exists d, GetFileIterator new_table_iterator (level_entry f).2 = Some d /\ Iterator.rep d (map raw (ents f)) p.
Proof.
  intros Hf. destruct (fo_open f Hf) as [p Hp]. exists p. unfold GetFileIterator, level_entry; cbn [snd].
  assert (Zlength (EncodeFixed64 (number f) ++ EncodeFixed64 (file_size f)) = 16) as ->
    by (rewrite Zlength_app; unfold Zlength; by rewrite !EncodeFixed64_length).
  cbn [Z.eqb Pos.eqb negb]. eexists. split; [done|].
  rewrite DecodeFixed64_app, u64_small by (by apply fo_number).
  rewrite drop_app_length' by (by rewrite EncodeFixed64_length).
  rewrite <- (app_nil_r (EncodeFixed64 (file_size f))), DecodeFixed64_app, u64_small by (by apply fo_size). done.
Qed.

Lemma all_entries_level files : Forall file_ok files -> NoDup (map number files) ->
  all_entries (level_content files) (map level_entry files) = map raw (entries_of files).
Proof.
  intros Hok Hnd. unfold all_entries, blocks, entries_of. rewrite concat_map, !map_map. f_equal.
  apply map_ext_in. intros f Hf%list_elem_of_In. by apply level_content_ok.
Qed.

Lemma level_index_ok level files : (0 < level)%nat -> files_ok level files ->
  index_ok icmp (block_function := GetFileIterator new_table_iterator) (fuel := fuel) (level_content files) (map level_entry files).
Proof.
  intros Hl [Hok Hlev]. destruct (Hlev Hl) as ([Hw Hs] & Hnd & _ & Hfuel). pose proof Hok as Hok'. rewrite Forall_forall in Hok'.
  split.
  - intros e (f & -> & Hf)%list_elem_of_fmap. rewrite level_content_ok by done.
    destruct (GetFileIterator_ok f (Hok' f Hf)) as (p & d & E & Hr). by exists d, p.
  - intros e x (f & -> & Hf)%list_elem_of_fmap Hx. rewrite level_content_ok in Hx by done.
    apply list_elem_of_fmap in Hx as (m & -> & Hm). by apply (fo_bounds f (Hok' f Hf)).
  - intros i j e e' x Hij He He' Hx. rewrite list_lookup_fmap in He, He'.
    destruct (files !! i) as [f|] eqn:Hf; [|done]. destruct (files !! j) as [g|] eqn:Hg; [|done].
    injection He as <-. injection He' as <-. assert (g ∈ files) as Hgin by (by eapply list_elem_of_lookup_2).
    rewrite level_content_ok in Hx by done. apply list_elem_of_fmap in Hx as (m & -> & Hm).
    pose proof (sorted_lookup _ _ _ _ _ _ Hs Hij Hf Hg) as Hfg. cbn in Hfg.
    apply (to_lt_le_trans icmp any_key _ (rep_ (smallest g))); [done..|]. by apply (fo_bounds g (Hok' g Hgin)).
  - rewrite length_map. lia.
Qed.

Lemma NewConcatenatingIterator_ok level files : (0 < level)%nat -> files_ok level files ->
  exists it, NewConcatenatingIterator ucmp new_table_iterator fuel files = Some it /\
    Iterator.rep it (map raw (entries_of files)) None.
Proof.
  intros Hl Hok. pose proof Hok as [Hf Hlev]. destruct (Hlev Hl) as (Hw & Hnd & Hlen & _).
  rewrite <- all_entries_level by done. unfold NewConcatenatingIterator.
  apply (TwoLevel_new_ok icmp internal_ok (level_content files) (map level_entry files) (NewLevelFileNumIterator ucmp files) None).
  - by eapply level_index_ok.
  - split_and!; try done.
    + eapply Forall_impl; [done|]. intros f. apply fo_largest.
    + cbn. unfold LevelIter_new. apply u32_small. unfold is_u32. pose proof (Zlength_nonneg files). lia.
Qed.

(** *** Children of a merge *)

Definition children_of (its : list LevelIterator) (es : list mem_entry) : Prop :=
  exists ess, Forall2 (fun it es => exists p, Iterator.rep it es p) its ess /\ concat ess = map raw es.

Lemma children_nil : children_of [] [].
Proof. exists []. by split; [constructor|]. Qed.

Lemma children_app its es its' es' : children_of its es -> children_of its' es' -> children_of (its ++ its') (es ++ es').
Proof.
  intros (ess & Hf & E) (ess' & Hf' & E'). exists (ess ++ ess'). split; [by apply Forall2_app|].
  by rewrite concat_app, map_app, E, E'.
Qed.

Lemma children_one (it : LevelIterator) es p : Iterator.rep it (map raw es) p -> children_of [it] es.
Proof. intros Hr. exists [map raw es]. split; [repeat constructor; eauto|]. cbn. by rewrite app_nil_r. Qed.

Lemma children_files files : Forall file_ok files ->
  children_of (map (file_iterator ucmp new_table_iterator fuel) files) (entries_of files).
Proof.
  induction 1 as [|f files Hf Hfs IH]; [apply children_nil|].
  apply (children_app [_] (ents f)); [|done]. destruct (fo_open f Hf) as [p Hp]. by apply (children_one _ _ p).
Qed.

Lemma input_iterators_ok level files : files_ok level files ->
  exists its, input_iterators ucmp new_table_iterator fuel level files = Some its /\ children_of its (entries_of files) /\
    (length its <= if (level =? 0)%nat then length files else (if (length files =? 0)%nat then 0 else 1))%nat.
Proof.
  intros Hok. unfold input_iterators. destruct (Nat.eqb_spec (length files) 0) as [Hl|Hl].
  { exists []. destruct files; [|done]. split_and!; [done|apply children_nil|]. cbn. destruct (level =? 0)%nat; lia. }
  destruct (Nat.eqb_spec level 0) as [->|Hlev].
  - eexists. split_and!; [done|by apply children_files, Hok|by rewrite length_map].
  - destruct (NewConcatenatingIterator_ok level files ltac:(lia) Hok) as (it & -> & Hr). bind_simpl.
    eexists. split_and!; [done|by eapply (children_one (inr it))|done].
Qed.

Lemma AddIterators_levels_ok levels : Forall (files_ok 1) levels ->
  exists its, AddIterators_levels ucmp new_table_iterator fuel levels = Some its /\ children_of its (concat (map entries_of levels)).
Proof.
  induction 1 as [|files levels Hok Hlevels (its & E & Hits)]; [exists []; split; [done|apply children_nil]|].
  cbn [AddIterators_levels]. destruct (Nat.eqb_spec (length files) 0) as [Hl|Hl].
  { destruct files; [|done]. by exists its. }
  destruct (NewConcatenatingIterator_ok 1 files ltac:(lia) Hok) as (it & -> & Hr). bind_simpl. rewrite E. bind_simpl.
  eexists. split; [done|]. apply (children_app [inr it]); [by eapply (children_one (inr it))|done].
Qed.

Lemma AddIterators_ok v : (forall level, files_ok level (level_files v level)) ->
  exists its, AddIterators ucmp new_table_iterator fuel v = Some its /\ children_of its (version_entries ents v).
Proof.
  intros Hok. unfold AddIterators.
  destruct (AddIterators_levels_ok (map (level_files v) (seq 1 (Z.to_nat config.kNumLevels - 1)))) as (its & -> & Hits).
  { rewrite Forall_map, Forall_forall. intros level Hl%list_elem_of_In%in_seq. destruct (Hok level) as [Hf Hlev].
    split; [done|]. intros _. apply Hlev. lia. }
  bind_simpl. eexists. split; [done|]. rewrite map_map in Hits.
  apply (children_app _ (entries_of (level_files v 0))); [|done]. by apply children_files, Hok.
Qed.

(** *** Merging *)

Lemma merge_children {I} `{!Iterator.Ops I} `{!Iterator.Model I} `{!Iterator.Laws icmp internal_ok I} (its : list I) ess es :
  Forall2 (fun it es => exists p, Iterator.rep it es p) its ess -> concat ess = map raw es ->
  Forall (fun e => seq_ok (sequence e.1)) es -> ForallOrdPairs fresh_pair es ->
  exists it p mes, NewMergingIterator icmp its = Some it /\ Iterator.rep it (map raw mes) p /\ mes ≡ₚ es /\
    ik_sorted ucmp mes /\ ForallOrdPairs fresh_pair mes.
Proof.
  intros Hits Ees Hq Hf. destruct (ik_sort ucmp es Hq Hf) as (mes & Hp & Hs & Hf').
  assert (Forall (fun e => Zlength (user_key e.1) + 8 < 2 ^ 32) mes) as Hl.
  { rewrite Hp. rewrite Forall_forall in Hq. apply Forall_forall. intros e He.
    assert (raw e ∈ concat ess) as Hin by (rewrite Ees; by apply list_elem_of_fmap_2).
    apply list_elem_of_In, in_concat in Hin as (l & Hl%list_elem_of_In & Hin%list_elem_of_In).
    apply list_elem_of_lookup_1 in Hl as [j Hj]. destruct (Forall2_lookup_r _ _ _ _ _ Hits Hj) as (it & _ & p & Hr).
    destruct (sorted_valid icmp internal_ok l (raw e) (Iterator.l_sorted _ _ _ Hr) Hin) as (k & Hk & Hlen & E).
    change (AppendInternalKey [] e.1 = AppendInternalKey [] k) in E. apply (f_equal ParseInternalKey) in E.
    rewrite !Parse_Append in E by auto. by injection E as ->. }
  destruct (NewMergingIterator_ok icmp internal_ok its ess (map raw mes) Hits) as (it & p & E & Hr).
  - split; [by apply sorted_raw|]. rewrite Ees. by apply Permutation_map.
  - by exists it, p, mes.
Qed.

Lemma MakeInputIterator_ok c : let es := entries_of (inputs0_ c) ++ entries_of (inputs1_ c) in
  files_ok (level_ c) (inputs0_ c) -> files_ok (level_ c + 1) (inputs1_ c) ->
  Forall (fun e => seq_ok (sequence e.1)) es -> ForallOrdPairs fresh_pair es ->
  exists it p mes, MakeInputIterator ucmp new_table_iterator fuel c = Some it /\ Iterator.rep it (map raw mes) p /\
    mes ≡ₚ es /\ ik_sorted ucmp mes.
Proof.
  intros es H0' H1' Hq Hf. unfold MakeInputIterator.
  destruct (input_iterators_ok _ _ H0') as (l0 & -> & Hc0 & Hl0). destruct (input_iterators_ok _ _ H1') as (l1 & -> & Hc1 & Hl1). bind_simpl.
  rewrite (proj2 (Nat.ltb_ge _ _)).
  - destruct (children_app _ _ _ _ Hc0 Hc1) as (ess & Hess & E).
    destruct (merge_children (l0 ++ l1) ess es Hess E Hq Hf) as (it & p & mes & ? & ? & ? & ? & _). by exists it, p, mes.
  - rewrite length_app. rewrite (proj2 (Nat.eqb_neq (level_ c + 1) 0)) in Hl1 by lia.
    destruct (length (inputs1_ c) =? 0)%nat, (level_ c =? 0)%nat, (length (inputs0_ c) =? 0)%nat; lia.
Qed.

Lemma NewInternalIterator_ok mem imm v ems : let es := ems ++ version_entries ents v in
  (exists em, mem_rep ucmp mem em /\ match imm with
    | Some m => exists ei, mem_rep ucmp m ei /\ ems = em ++ ei
    | None => ems = em end) ->
  (forall level, files_ok level (level_files v level)) ->
  Forall (fun e => seq_ok (sequence e.1)) es -> ForallOrdPairs fresh_pair es ->
  exists it p mes, NewInternalIterator ucmp new_table_iterator fuel mem imm v = Some it /\ Iterator.rep it (map raw mes) p /\
    mes ≡ₚ es /\ ik_sorted ucmp mes /\ ForallOrdPairs fresh_pair mes.
Proof.
  intros es (em & Hm & Himm) Hv Hq Hf. unfold NewInternalIterator.
  destruct (AddIterators_ok v Hv) as (its & -> & (ess & Hess & E)). bind_simpl.
  destruct (MemTable_NewIterator_ok ucmp mem em Hm) as (mm & Hpm & Hrm).
  assert (Forall2 (fun (it : MemTableIterator ucmp + LevelIterator) es => exists p, Iterator.rep it es p) (map inr its) ess) as Hess'.
  { clear -Hess. induction Hess; constructor; auto. }
  assert (exists mems, Forall2 (fun (it : MemTableIterator ucmp + LevelIterator) es => exists p, Iterator.rep it es p)
      (map inl (MemTable_NewIterator ucmp mem :: match imm with Some m => [MemTable_NewIterator ucmp m] | None => [] end)) mems /\
      exists es0, concat mems = map raw es0 /\ es0 ≡ₚ ems) as (mems & Hmems & es0 & Ees0 & Hp0).
  { destruct imm as [m|]; cbn [map].
    - destruct Himm as (ei & Hi & ->). destruct (MemTable_NewIterator_ok ucmp m ei Hi) as (mi & Hpi & Hri).
      exists [map raw mm; map raw mi]. split; [repeat constructor; by exists None|]. exists (mm ++ mi).
      split; [cbn; by rewrite app_nil_r, map_app|]. by rewrite Hpm, Hpi.
    - subst ems. exists [map raw mm]. split; [repeat constructor; by exists None|]. exists mm. split; [cbn; by rewrite app_nil_r|done]. }
  destruct (merge_children (map inl (MemTable_NewIterator ucmp mem :: match imm with Some m => [MemTable_NewIterator ucmp m] | None => [] end) ++ map inr its)
    (mems ++ ess) (es0 ++ version_entries ents v)) as (it & p & mes & Eit & Hr & Hp & Hs & Hf').
  - by apply Forall2_app.
  - by rewrite concat_app, map_app, Ees0, E.
  - by rewrite Hp0.
  - eapply fresh_perm; [|done]. unfold es. by rewrite Hp0.
  - exists it, p, mes. split_and!; try done. rewrite Hp. unfold es. by rewrite Hp0.
Qed.

Lemma MakeInputIterator_scan c : let es := entries_of (inputs0_ c) ++ entries_of (inputs1_ c) in
  files_ok (level_ c) (inputs0_ c) -> files_ok (level_ c + 1) (inputs1_ c) ->
  Forall (fun e => seq_ok (sequence e.1)) es -> ForallOrdPairs fresh_pair es ->
  exists it mes, MakeInputIterator ucmp new_table_iterator fuel c = Some it /\ mes ≡ₚ es /\ ik_sorted ucmp mes /\
    forall n, (length mes < n)%nat -> scan n it = Some (map raw mes).
Proof.
  intros es H0' H1' Hq Hf. destruct (MakeInputIterator_ok c H0' H1' Hq Hf) as (it & p & mes & E & Hr & Hp & Hs).
  exists it, mes. split_and!; try done. intros n Hn.
  apply (scan_ok icmp internal_ok n it (map raw mes) p Hr). by rewrite length_map.
Qed.

Lemma NewIterator_moves mem imm v ems last_sequence snapshot mvs :
  let es := ems ++ version_entries ents v in
  let s := match snapshot with Some s => s | None => last_sequence end in
  (exists em, mem_rep ucmp mem em /\ match imm with
    | Some m => exists ei, mem_rep ucmp m ei /\ ems = em ++ ei
    | None => ems = em end) ->
  (forall level, files_ok level (level_files v level)) ->
  Forall (fun e => seq_ok (sequence e.1)) es -> ForallOrdPairs fresh_pair es -> seq_ok s -> (length es < fuel)%nat ->
  Forall (move_ok user_ok) mvs -> Forall forward_move mvs \/ all_seen s es ->
  exists d0 mes, NewIterator ucmp new_table_iterator fuel mem imm v last_sequence snapshot = Some d0 /\
    mes ≡ₚ es /\ ik_sorted ucmp mes /\ ForallOrdPairs fresh_pair mes /\
    (forall q, spec_moves (Compare ucmp) (user_view s None mes) mvs None = Some q ->
     exists d, do_moves mvs d0 = Some d /\ observe d = Some (i ← q; user_view s None mes !! i)).
Proof.
  intros es s Hmem Hv Hq Hf Hs Hfuel Hmv Hdir. unfold NewIterator.
  destruct (NewInternalIterator_ok mem imm v ems Hmem Hv Hq Hf) as (it & p & mes & -> & Hr & Hp & Hik & Hf'). bind_simpl.
  eexists _, mes. split_and!; try done. intros q Hspec. set (d0 := DBIter.new it _).
  destruct (moves_shows ucmp mvs d0 mes None q) as (d & E & Hsh & Es).
  - done.
  - destruct Hdir as [|Hall]; [by left|right]. unfold all_seen, d0. cbn. by rewrite Hp.
  - split; [done|]. exists p. split_and!; [done| |done|]; [by rewrite Hp|by rewrite Hp].
  - done.
  - exists d. split; [done|]. rewrite (observe_shows ucmp d mes q Hsh), Es. done.
Qed.
End Laws.

(** ** Properties *)

(** The input of a compaction is what its files hold, in order.  If every
    input file opens as an iterator over its entries and lies inside its bounds,
    and the files of an input level above 0 are sorted and disjoint, then
    [MakeInputIterator] succeeds and a scan of its result reads the entries of all
    input files, each once, sorted by internal key. *)
Theorem MakeInputIterator_correct (ucmp : Comparator) `{!ComparatorLaws ucmp any_key}
    {T : Type} `{!Iterator.Ops T} `{!Iterator.Model T} `{!Iterator.Laws (InternalKeyCompare ucmp) internal_ok T}
    `{!Iterator.StatusLaws T} (new_table_iterator : Z -> Z -> T) (fuel : nat) (ents : FileMetaData -> list mem_entry) (c : Compaction) :
  let es := entries_of ents (inputs0_ c) ++ entries_of ents (inputs1_ c) in
  files_ok ucmp new_table_iterator fuel ents (level_ c) (inputs0_ c) ->
  files_ok ucmp new_table_iterator fuel ents (level_ c + 1) (inputs1_ c) ->
  Forall (fun e => seq_ok (sequence e.1)) es -> ForallOrdPairs fresh_pair es ->
  exists it mes, MakeInputIterator ucmp new_table_iterator fuel c = Some it /\ mes ≡ₚ es /\ ik_sorted ucmp mes /\
    forall n, (length mes < n)%nat -> scan n it = Some (map raw mes).
Proof. exact (MakeInputIterator_scan ucmp new_table_iterator fuel ents c). Qed.

(** Tables for the witnesses: file 4 holds the writes of a memtable, every other
    file is empty, and a memtable iterator stands for a table's. *)
Definition table_file (n : Z) : FileMetaData := FileMetaData_new n 100 (key_at "a" 9) (key_at "c" 1).
Definition table_entries (f : FileMetaData) : list mem_entry := if number f =? 4 then sample_sorted else [].
Definition table_iterator (m : MemTable) (n size : Z) : MemTableIterator BytewiseComparator :=
  MemTable_NewIterator BytewiseComparator (if n =? 4 then m else MemTable_new (H := BumpHeap)).

Lemma table_file_ok m n : is_u64 n -> Iterator.rep (MemTable_NewIterator BytewiseComparator m) (map raw sample_sorted) None ->
  file_ok BytewiseComparator (table_iterator m) table_entries (table_file n).
Proof.
  intros Hn Hm. split.
  - done.
  - done.
  - exists (MkParsedInternalKey (str "c") 1 kTypeValue). split_and!; [|done|done]. unfold seq_ok. rewrite kMaxSequenceNumber_val. cbn. lia.
  - exists None. unfold table_iterator, table_entries, table_file. cbn [number FileMetaData_new]. destruct (n =? 4); [done|].
    destruct (MemTable_NewIterator_ok BytewiseComparator _ [] (MemTable_new_rep (HA := BumpHeap) BytewiseComparator)) as (mes & Hp & Hr).
    apply Permutation_nil_r in Hp as ->. exact Hr.
  - intros e He. unfold table_entries, table_file in He. cbn [number FileMetaData_new] in He. destruct (n =? 4); [|set_solver].
    repeat (apply elem_of_cons in He as [->|He]; [vm_compute; split; congruence|]). set_solver.
Qed.

Lemma MakeInputIterator_correct_witness :
  exists m it, add_all (H := BumpHeap) BytewiseComparator (MemTable_new (H := BumpHeap)) sample_writes = Some m /\
    MakeInputIterator BytewiseComparator (table_iterator m) 9
      (MkCompaction 0 0 sample_version VersionEdit_new [table_file 4; table_file 5] [table_file 7] [] 0 false 0 []) = Some it /\
    exists es, scan 5 it = Some es.
Proof.
  destruct sample_memtable as (m & E & Hr). exists m.
  destruct (MakeInputIterator_correct BytewiseComparator (table_iterator m) 9 table_entries
    (MkCompaction 0 0 sample_version VersionEdit_new [table_file 4; table_file 5] [table_file 7] [] 0 false 0 []))
    as (it & mes & Eit & Hp & _ & Hscan).
  - split; [|intros Hl; inversion Hl]. do 2 (apply Forall_cons; split; [apply table_file_ok; [unfold is_u64; lia|exact Hr]|]). constructor.
  - split; [apply Forall_cons; split; [apply table_file_ok; [unfold is_u64; lia|exact Hr]|constructor]|]. intros _. split_and!.
    + split; [|repeat constructor]. repeat constructor; try (by eexists); vm_compute; congruence.
    + apply NoDup_singleton.
    + reflexivity.
    + cbn. lia.
  - repeat constructor; unfold seq_ok; rewrite ?kMaxSequenceNumber_val; cbn; lia.
  - repeat constructor; unfold fresh_pair; cbn; (congruence || lia).
  - exists it. split_and!; [exact E|exact Eit|]. exists (map raw mes). apply Hscan. rewrite Hp. cbn. lia.
Defined.

(** C10: Iterating over the database shows a snapshot of all its parts.  With the
    entries of the memtable, of the immutable memtable and of the files of the
    current version together (one per user key and sequence number), a new
    iterator is created without fault, and any allowed sequence of calls shows
    the positions of one list of pairs, which is sorted by user key and holds
    exactly the newest visible values; backward moves need the snapshot to see
    every entry. *)
Theorem DB_NewIterator_correct (ucmp : Comparator) `{!ComparatorLaws ucmp any_key}
    {T : Type} `{!Iterator.Ops T} `{!Iterator.Model T} `{!Iterator.Laws (InternalKeyCompare ucmp) internal_ok T}
    `{!Iterator.StatusLaws T} (new_table_iterator : Z -> Z -> T) (fuel : nat) (ents : FileMetaData -> list mem_entry)
    (mem : MemTable) (imm : option MemTable) (v : Version) (ems : list mem_entry)
    (last_sequence : Z) (snapshot : option Z) (mvs : list move) :
  let es := ems ++ version_entries ents v in
  let s := match snapshot with Some s => s | None => last_sequence end in
  (exists em, mem_rep ucmp mem em /\ match imm with
    | Some m => exists ei, mem_rep ucmp m ei /\ ems = em ++ ei
    | None => ems = em end) ->
  (forall level, files_ok ucmp new_table_iterator fuel ents level (level_files v level)) ->
  Forall (fun e => seq_ok (sequence e.1)) es -> ForallOrdPairs fresh_pair es -> seq_ok s -> (length es < fuel)%nat ->
  Forall (move_ok user_ok) mvs -> Forall forward_move mvs \/ all_seen s es ->
  exists d0 V, NewIterator ucmp new_table_iterator fuel mem imm v last_sequence snapshot = Some d0 /\
    StronglySorted (fun a b => Compare ucmp a.1 b.1 < 0) V /\
    (forall u w, (u, w) ∈ V <-> exists p, newest es u s = Some (p, w) /\ type p = kTypeValue) /\
    (forall q, spec_moves (Compare ucmp) V mvs None = Some q ->
     exists d, do_moves mvs d0 = Some d /\ observe d = Some (i ← q; V !! i)).
Proof.
  intros es s Hmem Hv Hq Hf Hs Hfuel Hmv Hdir.
  destruct (NewIterator_moves ucmp new_table_iterator fuel ents mem imm v ems last_sequence snapshot mvs Hmem Hv Hq Hf Hs Hfuel Hmv Hdir)
    as (d0 & mes & E & Hp & Hik & Hf' & Hmoves).
  exists d0, (user_view s None mes). split_and!; [done|by apply (view_sorted ucmp s None mes)| |].
  - intros u w. rewrite (user_view_newest ucmp s None mes u w) by done. rewrite (newest_perm ucmp mes es) by done. naive_solver.
  - exact Hmoves.
Qed.

Lemma DB_NewIterator_correct_witness :
  exists m d0 d, add_all (H := BumpHeap) BytewiseComparator (MemTable_new (H := BumpHeap)) sample_writes = Some m /\
    NewIterator BytewiseComparator (table_iterator m) 9 m None (MkVersion (replicate 7 []) None (-1) (double_of_int (-1)) (-1)) 7 None = Some d0 /\
    do_moves [MSeek (str "b")] d0 = Some d.
Proof.
  pose proof sample_writes_ok as [Hok Hf].
  destruct (add_all_ok (HA := BumpHeap) BytewiseComparator sample_writes _ [] (MemTable_new_rep (HA := BumpHeap) BytewiseComparator) Hok Hf)
    as (m & E & Hm).
  destruct (DB_NewIterator_correct BytewiseComparator (table_iterator m) 9 table_entries m None
    (MkVersion (replicate 7 []) None (-1) (double_of_int (-1)) (-1)) sample_writes 7 None [MSeek (str "b")])
    as (d0 & V & Ed0 & _ & _ & Hmoves).
  - exists sample_writes. split; [exact Hm|reflexivity].
  - intros level. assert (level_files (MkVersion (replicate 7 []) None (-1) (double_of_int (-1)) (-1)) level = []) as ->
      by (unfold level_files; do 8 (destruct level as [|level]; [done|]); done).
    split; [constructor|]. intros _. split_and!; [split; constructor|constructor|reflexivity|cbn; lia].
  - repeat constructor; unfold seq_ok; rewrite ?kMaxSequenceNumber_val; cbn; lia.
  - repeat constructor; unfold fresh_pair; cbn; (congruence || lia).
  - unfold seq_ok. rewrite kMaxSequenceNumber_val. lia.
  - apply Nat.ltb_lt. vm_compute. reflexivity.
  - apply Forall_singleton. reflexivity.
  - left. by apply Forall_singleton.
  - destruct (Hmoves _ eq_refl) as (d & Ed & _). exists m, d0, d. split_and!; [exact E|exact Ed0|exact Ed].
Defined.
