(* ===== verification/Options.v ===== *)
(** leveldb/options.h and util/options.cpp.

    The fields that hold an environment, a logger or a snapshot pointer are left
    out: the code that uses them takes them as arguments.  A block cache is only
    known to be there or not. *)

From Stdlib Require Import ZArith Lia List Bool.
From S2P Require Import Prelude Comparator Bloom.

Inductive CompressionType := kNoCompression | kSnappyCompression.

Definition CompressionType_to_Z (t : CompressionType) : Z := match t with kNoCompression => 0 | kSnappyCompression => 1 end.

Record Options := MkOptions {
  comparator : Comparator;
  create_if_missing : bool;
  error_if_exists : bool;
  paranoid_checks : bool;
  write_buffer_size : Z;
  max_open_files : Z;
  has_block_cache : bool;
  block_size : Z;
  block_restart_interval : Z;
  compression : CompressionType;
  filter_policy : option FilterPolicy
}.

Definition Options_new : Options := {|
  comparator := BytewiseComparator;
  create_if_missing := false;
  error_if_exists := false;
  paranoid_checks := false;
  write_buffer_size := Z.shiftl 4 20;
  max_open_files := 1000;
  has_block_cache := false;
  block_size := 4096;
  block_restart_interval := 16;
  compression := kSnappyCompression;
  filter_policy := None
|}.

(** [o.block_restart_interval = n] *)
Definition with_restart_interval (o : Options) (n : Z) : Options :=
  MkOptions (comparator o) (create_if_missing o) (error_if_exists o) (paranoid_checks o) (write_buffer_size o) (max_open_files o)
    (has_block_cache o) (block_size o) n (compression o) (filter_policy o).

Record ReadOptions := MkReadOptions { verify_checksums : bool; fill_cache : bool }.

Definition ReadOptions_new : ReadOptions := MkReadOptions false true.

Record WriteOptions := MkWriteOptions { sync : bool }.

Definition WriteOptions_new : WriteOptions := MkWriteOptions false.
