(* ===== verification/Block.v ===== *)
(** table/block_builder.cpp and table/block.cpp: blocks of prefix-compressed
    entries with restart points.

    A pointer into a block's data is an offset.  The iterator's [value_] is the
    offset and length of the value, or [None] when it does not point into the data
    (before the first move, and after an error): an offset computed from it is
    then undefined.  Reads past the end of the data are undefined. *)

From Stdlib Require Import ZArith Lia List Bool String.
From S2P Require Import Prelude Lists Coding Slice Comparator Options.

(** ** BlockBuilder *)

Module BlockBuilder.

Record t := Mk {
  buffer_ : bytes;
  restarts_ : list Z;
  counter_ : Z;
  finished_ : bool;
  last_key_ : bytes
}.

Definition fresh : t := Mk [] [0] 0 false [].

(** The constructor; the assertion is on the options. *)
Definition new (o : Options) : option t := if block_restart_interval o >=? 1 then Some fresh else None.

Definition Reset (b : t) : t := fresh.

Definition CurrentSizeEstimate (b : t) : Z := u64 (Zlength (buffer_ b) + Zlength (restarts_ b) * 4 + 4).

Definition empty (b : t) : bool := Slice.empty (buffer_ b).

Definition Finish (b : t) : bytes * t :=
  let buffer := foldl PutFixed32 (buffer_ b) (restarts_ b) in
  let buffer := PutFixed32 buffer (u32 (Zlength (restarts_ b))) in
  (buffer, Mk buffer (restarts_ b) (counter_ b) true (last_key_ b)).

(** The loop that counts the bytes two keys share. *)
Fixpoint shared_prefix (last_key key : bytes) : Z :=
  match last_key, key with
  | a :: last_key, b :: key => if Byte.eqb a b then 1 + shared_prefix last_key key else 0
  | _, _ => 0
  end.

Definition Add (o : Options) (b : t) (key value : bytes) : option t :=
  if finished_ b then None
  else if counter_ b >? block_restart_interval o then None
  else if negb (Slice.empty (buffer_ b)) && (Compare (comparator o) key (last_key_ b) <=? 0) then None
  else
    let '(shared, restarts, counter) :=
      if counter_ b <? block_restart_interval o then (shared_prefix (last_key_ b) key, restarts_ b, counter_ b)
      else (0, restarts_ b ++ [u32 (Zlength (buffer_ b))], 0) in
    let non_shared := u64 (Zlength key - shared) in
    let buffer := PutVarint32 (buffer_ b) (u32 shared) in
    let buffer := PutVarint32 buffer (u32 non_shared) in
    let buffer := PutVarint32 buffer (u32 (Zlength value)) in
    let buffer := buffer ++ take (Z.to_nat non_shared) (drop (Z.to_nat shared) key) in
    let buffer := buffer ++ value in
    let last_key := take (Z.to_nat shared) (last_key_ b) ++ take (Z.to_nat non_shared) (drop (Z.to_nat shared) key) in
    if Slice.eqb last_key key then Some (Mk buffer restarts (counter + 1) (finished_ b) last_key) else None.

End BlockBuilder.

(** ** Block *)

Module Block.

Record t := Mk { data_ : bytes; size_ : Z; restart_offset_ : Z; owned_ : bool }.

Definition NumRestarts (data : bytes) (size_ : Z) : option Z :=
  if size_ >=? 2 * 4 then Some (DecodeFixed32 (drop (Z.to_nat (size_ - 4)) data)) else None.

(** The constructor; [restart_offset_] is not set (0 here) when the size is below
    that of a word.  The restart array is looked for at [1 + NumRestarts() * 4]
    bytes before the end. *)
Definition new (data : bytes) (heap_allocated : bool) : option t :=
  let size := Zlength data in
  if size <? 4 then Some (Mk data 0 0 heap_allocated)
  else
    n ← NumRestarts data size;
    let restart_offset := u32 (u64 (size - (1 + n * 4))) in
    Some (Mk data (if restart_offset >? size - 4 then 0 else size) restart_offset heap_allocated).

(** [DecodeEntry(p, limit, ...)]: [p] are the bytes up to [limit]; the result is
    shared, non_shared, value_length and the bytes left. *)
Definition DecodeEntry (p : bytes) : option (Z * Z * Z * bytes) :=
  match p with
  | b0 :: b1 :: b2 :: rest =>
      r ← (if Z.lor (Z.lor (bZ b0) (bZ b1)) (bZ b2) <? 128 then Some (bZ b0, bZ b1, bZ b2, rest)
           else
             '(shared, p) ← GetVarint32Ptr p;
             '(non_shared, p) ← GetVarint32Ptr p;
             '(value_length, p) ← GetVarint32Ptr p;
             Some (shared, non_shared, value_length, p));
      let '(shared, non_shared, value_length, p) := r in
      if u32 (Zlength p) <? u32 (non_shared + value_length) then None else Some (shared, non_shared, value_length, p)
  | _ => None
  end.

(** *** Block::Iter *)

Record Iter := MkIter {
  comparator_ : Comparator;
  iter_data_ : bytes;
  restarts_ : Z;
  num_restarts_ : Z;
  current_ : Z;
  restart_index_ : Z;
  key_ : bytes;
  value_ : option (Z * Z);
  status_ : Status
}.

Definition Iter_new (cmp : Comparator) (data : bytes) (restarts num_restarts : Z) : option Iter :=
  if num_restarts >? 0 then Some (MkIter cmp data restarts num_restarts restarts num_restarts [] None Status_OK) else None.

Definition with_position (it : Iter) (current restart_index : Z) : Iter :=
  MkIter (comparator_ it) (iter_data_ it) (restarts_ it) (num_restarts_ it) current restart_index (key_ it) (value_ it) (status_ it).

Definition with_entry (it : Iter) (key : bytes) (value : option (Z * Z)) : Iter :=
  MkIter (comparator_ it) (iter_data_ it) (restarts_ it) (num_restarts_ it) (current_ it) (restart_index_ it) key value (status_ it).

Definition NextEntryOffset (it : Iter) : option Z := '(off, n) ← value_ it; Some (u32 (off + n)).

Definition GetRestartPoint (it : Iter) (index : Z) : option Z :=
  if index <? num_restarts_ it then
    let off := restarts_ it + index * 4 in
    if off + 4 <=? Zlength (iter_data_ it) then Some (DecodeFixed32 (drop (Z.to_nat off) (iter_data_ it))) else None
  else None.

Definition SeekToRestartPoint (it : Iter) (index : Z) : option Iter :=
  offset ← GetRestartPoint it index;
  Some (with_entry (with_position it (current_ it) index) [] (Some (offset, 0))).

Definition Valid (it : Iter) : bool := current_ it <? restarts_ it.

Definition status (it : Iter) : Status := status_ it.

Definition key (it : Iter) : option bytes := if Valid it then Some (key_ it) else None.

Definition value (it : Iter) : option bytes :=
  if Valid it then '(off, n) ← value_ it; Some (take (Z.to_nat n) (drop (Z.to_nat off) (iter_data_ it))) else None.

Definition CorruptionError (it : Iter) : Iter :=
  MkIter (comparator_ it) (iter_data_ it) (restarts_ it) (num_restarts_ it) (restarts_ it) (num_restarts_ it) [] None
    (Status_Corruption (str "bad entry in block") []).

(** [while (restart_index_ + 1 < num_restarts_ && ...) ++restart_index_] *)
Fixpoint advance_restart (fuel : nat) (it : Iter) : option Iter :=
  match fuel with
  | O => None
  | S fuel =>
      if u32 (restart_index_ it + 1) <? num_restarts_ it then
        r ← GetRestartPoint it (u32 (restart_index_ it + 1));
        if r <? current_ it then advance_restart fuel (with_position it (current_ it) (u32 (restart_index_ it + 1))) else Some it
      else Some it
  end.

(** The bytes of [data_] from [off] to [restarts_]. *)
Definition region (it : Iter) (off : Z) : bytes := drop (Z.to_nat off) (take (Z.to_nat (restarts_ it)) (iter_data_ it)).

Definition ParseNextKey (it : Iter) : option (bool * Iter) :=
  off ← NextEntryOffset it;
  let it := with_position it off (restart_index_ it) in
  if off >=? restarts_ it then Some (false, with_position it (restarts_ it) (num_restarts_ it))
  else
    match DecodeEntry (region it off) with
    | Some (shared, non_shared, value_length, p) =>
        if Zlength (key_ it) <? shared then Some (false, CorruptionError it)
        else
          let start := restarts_ it - Zlength p in
          if start + non_shared + value_length <=? Zlength (iter_data_ it) then
            let key := take (Z.to_nat shared) (key_ it) ++ take (Z.to_nat non_shared) (drop (Z.to_nat start) (iter_data_ it)) in
            it ← advance_restart (Z.to_nat (num_restarts_ it) + 1) (with_entry it key (Some (start + non_shared, value_length)));
            Some (true, it)
          else None
    | None => Some (false, CorruptionError it)
    end.

Definition Next (it : Iter) : option Iter := if Valid it then snd <$> ParseNextKey it else None.

(** The loop of [Prev] that moves back to a restart point before [original];
    [inr] is the early return. *)
Fixpoint Prev_restart (fuel : nat) (it : Iter) (original : Z) : option (Iter + Iter) :=
  match fuel with
  | O => None
  | S fuel =>
      r ← GetRestartPoint it (restart_index_ it);
      if r >=? original then
        if restart_index_ it =? 0 then Some (inr (with_position it (restarts_ it) (num_restarts_ it)))
        else Prev_restart fuel (with_position it (current_ it) (restart_index_ it - 1)) original
      else Some (inl it)
  end.

(** [do {} while (ParseNextKey() && NextEntryOffset() < limit)]; each pass reads
    at least three bytes. *)
Fixpoint parse_until (fuel : nat) (it : Iter) (limit : Z) : option Iter :=
  match fuel with
  | O => None
  | S fuel =>
      '(b, it) ← ParseNextKey it;
      if (b : bool) then
        off ← NextEntryOffset it;
        if off <? limit then parse_until fuel it limit else Some it
      else Some it
  end.

Definition fuel (it : Iter) : nat := length (iter_data_ it) + 1.

Definition Prev (it : Iter) : option Iter :=
  if Valid it then
    let original := current_ it in
    r ← Prev_restart (Z.to_nat (num_restarts_ it) + 1) it original;
    match r with
    | inr it => Some it
    | inl it => it ← SeekToRestartPoint it (restart_index_ it); parse_until (fuel it) it original
    end
  else None.

(** The binary search over the restart points; [inr] is the error return.  Its
    result [left] is not used. *)
Fixpoint Seek_restart (fuel : nat) (it : Iter) (target : bytes) (left right : Z) : option (Z + Iter) :=
  if left <? right then
    match fuel with
    | O => None
    | S fuel =>
        let mid := u32 (left + right + 1) / 2 in
        region_offset ← GetRestartPoint it mid;
        match DecodeEntry (region it region_offset) with
        | Some (shared, non_shared, value_length, p) =>
            if negb (shared =? 0) then Some (inr (CorruptionError it))
            else
              let start := restarts_ it - Zlength p in
              if start + non_shared <=? Zlength (iter_data_ it) then
                let mid_key := take (Z.to_nat non_shared) (drop (Z.to_nat start) (iter_data_ it)) in
                if Compare (comparator_ it) mid_key target <? 0 then Seek_restart fuel it target mid right
                else Seek_restart fuel it target left (u32 (mid - 1))
              else None
        | None => Some (inr (CorruptionError it))
        end
    end
  else Some (inl left).

(** The linear search, from where the iterator is. *)
Fixpoint Seek_linear (fuel : nat) (it : Iter) (target : bytes) : option Iter :=
  match fuel with
  | O => None
  | S fuel =>
      '(b, it) ← ParseNextKey it;
      if (b : bool) then
        if Compare (comparator_ it) (key_ it) target >=? 0 then Some it else Seek_linear fuel it target
      else Some it
  end.

Definition Seek (it : Iter) (target : bytes) : option Iter :=
  r ← Seek_restart (Z.to_nat (num_restarts_ it)) it target 0 (u32 (num_restarts_ it - 1));
  match r with
  | inr it => Some it
  | inl _ => Seek_linear (fuel it) it target
  end.

Definition SeekToFirst (it : Iter) : option Iter := it ← SeekToRestartPoint it 0; snd <$> ParseNextKey it.

Definition SeekToLast (it : Iter) : option Iter :=
  it ← SeekToRestartPoint it (u32 (num_restarts_ it - 1)); parse_until (fuel it) it (restarts_ it).

(** What [NewIterator] returns. *)
Inductive BlockIterator := BlockError (s : Status) | BlockEmpty | BlockIter (it : Iter).

Definition NewIterator (b : t) (cmp : Comparator) : option BlockIterator :=
  if size_ b <? 2 * 4 then Some (BlockError (Status_Corruption (str "bad block contents") []))
  else
    num_restarts ← NumRestarts (data_ b) (size_ b);
    if num_restarts =? 0 then Some BlockEmpty
    else BlockIter <$> Iter_new cmp (data_ b) (restart_offset_ b) num_restarts.

End Block.
