(* ===== verification/BlockSpec.v ===== *)
(** Blocks as sequences of entries (table/block_builder.cpp, table/block.cpp).

    [block_of] is the format of doc/table_format: the encoded entries, the restart
    points, their number.  The builder writes it, and an iterator that is told where
    the restart array starts reads the entries back. *)

From Stdlib Require Import ZArith Lia List Bool Sorting.Sorted String.
From S2P Require Import Prelude Lists Coding Slice Comparator Options Block.

(** ** The format *)

(** An entry and how many bytes of its key it shares with the one before. *)
Record chunk := MkChunk { c_shared : nat; c_key : bytes; c_value : bytes }.

Definition enc (c : chunk) : bytes :=
  EncodeVarint32 (Z.of_nat (c_shared c)) ++ EncodeVarint32 (Zlength (c_key c) - Z.of_nat (c_shared c)) ++
  EncodeVarint32 (Zlength (c_value c)) ++ drop (c_shared c) (c_key c) ++ c_value c.

Definition encs (cs : list chunk) : bytes := concat (enc <$> cs).

(** The offset of entry [i]. *)
Definition pos (cs : list chunk) (i : nat) : Z := Zlength (encs (take i cs)).

Definition key_before (cs : list chunk) (i : nat) : bytes :=
  match i with O => [] | S j => default [] (c_key <$> cs !! j) end.

Definition shares (prev : bytes) (c : chunk) : Prop :=
  (c_shared c <= length prev)%nat /\ (c_shared c <= length (c_key c))%nat /\ take (c_shared c) prev = take (c_shared c) (c_key c).

Definition small_chunk (c : chunk) : Prop := Zlength (c_key c) < 2 ^ 32 /\ Zlength (c_value c) < 2 ^ 32.

(** [rs]: the indices of the entries at restart points. *)
Record block_of (data : bytes) (cs : list chunk) (rs : list nat) : Prop := {
  bl_data : data = encs cs ++ concat (EncodeFixed32 ∘ pos cs <$> rs) ++ EncodeFixed32 (Zlength rs);
  bl_shares : forall i c, cs !! i = Some c -> shares (key_before cs i) c;
  bl_first : head rs = Some 0%nat;
  bl_sorted : StronglySorted lt rs;
  bl_in : forall r, r ∈ rs -> r = 0%nat \/ (r < length cs)%nat;
  bl_restart : forall r c, r ∈ rs -> cs !! r = Some c -> c_shared c = 0%nat;
  bl_chunks : forall i c, cs !! i = Some c -> small_chunk c;
  bl_size : Zlength data < 2 ^ 32
}.

(** ** Lemmas: offsets *)

Lemma encs_app cs1 cs2 : encs (cs1 ++ cs2) = encs cs1 ++ encs cs2.
Proof. unfold encs. by rewrite fmap_app, concat_app. Qed.

Lemma encs_cons c cs : encs (c :: cs) = enc c ++ encs cs.
Proof. done. Qed.

Lemma chunk_length c : 3 <= Zlength (enc c).
Proof.
  unfold enc. rewrite !Zlength_app. pose proof (EncodeVarint32_length (Z.of_nat (c_shared c))).
  pose proof (EncodeVarint32_length (Zlength (c_key c) - Z.of_nat (c_shared c))). pose proof (EncodeVarint32_length (Zlength (c_value c))).
  pose proof (Zlength_nonneg (drop (c_shared c) (c_key c))). pose proof (Zlength_nonneg (c_value c)). unfold Zlength in *. lia.
Qed.

Lemma split_at cs i c : cs !! i = Some c -> encs cs = encs (take i cs) ++ enc c ++ encs (drop (S i) cs).
Proof. intros Hi. rewrite <- (take_drop_middle cs i c Hi) at 1. by rewrite encs_app, encs_cons. Qed.

Lemma pos_0 cs : pos cs 0 = 0.
Proof. done. Qed.

Lemma pos_S cs i c : cs !! i = Some c -> pos cs (S i) = pos cs i + Zlength (enc c).
Proof. intros Hi. unfold pos. rewrite (take_S_r cs i c Hi), encs_app, encs_cons, Zlength_app, app_nil_r. done. Qed.

Lemma pos_end cs : pos cs (length cs) = Zlength (encs cs).
Proof. unfold pos. by rewrite take_ge. Qed.

Lemma pos_lt cs i j : (i < j)%nat -> (j <= length cs)%nat -> pos cs i < pos cs j.
Proof.
  intros Hij. induction Hij as [|j Hij IH]; intros Hl.
  - destruct (lookup_lt_is_Some_2 cs i) as [c Hc]; [lia|]. rewrite (pos_S cs i c Hc). pose proof (chunk_length c). lia.
  - destruct (lookup_lt_is_Some_2 cs j) as [c Hc]; [lia|]. rewrite (pos_S cs j c Hc). pose proof (chunk_length c). specialize (IH ltac:(lia)). lia.
Qed.

Lemma pos_le cs i j : (i <= j)%nat -> (j <= length cs)%nat -> pos cs i <= pos cs j.
Proof. intros Hij Hj. destruct (Nat.eq_dec i j) as [->|]; [lia|]. pose proof (pos_lt cs i j). lia. Qed.

Lemma pos_lt_iff cs i j : (i <= length cs)%nat -> (j <= length cs)%nat -> (pos cs i < pos cs j <-> (i < j)%nat).
Proof. intros Hi Hj. split; [|intros; by apply pos_lt]. intros H. destruct (decide (i < j)%nat); [done|]. pose proof (pos_le cs j i). lia. Qed.

Lemma pos_nonneg cs i : 0 <= pos cs i.
Proof. apply Zlength_nonneg. Qed.

(** ** Lemmas: decoding an entry *)

Lemma lor3_lt128 a b c : 0 <= a < 256 -> 0 <= b < 256 -> 0 <= c < 256 -> Z.lor (Z.lor a b) c < 128 ->
  Z.land a 128 = 0 /\ Z.land b 128 = 0 /\ Z.land c 128 = 0.
Proof.
  intros Ha Hb Hc H. assert (0 <= Z.lor (Z.lor a b) c) by (rewrite !Z.lor_nonneg; lia).
  assert (Z.land (Z.lor (Z.lor a b) c) 128 = 0) as E by (apply land128_low; lia).
  rewrite !Z.land_lor_distr_l in E. apply Z.lor_eq_0_iff in E as [E Ec]. apply Z.lor_eq_0_iff in E as [Ea Eb]. done.
Qed.

(** The fast path for three one-byte varints agrees with the general one. *)
Lemma DecodeEntry_slow p : (3 <= length p)%nat ->
  Block.DecodeEntry p =
    ('(shared, p) ← GetVarint32Ptr p;
     '(non_shared, p) ← GetVarint32Ptr p;
     '(value_length, p) ← GetVarint32Ptr p;
     if u32 (Zlength p) <? u32 (non_shared + value_length) then None else Some (shared, non_shared, value_length, p)).
Proof.
  intros Hl. destruct p as [|b0 [|b1 [|b2 p]]]; [cbn in Hl; lia..|]. unfold Block.DecodeEntry.
  destruct (Z.ltb_spec (Z.lor (Z.lor (bZ b0) (bZ b1)) (bZ b2)) 128) as [H|_].
  - pose proof (bZ_range b0). pose proof (bZ_range b1). pose proof (bZ_range b2).
    destruct (lor3_lt128 (bZ b0) (bZ b1) (bZ b2)) as (E0 & E1 & E2); try lia.
    cbn [GetVarint32Ptr]. rewrite E0, Z.eqb_refl. bind_simpl. cbn [GetVarint32Ptr]. rewrite E1, Z.eqb_refl. bind_simpl. cbn [GetVarint32Ptr].
    by rewrite E2, Z.eqb_refl.
  - destruct (GetVarint32Ptr (b0 :: b1 :: b2 :: p)) as [[s p1]|]; bind_simpl; [|done].
    destruct (GetVarint32Ptr p1) as [[n p2]|]; bind_simpl; [|done]. by destruct (GetVarint32Ptr p2) as [[v p3]|].
Qed.

Lemma GetVarint32Ptr_enc v rest : is_u32 v -> GetVarint32Ptr (EncodeVarint32 v ++ rest) = Some (v, rest).
Proof. apply GetVarint32_enc. Qed.

Lemma DecodeEntry_enc c rest : small_chunk c -> (c_shared c <= length (c_key c))%nat -> Zlength (enc c ++ rest) < 2 ^ 32 ->
  Block.DecodeEntry (enc c ++ rest) =
    Some (Z.of_nat (c_shared c), Zlength (c_key c) - Z.of_nat (c_shared c), Zlength (c_value c), drop (c_shared c) (c_key c) ++ c_value c ++ rest).
Proof.
  intros [Hk Hv] Hs Hsz. pose proof (chunk_length c) as Hl.
  rewrite DecodeEntry_slow by (rewrite length_app; unfold Zlength in Hl; lia).
  pose proof (Zlength_nonneg (c_value c)). pose proof (Zlength_nonneg rest).
  assert (Zlength (drop (c_shared c) (c_key c)) = Zlength (c_key c) - Z.of_nat (c_shared c)) as Ed by (unfold Zlength; rewrite length_drop; lia).
  assert (is_u32 (Z.of_nat (c_shared c)) /\ is_u32 (Zlength (c_key c) - Z.of_nat (c_shared c)) /\ is_u32 (Zlength (c_value c))) as (H1 & H2 & H3)
    by (unfold is_u32, Zlength in *; lia).
  unfold enc. rewrite <- !app_assoc. do 3 (rewrite GetVarint32Ptr_enc by done; bind_simpl).
  assert (Zlength (drop (c_shared c) (c_key c) ++ c_value c ++ rest) < 2 ^ 32) as Hrest.
  { unfold enc in Hsz. rewrite <- !app_assoc, !Zlength_app in Hsz. rewrite !Zlength_app.
    pose proof (Zlength_nonneg (EncodeVarint32 (Z.of_nat (c_shared c)))). pose proof (Zlength_nonneg (EncodeVarint32 (Zlength (c_key c) - Z.of_nat (c_shared c)))).
    pose proof (Zlength_nonneg (EncodeVarint32 (Zlength (c_value c)))). lia. }
  rewrite !Zlength_app, Ed in *. rewrite !u32_small by (unfold is_u32 in *; lia).
  destruct (Z.ltb_spec (Zlength (c_key c) - Z.of_nat (c_shared c) + (Zlength (c_value c) + Zlength rest)) (Zlength (c_key c) - Z.of_nat (c_shared c) + Zlength (c_value c))); [lia|done].
Qed.

(** ** Lemmas: the iterator *)

Section Iter.
Context (cmp : Comparator) (data : bytes) (cs : list chunk) (rs : list nat) (Hb : block_of data cs rs).
Import Block.

(** An iterator over the block, told where the restart array is. *)
Record over (it : Iter) : Prop := {
  ov_cmp : comparator_ it = cmp;
  ov_data : iter_data_ it = data;
  ov_restarts : restarts_ it = pos cs (length cs);
  ov_num : num_restarts_ it = Zlength rs;
  ov_status : status_ it = Status_OK
}.

Lemma over_position it c r : over it -> over (with_position it c r).
Proof. by intros []. Qed.

Lemma over_entry it k v : over it -> over (with_entry it k v).
Proof. by intros []. Qed.

(** The next entry to be parsed is [i]. *)
Record ready (it : Iter) (i : nat) : Prop := {
  rd_value : exists o n, value_ it = Some (o, n) /\ o + n = pos cs i;
  rd_le : (i <= length cs)%nat;
  rd_key : forall c, cs !! i = Some c -> (c_shared c <= length (key_ it))%nat /\ take (c_shared c) (key_ it) = take (c_shared c) (c_key c);
  rd_index : exists j r, restart_index_ it = Z.of_nat j /\ rs !! j = Some r /\ (r <= i)%nat
}.

(** The iterator is at entry [i]. *)
Record at_entry (it : Iter) (i : nat) (c : chunk) : Prop := {
  at_chunk : cs !! i = Some c;
  at_current : current_ it = pos cs i;
  at_key : key_ it = c_key c;
  at_value : value_ it = Some (pos cs (S i) - Zlength (c_value c), Zlength (c_value c));
  at_index : exists j r, restart_index_ it = Z.of_nat j /\ rs !! j = Some r /\ (r <= i)%nat /\ forall r', rs !! S j = Some r' -> (i <= r')%nat
}.

Lemma pos_data i : (i <= length cs)%nat -> pos cs i <= Zlength data.
Proof.
  intros Hi. pose proof (pos_le cs i (length cs) Hi ltac:(lia)). rewrite pos_end in *. rewrite (bl_data _ _ _ Hb), Zlength_app.
  pose proof (Zlength_nonneg (concat (EncodeFixed32 ∘ pos cs <$> rs) ++ EncodeFixed32 (Zlength rs))). lia.
Qed.

Lemma pos_u32 i : (i <= length cs)%nat -> is_u32 (pos cs i).
Proof. intros Hi. pose proof (pos_data i Hi). pose proof (bl_size _ _ _ Hb). pose proof (pos_nonneg cs i). unfold is_u32. lia. Qed.

Lemma data_length : Zlength data = pos cs (length cs) + 4 * (1 + Zlength rs).
Proof.
  rewrite (bl_data _ _ _ Hb), !Zlength_app, pos_end. unfold Zlength at 2 3. rewrite EncodeFixed32_length.
  rewrite words_length. unfold Zlength. lia.
Qed.

Lemma rs_le r : r ∈ rs -> (r <= length cs)%nat.
Proof. intros Hr. destruct (bl_in _ _ _ Hb r Hr); lia. Qed.

Lemma GetRestartPoint_ok it j r : over it -> rs !! j = Some r -> GetRestartPoint it (Z.of_nat j) = Some (pos cs r).
Proof.
  intros [_ Hd Hr Hn _] Hj. pose proof (lookup_lt_Some _ _ _ Hj) as Hlt. unfold GetRestartPoint. rewrite Hn, Hr, Hd, data_length.
  destruct (Z.ltb_spec (Z.of_nat j) (Zlength rs)); [|unfold Zlength in *; lia].
  destruct (Z.leb_spec (pos cs (length cs) + Z.of_nat j * 4 + 4) (pos cs (length cs) + 4 * (1 + Zlength rs))); [|unfold Zlength in *; lia].
  f_equal. pose proof (pos_nonneg cs (length cs)).
  replace (Z.to_nat (pos cs (length cs) + Z.of_nat j * 4)) with (Z.to_nat (Zlength (encs cs)) + 4 * j)%nat by (rewrite pos_end in *; lia).
  rewrite (bl_data _ _ _ Hb), <- drop_drop, drop_Zlength_app, (words_drop (pos cs) rs j r) by done.
  rewrite DecodeFixed32_app. apply u32_small, pos_u32, rs_le. by eapply list_elem_of_lookup_2.
Qed.

Lemma region_ok it i c : over it -> cs !! i = Some c -> region it (pos cs i) = enc c ++ encs (drop (S i) cs).
Proof.
  intros [_ Hd Hr _ _] Hi. unfold region. rewrite Hd, Hr, pos_end, (bl_data _ _ _ Hb), take_Zlength_app.
  rewrite (split_at cs i c Hi). unfold pos. by rewrite drop_Zlength_app.
Qed.

Lemma NextEntryOffset_ok it i : ready it i -> NextEntryOffset it = Some (pos cs i).
Proof. intros [(o & n & Hv & E) Hle _ _]. unfold NextEntryOffset. rewrite Hv. cbn. rewrite E, u32_small by (by apply pos_u32). done. Qed.

(** [advance_restart] ends at the last restart point before the entry. *)
Lemma advance_restart_ok i fuel : (i <= length cs)%nat -> forall it j r, over it -> current_ it = pos cs i -> restart_index_ it = Z.of_nat j ->
  rs !! j = Some r -> (r <= i)%nat -> (length rs < j + fuel)%nat ->
  exists j' r', advance_restart fuel it = Some (with_position it (pos cs i) (Z.of_nat j')) /\ rs !! j' = Some r' /\ (r' <= i)%nat /\
    forall r'', rs !! S j' = Some r'' -> (i <= r'')%nat.
Proof.
  intros Hi. induction fuel as [|fuel IH]; intros it j r Ho Hc Hj Hr Hri Hf; pose proof (lookup_lt_Some _ _ _ Hr) as Hlt; [lia|].
  assert (Zlength rs < 2 ^ 31) as Hsz by (pose proof data_length; pose proof (bl_size _ _ _ Hb); pose proof (pos_nonneg cs (length cs)); lia).
  cbn [advance_restart]. rewrite Hj. rewrite u32_small by (unfold is_u32, Zlength in *; lia). rewrite (ov_num _ Ho).
  assert (it = with_position it (pos cs i) (Z.of_nat j)) as Eit by (destruct it; cbn in *; unfold with_position; cbn; congruence).
  destruct (Z.ltb_spec (Z.of_nat j + 1) (Zlength rs)) as [Hn|Hn].
  - replace (Z.of_nat j + 1) with (Z.of_nat (S j)) by lia.
    destruct (lookup_lt_is_Some_2 rs (S j)) as [r1 Hr1]; [unfold Zlength in *; lia|]. rewrite (GetRestartPoint_ok it (S j) r1) by done. bind_simpl.
    rewrite Hc. assert (r1 <= length cs)%nat as Hr1l by (apply rs_le; by eapply list_elem_of_lookup_2).
    destruct (Z.ltb_spec (pos cs r1) (pos cs i)) as [Hlt1|Hge].
    + apply pos_lt_iff in Hlt1; [|done..].
      destruct (IH (with_position it (pos cs i) (Z.of_nat (S j))) (S j) r1) as (j' & r' & E & H1 & H2 & H3);
        [by apply over_position|done|done|done|lia|lia|].
      exists j', r'. split; [exact E|done].
    + exists j, r. split; [by rewrite Eit at 1|]. split_and!; try done. intros r'' Hr''. assert (r'' = r1) as -> by congruence.
      destruct (decide (i <= r1)%nat); [done|]. pose proof (pos_lt cs r1 i). lia.
  - exists j, r. split; [by rewrite Eit at 1|]. split_and!; try done. intros r'' Hr''. apply lookup_lt_Some in Hr''. unfold Zlength in *. lia.
Qed.

(** The bytes of a chunk's key suffix and value in the data. *)
Lemma chunk_bytes i c : cs !! i = Some c ->
  let start := pos cs (S i) - Zlength (c_value c) - Zlength (drop (c_shared c) (c_key c)) in
  0 <= start /\ exists a b, data = a ++ drop (c_shared c) (c_key c) ++ c_value c ++ b /\ Zlength a = start.
Proof.
  intros Hi start. set (hdr := EncodeVarint32 (Z.of_nat (c_shared c)) ++ EncodeVarint32 (Zlength (c_key c) - Z.of_nat (c_shared c)) ++
    EncodeVarint32 (Zlength (c_value c))).
  assert (enc c = hdr ++ drop (c_shared c) (c_key c) ++ c_value c) as Ee by (unfold enc, hdr; by rewrite <- !app_assoc).
  assert (start = Zlength (encs (take i cs) ++ hdr)) as Es.
  { unfold start. rewrite (pos_S cs i c Hi), Ee, !Zlength_app. unfold pos. lia. }
  split; [rewrite Es; apply Zlength_nonneg|]. exists (encs (take i cs) ++ hdr).
  exists (encs (drop (S i) cs) ++ concat (EncodeFixed32 ∘ pos cs <$> rs) ++ EncodeFixed32 (Zlength rs)). split; [|done].
  rewrite (bl_data _ _ _ Hb), (split_at cs i c Hi), Ee. by rewrite <- !app_assoc.
Qed.

Lemma take_drop_mid {A} (a b c : list A) n m : n = Z.of_nat (length a) -> m = Z.of_nat (length b) ->
  take (Z.to_nat m) (drop (Z.to_nat n) (a ++ b ++ c)) = b.
Proof. intros -> ->. rewrite !Nat2Z.id, drop_app_length. by rewrite take_app_length. Qed.

Lemma ParseNextKey_ok it i c : over it -> ready it i -> cs !! i = Some c ->
  exists it', ParseNextKey it = Some (true, it') /\ over it' /\ at_entry it' i c.
Proof.
  intros Ho Hrd Hi. pose proof (lookup_lt_Some _ _ _ Hi) as Hlt. unfold ParseNextKey. rewrite (NextEntryOffset_ok it i Hrd). bind_simpl.
  set (it1 := with_position it (pos cs i) (restart_index_ it)). assert (over it1) as Ho1 by (by apply over_position).
  rewrite (ov_restarts _ Ho1). pose proof (pos_lt cs i (length cs) Hlt ltac:(lia)).
  destruct (Z.geb_spec (pos cs i) (pos cs (length cs))); [lia|].
  rewrite (region_ok it1 i c Ho1 Hi). destruct (bl_shares _ _ _ Hb i c Hi) as (_ & Hsk & _).
  assert (Zlength (enc c ++ encs (drop (S i) cs)) <= Zlength data) as Hsz.
  { rewrite (bl_data _ _ _ Hb), (split_at cs i c Hi), !Zlength_app.
    pose proof (Zlength_nonneg (encs (take i cs))). pose proof (Zlength_nonneg (concat (EncodeFixed32 ∘ pos cs <$> rs))).
    pose proof (Zlength_nonneg (EncodeFixed32 (Zlength rs))). lia. }
  rewrite DecodeEntry_enc by (try done; try (by eapply bl_chunks); pose proof (bl_size _ _ _ Hb); lia).
  destruct (rd_key _ _ Hrd c Hi) as [Hkl Hkt]. change (key_ it1) with (key_ it).
  destruct (Z.ltb_spec (Zlength (key_ it)) (Z.of_nat (c_shared c))); [unfold Zlength in *; lia|].
  destruct (chunk_bytes i c Hi) as (Hs0 & a & b & Ed & Ea). set (start := pos cs (S i) - _ - _) in *.
  assert (Zlength (drop (c_shared c) (c_key c)) = Zlength (c_key c) - Z.of_nat (c_shared c)) as Edl by (unfold Zlength; rewrite length_drop; lia).
  assert (pos cs (length cs) - Zlength (drop (c_shared c) (c_key c) ++ c_value c ++ encs (drop (S i) cs)) = start) as Est.
  { rewrite pos_end, (split_at cs i c Hi) at 1. rewrite !Zlength_app. unfold start. rewrite (pos_S cs i c Hi). unfold pos. lia. }
  rewrite Est, (ov_data _ Ho1). destruct (Z.leb_spec (start + (Zlength (c_key c) - Z.of_nat (c_shared c)) + Zlength (c_value c)) (Zlength data)) as [_|Hgt].
  2:{ exfalso. rewrite Ed, !Zlength_app in Hgt. pose proof (Zlength_nonneg b). lia. }
  assert (take (Z.to_nat (Z.of_nat (c_shared c))) (key_ it) ++ take (Z.to_nat (Zlength (c_key c) - Z.of_nat (c_shared c))) (drop (Z.to_nat start) data) = c_key c) as ->.
  { rewrite Nat2Z.id, Hkt, Ed. rewrite take_drop_mid; [apply take_drop|done|]. rewrite <- Edl. done. }
  set (it2 := with_entry it1 _ _). assert (over it2) as Ho2 by (by apply over_entry).
  destruct (rd_index _ _ Hrd) as (j & r & Hj & Hr & Hri).
  destruct (advance_restart_ok i (Z.to_nat (num_restarts_ it1) + 1) ltac:(lia) it2 j r) as (j' & r' & E & Hr' & Hri' & Hnext); try done.
  { rewrite (ov_num _ Ho1). unfold Zlength. lia. }
  rewrite E. bind_simpl. eexists. split; [done|]. split; [by apply over_position|]. split; cbn; try done.
  - do 2 f_equal. unfold start. rewrite <- Edl. lia.
  - eauto 10.
Qed.

Lemma ParseNextKey_end it : over it -> ready it (length cs) ->
  exists it', ParseNextKey it = Some (false, it') /\ over it' /\ current_ it' = pos cs (length cs) /\ value_ it' = value_ it /\ key_ it' = key_ it.
Proof.
  intros Ho Hrd. unfold ParseNextKey. rewrite (NextEntryOffset_ok it _ Hrd). bind_simpl. cbn [restarts_ with_position]. rewrite (ov_restarts _ Ho).
  destruct (Z.geb_spec (pos cs (length cs)) (pos cs (length cs))); [|lia]. eexists. split; [done|]. split; [|done].
  by do 2 apply over_position.
Qed.

Lemma at_ready it i c : at_entry it i c -> ready it (S i).
Proof.
  intros [Hi Hc Hk Hv (j & r & Hj & Hr & Hri & _)]. pose proof (lookup_lt_Some _ _ _ Hi). split.
  - do 2 eexists. split; [exact Hv|lia].
  - lia.
  - intros c' Hc'. destruct (bl_shares _ _ _ Hb (S i) c' Hc') as (H1 & _ & H3). cbn [key_before] in H1, H3. rewrite Hi in H1, H3. cbn in H1, H3.
    by rewrite Hk.
  - exists j, r. split_and!; [done|done|lia].
Qed.

Lemma SeekToRestartPoint_ok it j r : over it -> rs !! j = Some r ->
  exists it', SeekToRestartPoint it (Z.of_nat j) = Some it' /\ over it' /\ ready it' r /\ restart_index_ it' = Z.of_nat j.
Proof.
  intros Ho Hj. assert (r ∈ rs) as Hr by (by eapply list_elem_of_lookup_2). unfold SeekToRestartPoint. rewrite (GetRestartPoint_ok it j r) by done. bind_simpl.
  eexists. split; [done|]. split; [by apply over_entry, over_position|]. split; [|done]. split; cbn.
  - do 2 eexists. split; [done|lia].
  - by apply rs_le.
  - intros c Hc. rewrite (bl_restart _ _ _ Hb r c Hr Hc). split; [lia|done].
  - exists j, r. by split_and!.
Qed.

(** Parsing up to entry [k]. *)
Lemma parse_until_ok k c fuel : cs !! k = Some c -> forall it i, over it -> ready it i -> (i <= k)%nat -> (k - i < fuel)%nat ->
  exists it', parse_until fuel it (pos cs (S k)) = Some it' /\ over it' /\ at_entry it' k c.
Proof.
  intros Hk. pose proof (lookup_lt_Some _ _ _ Hk) as Hkl. induction fuel as [|fuel IH]; intros it i Ho Hrd Hik Hf; [lia|]. cbn [parse_until].
  destruct (lookup_lt_is_Some_2 cs i) as [ci Hi]; [lia|]. destruct (ParseNextKey_ok it i ci Ho Hrd Hi) as (it1 & -> & Ho1 & Hat). bind_simpl.
  pose proof (at_ready _ _ _ Hat) as Hrd1. rewrite (NextEntryOffset_ok it1 (S i) Hrd1). bind_simpl.
  destruct (Z.ltb_spec (pos cs (S i)) (pos cs (S k))) as [Hlt|Hge].
  - apply pos_lt_iff in Hlt; [|lia..]. apply (IH it1 (S i)); [done|done|lia|lia].
  - assert (i = k) as ->. { destruct (decide (i = k)); [done|]. pose proof (pos_lt cs (S i) (S k)). lia. }
    simplify_eq. eauto.
Qed.

Lemma rs_0 : rs !! 0%nat = Some 0%nat.
Proof. pose proof (bl_first _ _ _ Hb). by destruct rs. Qed.

Lemma fuel_enough it i : over it -> (i <= length cs)%nat -> (i < fuel it)%nat.
Proof.
  intros Ho Hi. unfold fuel. rewrite (ov_data _ Ho). assert (Z.of_nat i <= pos cs i) as H.
  { clear -Hi. induction i as [|i IH]; [rewrite pos_0; lia|]. destruct (lookup_lt_is_Some_2 cs i) as [c Hc]; [lia|].
    rewrite (pos_S cs i c Hc). pose proof (chunk_length c). specialize (IH ltac:(lia)). lia. }
  pose proof (pos_data i Hi). unfold Zlength in *. lia.
Qed.

Lemma Prev_restart_ok it i fuel : over it -> (0 < i)%nat -> (i <= length cs)%nat -> forall j r,
  restart_index_ it = Z.of_nat j -> rs !! j = Some r -> (j < fuel)%nat ->
  exists j' r', Prev_restart fuel it (pos cs i) = Some (inl (with_position it (current_ it) (Z.of_nat j'))) /\ rs !! j' = Some r' /\ (r' < i)%nat.
Proof.
  intros Ho Hi Hil. revert it Ho. induction fuel as [|fuel IH]; intros it Ho j r Hj Hr Hf; [lia|]. cbn [Prev_restart]. rewrite Hj.
  rewrite (GetRestartPoint_ok it j r) by done. bind_simpl. assert (r <= length cs)%nat as Hrl by (apply rs_le; by eapply list_elem_of_lookup_2).
  destruct (Z.geb_spec (pos cs r) (pos cs i)) as [Hge|Hlt].
  - destruct j as [|j].
    + rewrite rs_0 in Hr. injection Hr as <-. pose proof (pos_lt cs 0 i). lia.
    + destruct (Z.eqb_spec (Z.of_nat (S j)) 0); [lia|]. replace (Z.of_nat (S j) - 1) with (Z.of_nat j) by lia.
      destruct (lookup_lt_is_Some_2 rs j) as [r1 Hr1]; [apply lookup_lt_Some in Hr; lia|].
      destruct (IH (with_position it (current_ it) (Z.of_nat j)) ltac:(by apply over_position) j r1) as (j' & r' & -> & H1 & H2); [done|done|lia|]. eauto.
  - apply pos_lt_iff in Hlt; [|done..]. exists j, r. split_and!; [|done|done]. do 2 f_equal. destruct it; cbn in *; unfold with_position; cbn; congruence.
Qed.

Lemma Prev_restart_first it fuel : over it -> forall j r,
  restart_index_ it = Z.of_nat j -> rs !! j = Some r -> (j < fuel)%nat ->
  exists it', Prev_restart fuel it (pos cs 0) = Some (inr it') /\ over it' /\ current_ it' = pos cs (length cs).
Proof.
  revert it. induction fuel as [|fuel IH]; intros it Ho j r Hj Hr Hf; [lia|]. cbn [Prev_restart]. rewrite Hj.
  rewrite (GetRestartPoint_ok it j r) by done. bind_simpl. rewrite pos_0. destruct (Z.geb_spec (pos cs r) 0); [|pose proof (pos_nonneg cs r); lia].
  destruct j as [|j].
  - cbn [Z.of_nat Z.eqb]. eexists. split; [done|]. split; [by apply over_position|]. apply (ov_restarts _ Ho).
  - destruct (Z.eqb_spec (Z.of_nat (S j)) 0); [lia|]. replace (Z.of_nat (S j) - 1) with (Z.of_nat j) by lia.
    destruct (lookup_lt_is_Some_2 rs j) as [r1 Hr1]; [apply lookup_lt_Some in Hr; lia|].
    apply (IH (with_position it (current_ it) (Z.of_nat j)) ltac:(by apply over_position) j r1); [done|done|lia].
Qed.

Lemma Valid_on it i c : over it -> at_entry it i c -> Valid it = true.
Proof.
  intros Ho Ha. unfold Valid. rewrite (at_current _ _ _ Ha), (ov_restarts _ Ho). apply Z.ltb_lt, pos_lt; [|lia].
  by apply (lookup_lt_Some _ _ _ (at_chunk _ _ _ Ha)).
Qed.

Lemma Block_Prev_ok it i c : over it -> at_entry it i c ->
  match i with
  | O => exists it', Prev it = Some it' /\ over it' /\ current_ it' = pos cs (length cs)
  | S k => exists it' c', Prev it = Some it' /\ over it' /\ at_entry it' k c'
  end.
Proof.
  intros Ho Ha. destruct (at_index _ _ _ Ha) as (j & r & Hj & Hr & Hri & _). unfold Prev. rewrite (Valid_on it i c Ho Ha).
  pose proof (lookup_lt_Some _ _ _ Hr) as Hjl. assert (j < Z.to_nat (num_restarts_ it) + 1)%nat as Hf by (rewrite (ov_num _ Ho); unfold Zlength; lia).
  rewrite (at_current _ _ _ Ha). pose proof (lookup_lt_Some _ _ _ (at_chunk _ _ _ Ha)) as Hil. destruct i as [|k].
  - destruct (Prev_restart_first it _ Ho j r Hj Hr Hf) as (it' & -> & Ho' & Hc'). bind_simpl. eauto.
  - destruct (Prev_restart_ok it (S k) _ Ho ltac:(lia) ltac:(lia) j r Hj Hr Hf) as (j' & r' & -> & Hr' & Hlt). bind_simpl.
    destruct (SeekToRestartPoint_ok (with_position it (current_ it) (Z.of_nat j')) j' r') as (it1 & E & Ho1 & Hrd1 & _); [by apply over_position|done|].
    cbn [restart_index_ with_position]. rewrite E. bind_simpl. destruct (lookup_lt_is_Some_2 cs k) as [ck Hk]; [lia|].
    destruct (parse_until_ok k ck (fuel it1) Hk it1 r' Ho1 Hrd1) as (it2 & E2 & Ho2 & Hat2); [lia| |].
    { pose proof (fuel_enough it1 k Ho1 ltac:(lia)). lia. }
    rewrite E2. eauto.
Qed.

Lemma chunk_at r : r ∈ rs -> r <> 0%nat -> exists c, cs !! r = Some c /\ c_shared c = 0%nat.
Proof.
  intros Hr Hne. destruct (bl_in _ _ _ Hb r Hr) as [?|Hlt]; [done|]. destruct (lookup_lt_is_Some_2 cs r Hlt) as [c Hc].
  exists c. split; [done|]. by eapply bl_restart.
Qed.

Lemma Seek_restart_ok it target fuel : over it -> forall left right, 0 <= left -> right < Zlength rs -> right - left <= Z.of_nat fuel ->
  exists l, Seek_restart fuel it target left right = Some (inl l).
Proof.
  intros Ho. assert (Zlength rs < 2 ^ 31) as Hsz by (pose proof data_length; pose proof (bl_size _ _ _ Hb); pose proof (pos_nonneg cs (length cs)); lia).
  induction fuel as [|fuel IH]; intros left right Hl Hr Hf; cbn [Seek_restart]; destruct (Z.ltb_spec left right); eauto; [lia|].
  rewrite u32_small by (unfold is_u32; lia). set (mid := (left + right + 1) / 2).
  assert (left < mid <= right) as Hmid.
  { unfold mid. pose proof (Z.div_mod (left + right + 1) 2 ltac:(lia)). pose proof (Z.mod_pos_bound (left + right + 1) 2 ltac:(lia)). lia. }
  destruct (lookup_lt_is_Some_2 rs (Z.to_nat mid)) as [r Hrm]; [unfold Zlength in *; lia|].
  assert (GetRestartPoint it mid = Some (pos cs r)) as -> by (rewrite <- (Z2Nat.id mid) by lia; by apply GetRestartPoint_ok). bind_simpl.
  assert (r ∈ rs) as Hrin by (by eapply list_elem_of_lookup_2).
  assert (r <> 0%nat) as Hr0.
  { pose proof (sorted_lookup lt rs 0 (Z.to_nat mid) 0%nat r (bl_sorted _ _ _ Hb) ltac:(lia) rs_0 Hrm). lia. }
  destruct (chunk_at r Hrin Hr0) as (c & Hc & Hs0). rewrite (region_ok it r c Ho Hc).
  destruct (bl_shares _ _ _ Hb r c Hc) as (_ & Hsk & _).
  assert (Zlength (enc c ++ encs (drop (S r) cs)) <= Zlength data) as Hszd.
  { rewrite (bl_data _ _ _ Hb), (split_at cs r c Hc), !Zlength_app.
    pose proof (Zlength_nonneg (encs (take r cs))). pose proof (Zlength_nonneg (concat (EncodeFixed32 ∘ pos cs <$> rs))).
    pose proof (Zlength_nonneg (EncodeFixed32 (Zlength rs))). lia. }
  rewrite DecodeEntry_enc by (try done; try (by eapply bl_chunks); pose proof (bl_size _ _ _ Hb); lia).
  rewrite (proj2 (Z.eqb_eq (Z.of_nat (c_shared c)) 0)) by lia. cbn [negb].
  match goal with |- context [Z.leb ?a ?b] => assert (a <= b) as Hle end.
  { rewrite (ov_restarts _ Ho), (ov_data _ Ho), data_length, !Zlength_app.
    assert (Zlength (drop (c_shared c) (c_key c)) = Zlength (c_key c) - Z.of_nat (c_shared c)) as Edl by (unfold Zlength; rewrite length_drop; lia).
    pose proof (Zlength_nonneg (c_value c)). pose proof (Zlength_nonneg (encs (drop (S r) cs))). pose proof (Zlength_nonneg rs). lia. }
  apply Z.leb_le in Hle. rewrite Hle.
  assert (u32 (mid - 1) = mid - 1) as Eu by (apply u32_small; unfold is_u32; lia). rewrite Eu.
  destruct (_ <? 0); apply IH; lia.
Qed.

(** The linear search: the first entry from [i] on whose key is not below the target. *)
Lemma Seek_linear_ok target fuel : forall it i, over it -> ready it i -> (length cs - i < fuel)%nat ->
  exists it', Seek_linear fuel it target = Some it' /\ over it' /\
    ((exists j c, at_entry it' j c /\ (i <= j)%nat /\ 0 <= Compare cmp (c_key c) target /\
        forall k c', (i <= k < j)%nat -> cs !! k = Some c' -> Compare cmp (c_key c') target < 0) \/
     (current_ it' = pos cs (length cs) /\ (exists o n, value_ it' = Some (o, n) /\ o + n = pos cs (length cs)) /\
        forall k c', (i <= k)%nat -> cs !! k = Some c' -> Compare cmp (c_key c') target < 0)).
Proof.
  induction fuel as [|fuel IH]; intros it i Ho Hrd Hf; [lia|]. cbn [Seek_linear].
  destruct (cs !! i) as [c|] eqn:Hi.
  - destruct (ParseNextKey_ok it i c Ho Hrd Hi) as (it1 & -> & Ho1 & Hat). bind_simpl. rewrite (ov_cmp _ Ho1), (at_key _ _ _ Hat).
    destruct (Z.geb_spec (Compare cmp (c_key c) target) 0) as [Hge|Hlt].
    + exists it1. split; [done|]. split; [done|]. left. exists i, c. split_and!; [done|lia|lia|]. intros k c' Hk. lia.
    + pose proof (lookup_lt_Some _ _ _ Hi). destruct (IH it1 (S i) Ho1 (at_ready _ _ _ Hat) ltac:(lia)) as (it2 & E & Ho2 & H2).
      exists it2. split; [done|]. split; [done|].
      assert (forall k c', (i <= k)%nat -> cs !! k = Some c' -> (S i <= k)%nat \/ Compare cmp (c_key c') target < 0) as Hk.
      { intros k c' Hk Hck. destruct (decide (k = i)) as [->|]; [right; by simplify_eq|left; lia]. }
      destruct H2 as [(j & cj & H1 & H3 & H4 & H5)|(H1 & H3 & H4)].
      * left. exists j, cj. split_and!; [done|lia|done|]. intros k c' Hkj Hck. destruct (Hk k c' ltac:(lia) Hck); [|done]. by apply (H5 k c'); [lia|].
      * right. split_and!; [done|done|]. intros k c' Hki Hck. destruct (Hk k c' Hki Hck); [|done]. by apply (H4 k c').
  - assert (i = length cs) as -> by (apply lookup_ge_None in Hi; pose proof (rd_le _ _ Hrd); lia).
    destruct (ParseNextKey_end it Ho Hrd) as (it1 & -> & Ho1 & Hc1 & Hv1 & _). bind_simpl. exists it1. split; [done|]. split; [done|]. right.
    split; [done|]. rewrite Hv1. split; [apply Hrd|]. intros k c' Hk Hck. apply lookup_lt_Some in Hck. lia.
Qed.

End Iter.
