(* ===== verification/BlockRun.v ===== *)
(** Blocks end to end: what the builder of table/block_builder.cpp writes and what
    the iterator and the reader of table/block.cpp make of it. *)

From Stdlib Require Import ZArith Lia List Bool Sorting.Sorted String.
From S2P Require Import Prelude Lists Coding Slice Comparator Options Block BlockSpec.

(** ** The builder *)

Fixpoint adds (o : Options) (b : BlockBuilder.t) (es : list (bytes * bytes)) : option BlockBuilder.t :=
  match es with
  | [] => Some b
  | (k, v) :: es => b ← BlockBuilder.Add o b k v; adds o b es
  end.

Definition small_entry (e : bytes * bytes) : Prop := Zlength e.1 < 2 ^ 32 /\ Zlength e.2 < 2 ^ 32.

Definition entry_of (c : chunk) : bytes * bytes := (c_key c, c_value c).

(** The builder holds [cs], with restart points at [rs]. *)
Record built (o : Options) (b : BlockBuilder.t) (cs : list chunk) (rs : list nat) : Prop := {
  bu_buffer : BlockBuilder.buffer_ b = encs cs;
  bu_restarts : BlockBuilder.restarts_ b = u32 ∘ pos cs <$> rs;
  bu_last : BlockBuilder.last_key_ b = key_before cs (length cs);
  bu_counter : 0 <= BlockBuilder.counter_ b <= block_restart_interval o /\ BlockBuilder.counter_ b <= Zlength cs;
  bu_open : BlockBuilder.finished_ b = false;
  bu_shares : forall i c, cs !! i = Some c -> shares (key_before cs i) c;
  bu_first : head rs = Some 0%nat;
  bu_sorted : StronglySorted lt rs;
  bu_in : forall r, r ∈ rs -> r = 0%nat \/ (r < length cs)%nat;
  bu_restart : forall r c, r ∈ rs -> cs !! r = Some c -> c_shared c = 0%nat;
  bu_small : forall i c, cs !! i = Some c -> small_chunk c
}.

Lemma fresh_built o : 1 <= block_restart_interval o -> built o BlockBuilder.fresh [] [0%nat].
Proof.
  intros Ho. split; cbn; try done.
  - split; [lia|done].
  - constructor; [constructor|by apply Forall_nil].
  - intros r Hr. left. set_solver.
Qed.

Lemma shared_prefix_ok a : forall b, exists n, BlockBuilder.shared_prefix a b = Z.of_nat n /\ (n <= length a)%nat /\ (n <= length b)%nat /\ take n a = take n b.
Proof.
  induction a as [|x a IH]; intros b; [exists 0%nat; cbn; split_and!; [done|lia|lia|done]|].
  destruct b as [|y b]; [exists 0%nat; cbn; split_and!; [done|lia|lia|done]|]. cbn [BlockBuilder.shared_prefix].
  destruct (Byte.eqb x y) eqn:E; [|exists 0%nat; cbn; split_and!; [done|lia|lia|done]].
  apply Byte.byte_dec_bl in E. subst y. destruct (IH b) as (n & -> & H1 & H2 & H3). exists (S n). cbn. split_and!; [lia|lia|lia|by rewrite H3].
Qed.

Lemma pos_snoc cs c i : (i <= length cs)%nat -> pos (cs ++ [c]) i = pos cs i.
Proof. intros Hi. unfold pos. by rewrite take_app_le. Qed.

Lemma key_before_snoc cs c i : (i <= length cs)%nat -> key_before (cs ++ [c]) i = key_before cs i.
Proof. intros Hi. destruct i as [|i]; [done|]. cbn. by rewrite lookup_app_l by lia. Qed.

Lemma key_before_end cs c : key_before (cs ++ [c]) (length (cs ++ [c])) = c_key c.
Proof. rewrite length_app. cbn. rewrite Nat.add_1_r. cbn. by rewrite list_lookup_middle. Qed.

Lemma lookup_snoc_inv {A} (l : list A) x i y : (l ++ [x]) !! i = Some y -> l !! i = Some y \/ i = length l /\ y = x.
Proof.
  intros H. destruct (decide (i < length l)%nat) as [Hlt|Hge]; [left; by rewrite lookup_app_l in H|]. right.
  pose proof (lookup_lt_Some _ _ _ H) as Hl. rewrite length_app in Hl. cbn in Hl. assert (i = length l) as -> by lia.
  rewrite list_lookup_middle in H by done. by injection H as ->.
Qed.

(** The chunk an [Add] writes, sharing [n] bytes. *)
Lemma Add_bytes last k v n : (n <= length last)%nat -> (n <= length k)%nat -> take n last = take n k -> Zlength k < 2 ^ 32 -> Zlength v < 2 ^ 32 ->
  let c := MkChunk n k v in let ns := u64 (Zlength k - Z.of_nat n) in
  (forall buf, (PutVarint32 (PutVarint32 (PutVarint32 buf (u32 (Z.of_nat n))) (u32 ns)) (u32 (Zlength v)) ++
     take (Z.to_nat ns) (drop (Z.to_nat (Z.of_nat n)) k)) ++ v = buf ++ enc c) /\
  take (Z.to_nat (Z.of_nat n)) last ++ take (Z.to_nat ns) (drop (Z.to_nat (Z.of_nat n)) k) = k.
Proof.
  intros Hl Hk Ht Hks Hvs c ns. assert (ns = Zlength k - Z.of_nat n) as Ens by (apply u64_small; unfold is_u64, Zlength in *; lia).
  assert (take (Z.to_nat ns) (drop (Z.to_nat (Z.of_nat n)) k) = drop n k) as ->.
  { rewrite Nat2Z.id. apply take_ge. rewrite length_drop. unfold Zlength in *. lia. }
  rewrite Nat2Z.id. split; [|rewrite Ht; apply take_drop]. intros buf. pose proof (Zlength_nonneg v).
  rewrite !u32_small by (unfold is_u32, Zlength in *; lia). rewrite Ens. unfold PutVarint32, enc, c. cbn [c_shared c_key c_value]. by rewrite <- !app_assoc.
Qed.

Lemma built_snoc o b cs rs rs' k v n cnt : built o b cs rs -> small_entry (k, v) -> (n <= length (BlockBuilder.last_key_ b))%nat -> (n <= length k)%nat ->
  take n (BlockBuilder.last_key_ b) = take n k -> 0 <= cnt < block_restart_interval o -> cnt <= Zlength cs ->
  (rs' = rs /\ (cs = [] -> n = 0%nat) \/ (rs' = rs ++ [length cs] /\ n = 0%nat /\ cs <> [])) ->
  built o (BlockBuilder.Mk (BlockBuilder.buffer_ b ++ enc (MkChunk n k v)) (u32 ∘ pos cs <$> rs') (cnt + 1) false k) (cs ++ [MkChunk n k v]) rs'.
Proof.
  intros [Hbuf Hrs Hlast Hcnt Hop Hsh Hfi Hso Hin Hre Hsm] [Hks Hvs] H1 H2 H3 Hc Hcl Hrs'. set (c := MkChunk n k v) in *.
  assert (forall r, r ∈ rs' -> (r <= length cs)%nat) as Hle by (intros r Hr; destruct Hrs' as [[-> _]|(-> & _ & _)];
    [|apply elem_of_app in Hr as [Hr| ->%list_elem_of_singleton]; [|lia]]; destruct (Hin r Hr); lia).
  assert (forall r, r ∈ rs' -> r = length cs -> n = 0%nat) as Hn0.
  { intros r Hr ->. destruct Hrs' as [[-> Hn]|(-> & -> & _)]; [|done]. destruct (Hin _ Hr); [|lia]. apply Hn. by destruct cs. }
  split; cbn [BlockBuilder.buffer_ BlockBuilder.restarts_ BlockBuilder.last_key_ BlockBuilder.counter_ BlockBuilder.finished_]; try done.
  - rewrite Hbuf, encs_app. unfold encs at 3. cbn. by rewrite app_nil_r.
  - apply list_fmap_ext. intros j r Hr. unfold compose. rewrite pos_snoc; [done|]. apply Hle. by eapply list_elem_of_lookup_2.
  - by rewrite key_before_end.
  - split; [lia|]. unfold Zlength in *. rewrite length_app. cbn. lia.
  - intros i c' [Hi|[-> ->]]%lookup_snoc_inv.
    + rewrite key_before_snoc by (apply lookup_lt_Some in Hi; lia). auto.
    + rewrite key_before_snoc, <- Hlast by lia. done.
  - destruct Hrs' as [[-> _]|(-> & _ & _)]; [done|]. destruct rs; [done|]. done.
  - destruct Hrs' as [[-> _]|(-> & _ & Hne)]; [done|]. apply StronglySorted_app_intro; [done|repeat constructor|].
    intros x y Hx ->%list_elem_of_singleton. destruct (Hin x Hx) as [->|]; [|lia]. destruct cs; [done|cbn; lia].
  - intros r Hr. right. rewrite length_app. cbn. specialize (Hle r Hr). lia.
  - intros r c' Hr [Hi|[-> ->]]%lookup_snoc_inv; [|by eapply Hn0].
    destruct Hrs' as [[-> _]|(-> & _ & _)]; [eauto|]. apply elem_of_app in Hr as [Hr| ->%list_elem_of_singleton]; [eauto|].
    apply lookup_lt_Some in Hi. lia.
  - intros i c' [Hi|[-> ->]]%lookup_snoc_inv; [eauto|]. done.
Qed.

Lemma BlockBuilder_Add_ok o b cs rs k v b' : built o b cs rs -> 1 <= block_restart_interval o -> small_entry (k, v) -> BlockBuilder.Add o b k v = Some b' ->
  exists c rs', entry_of c = (k, v) /\ built o b' (cs ++ [c]) rs'.
Proof.
  intros Hb Ho Hs. pose proof Hb as [Hbuf Hrs Hlast [Hc1 Hc2] Hop _ _ _ _ _ _]. unfold BlockBuilder.Add. rewrite Hop.
  destruct (_ >? _); [done|]. destruct (_ && _); [done|]. destruct Hs as [Hks Hvs]. cbn [fst snd] in Hks, Hvs.
  destruct (Z.ltb_spec (BlockBuilder.counter_ b) (block_restart_interval o)) as [Hlt|Hge].
  - destruct (shared_prefix_ok (BlockBuilder.last_key_ b) k) as (n & -> & H1 & H2 & H3).
    destruct (Add_bytes (BlockBuilder.last_key_ b) k v n H1 H2 H3 Hks Hvs) as [E1 E2]. rewrite E1, E2, Slice_eqb_spec, bool_decide_true by done.
    intros [= <-]. exists (MkChunk n k v), rs. split; [done|]. rewrite Hrs. eapply built_snoc; try done; [lia|]. left. split; [done|].
    intros ->. rewrite Hlast in H1. cbn in H1. lia.
  - destruct (Add_bytes (BlockBuilder.last_key_ b) k v 0 ltac:(lia) ltac:(lia) eq_refl Hks Hvs) as [E1 E2].
    change (Z.of_nat 0) with 0 in E1, E2. rewrite E1, E2, Slice_eqb_spec, bool_decide_true by done.
    intros [= <-]. exists (MkChunk 0 k v), (rs ++ [length cs]). split; [done|].
    assert (BlockBuilder.restarts_ b ++ [u32 (Zlength (BlockBuilder.buffer_ b))] = u32 ∘ pos cs <$> rs ++ [length cs]) as ->.
    { rewrite Hrs, fmap_app. cbn. unfold compose. by rewrite pos_end, Hbuf. }
    apply (built_snoc o b cs rs _ k v 0 0 Hb); try done; try lia; try apply Zlength_nonneg. right. split_and!; [done|done|].
    intros ->. rewrite Zlength_nil in Hc2. lia.
Qed.

(** An addition of a larger key is accepted. *)
Lemma Add_accepts o b cs rs k v : built o b cs rs -> 1 <= block_restart_interval o -> small_entry (k, v) ->
  (cs = [] \/ 0 < Compare (comparator o) k (key_before cs (length cs))) -> is_Some (BlockBuilder.Add o b k v).
Proof.
  intros [Hbuf Hrs Hlast [Hc1 Hc2] Hop _ _ _ _ _ _] Ho [Hks Hvs] Hk. cbn [fst snd] in *. unfold BlockBuilder.Add. rewrite Hop, Z.gtb_ltb.
  destruct (Z.ltb_spec (block_restart_interval o) (BlockBuilder.counter_ b)); [lia|].
  assert (negb (Slice.empty (BlockBuilder.buffer_ b)) && (Compare (comparator o) k (BlockBuilder.last_key_ b) <=? 0) = false) as ->.
  { rewrite Hbuf, Hlast. destruct Hk as [->|Hk]; [done|]. apply andb_false_intro2, Z.leb_gt. done. }
  destruct (Z.ltb_spec (BlockBuilder.counter_ b) (block_restart_interval o)) as [Hlt|Hge].
  - destruct (shared_prefix_ok (BlockBuilder.last_key_ b) k) as (n & -> & H1 & H2 & H3).
    destruct (Add_bytes (BlockBuilder.last_key_ b) k v n H1 H2 H3 Hks Hvs) as [E1 E2]. rewrite E2, Slice_eqb_spec, bool_decide_true by done. eauto.
  - destruct (Add_bytes (BlockBuilder.last_key_ b) k v 0 ltac:(lia) ltac:(lia) eq_refl Hks Hvs) as [E1 E2].
    change (Z.of_nat 0) with 0 in E2. rewrite E2, Slice_eqb_spec, bool_decide_true by done. eauto.
Qed.

Lemma adds_ok o es : 1 <= block_restart_interval o -> Forall small_entry es -> forall b cs rs b', built o b cs rs -> adds o b es = Some b' ->
  exists cs' rs', entry_of <$> cs' = es /\ built o b' (cs ++ cs') rs'.
Proof.
  intros Ho. induction es as [|[k v] es IH]; intros Hs b cs rs b' Hb Ha; cbn [adds] in Ha.
  - injection Ha as <-. exists [], rs. by rewrite app_nil_r.
  - apply Forall_cons in Hs as [Hkv Hs]. destruct (BlockBuilder.Add o b k v) as [b1|] eqn:E; [|done]. cbn [mbind option_bind] in Ha.
    destruct (BlockBuilder_Add_ok o b cs rs k v b1 Hb Ho Hkv E) as (c & rs1 & Hc & Hb1).
    destruct (IH Hs b1 _ rs1 b' Hb1 Ha) as (cs' & rs' & He & Hb'). exists (c :: cs'), rs'. cbn. rewrite Hc, He. split; [done|].
    by rewrite <- app_assoc in Hb'.
Qed.

Lemma adds_accepts o es : 1 <= block_restart_interval o -> Forall small_entry es -> forall b cs rs, built o b cs rs ->
  StronglySorted (fun x y => 0 < Compare (comparator o) y.1 x.1) es ->
  (cs = [] \/ forall e, head es = Some e -> 0 < Compare (comparator o) e.1 (key_before cs (length cs))) -> is_Some (adds o b es).
Proof.
  intros Ho. induction es as [|[k v] es IH]; intros Hs b cs rs Hb Hso Hk; cbn [adds]; [eauto|].
  apply Forall_cons in Hs as [Hkv Hs]. inversion_clear Hso as [|? ? Hso' Hlt].
  destruct (Add_accepts o b cs rs k v Hb Ho Hkv) as [b1 E].
  { destruct Hk as [?|Hk]; [by left|right]. by apply (Hk (k, v)). }
  rewrite E. bind_simpl. destruct (BlockBuilder_Add_ok o b cs rs k v b1 Hb Ho Hkv E) as (c & rs1 & Hc & Hb1). apply (IH Hs b1 _ rs1 Hb1 Hso').
  right. intros e He. rewrite key_before_end. injection Hc as -> _. destruct es as [|e' es]; [done|]. injection He as <-.
  by apply Forall_cons in Hlt as [? _].
Qed.

Lemma BlockBuilder_Finish_ok o b cs rs : built o b cs rs -> Zlength (BlockBuilder.Finish b).1 < 2 ^ 32 -> block_of (BlockBuilder.Finish b).1 cs rs.
Proof.
  intros [Hbuf Hrs Hlast Hcnt Hop Hsh Hfi Hso Hin Hre Hsm] Hsz. split; try done. unfold BlockBuilder.Finish. cbn [fst].
  rewrite foldl_PutFixed32, Hbuf, Hrs. unfold PutFixed32. rewrite <- app_assoc. f_equal.
  unfold BlockBuilder.Finish in Hsz. cbn [fst] in Hsz. rewrite foldl_PutFixed32, Hbuf, Hrs in Hsz. unfold PutFixed32 in Hsz. rewrite !Zlength_app in Hsz.
  pose proof (Zlength_nonneg (concat (EncodeFixed32 <$> (u32 ∘ pos cs <$> rs)))). pose proof (Zlength_nonneg (EncodeFixed32 (u32 (Zlength (u32 ∘ pos cs <$> rs))))).
  assert (Zlength (u32 ∘ pos cs <$> rs) = Zlength rs) as -> by (unfold Zlength; by rewrite length_fmap).
  assert (EncodeFixed32 (u32 (Zlength rs)) = EncodeFixed32 (Zlength rs)) as -> by apply EncodeFixed32_u32. f_equal.
  f_equal. rewrite <- list_fmap_compose. apply list_fmap_ext. intros j r Hr. unfold compose. apply EncodeFixed32_u32.
Qed.

(** ** Moves of the iterator *)

Inductive move := First | Last | Forward | Backward | SeekTo (target : bytes).

Definition run_move (it : Block.Iter) (m : move) : option Block.Iter :=
  match m with
  | First => Block.SeekToFirst it
  | Last => Block.SeekToLast it
  | Forward => Block.Next it
  | Backward => Block.Prev it
  | SeekTo t => Block.Seek it t
  end.

Fixpoint run_moves (it : Block.Iter) (ms : list move) : option Block.Iter :=
  match ms with [] => Some it | m :: ms => it ← run_move it m; run_moves it ms end.

(** Where the iterator is: nowhere yet, at an entry, past the last entry or before
    the first. *)
Inductive cursor := Unset | On (i : nat) | End | Before.

(** The first entry from [i] on whose key is not below the target. *)
Definition seek_from (cmp : Comparator) (es : list (bytes * bytes)) (t : bytes) (i : nat) : cursor :=
  match list_find (fun e => 0 <= Compare cmp e.1 t) (drop i es) with Some (j, _) => On (i + j) | None => End end.

(** What each move does.  [Seek] looks forward from where the iterator is; before
    the first move, and after moving back past the first entry, it is undefined. *)
Definition spec_move (cmp : Comparator) (es : list (bytes * bytes)) (cur : cursor) (m : move) : option cursor :=
  match m, cur with
  | First, _ => Some (match es with [] => End | _ => On 0 end)
  | Last, _ => Some (match es with [] => End | _ => On (length es - 1) end)
  | Forward, On i => Some (if decide (S i < length es)%nat then On (S i) else End)
  | Backward, On O => Some Before
  | Backward, On (S i) => Some (On i)
  | SeekTo t, On i => Some (seek_from cmp es t (S i))
  | SeekTo _, End => Some End
  | _, _ => None
  end.

Fixpoint spec_moves (cmp : Comparator) (es : list (bytes * bytes)) (cur : cursor) (ms : list move) : option cursor :=
  match ms with [] => Some cur | m :: ms => cur ← spec_move cmp es cur m; spec_moves cmp es cur ms end.

Lemma match_entries cs x : match entry_of <$> cs with [] => End | _ => On x end = if decide (0 < length cs)%nat then On x else End.
Proof. by destruct cs. Qed.

Section Moves.
Context (cmp : Comparator) (data : bytes) (cs : list chunk) (rs : list nat) (Hb : block_of data cs rs).
Abbreviation es := (entry_of <$> cs).

Definition placed (it : Block.Iter) (cur : cursor) : Prop :=
  over cmp data cs rs it /\
  match cur with
  | On i => exists c, at_entry cs rs it i c
  | End => Block.current_ it = pos cs (length cs) /\ exists o n, Block.value_ it = Some (o, n) /\ o + n = pos cs (length cs)
  | _ => Block.current_ it = pos cs (length cs)
  end.

Lemma parse_placed it i : over cmp data cs rs it -> ready cs rs it i ->
  exists b it', Block.ParseNextKey it = Some (b, it') /\ placed it' (if decide (i < length cs)%nat then On i else End).
Proof.
  intros Ho Hrd. case_decide as Hi.
  - destruct (lookup_lt_is_Some_2 cs i Hi) as [c Hc]. destruct (ParseNextKey_ok cmp data cs rs Hb it i c Ho Hrd Hc) as (it' & E & Ho' & Hat).
    exists true, it'. split; [done|]. split; [done|]. eauto.
  - assert (i = length cs) as -> by (pose proof (rd_le _ _ _ _ Hrd); lia).
    destruct (ParseNextKey_end cmp data cs rs Hb it Ho Hrd) as (it' & E & Ho' & Hc' & Hv' & _). exists false, it'. split; [done|]. split; [done|].
    split; [done|]. rewrite Hv'. apply Hrd.
Qed.

Lemma First_ok it : over cmp data cs rs it -> exists it', Block.SeekToFirst it = Some it' /\ placed it' (match es with [] => End | _ => On 0 end).
Proof.
  intros Ho. unfold Block.SeekToFirst. destruct (SeekToRestartPoint_ok cmp data cs rs Hb it 0 0 Ho (rs_0 data cs rs Hb)) as (it1 & E & Ho1 & Hrd & _).
  change (Z.of_nat 0) with 0 in E. rewrite E. bind_simpl. destruct (parse_placed it1 0 Ho1 Hrd) as (b & it' & -> & Hp). exists it'. split; [done|].
  by rewrite match_entries.
Qed.

Lemma last_restart : exists r, rs !! (length rs - 1)%nat = Some r /\ (r <= length cs - 1)%nat /\ 0 < Zlength rs < 2 ^ 31.
Proof.
  pose proof (rs_0 data cs rs Hb) as H0. apply lookup_lt_Some in H0 as Hl. destruct (lookup_lt_is_Some_2 rs (length rs - 1)) as [r Hr]; [lia|].
  exists r. split; [done|]. split.
  - destruct (bl_in _ _ _ Hb r) as [->|]; [by eapply list_elem_of_lookup_2|lia|lia].
  - pose proof (data_length data cs rs Hb). pose proof (bl_size _ _ _ Hb). pose proof (pos_nonneg cs (length cs)). unfold Zlength in *. lia.
Qed.

Lemma Last_ok it : over cmp data cs rs it -> exists it', Block.SeekToLast it = Some it' /\ placed it' (match es with [] => End | _ => On (length es - 1) end).
Proof.
  intros Ho. destruct last_restart as (r & Hr & Hrl & Hn). unfold Block.SeekToLast. rewrite (ov_num _ _ _ _ _ Ho), u32_small by (unfold is_u32; lia).
  replace (Zlength rs - 1) with (Z.of_nat (length rs - 1)) by (unfold Zlength in *; lia).
  destruct (SeekToRestartPoint_ok cmp data cs rs Hb it _ r Ho Hr) as (it1 & E & Ho1 & Hrd & _). rewrite E. bind_simpl. rewrite (ov_restarts _ _ _ _ _ Ho1).
  rewrite match_entries. case_decide as Hl.
  - destruct (lookup_lt_is_Some_2 cs (length cs - 1)) as [c Hc]; [lia|].
    destruct (parse_until_ok cmp data cs rs Hb _ c (Block.fuel it1) Hc it1 r Ho1 Hrd) as (it2 & E2 & Ho2 & Hat).
    { lia. }
    { pose proof (fuel_enough cmp data cs rs Hb it1 (length cs - 1) Ho1 ltac:(lia)). lia. }
    replace (S (length cs - 1)) with (length cs) in E2 by lia. exists it2. split; [done|]. split; [done|]. rewrite length_fmap. eauto.
  - assert (r = length cs) as -> by lia. destruct (parse_placed it1 _ Ho1 Hrd) as (b & it' & E' & Hp). rewrite decide_False in Hp by lia.
    destruct (ParseNextKey_end cmp data cs rs Hb it1 Ho1 Hrd) as (it2 & E2 & _). rewrite E' in E2. injection E2 as -> ->.
    exists it2. split; [|exact Hp]. unfold Block.fuel. rewrite Nat.add_1_r. cbn [Block.parse_until]. by rewrite E'.
Qed.

Lemma Next_placed it i : placed it (On i) -> exists it', Block.Next it = Some it' /\ placed it' (if decide (S i < length es)%nat then On (S i) else End).
Proof.
  intros [Ho [c Hat]]. unfold Block.Next. rewrite (Valid_on cmp data cs rs it i c Ho Hat), length_fmap.
  destruct (parse_placed it (S i) Ho (at_ready data cs rs Hb it i c Hat)) as (b & it' & -> & Hp). eauto.
Qed.

(** What the linear search finds, in terms of entries. *)
Lemma seek_from_On t i j c : (i <= j)%nat -> cs !! j = Some c -> 0 <= Compare cmp (c_key c) t ->
  (forall k c', (i <= k < j)%nat -> cs !! k = Some c' -> Compare cmp (c_key c') t < 0) -> seek_from cmp es t i = On j.
Proof.
  intros Hij Hj Hge Hlt. unfold seek_from. assert (list_find (fun e : bytes * bytes => 0 <= Compare cmp e.1 t) (drop i es) = Some ((j - i)%nat, entry_of c)) as ->;
    [|f_equal; lia].
  apply list_find_Some. split_and!; [|done|].
  - rewrite lookup_drop, list_lookup_fmap. replace (i + (j - i))%nat with j by lia. by rewrite Hj.
  - intros k y Hk Hkj. rewrite lookup_drop, list_lookup_fmap in Hk. destruct (cs !! (i + k)%nat) as [c'|] eqn:E; [|done]. injection Hk as <-.
    specialize (Hlt (i + k)%nat c' ltac:(lia) E). cbn. lia.
Qed.

Lemma seek_from_End t i : (forall k c', (i <= k)%nat -> cs !! k = Some c' -> Compare cmp (c_key c') t < 0) -> seek_from cmp es t i = End.
Proof.
  intros Hlt. unfold seek_from. assert (list_find (fun e : bytes * bytes => 0 <= Compare cmp e.1 t) (drop i es) = None) as ->; [|done].
  apply list_find_None, Forall_forall. intros e [k Hk]%list_elem_of_lookup. rewrite lookup_drop, list_lookup_fmap in Hk.
  destruct (cs !! (i + k)%nat) as [c'|] eqn:E; [|done]. injection Hk as <-. specialize (Hlt (i + k)%nat c' ltac:(lia) E). cbn. lia.
Qed.

Lemma Seek_linear_start it t : over cmp data cs rs it ->
  Block.Seek it t = Block.Seek_linear (Block.fuel it) it t.
Proof.
  intros Ho. destruct last_restart as (_ & _ & _ & Hn). unfold Block.Seek. rewrite (ov_num _ _ _ _ _ Ho), u32_small by (unfold is_u32; lia).
  destruct (Seek_restart_ok cmp data cs rs Hb it t (Z.to_nat (Zlength rs)) Ho 0 (Zlength rs - 1)) as [l ->]; [lia|lia|lia|]. done.
Qed.

Lemma Seek_placed it i t : placed it (On i) -> exists it', Block.Seek it t = Some it' /\ placed it' (seek_from cmp es t (S i)).
Proof.
  intros [Ho [c Hat]]. rewrite Seek_linear_start by done. pose proof (at_ready data cs rs Hb it i c Hat) as Hrd.
  destruct (Seek_linear_ok cmp data cs rs Hb t (Block.fuel it) it (S i) Ho Hrd) as (it' & E & Ho' & H).
  { pose proof (fuel_enough cmp data cs rs Hb it (length cs) Ho ltac:(lia)). lia. }
  exists it'. split; [done|]. destruct H as [(j & cj & Hj & Hij & Hge & Hlt)|(H1 & H2 & H3)].
  - rewrite (seek_from_On t (S i) j cj Hij (at_chunk _ _ _ _ _ Hj) Hge Hlt). split; [done|]. eauto.
  - rewrite (seek_from_End t (S i) H3). by split.
Qed.

Lemma Seek_end it t : placed it End -> exists it', Block.Seek it t = Some it' /\ placed it' End.
Proof.
  intros (Ho & Hc & o & n & Hv & Hon). rewrite Seek_linear_start by done. unfold Block.fuel. rewrite Nat.add_1_r. cbn [Block.Seek_linear].
  unfold Block.ParseNextKey, Block.NextEntryOffset. rewrite Hv. bind_simpl. rewrite Hon, u32_small by (apply (pos_u32 data cs rs Hb); lia).
  cbn [Block.restarts_ Block.with_position]. rewrite (ov_restarts _ _ _ _ _ Ho). destruct (Z.geb_spec (pos cs (length cs)) (pos cs (length cs))); [|lia].
  bind_simpl. eexists. split; [done|]. split; [by do 2 apply over_position|]. split; [done|]. eauto.
Qed.

Lemma run_move_ok it cur m cur' : placed it cur -> spec_move cmp es cur m = Some cur' -> exists it', run_move it m = Some it' /\ placed it' cur'.
Proof.
  intros Hp Hs. pose proof Hp as [Ho _]. destruct m as [| | | |t]; cbn [spec_move run_move] in *.
  - injection Hs as <-. by apply First_ok.
  - injection Hs as <-. by apply Last_ok.
  - destruct cur as [|i| |]; try done. injection Hs as <-. by apply Next_placed.
  - destruct cur as [|i| |]; try done. destruct Hp as [_ [c Hat]]. pose proof (Block_Prev_ok cmp data cs rs Hb it i c Ho Hat) as H. destruct i as [|i].
    + injection Hs as <-. destruct H as (it' & E & Ho' & Hc'). exists it'. by split.
    + injection Hs as <-. destruct H as (it' & c' & E & Ho' & Hat'). exists it'. split; [done|]. split; [done|]. eauto.
  - destruct cur as [|i| |]; try done; injection Hs as <-; [by apply Seek_placed|by apply Seek_end].
Qed.

Lemma run_moves_ok ms : forall it cur cur', placed it cur -> spec_moves cmp es cur ms = Some cur' -> exists it', run_moves it ms = Some it' /\ placed it' cur'.
Proof.
  induction ms as [|m ms IH]; intros it cur cur' Hp Hs; cbn [spec_moves run_moves] in *; [injection Hs as <-; eauto|].
  destruct (spec_move cmp es cur m) as [cur1|] eqn:E; [|done]. cbn [mbind option_bind] in Hs.
  destruct (run_move_ok it cur m cur1 Hp E) as (it1 & -> & Hp1). bind_simpl. eauto.
Qed.

(** What a client sees. *)
Lemma placed_shows it cur : placed it cur ->
  Block.status it = Status_OK /\
  match cur with
  | On i => exists k v, es !! i = Some (k, v) /\ Block.Valid it = true /\ Block.key it = Some k /\ Block.value it = Some v
  | _ => Block.Valid it = false
  end.
Proof.
  intros [Ho H]. split; [apply Ho|].
  assert (Block.current_ it = pos cs (length cs) -> Block.Valid it = false) as Hinv.
  { intros Hc. unfold Block.Valid. rewrite Hc, (ov_restarts _ _ _ _ _ Ho). apply Z.ltb_irrefl. }
  destruct cur as [|i| |]; [auto| |by apply Hinv, H|auto]. destruct H as [c Hat]. pose proof (at_chunk _ _ _ _ _ Hat) as Hi.
  exists (c_key c), (c_value c). pose proof (Valid_on cmp data cs rs it i c Ho Hat) as Hv. split; [by rewrite list_lookup_fmap, Hi|].
  split; [done|]. unfold Block.key, Block.value. rewrite Hv, (at_key _ _ _ _ _ Hat), (at_value _ _ _ _ _ Hat). split; [done|]. bind_simpl. f_equal.
  destruct (chunk_bytes data cs rs Hb i c Hi) as (Hs & a & b & Ed & Ea). rewrite (ov_data _ _ _ _ _ Ho), Ed, (app_assoc a).
  apply take_drop_mid; [|done]. rewrite length_app. unfold Zlength in *. lia.
Qed.

End Moves.

(** ** The reader *)

Lemma over_new cmp data cs rs : block_of data cs rs ->
  exists it, Block.Iter_new cmp data (pos cs (length cs)) (Zlength rs) = Some it /\ placed cmp data cs rs it Unset.
Proof.
  intros Hb. destruct (last_restart data cs rs Hb) as (_ & _ & _ & Hn). unfold Block.Iter_new. rewrite Z.gtb_ltb.
  destruct (Z.ltb_spec 0 (Zlength rs)); [|lia]. eexists. split; [done|]. by split; [split|].
Qed.

(** A block with one restart point. *)
Definition one_restart : bytes := [Byte.x00; Byte.x00; Byte.x00; Byte.x00; Byte.x01; Byte.x00; Byte.x00; Byte.x00].

Lemma single_restart b : BlockBuilder.restarts_ b = [0] -> (BlockBuilder.Finish b).1 = BlockBuilder.buffer_ b ++ one_restart.
Proof. intros Hr. unfold BlockBuilder.Finish. rewrite Hr. cbn [fst]. unfold PutFixed32. cbn [foldl]. by rewrite <- app_assoc. Qed.

Lemma one_restart_drop buf k : (k <= 8)%nat -> drop (Z.to_nat (Zlength buf + Z.of_nat k)) (buf ++ one_restart) = drop k one_restart.
Proof. intros Hk. pose proof (Zlength_nonneg buf). rewrite Z2Nat.inj_add, Nat2Z.id, to_nat_Zlength by lia. by rewrite <- drop_drop, drop_app_length. Qed.

(** The constructor puts its restart array three bytes too far. *)
Lemma one_restart_new buf cmp heap_allocated : Zlength buf + 8 < 2 ^ 32 ->
  exists bl, Block.new (buf ++ one_restart) heap_allocated = Some bl /\ Block.restart_offset_ bl = Zlength buf + 3 /\
    Block.NewIterator bl cmp = Some (Block.BlockIter (Block.MkIter cmp (buf ++ one_restart) (Zlength buf + 3) 1 (Zlength buf + 3) 1 [] None Status_OK)).
Proof.
  intros Hsz. pose proof (Zlength_nonneg buf). assert (Zlength (buf ++ one_restart) = Zlength buf + 8) as El by (rewrite Zlength_app; done).
  assert (Block.NumRestarts (buf ++ one_restart) (Zlength buf + 8) = Some 1) as En.
  { unfold Block.NumRestarts. destruct (Z.geb_spec (Zlength buf + 8) (2 * 4)); [|lia]. replace (Zlength buf + 8 - 4) with (Zlength buf + Z.of_nat 4) by lia.
    rewrite one_restart_drop by lia. done. }
  unfold Block.new. rewrite El. destruct (Z.ltb_spec (Zlength buf + 8) 4); [lia|]. rewrite En. bind_simpl.
  rewrite u64_small by (unfold is_u64; lia). rewrite u32_small by (unfold is_u32; lia).
  rewrite Z.gtb_ltb. destruct (Z.ltb_spec (Zlength buf + 8 - 4) (Zlength buf + 8 - (1 + 1 * 4))); [lia|].
  replace (Zlength buf + 8 - (1 + 1 * 4)) with (Zlength buf + 3) by lia. eexists. split; [done|]. split; [done|].
  unfold Block.NewIterator. cbn [Block.size_ Block.data_ Block.restart_offset_].
  destruct (Z.ltb_spec (Zlength buf + 8) (2 * 4)); [lia|]. rewrite En. done.
Qed.

(** [Seek] on an iterator that was not moved reads an unset pointer. *)
Lemma Seek_unset it target : Block.value_ it = None -> Block.num_restarts_ it = 1 -> Block.Seek it target = None.
Proof.
  intros Hv Hn. unfold Block.Seek. rewrite Hn. change (u32 (1 - 1)) with 0. change (Z.to_nat 1) with 1%nat. cbn [Block.Seek_restart]. change (0 <? 0) with false.
  bind_simpl. unfold Block.fuel. rewrite Nat.add_1_r. cbn [Block.Seek_linear]. unfold Block.ParseNextKey, Block.NextEntryOffset. by rewrite Hv.
Qed.

(** * Properties *)

(** C15: A block reads back what was put in it: additions in increasing key order
    are accepted, and an iterator that is told where the restart array starts shows,
    under any moves ([SeekToFirst], [SeekToLast], [Next], [Prev], and [Seek] from a
    position), exactly the added entries at their places, with keys rebuilt from
    their shared prefixes, no error, no read outside the block, and no loop that
    fails to end.  [Seek] finds the first entry after the current one whose key is
    not below the target. *)
Theorem Block_roundtrip (o : Options) (es : list (bytes * bytes)) :
  1 <= block_restart_interval o -> Forall small_entry es -> StronglySorted (fun x y => 0 < Compare (comparator o) y.1 x.1) es ->
  exists b, adds o BlockBuilder.fresh es = Some b /\
    let data := (BlockBuilder.Finish b).1 in
    let n := Zlength (BlockBuilder.restarts_ b) in
    forall cmp ms cur, Zlength data < 2 ^ 32 -> spec_moves cmp es Unset ms = Some cur ->
    exists it0 it, Block.Iter_new cmp data (Zlength data - (1 + n) * 4) n = Some it0 /\ run_moves it0 ms = Some it /\
      Block.status it = Status_OK /\
      match cur with
      | On i => exists k v, es !! i = Some (k, v) /\ Block.Valid it = true /\ Block.key it = Some k /\ Block.value it = Some v
      | _ => Block.Valid it = false
      end.
Proof.
  intros Ho Hs Hso. destruct (adds_accepts o es Ho Hs _ [] _ (fresh_built o Ho) Hso) as [b Ha]; [by left|]. exists b. split; [done|].
  intros data n cmp ms cur Hsz Hm. destruct (adds_ok o es Ho Hs _ [] _ b (fresh_built o Ho) Ha) as (cs & rs & He & Hbu). cbn [app] in Hbu.
  pose proof (BlockBuilder_Finish_ok o b cs rs Hbu Hsz) as Hb. fold data in Hb. destruct (over_new cmp data cs rs Hb) as (it0 & E0 & Hp0).
  assert (n = Zlength rs) as En by (unfold n; rewrite (bu_restarts _ _ _ _ Hbu); unfold Zlength; by rewrite length_fmap).
  pose proof (data_length data cs rs Hb) as Hd. subst es.
  destruct (run_moves_ok cmp data cs rs Hb ms it0 Unset cur Hp0 Hm) as (it & E & Hp).
  exists it0, it. split; [rewrite En, Hd; rewrite <- E0; f_equal; lia|]. split; [done|]. by apply (placed_shows cmp data cs rs Hb).
Qed.

Lemma Block_roundtrip_witness :
  exists b it0 it, adds (with_restart_interval Options_new 2) BlockBuilder.fresh
      [(str "aa", str "1"); (str "ab", str "22"); (str "b", str "3"); (str "bcd", str "4")] = Some b /\
    Block.Iter_new BytewiseComparator (BlockBuilder.Finish b).1 (Zlength (BlockBuilder.Finish b).1 - (1 + Zlength (BlockBuilder.restarts_ b)) * 4)
      (Zlength (BlockBuilder.restarts_ b)) = Some it0 /\
    run_moves it0 [First; Forward; Forward; Backward; SeekTo (str "bb")] = Some it /\
    Block.key it = Some (str "bcd") /\ Block.value it = Some (str "4").
Proof.
  set (es := [(str "aa", str "1"); (str "ab", str "22"); (str "b", str "3"); (str "bcd", str "4")]).
  destruct (Block_roundtrip (with_restart_interval Options_new 2) es) as (b & Hb & H).
  - cbn. lia.
  - repeat constructor; vm_compute; congruence.
  - repeat constructor; vm_compute; reflexivity.
  - assert (adds (with_restart_interval Options_new 2) BlockBuilder.fresh es =
      Some (default BlockBuilder.fresh (adds (with_restart_interval Options_new 2) BlockBuilder.fresh es))) as E by (vm_compute; reflexivity).
    assert (b = default BlockBuilder.fresh (adds (with_restart_interval Options_new 2) BlockBuilder.fresh es)) as Eb by congruence.
    destruct (H BytewiseComparator [First; Forward; Forward; Backward; SeekTo (str "bb")] (On 3)) as (it0 & it & E0 & E1 & _ & k & v & Hkv & _ & Hk & Hv).
    + rewrite Eb. vm_compute. reflexivity.
    + vm_compute. reflexivity.
    + exists b, it0, it. split; [exact Hb|]. split; [exact E0|]. split; [exact E1|]. rewrite Hk, Hv. vm_compute in Hkv.
      injection Hkv as <- <-. vm_compute. split; reflexivity.
Defined.

(** The block constructor computes the restart offset as
    [size_ - (1 + NumRestarts() * 4)], three bytes past the restart array.  A
    block with one restart point and at most 253 bytes of entries therefore reads
    as empty: [NewIterator] succeeds, and [SeekToFirst] is past the end with no
    error although the block has entries. *)
Theorem Block_reads_empty (cmp : Comparator) (b : BlockBuilder.t) (heap_allocated : bool) :
  BlockBuilder.restarts_ b = [0] -> Zlength (BlockBuilder.buffer_ b) <= 253 ->
  exists bl it it', Block.new (BlockBuilder.Finish b).1 heap_allocated = Some bl /\
    Block.restart_offset_ bl = Zlength (BlockBuilder.buffer_ b) + 3 /\
    Block.NewIterator bl cmp = Some (Block.BlockIter it) /\ Block.SeekToFirst it = Some it' /\
    Block.Valid it' = false /\ Block.status it' = Status_OK.
Proof.
  intros Hr Hsz. rewrite (single_restart b Hr). set (buf := BlockBuilder.buffer_ b) in *. pose proof (Zlength_nonneg buf).
  destruct (one_restart_new buf cmp heap_allocated) as (bl & E1 & E2 & E3); [lia|]. do 3 eexists. split; [exact E1|]. split; [exact E2|]. split; [exact E3|].
  unfold Block.SeekToFirst, Block.SeekToRestartPoint, Block.GetRestartPoint. cbn [Block.num_restarts_ Block.restarts_ Block.iter_data_].
  change (0 <? 1) with true. cbv iota. assert (Zlength (buf ++ one_restart) = Zlength buf + 8) as El by (rewrite Zlength_app; done). rewrite El.
  destruct (Z.leb_spec (Zlength buf + 3 + 0 * 4 + 4) (Zlength buf + 8)); [|lia].
  replace (Zlength buf + 3 + 0 * 4) with (Zlength buf + Z.of_nat 3) by lia. rewrite one_restart_drop by lia.
  change (DecodeFixed32 (drop 3 one_restart)) with 256. bind_simpl. unfold Block.ParseNextKey, Block.NextEntryOffset. cbn [Block.value_ Block.with_entry]. bind_simpl.
  change (u32 (256 + 0)) with 256. cbn [Block.restarts_ Block.with_position Block.with_entry].
  destruct (Z.geb_spec 256 (Zlength buf + 3)); [|lia]. split; [done|]. split; [|done]. unfold Block.Valid. cbn. apply Z.ltb_irrefl.
Qed.

Lemma Block_reads_empty_witness :
  exists b bl it it', adds Options_new BlockBuilder.fresh [(str "k", str "v")] = Some b /\
    Block.new (BlockBuilder.Finish b).1 true = Some bl /\ Block.NewIterator bl BytewiseComparator = Some (Block.BlockIter it) /\
    Block.SeekToFirst it = Some it' /\ Block.Valid it' = false.
Proof.
  set (b := default BlockBuilder.fresh (adds Options_new BlockBuilder.fresh [(str "k", str "v")])).
  destruct (Block_reads_empty BytewiseComparator b true) as (bl & it & it' & E1 & _ & E2 & E3 & E4 & _).
  - vm_compute. reflexivity.
  - vm_compute. congruence.
  - exists b, bl, it, it'. split; [vm_compute; reflexivity|]. split; [exact E1|]. split; [exact E2|]. split; [exact E3|exact E4].
Defined.
