(* ===== verification/Format.v ===== *)
(** table/format.h and table/format.cpp: block handles, the footer of a table, and
    the reader of a block with its trailer.

    [ReadBlock] and [Table::BlockReader] fall off the end of their bodies on their
    success paths.  [FallOff] is what the caller then sees of the value that was
    ready to be returned.  The code is the variant [Undefined]: by the language
    nothing is returned.  [AsIntended] is not the code but the code with the
    missing [return] statements put in, which is what format.h documents; it is
    there to say what else is right or wrong in tables. *)

From Stdlib Require Import ZArith Lia List Bool String.
From S2P Require Import Prelude Coding Slice Crc32c Options LogFile.

Class FallOff := fall_off : forall A : Type, A -> option A.

Definition Undefined : FallOff := fun _ _ => None.
Definition AsIntended : FallOff := fun _ a => Some a.

Module BlockHandle.

Record t := Mk { offset_ : Z; size_ : Z }.

Definition unset : Z := 2 ^ 64 - 1.

Definition new : t := Mk unset unset.

Definition kMaxEncodedLength : Z := 10 + 10.

Definition EncodeTo (h : t) (dst : bytes) : option bytes :=
  if offset_ h =? unset then None
  else if size_ h =? unset then None
  else
    let dst := PutVarint64 dst (offset_ h) in
    Some (PutVarint64 dst (size_ h)).

(** The handle keeps what was read before a failure. *)
Definition DecodeFrom (h : t) (input : bytes) : Status * t * bytes :=
  let bad := Status_Corruption (str "bad block handle") [] in
  match GetVarint64 input with
  | Some (offset, input) =>
      match GetVarint64 input with
      | Some (size, input) => (Status_OK, Mk offset size, input)
      | None => (bad, Mk offset (size_ h), input)
      end
  | None => (bad, h, input)
  end.

(** A handle that was set: 64-bit fields other than the initial value. *)
Definition valid (h : t) : Prop := 0 <= offset_ h < unset /\ 0 <= size_ h < unset.

End BlockHandle.

Module Footer.

Record t := Mk { metaindex_handle_ : BlockHandle.t; index_handle_ : BlockHandle.t }.

Definition new : t := Mk BlockHandle.new BlockHandle.new.

Definition kEncodedLength : Z := 2 * BlockHandle.kMaxEncodedLength + 8.

Definition kTableMagicNumber : Z := 0xdb4775248b80fb57.

(** [dst->resize(n)] *)
Definition resize (dst : bytes) (n : Z) : bytes := take (Z.to_nat n) dst ++ replicate (Z.to_nat n - length dst) Byte.x00.

Definition EncodeTo (f : t) (dst : bytes) : option bytes :=
  let original_size := Zlength dst in
  dst ← BlockHandle.EncodeTo (metaindex_handle_ f) dst;
  dst ← BlockHandle.EncodeTo (index_handle_ f) dst;
  let dst := resize dst (2 * BlockHandle.kMaxEncodedLength) in
  let dst := PutFixed32 dst (u32 (Z.land kTableMagicNumber 0xffffffff)) in
  let dst := PutFixed32 dst (u32 (Z.shiftr kTableMagicNumber 32)) in
  if Zlength dst =? original_size + kEncodedLength then Some dst else None.

(** An input shorter than a footer is read past its end: undefined. *)
Definition DecodeFrom (f : t) (input : bytes) : option (Status * t * bytes) :=
  if Zlength input <? kEncodedLength then None
  else
    let magic_ptr := drop (Z.to_nat (kEncodedLength - 8)) input in
    let magic_lo := DecodeFixed32 magic_ptr in
    let magic_hi := DecodeFixed32 (drop 4 magic_ptr) in
    let magic := Z.lor (u64 (Z.shiftl magic_hi 32)) magic_lo in
    if negb (magic =? kTableMagicNumber) then
      Some (Status_InvalidArgument (str "not an sstable (bad magic number)") [], f, input)
    else
      let '(result, metaindex, rest) := BlockHandle.DecodeFrom (metaindex_handle_ f) input in
      let '(result, index, rest) :=
        if ok result then BlockHandle.DecodeFrom (index_handle_ f) rest else (result, index_handle_ f, rest) in
      let rest := if ok result then drop (Z.to_nat kEncodedLength) input else rest in
      Some (result, Mk metaindex index, rest).

End Footer.

Definition kBlockTrailerSize : Z := 5.

Record BlockContents := MkBlockContents { data : bytes; cachable : bool; heap_allocated : bool }.

(** [RandomAccessFile::Read(offset, n, result, scratch)]: the status, the bytes of
    [*result], and whether they are in [scratch]. *)
Record RandomAccessFile := MkRandomAccessFile { Read : Z -> Z -> Status * bytes * bool }.

(** A file that delivers its contents. *)
Class Delivers (file : RandomAccessFile) (contents : bytes) : Prop :=
  delivers : forall offset n, 0 <= offset -> 0 <= n ->
    (Read file offset n).1 = (Status_OK, take (Z.to_nat n) (drop (Z.to_nat offset) contents)).

Section ReadBlock.
Context `{FO : FallOff} `{C : Checksum}.

(** [addr] is the address of the data that was read.  [None] is undefined. *)
Definition ReadBlock (file : RandomAccessFile) (options : ReadOptions) (handle : BlockHandle.t) (addr : Z)
    : option (Status * BlockContents) :=
  let result := MkBlockContents [] false false in
  let n := BlockHandle.size_ handle in
  let '(s, contents, in_buf) := Read file (BlockHandle.offset_ handle) (u64 (n + kBlockTrailerSize)) in
  if negb (ok s) then Some (s, result)
  else if negb (Zlength contents =? u64 (n + kBlockTrailerSize)) then Some (Status_Corruption (str "truncated block read") [], result)
  else if Zlength contents <? n + kBlockTrailerSize then None
  else
    let mismatch :=
      if verify_checksums options then
        let crc := Unmask (DecodeFixed32 (drop (Z.to_nat (n + 1)) contents)) in
        let actual := cs_Value addr (take (Z.to_nat (n + 1)) contents) in
        negb (actual =? crc)
      else false in
    if mismatch then Some (Status_Corruption (str "block checksum mismatch") [], result)
    else
      type ← contents !! Z.to_nat n;
      if schar type =? CompressionType_to_Z kNoCompression then
        let result :=
          if negb in_buf then MkBlockContents (take (Z.to_nat n) contents) false false
          else MkBlockContents (take (Z.to_nat n) contents) true true in
        s ← fall_off Status s;
        Some (s, result)
      else Some (Status_Corruption (str "bad block type") [], result).

End ReadBlock.

(** ** Handles *)

Lemma BlockHandle_EncodeTo_valid h dst : BlockHandle.valid h ->
  BlockHandle.EncodeTo h dst = Some (dst ++ EncodeVarint64 (BlockHandle.offset_ h) ++ EncodeVarint64 (BlockHandle.size_ h)).
Proof.
  intros [Ho Hs]. unfold BlockHandle.EncodeTo. destruct (Z.eqb_spec (BlockHandle.offset_ h) BlockHandle.unset); [lia|].
  destruct (Z.eqb_spec (BlockHandle.size_ h) BlockHandle.unset); [lia|]. unfold PutVarint64. by rewrite <- app_assoc.
Qed.

Lemma BlockHandle_DecodeFrom_enc h h' rest : BlockHandle.valid h ->
  BlockHandle.DecodeFrom h' (EncodeVarint64 (BlockHandle.offset_ h) ++ EncodeVarint64 (BlockHandle.size_ h) ++ rest) = (Status_OK, h, rest).
Proof.
  unfold BlockHandle.valid, BlockHandle.unset. intros [Ho Hs]. unfold BlockHandle.DecodeFrom.
  rewrite GetVarint64_enc by (unfold is_u64; lia). rewrite GetVarint64_enc by (unfold is_u64; lia). by destruct h.
Qed.

(** ** The footer *)

(** The 48 bytes of a footer. *)
Definition footer_bytes (f : Footer.t) : bytes :=
  let m := Footer.metaindex_handle_ f in let i := Footer.index_handle_ f in
  let h := EncodeVarint64 (BlockHandle.offset_ m) ++ EncodeVarint64 (BlockHandle.size_ m) ++
    EncodeVarint64 (BlockHandle.offset_ i) ++ EncodeVarint64 (BlockHandle.size_ i) in
  h ++ replicate (40 - length h) Byte.x00 ++ EncodeFixed32 0x8b80fb57 ++ EncodeFixed32 0xdb477524.

Definition footer_valid (f : Footer.t) : Prop := BlockHandle.valid (Footer.metaindex_handle_ f) /\ BlockHandle.valid (Footer.index_handle_ f).

Lemma footer_bytes_length f : length (footer_bytes f) = 48%nat.
Proof.
  unfold footer_bytes. destruct f as [[a b] [c d]]. cbn [Footer.metaindex_handle_ Footer.index_handle_ BlockHandle.offset_ BlockHandle.size_].
  pose proof (EncodeVarint64_length a). pose proof (EncodeVarint64_length b). pose proof (EncodeVarint64_length c). pose proof (EncodeVarint64_length d).
  cbn zeta. rewrite !length_app, length_replicate, !EncodeFixed32_length. lia.
Qed.

Lemma Footer_EncodeTo_empty f : footer_valid f -> Footer.EncodeTo f [] = Some (footer_bytes f).
Proof.
  intros [Hm Hi]. pose proof (footer_bytes_length f) as Hl. unfold Footer.EncodeTo. rewrite BlockHandle_EncodeTo_valid by done. bind_simpl.
  rewrite BlockHandle_EncodeTo_valid by done. bind_simpl. cbn [app]. rewrite <- app_assoc. unfold Footer.resize, PutFixed32.
  unfold footer_bytes in *. cbn zeta in *. set (h := EncodeVarint64 (BlockHandle.offset_ (Footer.metaindex_handle_ f)) ++ _) in *.
  change (Z.to_nat (2 * BlockHandle.kMaxEncodedLength)) with 40%nat.
  change (u32 (Z.land Footer.kTableMagicNumber 0xffffffff)) with 0x8b80fb57. change (u32 (Z.shiftr Footer.kTableMagicNumber 32)) with 0xdb477524.
  assert (length h <= 40)%nat as Hh by (rewrite !length_app, length_replicate, !EncodeFixed32_length in Hl; lia).
  rewrite (take_ge h) by done. rewrite <- !app_assoc. unfold Zlength. rewrite Hl. done.
Qed.

(** A footer can only be appended to an empty string: the padding is to 40 bytes
    in all. *)
Lemma Footer_EncodeTo_appends f dst enc : Footer.EncodeTo f dst = Some enc -> dst = [].
Proof.
  unfold Footer.EncodeTo. intros H. destruct (BlockHandle.EncodeTo _ dst) as [d1|]; [|done]. cbn [mbind option_bind] in H.
  destruct (BlockHandle.EncodeTo _ d1) as [d2|]; [|done]. cbn [mbind option_bind] in H. unfold PutFixed32, Footer.resize in H.
  rewrite !Zlength_app in H. destruct (Z.eqb_spec (Zlength (take (Z.to_nat (2 * BlockHandle.kMaxEncodedLength)) d2) +
    Zlength (replicate (Z.to_nat (2 * BlockHandle.kMaxEncodedLength) - length d2) Byte.x00) +
    Zlength (EncodeFixed32 (u32 (Z.land Footer.kTableMagicNumber 0xffffffff))) + Zlength (EncodeFixed32 (u32 (Z.shiftr Footer.kTableMagicNumber 32))))
    (Zlength dst + Footer.kEncodedLength)) as [E|]; [|done].
  unfold Zlength in E. rewrite length_take, length_replicate, !EncodeFixed32_length in E. change (Z.to_nat (2 * BlockHandle.kMaxEncodedLength)) with 40%nat in E.
  change Footer.kEncodedLength with 48 in E. destruct dst; [done|]. cbn [length] in E. lia.
Qed.

Lemma Footer_DecodeFrom_enc f f' rest : footer_valid f -> Footer.DecodeFrom f' (footer_bytes f ++ rest) = Some (Status_OK, f, rest).
Proof.
  intros [Hm Hi]. pose proof (footer_bytes_length f) as Hl. unfold Footer.DecodeFrom.
  change Footer.kEncodedLength with 48. change (Z.to_nat (48 - 8)) with 40%nat. change (Z.to_nat 48) with 48%nat.
  destruct (Z.ltb_spec (Zlength (footer_bytes f ++ rest)) 48); [unfold Zlength in *; rewrite length_app in *; lia|].
  assert (drop 40 (footer_bytes f ++ rest) = EncodeFixed32 0x8b80fb57 ++ EncodeFixed32 0xdb477524 ++ rest) as Hd.
  { unfold footer_bytes in *. cbn zeta in *. set (h := EncodeVarint64 (BlockHandle.offset_ (Footer.metaindex_handle_ f)) ++ _) in *. clearbody h. rewrite <- !app_assoc, (app_assoc h).
    assert (length (h ++ replicate (40 - length h) Byte.x00) = 40%nat) as E by (rewrite !length_app, !EncodeFixed32_length in Hl; rewrite length_app; lia).
    by rewrite drop_app_length'. }
  rewrite Hd. change (drop 4 (EncodeFixed32 0x8b80fb57 ++ EncodeFixed32 0xdb477524 ++ rest)) with (EncodeFixed32 0xdb477524 ++ rest).
  rewrite !DecodeFixed32_app. change (negb _) with false. cbv iota.
  assert (drop 48 (footer_bytes f ++ rest) = rest) as -> by (rewrite <- Hl; apply drop_app_length).
  unfold footer_bytes. cbn zeta. rewrite <- !app_assoc. rewrite BlockHandle_DecodeFrom_enc by done.
  change (ok Status_OK) with true. cbv iota. rewrite BlockHandle_DecodeFrom_enc by done. change (ok Status_OK) with true. cbv iota. by destruct f.
Qed.

(** ** Blocks with their trailer *)

(** What [WriteRawBlock] writes of a block: the data, the type and the checksum of
    both. *)
Definition raw_block `{Checksum} (a a' : Z) (block : bytes) (type : CompressionType) : bytes :=
  let t := [Zb (CompressionType_to_Z type)] in
  block ++ t ++ EncodeFixed32 (Mask (cs_Extend a' (cs_Value a block) t)).

Lemma raw_block_length `{Checksum} a a' block type : Zlength (raw_block a a' block type) = Zlength block + kBlockTrailerSize.
Proof. unfold raw_block, kBlockTrailerSize, Zlength. rewrite !length_app, EncodeFixed32_length. cbn [length]. lia. Qed.

Lemma take_drop_middle_app {A} (pre x post : list A) n : n = length x -> take n (drop (length pre) (pre ++ x ++ post)) = x.
Proof. intros ->. by rewrite drop_app_length, take_app_length. Qed.

Section Blocks.
Context (C : Checksum) (file : RandomAccessFile).

(** Where the file holds a block as it was written, [ReadBlock] gets to its end,
    with the block in [*result]; if it verifies checksums, this needs a lawful one. *)
Lemma ReadBlock_raw (contents pre block post : bytes) (options : ReadOptions) (h : BlockHandle.t) (a a' : Z) :
  Delivers file contents -> (verify_checksums options = true -> ChecksumLaws C) ->
  contents = pre ++ raw_block a a' block kNoCompression ++ post ->
  BlockHandle.offset_ h = Zlength pre -> BlockHandle.size_ h = Zlength block -> Zlength contents < 2 ^ 64 ->
  let r := Read file (BlockHandle.offset_ h) (BlockHandle.size_ h + kBlockTrailerSize) in
  r.1 = (Status_OK, raw_block a a' block kNoCompression) /\
  forall (FO : FallOff) addr, ReadBlock file options h addr = s ← fall_off Status Status_OK; Some (s, MkBlockContents block r.2 r.2).
Proof.
  intros Hf HC -> Ho Hs Hlen. cbn zeta. unfold ReadBlock. rewrite Ho, Hs. rewrite !Zlength_app in Hlen. pose proof (Zlength_nonneg pre). pose proof (Zlength_nonneg post).
  pose proof (raw_block_length a a' block kNoCompression) as Hr. unfold kBlockTrailerSize in *. pose proof (Zlength_nonneg block).
  rewrite u64_small by (unfold is_u64; lia).
  pose proof (delivers (Zlength pre) (Zlength block + 5) ltac:(lia) ltac:(lia)) as Hd. destruct (Read file _ _) as [[s c] inb]. cbn [fst] in Hd.
  rewrite to_nat_Zlength, take_drop_middle_app in Hd by (unfold Zlength in *; lia). injection Hd as -> ->.
  cbn [fst snd]. split; [done|]. intros FO addr. change (ok Status_OK) with true. cbn [negb]. rewrite Hr, Z.eqb_refl. cbn [negb]. destruct (Z.ltb_spec (Zlength block + 5) (Zlength block + 5)); [lia|].
  assert ((if verify_checksums options then negb (cs_Value addr (take (Z.to_nat (Zlength block + 1)) (raw_block a a' block kNoCompression)) =?
    Unmask (DecodeFixed32 (drop (Z.to_nat (Zlength block + 1)) (raw_block a a' block kNoCompression)))) else false) = false) as ->.
  { destruct (verify_checksums options); [|done]. specialize (HC eq_refl). unfold raw_block. cbn zeta. set (t := [Zb _]). rewrite app_assoc.
    assert (Z.to_nat (Zlength block + 1) = length (block ++ t)) as -> by (rewrite length_app; unfold Zlength; cbn [length t]; lia).
    rewrite take_app_length, drop_app_length, <- (app_nil_r (EncodeFixed32 _)), DecodeFixed32_app.
    rewrite u32_small by apply Mask_range. rewrite Unmask_Mask by (apply cs_range, cs_range; unfold is_u32; lia).
    by rewrite (cs_pieces a' a addr), Z.eqb_refl. }
  rewrite to_nat_Zlength.
  assert (raw_block a a' block kNoCompression !! length block = Some (Zb (CompressionType_to_Z kNoCompression))) as ->
    by (unfold raw_block; cbn [app]; by apply list_lookup_middle).
  bind_simpl.
  change (schar (Zb (CompressionType_to_Z kNoCompression)) =? CompressionType_to_Z kNoCompression) with true. cbv iota.
  unfold raw_block. cbn zeta. rewrite take_app_length. by destruct inb.
Qed.

End Blocks.

(** By the language [ReadBlock] never returns OK. *)
Lemma ReadBlock_undefined (C : Checksum) file options h addr s bc : @ReadBlock Undefined C file options h addr = Some (s, bc) -> ok s = false.
Proof.
  unfold ReadBlock. destruct (Read file _ _) as [[s0 c] inb]. destruct (ok s0) eqn:E0; cbn [negb]; [|by intros [= <- _]].
  destruct (_ =? _); cbn [negb]; [|by intros [= <- _]]. destruct (_ <? _); [done|]. destruct (if verify_checksums options then _ else _); [by intros [= <- _]|].
  destruct (c !! _); [|done]. cbn [mbind option_bind]. destruct (_ =? _); [done|by intros [= <- _]].
Qed.

(** ** Properties *)

(** A footer takes 48 bytes whatever its handles, decoding gives the two
    handles back and leaves the bytes that follow, and a footer can only be
    encoded into an empty string. *)
Theorem Footer_roundtrip (f f' : Footer.t) (rest : bytes) :
  footer_valid f ->
  exists enc, Footer.EncodeTo f [] = Some enc /\ Zlength enc = Footer.kEncodedLength /\
    Footer.DecodeFrom f' (enc ++ rest) = Some (Status_OK, f, rest) /\
    forall dst, is_Some (Footer.EncodeTo f dst) -> dst = [].
Proof.
  intros Hf. exists (footer_bytes f). split; [by apply Footer_EncodeTo_empty|]. split; [unfold Zlength; by rewrite footer_bytes_length|].
  split; [by apply Footer_DecodeFrom_enc|]. intros dst [enc H]. by eapply Footer_EncodeTo_appends.
Qed.

Lemma Footer_roundtrip_witness :
  exists enc, Footer.EncodeTo (Footer.Mk (BlockHandle.Mk 300 20) (BlockHandle.Mk 325 2)) [] = Some enc /\
    Footer.DecodeFrom Footer.new (enc ++ str "rest") =
      Some (Status_OK, Footer.Mk (BlockHandle.Mk 300 20) (BlockHandle.Mk 325 2), str "rest").
Proof.
  destruct (Footer_roundtrip (Footer.Mk (BlockHandle.Mk 300 20) (BlockHandle.Mk 325 2)) Footer.new (str "rest")) as (enc & E1 & _ & E2 & _).
  - repeat split; vm_compute; congruence.
  - exists enc. split; [exact E1|exact E2].
Defined.

(** [ReadBlock] reports success only for a whole block: every byte the handle
    names was delivered, the type is "no compression" and, when verification is
    asked for, the stored checksum is that of the data and the type; the result is
    then the data without the trailer.  But the success path does not return: by
    the language, [ReadBlock] never returns OK. *)
Theorem ReadBlock_checked (FO : FallOff) (C : Checksum) (file : RandomAccessFile) (options : ReadOptions) (h : BlockHandle.t)
    (addr : Z) (s : Status) (bc : BlockContents) :
  0 <= BlockHandle.size_ h ->
  ReadBlock file options h addr = Some (s, bc) -> ok s = true ->
  FO <> Undefined /\
  exists trailer inb, (Read file (BlockHandle.offset_ h) (BlockHandle.size_ h + kBlockTrailerSize)).1 = (inb, data bc ++ Byte.x00 :: trailer) /\
    ok inb = true /\ Zlength (data bc) = BlockHandle.size_ h /\ Zlength trailer = 4 /\
    (verify_checksums options = true -> cs_Value addr (data bc ++ [Byte.x00]) = Unmask (DecodeFixed32 trailer)).
Proof.
  intros Hn. unfold ReadBlock. set (n := BlockHandle.size_ h) in *.
  destruct (Read file _ _) as [[s0 c] inb] eqn:Er. destruct (ok s0) eqn:E0; cbn [negb]; [|intros [= <- _]; congruence].
  destruct (Z.eqb_spec (Zlength c) (u64 (n + kBlockTrailerSize))) as [El|]; cbn [negb]; [|by intros [= <- _]].
  destruct (Z.ltb_spec (Zlength c) (n + kBlockTrailerSize)) as [|Hge]; [done|].
  assert (u64 (n + kBlockTrailerSize) = n + kBlockTrailerSize) as E64.
  { apply Z.le_antisymm; [apply Z.mod_le; [unfold kBlockTrailerSize; lia|done]|lia]. }
  destruct (if verify_checksums options then _ else _) eqn:Ev; [by intros [= <- _]|].
  destruct (c !! Z.to_nat n) as [ty|] eqn:Et; [|done]. cbn [mbind option_bind].
  destruct (Z.eqb_spec (schar ty) (CompressionType_to_Z kNoCompression)) as [Hty|]; [|by intros [= <- _]].
  destruct (fall_off Status s0) as [s1|] eqn:Ef; [|done]. cbn [mbind option_bind]. intros [= <- Hbc] Hok.
  split; [intros ->; done|].
  assert (data bc = take (Z.to_nat n) c) as Hd by (rewrite <- Hbc; by destruct inb).
  assert (ty = Byte.x00) as ->.
  { unfold schar in Hty. pose proof (bZ_range ty). cbn in Hty. apply bZ_inj. change (bZ Byte.x00) with 0. destruct (Z.ltb_spec (bZ ty) 128); lia. }
  assert (c = take (Z.to_nat n) c ++ Byte.x00 :: drop (Z.to_nat (n + 1)) c) as Ec.
  { replace (Z.to_nat (n + 1)) with (S (Z.to_nat n)) by lia. by rewrite (take_drop_middle c (Z.to_nat n)). }
  exists (drop (Z.to_nat (n + 1)) c), s0. rewrite <- E64, Er, Hd, <- Ec. split; [done|]. split; [done|].
  unfold Zlength, kBlockTrailerSize in *. rewrite length_take, length_drop. split; [lia|]. split; [lia|].
  intros Hv. rewrite Hv in Ev. apply negb_false_iff, Z.eqb_eq in Ev. rewrite <- Ev. f_equal.
  replace (Z.to_nat (n + 1)) with (S (Z.to_nat n)) by lia. by rewrite (take_S_r _ _ _ Et).
Qed.

Definition raf_of (contents : bytes) : RandomAccessFile :=
  MkRandomAccessFile (fun offset n => (Status_OK, take (Z.to_nat n) (drop (Z.to_nat offset) contents), true)).

#[global] Instance raf_of_delivers contents : Delivers (raf_of contents) contents.
Proof. done. Qed.

Lemma ReadBlock_checked_witness :
  let file := raf_of (str "xx" ++ raw_block (H := ReferenceChecksum) 0 0 (str "block") kNoCompression) in
  exists bc trailer inb, @ReadBlock AsIntended ReferenceChecksum file (MkReadOptions true true) (BlockHandle.Mk 2 5) 0 = Some (Status_OK, bc) /\
    (Read file 2 10).1 = (inb, data bc ++ Byte.x00 :: trailer) /\ data bc = str "block".
Proof.
  intros file. assert (exists bc, @ReadBlock AsIntended ReferenceChecksum file (MkReadOptions true true) (BlockHandle.Mk 2 5) 0 = Some (Status_OK, bc) /\ data bc = str "block")
    as (bc & E & Hd) by (eexists; split; vm_compute; reflexivity).
  destruct (ReadBlock_checked AsIntended ReferenceChecksum file (MkReadOptions true true) (BlockHandle.Mk 2 5) 0 Status_OK bc) as (_ & tr & inb & H & _).
  - cbn. lia.
  - exact E.
  - reflexivity.
  - exists bc, tr, inb. split; [exact E|]. split; [exact H|exact Hd].
Defined.
