(* ===== verification/FilterBlock.v ===== *)
(** table/filter_block.cpp: the builder and the reader of the block that holds one
    filter for every 2 KB of a table's data.

    The builder's [tmp_keys_] is a buffer that is empty between calls, and local
    here.  The reader's two pointers are the contents and the offset of the array
    in them; both are NULL (the empty contents and 0) when the contents are
    malformed, and then no filter is looked at.  Reads outside the contents, and a
    shift by 64 or more, are undefined. *)

From Stdlib Require Import ZArith Lia List Bool String Sorting.Sorted.
From S2P Require Import Prelude Lists Coding Slice Bloom.

Definition kFilterBaseLg : Z := 11.
Definition kFilterBase : Z := Z.shiftl 1 kFilterBaseLg.

Module FilterBlockBuilder.
Section Builder.
Context (policy_ : FilterPolicy).

Record t := Mk {
  keys_ : bytes;
  start_ : list Z;
  result_ : bytes;
  filter_offsets_ : list Z
}.

Definition new : t := Mk [] [] [] [].

(** [Slice(keys_.data() + start_[i], start_[i+1] - start_[i])] *)
Definition tmp_key (keys : bytes) (start : list Z) (i : nat) : bytes :=
  let base := nth i start 0 in
  let length := u64 (nth (i + 1) start 0 - base) in
  take (Z.to_nat length) (drop (Z.to_nat base) keys).

Definition GenerateFilter (b : t) : t :=
  let num_keys := length (start_ b) in
  if (num_keys =? 0)%nat then Mk (keys_ b) (start_ b) (result_ b) (filter_offsets_ b ++ [u32 (Zlength (result_ b))])
  else
    let start := start_ b ++ [Zlength (keys_ b)] in
    let tmp_keys := map (tmp_key (keys_ b) start) (seq 0 num_keys) in
    let filter_offsets := filter_offsets_ b ++ [u32 (Zlength (result_ b))] in
    let result := CreateFilter policy_ tmp_keys (result_ b) in
    Mk [] [] result filter_offsets.

(** [while (filter_index > filter_offsets_.size()) GenerateFilter();]: a round
    adds one offset. *)
Fixpoint StartBlock_loop (fuel : nat) (filter_index : Z) (b : t) : option t :=
  if filter_index >? Zlength (filter_offsets_ b) then
    match fuel with
    | O => None
    | S fuel => StartBlock_loop fuel filter_index (GenerateFilter b)
    end
  else Some b.

Definition StartBlock (b : t) (block_offset : Z) : option t :=
  let filter_index := block_offset / kFilterBase in
  if filter_index >=? Zlength (filter_offsets_ b) then
    StartBlock_loop (Z.to_nat (filter_index - Zlength (filter_offsets_ b))) filter_index b
  else None.

Definition AddKey (b : t) (key : bytes) : t :=
  Mk (keys_ b ++ key) (start_ b ++ [Zlength (keys_ b)]) (result_ b) (filter_offsets_ b).

Definition Finish (b : t) : bytes * t :=
  let b := if (length (start_ b) =? 0)%nat then b else GenerateFilter b in
  let array_offset := u32 (Zlength (result_ b)) in
  let result := foldl PutFixed32 (result_ b) (filter_offsets_ b) in
  let result := PutFixed32 result array_offset in
  let result := result ++ [Zb kFilterBaseLg] in
  (result, Mk (keys_ b) (start_ b) result (filter_offsets_ b)).

End Builder.
End FilterBlockBuilder.

Module FilterBlockReader.
Section Reader.
Context (policy_ : FilterPolicy).

Record t := Mk {
  data_ : bytes;
  offset_ : Z;
  num_ : Z;
  base_lg_ : Z
}.

Definition new (contents : bytes) : t :=
  let n := Zlength contents in
  if n <? 5 then Mk [] 0 0 0
  else
    let base_lg := match last contents with Some c => u64 (schar c) | None => 0 end in
    let last_word := DecodeFixed32 (drop (Z.to_nat (n - 5)) contents) in
    if last_word >? n - 5 then Mk [] 0 0 base_lg
    else Mk contents last_word ((n - 5 - last_word) / 4) base_lg.

(** [DecodeFixed32(offset_ + i)] *)
Definition word (r : t) (i : Z) : option Z :=
  if offset_ r + i + 4 <=? Zlength (data_ r) then Some (DecodeFixed32 (drop (Z.to_nat (offset_ r + i)) (data_ r))) else None.

Definition KeyMayMatch (r : t) (block_offset : Z) (key : bytes) : option bool :=
  if base_lg_ r >=? 64 then None
  else
    let index := Z.shiftr block_offset (base_lg_ r) in
    if index <? num_ r then
      start ← word r (index * 4);
      limit ← word r (index * 4 + 4);
      if (start <=? limit) && (limit <=? offset_ r) then
        let filter := take (Z.to_nat (limit - start)) (drop (Z.to_nat start) (data_ r)) in
        Some (KeyMayMatch policy_ key filter)
      else if start =? limit then Some false
      else Some true
    else Some true.

End Reader.
End FilterBlockReader.

(** ** Positions in a concatenation *)

(** Where the [i]-th of the pieces [l] starts in their concatenation. *)
Definition pos_of (l : list bytes) (i : nat) : Z := Zlength (concat (take i l)).

Definition starts (l : list bytes) : list Z := pos_of l <$> seq 0 (length l).

Lemma pos_of_snoc l x i : (i <= length l)%nat -> pos_of (l ++ [x]) i = pos_of l i.
Proof. intros Hi. unfold pos_of. by rewrite take_app_le. Qed.

Lemma pos_of_end l : pos_of l (length l) = Zlength (concat l).
Proof. unfold pos_of. by rewrite take_ge. Qed.

Lemma pos_of_S l i x : l !! i = Some x -> pos_of l (S i) = pos_of l i + Zlength x.
Proof. intros Hi. unfold pos_of. rewrite (take_S_r l i x Hi), concat_app, Zlength_app. cbn. by rewrite app_nil_r. Qed.

Lemma pos_of_bound l i : 0 <= pos_of l i <= Zlength (concat l).
Proof.
  unfold pos_of. split; [apply Zlength_nonneg|]. rewrite <- (take_drop i l) at 2. rewrite concat_app, Zlength_app.
  pose proof (Zlength_nonneg (concat (drop i l))). lia.
Qed.

Lemma piece_slice l i x rest : l !! i = Some x ->
  take (Z.to_nat (pos_of l (S i) - pos_of l i)) (drop (Z.to_nat (pos_of l i)) (concat l ++ rest)) = x.
Proof.
  intros Hi. rewrite (pos_of_S l i x Hi). replace (pos_of l i + Zlength x - pos_of l i) with (Zlength x) by lia.
  assert (concat l = concat (take i l) ++ x ++ concat (drop (S i) l)) as -> by (by rewrite <- (take_drop_middle l i x Hi) at 1; rewrite concat_app).
  unfold pos_of. rewrite <- !app_assoc, drop_Zlength_app.
  apply take_Zlength_app.
Qed.

Lemma seq_fmap_snoc (f : nat -> Z) n : f <$> seq 0 (S n) = (f <$> seq 0 n) ++ [f n].
Proof. by rewrite seq_S, fmap_app. Qed.

Lemma starts_snoc l x : starts (l ++ [x]) = starts l ++ [Zlength (concat l)].
Proof.
  unfold starts. rewrite length_app, Nat.add_1_r. rewrite seq_fmap_snoc, pos_of_snoc, pos_of_end by done. f_equal.
  apply list_fmap_ext. intros j i [-> Hi]%lookup_seq. apply pos_of_snoc. lia.
Qed.

Lemma tmp_keys_ok l : Zlength (concat l) < 2 ^ 64 ->
  map (FilterBlockBuilder.tmp_key (concat l) (starts l ++ [Zlength (concat l)])) (seq 0 (length l)) = l.
Proof.
  intros Hl. unfold starts. rewrite <- pos_of_end, <- seq_fmap_snoc. apply list_eq. intros i.
  destruct (decide (i < length l)%nat) as [Hi|Hi]; [|rewrite !lookup_ge_None_2 by (rewrite ?length_map, ?length_seq; lia); done].
  rewrite list_lookup_fmap, lookup_seq_lt by done. cbn [fmap option_fmap option_map]. destruct (lookup_lt_is_Some_2 l i Hi) as [x Hx]. rewrite Hx.
  unfold FilterBlockBuilder.tmp_key. rewrite !nth_lookup, !list_lookup_fmap, !lookup_seq_lt by lia. cbn [fmap option_fmap option_map default].
  rewrite !Nat.add_0_l, Nat.add_1_r. pose proof (pos_of_bound l i). pose proof (pos_of_bound l (S i)). pose proof (pos_of_S l i x Hx). pose proof (Zlength_nonneg x).
  rewrite u64_small by (unfold is_u64; cbn; lia). f_equal. cbn. rewrite <- (app_nil_r (concat l)). by apply piece_slice.
Qed.

(** [StartBlock] accepts an offset past the filters that are there. *)
Lemma GenerateFilter_offsets p b :
  Zlength (FilterBlockBuilder.filter_offsets_ (FilterBlockBuilder.GenerateFilter p b)) = Zlength (FilterBlockBuilder.filter_offsets_ b) + 1.
Proof. unfold FilterBlockBuilder.GenerateFilter. destruct (_ =? _)%nat; cbn [FilterBlockBuilder.filter_offsets_]; rewrite Zlength_app; done. Qed.

Lemma StartBlock_accepts p b off : Zlength (FilterBlockBuilder.filter_offsets_ b) <= off / kFilterBase -> is_Some (FilterBlockBuilder.StartBlock p b off).
Proof.
  intros Ho. unfold FilterBlockBuilder.StartBlock. destruct (Z.geb_spec (off / kFilterBase) (Zlength (FilterBlockBuilder.filter_offsets_ b))); [|lia].
  assert (forall fuel n b, n - Zlength (FilterBlockBuilder.filter_offsets_ b) <= Z.of_nat fuel -> is_Some (FilterBlockBuilder.StartBlock_loop p fuel n b)) as Hl; [|apply Hl; lia].
  induction fuel as [|fuel IH]; intros n b' Hn; cbn [FilterBlockBuilder.StartBlock_loop]; rewrite Z.gtb_ltb;
    destruct (Z.ltb_spec (Zlength (FilterBlockBuilder.filter_offsets_ b')) n); [lia|eauto| |eauto].
  apply IH. rewrite GenerateFilter_offsets. lia.
Qed.

(** ** The builder *)

Section Spec.
Context (p : FilterPolicy) `{!FilterPolicyLaws p}.

Definition covers (keys : list bytes) (filter : bytes) : Prop := forall k, k ∈ keys -> KeyMayMatch p k filter = true.

(** The builder has finished filters for the key lists [fs] and has the keys
    [cur] of the next one. *)
Record holds (b : FilterBlockBuilder.t) (fs : list (list bytes)) (cur filters : list bytes) : Prop := {
  ho_keys : FilterBlockBuilder.keys_ b = concat cur;
  ho_start : FilterBlockBuilder.start_ b = starts cur;
  ho_result : FilterBlockBuilder.result_ b = concat filters;
  ho_offsets : FilterBlockBuilder.filter_offsets_ b = u32 ∘ pos_of filters <$> seq 0 (length filters);
  ho_covers : Forall2 covers fs filters
}.

Lemma new_holds : holds FilterBlockBuilder.new [] [] [].
Proof. by split. Qed.

Lemma holds_num b fs cur fl : holds b fs cur fl -> Zlength (FilterBlockBuilder.filter_offsets_ b) = Zlength fs.
Proof. intros [_ _ _ Ho Hc]. rewrite Ho. unfold Zlength. rewrite length_fmap, length_seq. by rewrite (Forall2_length _ _ _ Hc). Qed.

Lemma starts_length l : length (starts l) = length l.
Proof. unfold starts. by rewrite length_fmap, length_seq. Qed.

Lemma GenerateFilter_holds b fs cur fl : holds b fs cur fl -> Zlength cur < 2 ^ 31 -> Zlength (concat cur) < 2 ^ 64 ->
  exists f, holds (FilterBlockBuilder.GenerateFilter p b) (fs ++ [cur]) [] (fl ++ [f]).
Proof.
  intros [Hk Hs Hr Ho Hc] H1 H2. unfold FilterBlockBuilder.GenerateFilter. rewrite Hk, Hs, Hr, Ho, starts_length.
  assert (forall f, (u32 ∘ pos_of fl <$> seq 0 (length fl)) ++ [u32 (Zlength (concat fl))] = u32 ∘ pos_of (fl ++ [f]) <$> seq 0 (length (fl ++ [f]))) as Ho'.
  { intros f. rewrite length_app, Nat.add_1_r, seq_fmap_snoc. unfold compose at 3. rewrite pos_of_snoc, pos_of_end by done. f_equal.
    apply list_fmap_ext. intros j i [-> Hi]%lookup_seq. unfold compose. by rewrite pos_of_snoc by lia. }
  destruct (Nat.eqb_spec (length cur) 0) as [E|E].
  - exists []. destruct cur; [|done]. split; cbn [FilterBlockBuilder.keys_ FilterBlockBuilder.start_ FilterBlockBuilder.result_ FilterBlockBuilder.filter_offsets_]; try done.
    + by rewrite concat_app, app_nil_r.
    + apply Forall2_app; [done|]. repeat constructor. by intros k ?%not_elem_of_nil.
  - rewrite tmp_keys_ok by done. destruct (filter_no_false_negative cur (concat fl) H1) as (f & -> & Hf). exists f.
    split; cbn [FilterBlockBuilder.keys_ FilterBlockBuilder.start_ FilterBlockBuilder.result_ FilterBlockBuilder.filter_offsets_]; try done.
    + rewrite concat_app. cbn. by rewrite app_nil_r.
    + apply Forall2_app; [done|]. by repeat constructor.
Qed.

Lemma AddKey_holds b fs cur fl k : holds b fs cur fl -> holds (FilterBlockBuilder.AddKey b k) fs (cur ++ [k]) fl.
Proof.
  intros [Hk Hs Hr Ho Hc]. split; cbn [FilterBlockBuilder.AddKey FilterBlockBuilder.keys_ FilterBlockBuilder.start_ FilterBlockBuilder.result_ FilterBlockBuilder.filter_offsets_]; try done.
  - rewrite Hk, concat_app. cbn. by rewrite app_nil_r.
  - by rewrite Hs, Hk, starts_snoc.
Qed.

Lemma AddKeys_holds ks : forall b fs cur fl, holds b fs cur fl -> holds (foldl FilterBlockBuilder.AddKey b ks) fs (cur ++ ks) fl.
Proof.
  induction ks as [|k ks IH]; intros b fs cur fl H; cbn; [by rewrite app_nil_r|].
  rewrite cons_middle, app_assoc. by apply IH, AddKey_holds.
Qed.

(** The lists after filters have been generated up to index [n]. *)
Definition started (n : nat) (fs : list (list bytes)) (cur : list bytes) : list (list bytes) * list bytes :=
  if decide (length fs < n)%nat then (fs ++ [cur] ++ replicate (n - length fs - 1) [], []) else (fs, cur).

Lemma StartBlock_loop_holds (n fuel : nat) : forall b fs cur fl, holds b fs cur fl -> Zlength cur < 2 ^ 31 -> Zlength (concat cur) < 2 ^ 64 ->
  (n - length fs <= fuel)%nat ->
  exists b' fl', FilterBlockBuilder.StartBlock_loop p fuel (Z.of_nat n) b = Some b' /\
    holds b' (started n fs cur).1 (started n fs cur).2 fl'.
Proof.
  induction fuel as [|fuel IH]; intros b fs cur fl Hh H1 H2 Hf; cbn [FilterBlockBuilder.StartBlock_loop];
    rewrite (holds_num b fs cur fl Hh), Z.gtb_ltb; unfold started;
    destruct (Z.ltb_spec (Zlength fs) (Z.of_nat n)) as [Hlt|Hge]; unfold Zlength in *.
  - lia.
  - rewrite decide_False by lia. eauto.
  - destruct (GenerateFilter_holds b fs cur fl Hh H1 H2) as (f & Hg).
    destruct (IH _ _ _ _ Hg ltac:(cbn; lia) ltac:(cbn; lia)) as (b' & fl' & E & Hb'); [rewrite length_app; cbn; lia|].
    exists b', fl'. split; [done|]. unfold started in Hb'. rewrite (decide_True (P := (length fs < n)%nat)) by lia. cbn [fst snd].
    assert ((if decide (length (fs ++ [cur]) < n)%nat then ((fs ++ [cur]) ++ [[]] ++ replicate (n - length (fs ++ [cur]) - 1) [], []) else (fs ++ [cur], [])) =
      (fs ++ [cur] ++ replicate (n - length fs - 1) [], []) :> list (list bytes) * list bytes) as Es; [|by rewrite Es in Hb'].
    rewrite length_app. cbn [length]. destruct (decide (length fs + 1 < n)%nat).
    + replace (n - length fs - 1)%nat with (S (n - (length fs + 1) - 1)) by lia. by rewrite <- app_assoc.
    + replace (n - length fs - 1)%nat with 0%nat by lia. done.
  - rewrite decide_False by lia. eauto.
Qed.

Lemma StartBlock_holds b fs cur fl off : holds b fs cur fl -> Zlength cur < 2 ^ 31 -> Zlength (concat cur) < 2 ^ 64 ->
  Zlength fs <= off / kFilterBase ->
  exists b' fl', FilterBlockBuilder.StartBlock p b off = Some b' /\
    let '(fs', cur') := started (Z.to_nat (off / kFilterBase)) fs cur in holds b' fs' cur' fl'.
Proof.
  intros Hh H1 H2 Ho. unfold FilterBlockBuilder.StartBlock. rewrite (holds_num b fs cur fl Hh).
  destruct (Z.geb_spec (off / kFilterBase) (Zlength fs)); [|lia]. pose proof (Zlength_nonneg fs).
  destruct (StartBlock_loop_holds (Z.to_nat (off / kFilterBase)) (Z.to_nat (off / kFilterBase - Zlength fs)) b fs cur fl Hh H1 H2) as (b' & fl' & E & Hb');
    [unfold Zlength in *; lia|].
  rewrite Z2Nat.id in E by lia. exists b', fl'. split; [done|]. by destruct (started _ fs cur).
Qed.

(** ** A table's calls *)

(** The calls the header asks for: for each block a [StartBlock] with its offset
    and an [AddKey] for each of its keys. *)
Fixpoint build (b : FilterBlockBuilder.t) (blocks : list (Z * list bytes)) : option FilterBlockBuilder.t :=
  match blocks with
  | [] => Some b
  | (off, ks) :: blocks => b ← FilterBlockBuilder.StartBlock p b off; build (foldl FilterBlockBuilder.AddKey b ks) blocks
  end.

(** The filter with index [i] has, or will have, the key. *)
Definition sees (fs : list (list bytes)) (cur : list bytes) (i : nat) (k : bytes) : Prop := exists l, (fs ++ [cur]) !! i = Some l /\ k ∈ l.

Lemma sees_cur fs cur ks i k : sees fs cur i k -> sees fs (cur ++ ks) i k.
Proof.
  intros (l & Hl & Hk). destruct (decide (i < length fs)%nat) as [Hi|Hi].
  - exists l. by rewrite lookup_app_l in Hl |- *.
  - rewrite lookup_app_r in Hl by lia. apply list_lookup_singleton_Some in Hl as [E <-]. exists (cur ++ ks).
    rewrite lookup_app_r, E by lia. set_solver.
Qed.

Lemma sees_started n fs cur i k : sees fs cur i k -> sees (started n fs cur).1 (started n fs cur).2 i k.
Proof.
  intros (l & Hl & Hk). unfold started. destruct (decide _); [|by exists l]. cbn [fst snd]. exists l. rewrite <- app_assoc.
  cbn [app]. rewrite cons_middle, app_assoc. split; [|done]. by apply lookup_app_l_Some.
Qed.

Lemma started_length n fs cur : (length fs <= n)%nat -> length (started n fs cur).1 = n.
Proof. intros Hn. unfold started. destruct (decide _); cbn [fst]; [|lia]. rewrite !length_app, length_replicate. cbn. lia. Qed.

Lemma started_cur n fs cur : (started n fs cur).2 = [] \/ (started n fs cur).2 = cur.
Proof. unfold started. destruct (decide _); auto. Qed.

Definition all_keys (blocks : list (Z * list bytes)) : list bytes := concat (snd <$> blocks).

Lemma filter_build_ok blocks : forall b fs cur fl, holds b fs cur fl -> StronglySorted Z.le (fst <$> blocks) ->
  (forall off, off ∈ fst <$> blocks -> Zlength fs <= off / kFilterBase) ->
  Zlength cur + Zlength (all_keys blocks) < 2 ^ 31 -> Zlength (concat cur) + Zlength (concat (all_keys blocks)) < 2 ^ 64 ->
  exists b' fs' cur' fl', build b blocks = Some b' /\ holds b' fs' cur' fl' /\ Zlength cur' < 2 ^ 31 /\ Zlength (concat cur') < 2 ^ 64 /\
    (forall i k, sees fs cur i k -> sees fs' cur' i k) /\
    forall off ks k, (off, ks) ∈ blocks -> k ∈ ks -> sees fs' cur' (Z.to_nat (off / kFilterBase)) k.
Proof.
  induction blocks as [|[off ks] blocks IH]; intros b fs cur fl Hh Hso Hoff H1 H2.
  - exists b, fs, cur, fl. cbn in H1, H2 |- *. split_and!; [done|done|unfold Zlength in *; cbn in *; lia|unfold Zlength in *; cbn in *; lia|done|].
    by intros ? ? ? ?%not_elem_of_nil.
  - unfold all_keys in *. cbn [build fmap list_fmap concat snd fst] in *. rewrite concat_app, !Zlength_app in *. inversion_clear Hso as [|? ? Hso' Hle].
    pose proof (Zlength_nonneg ks). pose proof (Zlength_nonneg (concat (snd <$> blocks))). pose proof (Zlength_nonneg (concat ks)).
    pose proof (Zlength_nonneg (concat (concat (snd <$> blocks)))). set (n := Z.to_nat (off / kFilterBase)).
    destruct (StartBlock_holds b fs cur fl off Hh ltac:(lia) ltac:(lia)) as (b1 & fl1 & E1 & Hb1); [apply Hoff; left|].
    fold n in Hb1. pose proof (Hoff off ltac:(left)) as Hn. assert (length fs <= n)%nat as Hn' by (unfold Zlength in *; lia).
    pose proof (sees_started n fs cur) as Hst. pose proof (started_length n fs cur Hn') as Hl1. pose proof (started_cur n fs cur) as Hc1.
    destruct (started n fs cur) as [fs1 cur1]. cbn [fst snd] in *.
    assert (Zlength cur1 <= Zlength cur /\ Zlength (concat cur1) <= Zlength (concat cur)) as [Hc2 Hc3].
    { destruct Hc1 as [-> | ->]; [|done]. cbn. split; apply Zlength_nonneg. }
    apply (AddKeys_holds ks) in Hb1. rewrite E1. bind_simpl.
    destruct (IH _ fs1 (cur1 ++ ks) fl1 Hb1 Hso') as (b' & fs' & cur' & fl' & Eb & Hb' & Hs1 & Hs2 & Hkeep & Hnew).
    + intros off' Ho'. unfold Zlength. rewrite Hl1. rewrite Forall_forall in Hle. specialize (Hle off' Ho').
      assert (0 <= off / kFilterBase) by (unfold Zlength in *; lia). unfold n. rewrite Z2Nat.id by done. by apply Z.div_le_mono.
    + rewrite Zlength_app. lia.
    + rewrite concat_app, Zlength_app. lia.
    + exists b', fs', cur', fl'. split_and!; [done..| |].
      * intros i k Hk. apply Hkeep, sees_cur, Hst, Hk.
      * intros off' ks' k [[= -> ->]|Hin]%elem_of_cons Hk; [|by eapply Hnew]. apply Hkeep. exists (cur1 ++ ks).
        fold n. rewrite lookup_app_r, Hl1, Nat.sub_diag by lia. split; [done|set_solver].
Qed.

(** ** The finished block *)

Definition filter_block (filters : list bytes) : bytes :=
  concat filters ++ concat (EncodeFixed32 ∘ pos_of filters <$> seq 0 (S (length filters))) ++ [Zb kFilterBaseLg].

Lemma Finish_block b fs cur fl : holds b fs cur fl -> Zlength cur < 2 ^ 31 -> Zlength (concat cur) < 2 ^ 64 ->
  exists fs' fl', (FilterBlockBuilder.Finish p b).1 = filter_block fl' /\ Forall2 covers fs' fl' /\
    forall i k, sees fs cur i k -> exists l, fs' !! i = Some l /\ k ∈ l.
Proof.
  intros Hh H1 H2. unfold FilterBlockBuilder.Finish. rewrite (ho_start _ _ _ _ Hh), starts_length.
  assert (exists fs' fl', holds (if (length cur =? 0)%nat then b else FilterBlockBuilder.GenerateFilter p b) fs' [] fl' /\
    forall i k, sees fs cur i k -> exists l, fs' !! i = Some l /\ k ∈ l) as (fs' & fl' & Hh' & Hsee).
  { destruct (Nat.eqb_spec (length cur) 0) as [E|E].
    - destruct cur; [|done]. exists fs, fl. split; [done|]. intros i k (l & Hl & Hk). exists l. split; [|done].
      apply lookup_app_Some in Hl as [|[_ Hl]]; [done|]. apply list_lookup_singleton_Some in Hl as [_ <-]. by apply not_elem_of_nil in Hk.
    - destruct (GenerateFilter_holds b fs cur fl Hh H1 H2) as (f & Hg). exists (fs ++ [cur]), (fl ++ [f]). split; [done|]. done. }
  exists fs', fl'. split; [|split; [by apply Hh'|done]]. destruct Hh' as [_ _ Hr Ho _]. cbn [fst]. rewrite Hr, Ho, foldl_PutFixed32. unfold PutFixed32, filter_block.
  rewrite <- !app_assoc. f_equal. rewrite seq_S, fmap_app, concat_app, <- app_assoc. rewrite <- list_fmap_compose. cbn [fmap list_fmap concat].
  change ((EncodeFixed32 ∘ pos_of fl') (0 + length fl')%nat) with (EncodeFixed32 (pos_of fl' (length fl'))). rewrite pos_of_end, EncodeFixed32_u32, app_nil_r.
  f_equal. f_equal. apply list_fmap_ext. intros. unfold compose. apply EncodeFixed32_u32.
Qed.

Section Reader.
Context (fl : list bytes) (Hsz : Zlength (filter_block fl) < 2 ^ 32).

Lemma filter_block_length : Zlength (filter_block fl) = Zlength (concat fl) + 4 * Zlength fl + 5.
Proof. unfold filter_block, Zlength. rewrite !length_app, words_length, length_seq. cbn [length]. lia. Qed.

(** The [i]-th word of the offset array, the end of the filters included. *)
Lemma filter_word i : (i <= length fl)%nat ->
  DecodeFixed32 (drop (Z.to_nat (Zlength (concat fl) + Z.of_nat i * 4)) (filter_block fl)) = pos_of fl i.
Proof.
  intros Hi. rewrite Z2Nat.inj_add, to_nat_Zlength by (pose proof (Zlength_nonneg (concat fl)); lia). unfold filter_block.
  replace (Z.to_nat (Z.of_nat i * 4)) with (4 * i)%nat by lia. rewrite <- drop_drop, drop_app_length.
  rewrite (words_drop (pos_of fl) (seq 0 (S (length fl))) i i) by (rewrite lookup_seq_lt by lia; done).
  rewrite DecodeFixed32_app. apply u32_small. pose proof (pos_of_bound fl i). pose proof filter_block_length. unfold is_u32, Zlength in *. lia.
Qed.

Lemma reader_new : FilterBlockReader.new (filter_block fl) = FilterBlockReader.Mk (filter_block fl) (Zlength (concat fl)) (Zlength fl) kFilterBaseLg.
Proof.
  pose proof filter_block_length as Hl. pose proof (Zlength_nonneg (concat fl)). pose proof (Zlength_nonneg fl).
  unfold FilterBlockReader.new. destruct (Z.ltb_spec (Zlength (filter_block fl)) 5); [lia|].
  assert (last (filter_block fl) = Some (Zb kFilterBaseLg)) as -> by (unfold filter_block; rewrite app_assoc; apply last_snoc).
  replace (Zlength (filter_block fl) - 5) with (Zlength (concat fl) + Z.of_nat (length fl) * 4) by (unfold Zlength in *; lia).
  rewrite filter_word, pos_of_end by done. rewrite Z.gtb_ltb. destruct (Z.ltb_spec (Zlength (concat fl) + Z.of_nat (length fl) * 4) (Zlength (concat fl))); [lia|].
  change (u64 (schar (Zb kFilterBaseLg))) with kFilterBaseLg. f_equal.
  replace (Zlength (concat fl) + Z.of_nat (length fl) * 4 - Zlength (concat fl)) with (Zlength fl * 4) by (unfold Zlength; lia). by apply Z.div_mul.
Qed.

Lemma reader_covers fs off i l k : Forall2 covers fs fl -> off / kFilterBase = Z.of_nat i -> fs !! i = Some l -> k ∈ l ->
  FilterBlockReader.KeyMayMatch p (FilterBlockReader.new (filter_block fl)) off k = Some true.
Proof.
  intros Hc Hi Hl Hk. destruct (Forall2_lookup_l _ _ _ _ _ Hc Hl) as (f & Hf & Hcov). pose proof (lookup_lt_Some _ _ _ Hf) as Hlt.
  rewrite reader_new. unfold FilterBlockReader.KeyMayMatch. cbn [FilterBlockReader.base_lg_ FilterBlockReader.num_ FilterBlockReader.offset_ FilterBlockReader.data_].
  change (kFilterBaseLg >=? 64) with false. cbv iota. rewrite Z.shiftr_div_pow2 by (unfold kFilterBaseLg; lia). change (2 ^ kFilterBaseLg) with kFilterBase. rewrite Hi.
  destruct (Z.ltb_spec (Z.of_nat i) (Zlength fl)); [|unfold Zlength in *; lia]. pose proof filter_block_length as Hlen.
  unfold FilterBlockReader.word. cbn [FilterBlockReader.offset_ FilterBlockReader.data_].
  destruct (Z.leb_spec (Zlength (concat fl) + Z.of_nat i * 4 + 4) (Zlength (filter_block fl))); [|lia]. bind_simpl. rewrite filter_word by lia.
  destruct (Z.leb_spec (Zlength (concat fl) + (Z.of_nat i * 4 + 4) + 4) (Zlength (filter_block fl))); [|lia]. bind_simpl.
  replace (Zlength (concat fl) + (Z.of_nat i * 4 + 4)) with (Zlength (concat fl) + Z.of_nat (S i) * 4) by lia. rewrite filter_word by lia.
  pose proof (pos_of_S fl i f Hf). pose proof (Zlength_nonneg f). pose proof (pos_of_bound fl (S i)).
  destruct (Z.leb_spec (pos_of fl i) (pos_of fl (S i))); [|lia]. destruct (Z.leb_spec (pos_of fl (S i)) (Zlength (concat fl))); [|lia]. cbn [andb].
  f_equal. unfold filter_block. rewrite (piece_slice fl i f _ Hf). by apply Hcov.
Qed.

End Reader.

End Spec.

Lemma filter_block_matches (p : FilterPolicy) (Hp : FilterPolicyLaws p) (blocks : list (Z * list bytes)) :
  StronglySorted Z.le (fst <$> blocks) -> Forall (fun off => 0 <= off) (fst <$> blocks) ->
  Zlength (all_keys blocks) < 2 ^ 31 -> Zlength (concat (all_keys blocks)) < 2 ^ 64 ->
  exists b, build p FilterBlockBuilder.new blocks = Some b /\
    let contents := (FilterBlockBuilder.Finish p b).1 in
    Zlength contents < 2 ^ 32 ->
    forall off ks k, (off, ks) ∈ blocks -> k ∈ ks ->
      FilterBlockReader.KeyMayMatch p (FilterBlockReader.new contents) off k = Some true.
Proof.
  intros Hso Hpos H1 H2. destruct (filter_build_ok p blocks _ [] [] [] (new_holds p) Hso) as (b & fs & cur & fl & E & Hh & Hc1 & Hc2 & _ & Hnew); [|change (Zlength (@nil bytes)) with 0; lia|change (Zlength (concat (@nil bytes))) with 0; lia|].
  { intros off Ho. rewrite Forall_forall in Hpos. cbn. apply Z.div_pos; [auto|done]. }
  exists b. split; [done|]. cbn zeta. destruct (Finish_block p b fs cur fl Hh Hc1 Hc2) as (fs' & fl' & -> & Hcov & Hsee). intros Hsz off ks k Hin Hk.
  destruct (Hsee _ _ (Hnew off ks k Hin Hk)) as (l & Hl & Hkl). eapply reader_covers; [done|done| |done|done].
  rewrite Z2Nat.id; [done|]. apply Z.div_pos; [|done]. rewrite Forall_forall in Hpos. apply Hpos. apply list_elem_of_fmap. by exists (off, ks).
Qed.

(** ** Properties *)

(** C16: No false negatives, for any filter policy that keeps its contract: after
    the calls for blocks at non-decreasing offsets, a reader of the finished filter
    block says that a key may match at the offset of every block the key was added
    for, also when several blocks share a filter or a block skips some. *)
Theorem FilterBlock_no_false_negatives (p : FilterPolicy) (Hp : FilterPolicyLaws p) (blocks : list (Z * list bytes)) :
  StronglySorted Z.le (fst <$> blocks) -> Forall (fun off => 0 <= off) (fst <$> blocks) ->
  Zlength (all_keys blocks) < 2 ^ 31 -> Zlength (concat (all_keys blocks)) < 2 ^ 64 ->
  exists b, build p FilterBlockBuilder.new blocks = Some b /\
    let contents := (FilterBlockBuilder.Finish p b).1 in
    Zlength contents < 2 ^ 32 ->
    forall off ks k, (off, ks) ∈ blocks -> k ∈ ks ->
      FilterBlockReader.KeyMayMatch p (FilterBlockReader.new contents) off k = Some true.
Proof. apply filter_block_matches, Hp. Qed.

Lemma FilterBlock_no_false_negatives_witness :
  let p := NewBloomFilterPolicy 10 in
  let blocks := [(0, [str "a"; str "b"]); (1000, [str "c"]); (9000, [str "d"])] in
  exists b, build p FilterBlockBuilder.new blocks = Some b /\
    FilterBlockReader.KeyMayMatch p (FilterBlockReader.new (FilterBlockBuilder.Finish p b).1) 1000 (str "c") = Some true.
Proof.
  intros p blocks. destruct (FilterBlock_no_false_negatives p (Bloom_laws 10 ltac:(lia)) blocks) as (b & E & H).
  - repeat constructor; cbn; lia.
  - repeat constructor; cbn; lia.
  - vm_compute. congruence.
  - vm_compute. congruence.
  - exists b. split; [exact E|]. apply (H) with (ks := [str "c"]).
    + assert (b = default FilterBlockBuilder.new (build p FilterBlockBuilder.new blocks)) as -> by (rewrite E; reflexivity). vm_compute. reflexivity.
    + apply (bool_decide_unpack _). vm_compute. exact I.
    + apply (bool_decide_unpack _). vm_compute. exact I.
Defined.

(** The reader never reads outside the contents, whatever they are: unless the
    last byte asks for a shift by 64 or more, [KeyMayMatch] answers, and a block
    offset that is past the last filter may always match. *)
Theorem FilterBlockReader_in_bounds (p : FilterPolicy) (contents : bytes) (block_offset : Z) (key : bytes) :
  let r := FilterBlockReader.new contents in
  FilterBlockReader.base_lg_ r < 64 -> 0 <= block_offset ->
  is_Some (FilterBlockReader.KeyMayMatch p r block_offset key) /\
  (FilterBlockReader.num_ r <= Z.shiftr block_offset (FilterBlockReader.base_lg_ r) -> FilterBlockReader.KeyMayMatch p r block_offset key = Some true).
Proof.
  intros r Hlg Hoff. unfold FilterBlockReader.KeyMayMatch. destruct (Z.geb_spec (FilterBlockReader.base_lg_ r) 64); [lia|].
  set (index := Z.shiftr block_offset (FilterBlockReader.base_lg_ r)). destruct (Z.ltb_spec index (FilterBlockReader.num_ r)) as [Hi|]; [|eauto].
  split; [|lia]. assert (0 <= index) by (by apply Z.shiftr_nonneg).
  assert (FilterBlockReader.offset_ r + FilterBlockReader.num_ r * 4 + 5 <= Zlength (FilterBlockReader.data_ r)) as Hb.
  { subst r. unfold FilterBlockReader.new in *. destruct (Z.ltb_spec (Zlength contents) 5); [cbn in Hi; lia|]. rewrite Z.gtb_ltb in *.
    set (w := DecodeFixed32 _) in *. destruct (Z.ltb_spec (Zlength contents - 5) w); [cbn in Hi; lia|]. cbn.
    pose proof (Z.mul_div_le (Zlength contents - 5 - w) 4). lia. }
  unfold FilterBlockReader.word. destruct (Z.leb_spec (FilterBlockReader.offset_ r + index * 4 + 4) (Zlength (FilterBlockReader.data_ r))); [|lia].
  destruct (Z.leb_spec (FilterBlockReader.offset_ r + (index * 4 + 4) + 4) (Zlength (FilterBlockReader.data_ r))); [|lia]. bind_simpl.
  destruct (_ && _); [eauto|]. destruct (_ =? _); eauto.
Qed.

Lemma FilterBlockReader_in_bounds_witness :
  is_Some (FilterBlockReader.KeyMayMatch (NewBloomFilterPolicy 10) (FilterBlockReader.new (str "garbage in the block" ++ [Byte.x0c; Byte.x00; Byte.x00; Byte.x00; Byte.x01])) 3 (str "k")).
Proof.
  apply (FilterBlockReader_in_bounds (NewBloomFilterPolicy 10) (str "garbage in the block" ++ [Byte.x0c; Byte.x00; Byte.x00; Byte.x00; Byte.x01]) 3 (str "k")).
  - vm_compute. reflexivity.
  - lia.
Defined.
