(* ===== verification/TableBuilder.v ===== *)
(** leveldb/table_builder.h and table/table_builder.cpp.

    An operation returns [None] when an assertion fails (or a null filter policy
    is dereferenced); errors of the file are in the builder's status.  [addr] gives
    the addresses of a block's bytes and of its trailer, by the offset the block is
    written at: the code's checksum depends on them. *)

From Stdlib Require Import ZArith Lia List Bool String Sorting.Sorted.
From S2P Require Import Prelude Lists Coding Slice Comparator Crc32c Bloom LogFile Options Block BlockSpec BlockRun Format FilterBlock.

Record Rep (F : Type) := MkRep {
  options : Options;
  index_block_options : Options;
  file : F;
  offset : Z;
  rep_status : Status;
  data_block : BlockBuilder.t;
  index_block : BlockBuilder.t;
  last_key : bytes;
  num_entries : Z;
  closed : bool;
  filter_block : option (FilterPolicy * FilterBlockBuilder.t);
  pending_index_entry : bool;
  pending_handle : BlockHandle.t
}.
Arguments MkRep {F}.
Arguments options {F}.
Arguments index_block_options {F}.
Arguments file {F}.
Arguments offset {F}.
Arguments rep_status {F}.
Arguments data_block {F}.
Arguments index_block {F}.
Arguments last_key {F}.
Arguments num_entries {F}.
Arguments closed {F}.
Arguments filter_block {F}.
Arguments pending_index_entry {F}.
Arguments pending_handle {F}.

Module TableBuilder.
Section Builder.
Context {F : Type} `{!FileOps F} `{C : Checksum} (addr : Z -> Z * Z).
Implicit Types r : Rep F.

(** Assignments to members of the [Rep]. *)
Definition set_io r (f : F) (off : Z) (s : Status) : Rep F :=
  MkRep (options r) (index_block_options r) f off s (data_block r) (index_block r) (last_key r) (num_entries r) (closed r)
    (filter_block r) (pending_index_entry r) (pending_handle r).

Definition set_data_block r (b : BlockBuilder.t) : Rep F :=
  MkRep (options r) (index_block_options r) (file r) (offset r) (rep_status r) b (index_block r) (last_key r) (num_entries r) (closed r)
    (filter_block r) (pending_index_entry r) (pending_handle r).

Definition set_index r (b : BlockBuilder.t) (key : bytes) : Rep F :=
  MkRep (options r) (index_block_options r) (file r) (offset r) (rep_status r) (data_block r) b key (num_entries r) (closed r)
    (filter_block r) (pending_index_entry r) (pending_handle r).

Definition set_entries r (key : bytes) (n : Z) : Rep F :=
  MkRep (options r) (index_block_options r) (file r) (offset r) (rep_status r) (data_block r) (index_block r) key n (closed r)
    (filter_block r) (pending_index_entry r) (pending_handle r).

Definition set_closed r : Rep F :=
  MkRep (options r) (index_block_options r) (file r) (offset r) (rep_status r) (data_block r) (index_block r) (last_key r) (num_entries r) true
    (filter_block r) (pending_index_entry r) (pending_handle r).

Definition set_filter r (fb : option (FilterPolicy * FilterBlockBuilder.t)) : Rep F :=
  MkRep (options r) (index_block_options r) (file r) (offset r) (rep_status r) (data_block r) (index_block r) (last_key r) (num_entries r) (closed r)
    fb (pending_index_entry r) (pending_handle r).

Definition set_pending r (b : bool) (h : BlockHandle.t) : Rep F :=
  MkRep (options r) (index_block_options r) (file r) (offset r) (rep_status r) (data_block r) (index_block r) (last_key r) (num_entries r) (closed r)
    (filter_block r) b h.

(** [if (filter_block != NULL) filter_block->StartBlock(offset);] *)
Definition start_filter r : option (Rep F) :=
  match filter_block r with
  | None => Some r
  | Some (p, fb) => fb ← FilterBlockBuilder.StartBlock p fb (offset r); Some (set_filter r (Some (p, fb)))
  end.

(** [Rep::Rep] and the constructor.  The index block is built while its options
    are still the table's. *)
Definition new (opt : Options) (f : F) : option (Rep F) :=
  data ← BlockBuilder.new opt;
  index ← BlockBuilder.new opt;
  start_filter (MkRep opt (with_restart_interval opt 1) f 0 Status_OK data index [] 0 false
    ((fun p => (p, FilterBlockBuilder.new)) <$> filter_policy opt) false BlockHandle.new).

(** [same_comparator] is the comparison of the two comparator pointers. *)
Definition ChangeOptions r (same_comparator : bool) (opt : Options) : Status * Rep F :=
  if negb same_comparator then (Status_InvalidArgument (str "changing comparator while building table") [], r)
  else
    (Status_OK, MkRep opt (with_restart_interval opt 1) (file r) (offset r) (rep_status r) (data_block r) (index_block r) (last_key r)
      (num_entries r) (closed r) (filter_block r) (pending_index_entry r) (pending_handle r)).

Definition WriteRawBlock r (block_contents : bytes) (type : CompressionType) : Rep F * BlockHandle.t :=
  let handle := BlockHandle.Mk (offset r) (Zlength block_contents) in
  let '(s, f) := Append (file r) block_contents in
  if ok s then
    let type_byte := [Zb (CompressionType_to_Z type)] in
    let crc := cs_Value (addr (offset r)).1 block_contents in
    let crc := cs_Extend (addr (offset r)).2 crc type_byte in
    let trailer := type_byte ++ EncodeFixed32 (Mask crc) in
    let '(s, f) := Append f trailer in
    (set_io r f (if ok s then u64 (offset r + Zlength block_contents + kBlockTrailerSize) else offset r) s, handle)
  else (set_io r f (offset r) s, handle).

(** Also the block as [Reset] leaves it. *)
Definition WriteBlock r (block : BlockBuilder.t) : option (Rep F * BlockBuilder.t * BlockHandle.t) :=
  if negb (ok (rep_status r)) then None
  else
    let '(raw, block) := BlockBuilder.Finish block in
    let '(block_contents, type) :=
      match compression (options r) with
      | kNoCompression => (raw, kNoCompression)
      | _ => (raw, kNoCompression)
      end in
    let '(r, handle) := WriteRawBlock r block_contents type in
    Some (r, BlockBuilder.Reset block, handle).

Definition Flush r : option (Rep F) :=
  if closed r then None
  else if negb (ok (rep_status r)) then Some r
  else if BlockBuilder.empty (data_block r) then Some r
  else if pending_index_entry r then None
  else
    '(r, block, handle) ← WriteBlock r (data_block r);
    let r := set_pending (set_data_block r block) (pending_index_entry r) handle in
    let r :=
      if ok (rep_status r) then
        let r := set_pending r true handle in
        let '(s, f) := LogFile.Flush (file r) in
        set_io r f (offset r) s
      else r in
    start_filter r.

(** The entry for the pending block goes to the index under [key]. *)
Definition add_index_entry r (key : bytes) : option (Rep F) :=
  handle_encoding ← BlockHandle.EncodeTo (pending_handle r) [];
  b ← BlockBuilder.Add (index_block_options r) (index_block r) key handle_encoding;
  Some (set_index r b key).

Definition Add r (key value : bytes) : option (Rep F) :=
  if closed r then None
  else if negb (ok (rep_status r)) then Some r
  else if (num_entries r >? 0) && negb (Compare (comparator (options r)) key (last_key r) >? 0) then None
  else
    r ← (if pending_index_entry r then
           if BlockBuilder.empty (data_block r) then
             add_index_entry r (FindShortestSeparator (comparator (options r)) (last_key r) key)
           else None
         else Some r);
    let r := match filter_block r with Some (p, fb) => set_filter r (Some (p, FilterBlockBuilder.AddKey fb key)) | None => r end in
    let r := set_entries r key (num_entries r + 1) in
    b ← BlockBuilder.Add (options r) (data_block r) key value;
    let r := set_data_block r b in
    let estimated_block_size := BlockBuilder.CurrentSizeEstimate b in
    if estimated_block_size >=? block_size (options r) then Flush r else Some r.

(** The steps of [Finish] after the flush; each is skipped when [ok()] no longer
    holds, and its handle is then the initial one. *)
Definition write_filter r : Rep F * BlockHandle.t :=
  match filter_block r with
  | Some (p, fb) =>
      if ok (rep_status r) then
        let '(contents, fb) := FilterBlockBuilder.Finish p fb in
        WriteRawBlock (set_filter r (Some (p, fb))) contents kNoCompression
      else (r, BlockHandle.new)
  | None => (r, BlockHandle.new)
  end.

Definition write_metaindex r (filter_block_handle : BlockHandle.t) : option (Rep F * BlockHandle.t) :=
  if ok (rep_status r) then
    meta_index_block ← BlockBuilder.new (options r);
    meta_index_block ←
      match filter_block r with
      | Some _ =>
          p ← filter_policy (options r);
          let key := str "filter." ++ fp_Name p in
          handle_encoding ← BlockHandle.EncodeTo filter_block_handle [];
          BlockBuilder.Add (options r) meta_index_block key handle_encoding
      | None => Some meta_index_block
      end;
    '(r, _, handle) ← WriteBlock r meta_index_block;
    Some (r, handle)
  else Some (r, BlockHandle.new).

Definition write_index r : option (Rep F * BlockHandle.t) :=
  if ok (rep_status r) then
    r ← (if pending_index_entry r then
           r ← add_index_entry r (FindShortSuccessor (comparator (options r)) (last_key r));
           Some (set_pending r false (pending_handle r))
         else Some r);
    '(r, block, handle) ← WriteBlock r (index_block r);
    Some (set_index r block (last_key r), handle)
  else Some (r, BlockHandle.new).

Definition write_footer r (metaindex_block_handle index_block_handle : BlockHandle.t) : option (Rep F) :=
  if ok (rep_status r) then
    footer_encoding ← Footer.EncodeTo (Footer.Mk metaindex_block_handle index_block_handle) [];
    let '(s, f) := Append (file r) footer_encoding in
    Some (set_io r f (if ok s then u64 (offset r + Zlength footer_encoding) else offset r) s)
  else Some r.

Definition Finish r : option (Status * Rep F) :=
  r ← Flush r;
  if closed r then None
  else
    let r := set_closed r in
    let '(r, filter_block_handle) := write_filter r in
    '(r, metaindex_block_handle) ← write_metaindex r filter_block_handle;
    '(r, index_block_handle) ← write_index r;
    r ← write_footer r metaindex_block_handle index_block_handle;
    Some (rep_status r, r).

Definition Abandon r : option (Rep F) := if closed r then None else Some (set_closed r).

Definition NumEntries r : Z := u64 (num_entries r).

Definition FileSize r : Z := offset r.

Fixpoint Adds r (es : list (bytes * bytes)) : option (Rep F) :=
  match es with
  | [] => Some r
  | (k, v) :: es => r ← Add r k v; Adds r es
  end.

End Builder.
End TableBuilder.

(** ** Block builders *)

(** What [CurrentSizeEstimate] computes, without the wrap-around. *)
Definition block_estimate (b : BlockBuilder.t) : Z := Zlength (BlockBuilder.buffer_ b) + Zlength (BlockBuilder.restarts_ b) * 4 + 4.

Lemma BlockBuilder_Add_grows o b k v b' : BlockBuilder.Add o b k v = Some b' ->
  block_estimate b + 3 <= block_estimate b' /\ Zlength (BlockBuilder.buffer_ b) + 3 <= Zlength (BlockBuilder.buffer_ b').
Proof.
  unfold BlockBuilder.Add, block_estimate. destruct (BlockBuilder.finished_ b); [done|]. destruct (_ >? _); [done|]. destruct (_ && _); [done|].
  set (p := if _ <? _ then _ else _). assert (Zlength (BlockBuilder.restarts_ b) <= Zlength p.1.2) as Hp.
  { subst p. destruct (_ <? _); cbn; [lia|]. rewrite Zlength_app. pose proof (Zlength_nonneg [u32 (Zlength (BlockBuilder.buffer_ b))]). lia. }
  destruct p as [[sh rs] cnt]. cbn [fst snd] in Hp. destruct (Slice.eqb _ _); [|done]. intros [= <-]. cbn [BlockBuilder.buffer_ BlockBuilder.restarts_].
  unfold PutVarint32. rewrite !Zlength_app. set (x := u64 (Zlength k - sh)). set (y := take _ _).
  pose proof (EncodeVarint32_length (u32 sh)). pose proof (EncodeVarint32_length (u32 x)). pose proof (EncodeVarint32_length (u32 (Zlength v))).
  pose proof (Zlength_nonneg y). pose proof (Zlength_nonneg v). unfold Zlength in *. lia.
Qed.

Lemma BlockBuilder_Add_nonempty o b k v b' : BlockBuilder.Add o b k v = Some b' -> BlockBuilder.empty b' = false.
Proof.
  intros [_ H]%BlockBuilder_Add_grows. unfold BlockBuilder.empty, Slice.empty, Slice.size. apply Z.eqb_neq.
  pose proof (Zlength_nonneg (BlockBuilder.buffer_ b)). lia.
Qed.

Lemma adds_grows o es : forall b b', adds o b es = Some b' -> block_estimate b <= block_estimate b'.
Proof.
  induction es as [|[k v] es IH]; intros b b' H; cbn [adds] in H; [injection H as <-; lia|].
  destruct (BlockBuilder.Add o b k v) as [b1|] eqn:E; [|done]. cbn [mbind option_bind] in H.
  apply BlockBuilder_Add_grows in E as [? _]. apply IH in H. lia.
Qed.

Lemma adds_snoc o b es k v : adds o b (es ++ [(k, v)]) = b ← adds o b es; BlockBuilder.Add o b k v.
Proof.
  revert b. induction es as [|[k' v'] es IH]; intros b; cbn [adds app].
  - bind_simpl. by destruct (BlockBuilder.Add o b k v).
  - destruct (BlockBuilder.Add o b k' v'); [|done]. bind_simpl. apply IH.
Qed.

Lemma Finish_estimate b : Zlength (BlockBuilder.Finish b).1 = block_estimate b.
Proof.
  unfold BlockBuilder.Finish, block_estimate. cbn [fst]. rewrite foldl_PutFixed32. unfold PutFixed32. rewrite !Zlength_app.
  assert (EncodeFixed32 <$> BlockBuilder.restarts_ b = EncodeFixed32 ∘ id <$> BlockBuilder.restarts_ b) as -> by (by apply list_fmap_ext).
  unfold Zlength at 2 3. rewrite words_length, EncodeFixed32_length. unfold Zlength. lia.
Qed.

(** ** The format of a table of one data block *)

Definition block_bytes (o : Options) (es : list (bytes * bytes)) : bytes :=
  (BlockBuilder.Finish (default BlockBuilder.fresh (adds o BlockBuilder.fresh es))).1.

Definition handle_bytes (h : BlockHandle.t) : bytes := EncodeVarint64 (BlockHandle.offset_ h) ++ EncodeVarint64 (BlockHandle.size_ h).

Definition filter_key (p : FilterPolicy) : bytes := str "filter." ++ fp_Name p.

(** The filter block of a table whose only data block ends at [limit]. *)
Definition filter_bytes (p : FilterPolicy) (keys : list bytes) (limit : Z) : bytes :=
  (FilterBlockBuilder.Finish p (default FilterBlockBuilder.new (build p FilterBlockBuilder.new [(0, keys); (limit, [])]))).1.

Section Layout.
Context `{C : Checksum} (addr : Z -> Z * Z).

(** [d] with a block and its trailer appended. *)
Definition put_block (d block : bytes) : bytes := d ++ raw_block (addr (Zlength d)).1 (addr (Zlength d)).2 block kNoCompression.

Definition handle_at (d block : bytes) : BlockHandle.t := BlockHandle.Mk (Zlength d) (Zlength block).

(** The parts of a table: its prefixes up to the end of each block, and the
    contents of the blocks. *)
Record parts := MkParts { data_contents : bytes; filter_contents : option bytes; meta_contents : bytes; index_contents : bytes }.

Definition table_parts (o : Options) (es : list (bytes * bytes)) : parts :=
  let data := block_bytes o es in
  let d1 := put_block [] data in
  let filt := (fun p => filter_bytes p (es.*1) (Zlength d1)) <$> filter_policy o in
  let metas :=
    match filter_policy o with
    | Some p => [(filter_key p, handle_bytes (handle_at d1 (filter_bytes p (es.*1) (Zlength d1))))]
    | None => []
    end in
  let index_key := FindShortSuccessor (comparator o) (default [] (last es.*1)) in
  MkParts data filt (block_bytes o metas) (block_bytes (with_restart_interval o 1) [(index_key, handle_bytes (handle_at [] data))]).

Definition after_data (t : parts) : bytes := put_block [] (data_contents t).
Definition after_filter (t : parts) : bytes :=
  match filter_contents t with Some c => put_block (after_data t) c | None => after_data t end.
Definition after_meta (t : parts) : bytes := put_block (after_filter t) (meta_contents t).
Definition after_index (t : parts) : bytes := put_block (after_meta t) (index_contents t).

Definition parts_footer (t : parts) : Footer.t :=
  Footer.Mk (handle_at (after_filter t) (meta_contents t)) (handle_at (after_meta t) (index_contents t)).

Definition table_bytes (o : Options) (es : list (bytes * bytes)) : bytes :=
  let t := table_parts o es in after_index t ++ footer_bytes (parts_footer t).

End Layout.

(** ** Files *)

(** A file that keeps what was appended as long as it reports success; [quiet]
    when it will. *)
Class FileSound {F : Type} `{!FileOps F} (holds : F -> bytes -> Prop) (quiet : F -> Prop) : Prop := {
  append_sound : forall f d x, holds f d -> ok (Append f x).1 = true -> holds (Append f x).2 (d ++ x);
  flush_sound : forall f d, holds f d -> ok (Flush f).1 = true -> holds (Flush f).2 d;
  append_quiet : forall f x, quiet f -> ok (Append f x).1 = true /\ quiet (Append f x).2;
  flush_quiet : forall f, quiet f -> ok (Flush f).1 = true /\ quiet (Flush f).2
}.

(** Scripted failures report an error. *)
Definition honest (f : WritableFile) : Prop := Forall (fun o => match o with Fails s _ => ok s = false | Succeeds => True end) (wf_script f).

#[global] Instance WritableFile_sound : FileSound (fun f d => wf_data f = d /\ honest f) (fun f => wf_script f = []).
Proof.
  split; intros [d0 script]; cbn; unfold honest, WritableFile_Append, WritableFile_Flush; cbn.
  - intros d x [-> Hs]. destruct Hs as [|[|s n] script Hh Hs]; cbn; [done|done|congruence].
  - intros d [-> Hs]. destruct Hs as [|[|s n] script Hh Hs]; cbn; [done|done|congruence].
  - by intros x ->.
  - by intros ->.
Qed.

(** ** Steps of the builder *)

Section Steps.
Context {F : Type} `{!FileOps F} (holds : F -> bytes -> Prop) (quiet : F -> Prop) `{!FileSound holds quiet}.
Context `{C : Checksum} (addr : Z -> Z * Z) (q : Prop).
Implicit Types r : Rep F.
Import TableBuilder.

(** As long as the status is OK, the file holds [d]; and it is OK when nothing
    fails. *)
Definition wrote r (d : bytes) : Prop :=
  (ok (rep_status r) = true -> holds (file r) d /\ offset r = Zlength d) /\ (q -> ok (rep_status r) = true /\ quiet (file r)).

Lemma wrote_skip r d d' : ok (rep_status r) = false -> wrote r d -> wrote r d'.
Proof. intros Hs [_ H2]. split; [congruence|]. intros Hq. destruct (H2 Hq). congruence. Qed.

Lemma wrote_same r r' d : file r' = file r -> offset r' = offset r -> rep_status r' = rep_status r -> wrote r d -> wrote r' d.
Proof. intros E1 E2 E3 H. unfold wrote. by rewrite E1, E2, E3. Qed.

(** [r'] differs from [r] in the file, the offset and the status. *)
Definition io_only r r' : Prop := r' = set_io r (file r') (offset r') (rep_status r').

Lemma WriteRawBlock_ok r c d : wrote r d -> ok (rep_status r) = true -> Zlength d + Zlength c + 5 < 2 ^ 64 ->
  exists r', WriteRawBlock addr r c kNoCompression = (r', handle_at d c) /\ io_only r r' /\ 0 <= offset r' /\ wrote r' (put_block addr d c).
Proof.
  intros [H1 H2] Hs Hb. destruct (H1 Hs) as [Hf Ho]. pose proof (Zlength_nonneg d). pose proof (Zlength_nonneg c). unfold WriteRawBlock, put_block.
  pose proof (append_sound (file r) d c Hf) as Ha. pose proof (fun Hq => append_quiet (file r) c (proj2 (H2 Hq))) as Hq.
  destruct (Append (file r) c) as [s1 f1]. cbn [fst snd] in *. rewrite Ho. change (BlockHandle.Mk (Zlength d) (Zlength c)) with (handle_at d c).
  destruct (ok s1) eqn:E1.
  - specialize (Ha eq_refl). set (tr := _ ++ EncodeFixed32 _). pose proof (append_sound f1 _ tr Ha) as Ha2.
    pose proof (fun H => append_quiet f1 tr (proj2 (Hq H))) as Hq2. destruct (Append f1 tr) as [s2 f2]. cbn [fst snd] in *.
    eexists. split; [reflexivity|]. split; [done|]. cbn [offset set_io]. split; [destruct (ok s2); [apply u64_range|lia]|].
    split; cbn [rep_status file offset set_io]; [|done]. intros E2. rewrite E2.
    assert (d ++ raw_block (addr (Zlength d)).1 (addr (Zlength d)).2 c kNoCompression = (d ++ c) ++ tr) as -> by (by rewrite <- app_assoc).
    split; [by apply Ha2|]. unfold kBlockTrailerSize. rewrite u64_small by (unfold is_u64; lia). rewrite !Zlength_app.
    assert (Zlength tr = 5) as -> by (subst tr; unfold Zlength; by rewrite length_app, EncodeFixed32_length). lia.
  - eexists. split; [reflexivity|]. split; [done|]. cbn [offset set_io]. split; [lia|]. split; cbn [rep_status file offset set_io]; [congruence|].
    intros Hq0. destruct (Hq Hq0). congruence.
Qed.

Lemma WriteBlock_ok r b d c : wrote r d -> ok (rep_status r) = true -> (BlockBuilder.Finish b).1 = c -> Zlength d + Zlength c + 5 < 2 ^ 64 ->
  exists r', WriteBlock addr r b = Some (r', BlockBuilder.fresh, handle_at d c) /\ io_only r r' /\ 0 <= offset r' /\ wrote r' (put_block addr d c).
Proof.
  intros Hw Hs <- Hb. unfold WriteBlock. rewrite Hs. cbn [negb]. destruct (BlockBuilder.Finish b) as [raw b'] eqn:Ef. cbn [fst] in *.
  destruct (WriteRawBlock_ok r raw d Hw Hs Hb) as (r' & E & Hio & Hoff & Hw'). exists r'. destruct (compression (options r)); rewrite E; done.
Qed.

(** The data block is flushed. *)
Record flushed (o : Options) (es : list (bytes * bytes)) (key : bytes) r : Prop := {
  fl_options : options r = o;
  fl_index_options : index_block_options r = with_restart_interval o 1;
  fl_data : ok (rep_status r) = true -> data_block r = BlockBuilder.fresh;
  fl_index : index_block r = BlockBuilder.fresh;
  fl_last : last_key r = key;
  fl_num : num_entries r = Zlength es;
  fl_open : closed r = false;
  fl_wrote : wrote r (put_block addr [] (block_bytes o es));
  fl_pending : ok (rep_status r) = true -> pending_index_entry r = true /\ pending_handle r = handle_at [] (block_bytes o es);
  fl_filter : ok (rep_status r) = true -> filter_block r =
    (fun p => (p, default FilterBlockBuilder.new (build p FilterBlockBuilder.new [(0, es.*1); (Zlength (put_block addr [] (block_bytes o es)), [])]))) <$> filter_policy o
}.

(** The builder with entries in its first block and nothing written. *)
Definition mid (o : Options) (f : F) (b : BlockBuilder.t) (key : bytes) (n : Z) (fb : option (FilterPolicy * FilterBlockBuilder.t)) : Rep F :=
  MkRep o (with_restart_interval o 1) f 0 Status_OK b BlockBuilder.fresh key n false fb false BlockHandle.new.

Lemma Flush_again r r' : Flush addr r = Some r' -> BlockBuilder.empty (data_block r) = false -> ok (rep_status r) = true ->
  closed r' = false /\ (BlockBuilder.empty (data_block r') = true) /\ Flush addr r' = Some r'.
Proof.
  unfold Flush at 1. intros H He Hs. destruct (closed r) eqn:Hc; [done|]. rewrite Hs, He in H. cbn [negb] in H.
  destruct (pending_index_entry r); [done|]. unfold WriteBlock in H. rewrite Hs in H. cbn [negb] in H.
  destruct (BlockBuilder.Finish (data_block r)) as [raw b']. set (p := match compression (options r) with kNoCompression => _ | _ => _ end) in H.
  destruct p as [c t]. destruct (WriteRawBlock addr r c t) as [r1 h] eqn:E. cbn [mbind option_bind] in H.
  assert (closed r1 = false) as Hc1.
  { unfold WriteRawBlock in E. destruct (Append (file r) c) as [s1 f1]. destruct (ok s1); [destruct (Append f1 _) as [s2 f2]|]; injection E as <- _; done. }
  set (r2 := if ok _ then _ else _) in H. assert (closed r2 = false /\ data_block r2 = BlockBuilder.Reset b') as [Hc2 Hd2].
  { subst r2. destruct (ok _); [|done]. destruct (LogFile.Flush _); done. }
  clearbody r2. assert (closed r' = false /\ data_block r' = BlockBuilder.Reset b') as [Hc3 Hd3].
  { unfold start_filter in H. destruct (filter_block r2) as [[p fb]|]; [|by injection H as <-].
    destruct (FilterBlockBuilder.StartBlock p fb (offset r2)); [|done]. cbn [mbind option_bind] in H. by injection H as <-. }
  split; [done|]. rewrite Hd3. split; [done|]. unfold Flush. rewrite Hc3, Hd3. destruct (ok (rep_status r')); done.
Qed.

Lemma Flush_pending r r' : Flush addr r = Some r' -> BlockBuilder.empty (data_block r) = false -> ok (rep_status r) = true -> ok (rep_status r') = true ->
  pending_index_entry r' = true.
Proof.
  unfold Flush. intros H He Hs Hs'. destruct (closed r); [done|]. rewrite Hs, He in H. cbn [negb] in H. destruct (pending_index_entry r); [done|].
  destruct (WriteBlock addr r (data_block r)) as [[[r1 b] h]|]; [|done]. cbn [mbind option_bind] in H.
  set (r2 := if ok _ then _ else _) in H. assert (ok (rep_status r2) = true -> pending_index_entry r2 = true) as H2.
  { subst r2. destruct (ok (rep_status (set_pending (set_data_block r1 b) (pending_index_entry r1) h))) eqn:E; [|congruence]. by destruct (LogFile.Flush _). }
  clearbody r2. unfold start_filter in H. destruct (filter_block r2) as [[p fb]|]; [|injection H as <-; auto].
  destruct (FilterBlockBuilder.StartBlock p fb (offset r2)); [|done]. cbn [mbind option_bind] in H. injection H as <-. cbn in *. auto.
Qed.

(** *** Entries of the first block *)

Definition mid_filter (o : Options) (keys : list bytes) : option (FilterPolicy * FilterBlockBuilder.t) :=
  (fun p => (p, foldl FilterBlockBuilder.AddKey FilterBlockBuilder.new keys)) <$> filter_policy o.

Lemma new_mid o f : 1 <= block_restart_interval o -> TableBuilder.new o f = Some (mid o f BlockBuilder.fresh [] 0 (mid_filter o [])).
Proof.
  intros Ho. unfold TableBuilder.new, BlockBuilder.new. destruct (Z.geb_spec (block_restart_interval o) 1); [|lia]. bind_simpl.
  unfold start_filter, mid_filter. cbn [filter_block]. by destruct (filter_policy o).
Qed.

Lemma Add_mid o f b key n keys k v b' : (0 < n -> 0 < Compare (comparator o) k key) -> BlockBuilder.Add o b k v = Some b' ->
  0 <= block_estimate b' < 2 ^ 64 ->
  Add addr (mid o f b key n (mid_filter o keys)) k v =
    let r := mid o f b' k (n + 1) (mid_filter o (keys ++ [k])) in
    if block_estimate b' >=? block_size o then Flush addr r else Some r.
Proof.
  intros Hk Hb He. unfold Add, mid. cbn [closed rep_status options num_entries last_key pending_index_entry]. change (ok Status_OK) with true. cbn [negb].
  assert ((n >? 0) && negb (Compare (comparator o) k key >? 0) = false) as ->.
  { rewrite !Z.gtb_ltb. destruct (Z.ltb_spec 0 n); [|done]. destruct (Z.ltb_spec 0 (Compare (comparator o) k key)); [done|lia]. }
  bind_simpl. unfold mid_filter. cbn [filter_block]. rewrite foldl_snoc. unfold BlockBuilder.CurrentSizeEstimate.
  destruct (filter_policy o) as [p|]; cbn [fmap option_fmap option_map set_filter set_entries set_data_block options data_block]; rewrite Hb; bind_simpl;
    fold (block_estimate b'); rewrite u64_small by done; done.
Qed.

Lemma Adds_mid o f es : forall b key n keys b', adds o b es = Some b' ->
  StronglySorted (fun x y => 0 < Compare (comparator o) y.1 x.1) es -> (forall e, head es = Some e -> 0 < n -> 0 < Compare (comparator o) e.1 key) -> 0 <= n ->
  0 <= block_estimate b -> block_estimate b' < block_size o -> block_estimate b' < 2 ^ 64 ->
  Adds addr (mid o f b key n (mid_filter o keys)) es = Some (mid o f b' (default key (last es.*1)) (n + Zlength es) (mid_filter o (keys ++ es.*1))).
Proof.
  induction es as [|[k v] es IH]; intros b key n keys b' Ha Hso Hk Hn H0 H1 H2; cbn [adds Adds] in *.
  - injection Ha as <-. cbn. by rewrite Z.add_0_r, app_nil_r.
  - destruct (BlockBuilder.Add o b k v) as [b1|] eqn:E; [|done]. cbn [mbind option_bind] in Ha. inversion_clear Hso as [|? ? Hso' Hlt].
    pose proof (adds_grows o es b1 b' Ha). pose proof (BlockBuilder_Add_grows o b k v b1 E).
    rewrite (Add_mid o f b key n keys k v b1) by first [done|lia|by apply (Hk (k, v))]. cbn zeta.
    destruct (Z.geb_spec (block_estimate b1) (block_size o)); [lia|]. bind_simpl. rewrite (IH b1 k (n + 1) (keys ++ [k]) b' Ha Hso'); [|  |lia..].
    + cbn [fmap list_fmap fst]. rewrite Zlength_cons, <- app_assoc. cbn [app]. f_equal. f_equal; [|lia].
      rewrite last_cons. by destruct (last es.*1).
    + intros e He _. destruct es as [|e' es]; [done|]. injection He as <-. by apply Forall_cons in Hlt as [? _].
Qed.

Lemma build_two p keys lim : build p FilterBlockBuilder.new [(0, keys); (lim, [])] =
  FilterBlockBuilder.StartBlock p (foldl FilterBlockBuilder.AddKey FilterBlockBuilder.new keys) lim.
Proof. cbn [build]. change (FilterBlockBuilder.StartBlock p FilterBlockBuilder.new 0) with (Some FilterBlockBuilder.new). bind_simpl. by destruct (FilterBlockBuilder.StartBlock _ _ lim). Qed.

Lemma AddKeys_offsets keys : forall b, FilterBlockBuilder.filter_offsets_ (foldl FilterBlockBuilder.AddKey b keys) = FilterBlockBuilder.filter_offsets_ b.
Proof. induction keys as [|k keys IH]; intros b; [done|]. cbn. by rewrite IH. Qed.

Lemma Flush_mid o f es b key : adds o BlockBuilder.fresh es = Some b -> BlockBuilder.empty b = false -> block_estimate b + 5 < 2 ^ 64 ->
  holds f [] -> (q -> quiet f) ->
  exists r, Flush addr (mid o f b key (Zlength es) (mid_filter o (es.*1))) = Some r /\ flushed o es key r.
Proof.
  intros Ha He Hsz Hf Hq. unfold Flush. set (m := mid _ _ _ _ _ _). change (closed m) with false. change (rep_status m) with Status_OK. change (data_block m) with b.
  change (ok Status_OK) with true. cbn [negb]. rewrite He. change (pending_index_entry m) with false. cbv iota.
  assert (block_bytes o es = (BlockBuilder.Finish b).1) as Eb by (unfold block_bytes; by rewrite Ha).
  destruct (WriteBlock_ok m b [] (block_bytes o es)) as (r1 & E1 & Hio & Hoff & Hw); [split; [done|]; intros Hq'; split; [done|by apply Hq]|done|done|rewrite Eb, Finish_estimate; change (Zlength []) with 0; lia|].
  rewrite E1. bind_simpl. change (pending_index_entry m) with false. set (d1 := put_block addr [] (block_bytes o es)) in *. set (h := handle_at [] (block_bytes o es)) in *.
  clear E1. unfold io_only in Hio. set (f1 := file r1) in *. set (o1 := offset r1) in *. set (s1 := rep_status r1) in *. clearbody f1 o1 s1. subst r1.
  set (base := fun (f : F) off s pend fb => MkRep o (with_restart_interval o 1) f off s BlockBuilder.fresh BlockBuilder.fresh key (Zlength es) false fb pend h).
  change (set_pending (set_data_block (set_io m f1 o1 s1) BlockBuilder.fresh) (pending_index_entry (set_io m f1 o1 s1)) h) with (base f1 o1 s1 false (mid_filter o es.*1)).
  set (r2 := if ok _ then _ else _). assert (exists f2 s2 pend, r2 = base f2 o1 s2 pend (mid_filter o es.*1) /\ wrote r2 d1 /\ (ok s2 = true -> pend = true)) as (f2 & s2 & pend & -> & Hw2 & Hp).
  { subst r2. change (rep_status (base f1 o1 s1 false (mid_filter o es.*1))) with s1. destruct Hw as [Hw1 Hw2]. cbn [rep_status set_io file offset] in Hw1, Hw2.
    change (set_pending (base f1 o1 s1 false (mid_filter o (es.*1))) true h) with (base f1 o1 s1 true (mid_filter o (es.*1))).
    change (file (base f1 o1 s1 true (mid_filter o es.*1))) with f1. change (offset (base f1 o1 s1 true (mid_filter o es.*1))) with o1.
    destruct (ok s1) eqn:Es.
    - destruct (Hw1 eq_refl) as [Hh Ho]. pose proof (flush_sound f1 d1 Hh) as Hfs. pose proof (fun H => flush_quiet f1 (proj2 (Hw2 H))) as Hfq.
      destruct (LogFile.Flush f1) as [s2 f2]. cbn [fst snd] in *. exists f2, s2, true. split; [done|]. split; [|done].
      split; cbn [rep_status file offset set_io base]; [|done]. intros H2. split; [by apply Hfs|done].
    - exists f1, s1, false. split; [done|]. split; [|by rewrite Es]. split; cbn [rep_status file offset base]; [by rewrite Es|]. intros Hq'. destruct (Hw2 Hq'). congruence. }
  unfold start_filter. change (filter_block (base f2 o1 s2 pend (mid_filter o es.*1))) with (mid_filter o es.*1).
  change (offset (base f2 o1 s2 pend (mid_filter o es.*1))) with o1.
  assert (exists fb, match mid_filter o (es.*1) with None => Some (base f2 o1 s2 pend (mid_filter o (es.*1)))
    | Some (p, fb) => fb ← FilterBlockBuilder.StartBlock p fb o1; Some (set_filter (base f2 o1 s2 pend (mid_filter o (es.*1))) (Some (p, fb))) end = Some (base f2 o1 s2 pend fb) /\
    (o1 = Zlength d1 -> fb = (fun p => (p, default FilterBlockBuilder.new (build p FilterBlockBuilder.new [(0, es.*1); (Zlength d1, [])]))) <$> filter_policy o)) as (fb & -> & Hfb).
  { unfold mid_filter. destruct (filter_policy o) as [p|]; cbn [fmap option_fmap option_map]; [|by exists None].
    destruct (StartBlock_accepts p (foldl FilterBlockBuilder.AddKey FilterBlockBuilder.new es.*1) o1) as [fb Efb].
    { rewrite AddKeys_offsets. by apply Z.div_pos. }
    rewrite Efb. bind_simpl. exists (Some (p, fb)). split; [done|]. intros ->. by rewrite build_two, Efb. }
  eexists. split; [reflexivity|]. split; cbn [base options index_block_options data_block index_block last_key num_entries closed pending_index_entry pending_handle filter_block rep_status]; try done.
  - intros Hok. split; [auto|done].
  - intros Hok. apply Hfb. destruct Hw2 as [Hw2 _]. by apply Hw2.
Qed.

(** *** The steps of [Finish] *)

(** What the steps leave alone. *)
Record frame r r' : Prop := {
  fr_options : options r' = options r;
  fr_index_options : index_block_options r' = index_block_options r;
  fr_index : index_block r' = index_block r;
  fr_last : last_key r' = last_key r;
  fr_num : num_entries r' = num_entries r;
  fr_pending : pending_index_entry r' = pending_index_entry r;
  fr_handle : pending_handle r' = pending_handle r;
  fr_filter : filter_block r' = None <-> filter_block r = None
}.

Lemma frame_refl r : frame r r.
Proof. by split. Qed.

Lemma frame_io r r' : io_only r r' -> frame r r'.
Proof. unfold io_only. intros ->. by split. Qed.

Lemma write_filter_ok r d (B : FilterPolicy -> FilterBlockBuilder.t) (fp : option FilterPolicy) :
  let c := (fun p => (FilterBlockBuilder.Finish p (B p)).1) <$> fp in
  wrote r d -> (ok (rep_status r) = true -> filter_block r = (fun p => (p, B p)) <$> fp) ->
  (forall x, c = Some x -> Zlength d + Zlength x + 5 < 2 ^ 64) ->
  exists r' h, write_filter addr r = (r', h) /\ frame r r' /\ wrote r' (match c with Some x => put_block addr d x | None => d end) /\
    (ok (rep_status r') = true -> ok (rep_status r) = true /\ forall x, c = Some x -> h = handle_at d x).
Proof.
  intros c Hw Hf Hsz. unfold write_filter. destruct (ok (rep_status r)) eqn:Hs.
  - rewrite Hf by done. destruct fp as [p|]; subst c; cbn [fmap option_fmap option_map] in *; [|exists r, BlockHandle.new; split_and!; try done; apply frame_refl].
    destruct (FilterBlockBuilder.Finish p (B p)) as [x fb]. cbn [fst] in *.
    destruct (WriteRawBlock_ok (set_filter r (Some (p, fb))) x d) as (r' & -> & Hio & _ & Hw'); [exact Hw|exact Hs|by apply Hsz|].
    exists r', (handle_at d x). split; [done|]. split; [|split; [done|by intros; split; [done|intros ? [= <-]]]].
    unfold io_only in Hio. rewrite Hio. split; try done. cbn. rewrite Hf; done.
  - exists r, BlockHandle.new. destruct (filter_block r) as [[p fb]|]; (split; [done|]; split; [apply frame_refl|]; split; [by eapply wrote_skip|congruence]).
Qed.

Lemma fresh_add o k v : 1 <= block_restart_interval o -> small_entry (k, v) ->
  exists b, BlockBuilder.Add o BlockBuilder.fresh k v = Some b /\ (BlockBuilder.Finish b).1 = block_bytes o [(k, v)].
Proof.
  intros Ho Hs. destruct (Add_accepts o BlockBuilder.fresh [] [0%nat] k v (fresh_built o Ho) Ho Hs) as [b E]; [by left|].
  exists b. split; [done|]. unfold block_bytes. cbn [adds]. by rewrite E.
Qed.

Lemma handle_bytes_small h : Zlength (handle_bytes h) < 2 ^ 32.
Proof.
  unfold handle_bytes, Zlength. rewrite length_app. pose proof (EncodeVarint64_length (BlockHandle.offset_ h)). pose proof (EncodeVarint64_length (BlockHandle.size_ h)). lia.
Qed.

Definition meta_entries (o : Options) (fh : BlockHandle.t) : list (bytes * bytes) :=
  match filter_policy o with Some p => [(filter_key p, handle_bytes fh)] | None => [] end.

Lemma write_metaindex_ok r d fh o :
  let c := block_bytes o (meta_entries o fh) in
  wrote r d -> options r = o -> 1 <= block_restart_interval o -> Zlength d + Zlength c + 5 < 2 ^ 64 ->
  (ok (rep_status r) = true -> (filter_block r = None <-> filter_policy o = None) /\
     forall p, filter_policy o = Some p -> BlockHandle.valid fh /\ Zlength (filter_key p) < 2 ^ 32) ->
  exists r' h, write_metaindex addr r fh = Some (r', h) /\ frame r r' /\ wrote r' (put_block addr d c) /\
    (ok (rep_status r') = true -> ok (rep_status r) = true /\ h = handle_at d c).
Proof.
  intros c Hw Ho Hri Hsz Hf. unfold write_metaindex. destruct (ok (rep_status r)) eqn:Hs.
  - rewrite Ho. unfold BlockBuilder.new. destruct (Z.geb_spec (block_restart_interval o) 1); [|lia]. bind_simpl. destruct (Hf eq_refl) as [Hfn Hfp].
    set (m := match filter_block r with Some _ => _ | None => _ end). assert (exists b, m = Some b /\ (BlockBuilder.Finish b).1 = c) as (b & -> & Eb).
    { subst m c. unfold meta_entries. destruct (filter_policy o) as [p|] eqn:Ep.
      - destruct (filter_block r); [|by destruct Hfn as [Hfn _]; specialize (Hfn eq_refl)]. bind_simpl. destruct (Hfp p eq_refl) as [Hv Hk].
        rewrite BlockHandle_EncodeTo_valid by done. bind_simpl. cbn [app]. apply fresh_add; [done|]. split; cbn [fst snd]; [done|apply handle_bytes_small].
      - destruct (filter_block r); [by destruct Hfn as [_ Hfn]; specialize (Hfn eq_refl)|]. by exists BlockBuilder.fresh. }
    bind_simpl. destruct (WriteBlock_ok r b d c Hw Hs Eb Hsz) as (r' & -> & Hio & _ & Hw'). bind_simpl. exists r', (handle_at d c).
    split; [done|]. split; [by apply frame_io|]. done.
  - exists r, BlockHandle.new. split; [done|]. split; [apply frame_refl|]. split; [by eapply wrote_skip|congruence].
Qed.

Lemma write_index_ok r d o ph :
  let c := block_bytes (index_block_options r) [(FindShortSuccessor (comparator (options r)) (last_key r), handle_bytes ph)] in
  wrote r d -> 1 <= block_restart_interval (index_block_options r) -> Zlength d + Zlength c + 5 < 2 ^ 64 -> index_block r = BlockBuilder.fresh ->
  (ok (rep_status r) = true -> pending_index_entry r = true /\ pending_handle r = ph /\ BlockHandle.valid ph) -> options r = o ->
  Zlength (FindShortSuccessor (comparator o) (last_key r)) < 2 ^ 32 ->
  exists r' h, write_index addr r = Some (r', h) /\ wrote r' (put_block addr d c) /\ num_entries r' = num_entries r /\
    (ok (rep_status r') = true -> ok (rep_status r) = true /\ h = handle_at d c).
Proof.
  intros c Hw Hri Hsz Hib Hp Ho Hk. unfold write_index. destruct (ok (rep_status r)) eqn:Hs.
  - destruct (Hp eq_refl) as (-> & Eph & Hv). unfold add_index_entry. rewrite Eph, BlockHandle_EncodeTo_valid by done. bind_simpl. cbn [app]. rewrite Hib.
    destruct (fresh_add (index_block_options r) (FindShortSuccessor (comparator (options r)) (last_key r)) (handle_bytes ph) Hri) as (b & Eb & Ec);
      [split; [by rewrite Ho|apply handle_bytes_small]|].
    fold (handle_bytes ph). rewrite Eb. bind_simpl. set (r1 := set_pending _ _ _). change (index_block r1) with b.
    destruct (WriteBlock_ok r1 b d c) as (r' & -> & Hio & _ & Hw'); [exact Hw|exact Hs|exact Ec|exact Hsz|]. bind_simpl. do 2 eexists. split; [done|].
    split; [by eapply wrote_same|]. split; [|done]. unfold io_only in Hio. by rewrite Hio.
  - exists r, BlockHandle.new. split; [done|]. split; [by eapply wrote_skip|]. split; [done|congruence].
Qed.

Lemma write_footer_ok r d mh ih : wrote r d -> Zlength d + 48 < 2 ^ 64 ->
  (ok (rep_status r) = true -> footer_valid (Footer.Mk mh ih)) ->
  exists r', write_footer r mh ih = Some r' /\ wrote r' (d ++ footer_bytes (Footer.Mk mh ih)) /\ num_entries r' = num_entries r /\
    (ok (rep_status r') = true -> ok (rep_status r) = true).
Proof.
  intros [Hw1 Hw2] Hsz Hv. unfold write_footer. destruct (ok (rep_status r)) eqn:Hs.
  - rewrite Footer_EncodeTo_empty by auto. bind_simpl. destruct (Hw1 eq_refl) as [Hh Ho]. set (x := footer_bytes _).
    pose proof (append_sound (file r) d x Hh) as Ha. pose proof (fun H => append_quiet (file r) x (proj2 (Hw2 H))) as Hq.
    destruct (Append (file r) x) as [s f]. cbn [fst snd] in *. eexists. split; [done|]. split; [|done].
    split; cbn [rep_status file offset set_io]; [|done]. intros Hok. rewrite Hok, Ho. split; [by apply Ha|]. rewrite Zlength_app. pose proof (Zlength_nonneg d).
    assert (Zlength x = 48) as -> by (unfold Zlength, x; by rewrite (footer_bytes_length (Footer.Mk mh ih))). apply u64_small. unfold is_u64. lia.
  - exists r. split; [done|]. split; [|split; [done|congruence]]. apply (wrote_skip r d); [done|]. split; by rewrite Hs.
Qed.

Lemma put_block_length d c : Zlength (put_block addr d c) = Zlength d + Zlength c + 5.
Proof. unfold put_block. rewrite Zlength_app, raw_block_length. unfold kBlockTrailerSize. lia. Qed.

Lemma handle_at_valid d c : Zlength d < 2 ^ 64 - 1 -> Zlength c < 2 ^ 64 - 1 -> BlockHandle.valid (handle_at d c).
Proof. intros H1 H2. pose proof (Zlength_nonneg d). pose proof (Zlength_nonneg c). unfold BlockHandle.valid, BlockHandle.unset, handle_at. cbn. lia. Qed.

(** The limits on keys that come from the options. *)
Definition options_small (o : Options) (key : bytes) : Prop :=
  Zlength (FindShortSuccessor (comparator o) key) < 2 ^ 32 /\ forall p, filter_policy o = Some p -> Zlength (filter_key p) < 2 ^ 32.

(** How large the parts of a table are. *)
Record sizes (t : parts) : Prop := {
  sz_filter : forall x, filter_contents t = Some x -> Zlength (after_data addr t) + Zlength x + 5 = Zlength (after_filter addr t);
  sz_data : Zlength (data_contents t) + 5 = Zlength (after_data addr t);
  sz_after : Zlength (after_data addr t) <= Zlength (after_filter addr t);
  sz_meta : 0 <= Zlength (meta_contents t);
  sz_index : 0 <= Zlength (index_contents t);
  sz_total : Zlength (after_filter addr t) + Zlength (meta_contents t) + 5 + Zlength (index_contents t) + 5 + 48 < 2 ^ 32
}.

Lemma table_sizes o es : Zlength (table_bytes addr o es) < 2 ^ 32 -> sizes (table_parts addr o es).
Proof.
  unfold table_bytes. set (t := table_parts addr o es). cbn zeta. rewrite Zlength_app. unfold after_index, after_meta. rewrite !put_block_length.
  assert (Zlength (footer_bytes (parts_footer addr t)) = 48) as -> by (unfold Zlength; by rewrite footer_bytes_length). intros Hsz.
  split; try apply Zlength_nonneg; [|unfold after_data; rewrite put_block_length; done| |lia].
  - intros x Hx. unfold after_filter. rewrite Hx, put_block_length. lia.
  - unfold after_filter. destruct (filter_contents t) as [x|]; [|lia]. rewrite put_block_length. pose proof (Zlength_nonneg x). lia.
Qed.

Lemma meta_contents_ok o es fh : let t := table_parts addr o es in
  (forall x, filter_contents t = Some x -> fh = handle_at (after_data addr t) x) -> block_bytes o (meta_entries o fh) = meta_contents t.
Proof.
  intros t Hh. unfold meta_entries. unfold t, table_parts in *. cbn [filter_contents meta_contents] in *. destruct (filter_policy o) as [p|]; [|done].
  rewrite (Hh _ eq_refl). done.
Qed.

Lemma Finish_flushed r0 r o es key : Flush addr r0 = Some r -> flushed o es key r -> 1 <= block_restart_interval o -> options_small o key ->
  last es.*1 = Some key -> Zlength (table_bytes addr o es) < 2 ^ 32 ->
  exists r', Finish addr r0 = Some (rep_status r', r') /\ wrote r' (table_bytes addr o es) /\ num_entries r' = Zlength es.
Proof.
  intros Hfl [Ho Hio _ Hix Hla Hnum Hcl Hw Hp Hfb] Hri [Hks Hfs] Hlast Hsz. unfold Finish. rewrite Hfl. bind_simpl. rewrite Hcl.
  pose proof (table_sizes o es Hsz) as [Haf Hdd Hd0 Hm0 Hi0 Htot]. set (t := table_parts addr o es) in *.
  pose proof (Zlength_nonneg (data_contents t)). set (B := fun p => default FilterBlockBuilder.new (build p FilterBlockBuilder.new [(0, es.*1); (Zlength (after_data addr t), [])])) in *.
  destruct (write_filter_ok (set_closed r) (after_data addr t) B (filter_policy o)) as (r1 & fh & -> & F1 & W1 & K1).
  { by eapply wrote_same; [..|apply Hw]. }
  { exact Hfb. }
  { intros x Hx. rewrite (Haf x); [lia|]. exact Hx. }
  change ((fun p => (FilterBlockBuilder.Finish p (B p)).1) <$> filter_policy o) with (filter_contents t) in W1, K1.
  change (match filter_contents t with Some x => _ | None => _ end) with (after_filter addr t) in W1.
  set (fh' := if ok (rep_status r1) then fh else default fh (handle_at (after_data addr t) <$> filter_contents t)).
  assert (forall x, filter_contents t = Some x -> fh' = handle_at (after_data addr t) x) as Hfh.
  { intros x Hx. unfold fh'. rewrite Hx. destruct (ok (rep_status r1)); [|done]. by apply K1. }
  assert (write_metaindex addr r1 fh = write_metaindex addr r1 fh') as -> by (unfold write_metaindex, fh'; by destruct (ok (rep_status r1))).
  pose proof (meta_contents_ok o es fh' Hfh) as Emeta. fold t in Emeta.
  destruct (write_metaindex_ok r1 (after_filter addr t) fh' o) as (r2 & mh & -> & F2 & W2 & K2); [done|by rewrite (fr_options _ _ F1)|done|rewrite Emeta; lia| |].
  { intros Hok. destruct (K1 Hok) as [Hok0 Hh]. split.
    - rewrite (fr_filter _ _ F1). cbn [set_closed filter_block]. rewrite Hfb by done. by destruct (filter_policy o).
    - intros p Ep. split; [|by apply Hfs]. assert (is_Some (filter_contents t)) as [x Ec] by (unfold t, table_parts; cbn [filter_contents]; rewrite Ep; eauto).
      rewrite (Hfh _ Ec). pose proof (Haf _ Ec). pose proof (Zlength_nonneg x). apply handle_at_valid; lia. }
  rewrite Emeta in W2, K2. change (put_block addr (after_filter addr t) (meta_contents t)) with (after_meta addr t) in W2. bind_simpl.
  assert (block_bytes (index_block_options r2) [(FindShortSuccessor (comparator (options r2)) (last_key r2), handle_bytes (handle_at [] (data_contents t)))] = index_contents t) as Eix.
  { rewrite (fr_index_options _ _ F2), (fr_index_options _ _ F1), (fr_options _ _ F2), (fr_options _ _ F1), (fr_last _ _ F2), (fr_last _ _ F1). cbn [set_closed index_block_options options last_key].
    rewrite Hio, Ho, Hla. unfold t, table_parts. cbn [index_contents data_contents]. by rewrite Hlast. }
  destruct (write_index_ok r2 (after_meta addr t) o (handle_at [] (data_contents t))) as (r3 & ih & -> & W3 & N3 & K3).
  { done. }
  { rewrite (fr_index_options _ _ F2), (fr_index_options _ _ F1). cbn [set_closed index_block_options]. rewrite Hio. cbn. lia. }
  { rewrite Eix. unfold after_meta. rewrite put_block_length. lia. }
  { rewrite (fr_index _ _ F2), (fr_index _ _ F1). done. }
  { intros Hok. destruct (K2 Hok) as [Hok1 _]. destruct (K1 Hok1) as [Hok0 _]. rewrite (fr_pending _ _ F2), (fr_pending _ _ F1), (fr_handle _ _ F2), (fr_handle _ _ F1).
    cbn [set_closed pending_index_entry pending_handle]. destruct (Hp Hok0) as [-> ->]. split; [done|]. split; [done|]. apply handle_at_valid; [done|lia]. }
  { by rewrite (fr_options _ _ F2), (fr_options _ _ F1). }
  { rewrite (fr_last _ _ F2), (fr_last _ _ F1). cbn [set_closed last_key]. by rewrite Hla. }
  rewrite Eix in W3, K3. bind_simpl.
  set (f' := if ok (rep_status r3) then Footer.Mk mh ih else parts_footer addr t).
  assert (f' = parts_footer addr t) as Ef.
  { unfold f'. destruct (ok (rep_status r3)) eqn:E3; [|done]. destruct (K3 eq_refl) as [Hok2 ->]. destruct (K2 Hok2) as [_ ->]. done. }
  assert (write_footer r3 mh ih = write_footer r3 (Footer.metaindex_handle_ f') (Footer.index_handle_ f')) as -> by (unfold write_footer, f'; by destruct (ok (rep_status r3))).
  rewrite Ef. destruct (write_footer_ok r3 (after_index addr t) (Footer.metaindex_handle_ (parts_footer addr t)) (Footer.index_handle_ (parts_footer addr t)) W3) as (r4 & -> & W4 & N4 & _).
  { unfold after_index, after_meta. rewrite !put_block_length. lia. }
  { intros _. split; apply handle_at_valid; unfold after_meta; rewrite ?put_block_length; lia. }
  bind_simpl. exists r4. split; [done|]. split; [exact W4|]. by rewrite N4, N3, (fr_num _ _ F2), (fr_num _ _ F1).
Qed.

End Steps.

(** ** Properties *)

(** C39: A table cannot get a second data block.  [Add] never resets
    [pending_index_entry]: after a [Flush] that wrote a block one more entry can be
    added, and then every further [Add], [Flush] or [Finish] fails an assertion
    (that the data block is empty, or that no index entry is pending). *)
Theorem TableBuilder_second_block_aborts {F : Type} `{!FileOps F} `{C : Checksum} (addr : Z -> Z * Z) (r0 r r1 : Rep F) (k v : bytes) :
  BlockBuilder.empty (data_block r0) = false -> ok (rep_status r0) = true -> TableBuilder.Flush addr r0 = Some r -> ok (rep_status r) = true ->
  TableBuilder.Add addr r k v = Some r1 ->
  (forall k' v', TableBuilder.Add addr r1 k' v' = None) /\ TableBuilder.Flush addr r1 = None /\ TableBuilder.Finish addr r1 = None.
Proof.
  intros He0 Hs0 Hfl Hs Hadd.
  assert (pending_index_entry r = true /\ closed r = false) as [Hp Hc].
  { destruct (Flush_again addr r0 r Hfl He0 Hs0) as (Hc & _ & _). split; [|done]. by eapply Flush_pending. }
  unfold TableBuilder.Add in Hadd. rewrite Hc, Hs, Hp in Hadd. cbn [negb] in Hadd. destruct (_ && _); [done|].
  destruct (BlockBuilder.empty (data_block r)); [|done]. unfold TableBuilder.add_index_entry in Hadd.
  destruct (BlockHandle.EncodeTo (pending_handle r) []) as [hb|]; [|done]. cbn [mbind option_bind] in Hadd.
  destruct (BlockBuilder.Add _ (index_block r) _ hb) as [ib|]; [|done]. cbn [mbind option_bind] in Hadd. set (r2 := TableBuilder.set_index r ib _) in Hadd.
  set (r3 := match filter_block r2 with Some (p, fb) => _ | None => _ end) in Hadd.
  assert (pending_index_entry r3 = true /\ closed r3 = false /\ ok (rep_status r3) = true) as (Hp3 & Hc3 & Hs3) by (subst r3; by destruct (filter_block r2) as [[p fb]|]).
  clearbody r3. destruct (BlockBuilder.Add _ _ k v) as [b|] eqn:Eb; [|done]. cbn [mbind option_bind] in Hadd. apply BlockBuilder_Add_nonempty in Eb.
  set (r4 := TableBuilder.set_data_block _ b) in Hadd. assert (TableBuilder.Flush addr r4 = None) as Hf4.
  { unfold TableBuilder.Flush. change (closed r4) with (closed r3). change (rep_status r4) with (rep_status r3). change (data_block r4) with b.
    change (pending_index_entry r4) with (pending_index_entry r3). by rewrite Hc3, Hs3, Eb, Hp3. }
  destruct (_ >=? _); [congruence|]. injection Hadd as <-. split; [|split; [done|]].
  - intros k' v'. unfold TableBuilder.Add. change (closed r4) with (closed r3). change (rep_status r4) with (rep_status r3). change (data_block r4) with b.
    change (pending_index_entry r4) with (pending_index_entry r3). rewrite Hc3, Hs3, Eb, Hp3. by destruct (_ && _).
  - unfold TableBuilder.Finish. by rewrite Hf4.
Qed.

Lemma TableBuilder_second_block_aborts_witness :
  let addr := fun _ => (0, 0) in
  exists r0 r r1, TableBuilder.Flush (C := ReferenceChecksum) addr r0 = Some r /\ TableBuilder.Add (C := ReferenceChecksum) addr r (str "b") (str "2") = Some r1 /\
    wf_data (file r1) <> [] /\ TableBuilder.Finish (C := ReferenceChecksum) addr r1 = None.
Proof.
  intros addr.
  set (m0 := mid Options_new (MkWritableFile [] []) BlockBuilder.fresh [] 0 None).
  set (r0 := default m0 (TableBuilder.Add (C := ReferenceChecksum) addr m0 (str "a") (str "1"))).
  set (r := default m0 (TableBuilder.Flush (C := ReferenceChecksum) addr r0)).
  set (r1 := default m0 (TableBuilder.Add (C := ReferenceChecksum) addr r (str "b") (str "2"))).
  exists r0, r, r1. split; [vm_compute; reflexivity|]. split; [vm_compute; reflexivity|]. split; [vm_compute; congruence|].
  apply (TableBuilder_second_block_aborts (C := ReferenceChecksum) addr r0 r r1 (str "b") (str "2")).
  - vm_compute. reflexivity.
  - vm_compute. reflexivity.
  - vm_compute. reflexivity.
  - vm_compute. reflexivity.
  - vm_compute. reflexivity.
Defined.
