(* ===== verification/TableRun.v ===== *)
(** Tables end to end: what table/table_builder.cpp writes, read back through the
    footer, the handles and the blocks of table/format.cpp and the filter block of
    table/filter_block.cpp. *)

From Stdlib Require Import ZArith Lia List Bool String Sorting.Sorted.
From S2P Require Import Prelude Lists Coding Slice Comparator Crc32c Bloom LogFile Options Block BlockSpec BlockRun Format FilterBlock TableBuilder.

Section Read.
Context (C : Checksum) (addr : Z -> Z * Z).

(** At [h] the file has a block with the contents [c] as [WriteRawBlock] writes it:
    the contents, the type and the masked checksum [C] computes of them.  A
    [ReadBlock] that is not asked to verify checksums gets to its end with [c] in
    [*result]; what the caller then sees is a matter of [fall_off]. *)
Definition reads (file : RandomAccessFile) (h : BlockHandle.t) (c : bytes) : Prop :=
  BlockHandle.size_ h = Zlength c /\
  (exists a a', (Read file (BlockHandle.offset_ h) (Zlength c + kBlockTrailerSize)).1 = (Status_OK, raw_block a a' c kNoCompression)) /\
  forall options, verify_checksums options = false -> exists bc, data bc = c /\
    forall (FO : FallOff) a, ReadBlock file options h a = s ← fall_off Status Status_OK; Some (s, bc).

Lemma put_block_reads file contents d c post : Delivers file contents -> contents = put_block addr d c ++ post -> Zlength contents < 2 ^ 64 ->
  reads file (handle_at d c) c.
Proof.
  intros Hf Hc Hsz. pose proof (fun options => ReadBlock_raw C file contents d c post options (handle_at d c) (addr (Zlength d)).1 (addr (Zlength d)).2 Hf) as H.
  assert (contents = d ++ raw_block (addr (Zlength d)).1 (addr (Zlength d)).2 c kNoCompression ++ post) as Ec by (rewrite Hc; unfold put_block; by rewrite <- app_assoc).
  split; [done|]. split.
  - destruct (H ReadOptions_new) as [E _]; try done. by eexists _, _.
  - intros options Hv. destruct (H options) as [_ E]; try done; [by rewrite Hv|]. eexists. split; [|exact E]. done.
Qed.

Lemma parts_read file o es : let t := table_parts addr o es in let contents := table_bytes addr o es in
  Delivers file contents -> Zlength contents < 2 ^ 64 ->
  reads file (handle_at [] (data_contents t)) (data_contents t) /\
  (forall x, filter_contents t = Some x -> reads file (handle_at (after_data addr t) x) x) /\
  reads file (handle_at (after_filter addr t) (meta_contents t)) (meta_contents t) /\
  reads file (handle_at (after_meta addr t) (index_contents t)) (index_contents t).
Proof.
  intros t contents Hf Hsz. assert (exists p4, contents = put_block addr (after_meta addr t) (index_contents t) ++ p4) as [p4 E4] by (by eexists).
  assert (exists p3, contents = put_block addr (after_filter addr t) (meta_contents t) ++ p3) as [p3 E3].
  { rewrite E4. unfold put_block at 1. unfold after_meta. eexists. by rewrite <- app_assoc. }
  assert (exists p2, contents = after_filter addr t ++ p2) as [p2 E2].
  { rewrite E3. unfold put_block. eexists. by rewrite <- app_assoc. }
  assert (exists p1, contents = after_data addr t ++ p1) as [p1 E1].
  { rewrite E2. unfold after_filter. destruct (filter_contents t); [|by eexists]. unfold put_block. eexists. by rewrite <- app_assoc. }
  split; [by eapply put_block_reads|]. split; [|split; by eapply put_block_reads].
  intros x Hx. unfold after_filter in E2. rewrite Hx in E2. by eapply put_block_reads.
Qed.

(** What is found in a table with the entries [es] in its data block: the
    footer, through it the index block with one entry, whose handle leads to the
    data block; and the metaindex block, empty or with the handle of a filter block
    that matches every key. *)
Definition table_found (o : Options) (es : list (bytes * bytes)) (contents : bytes) : Prop :=
  forall file, Delivers file contents ->
  exists footer h, Footer.DecodeFrom Footer.new (drop (length contents - 48) contents) = Some (Status_OK, footer, []) /\
    reads file (Footer.index_handle_ footer)
      (block_bytes (with_restart_interval o 1) [(FindShortSuccessor (comparator o) (default [] (last es.*1)), handle_bytes h)]) /\
    BlockHandle.DecodeFrom BlockHandle.new (handle_bytes h) = (Status_OK, h, []) /\
    reads file h (block_bytes o es) /\
    match filter_policy o with
    | None => reads file (Footer.metaindex_handle_ footer) (block_bytes o [])
    | Some p => exists fh filter,
        reads file (Footer.metaindex_handle_ footer) (block_bytes o [(str "filter." ++ fp_Name p, handle_bytes fh)]) /\
        BlockHandle.DecodeFrom BlockHandle.new (handle_bytes fh) = (Status_OK, fh, []) /\ reads file fh filter /\
        (FilterPolicyLaws p -> forall k, k ∈ es.*1 -> FilterBlockReader.KeyMayMatch p (FilterBlockReader.new filter) (BlockHandle.offset_ h) k = Some true)
    end.

Lemma handle_decodes h : BlockHandle.valid h -> BlockHandle.DecodeFrom BlockHandle.new (handle_bytes h) = (Status_OK, h, []).
Proof. intros Hv. pose proof (BlockHandle_DecodeFrom_enc h BlockHandle.new [] Hv) as H. rewrite app_nil_r in H. exact H. Qed.

Lemma filter_bytes_match p (Hp : FilterPolicyLaws p) keys lim k : 0 <= lim -> Zlength keys < 2 ^ 31 -> Zlength (concat keys) < 2 ^ 64 ->
  Zlength (filter_bytes p keys lim) < 2 ^ 32 -> k ∈ keys -> FilterBlockReader.KeyMayMatch p (FilterBlockReader.new (filter_bytes p keys lim)) 0 k = Some true.
Proof.
  intros Hl H1 H2 Hsz Hk. destruct (filter_block_matches p Hp [(0, keys); (lim, [])]) as (b & Eb & H).
  - repeat constructor; cbn; lia.
  - repeat constructor; cbn; lia.
  - unfold all_keys. cbn [fmap list_fmap concat snd]. by rewrite !app_nil_r.
  - unfold all_keys. cbn [fmap list_fmap concat snd]. by rewrite !app_nil_r.
  - unfold filter_bytes in *. rewrite Eb in *. cbn [default] in *. apply (H Hsz 0 keys k); [left|done].
Qed.

Lemma table_bytes_found o es : Zlength (table_bytes addr o es) < 2 ^ 32 -> Zlength es < 2 ^ 31 -> Zlength (concat es.*1) < 2 ^ 64 ->
  table_found o es (table_bytes addr o es).
Proof.
  intros Hsz Hn Hk file Hf. pose proof (table_sizes addr o es Hsz) as [Haf Hdd Hd0 Hm0 Hi0 Htot]. destruct (parts_read file o es Hf ltac:(lia)) as (R1 & R2 & R3 & R4).
  set (t := table_parts addr o es) in *. pose proof (Zlength_nonneg (data_contents t)).
  assert (BlockHandle.valid (handle_at [] (data_contents t))) as Hv by (apply handle_at_valid; [done|lia]).
  exists (parts_footer addr t), (handle_at [] (data_contents t)). split.
  { unfold table_bytes. fold t. cbn zeta. rewrite length_app, footer_bytes_length, Nat.add_sub, drop_app_length.
    rewrite <- (app_nil_r (footer_bytes _)). apply Footer_DecodeFrom_enc. split; apply handle_at_valid; unfold after_meta; rewrite ?put_block_length; lia. }
  split; [exact R4|]. split; [by apply handle_decodes|]. split; [exact R1|].
  pose proof (meta_contents_ok addr o es) as Hm. fold t in Hm. cbn zeta in Hm. cbn [parts_footer Footer.metaindex_handle_]. unfold meta_entries in Hm.
  assert (filter_contents t = (fun p => filter_bytes p es.*1 (Zlength (after_data addr t))) <$> filter_policy o) as Ec by done.
  destruct (filter_policy o) as [p|]; cbn [fmap option_fmap option_map] in Ec; [|rewrite (Hm BlockHandle.new); [exact R3|congruence]].
  set (x := filter_bytes p es.*1 (Zlength (after_data addr t))) in *. exists (handle_at (after_data addr t) x), x.
  pose proof (Haf x Ec). pose proof (Zlength_nonneg x). split; [change (str "filter." ++ fp_Name p) with (filter_key p); rewrite (Hm (handle_at (after_data addr t) x)); [exact R3|congruence]|].
  split; [apply handle_decodes, handle_at_valid; lia|]. split; [by apply R2|]. intros Hp k Hin. apply (filter_bytes_match p Hp); [lia| |done|fold x; lia|done].
  unfold Zlength in *. by rewrite length_fmap.
Qed.

End Read.

(** ** Building a table of one data block *)

Section Build.
Context {F : Type} `{!FileOps F} (holds : F -> bytes -> Prop) (quiet : F -> Prop) `{!FileSound holds quiet} (C : Checksum) (addr : Z -> Z * Z).
Import TableBuilder.

Lemma Adds_snoc (r : Rep F) es k v : Adds addr r (es ++ [(k, v)]) = r ← Adds addr r es; Add addr r k v.
Proof.
  revert r. induction es as [|[k' v'] es IH]; intros r; cbn [Adds app]; [bind_simpl; by destruct (Add addr r k v)|].
  destruct (Add addr r k' v'); [|done]. bind_simpl. apply IH.
Qed.

Lemma build_table o es k v b0 f : let es' := es ++ [(k, v)] in
  1 <= block_restart_interval o -> Forall small_entry es' -> StronglySorted (fun x y => 0 < Compare (comparator o) y.1 x.1) es' ->
  adds o BlockBuilder.fresh es = Some b0 -> block_estimate b0 < block_size o -> options_small o k ->
  Zlength (table_bytes addr o es') < 2 ^ 32 -> holds f [] ->
  exists r0 r r', TableBuilder.new o f = Some r0 /\ Adds addr r0 es' = Some r /\ Finish addr r = Some (rep_status r', r') /\
    wrote holds quiet (quiet f) r' (table_bytes addr o es') /\ num_entries r' = Zlength es'.
Proof.
  intros es' Hri Hsm Hso Hb0 Hbs Hopt Hsz Hf. rewrite (new_mid o f Hri). eexists.
  destruct (adds_accepts o es' Hri Hsm BlockBuilder.fresh [] [0%nat] (fresh_built o Hri) Hso) as [b Hb]; [by left|].
  pose proof Hb as Hb1. unfold es' in Hb1. rewrite adds_snoc, Hb0 in Hb1. cbn [mbind option_bind] in Hb1.
  pose proof (BlockBuilder_Add_grows o b0 k v b Hb1) as [Hg _]. pose proof (adds_grows o es _ _ Hb0) as Hg0. change (block_estimate BlockBuilder.fresh) with 8 in Hg0.
  assert (block_estimate b + 5 < 2 ^ 32) as Hbb.
  { pose proof (table_sizes addr o es' Hsz) as [_ Hdd Hd0 Hm0 Hi0 Htot]. change (data_contents (table_parts addr o es')) with (block_bytes o es') in Hdd.
    unfold block_bytes in Hdd. rewrite Hb in Hdd. cbn [default id] in Hdd. rewrite Finish_estimate in Hdd. lia. }
  assert (Adds addr (mid o f BlockBuilder.fresh [] 0 (mid_filter o [])) es' =
    let r := mid o f b k (Zlength es') (mid_filter o es'.*1) in if block_estimate b >=? block_size o then Flush addr r else Some r) as Ea.
  { unfold es'. rewrite Adds_snoc. apply StronglySorted_app_inv in Hso as (Hso1 & _ & Hlt). rewrite (Adds_mid addr o f es _ _ _ _ b0); try done; try lia.
    - bind_simpl. rewrite (Add_mid addr o f b0 _ _ _ k v b); [| |done|lia].
      + cbn zeta. rewrite Z.add_0_l, Zlength_app, fmap_app. cbn [app]. done.
      + intros Hpos. destruct (last es) as [e|] eqn:El.
        * rewrite fmap_last, El. cbn. apply (Hlt e (k, v)); [by apply last_Some_elem_of|set_solver].
        * apply last_None in El. rewrite El in Hpos. done. }
  destruct (Flush_mid holds quiet addr (quiet f) o f es' b k Hb) as (rf & Ef & Hfl); [by eapply BlockBuilder_Add_nonempty|lia|done|done|].
  assert (exists r, Adds addr (mid o f BlockBuilder.fresh [] 0 (mid_filter o [])) es' = Some r /\ Flush addr r = Some rf) as (r & E1 & E2).
  { rewrite Ea. cbn zeta. destruct (_ >=? _); [|eauto]. exists rf. split; [done|]. eapply (Flush_again addr _ rf Ef); [by eapply BlockBuilder_Add_nonempty|done]. }
  destruct (Finish_flushed holds quiet addr (quiet f) r rf o es' k E2 Hfl Hri Hopt) as (r' & E3 & Hw & Hnum); [|done|].
  { unfold es'. rewrite fmap_app. apply last_snoc. }
  exists r, r'. split; [done|]. by split_and!.
Qed.

End Build.

(** ** Properties *)

(** C14: Building a table whose entries fit one data block never aborts, whatever
    write fails, and reports OK when none does.  When [Finish] reports OK the file
    holds [table_bytes], the builder's file size is its length, and everything is
    found in it: in the last 48 bytes the footer, which decodes to the handles of
    the index block, with one entry whose handle decodes and names a block of
    exactly the entries, and of the metaindex block, which with a filter policy has
    the handle of a filter block that matches every key.  Each block is stored as
    contents, type and masked checksum, and a [ReadBlock] that does not verify
    checksums prepares the contents in its result, and then falls off its end: by
    the language its caller gets nothing ([Undefined]), with the missing [return]
    it would get OK and the contents ([AsIntended]).  Holds for every checksum, the
    code's own included. *)
Theorem TableBuilder_roundtrip {F : Type} (FO : FileOps F) (holds : F -> bytes -> Prop) (quiet : F -> Prop) (HF : FileSound holds quiet)
    (C : Checksum) (addr : Z -> Z * Z) (o : Options) (es : list (bytes * bytes)) (k v : bytes) (b0 : BlockBuilder.t) (f : F) :
  let es' := es ++ [(k, v)] in
  1 <= block_restart_interval o -> Forall small_entry es' -> StronglySorted (fun x y => 0 < Compare (comparator o) y.1 x.1) es' ->
  adds o BlockBuilder.fresh es = Some b0 -> block_estimate b0 < block_size o -> options_small o k ->
  Zlength (table_bytes addr o es') < 2 ^ 32 -> Zlength es' < 2 ^ 31 -> Zlength (concat es'.*1) < 2 ^ 64 -> holds f [] ->
  exists r0 r s r', TableBuilder.new o f = Some r0 /\ TableBuilder.Adds addr r0 es' = Some r /\ TableBuilder.Finish addr r = Some (s, r') /\
    TableBuilder.NumEntries r' = Zlength es' /\ (quiet f -> ok s = true) /\
    (ok s = true -> holds (file r') (table_bytes addr o es') /\ TableBuilder.FileSize r' = Zlength (table_bytes addr o es') /\
       table_found C o es' (table_bytes addr o es')).
Proof.
  intros es' Hri Hsm Hso Hb0 Hbs Hopt Hsz Hn Hk Hf. destruct (build_table holds quiet C addr o es k v b0 f Hri Hsm Hso Hb0 Hbs Hopt Hsz Hf) as (r0 & r & r' & E1 & E2 & E3 & [Hw Hq] & Hnum).
  exists r0, r, (rep_status r'), r'. split; [done|]. split; [done|]. split; [done|]. split; [|split].
  - unfold TableBuilder.NumEntries. rewrite Hnum. apply u64_small. pose proof (Zlength_nonneg es'). fold es'. unfold is_u64. lia.
  - intros Hqf. by apply Hq.
  - intros Hok. destruct (Hw Hok) as [Hh Ho]. split; [done|]. split; [done|]. by apply table_bytes_found.
Qed.

Definition filter_options : Options :=
  MkOptions BytewiseComparator false false false (Z.shiftl 4 20) 1000 false 4096 16 kSnappyCompression (Some (NewBloomFilterPolicy 10)).

Lemma TableBuilder_roundtrip_witness :
  let es := [(str "a", str "1"); (str "ab", str "22")] in let e := (str "b", str "3") in let o := filter_options in let addr := fun _ => (0, 0) in
  exists r0 r s r', TableBuilder.new o (MkWritableFile [] []) = Some r0 /\
    TableBuilder.Adds (C := Crc32cChecksum) addr r0 (es ++ [e]) = Some r /\ TableBuilder.Finish (C := Crc32cChecksum) addr r = Some (s, r') /\ ok s = true /\
    wf_data (file r') = table_bytes (C := Crc32cChecksum) addr o (es ++ [e]) /\
    table_found Crc32cChecksum o (es ++ [e]) (wf_data (file r')).
Proof.
  intros es e o addr.
  destruct (TableBuilder_roundtrip WritableFile_ops (fun f d => wf_data f = d /\ honest f) (fun f => wf_script f = []) WritableFile_sound
    Crc32cChecksum addr o es (str "b") (str "3") (default BlockBuilder.fresh (adds o BlockBuilder.fresh es)) (MkWritableFile [] []))
    as (r0 & r & s & r' & E1 & E2 & E3 & _ & Hq & H).
  - vm_compute. congruence.
  - repeat constructor; vm_compute; reflexivity.
  - repeat constructor; vm_compute; reflexivity.
  - vm_compute. reflexivity.
  - vm_compute. reflexivity.
  - split; [vm_compute; reflexivity|]. intros p [= <-]. vm_compute. reflexivity.
  - vm_compute. reflexivity.
  - vm_compute. reflexivity.
  - vm_compute. reflexivity.
  - split; [reflexivity|constructor].
  - exists r0, r, s, r'. split; [exact E1|]. split; [exact E2|]. split; [exact E3|]. split; [apply Hq; reflexivity|].
    destruct (H (Hq eq_refl)) as ([Hh _] & _ & Hfound). split; [exact Hh|]. rewrite Hh. exact Hfound.
Defined.
