(* ===== verification/Table.v ===== *)
(** leveldb/table.h and table/table.cpp: the reader of a table.

    [None] is undefined: a failed assertion, a read past the end, or control that
    leaves a function without a [return] ([FallOff]; the code is [Undefined]).  [addr] gives the address of
    the data a block is read into.  The block cache is used through [CacheOps];
    whether there is one is [has_block_cache].  The buffer behind a filter
    ([filter_data]) and the destructors of tables are not modelled. *)

From Stdlib Require Import ZArith Lia List Bool String Sorting.Sorted.
From S2P Require Import Prelude Lists Coding Slice Comparator Crc32c Bloom LogFile Iterators Cache CacheLaws.
From S2P Require Import Options Block BlockSpec BlockRun Format FilterBlock TableBuilder TableRun.

(** ** Block iterators as iterators *)

Definition block_iter (f : Block.Iter -> option Block.Iter) (g : EmptyIterator -> option EmptyIterator) (it : Block.BlockIterator) : option Block.BlockIterator :=
  match it with
  | Block.BlockIter i => Block.BlockIter <$> f i
  | Block.BlockEmpty => e ← g NewEmptyIterator; Some it
  | Block.BlockError s => e ← g (NewErrorIterator s); Some it
  end.

#[global] Instance BlockIterator_ops : Iterator.Ops Block.BlockIterator := {|
  Iterator.Valid it := match it with Block.BlockIter i => Block.Valid i | _ => false end;
  Iterator.SeekToFirst := block_iter Block.SeekToFirst Iterator.SeekToFirst;
  Iterator.SeekToLast := block_iter Block.SeekToLast Iterator.SeekToLast;
  Iterator.Seek t := block_iter (fun i => Block.Seek i t) (Iterator.Seek t);
  Iterator.Next := block_iter Block.Next Iterator.Next;
  Iterator.Prev := block_iter Block.Prev Iterator.Prev;
  Iterator.key it := match it with Block.BlockIter i => Block.key i | _ => None end;
  Iterator.value it := match it with Block.BlockIter i => Block.value i | _ => None end;
  Iterator.status it := Some (match it with Block.BlockIter i => Block.status i | Block.BlockEmpty => Status_OK | Block.BlockError s => s end)
|}.

Record Table := MkTable {
  table_options : Options;
  table_file : RandomAccessFile;
  cache_id : Z;
  filter : option (FilterPolicy * FilterBlockReader.t);
  metaindex_handle : BlockHandle.t;
  table_index_block : Block.t
}.

Module Table.
Section Table.
Context `{FO : FallOff} `{C : Checksum} (addr : BlockHandle.t -> Z).
Context {K : Type} `{!CacheOps K Block.t}.

Definition set_filter (t : Table) (f : FilterPolicy * FilterBlockReader.t) : Table :=
  MkTable (table_options t) (table_file t) (cache_id t) (Some f) (metaindex_handle t) (table_index_block t).

Definition Open (options : Options) (file : RandomAccessFile) (size : Z) (c : K) : option (Status * option Table * K) :=
  if size <? Footer.kEncodedLength then Some (Status_InvalidArgument (str "file is too short to be an sstable") [], None, c)
  else
    let '(s, footer_input, _) := Read file (size - Footer.kEncodedLength) Footer.kEncodedLength in
    if negb (ok s) then Some (s, None, c)
    else
      '(s, footer, _) ← Footer.DecodeFrom Footer.new footer_input;
      if negb (ok s) then Some (s, None, c)
      else
        '(s, contents) ← ReadBlock file ReadOptions_new (Footer.index_handle_ footer) (addr (Footer.index_handle_ footer));
        if ok s then
          index_block ← Block.new (data contents) (heap_allocated contents);
          let '(id, c) := if has_block_cache options then cache_NewId (V := Block.t) c else (0, c) in
          Some (s, Some (MkTable options file id None (Footer.metaindex_handle_ footer) index_block), c)
        else Some (s, None, c).

Definition ReadFilter (t : Table) (filter_handle_value : bytes) : option Table :=
  let '(s, filter_handle, _) := BlockHandle.DecodeFrom BlockHandle.new filter_handle_value in
  if negb (ok s) then Some t
  else
    '(s, block) ← ReadBlock (table_file t) ReadOptions_new filter_handle (addr filter_handle);
    if negb (ok s) then Some t
    else
      p ← filter_policy (table_options t);
      Some (set_filter t (p, FilterBlockReader.new (data block))).

Definition ReadMeta (t : Table) (footer : Footer.t) : option Table :=
  match filter_policy (table_options t) with
  | None => Some t
  | Some p =>
      '(s, contents) ← ReadBlock (table_file t) ReadOptions_new (Footer.metaindex_handle_ footer) (addr (Footer.metaindex_handle_ footer));
      if negb (ok s) then Some t
      else
        meta ← Block.new (data contents) (heap_allocated contents);
        iter ← Block.NewIterator meta BytewiseComparator;
        let key := str "filter." ++ fp_Name p in
        iter ← Iterator.Seek key iter;
        if Iterator.Valid iter then
          k ← Iterator.key iter;
          if Slice.eqb k key then v ← Iterator.value iter; ReadFilter t v else Some t
        else Some t
  end.

(** The functions registered with a block's iterator. *)
Inductive cleanup := DeleteBlock | ReleaseBlock (cache_handle : nat).

Definition run_cleanup (c : K) (f : cleanup) : option K :=
  match f with DeleteBlock => Some c | ReleaseBlock h => cache_Release (V := Block.t) c h end.

(** [delete iter] *)
Definition delete_iter (c : K) (fs : list cleanup) : option K := foldl (fun c f => c ← c; run_cleanup c f) (Some c) fs.

Definition cache_key (id offset : Z) : bytes := EncodeFixed64 id ++ EncodeFixed64 offset.

(** The part of [BlockReader] that finds the block: its status, the block, its
    cache handle and the cache. *)
Definition read_block (t : Table) (options : ReadOptions) (handle : BlockHandle.t) : option (Status * option (BlockContents * Block.t)) :=
  '(s, contents) ← ReadBlock (table_file t) options handle (addr handle);
  if ok s then block ← Block.new (data contents) (heap_allocated contents); Some (s, Some (contents, block)) else Some (s, None).

(** A miss: the block is read and, when it can be, put into the cache. *)
Definition load_block (t : Table) (options : ReadOptions) (handle : BlockHandle.t) (key : bytes) (c : K) : option (Status * option (Block.t * option nat) * K) :=
  '(s, r) ← read_block t options handle;
  match r with
  | Some (contents, block) =>
      if cachable contents && fill_cache options then
        '(h, c) ← cache_Insert c key block (Block.size_ block);
        Some (s, Some (block, Some h), c)
      else Some (s, Some (block, None), c)
  | None => Some (s, None, c)
  end.

Definition cached_block (c : K) (h : nat) : option (Status * option (Block.t * option nat) * K) :=
  block ← cache_Value c h; Some (Status_OK, Some (block, Some h), c).

Definition find_block (t : Table) (options : ReadOptions) (handle : BlockHandle.t) (c : K) : option (Status * option (Block.t * option nat) * K) :=
  if has_block_cache (table_options t) then
    let key := cache_key (cache_id t) (BlockHandle.offset_ handle) in
    '(cache_handle, c) ← cache_Lookup (V := Block.t) c key;
    match cache_handle with
    | Some h => cached_block c h
    | None => load_block t options handle key c
    end
  else
    '(s, r) ← read_block t options handle;
    Some (s, match r with Some (_, block) => Some (block, None) | None => None end, c).

(** The iterator with its cleanup functions; the function does not return it. *)
Definition BlockReader (t : Table) (options : ReadOptions) (index_value : bytes) (c : K)
    : option (Block.BlockIterator * Cleanup.t (F := cleanup) * K) :=
  let '(s, handle, _) := BlockHandle.DecodeFrom BlockHandle.new index_value in
  '(s, block, c) ← (if ok s then find_block t options handle c else Some (s, None, c));
  '(iter, cleanups) ←
    (match block with
     | Some (block, cache_handle) =>
         iter ← Block.NewIterator block (comparator (table_options t));
         Some (iter, Cleanup.RegisterCleanup Cleanup.new (match cache_handle with None => DeleteBlock | Some h => ReleaseBlock h end))
     | None => Some (Block.BlockError s, Cleanup.new)
     end);
  iter ← fall_off Block.BlockIterator iter;
  Some (iter, cleanups, c).

(** [filter != NULL && handle.DecodeFrom(&handle_value).ok() &&
    !filter->KeyMayMatch(handle.offset(), k)] *)
Definition filtered_out (t : Table) (handle_value k : bytes) : option bool :=
  match filter t with
  | None => Some false
  | Some (p, r) =>
      let '(s, handle, _) := BlockHandle.DecodeFrom BlockHandle.new handle_value in
      if ok s then m ← FilterBlockReader.KeyMayMatch p r (BlockHandle.offset_ handle) k; Some (negb m) else Some false
  end.

(** The entry passed to the saver, if any, is part of the result. *)
Definition InternalGet (t : Table) (options : ReadOptions) (k : bytes) (c : K) : option (Status * option (bytes * bytes) * K) :=
  iiter ← Block.NewIterator (table_index_block t) (comparator (table_options t));
  iiter ← Iterator.Seek k iiter;
  '(s, saved, c) ←
    (if Iterator.Valid iiter then
       handle_value ← Iterator.value iiter;
       out ← filtered_out t handle_value k;
       if (out : bool) then Some (Status_OK, None, c)
       else
         '(biter, cleanups, c) ← BlockReader t options handle_value c;
         biter ← Iterator.Seek k biter;
         saved ← (if Iterator.Valid biter then key ← Iterator.key biter; v ← Iterator.value biter; Some (Some (key, v)) else Some None);
         s ← Iterator.status biter;
         c ← delete_iter c (Cleanup.destroy cleanups);
         Some (s, saved, c)
     else Some (Status_OK, None, c));
  s ← (if ok s then Iterator.status iiter else Some s);
  Some (s, saved, c).

Definition ApproximateOffsetOf (t : Table) (key : bytes) : option Z :=
  index_iter ← Block.NewIterator (table_index_block t) (comparator (table_options t));
  index_iter ← Iterator.Seek key index_iter;
  if Iterator.Valid index_iter then
    input ← Iterator.value index_iter;
    let '(s, handle, _) := BlockHandle.DecodeFrom BlockHandle.new input in
    if ok s then Some (BlockHandle.offset_ handle) else Some (BlockHandle.offset_ (metaindex_handle t))
  else Some (BlockHandle.offset_ (metaindex_handle t)).

End Table.
End Table.

(** ** Opening a built table *)

Section Opened.
Context (C : Checksum) (addr : BlockHandle.t -> Z) (waddr : Z -> Z * Z) {K : Type} `{!CacheOps K Block.t}.

(** The index block of a table the builder can finish has one restart point. *)
Lemma index_block_single o key v : small_entry (key, v) -> exists buf, block_bytes (with_restart_interval o 1) [(key, v)] = buf ++ one_restart.
Proof.
  intros Hs. destruct (fresh_add (with_restart_interval o 1) key v) as (b & E & <-); [cbn; lia|done|]. exists (BlockBuilder.buffer_ b). apply single_restart.
  unfold BlockBuilder.Add in E. cbn [BlockBuilder.finished_ BlockBuilder.fresh BlockBuilder.counter_ BlockBuilder.buffer_ BlockBuilder.restarts_ BlockBuilder.last_key_] in E.
  change (block_restart_interval (with_restart_interval o 1)) with 1 in E. change (0 >? 1) with false in E. change (negb (Slice.empty []) && _) with false in E.
  change (0 <? 1) with true in E. cbv iota in E. destruct (Slice.eqb _ _); [|done]. by injection E as <-.
Qed.

(** [Open] gets to [ReadBlock], and that to its end, with the index block. *)
Lemma Open_built o es file c : let contents := table_bytes waddr o es in let t := table_parts waddr o es in
  Delivers file contents -> Zlength contents < 2 ^ 32 -> small_entry (FindShortSuccessor (comparator o) (default [] (last es.*1)), handle_bytes (handle_at [] (data_contents t))) ->
  exists buf bl, Zlength buf + 8 < 2 ^ 32 /\ (exists ha, Block.new (buf ++ one_restart) ha = Some bl) /\
    forall FO : FallOff, @Table.Open FO C addr K _ o file (Zlength contents) c =
      match fall_off Status Status_OK with
      | Some s =>
          if ok s then
            let '(id, c) := if has_block_cache o then cache_NewId (V := Block.t) c else (0, c) in
            Some (s, Some (MkTable o file id None (Footer.metaindex_handle_ (parts_footer waddr t)) bl), c)
          else Some (s, None, c)
      | None => None
      end.
Proof.
  intros contents t Hf Hsz Hsm. pose proof (table_sizes waddr o es Hsz) as [Haf Hdd Hd0 Hm0 Hi0 Htot]. destruct (parts_read C waddr file o es Hf ltac:(fold contents; lia)) as (_ & _ & _ & _ & _ & R4).
  fold t in Haf, Hdd, Hd0, Hm0, Hi0, Htot, R4. pose proof (Zlength_nonneg (data_contents t)).
  assert (footer_valid (parts_footer waddr t)) as Hv by (split; apply handle_at_valid; unfold after_meta; rewrite ?put_block_length; lia).
  assert (contents = after_index waddr t ++ footer_bytes (parts_footer waddr t)) as Ec by done.
  assert (Zlength contents = Zlength (after_index waddr t) + 48) as El by (rewrite Ec, Zlength_app; f_equal; unfold Zlength; by rewrite footer_bytes_length).
  destruct (index_block_single o _ _ Hsm) as (buf & Eb). change (block_bytes (with_restart_interval o 1) _) with (index_contents t) in Eb.
  assert (Zlength buf + 8 < 2 ^ 32) as Hbuf. { assert (Zlength (index_contents t) = Zlength buf + 8) by (rewrite Eb, Zlength_app; done). lia. }
  destruct (R4 ReadOptions_new eq_refl) as (bc & Ed & Er).
  destruct (one_restart_new buf (comparator o) (heap_allocated bc) Hbuf) as (bl & En & _ & _).
  exists buf, bl. split; [done|]. split; [by eexists|]. intros FO.
  unfold Table.Open. change Footer.kEncodedLength with 48. pose proof (Zlength_nonneg (after_index waddr t)). destruct (Z.ltb_spec (Zlength contents) 48); [lia|].
  pose proof (delivers (Zlength contents - 48) 48 ltac:(lia) ltac:(lia)) as Hd. destruct (Read file _ 48) as [[s0 inp] inb]. cbn [fst] in Hd.
  replace (Zlength contents - 48) with (Zlength (after_index waddr t)) in Hd by lia.
  rewrite Ec, drop_Zlength_app, take_ge in Hd by (rewrite footer_bytes_length; done). injection Hd as -> ->. change (ok Status_OK) with true. cbn [negb].
  rewrite <- (app_nil_r (footer_bytes _)), Footer_DecodeFrom_enc by done. bind_simpl. change (ok Status_OK) with true. cbn [negb].
  change (handle_at (after_meta waddr t) (index_contents t)) with (Footer.index_handle_ (parts_footer waddr t)) in Er. rewrite Er.
  destruct (fall_off Status Status_OK) as [s|]; [|done]. bind_simpl. destruct (ok s); [|done]. by rewrite Ed, Eb, En.
Qed.

End Opened.

(** By the language [Open] never returns OK. *)
Lemma Open_undefined (C : Checksum) addr {K : Type} (CO : CacheOps K Block.t) o file size (c : K) s t c' :
  @Table.Open Undefined C addr K _ o file size c = Some (s, t, c') -> ok s = false /\ t = None.
Proof.
  unfold Table.Open. destruct (_ <? _); [by intros [= <- <- <-]|]. destruct (Read file _ _) as [[s0 inp] inb].
  destruct (ok s0) eqn:E0; cbn [negb]; [|by intros [= <- <- <-]]. destruct (Footer.DecodeFrom _ inp) as [[[s1 f] rest]|]; [|done]. bind_simpl.
  destruct (ok s1) eqn:E1; cbn [negb]; [|by intros [= <- <- <-]]. destruct (ReadBlock file _ _ _) as [[s2 bc]|] eqn:Er; [|done]. bind_simpl.
  apply ReadBlock_undefined in Er. rewrite Er. by intros [= <- <- <-].
Qed.

(** A table that [Open] makes has no filter. *)
Lemma Open_no_filter (FO : FallOff) (C : Checksum) addr {K : Type} (CO : CacheOps K Block.t) o file size (c : K) s t c' :
  Table.Open addr o file size c = Some (s, Some t, c') -> filter t = None.
Proof.
  unfold Table.Open. destruct (_ <? _); [done|]. destruct (Read file _ _) as [[s0 inp] inb].
  destruct (ok s0) eqn:E0; cbn [negb]; [|done]. destruct (Footer.DecodeFrom _ inp) as [[[s1 f] rest]|]; [|done]. bind_simpl.
  destruct (ok s1) eqn:E1; cbn [negb]; [|done]. destruct (ReadBlock file _ _ _) as [[s2 bc]|] eqn:Er; [|done]. bind_simpl.
  destruct (ok s2); [|done]. destruct (Block.new _ _); [|done]. bind_simpl. destruct (if has_block_cache o then _ else _) as [id c1].
  by intros [= _ <- _].
Qed.

(** By the language [BlockReader] never returns at all. *)
Lemma BlockReader_undefined (C : Checksum) addr {K : Type} (CO : CacheOps K Block.t) t options v (c : K) : @Table.BlockReader Undefined C addr K _ t options v c = None.
Proof.
  unfold Table.BlockReader. destruct (BlockHandle.DecodeFrom _ v) as [[s h] rest]. destruct (if ok s then _ else _) as [[[s1 b] c1]|]; [|done]. bind_simpl.
  destruct b as [[b ch]|]; [|done]. by destruct (Block.NewIterator b _).
Qed.

(** ** The block cache *)

Section Cached.
Context {FO : FallOff} (C : Checksum) (addr : BlockHandle.t -> Z) {K : Type} `{!CacheOps K Block.t} (serves : (bytes -> Block.t -> Prop) -> list nat -> nat -> K -> Prop) `{!CacheLaws K Block.t serves}.
Context (t : Table) (H : BlockHandle.t -> option Block.t).

(** The handles [H] of a table lead to blocks, whatever the read options, and no
    two start at one offset. *)
Record table_blocks : Prop := {
  tb_read : forall h b options, H h = Some b -> exists bc, Table.read_block addr t options h = Some (Status_OK, Some (bc, b));
  tb_valid : forall h b, H h = Some b -> BlockHandle.valid h;
  tb_offset : forall h h' b b', H h = Some b -> H h' = Some b' -> BlockHandle.offset_ h = BlockHandle.offset_ h' -> h = h'
}.

(** Under the table's keys the cache has the table's blocks. *)
Definition block_cached (k : bytes) (b : Block.t) : Prop :=
  forall h b', H h = Some b' -> k = Table.cache_key (cache_id t) (BlockHandle.offset_ h) -> b = b'.

Lemma cache_key_inj id a b : is_u64 a -> is_u64 b -> Table.cache_key id a = Table.cache_key id b -> a = b.
Proof.
  intros Ha Hb E. unfold Table.cache_key in E. apply app_inj_1 in E as [_ E]; [|by rewrite !EncodeFixed64_length].
  apply (f_equal DecodeFixed64) in E. rewrite <- (app_nil_r (EncodeFixed64 a)), <- (app_nil_r (EncodeFixed64 b)), !DecodeFixed64_app, !u64_small in E by done. done.
Qed.

Lemma valid_u64 h : BlockHandle.valid h -> is_u64 (BlockHandle.offset_ h).
Proof. intros [Ho _]. unfold BlockHandle.unset in Ho. unfold is_u64. lia. Qed.

Lemma find_block_ok hs n c options h b : table_blocks -> H h = Some b -> serves block_cached hs (S (S n)) c ->
  exists ch c', Table.find_block addr t options h c = Some (Status_OK, Some (b, ch), c') /\ serves block_cached (match ch with Some a => a :: hs | None => hs end) n c'.
Proof.
  intros Ht Hb Hc. destruct (tb_read Ht h b options Hb) as (bc & Er). unfold Table.find_block. destruct (has_block_cache (table_options t)).
  2: { rewrite Er. bind_simpl. exists None, c. split; [done|]. by do 2 apply serves_less in Hc. }
  set (key := Table.cache_key (cache_id t) (BlockHandle.offset_ h)). destruct (lookup_serves _ _ _ _ key Hc) as (r & c1 & -> & Hr). bind_simpl.
  destruct r as [a|].
  - destruct Hr as [Hs (v & Hv & HP)]. unfold Table.cached_block. rewrite Hv. bind_simpl. rewrite (HP h b Hb eq_refl). exists (Some a), c1. split; [done|]. by apply serves_less.
  - unfold Table.load_block. rewrite Er. bind_simpl. destruct (_ && _); [|exists None, c1; split; [done|]; by apply serves_less].
    destruct (insert_serves _ _ _ _ key b (Block.size_ b) Hr) as (a & c2 & E & Hs & _).
    { intros h' b' Hb' Ek. apply cache_key_inj in Ek; [|eapply valid_u64, tb_valid; done|eapply valid_u64, tb_valid; done]. rewrite (tb_offset Ht h h' b b') in Hb by done. congruence. }
    rewrite E. bind_simpl. exists (Some a), c2. done.
Qed.

Lemma BlockReader_ok hs n c options h b : table_blocks -> H h = Some b -> serves block_cached hs (S (S (S n))) c ->
  exists fs c', Table.BlockReader addr t options (handle_bytes h) c =
      (iter ← Block.NewIterator b (comparator (table_options t)); iter ← fall_off Block.BlockIterator iter; Some (iter, fs, c')) /\
    exists c'', Table.delete_iter c' (Cleanup.destroy fs) = Some c'' /\ serves block_cached hs n c''.
Proof.
  intros Ht Hb Hc. destruct (find_block_ok hs (S n) c options h b Ht Hb Hc) as (ch & c' & Ef & Hs). unfold Table.BlockReader.
  rewrite handle_decodes by (by eapply tb_valid). change (ok Status_OK) with true. cbv iota. rewrite Ef. bind_simpl.
  set (f := match ch with None => Table.DeleteBlock | Some h => Table.ReleaseBlock h end). exists (Cleanup.RegisterCleanup Cleanup.new f), c'. split.
  - destruct (Block.NewIterator b _); [|done]. bind_simpl. by destruct (fall_off _ _).
  - destruct ch as [a|]; cbn.
    + destruct (release_serves _ _ _ _ _ Hs) as (c'' & E & Hs'). rewrite E. eauto.
    + eexists. split; [done|]. by apply serves_less.
Qed.

End Cached.

(** The table with its block cache switched off. *)
Definition without_cache (t : Table) : Table :=
  let o := table_options t in
  MkTable (MkOptions (comparator o) (create_if_missing o) (error_if_exists o) (paranoid_checks o) (write_buffer_size o) (max_open_files o) false
    (block_size o) (block_restart_interval o) (compression o) (filter_policy o)) (table_file t) (cache_id t) (filter t) (metaindex_handle t) (table_index_block t).

(** ** Properties *)

(** C40: [Open] opens no table.  [ReadBlock] falls off its end when it has read a
    block, so by the language [Open] never returns OK, whatever the options and the
    file, and on a file the builder wrote its behaviour is undefined.  Were the
    missing [return] there, [Open] would return OK and a table on such a file; but
    no table that [Open] makes has a filter, whatever the options and the file
    ([Open] does not call [ReadMeta]), so no read is ever spared, and in the built
    table no key can be looked up nor its offset estimated: the index iterator's
    [Seek] reads the position of an iterator that was never moved.  Holds for every
    checksum, the code's own included ([Open] does not ask to verify). *)
Theorem Table_Open_built (C : Checksum) (addr : BlockHandle.t -> Z) (waddr : Z -> Z * Z) {K : Type} (CO : CacheOps K Block.t)
    (o : Options) (es : list (bytes * bytes)) (file : RandomAccessFile) (c : K) :
  let contents := table_bytes waddr o es in
  Delivers file contents -> Zlength contents < 2 ^ 32 -> Zlength (FindShortSuccessor (comparator o) (default [] (last es.*1))) < 2 ^ 32 ->
  (forall o' file' size c1 s t c', @Table.Open Undefined C addr K _ o' file' size c1 = Some (s, t, c') -> ok s = false /\ t = None) /\
  @Table.Open Undefined C addr K _ o file (Zlength contents) c = None /\
  (forall FO o' file' size c1 s t c', @Table.Open FO C addr K _ o' file' size c1 = Some (s, Some t, c') ->
     filter t = None /\ forall handle_value k, Table.filtered_out t handle_value k = Some false) /\
  exists t c', @Table.Open AsIntended C addr K _ o file (Zlength contents) c = Some (Status_OK, Some t, c') /\
    (forall FO options k c1, @Table.InternalGet FO C addr K _ t options k c1 = None) /\ (forall k, Table.ApproximateOffsetOf t k = None).
Proof.
  intros contents Hf Hsz Hk. destruct (Open_built C addr waddr o es file c Hf Hsz) as (buf & bl & Hb & [ha En] & E); [split; [done|apply handle_bytes_small]|].
  split_and!; [|apply E| |].
  - intros o' file' size c1 s t c'. apply Open_undefined.
  - intros FO o' file' size c1 s t c' H. apply Open_no_filter in H. split; [done|]. intros hv k. unfold Table.filtered_out. by rewrite H.
  - fold contents in E. rewrite E. bind_simpl. cbn [fall_off AsIntended ok Status_OK mbind option_bind].
    destruct (one_restart_new buf (comparator o) ha Hb) as (bl' & En' & _ & Ei). rewrite En in En'. injection En' as <-.
    destruct (if has_block_cache o then cache_NewId c else (0, c)) as [id c1]. eexists _, _. split; [reflexivity|]. split; intros *.
    + unfold Table.InternalGet. cbn [table_index_block table_options]. rewrite Ei. bind_simpl. cbn [Iterator.Seek BlockIterator_ops block_iter]. by rewrite Seek_unset.
    + unfold Table.ApproximateOffsetOf. cbn [table_index_block table_options]. rewrite Ei. bind_simpl. cbn [Iterator.Seek BlockIterator_ops block_iter]. by rewrite Seek_unset.
Qed.

Lemma Table_Open_built_witness :
  let es := [(str "a", str "1"); (str "b", str "2")] in let waddr := fun _ => (0, 0) in
  let contents := table_bytes (C := Crc32cChecksum) waddr filter_options es in
  let ops := LRU_ops (V := Block.t) fresh in let c := (LRU.MkSharded [] 0, LRU.MkMemory ∅ []) in
  @Table.Open Undefined Crc32cChecksum (fun _ => 0) _ ops filter_options (raf_of contents) (Zlength contents) c = None /\
  exists t c', @Table.Open AsIntended Crc32cChecksum (fun _ => 0) _ ops filter_options (raf_of contents) (Zlength contents) c = Some (Status_OK, Some t, c') /\
    filter t = None /\ Table.ApproximateOffsetOf t (str "a") = None.
Proof.
  intros es waddr contents ops c.
  destruct (Table_Open_built Crc32cChecksum (fun _ => 0) waddr ops filter_options es (raf_of contents) c) as (_ & Hu & Hn & t & c' & E & _ & Ha).
  - apply raf_of_delivers.
  - vm_compute. reflexivity.
  - vm_compute. reflexivity.
  - split; [exact Hu|]. exists t, c'. split; [exact E|]. split; [exact (proj1 (Hn _ _ _ _ _ _ _ _ E))|exact (Ha (str "a"))].
Defined.

(** The block cache does not change what [BlockReader] prepares: for a table whose
    blocks can be read, and a cache that has only them under the table's keys, on a
    hit, on a miss and without a cache it prepares an iterator over the block the
    handle names; deleting the iterator gives back every reference it took, and
    leaves the cache as sound as it was.  This is about the code with its missing
    [return] statements put in ([AsIntended]): by the language ([Undefined]) no
    block can be read, and [BlockReader] returns for none ([BlockReader_undefined]). *)
Theorem BlockReader_cache_transparent (FO : FallOff) (C : Checksum) (addr : BlockHandle.t -> Z) {K : Type} (CO : CacheOps K Block.t)
    (serves : (bytes -> Block.t -> Prop) -> list nat -> nat -> K -> Prop) (CL : CacheLaws K Block.t serves) (t : Table) (H : BlockHandle.t -> option Block.t)
    (hs : list nat) (n : nat) (c : K) (options : ReadOptions) (h : BlockHandle.t) (b : Block.t) :
  table_blocks C addr t H -> H h = Some b -> serves (block_cached t H) hs (S (S (S n))) c ->
  let iter := iter ← Block.NewIterator b (comparator (table_options t)); fall_off Block.BlockIterator iter in
  (exists fs c', Table.BlockReader addr t options (handle_bytes h) c = (iter ← iter; Some (iter, fs, c')) /\
     exists c'', Table.delete_iter c' (Cleanup.destroy fs) = Some c'' /\ serves (block_cached t H) hs n c'') /\
  (exists fs, Table.BlockReader addr (without_cache t) options (handle_bytes h) c = (iter ← iter; Some (iter, fs, c)) /\
     Table.delete_iter c (Cleanup.destroy fs) = Some c).
Proof.
  intros Ht Hb Hs iter. split.
  - destruct (BlockReader_ok C addr serves t H hs n c options h b Ht Hb Hs) as (fs & c' & -> & Hd). exists fs, c'. split; [|done].
    subst iter. destruct (Block.NewIterator b _); [|done]. bind_simpl. by destruct (fall_off _ _).
  - exists (Cleanup.RegisterCleanup Cleanup.new Table.DeleteBlock). split; [|done]. unfold Table.BlockReader. rewrite handle_decodes by (by eapply tb_valid).
    change (ok Status_OK) with true. cbv iota. unfold Table.find_block. cbn [has_block_cache table_options without_cache].
    destruct (tb_read _ _ _ _ Ht h b options Hb) as (bc & Er). change (Table.read_block addr (without_cache t) options h) with (Table.read_block addr t options h).
    rewrite Er. bind_simpl. cbn [comparator table_options without_cache]. subst iter. destruct (Block.NewIterator b _); [|done]. bind_simpl. by destruct (fall_off _ _).
Qed.

Definition cached_options : Options :=
  MkOptions BytewiseComparator false false false (Z.shiftl 4 20) 1000 true 4096 16 kNoCompression None.

Lemma BlockReader_cache_transparent_witness :
  let ops := LRU_ops (V := Block.t) fresh in
  let block := block_bytes Options_new [(str "k", str "v")] in let file := raf_of (raw_block (H := ReferenceChecksum) 0 0 block kNoCompression) in
  exists t c c' fs it, LRU.NewLRUCache (seq 0 16) (LRU.MkLRUHandle (Block.Mk [] 0 0 false) tt None 0%nat 0%nat 0 0 0 []) 1000 (LRU.MkMemory ∅ []) = Some c /\
    table_file t = file /\ @Table.BlockReader AsIntended ReferenceChecksum (fun _ => 0) _ ops t ReadOptions_new (handle_bytes (BlockHandle.Mk 0 (Zlength block))) c = Some (Block.BlockIter it, fs, c').
Proof.
  intros ops block file. set (h := BlockHandle.Mk 0 (Zlength block)). set (b := default (Block.Mk [] 0 0 false) (Block.new block true)).
  set (t := MkTable cached_options file 1 None BlockHandle.new b). set (H := fun h' : BlockHandle.t => if bool_decide (BlockHandle.offset_ h' = 0 /\ BlockHandle.size_ h' = Zlength block) then Some b else None).
  assert (forall h' b', H h' = Some b' -> h' = h /\ b' = b) as HH.
  { intros [o z] b' E. unfold H in E. cbn in E. case_bool_decide as Ec; [|done]. destruct Ec as [-> ->]. split; [reflexivity|congruence]. }
  destruct (LRU_new_serves (seq 0 16) (LRU.MkLRUHandle (Block.Mk [] 0 0 false) tt None 0%nat 0%nat 0 0 0 []) 1000 (block_cached t H) 3) as (c & Ec & Hc); [apply NoDup_seq|reflexivity|cbn; lia|].
  destruct (BlockReader_cache_transparent AsIntended ReferenceChecksum (fun _ => 0) ops (LRU_serves (seq 0 16) (CacheRun.per_shard 1000))
    (LRU_laws fresh (fun X => is_fresh X) (seq 0 16) eq_refl (CacheRun.per_shard 1000)) t H [] 0 c ReadOptions_new h b) as [(fs & c' & E & _) _].
  - split.
    + intros h' b' options [-> ->]%HH. exists (MkBlockContents block true true). clear - options. destruct options as [[] []]; vm_compute; reflexivity.
    + intros h' b' [-> ->]%HH. vm_compute. repeat split; congruence.
    + intros h1 h2 b1 b2 [-> _]%HH [-> _]%HH _. reflexivity.
  - vm_compute. reflexivity.
  - exact Hc.
  - assert (match Block.NewIterator b (comparator (table_options t)) with Some (Block.BlockIter _) => true | _ => false end = true) as Ei by (vm_compute; reflexivity).
    destruct (Block.NewIterator b (comparator (table_options t))) as [[s| |it]|]; try discriminate Ei. exists t, c, c', fs, it. split; [exact Ec|]. split; [reflexivity|]. exact E.
Defined.
