(* ===== verification/TableCache.v ===== *)
(** db/table_cache.h and db/table_cache.cpp: the open tables, in a cache keyed by
    file number.

    Tables are used through [TableOps] (table/table.cpp; [Table_ops] is the reader
    of Table.v), random access files through the environment's
    [NewRandomAccessFile], and the cache through [CacheOps].  [bc] is the state
    that opening and reading a table changes, the block cache.  The deletion of a
    table and its file when an entry leaves the cache is not modelled. *)

From Stdlib Require Import ZArith Lia List Bool String.
From S2P Require Import Prelude Lists Coding Slice Crc32c Filename LogFile Iterators Cache CacheLaws Options Block Format Table.

(** ** What a table cache needs of tables *)

Record TableOps (T I B : Type) := MkTableOps {
  table_Open : RandomAccessFile -> Z -> B -> option (Status * option T * B);
  table_InternalGet : T -> ReadOptions -> bytes -> B -> option (Status * option (bytes * bytes) * B);
  table_NewIterator : T -> ReadOptions -> option I
}.
Arguments table_Open {T I B}.
Arguments table_InternalGet {T I B}.
Arguments table_NewIterator {T I B}.

(** What [Open] promises: a table exactly when it reports OK. *)
Class TableLaws {T I B : Type} (ops : TableOps T I B) : Prop :=
  open_table : forall file size b s t b', table_Open ops file size b = Some (s, t, b') -> (ok s = true <-> is_Some t).

(** The reader of Table.v; its iterators are those of [new_iterator]. *)
Definition Table_ops `{FallOff} `{Checksum} {K I : Type} `{!CacheOps K Block.t} (addr : BlockHandle.t -> Z) (o : Options)
    (new_iterator : Table -> ReadOptions -> option I) : TableOps Table I K :=
  MkTableOps Table I K (Table.Open addr o) (Table.InternalGet addr) new_iterator.

Record TableAndFile (T : Type) := MkTableAndFile { tf_file : RandomAccessFile; tf_table : T }.
Arguments MkTableAndFile {T}.
Arguments tf_file {T}.
Arguments tf_table {T}.

Module TableCache.
Section TableCache.
Context {T I B : Type} (ops : TableOps T I B) {K : Type} `{!CacheOps K (TableAndFile T)}.
Context (NewRandomAccessFile : bytes -> Status * RandomAccessFile) (dbname_ : bytes).

(** [cache_->Lookup] missed: the table is opened and, unless that fails, cached.
    A table and an error at once is the failed assertion; OK without a table is
    excluded by [Open] ([TableLaws]). *)
Definition open_and_insert (key : bytes) (file_number file_size : Z) (c : K) (b : B) : option (Status * option nat * K * B) :=
  let fname := TableFileName dbname_ file_number in
  let '(s, file) := NewRandomAccessFile fname in
  '(s, table, b) ← (if ok s then table_Open ops file file_size b else Some (s, None, b));
  match table with
  | None => if ok s then None else Some (s, None, c, b)
  | Some table =>
      if ok s then
        '(h, c) ← cache_Insert c key (MkTableAndFile file table) 1;
        Some (s, Some h, c, b)
      else None
  end.

Definition FindTable (file_number file_size : Z) (c : K) (b : B) : option (Status * option nat * K * B) :=
  let key := EncodeFixed64 file_number in
  '(handle, c) ← cache_Lookup (V := TableAndFile T) c key;
  match handle with
  | Some h => Some (Status_OK, Some h, c, b)
  | None => open_and_insert key file_number file_size c b
  end.

(** An error iterator, or a table's iterator with the table and the handle that
    [UnrefEntry] will release. *)
Definition NewIterator (options : ReadOptions) (file_number file_size : Z) (c : K) (b : B) : option ((EmptyIterator + I * T * nat) * K * B) :=
  '(s, handle, c, b) ← FindTable file_number file_size c b;
  if negb (ok s) then Some (inl (NewErrorIterator s), c, b)
  else
    h ← (handle : option nat);
    tf ← cache_Value (V := TableAndFile T) c h;
    result ← table_NewIterator ops (tf_table tf) options;
    Some (inr (result, tf_table tf, h), c, b).

Definition UnrefEntry (c : K) (h : nat) : option K := cache_Release (V := TableAndFile T) c h.

Definition Get (options : ReadOptions) (file_number file_size : Z) (k : bytes) (c : K) (b : B) : option (Status * option (bytes * bytes) * K * B) :=
  '(s, handle, c, b) ← FindTable file_number file_size c b;
  if ok s then
    h ← (handle : option nat);
    tf ← cache_Value (V := TableAndFile T) c h;
    '(s, saved, b) ← table_InternalGet ops (tf_table tf) options k b;
    c ← cache_Release (V := TableAndFile T) c h;
    Some (s, saved, c, b)
  else Some (s, None, c, b).

Definition Evict (file_number : Z) (c : K) : option K := cache_Erase (V := TableAndFile T) c (EncodeFixed64 file_number).

End TableCache.
End TableCache.

(** ** Lemmas *)

Section Laws.
Context {T I B : Type} (ops : TableOps T I B) {K : Type} `{!CacheOps K (TableAndFile T)}.
Context (serves : (bytes -> TableAndFile T -> Prop) -> list nat -> nat -> K -> Prop) `{!CacheLaws K (TableAndFile T) serves}.
Context (NewRandomAccessFile : bytes -> Status * RandomAccessFile) (dbname_ : bytes) (size_of : Z -> Z).
Import TableCache.

(** [tf] is what opening the file with this number yields. *)
Definition opened (num : Z) (tf : TableAndFile T) : Prop :=
  exists b b', ok (NewRandomAccessFile (TableFileName dbname_ num)).1 = true /\ tf_file tf = (NewRandomAccessFile (TableFileName dbname_ num)).2 /\
    table_Open ops (tf_file tf) (size_of num) b = Some (Status_OK, Some (tf_table tf), b').

(** Under a file's key the cache has a table opened from it. *)
Definition right_table (k : bytes) (tf : TableAndFile T) : Prop := forall num, is_u64 num -> k = EncodeFixed64 num -> opened num tf.

(** Why no table can be had: the file or the table cannot be opened. *)
Definition open_fails (num : Z) (b : B) (s : Status) (b' : B) : Prop :=
  ok s = false /\
  ((s = (NewRandomAccessFile (TableFileName dbname_ num)).1 /\ b' = b) \/
   table_Open ops (NewRandomAccessFile (TableFileName dbname_ num)).2 (size_of num) b = Some (s, None, b')).

Lemma file_key_inj a b : is_u64 a -> is_u64 b -> EncodeFixed64 a = EncodeFixed64 b -> a = b.
Proof.
  intros Ha Hb E. apply (f_equal DecodeFixed64) in E.
  rewrite <- (app_nil_r (EncodeFixed64 a)), <- (app_nil_r (EncodeFixed64 b)), !DecodeFixed64_app, !u64_small in E by done. done.
Qed.

Context `{!TableLaws ops}.

Lemma FindTable_ok num hs n c b : is_u64 num -> is_Some (table_Open ops (NewRandomAccessFile (TableFileName dbname_ num)).2 (size_of num) b) -> serves right_table hs (S (S n)) c ->
  exists s h c' b', FindTable ops NewRandomAccessFile dbname_ num (size_of num) c b = Some (s, h, c', b') /\
    match h with
    | Some a => s = Status_OK /\ serves right_table (a :: hs) n c' /\ exists tf, cache_Value c' a = Some tf /\ opened num tf
    | None => serves right_table hs n c' /\ open_fails num b s b'
    end.
Proof.
  intros Hn Hto Hc. unfold FindTable. destruct (lookup_serves _ _ _ _ (EncodeFixed64 num) Hc) as (r & c1 & -> & Hr). bind_simpl. destruct r as [a|].
  - destruct Hr as [Hs (tf & Hv & HP)]. exists Status_OK, (Some a), c1, b. split; [done|]. split; [done|]. split; [by apply serves_less|]. exists tf. split; [done|]. by apply HP.
  - unfold open_and_insert. destruct (NewRandomAccessFile (TableFileName dbname_ num)) as [s0 file] eqn:En. cbn [snd] in Hto. destruct (ok s0) eqn:E0.
    + destruct Hto as [[[s1 t] b1] Eo]. rewrite Eo. bind_simpl. pose proof (open_table _ _ _ _ _ _ Eo) as Ht.
      destruct t as [t|].
      * assert (ok s1 = true) as E1 by (apply Ht; eauto). rewrite E1. apply ok_is_OK in E1 as ->.
        destruct (insert_serves _ _ _ _ (EncodeFixed64 num) (MkTableAndFile file t) 1 Hr) as (a & c2 & E & Hs & Hv).
        { intros num' Hn' Ek. apply file_key_inj in Ek as <-; [|done..]. exists b, b1. rewrite En. done. }
        rewrite E. bind_simpl. do 4 eexists. split; [done|]. split; [done|]. split; [done|]. exists (MkTableAndFile file t). split; [done|]. exists b, b1. rewrite En. done.
      * destruct (ok s1) eqn:E1; [destruct Ht as [Ht _]; destruct (Ht eq_refl); congruence|]. do 4 eexists. split; [done|]. split; [by apply serves_less|].
        split; [done|]. right. by rewrite En.
    + bind_simpl. rewrite E0. do 4 eexists. split; [done|]. split; [by apply serves_less|]. split; [done|]. left. by rewrite En.
Qed.

End Laws.

(** The reader of Table.v keeps the promise. *)
#[export] Instance Table_ops_laws `{FallOff} `{Checksum} {K I : Type} `{!CacheOps K Block.t} addr o (new_iterator : Table -> ReadOptions -> option I) :
  TableLaws (B := K) (Table_ops addr o new_iterator).
Proof.
  intros file size c s t c'. cbn [table_Open Table_ops]. unfold Table.Open. destruct (_ <? _); [by intros [= <- <- <-]; split; [|intros []]|].
  destruct (Read file _ _) as [[s0 inp] inb]. destruct (ok s0) eqn:E0; cbn [negb]; [|intros [= <- <- <-]; rewrite E0; by split; [|intros []]].
  destruct (Footer.DecodeFrom _ inp) as [[[s1 f] rest]|]; [|done]. bind_simpl.
  destruct (ok s1) eqn:E1; cbn [negb]; [|intros [= <- <- <-]; rewrite E1; by split; [|intros []]].
  destruct (ReadBlock file _ _ _) as [[s2 bc]|]; [|done]. bind_simpl. destruct (ok s2) eqn:E2; [|intros [= <- <- <-]; rewrite E2; by split; [|intros []]].
  destruct (Block.new _ _); [|done]. bind_simpl. destruct (if has_block_cache o then _ else _). intros [= <- <- <-]. rewrite E2. by split.
Qed.

(** ** Properties *)

(** C36: A read through the table cache is a read of a table opened from the named
    file, whether the table was cached or not: it does what [InternalGet] of such a
    table does, or returns the error with which the file could not be opened
    (nothing is cached then), and it gives back the reference it took.  After
    [Evict] nothing is assumed of the file's table: the number can be used for
    another file. *)
Theorem TableCache_Get_correct {T I B K : Type} (ops : TableOps T I B) (CO : CacheOps K (TableAndFile T))
    (serves : (bytes -> TableAndFile T -> Prop) -> list nat -> nat -> K -> Prop) (CL : CacheLaws K (TableAndFile T) serves) (TL : TableLaws ops)
    (NewRandomAccessFile : bytes -> Status * RandomAccessFile) (dbname : bytes) (size_of : Z -> Z)
    (options : ReadOptions) (num : Z) (k : bytes) (hs : list nat) (n : nat) (c : K) (b : B) :
  is_u64 num -> is_Some (table_Open ops (NewRandomAccessFile (TableFileName dbname num)).2 (size_of num) b) ->
  serves (right_table ops NewRandomAccessFile dbname size_of) hs (S (S (S n))) c ->
  (exists c', serves (right_table ops NewRandomAccessFile dbname size_of) hs n c' /\
     let get := TableCache.Get ops NewRandomAccessFile dbname options num (size_of num) k c b in
     ((exists tf b1, opened ops NewRandomAccessFile dbname size_of num tf /\
         get = ('(s, saved, b') ← table_InternalGet ops (tf_table tf) options k b1; Some (s, saved, c', b'))) \/
      (exists s b', get = Some (s, None, c', b') /\ open_fails ops NewRandomAccessFile dbname size_of num b s b'))) /\
  (forall open' size_of', (forall num', num' <> num -> size_of' num' = size_of num' /\ open' (TableFileName dbname num') = NewRandomAccessFile (TableFileName dbname num')) ->
     exists c', TableCache.Evict num c = Some c' /\ serves (right_table ops open' dbname size_of') hs (S (S n)) c').
Proof.
  intros Hn Hto Hc. split.
  - destruct (FindTable_ok ops serves NewRandomAccessFile dbname size_of num hs (S n) c b Hn Hto Hc) as (s & h & c' & b' & E & Hh).
    unfold TableCache.Get. rewrite E. bind_simpl. destruct h as [a|].
    + destruct Hh as (-> & Hs & tf & Hv & Ho). destruct (release_serves _ _ _ _ _ Hs) as (c2 & Er & Hs2). exists c2. split; [done|]. left. exists tf, b'. split; [done|].
      change (ok Status_OK) with true. cbv iota. bind_simpl. rewrite Hv. bind_simpl. destruct (table_InternalGet _ _ _ _ _) as [[[s1 saved] b1]|]; [|done]. bind_simpl. by rewrite Er.
    + destruct Hh as [Hs [Hok Hf]]. rewrite Hok. exists c'. split; [by apply serves_less|]. right. do 2 eexists. split; [done|]. by split.
  - intros open' size_of' Heq. unfold TableCache.Evict. apply (erase_serves (right_table ops NewRandomAccessFile dbname size_of)); [done|].
    intros k' tf Hk HP num' Hn' Ek. assert (num' <> num) as Hne by congruence. destruct (Heq num' Hne) as [E1 E2]. specialize (HP num' Hn' Ek).
    unfold opened in *. by rewrite E1, E2.
Qed.

(** A table whose every key has the file's first bytes as its value. *)
Definition head_tables : TableOps bytes unit unit :=
  MkTableOps bytes unit unit (fun file size _ => Some (Status_OK, Some (Read file 0 size).1.2, tt)) (fun t _ k _ => Some (Status_OK, Some (k, t), tt)) (fun _ _ => Some tt).

Lemma TableCache_Get_correct_witness :
  let ops := LRU_ops (V := TableAndFile bytes) fresh in let open := fun name : bytes => (Status_OK, raf_of name) in
  exists c c', LRU.NewLRUCache (seq 0 16) (LRU.MkLRUHandle (MkTableAndFile (raf_of []) []) tt None 0%nat 0%nat 0 0 0 []) 100 (LRU.MkMemory ∅ []) = Some c /\
    TableCache.Get head_tables open (str "d") ReadOptions_new 7 5 (str "k") c tt = Some (Status_OK, Some (str "k", str "d/000"), c', tt).
Proof.
  intros ops open. assert (TableLaws head_tables) as TL. { intros file size b s t b' E. injection E as <- <- <-. split; [intros _; eexists; reflexivity|reflexivity]. }
  destruct (LRU_new_serves (seq 0 16) (LRU.MkLRUHandle (MkTableAndFile (raf_of []) []) tt None 0%nat 0%nat 0 0 0 []) 100 (right_table head_tables open (str "d") (fun _ => 5)) 3) as (c & Ec & Hc);
    [apply NoDup_seq|reflexivity|cbn; lia|].
  destruct (TableCache_Get_correct head_tables ops (LRU_serves (seq 0 16) (CacheRun.per_shard 100)) (LRU_laws fresh (fun X => is_fresh X) (seq 0 16) eq_refl (CacheRun.per_shard 100)) TL
    open (str "d") (fun _ => 5) ReadOptions_new 7 (str "k") [] 0 c tt) as [(c' & _ & Hg) _].
  - split; [lia|reflexivity].
  - eexists. reflexivity.
  - exact Hc.
  - destruct Hg as [(tf & b1 & Ho & E)|(s & b' & _ & Hf & [[-> _]|Hf'])]; [|discriminate Hf|discriminate Hf'].
    exists c, c'. split; [exact Ec|]. rewrite E. destruct Ho as (b2 & b3 & _ & Ef & Eo). rewrite Ef in Eo. injection Eo as <- _. reflexivity.
Defined.
