(* ===== verification/DbImpl.v ===== *)
(** db/db_impl.{h,cpp}, the write path: the state of a database, the queue of
    writers, [BuildBatchGroup], [MakeRoomForWrite] and [Write], and
    [MaybeScheduleCompaction].

    Any number of threads call [Write].  A thread is cut into segments at the
    points where it gives up [mutex_]: while it waits on a condition variable,
    sleeps, or writes the log and the memtable.  Each segment is an executable
    function on the whole system, [run]; [step] interleaves the segments of all
    threads, new calls, and what the other threads of the database do ([others]).
    A waiting thread may also wake up without a signal.  [None] is a failed
    assertion or a dereferenced pointer that is not valid.

    Left out: statistics, the info log, and the atomic stores' memory ordering. *)

From Stdlib Require Import ZArith Lia List Bool String.
From S2P Require Import Prelude Lists Coding Slice Comparator Crc32c Bloom Filename Env DbFormat LogFile.
From S2P Require Import Arena SkipList MemTable WriteBatch VersionEdit Version VersionSet Manifest.
Import WriteBatchInternal.

Module DBImpl.

(** [DBImpl::Writer]; [cv] is in the state of the threads. *)
Record Writer := MkWriter { w_status : Status; w_batch : option WriteBatch; w_sync : bool; w_done : bool }.

(** The members that writes use; a writer in the queue is known by its address. *)
Record t := Mk {
  mem_ : MemTable;
  imm_ : option MemTable;
  has_imm_ : bool;
  log_ : LogFile.Writer bytes;        (* on the file [logfile_], named by [dest_] *)
  logfile_number_ : Z;
  writers_ : list nat;
  tmp_batch_ : WriteBatch;
  shutting_down_ : bool;
  bg_compaction_scheduled_ : bool;
  manual_compaction_ : bool;          (* != NULL *)
  bg_error_ : Status;
  versions_ : VersionSet
}.

Definition with_writers (d : t) (q : list nat) : t :=
  Mk (mem_ d) (imm_ d) (has_imm_ d) (log_ d) (logfile_number_ d) q (tmp_batch_ d) (shutting_down_ d)
    (bg_compaction_scheduled_ d) (manual_compaction_ d) (bg_error_ d) (versions_ d).

Definition with_tmp_batch (d : t) (b : WriteBatch) : t :=
  Mk (mem_ d) (imm_ d) (has_imm_ d) (log_ d) (logfile_number_ d) (writers_ d) b (shutting_down_ d)
    (bg_compaction_scheduled_ d) (manual_compaction_ d) (bg_error_ d) (versions_ d).

Definition with_versions (d : t) (vs : VersionSet) : t :=
  Mk (mem_ d) (imm_ d) (has_imm_ d) (log_ d) (logfile_number_ d) (writers_ d) (tmp_batch_ d) (shutting_down_ d)
    (bg_compaction_scheduled_ d) (manual_compaction_ d) (bg_error_ d) vs.

Definition with_log (d : t) (log : LogFile.Writer bytes) : t :=
  Mk (mem_ d) (imm_ d) (has_imm_ d) log (logfile_number_ d) (writers_ d) (tmp_batch_ d) (shutting_down_ d)
    (bg_compaction_scheduled_ d) (manual_compaction_ d) (bg_error_ d) (versions_ d).

Definition with_mem (d : t) (mem : MemTable) : t :=
  Mk mem (imm_ d) (has_imm_ d) (log_ d) (logfile_number_ d) (writers_ d) (tmp_batch_ d) (shutting_down_ d)
    (bg_compaction_scheduled_ d) (manual_compaction_ d) (bg_error_ d) (versions_ d).

Definition with_scheduled (d : t) (b : bool) : t :=
  Mk (mem_ d) (imm_ d) (has_imm_ d) (log_ d) (logfile_number_ d) (writers_ d) (tmp_batch_ d) (shutting_down_ d)
    b (manual_compaction_ d) (bg_error_ d) (versions_ d).

(** [env_->Schedule] starts the background thread some time after
    [bg_compaction_scheduled_] is set. *)
Definition MaybeScheduleCompaction (d : t) : t :=
  if bg_compaction_scheduled_ d then d
  else if shutting_down_ d then d
  else if match imm_ d with None => true | Some _ => false end && negb (manual_compaction_ d) && negb (NeedsCompaction (versions_ d)) then d
  else with_scheduled d true.

(** ** BuildBatchGroup *)

(** The locals of the loop: [size], whether [result] is [tmp_batch_], its
    contents, and [*last_writer]. *)
Record group_state := MkGroup { g_size : Z; g_in_tmp : bool; g_tmp : WriteBatch; g_last : nat }.

Fixpoint BuildBatchGroup_loop (ws : gmap nat Writer) (first_sync : bool) (first_batch : WriteBatch) (max_size : Z)
    (g : group_state) (rest : list nat) : option group_state :=
  match rest with
  | [] => Some g
  | id :: rest =>
      w ← ws !! id;
      if w_sync w && negb first_sync then Some g
      else
        match w_batch w with
        | Some b =>
            let size := u64 (g_size g + ByteSize b) in
            if size >? max_size then Some g
            else
              tmp ← (if g_in_tmp g then Some (g_tmp g)
                     else if negb (Count (g_tmp g) =? 0) then None else Append (g_tmp g) first_batch);
              tmp ← Append tmp b;
              BuildBatchGroup_loop ws first_sync first_batch max_size (MkGroup size true tmp id) rest
        | None => BuildBatchGroup_loop ws first_sync first_batch max_size (MkGroup (g_size g) (g_in_tmp g) (g_tmp g) id) rest
        end
  end.

(** The result is in [tmp_batch_] ([g_in_tmp]) or is the first writer's batch. *)
Definition BuildBatchGroup (d : t) (ws : gmap nat Writer) : option group_state :=
  first ← head (writers_ d);
  w ← ws !! first;
  result ← w_batch w;
  let size := ByteSize result in
  let max_size := if size <=? Z.shiftl 128 10 then u64 (size + Z.shiftl 128 10) else Z.shiftl 1 20 in
  BuildBatchGroup_loop ws (w_sync w) result max_size (MkGroup size false (tmp_batch_ d) first) (tail (writers_ d)).

(** ** MakeRoomForWrite *)

(** How a pass of its loop ends: it leaves the loop, sleeps for a millisecond,
    waits on [bg_cv_], or goes round again. *)
Inductive room := RoomBreak (s : Status) | RoomDelay | RoomWait | RoomAgain.

Section DB.
Context {St : Type} (env : EnvOps St) `{C : Checksum} (ucmp : Comparator) `{HA : HeapAlloc} (capacity : nat -> Z).
Context (dbname_ : bytes) (write_buffer_size : Z).

(** The memtable becomes [imm_]; a new log and a new memtable take its place. *)
Definition switch_memtable (d : t) (lfile : bytes) (new_log_number t_addr : Z) : t :=
  Mk (Ref (MemTable_new)) (Some (mem_ d)) true (Writer_new t_addr lfile) new_log_number (writers_ d) (tmp_batch_ d)
    (shutting_down_ d) (bg_compaction_scheduled_ d) (manual_compaction_ d) (bg_error_ d) (versions_ d).

(** One pass, with the new [force] and [allow_delay]; [t_addr] is the address of a
    local of the new log writer. *)
Definition MakeRoomForWrite_pass (force allow_delay : bool) (d : t) (t_addr : Z) (st : St)
    : option (room * bool * bool * t * St) :=
  match writers_ d with [] => None | _ =>
  if negb (ok (bg_error_ d)) then Some (RoomBreak (bg_error_ d), force, allow_delay, d, st)
  else if allow_delay && (config.kL0_SlowdownWritesTrigger <=? NumLevelFiles (versions_ d) 0) then
    Some (RoomDelay, force, false, d, st)
  else if negb force && (ApproximateMemoryUsage capacity (mem_ d) <=? write_buffer_size) then
    Some (RoomBreak Status_OK, force, allow_delay, d, st)
  else if match imm_ d with Some _ => true | None => false end then Some (RoomWait, force, allow_delay, d, st)
  else if config.kL0_StopWritesTrigger <=? NumLevelFiles (versions_ d) 0 then Some (RoomWait, force, allow_delay, d, st)
  else if negb (prev_log_number_ (versions_ d) =? 0) then None
  else
    let '(new_log_number, vs) := NewFileNumber (versions_ d) in
    let lfile := LogFileName dbname_ new_log_number in
    let '(s, st) := NewWritableFile env st lfile in
    if negb (ok s) then Some (RoomBreak s, force, allow_delay, with_versions d (ReuseFileNumber vs new_log_number), st)
    else Some (RoomAgain, false, allow_delay, switch_memtable (with_versions d vs) lfile new_log_number t_addr, st)
  end.

(** ** The threads *)

Inductive thread :=
| Asleep                                         (* in [w.cv.Wait()] *)
| Woken                                          (* signalled *)
| MakingRoom (force allow_delay : bool)          (* at a pass of [MakeRoomForWrite] *)
| WaitingBg (force allow_delay : bool)           (* in its [bg_cv_.Wait()] *)
| Applying (in_tmp : bool) (last_sequence : Z) (last_writer : nat)      (* without the mutex *)
| Finishing (status : Status) (in_tmp : bool) (last_sequence : Z) (last_writer : nat)   (* at [mutex_.Lock()] *)
| Returned (status : Status).

Record sys := MkSys { db : t; ws : gmap nat Writer; threads : gmap nat thread; files : St }.

(** What a segment does that a client can tell. *)
Inductive event :=
| Called (id : nat) (updates : option (list update))
| Committed (sequence : Z) (ids : list nat)
| Switched
| Silent.

Definition set_thread (s : sys) (id : nat) (th : thread) : sys := MkSys (db s) (ws s) (<[id := th]> (threads s)) (files s).

Definition set_db (s : sys) (d : t) : sys := MkSys d (ws s) (threads s) (files s).

(** [cv.Signal()] of a writer *)
Definition signal (id : nat) (ths : gmap nat thread) : gmap nat thread :=
  match ths !! id with Some Asleep => <[id := Woken]> ths | _ => ths end.

(** [return]: the [Writer] goes out of scope. *)
Definition return_from (s : sys) (id : nat) (status : Status) : sys :=
  MkSys (db s) (delete id (ws s)) (<[id := Returned status]> (threads s)) (files s).

(** ** Write *)

(** The loop that waits for its turn, and [if (w.done) return w.status]. *)
Definition Write_wait (s : sys) (id : nat) : option sys :=
  w ← ws s !! id;
  if w_done w then Some (return_from s id (w_status w))
  else
    front ← head (writers_ (db s));
    if (front =? id)%nat then
      let force := match w_batch w with None => true | Some _ => false end in
      Some (set_thread s id (MakingRoom force (negb force)))
    else Some (set_thread s id Asleep).

(** From the call to the first wait. *)
Definition Write_call (s : sys) (id : nat) (my_batch : option WriteBatch) (sync : bool) : option sys :=
  Write_wait (MkSys (with_writers (db s) (writers_ (db s) ++ [id])) (<[id := MkWriter Status_OK my_batch sync false]> (ws s))
    (threads s) (files s)) id.

(** The loop that takes the group out of the queue and tells its writers. *)
Fixpoint pop_ready (id last_writer : nat) (status : Status) (q : list nat) (ws : gmap nat Writer) (ths : gmap nat thread)
    : option (list nat * gmap nat Writer * gmap nat thread) :=
  match q with
  | [] => None
  | ready :: q =>
      '(ws, ths) ← (if (ready =? id)%nat then Some (ws, ths)
                    else w ← ws !! ready; Some (<[ready := MkWriter status (w_batch w) (w_sync w) true]> ws, signal ready ths));
      if (ready =? last_writer)%nat then Some (q, ws, ths) else pop_ready id last_writer status q ws ths
  end.

(** The end of [Write]: the group leaves the queue, the new head is signalled. *)
Definition Write_finish (s : sys) (id last_writer : nat) (status : Status) : option sys :=
  '(q, ws, ths) ← pop_ready id last_writer status (writers_ (db s)) (ws s) (threads s);
  let ths := match q with [] => ths | front :: _ => signal front ths end in
  Some (return_from (MkSys (with_writers (db s) q) ws ths (files s)) id status).

(** The batch that [updates] points to. *)
Definition updates_in (s : sys) (id : nat) (in_tmp : bool) : option WriteBatch :=
  if in_tmp then Some (tmp_batch_ (db s)) else w ← ws s !! id; w_batch w.

Definition store_updates (s : sys) (id : nat) (in_tmp : bool) (b : WriteBatch) : option sys :=
  if in_tmp then Some (set_db s (with_tmp_batch (db s) b))
  else w ← ws s !! id; Some (MkSys (db s) (<[id := MkWriter (w_status w) (Some b) (w_sync w) (w_done w)]> (ws s)) (threads s) (files s)).

(** From the end of [MakeRoomForWrite] to [mutex_.Unlock()], or to the end. *)
Definition Write_group (s : sys) (id : nat) (status : Status) : option sys :=
  w ← ws s !! id;
  let last_sequence := last_sequence_ (versions_ (db s)) in
  match w_batch w with
  | Some _ =>
      if ok status then
        g ← BuildBatchGroup (db s) (ws s);
        let s := set_db s (with_tmp_batch (db s) (g_tmp g)) in
        updates ← updates_in s id (g_in_tmp g);
        s ← store_updates s id (g_in_tmp g) (SetSequence updates (u64 (last_sequence + 1)));
        updates ← updates_in s id (g_in_tmp g);
        Some (set_thread s id (Applying (g_in_tmp g) (u64 (last_sequence + Count updates)) (g_last g)))
      else Write_finish s id id status
  | None => Write_finish s id id status
  end.

(** A pass of [MakeRoomForWrite], and what follows when it leaves the loop. *)
Definition Write_room (s : sys) (id : nat) (force allow_delay : bool) (t_addr : Z) : option (event * sys) :=
  '(r, force, allow_delay, d, st) ← MakeRoomForWrite_pass force allow_delay (db s) t_addr (files s);
  let s := MkSys d (ws s) (threads s) st in
  match r with
  | RoomBreak status => s ← Write_group s id status; Some (Silent, s)
  | RoomDelay => Some (Silent, set_thread s id (MakingRoom force allow_delay))
  | RoomWait => Some (Silent, set_thread s id (WaitingBg force allow_delay))
  | RoomAgain => Some (Switched, set_thread s id (MakingRoom force allow_delay))
  end.

(** The writers in front of [last_writer], itself included. *)
Fixpoint group (last_writer : nat) (q : list nat) : list nat :=
  match q with [] => [] | x :: q => x :: if (x =? last_writer)%nat then [] else group last_writer q end.

(** Without the mutex: the log, then the memtable.  [addr] is the address of the
    batch's bytes. *)
Definition Write_apply (s : sys) (id : nat) (in_tmp : bool) (last_sequence : Z) (last_writer : nat) (addr : Z) : option (event * sys) :=
  w ← ws s !! id;
  updates ← updates_in s id in_tmp;
  '(status, log, st) ← log_AddRecord env (files s) (log_ (db s)) addr (Contents updates);
  let '(status, st) := if ok status && w_sync w then file_Sync env st (dest_ log) else (status, st) in
  '(status, mem) ← (if ok status then InsertInto ucmp updates (mem_ (db s)) else Some (status, mem_ (db s)));
  Some (if ok status then Committed (Sequence updates) (group last_writer (writers_ (db s))) else Silent,
        MkSys (with_mem (with_log (db s) log) mem) (ws s) (<[id := Finishing status in_tmp last_sequence last_writer]> (threads s)) st).

(** [VersionSet::SetLastSequence]; [None]: the assertion fails. *)
Definition SetLastSequence (vs : VersionSet) (s : Z) : option VersionSet :=
  if s <? last_sequence_ vs then None
  else Some (MkVersionSet (next_file_number_ vs) (manifest_file_number_ vs) s (log_number_ vs) (prev_log_number_ vs)
               (compact_pointer_ vs) (current_ vs)).

(** From [mutex_.Lock()] to the end. *)
Definition Write_end (s : sys) (id : nat) (status : Status) (in_tmp : bool) (last_sequence : Z) (last_writer : nat) : option sys :=
  let d := if in_tmp then with_tmp_batch (db s) WriteBatch_Clear else db s in
  vs ← SetLastSequence (versions_ d) last_sequence;
  Write_finish (set_db s (with_versions d vs)) id last_writer status.

(** The next segment of a thread. *)
Definition run (s : sys) (id : nat) (addr : Z) : option (event * sys) :=
  th ← threads s !! id;
  match th with
  | Asleep | Woken => s ← Write_wait s id; Some (Silent, s)
  | MakingRoom force allow_delay | WaitingBg force allow_delay => Write_room s id force allow_delay addr
  | Applying in_tmp last_sequence last_writer => Write_apply s id in_tmp last_sequence last_writer addr
  | Finishing status in_tmp last_sequence last_writer => s ← Write_end s id status in_tmp last_sequence last_writer; Some (Silent, s)
  | Returned _ => None
  end.

End DB.
End DBImpl.
