(* ===== verification/DbWrite.v ===== *)
(** Concurrent writes: every interleaving of calls of [Write] keeps the queue, the
    memtable and the log in order.

    [step] is one segment of a thread ([run]), a new call, or something the rest of
    the database does meanwhile ([others]); [reach] is the states reachable from
    one, with the events on the way.  The invariant [inv] is proved over [reach]
    by induction. *)

From Stdlib Require Import ZArith Lia List Bool String Sorting.Sorted.
From S2P Require Import Prelude Lists Coding Slice Comparator Crc32c Bloom Filename Env DbFormat LogFile.
From S2P Require Import Arena SkipList MemTable WriteBatch VersionEdit Version VersionSet Manifest DbImpl.
Import WriteBatchInternal DBImpl.

(** ** What happened *)

(** The calls, in the order in which they entered the queue. *)
Definition arrivals (tr : list event) : list (nat * option (list update)) :=
  omap (fun e => match e with Called id us => Some (id, us) | _ => None end) tr.

Definition asked_by (a : list (nat * option (list update))) (id : nat) : list update :=
  match List.find (fun p => (p.1 =? id)%nat) a with Some (_, Some us) => us | _ => [] end.

Definition has_batch (a : list (nat * option (list update))) (id : nat) : bool :=
  match List.find (fun p => (p.1 =? id)%nat) a with Some (_, Some _) => true | _ => false end.

Definition asked (a : list (nat * option (list update))) (ids : list nat) : list update := concat (map (asked_by a) ids).

(** The groups committed so far, and since the last switch of memtables. *)
Definition commits (tr : list event) : list (Z * list nat) :=
  omap (fun e => match e with Committed s ids => Some (s, ids) | _ => None end) tr.

Definition commit_entries (a : list (nat * option (list update))) (cs : list (Z * list nat)) : list mem_entry :=
  concat (map (fun c => numbered c.1 (asked a c.2)) cs).

Definition commit_ids (cs : list (Z * list nat)) : list nat := concat (map snd cs).

Section Write.
Context {St : Type} (env : EnvOps St) (contents : St -> bytes -> option bytes) (quiet : St -> Prop).
Context `{C : Checksum} (ucmp : Comparator) `{HA : HeapAlloc} (capacity : nat -> Z) (dbname : bytes) (write_buffer_size : Z).
Abbreviation sys := (sys (St := St)).
Abbreviation run := (run env ucmp capacity dbname write_buffer_size).

(** ** What else happens *)

(** Readers and the background thread leave the write path alone: the queue, the
    log and the memtable's contents stay, [imm_] may be dropped once it is in a
    table, and no log that the versions still need is touched. *)
Record others (s s' : sys) : Prop := {
  o_ws : ws s' = ws s;
  o_threads : threads s' = threads s;
  o_writers : writers_ (db s') = writers_ (db s);
  o_tmp : tmp_batch_ (db s') = tmp_batch_ (db s);
  o_mem : table_ (mem_ (db s')) = table_ (mem_ (db s));
  o_log : log_ (db s') = log_ (db s);
  o_logfile : logfile_number_ (db s') = logfile_number_ (db s);
  o_sequence : last_sequence_ (versions_ (db s')) = last_sequence_ (versions_ (db s));
  o_prev : prev_log_number_ (versions_ (db s')) = prev_log_number_ (versions_ (db s));
  o_next : next_file_number_ (versions_ (db s)) <= next_file_number_ (versions_ (db s')) < 2 ^ 64;
  o_imm : (table_ <$> imm_ (db s') = table_ <$> imm_ (db s) /\ log_number_ (versions_ (db s')) = log_number_ (versions_ (db s))) \/
          (imm_ (db s') = None /\ log_number_ (versions_ (db s')) = logfile_number_ (db s));
  o_logs : forall n, log_number_ (versions_ (db s')) <= n < next_file_number_ (versions_ (db s)) ->
    contents (files s') (LogFileName dbname n) = contents (files s) (LogFileName dbname n);
  o_quiet : quiet (files s) -> quiet (files s')
}.

(** A call brings a new writer, whose batch fits: the sequence numbers, and the
    count of a group, have room for all updates in the queue. *)
Record call_fits (tr : list event) (s : sys) (id : nat) (us : option (list update)) : Prop := {
  cf_new : threads s !! id = None;
  cf_fits : Forall update_fits (default [] us);
  cf_sequence : last_sequence_ (versions_ (db s)) + Zlength (asked (arrivals tr) (writers_ (db s)) ++ default [] us) < kMaxSequenceNumber;
  cf_count : Zlength (asked (arrivals tr) (writers_ (db s)) ++ default [] us) < 2 ^ 31
}.

(** File numbers do not run out. *)
Definition numbers_left (s : sys) : Prop := next_file_number_ (versions_ (db s)) + 1 < 2 ^ 64.

Inductive step (tr : list event) (s : sys) : event -> sys -> Prop :=
| step_call id us sync s' : call_fits tr s id us -> Write_call s id (build <$> us) sync = Some s' -> step tr s (Called id us) s'
| step_run id addr e s' : numbers_left s -> run s id addr = Some (e, s') -> step tr s e s'
| step_others s' : others s s' -> step tr s Silent s'.

Inductive reach (s0 : sys) : list event -> sys -> Prop :=
| reach_here : reach s0 [] s0
| reach_step tr s e s' : reach s0 tr s -> step tr s e s' -> reach s0 (tr ++ [e]) s'.

(** A database that was just opened. *)
Record opened (s : sys) : Prop := {
  op_queue : writers_ (db s) = [] /\ tmp_batch_ (db s) = WriteBatch_new /\ ws s = ∅ /\ threads s = ∅;
  op_mem : mem_rep ucmp (mem_ (db s)) [] /\ imm_ (db s) = None;
  op_numbers : 0 <= last_sequence_ (versions_ (db s)) < kMaxSequenceNumber /\ prev_log_number_ (versions_ (db s)) = 0 /\
    0 <= logfile_number_ (db s) < next_file_number_ (versions_ (db s)) /\ log_number_ (versions_ (db s)) <= logfile_number_ (db s) /\
    next_file_number_ (versions_ (db s)) < 2 ^ 64;
  op_log : exists t_addr, log_ (db s) = Writer_new t_addr (LogFileName dbname (logfile_number_ (db s)));
  op_file : contents (files s) (LogFileName dbname (logfile_number_ (db s))) = Some []
}.

(** ** The invariant *)

(** The file holds the log of these groups. *)
Definition log_of (a : list (nat * option (list update))) (cs : list (Z * list nat)) (recs : list (Z * bytes)) : Prop :=
  map snd recs = map (fun c => batch_bytes c.1 (asked a c.2)) cs.

Definition file_logs (a : list (nat * option (list update))) (cs : list (Z * list nat)) (st : St) (name : bytes) : Prop :=
  exists t_addr recs out b, log_of a cs recs /\ written t_addr recs out b /\ contents st name = Some out.

(** [log_] writes the log of these groups. *)
Definition writer_logs (a : list (nat * option (list update))) (cs : list (Z * list nat)) (st : St) (log : LogFile.Writer bytes) : Prop :=
  exists t_addr recs, log_of a cs recs /\ descriptor_holds contents t_addr recs log st.

(** The queue: the head runs or has been woken, the others wait. *)
Record queue_ok (s : sys) : Prop := {
  q_nodup : NoDup (writers_ (db s));
  q_in : forall id, id ∈ writers_ (db s) -> exists w, ws s !! id = Some w /\ w_done w = false;
  q_tail : forall id, id ∈ tail (writers_ (db s)) -> threads s !! id = Some Asleep \/ threads s !! id = Some Woken;
  q_head : forall id, head (writers_ (db s)) = Some id -> exists th, threads s !! id = Some th /\ th <> Asleep /\ (forall st, th <> Returned st);
  q_out : forall id th, threads s !! id = Some th -> id ∉ writers_ (db s) ->
    (th = Woken /\ exists w, ws s !! id = Some w /\ w_done w = true) \/ (exists st, th = Returned st /\ ws s !! id = None);
  q_ws : forall id, is_Some (ws s !! id) -> is_Some (threads s !! id)
}.

(** The calls and the batches that the writers point to. *)
Record calls_ok (a : list (nat * option (list update))) (s : sys) : Prop := {
  c_nodup : NoDup (map fst a);
  c_suffix : exists pre, map fst a = pre ++ writers_ (db s);
  c_threads : forall id, is_Some (threads s !! id) <-> id ∈ map fst a;
  c_fits : forall id, Forall update_fits (asked_by a id);
  c_batch : forall id w, ws s !! id = Some w -> match w_batch w with
    | None => has_batch a id = false
    | Some b => has_batch a id = true /\ exists q, b = batch_bytes q (asked_by a id)
    end
}.

Definition sequence_of (s : sys) : Z := last_sequence_ (versions_ (db s)).

Record numbers_ok (a : list (nat * option (list update))) (s : sys) : Prop := {
  n_sequence : 0 <= sequence_of s;
  n_room : sequence_of s + Zlength (asked a (writers_ (db s))) < kMaxSequenceNumber;
  n_count : Zlength (asked a (writers_ (db s))) < 2 ^ 31;
  n_prev : prev_log_number_ (versions_ (db s)) = 0;
  n_logfile : 0 <= logfile_number_ (db s) < next_file_number_ (versions_ (db s));
  n_next : next_file_number_ (versions_ (db s)) < 2 ^ 64;
  n_log : log_number_ (versions_ (db s)) <= logfile_number_ (db s);
  n_name : dest_ (log_ (db s)) = LogFileName dbname (logfile_number_ (db s));
  n_writable : writable (log_ (db s))
}.

(** The thread at the head of the queue. *)
Definition leader (s : sys) : option (nat * thread) := id ← head (writers_ (db s)); th ← threads s !! id; Some (id, th).

(** The group the leader has committed but not yet taken out of the queue. *)
Definition in_flight (s : sys) : list nat :=
  match leader s with Some (_, Finishing st _ _ last) => if ok st then group last (writers_ (db s)) else [] | _ => [] end.

(** Sequence numbers up to this one are used. *)
Definition used (s : sys) : Z := match leader s with Some (_, Finishing _ _ ls _) => ls | _ => sequence_of s end.

Definition phase_ok (a : list (nat * option (list update))) (s : sys) : Prop :=
  let tmp := tmp_batch_ (db s) in let q := writers_ (db s) in
  let grouped id in_tmp ls last :=
    has_batch a id = true /\ last ∈ q /\ ls = sequence_of s + Zlength (asked a (group last q)) /\ (in_tmp = false -> tmp = WriteBatch_new) in
  match leader s with
  | Some (id, Applying in_tmp ls last) =>
      grouped id in_tmp ls last /\ updates_in s id in_tmp = Some (batch_bytes (sequence_of s + 1) (asked a (group last q)))
  | Some (id, Finishing _ in_tmp ls last) => grouped id in_tmp ls last
  | _ => tmp = WriteBatch_new
  end.

(** A finished call was committed if and only if it reports OK. *)
Definition answered (a : list (nat * option (list update))) (ids : list nat) (id : nat) (st : Status) : Prop :=
  (has_batch a id = true -> ok st = true -> id ∈ ids) /\ (ok st = false -> id ∉ ids).

Record results_ok (a : list (nat * option (list update))) (cs : list (Z * list nat)) (s : sys) : Prop := {
  r_order : exists pre c, map fst a = pre ++ writers_ (db s) /\ commit_ids cs = c ++ in_flight s /\ c `sublist_of` pre;
  r_done : forall id w, ws s !! id = Some w -> w_done w = true -> answered a (commit_ids cs) id (w_status w);
  r_returned : forall id st, threads s !! id = Some (Returned st) -> answered a (commit_ids cs) id st
}.

(** The memtables hold the groups committed since the last switch, and before it;
    when nothing fails ([D]) so do their logs. *)
Definition memtables_ok (D : Prop) (a : list (nat * option (list update))) (cs : list (Z * list nat)) (s : sys) : Prop :=
  exists old imc cur, cs = old ++ imc ++ cur /\ mem_rep ucmp (mem_ (db s)) (commit_entries a cur) /\
    match imm_ (db s) with Some m => mem_rep ucmp m (commit_entries a imc) | None => imc = [] end /\
    (D -> quiet (files s) /\ writer_logs a cur (files s) (log_ (db s)) /\
      match imm_ (db s) with
      | Some _ => exists n, log_number_ (versions_ (db s)) <= n < logfile_number_ (db s) /\ 0 <= n /\ file_logs a imc (files s) (LogFileName dbname n)
      | None => True
      end).

Definition increasing (es : list mem_entry) : Prop := StronglySorted Z.lt (map (fun e => sequence e.1) es).

Record inv (D : Prop) (a : list (nat * option (list update))) (cs : list (Z * list nat)) (s : sys) : Prop := {
  i_queue : queue_ok s;
  i_calls : calls_ok a s;
  i_numbers : numbers_ok a s;
  i_phase : phase_ok a s;
  i_results : results_ok a cs s;
  i_mem : memtables_ok D a cs s;
  i_used : older (used s + 1) (commit_entries a cs);
  i_increasing : increasing (commit_entries a cs)
}.

(** ** The queue's lists *)

Lemma group_split p l r : l ∉ p -> group l (p ++ l :: r) = p ++ [l].
Proof.
  induction p as [|x p IH]; intros Hl; cbn [app group]; [by rewrite Nat.eqb_refl|].
  rewrite not_elem_of_cons in Hl. destruct Hl as [Hx Hl]. rewrite (proj2 (Nat.eqb_neq _ _)) by done. by rewrite IH.
Qed.

Lemma group_prefix l q : l ∈ q -> exists rest, q = group l q ++ rest.
Proof.
  induction q as [|x q IH]; intros Hl; [by apply elem_of_nil in Hl|]. cbn [group]. destruct (Nat.eqb_spec x l) as [->|Hx]; [by exists q|].
  apply elem_of_cons in Hl as [|Hl]; [done|]. destruct (IH Hl) as [r E]. exists r. cbn. by rewrite <- E.
Qed.

Lemma in_group l q : l ∈ q -> l ∈ group l q.
Proof.
  induction q as [|x q IH]; intros Hl; [done|]. cbn [group]. apply elem_of_cons in Hl as [<-|Hl]; [left|].
  destruct (Nat.eqb_spec x l) as [->|]; [left|]. right. auto.
Qed.

Lemma group_head l q id : head q = Some id -> exists g, group l q = id :: g.
Proof. destruct q; [done|]. intros [= ->]. cbn [group]. eauto. Qed.

(** ** What was asked *)

Lemma find_fresh (a : list (nat * option (list update))) id : id ∉ map fst a -> List.find (fun p => (p.1 =? id)%nat) a = None.
Proof.
  induction a as [|[x o] a IH]; intros Hn; [done|]. cbn in *. rewrite not_elem_of_cons in Hn. destruct Hn as [Hx Hn].
  rewrite (proj2 (Nat.eqb_neq _ _)) by congruence. auto.
Qed.

Lemma find_app_fresh (a : list (nat * option (list update))) id us x : id ∉ map fst a ->
  List.find (fun p => (p.1 =? x)%nat) (a ++ [(id, us)]) = if decide (x = id) then Some (id, us) else List.find (fun p => (p.1 =? x)%nat) a.
Proof.
  intros Hn. destruct (decide (x = id)) as [->|Hx].
  - pose proof (find_fresh a id Hn) as E. induction a as [|[y o] a IH]; cbn; [by rewrite Nat.eqb_refl|]. cbn in E, Hn. rewrite not_elem_of_cons in Hn.
    destruct (Nat.eqb_spec y id); [done|]. apply IH; [by apply Hn|done].
  - induction a as [|[y o] a IH]; cbn; [by rewrite (proj2 (Nat.eqb_neq _ _)) by congruence|]. cbn in Hn. rewrite not_elem_of_cons in Hn.
    destruct (Nat.eqb_spec y x); [done|]. apply IH. by apply Hn.
Qed.

Lemma asked_by_fresh a id us x : id ∉ map fst a -> asked_by (a ++ [(id, us)]) x = if decide (x = id) then default [] us else asked_by a x.
Proof. intros Hn. unfold asked_by. rewrite find_app_fresh by done. destruct (decide (x = id)); [by destruct us|done]. Qed.

Lemma has_batch_fresh a id us x : id ∉ map fst a -> has_batch (a ++ [(id, us)]) x = if decide (x = id) then (match us with Some _ => true | None => false end) else has_batch a x.
Proof. intros Hn. unfold has_batch. rewrite find_app_fresh by done. destruct (decide (x = id)); [by destruct us|done]. Qed.

Lemma asked_fresh a id us ids : id ∉ map fst a -> id ∉ ids -> asked (a ++ [(id, us)]) ids = asked a ids.
Proof.
  intros Hn Hi. unfold asked. f_equal. apply map_ext_in. intros x Hx%list_elem_of_In. rewrite asked_by_fresh by done.
  rewrite decide_False; [done|]. intros ->. done.
Qed.

Lemma asked_app a ids ids' : asked a (ids ++ ids') = asked a ids ++ asked a ids'.
Proof. unfold asked. by rewrite map_app, concat_app. Qed.

Lemma asked_one a id : asked a [id] = asked_by a id.
Proof. unfold asked. cbn. by rewrite app_nil_r. Qed.

Lemma no_batch_asked a id : has_batch a id = false -> asked_by a id = [].
Proof. unfold has_batch, asked_by. destruct (List.find _ a) as [[? [us|]]|]; done. Qed.

Lemma commit_entries_fresh a id us cs : id ∉ map fst a -> id ∉ commit_ids cs -> commit_entries (a ++ [(id, us)]) cs = commit_entries a cs.
Proof.
  intros Hn. induction cs as [|[q ids] cs IH]; intros Hi; [done|]. unfold commit_ids in Hi. cbn in Hi. rewrite not_elem_of_app in Hi.
  unfold commit_entries in *. cbn [map concat fst snd]. rewrite asked_fresh by tauto. f_equal. apply IH. tauto.
Qed.

Lemma commit_ids_app cs cs' : commit_ids (cs ++ cs') = commit_ids cs ++ commit_ids cs'.
Proof. unfold commit_ids. by rewrite map_app, concat_app. Qed.

Lemma commit_entries_app a cs cs' : commit_entries a (cs ++ cs') = commit_entries a cs ++ commit_entries a cs'.
Proof. unfold commit_entries. by rewrite map_app, concat_app. Qed.

(** ** Taking a group out of the queue *)

Definition wake (th : thread) : thread := match th with Asleep => Woken | _ => th end.

Definition mark (status : Status) (w : Writer) : Writer := MkWriter status (w_batch w) (w_sync w) true.

Lemma signal_lookup id ths x : signal id ths !! x = if decide (x = id) then wake <$> ths !! x else ths !! x.
Proof.
  unfold signal. destruct (decide (x = id)) as [->|Hx].
  - destruct (ths !! id) as [[]|] eqn:E; rewrite ?lookup_insert_eq, ?E; done.
  - destruct (ths !! id) as [[]|]; rewrite ?lookup_insert_ne by done; done.
Qed.

Lemma pop_ready_ok id last status q : forall wm ths, last ∈ q -> NoDup q -> (forall x, x ∈ q -> is_Some (wm !! x)) ->
  exists rest wm' ths', pop_ready id last status q wm ths = Some (rest, wm', ths') /\ q = group last q ++ rest /\
    (forall x, wm' !! x = if decide (x ∈ group last q /\ x <> id) then mark status <$> wm !! x else wm !! x) /\
    (forall x, ths' !! x = if decide (x ∈ group last q /\ x <> id) then wake <$> ths !! x else ths !! x).
Proof.
  induction q as [|y q IH]; intros wm ths Hl Hnd Hw; [by apply elem_of_nil in Hl|]. apply NoDup_cons in Hnd as [Hy Hnd]. cbn [pop_ready group].
  set (p := if (y =? id)%nat then _ else _).
  assert (exists wm1 ths1, p = Some (wm1, ths1) /\ (forall x, wm1 !! x = if decide (x = y /\ x <> id) then mark status <$> wm !! x else wm !! x) /\
    (forall x, ths1 !! x = if decide (x = y /\ x <> id) then wake <$> ths !! x else ths !! x)) as (wm1 & ths1 & -> & Hw1 & Ht1).
  { subst p. destruct (Nat.eqb_spec y id) as [->|Hne].
    - exists wm, ths. split_and!; [done|intros x; rewrite decide_False by naive_solver; done..].
    - destruct (Hw y ltac:(left)) as [w Ew]. rewrite Ew. bind_simpl. do 2 eexists. split_and!; [done| |].
      + intros x. destruct (decide (x = y /\ x <> id)) as [[-> _]|Hx].
        * by rewrite lookup_insert_eq, Ew.
        * rewrite lookup_insert_ne; [done|]. naive_solver.
      + intros x. rewrite signal_lookup. destruct (decide (x = y)), (decide (x = y /\ x <> id)); try done; naive_solver. }
  bind_simpl. destruct (Nat.eqb_spec y last) as [->|Hne].
  - exists q, wm1, ths1. split_and!; [done|done|..]; intros x; [rewrite Hw1|rewrite Ht1]; apply decide_ext; rewrite list_elem_of_singleton; tauto.
  - apply elem_of_cons in Hl as [|Hl]; [done|]. destruct (IH wm1 ths1 Hl Hnd) as (rest & wm' & ths' & E & Eq & Hw' & Ht').
    { intros x Hx. rewrite Hw1. destruct (Hw x ltac:(by right)) as [w ->]. destruct (decide _); [apply fmap_is_Some|]; by eexists. }
    exists rest, wm', ths'. assert (forall x, x ∈ group last q -> x <> y) as Hgy.
    { intros x Hx ->. apply Hy. destruct (group_prefix last q Hl) as [r ->]. by apply elem_of_app; left. }
    split_and!; [done|cbn; by rewrite <- Eq|..]; intros x; [rewrite Hw', Hw1|rewrite Ht', Ht1];
      destruct (decide (x ∈ group last q /\ x <> id)) as [[Hx Hid]|Hx].
    1,3: rewrite decide_False by (intros [? _]; by apply (Hgy x)); rewrite decide_True by (split; [by right|done]); done.
    all: apply decide_ext; rewrite elem_of_cons; naive_solver.
Qed.

Lemma Write_finish_ok (s : sys) id last status : queue_ok s -> head (writers_ (db s)) = Some id -> last ∈ writers_ (db s) ->
  exists rest s', Write_finish s id last status = Some s' /\ writers_ (db s) = group last (writers_ (db s)) ++ rest /\
    db s' = with_writers (db s) rest /\ files s' = files s /\
    (forall x, ws s' !! x = if decide (x = id) then None else if decide (x ∈ group last (writers_ (db s))) then mark status <$> ws s !! x else ws s !! x) /\
    (forall x, threads s' !! x = if decide (x = id) then Some (Returned status)
       else if decide (x ∈ group last (writers_ (db s)) \/ head rest = Some x) then wake <$> threads s !! x else threads s !! x).
Proof.
  intros Hq Hh Hl. unfold Write_finish.
  destruct (pop_ready_ok id last status (writers_ (db s)) (ws s) (threads s) Hl (q_nodup s Hq)) as (rest & wm & ths & E & Eq & Hw & Ht).
  { intros x Hx. destruct (q_in s Hq x Hx) as (w & -> & _). by eexists. }
  rewrite E. bind_simpl. exists rest. eexists. split; [done|]. split; [done|]. cbn [db files ws threads return_from]. split; [done|]. split; [done|].
  split; intros x.
  - destruct (decide (x = id)) as [->|Hx]; [by rewrite lookup_delete_eq|]. rewrite lookup_delete_ne, Hw by done. apply decide_ext. tauto.
  - destruct (decide (x = id)) as [->|Hx]; [by rewrite lookup_insert_eq|]. rewrite lookup_insert_ne by done.
    assert (ths !! x = if decide (x ∈ group last (writers_ (db s))) then wake <$> threads s !! x else threads s !! x) as Hx' by (rewrite Ht; apply decide_ext; tauto).
    destruct rest as [|y rest]; cbn [head].
    + rewrite Hx'. apply decide_ext. naive_solver.
    + rewrite signal_lookup, Hx'. destruct (decide (x = y)) as [->|Hy].
      * rewrite (decide_True _ _ (or_intror eq_refl)). destruct (decide (y ∈ _)); [|done]. destruct (threads s !! y) as [[]|]; done.
      * apply decide_ext. naive_solver.
Qed.

(** ** Building a group *)

(** The batch of a group is in [tmp], or it is the first writer's. *)
Definition grouped_in (a : list (nat * option (list update))) (first : nat) (in_tmp : bool) (tmp : WriteBatch) (ids : list nat) : Prop :=
  if in_tmp then tmp = batch_bytes 0 (asked a ids) else tmp = WriteBatch_new /\ asked a ids = asked_by a first.

Lemma asked_prefix_count a p r : Zlength (asked a (p ++ r)) < 2 ^ 31 -> Zlength (asked a p) < 2 ^ 31.
Proof. rewrite asked_app, Zlength_app. pose proof (Zlength_nonneg (asked a r)). lia. Qed.

Lemma BuildBatchGroup_loop_ok a wm first_sync q0 first max q : NoDup q -> Zlength (asked a q) < 2 ^ 31 ->
  (forall id, id ∈ q -> exists w, wm !! id = Some w /\
     match w_batch w with None => has_batch a id = false | Some b => has_batch a id = true /\ exists sq, b = batch_bytes sq (asked_by a id) end) ->
  forall rest p l g, q = p ++ l :: rest -> g_last g = l -> grouped_in a first (g_in_tmp g) (g_tmp g) (p ++ [l]) -> asked_by a first `prefix_of` asked a (p ++ [l]) ->
  exists g', BuildBatchGroup_loop wm first_sync (batch_bytes q0 (asked_by a first)) max g rest = Some g' /\ g_last g' ∈ q /\
    grouped_in a first (g_in_tmp g') (g_tmp g') (group (g_last g') q).
Proof.
  intros Hnd Hcnt Hw. induction rest as [|id rest IH]; intros p l g Eq El Hg Hpre; cbn [BuildBatchGroup_loop].
  all: assert (l ∉ p) as Hlp by (subst q; apply NoDup_app in Hnd as (_ & Hd & _); intros Hp; apply (Hd l Hp); left).
  all: assert (g_last g ∈ q /\ grouped_in a first (g_in_tmp g) (g_tmp g) (group (g_last g) q)) as Hstop
    by (subst q l; split; [apply elem_of_app; right; left|by rewrite group_split]).
  { exists g. done. }
  destruct (Hw id) as (w & -> & Hb); [subst q; apply elem_of_app; do 2 right; left|]. bind_simpl.
  destruct (w_sync w && negb first_sync); [by exists g|].
  assert (q = (p ++ [l]) ++ id :: rest) as Eq' by (rewrite Eq, <- app_assoc; done).
  assert (asked a ((p ++ [l]) ++ [id]) = asked a (p ++ [l]) ++ asked_by a id) as Easked by (by rewrite asked_app, asked_one).
  assert (Zlength (asked a ((p ++ [l]) ++ [id])) < 2 ^ 31) as Hc by (apply (asked_prefix_count _ _ rest); replace (((p ++ [l]) ++ [id]) ++ rest) with q by (rewrite Eq', <- (app_assoc (p ++ [l])); done); done).
  assert (asked_by a first `prefix_of` asked a ((p ++ [l]) ++ [id])) as Hpre' by (rewrite Easked; by apply prefix_app_r).
  assert (Zlength (asked_by a first) < 2 ^ 31) as Hc0. { destruct Hpre' as [k Ek]. rewrite Ek, Zlength_app in Hc. pose proof (Zlength_nonneg k). lia. }
  destruct (w_batch w) as [b|].
  - destruct Hb as [_ [sq ->]]. destruct (_ >? _); [by exists g|].
    set (tmp := if g_in_tmp g then _ else _).
    assert (tmp = Some (batch_bytes 0 (asked a (p ++ [l])))) as ->.
    { subst tmp. unfold grouped_in in Hg. destruct (g_in_tmp g); [by rewrite Hg|]. destruct Hg as [-> ->]. change (negb (Count WriteBatch_new =? 0)) with false. cbv iota.
      rewrite build_new. by rewrite Append_ok. }
    bind_simpl. rewrite Append_ok by (by rewrite <- Easked). bind_simpl. apply (IH (p ++ [l]) id); [done|done|cbn; by rewrite Easked|done].
  - apply (IH (p ++ [l]) id); [done|done| |done]. apply no_batch_asked in Hb. cbn [g_in_tmp g_tmp]. unfold grouped_in in *. rewrite Easked, Hb, app_nil_r. done.
Qed.

Lemma BuildBatchGroup_ok a (s : sys) id b : queue_ok s -> calls_ok a s -> Zlength (asked a (writers_ (db s))) < 2 ^ 31 ->
  head (writers_ (db s)) = Some id -> ws s !! id = Some b -> is_Some (w_batch b) -> tmp_batch_ (db s) = WriteBatch_new ->
  exists g, BuildBatchGroup (db s) (ws s) = Some g /\ g_last g ∈ writers_ (db s) /\
    grouped_in a id (g_in_tmp g) (g_tmp g) (group (g_last g) (writers_ (db s))).
Proof.
  intros Hq Hcs Hcnt Hh Hid [fb Hfb] Htmp. unfold BuildBatchGroup. rewrite Hh. bind_simpl. rewrite Hid. bind_simpl. rewrite Hfb. bind_simpl.
  pose proof (c_batch a s Hcs id b Hid) as Hb. rewrite Hfb in Hb. destruct Hb as [_ [q0 ->]]. rewrite Htmp.
  assert (exists q, writers_ (db s) = id :: q) as [q Eq] by (destruct (writers_ (db s)); [done|]; injection Hh as ->; eauto).
  assert (tail (writers_ (db s)) = q) as -> by (by rewrite Eq).
  apply (fun H1 H2 H3 => BuildBatchGroup_loop_ok a (ws s) (w_sync b) q0 id _ _ H1 H2 H3 q [] id); [apply q_nodup, Hq|done| |done|done|..].
  - intros y Hy. destruct (q_in s Hq y Hy) as (w & Ew & _). exists w. split; [done|]. by apply (c_batch a s Hcs).
  - split; [done|apply asked_one].
  - cbn [app]. by rewrite asked_one.
Qed.

(** ** The leader *)

(** It neither applies nor finishes a group. *)
Definition idle (th : thread) : Prop := match th with Woken | MakingRoom _ _ | WaitingBg _ _ => True | _ => False end.

Lemma leader_is (s : sys) id th : head (writers_ (db s)) = Some id -> threads s !! id = Some th -> leader s = Some (id, th).
Proof. intros Hh Ht. unfold leader. rewrite Hh. bind_simpl. by rewrite Ht. Qed.

Lemma leader_none (s : sys) : writers_ (db s) = [] -> leader s = None.
Proof. intros Hq. unfold leader. by rewrite Hq. Qed.

(** Nobody applies or finishes a group. *)
Definition resting (s : sys) : Prop := match leader s with Some (_, th) => idle th | None => True end.

Lemma resting_facts a (s : sys) : resting s -> (phase_ok a s <-> tmp_batch_ (db s) = WriteBatch_new) /\ in_flight s = [] /\ used s = sequence_of s.
Proof. unfold resting, phase_ok, in_flight, used. destruct (leader s) as [[? []]|]; cbn; tauto. Qed.

Lemma idle_resting (s : sys) id th : head (writers_ (db s)) = Some id -> threads s !! id = Some th -> idle th -> resting s.
Proof. intros Hh Ht Hi. unfold resting. by rewrite (leader_is s id th). Qed.

Lemma queue_head_in (q : list nat) id : head q = Some id -> id ∈ q /\ exists r, q = id :: r.
Proof. destruct q; [done|]. intros [= ->]. split; [left|eauto]. Qed.

Lemma call_entries_nodup a cs (s : sys) id : NoDup (map fst a) -> results_ok a cs s -> id ∈ writers_ (db s) -> id ∉ in_flight s -> id ∉ commit_ids cs.
Proof.
  intros Hnd [(pre & c & Ea & -> & Hsub) _ _] Hid Hf. rewrite not_elem_of_app. split; [|done]. intros Hc. rewrite Ea in Hnd. apply NoDup_app in Hnd as (_ & Hd & _).
  apply (Hd id); [|done]. by eapply elem_of_sublist.
Qed.

(** ** The end of a call *)

Lemma finish_queue (s s' : sys) id last status rest : queue_ok s -> head (writers_ (db s)) = Some id -> last ∈ writers_ (db s) ->
  writers_ (db s) = group last (writers_ (db s)) ++ rest -> db s' = with_writers (db s) rest ->
  (forall x, ws s' !! x = if decide (x = id) then None else if decide (x ∈ group last (writers_ (db s))) then mark status <$> ws s !! x else ws s !! x) ->
  (forall x, threads s' !! x = if decide (x = id) then Some (Returned status)
     else if decide (x ∈ group last (writers_ (db s)) \/ head rest = Some x) then wake <$> threads s !! x else threads s !! x) ->
  queue_ok s' /\ resting s'.
Proof.
  intros Hq Hh Hl Eq Edb Hw Ht. destruct (group_head last _ id Hh) as [g Eg]. set (q := writers_ (db s)) in *.
  assert (writers_ (db s') = rest) as Er by (by rewrite Edb).
  pose proof (q_nodup s Hq) as Hnd. fold q in Hnd. rewrite Eq in Hnd. pose proof Hnd as (Hndg & Hd & Hndr)%NoDup_app.
  assert (forall x, x ∈ rest -> x ∉ group last q) as Hd' by (intros x Hx Hg; by apply (Hd x)).
  assert (id ∈ group last q) as Hidg by (rewrite Eg; left).
  assert (tail q = g ++ rest) as Etl by (rewrite Eq, Eg; done).
  assert (forall x, x ∈ rest -> threads s !! x = Some Asleep \/ threads s !! x = Some Woken) as Hwait.
  { intros x Hx. apply (q_tail s Hq). fold q. rewrite Etl. apply elem_of_app. by right. }
  assert (forall x, head rest = Some x -> threads s' !! x = Some Woken) as Hhead.
  { intros x Hx. pose proof (queue_head_in rest x Hx) as [Hin _]. rewrite Ht, decide_False by (intros ->; by apply (Hd' id)). rewrite decide_True by tauto.
    destruct (Hwait x Hin) as [->| ->]; done. }
  split; [|unfold resting, leader; rewrite Er; destruct rest as [|x r]; [done|]; cbn [head]; bind_simpl; by rewrite Hhead].
  split; rewrite ?Er.
  - done.
  - intros x Hx. destruct (q_in s Hq x) as (w & Ew & Hdn); [fold q; rewrite Eq; apply elem_of_app; by right|].
    exists w. rewrite Hw, decide_False by (intros ->; by apply (Hd' id)). rewrite decide_False by (by apply Hd'). done.
  - intros x Hx. assert (x ∈ rest) as Hx' by (destruct rest; [done|]; by right). rewrite Ht, decide_False by (intros ->; by apply (Hd' id)).
    destruct (decide _); destruct (Hwait x Hx') as [->| ->]; cbn; tauto.
  - intros x Hx. rewrite (Hhead x Hx). by eexists.
  - intros x th Hx Hn. rewrite Hw. rewrite Ht in Hx. destruct (decide (x = id)) as [->|Hne]; [right; injection Hx as <-; eauto|].
    destruct (decide (x ∈ group last q)) as [Hg|Hg].
    + left. rewrite decide_True in Hx by tauto. assert (x ∈ g) as Hxg by (rewrite Eg in Hg; apply elem_of_cons in Hg as [|]; done).
      destruct (q_in s Hq x) as (w & Ew & _); [fold q; rewrite Eq; apply elem_of_app; by left|]. rewrite Ew. split; [|by eexists].
      destruct (q_tail s Hq x) as [E|E]; [fold q; rewrite Etl; apply elem_of_app; by left| |]; rewrite E in Hx; by injection Hx as <-.
    + rewrite decide_False in Hx by (intros [?|Hr]; [done|]; apply Hn; by apply queue_head_in in Hr as [? _]).
      apply (q_out s Hq x th Hx). fold q. rewrite Eq, elem_of_app. tauto.
  - intros x. rewrite Hw, Ht. destruct (decide (x = id)); [by intros [? ?]|]. intros Hx.
    assert (is_Some (ws s !! x)) as Hs by (destruct (decide (x ∈ group last q)); [by apply fmap_is_Some in Hx|done]).
    pose proof (q_ws s Hq x Hs). destruct (decide (_ \/ _)); [by apply fmap_is_Some|done].
Qed.

(** What must hold when the leader [id] takes its group out of the queue. *)
Record ready (D : Prop) (a : list (nat * option (list update))) (cs : list (Z * list nat)) (s : sys) (id last : nat) (status : Status) : Prop := {
  y_queue : queue_ok s;
  y_calls : calls_ok a s;
  y_numbers : forall rest, writers_ (db s) = group last (writers_ (db s)) ++ rest -> numbers_ok a (set_db s (with_writers (db s) rest));
  y_head : head (writers_ (db s)) = Some id;
  y_last : last ∈ writers_ (db s);
  y_tmp : tmp_batch_ (db s) = WriteBatch_new;
  y_order : exists pre c, map fst a = pre ++ writers_ (db s) /\ c `sublist_of` pre /\
    (commit_ids cs = c \/ commit_ids cs = c ++ group last (writers_ (db s)));
  y_answer : forall x, x ∈ group last (writers_ (db s)) -> answered a (commit_ids cs) x status;
  y_done : forall x w, ws s !! x = Some w -> w_done w = true -> answered a (commit_ids cs) x (w_status w);
  y_returned : forall x st, threads s !! x = Some (Returned st) -> answered a (commit_ids cs) x st;
  y_mem : memtables_ok D a cs s;
  y_used : older (sequence_of s + 1) (commit_entries a cs);
  y_increasing : increasing (commit_entries a cs)
}.

Lemma numbers_rest a (s s' : sys) p rest : numbers_ok a s -> writers_ (db s) = p ++ rest -> db s' = with_writers (db s) rest -> numbers_ok a s'.
Proof.
  intros [H1 H2 H3 H4 H5 H6 H7 H8 H9] Eq Edb. rewrite Eq, asked_app, Zlength_app in H2, H3. pose proof (Zlength_nonneg (asked a p)).
  unfold sequence_of in *. split; unfold sequence_of; rewrite Edb; cbn [with_writers writers_ versions_ logfile_number_ log_]; try done; lia.
Qed.

Lemma memtables_same D a cs (s s' : sys) : files s' = files s -> mem_ (db s') = mem_ (db s) -> imm_ (db s') = imm_ (db s) -> log_ (db s') = log_ (db s) ->
  logfile_number_ (db s') = logfile_number_ (db s) -> log_number_ (versions_ (db s')) = log_number_ (versions_ (db s)) -> memtables_ok D a cs s -> memtables_ok D a cs s'.
Proof. intros E1 E2 E3 E4 E5 E6. unfold memtables_ok. by rewrite E1, E2, E3, E4, E5, E6. Qed.

Lemma inv_finish D a cs (s : sys) id last status : ready D a cs s id last status ->
  exists s', Write_finish s id last status = Some s' /\ inv D a cs s'.
Proof.
  intros [Hq Hc Hn Hh Hl Htmp (pre & c & Ea & Hsub & Hcs) Hans Hdone Hret Hmem Hused Hinc].
  destruct (Write_finish_ok s id last status Hq Hh Hl) as (rest & s' & E & Eq & Edb & Ef & Hw & Ht). exists s'. split; [done|].
  destruct (finish_queue s s' id last status rest Hq Hh Hl Eq Edb Hw Ht) as [Hq' Hrest]. destruct (resting_facts a s' Hrest) as (Hph & Hfl & Hus).
  assert (writers_ (db s') = rest) as Er by (by rewrite Edb). assert (sequence_of s' = sequence_of s) as Es by (unfold sequence_of; by rewrite Edb).
  set (q := writers_ (db s)) in *. assert (id ∈ q) as Hidq by (by apply queue_head_in).
  split; [done| | | | | | |done].
  - destruct Hc as [C1 C2 C3 C4 C5]. split; [done| | |done|].
    + exists (pre ++ group last q). rewrite Er, <- app_assoc, <- Eq. done.
    + intros x. rewrite <- C3, Ht. destruct (decide (x = id)) as [->|].
      * split; [intros _|by eexists]. destruct (q_head s Hq id Hh) as (th & -> & _). by eexists.
      * destruct (decide _); by rewrite ?fmap_is_Some.
    + intros x w. rewrite Hw. destruct (decide (x = id)); [done|]. destruct (decide _); [|by apply C5].
      intros (w0 & E0 & ->)%fmap_Some. by apply (C5 x w0).
  - destruct (Hn rest Eq) as [N1 N2 N3 N4 N5 N6 N7 N8 N9]. cbn [db set_db] in *. unfold sequence_of in *. cbn [db set_db] in *. rewrite <- Edb in *. by split.
  - apply Hph. by rewrite Edb.
  - split.
    + exists (pre ++ group last q), (commit_ids cs). rewrite Er, Hfl, app_nil_r, <- app_assoc, <- Eq. split; [done|]. split; [done|].
      destruct Hcs as [->| ->]; [by apply sublist_inserts_r|by apply sublist_app].
    + intros x w. rewrite Hw. destruct (decide (x = id)); [done|]. destruct (decide _) as [Hg|]; [|by apply Hdone].
      intros (w0 & E0 & ->)%fmap_Some _. by apply Hans.
    + intros x st. rewrite Ht. destruct (decide (x = id)) as [->|Hne].
      * intros [= <-]. apply Hans. destruct (group_head last q id Hh) as [g ->]. left.
      * destruct (decide _); [|by apply Hret]. intros (th & Eth & Est)%fmap_Some. apply Hret. destruct th; naive_solver.
  - revert Hmem. apply memtables_same; [done|by rewrite Edb..].
  - by rewrite Hus, Es.
Qed.

(** ** A writer waits, or the leader starts *)

Lemma leader_set_tail (s : sys) id th : NoDup (writers_ (db s)) -> id ∈ tail (writers_ (db s)) -> leader (set_thread s id th) = leader s.
Proof.
  intros Hnd Hid. unfold leader. cbn [db set_thread threads]. destruct (writers_ (db s)) as [|x q]; [done|]. cbn [head]. bind_simpl.
  apply NoDup_cons in Hnd as [Hx _]. rewrite lookup_insert_ne; [done|]. intros ->. done.
Qed.

Lemma updates_in_set (s : sys) id th x in_tmp : updates_in (set_thread s id th) x in_tmp = updates_in s x in_tmp.
Proof. done. Qed.

(** Setting the thread of a queued writer to something that is neither
    [Returned] nor, for the leader, [Asleep]. *)
Lemma queue_set (s : sys) id th : queue_ok s -> id ∈ writers_ (db s) -> (forall st, th <> Returned st) -> (head (writers_ (db s)) = Some id -> th <> Asleep) ->
  (id ∈ tail (writers_ (db s)) -> th = Asleep \/ th = Woken) -> queue_ok (set_thread s id th).
Proof.
  intros Hq Hid Hnr Hh Htl. destruct Hq as [Q1 Q2 Q3 Q4 Q5 Q6]. split; cbn [db set_thread ws threads]; [done|done|..].
  - intros x Hx. destruct (decide (x = id)) as [->|]; [rewrite lookup_insert_eq; destruct (Htl Hx) as [-> | ->]; tauto|]. rewrite lookup_insert_ne by done. by apply Q3.
  - intros x Hx. destruct (decide (x = id)) as [->|]; [rewrite lookup_insert_eq; eexists; split; [done|]; split; [by apply Hh|done]|]. rewrite lookup_insert_ne by done. by apply Q4.
  - intros x th0. destruct (decide (x = id)) as [->|]; [done|]. rewrite lookup_insert_ne by done. apply Q5.
  - intros x Hx. destruct (decide (x = id)) as [->|]; [by rewrite lookup_insert_eq|]. rewrite lookup_insert_ne by done. by apply Q6.
Qed.

Lemma calls_set a (s : sys) id th : calls_ok a s -> is_Some (threads s !! id) -> calls_ok a (set_thread s id th).
Proof.
  intros [C1 C2 C3 C4 C5] Hid. split; [done|done| |done|done]. intros x. rewrite <- C3. cbn [threads set_thread].
  destruct (decide (x = id)) as [->|]; [rewrite lookup_insert_eq; split; [done|by eexists]|by rewrite lookup_insert_ne].
Qed.

Lemma results_set a cs (s : sys) id th : results_ok a cs s -> (forall st, th <> Returned st) -> in_flight (set_thread s id th) = in_flight s ->
  results_ok a cs (set_thread s id th).
Proof.
  intros [R1 R2 R3] Hnr Hf. split; [by rewrite Hf|done|]. intros x st. cbn [threads set_thread].
  destruct (decide (x = id)) as [->|]; [rewrite lookup_insert_eq; naive_solver|rewrite lookup_insert_ne by done; apply R3].
Qed.

Lemma inv_set_tail D a cs (s : sys) id th : inv D a cs s -> id ∈ tail (writers_ (db s)) -> th = Asleep \/ th = Woken -> inv D a cs (set_thread s id th).
Proof.
  intros [I1 I2 I3 I4 I5 I6 I7 I8] Hid Hth. assert (id ∈ writers_ (db s)) as Hin by (destruct (writers_ (db s)); [done|by right]).
  pose proof (leader_set_tail s id th (q_nodup s I1) Hid) as El.
  assert (forall st, th <> Returned st) as Hnr by naive_solver. assert (is_Some (threads s !! id)) as Hs by (destruct (q_tail s I1 id Hid) as [-> | ->]; by eexists).
  split; [| by apply calls_set|by destruct I3| | |by apply (memtables_same D a cs s)| |done].
  - apply queue_set; try done. intros Hh. exfalso. pose proof (q_nodup s I1) as Hnd. destruct (writers_ (db s)); [done|]. injection Hh as ->. by apply NoDup_cons in Hnd as [? _].
  - unfold phase_ok in *. rewrite El. done.
  - apply results_set; [done|done|]. unfold in_flight. by rewrite El.
  - unfold used. rewrite El. done.
Qed.

Lemma inv_set_leader D a cs (s : sys) id th : inv D a cs s -> resting s -> head (writers_ (db s)) = Some id -> idle th -> inv D a cs (set_thread s id th).
Proof.
  intros [I1 I2 I3 I4 I5 I6 I7 I8] Hr Hh Hth. destruct (queue_head_in _ _ Hh) as [Hin [r Er]].
  assert (resting (set_thread s id th)) as Hr' by (eapply idle_resting; [exact Hh|apply lookup_insert_eq|done]).
  destruct (resting_facts a s Hr) as (P1 & P2 & P3), (resting_facts a _ Hr') as (P1' & P2' & P3').
  assert (forall st, th <> Returned st) as Hnr by (intros st ->; done). assert (is_Some (threads s !! id)) as Hs by (destruct (q_head s I1 id Hh) as (? & -> & _); by eexists).
  split; [| by apply calls_set|by destruct I3|by apply P1', P1| |by apply (memtables_same D a cs s)|by rewrite P3' ; rewrite P3 in I7|done].
  - apply queue_set; try done; [by destruct th|]. intros Ht. exfalso. pose proof (q_nodup s I1) as Hnd. rewrite Er in Ht, Hnd. by apply NoDup_cons in Hnd as [? _].
  - apply results_set; [done|done|by rewrite P2', P2].
Qed.

Lemma inv_wait D a cs (s : sys) id th : inv D a cs s -> threads s !! id = Some th -> th = Asleep \/ th = Woken ->
  exists s', Write_wait s id = Some s' /\ inv D a cs s'.
Proof.
  intros I Ht Hth. pose proof (i_queue _ _ _ _ I) as Hq. unfold Write_wait. destruct (decide (id ∈ writers_ (db s))) as [Hin|Hout].
  - destruct (q_in s Hq id Hin) as (w & -> & Hd). bind_simpl. rewrite Hd. destruct (writers_ (db s)) as [|x q] eqn:Eq; [by apply elem_of_nil in Hin|]. cbn [head]. bind_simpl.
    destruct (Nat.eqb_spec x id) as [->|Hne].
    + eexists. split; [done|]. assert (head (writers_ (db s)) = Some id) as Hh by (by rewrite Eq). apply inv_set_leader; [done| |done|done].
      apply (idle_resting s id th Hh Ht). destruct (q_head s Hq id Hh) as (th' & Ht' & Hna & _). rewrite Ht in Ht'. injection Ht' as <-. destruct Hth as [-> | ->]; done.
    + eexists. split; [done|]. apply inv_set_tail; [done| |by left]. rewrite Eq. cbn. by apply elem_of_cons in Hin as [|].
  - destruct (q_out s Hq id th Ht Hout) as [(-> & w & Ew & Hd)|(st & -> & _)]; [|naive_solver]. rewrite Ew. bind_simpl. rewrite Hd. eexists. split; [done|].
    destruct I as [I1 I2 I3 I4 I5 I6 I7 I8].
    assert (leader (return_from s id (w_status w)) = leader s) as El.
    { unfold leader. cbn [db return_from threads]. destruct (head (writers_ (db s))) as [x|] eqn:Ex; [|done]. bind_simpl. rewrite lookup_insert_ne; [done|].
      intros ->. apply Hout. by apply queue_head_in. }
    assert (forall x, x ∈ writers_ (db s) -> x <> id) as Hne by (intros x Hx ->; done).
    split.
    + destruct I1 as [Q1 Q2 Q3 Q4 Q5 Q6]. split; cbn [db return_from ws threads]; [done|..].
      * intros x Hx. rewrite lookup_delete_ne by (symmetry; by apply Hne). by apply Q2.
      * intros x Hx. rewrite lookup_insert_ne; [by apply Q3|]. symmetry. apply Hne. by destruct (writers_ (db s)); [|right].
      * intros x Hx. rewrite lookup_insert_ne; [by apply Q4|]. symmetry. apply Hne. by apply queue_head_in.
      * intros x th0. destruct (decide (x = id)) as [->|]; [rewrite lookup_insert_eq, lookup_delete_eq; intros [= <-] _; right; eauto|].
        rewrite lookup_insert_ne, lookup_delete_ne by done. apply Q5.
      * intros x. destruct (decide (x = id)) as [->|]; [rewrite lookup_insert_eq; by eexists|]. rewrite lookup_insert_ne, lookup_delete_ne by done. apply Q6.
    + destruct I2 as [C1 C2 C3 C4 C5]. split; [done|done| |done|].
      * intros x. rewrite <- C3. cbn [threads return_from]. destruct (decide (x = id)) as [->|]; [rewrite lookup_insert_eq, Ht; split; by eexists|by rewrite lookup_insert_ne].
      * intros x w0. cbn [ws return_from]. intros [_ Hx]%lookup_delete_Some. by apply C5.
    + by destruct I3.
    + unfold phase_ok, updates_in in *. rewrite El. cbn [db return_from ws] in *. destruct (leader s) as [[x [| | | |in_tmp ls last| |]]|] eqn:Elx; try done.
      destruct I4 as [G U]. split; [done|]. destruct in_tmp; [done|]. rewrite lookup_delete_ne; [done|]. symmetry. apply Hne.
      unfold leader in Elx. destruct (head (writers_ (db s))) eqn:Eh; [|done]. cbn [mbind option_bind] in Elx. destruct (threads s !! n); [|done]. injection Elx as <- _. by apply queue_head_in.
    + destruct I5 as [R1 R2 R3]. assert (in_flight (return_from s id (w_status w)) = in_flight s) as Ef by (unfold in_flight; by rewrite El). split; [by rewrite Ef| |].
      * intros x w0. cbn [ws return_from]. intros [_ Hx]%lookup_delete_Some. by apply R2.
      * intros x st. cbn [threads return_from]. destruct (decide (x = id)) as [->|]; [rewrite lookup_insert_eq; intros [= <-]; by apply R2|rewrite lookup_insert_ne by done; apply R3].
    + by apply (memtables_same D a cs s).
    + unfold used. rewrite El. done.
    + done.
Qed.

(** ** A call *)

Lemma group_app_r l q r : l ∈ q -> group l (q ++ r) = group l q.
Proof.
  induction q as [|x q IH]; intros Hl; [by apply elem_of_nil in Hl|]. cbn [app group]. f_equal. destruct (Nat.eqb_spec x l); [done|].
  apply IH. by apply elem_of_cons in Hl as [|].
Qed.

Lemma in_flight_queue a (s : sys) x : phase_ok a s -> x ∈ in_flight s -> x ∈ writers_ (db s).
Proof.
  unfold phase_ok, in_flight. destruct (leader s) as [[? [| | | | |st in_tmp ls last|]]|]; try (intros _ H; by apply elem_of_nil in H).
  intros (_ & Hl & _). destruct (ok st); [|intros H; by apply elem_of_nil in H]. intros Hx. destruct (group_prefix _ _ Hl) as [r ->]. apply elem_of_app. by left.
Qed.

Lemma committed_called D a cs (s : sys) x : inv D a cs s -> x ∈ commit_ids cs -> x ∈ map fst a.
Proof.
  intros I Hx. destruct (r_order a cs s (i_results _ _ _ _ I)) as (pre & c & Ea & Ec & Hsub). rewrite Ea. rewrite Ec in Hx. apply elem_of_app.
  apply elem_of_app in Hx as [Hx|Hx]; [left; by eapply elem_of_sublist|right]. eapply in_flight_queue; [apply (i_phase _ _ _ _ I)|done].
Qed.

Lemma log_of_fresh a id us cs recs : id ∉ map fst a -> id ∉ commit_ids cs -> log_of a cs recs -> log_of (a ++ [(id, us)]) cs recs.
Proof.
  intros Hn Hi. unfold log_of. intros ->. clear recs. induction cs as [|[q ids] cs IH]; [done|]. unfold commit_ids in Hi. cbn [map concat fst snd] in *. rewrite not_elem_of_app in Hi.
  rewrite asked_fresh by tauto. f_equal. apply IH. tauto.
Qed.

Lemma memtables_fresh D a cs (s : sys) id us : id ∉ map fst a -> id ∉ commit_ids cs -> memtables_ok D a cs s -> memtables_ok D (a ++ [(id, us)]) cs s.
Proof.
  intros Hn Hi (old & imc & cur & -> & Hm & Him & HD). rewrite !commit_ids_app, !not_elem_of_app in Hi. destruct Hi as (Ho & Hi & Hc).
  exists old, imc, cur. split; [done|]. rewrite !commit_entries_fresh by done. split; [done|]. split; [done|]. intros HD'. destruct (HD HD') as (Hq & (ta & recs & Hl & Hd) & Hf).
  split; [done|]. split; [exists ta, recs; split; [by apply log_of_fresh|done]|]. destruct (imm_ (db s)); [|done]. destruct Hf as (n & Hn1 & Hn2 & ta' & recs' & out & b & Hl' & Hw & Hc').
  exists n. split; [done|]. split; [done|]. exists ta', recs', out, b. split; [by apply log_of_fresh|done].
Qed.

(** The system after a call; the first writer in the queue starts at once. *)
Definition called (s : sys) (id : nat) (us : option (list update)) (sync : bool) : sys :=
  let force := match us with None => true | Some _ => false end in
  MkSys (with_writers (db s) (writers_ (db s) ++ [id])) (<[id := MkWriter Status_OK (build <$> us) sync false]> (ws s))
    (<[id := match writers_ (db s) with [] => MakingRoom force (negb force) | _ => Asleep end]> (threads s)) (files s).

Lemma Write_call_called (s : sys) id us sync : id ∉ writers_ (db s) -> Write_call s id (build <$> us) sync = Some (called s id us sync).
Proof.
  intros Hn. unfold Write_call, Write_wait, called. cbn [ws db]. rewrite lookup_insert_eq. bind_simpl. cbn [w_done writers_ with_writers].
  destruct (writers_ (db s)) as [|x q]; cbn [app head]; bind_simpl; [rewrite Nat.eqb_refl; by destruct us|].
  rewrite (proj2 (Nat.eqb_neq _ _)); [done|]. intros ->. apply Hn. left.
Qed.

Lemma called_queue (s : sys) id us sync : queue_ok s -> id ∉ writers_ (db s) -> queue_ok (called s id us sync).
Proof.
  intros [Q1 Q2 Q3 Q4 Q5 Q6] Hnq. unfold called. set (q := writers_ (db s)) in *. set (th := match q with [] => _ | _ => _ end). split; cbn [db ws threads writers_ with_writers].
  - apply NoDup_app. split; [done|]. split; [intros x Hx ->%list_elem_of_singleton; done|apply NoDup_singleton].
  - intros x [Hx| ->%list_elem_of_singleton]%elem_of_app; [|rewrite lookup_insert_eq; by eexists]. rewrite lookup_insert_ne by (intros ->; done). by apply Q2.
  - intros x Hx. destruct (decide (x = id)) as [->|Hne].
    + rewrite lookup_insert_eq. unfold th. destruct q; [by apply elem_of_nil in Hx|by left].
    + rewrite lookup_insert_ne by done. apply Q3. destruct q as [|y q']; [by apply elem_of_nil in Hx|]. cbn in *. apply elem_of_app in Hx as [|Hx%list_elem_of_singleton]; done.
  - intros x Hx. unfold th. destruct q as [|y q'].
    + injection Hx as <-. rewrite lookup_insert_eq. by eexists.
    + injection Hx as <-. rewrite lookup_insert_ne by (intros ->; apply Hnq; left). by apply Q4.
  - intros x th0 Hx Hnin. rewrite not_elem_of_app, list_elem_of_singleton in Hnin. rewrite lookup_insert_ne in Hx by naive_solver. rewrite lookup_insert_ne by naive_solver. apply Q5; tauto.
  - intros x. destruct (decide (x = id)) as [->|]; [rewrite !lookup_insert_eq; by eexists|]. rewrite !lookup_insert_ne by done. apply Q6.
Qed.

Lemma called_calls a (s : sys) id us sync : calls_ok a s -> id ∉ map fst a -> Forall update_fits (default [] us) -> Zlength (default [] us) < 2 ^ 31 ->
  calls_ok (a ++ [(id, us)]) (called s id us sync).
Proof.
  intros [C1 C2 C3 C4 C5] Hna Hfits Hus. split; unfold called; cbn [db ws threads writers_ with_writers]; rewrite ?map_app; cbn [map fst].
  - apply NoDup_app. split; [done|]. split; [intros x Hx ->%list_elem_of_singleton; done|apply NoDup_singleton].
  - destruct C2 as [pre ->]. exists pre. by rewrite app_assoc.
  - intros x. rewrite elem_of_app, list_elem_of_singleton, <- C3. destruct (decide (x = id)) as [->|]; [rewrite lookup_insert_eq; split; [by right|by eexists]|].
    rewrite lookup_insert_ne by done. tauto.
  - intros x. rewrite asked_by_fresh by done. destruct (decide _); [done|apply C4].
  - intros x w0. rewrite asked_by_fresh, has_batch_fresh by done. destruct (decide (x = id)) as [->|]; [|rewrite lookup_insert_ne by done; apply C5].
    rewrite lookup_insert_eq. intros [= <-]. cbn [w_batch]. destruct us as [us|]; [|done]. split; [done|]. exists 0. by apply build_ok.
Qed.

Lemma leader_in_queue (s : sys) x th : leader s = Some (x, th) -> x ∈ writers_ (db s).
Proof.
  unfold leader. destruct (head (writers_ (db s))) eqn:Eh; [|done]. cbn [mbind option_bind]. destruct (threads s !! n); [|done]. intros [= <- _]. by apply queue_head_in.
Qed.

(** The leader does not notice a call. *)
Lemma called_phase a (s : sys) id us sync : let s' := called s id us sync in id ∉ map fst a -> id ∉ writers_ (db s) -> phase_ok a s ->
  used s' = used s /\ in_flight s' = in_flight s /\ phase_ok (a ++ [(id, us)]) s'.
Proof.
  intros s' Hna Hnq Hp. set (q := writers_ (db s)) in *. destruct (decide (q = [])) as [Hq|Hne].
  - assert (resting s') as Hr' by (eapply (idle_resting s' id); [unfold s', called; cbn; fold q; by rewrite Hq|apply lookup_insert_eq|fold q; by rewrite Hq]).
    assert (resting s) as Hr by (unfold resting; by rewrite leader_none). destruct (resting_facts (a ++ [(id, us)]) s' Hr') as (-> & -> & ->), (resting_facts a s Hr) as (P & -> & ->).
    split; [done|]. split; [done|]. by apply P.
  - assert (leader s' = leader s) as Hld.
    { unfold leader, s', called. cbn [db writers_ with_writers threads]. fold q. destruct q as [|x q']; [done|]. cbn [app head]. bind_simpl. rewrite lookup_insert_ne; [done|]. intros ->. apply Hnq. left. }
    unfold used, in_flight, phase_ok in *. rewrite Hld. split; [by destruct (leader s) as [[? []]|]|].
    change (writers_ (db s')) with (q ++ [id]). change (sequence_of s') with (sequence_of s). change (tmp_batch_ (db s')) with (tmp_batch_ (db s)).
    assert (forall l, l ∈ q -> asked (a ++ [(id, us)]) (group l (q ++ [id])) = asked a (group l q)) as Hgr.
    { intros l Hl. rewrite group_app_r by done. apply asked_fresh; [done|]. intros Hx. apply Hnq. destruct (group_prefix l q Hl) as [r ->]. apply elem_of_app. by left. }
    assert (forall x, x ∈ q -> has_batch (a ++ [(id, us)]) x = has_batch a x) as Hhb by (intros x Hx; rewrite has_batch_fresh by done; rewrite decide_False; [done|]; intros ->; done).
    destruct (leader s) as [[x [| | | |in_tmp ls last|st in_tmp ls last|]]|] eqn:El; try done; pose proof (leader_in_queue s x _ El) as Hlq; fold q in Hlq.
    + destruct Hp as [(G1 & G2 & G3 & G4) U]. fold q in G2, G3, U. split; [done|]. rewrite Hgr, Hhb by done. split; [split; [done|]; split; [apply elem_of_app; by left|done]|].
      rewrite <- U. unfold updates_in. destruct in_tmp; [done|]. unfold s', called. cbn [ws]. rewrite lookup_insert_ne; [done|]. intros ->. done.
    + destruct Hp as (G1 & G2 & G3 & G4). fold q in G2, G3. rewrite Hgr, Hhb by done. rewrite group_app_r by done. fold q. split; [done|].
      split; [done|]. split; [apply elem_of_app; by left|done].
Qed.

Lemma inv_call D tr cs (s : sys) id us sync : let a := arrivals tr in inv D a cs s -> call_fits tr s id us ->
  exists s', Write_call s id (build <$> us) sync = Some s' /\ inv D (a ++ [(id, us)]) cs s'.
Proof.
  intros a I [Hnew Hfits Hseq Hcnt]. fold a in Hseq, Hcnt. pose proof I as [I1 I2 I3 I4 I5 I6 I7 I8]. set (q := writers_ (db s)) in *.
  assert (id ∉ map fst a) as Hna. { intros Hx. apply (c_threads a s I2) in Hx. rewrite Hnew in Hx. by destruct Hx. }
  assert (id ∉ q) as Hnq. { intros Hx. apply Hna. destruct (c_suffix a s I2) as [pre ->]. apply elem_of_app. by right. }
  assert (id ∉ commit_ids cs) as Hnc by (intros Hx; by eapply Hna, committed_called).
  exists (called s id us sync). split; [by apply Write_call_called|]. destruct (called_phase a s id us sync Hna Hnq I4) as (Hu & Hf & Hp). set (s' := called s id us sync) in *.
  assert (asked (a ++ [(id, us)]) (q ++ [id]) = asked a q ++ default [] us) as Hask'.
  { rewrite asked_app, asked_fresh, asked_one by done. rewrite asked_by_fresh by done. by rewrite decide_True. }
  assert (Zlength (default [] us) < 2 ^ 31) as Hus. { rewrite Zlength_app in Hcnt. pose proof (Zlength_nonneg (asked a q)). lia. }
  split; [by apply called_queue|by apply called_calls| |done| | |by rewrite Hu, commit_entries_fresh|by rewrite commit_entries_fresh].
  - destruct I3 as [N1 N2 N3 N4 N5 N6 N7 N8 N9]. split; try done; change (writers_ (db s')) with (q ++ [id]); rewrite Hask'; done.
  - destruct I5 as [(pre & c & R1 & R1' & R1'') R2 R3].
    assert (forall x st, x <> id -> answered a (commit_ids cs) x st -> answered (a ++ [(id, us)]) (commit_ids cs) x st) as Ha by (intros x st Hx; unfold answered; rewrite has_batch_fresh by done; by rewrite decide_False).
    split.
    + exists pre, c. rewrite Hf. change (writers_ (db s')) with (q ++ [id]). rewrite map_app, R1, <- app_assoc. done.
    + intros x w0. unfold s', called. cbn [ws]. destruct (decide (x = id)) as [->|]; [rewrite lookup_insert_eq; by intros [= <-]|]. rewrite lookup_insert_ne by done. auto.
    + intros x st. unfold s', called. cbn [threads]. destruct (decide (x = id)) as [->|]; [rewrite lookup_insert_eq; by destruct (writers_ (db s))|]. rewrite lookup_insert_ne by done. auto.
  - apply memtables_fresh; [done|done|]. by apply (memtables_same D a cs s).
Qed.

(** ** The other threads *)

Lemma mem_rep_table m m' es : table_ m' = table_ m -> mem_rep ucmp m es -> mem_rep ucmp m' es.
Proof. intros E. unfold mem_rep. by rewrite E. Qed.

(** What does not look at the memtables, the files and the file numbers. *)
Lemma inv_same_queue D a cs (s s' : sys) : ws s' = ws s -> threads s' = threads s -> writers_ (db s') = writers_ (db s) -> tmp_batch_ (db s') = tmp_batch_ (db s) ->
  sequence_of s' = sequence_of s -> inv D a cs s -> numbers_ok a s' -> memtables_ok D a cs s' -> inv D a cs s'.
Proof.
  intros E1 E2 E3 E4 E5 [I1 I2 I3 I4 I5 I6 I7 I8] Hn Hm. assert (leader s' = leader s) as El by (unfold leader; by rewrite E2, E3).
  split; [| |done| | |done| |done].
  - destruct I1 as [Q1 Q2 Q3 Q4 Q5 Q6]. split; rewrite ?E1, ?E2, ?E3; done.
  - destruct I2 as [C1 C2 C3 C4 C5]. split; rewrite ?E1, ?E2, ?E3; done.
  - unfold phase_ok, updates_in in *. rewrite El, E1, E3, E4, E5. done.
  - destruct I5 as [R1 R2 R3]. unfold in_flight in *. split; unfold in_flight; rewrite ?El, ?E1, ?E2, ?E3; done.
  - unfold used in *. by rewrite El, E5.
Qed.

Lemma descriptor_holds_same t_addr recs log (st st' : St) : contents st' (dest_ log) = contents st (dest_ log) ->
  descriptor_holds contents t_addr recs log st -> descriptor_holds contents t_addr recs log st'.
Proof. intros E (out & b & H1 & H2 & H3). exists out, b. by rewrite E. Qed.

Lemma inv_others D a cs (s s' : sys) : inv D a cs s -> others s s' -> inv D a cs s'.
Proof.
  intros I [O1 O2 O3 O4 O5 O6 O7 O8 O9 O10 O11 O12 O13]. pose proof (i_numbers _ _ _ _ I) as [N1 N2 N3 N4 N5 N6 N7 N8 N9].
  assert (log_number_ (versions_ (db s')) <= logfile_number_ (db s)) as Hln by (destruct O11 as [[_ ->]|[_ ->]]; lia).
  apply (inv_same_queue D a cs s); [done..| |].
  - unfold sequence_of in *. split; unfold sequence_of; rewrite ?O3, ?O6, ?O7, ?O8, ?O9; try done; lia.
  - destruct (i_mem _ _ _ _ I) as (old & imc & cur & -> & Hm & Hi & HD).
    assert (D -> quiet (files s') /\ writer_logs a cur (files s') (log_ (db s'))) as HD'.
    { intros HDD. destruct (HD HDD) as (Hq & (ta & recs & Hl & Hd) & _). split; [by apply O13|]. exists ta, recs. rewrite O6. split; [done|].
      revert Hd. apply descriptor_holds_same. rewrite N8. apply O12. lia. }
    destruct O11 as [[E1 E2]|[E1 E2]].
    + exists old, imc, cur. split; [done|]. split; [by eapply mem_rep_table|]. destruct (imm_ (db s)) as [m|], (imm_ (db s')) as [m'|]; try done.
      * injection E1 as E1. split; [by apply (mem_rep_table m)|]. intros HDD. destruct (HD' HDD) as [H1 H2]. split; [done|]. split; [done|].
        destruct (HD HDD) as (_ & _ & n & Hn & H0 & ta & recs & out & b & Hl & Hw & Hc). exists n. rewrite O7, E2. split; [done|]. split; [done|]. exists ta, recs, out, b.
        split; [done|]. split; [done|]. rewrite O12 by lia. done.
      * split; [done|]. intros HDD. by destruct (HD' HDD).
    + exists (old ++ imc), [], cur. rewrite <- app_assoc. split; [done|]. split; [by eapply mem_rep_table|]. rewrite E1. split; [done|]. intros HDD. by destruct (HD' HDD).
Qed.

(** ** From the end of MakeRoomForWrite to the unlocked part *)

(** The leader gets a new batch, the temporary batch new contents, and the
    leader's thread goes on. *)
Lemma inv_apply_next D a cs (s : sys) id w b in_tmp tmp last ls : let q := writers_ (db s) in
  inv D a cs s -> resting s -> head q = Some id -> ws s !! id = Some w -> has_batch a id = true ->
  (exists sq, b = batch_bytes sq (asked_by a id)) -> last ∈ q -> (in_tmp = false -> tmp = WriteBatch_new) ->
  (if in_tmp then tmp else b) = batch_bytes (sequence_of s + 1) (asked a (group last q)) -> ls = sequence_of s + Zlength (asked a (group last q)) ->
  inv D a cs (MkSys (with_tmp_batch (db s) tmp) (<[id := MkWriter (w_status w) (Some b) (w_sync w) (w_done w)]> (ws s)) (<[id := Applying in_tmp ls last]> (threads s)) (files s)).
Proof.
  intros q I Hr Hh Hw Hb Hsq Hl Htmp Hup Hls. destruct I as [I1 I2 I3 I4 I5 I6 I7 I8]. destruct (queue_head_in _ _ Hh) as [Hin [r Er]].
  set (s' := MkSys _ _ _ _). assert (leader s' = Some (id, Applying in_tmp ls last)) as El by (apply leader_is; [done|apply lookup_insert_eq]).
  destruct (resting_facts a s Hr) as (P1 & P2 & P3).
  assert (forall x w', ws s' !! x = Some w' -> exists w0, ws s !! x = Some w0 /\ w_done w' = w_done w0 /\ w_status w' = w_status w0) as Hws.
  { intros x w'. unfold s'. cbn [ws]. destruct (decide (x = id)) as [->|]; [rewrite lookup_insert_eq; intros [= <-]; by exists w|rewrite lookup_insert_ne by done; eauto]. }
  assert (queue_ok (set_thread s id (Applying in_tmp ls last))) as [Q1 Q2 Q3 Q4 Q5 Q6].
  { apply queue_set; try done. intros Ht. exfalso. pose proof (q_nodup s I1) as Hnd. fold q in Ht, Hnd. rewrite Er in Ht, Hnd. by apply NoDup_cons in Hnd as [? _]. }
  split; [| |by destruct I3| | |by apply (memtables_same D a cs s)| |done].
  - split; [done| |done|done| |].
    + intros x Hx. destruct (Q2 x Hx) as (w0 & Ew & Hd). cbn [ws set_thread] in Ew. unfold s'. cbn [ws]. destruct (decide (x = id)) as [->|].
      * rewrite lookup_insert_eq. eexists. split; [done|]. cbn. congruence.
      * rewrite lookup_insert_ne by done. eauto.
    + intros x th Hx Hn. assert (x <> id) as Hne by (intros ->; by apply Hn). unfold s'. cbn [ws]. rewrite lookup_insert_ne by done. by apply (Q5 x th).
    + intros x [w' Hx]. destruct (Hws x w' Hx) as (w0 & E0 & _). apply (Q6 x). by eexists.
  - destruct (calls_set a s id (Applying in_tmp ls last) I2) as [C1 C2 C3 C4 C5]; [by apply (q_ws s I1); eexists|]. split; [done|done|done|done|].
    intros x w'. unfold s'. cbn [ws]. destruct (decide (x = id)) as [->|]; [rewrite lookup_insert_eq; intros [= <-]; done|rewrite lookup_insert_ne by done; apply C5].
  - unfold phase_ok. rewrite El. split; [done|]. unfold updates_in, s'. cbn [ws db]. destruct in_tmp; [exact (f_equal Some Hup)|]. rewrite lookup_insert_eq. exact (f_equal Some Hup).
  - destruct I5 as [R1 R2 R3]. rewrite P2 in R1. split; [unfold in_flight; by rewrite El| |].
    + intros x w' Hx Hd. destruct (Hws x w' Hx) as (w0 & E0 & E1 & ->). apply R2; [done|congruence].
    + intros x st. unfold s'. cbn [threads]. destruct (decide (x = id)) as [->|]; [by rewrite lookup_insert_eq|rewrite lookup_insert_ne by done; apply R3].
  - unfold used. rewrite El. rewrite P3 in I7. done.
Qed.

Lemma inv_group D a cs (s : sys) id status : inv D a cs s -> resting s -> head (writers_ (db s)) = Some id ->
  exists s', Write_group s id status = Some s' /\ inv D a cs s'.
Proof.
  intros I Hr Hh. pose proof I as [I1 I2 I3 I4 I5 I6 I7 I8]. destruct (queue_head_in _ _ Hh) as [Hin [r Er]]. destruct (resting_facts a s Hr) as (P1 & P2 & P3). apply P1 in I4.
  destruct (q_in s I1 id Hin) as (w & Ew & Hd). pose proof (c_batch a s I2 id w Ew) as Hb. unfold Write_group. rewrite Ew. bind_simpl.
  assert ((ok status = true -> has_batch a id = false) -> exists s', Write_finish s id id status = Some s' /\ inv D a cs s') as Hfin.
  { intros Hok. apply inv_finish. destruct I5 as [(pre & c & R1 & R1' & R1'') R2 R3]. rewrite P2, app_nil_r in R1'.
    split; [done|done| |done|done|done| | |done|done|done|by rewrite <- P3|done].
    - intros rest Eq. by eapply numbers_rest.
    - exists pre, c. split; [done|]. split; [done|by left].
    - intros x Hx. assert (x = id) as ->. { rewrite Er in Hx. cbn [group] in Hx. rewrite Nat.eqb_refl in Hx. by apply list_elem_of_singleton in Hx. }
      split; [intros Hb' Ho; rewrite (Hok Ho) in Hb'; done|]. intros _. eapply call_entries_nodup; [apply (c_nodup a s I2)|by split; [exists pre, c; rewrite P2, app_nil_r|..]|done|rewrite P2; apply not_elem_of_nil]. }
  destruct (w_batch w) as [b|] eqn:Eb; [|by apply Hfin]. destruct Hb as [Hhb [q0 ->]]. destruct (ok status) eqn:Eo; [|by apply Hfin]. clear Hfin.
  destruct I3 as [N1 N2 N3 N4 N5 N6 N7 N8 N9]. destruct (BuildBatchGroup_ok a s id w I1 I2 N3 Hh Ew) as (g & -> & Hl & Hg); [by rewrite Eb|done|]. bind_simpl.
  set (q := writers_ (db s)) in *. destruct (group_prefix _ _ Hl) as [rest Eq].
  assert (Zlength (asked a q) = Zlength (asked a (group (g_last g) q)) + Zlength (asked a rest)) as Hz by (rewrite Eq at 1; by rewrite asked_app, Zlength_app).
  pose proof (Zlength_nonneg (asked a rest)). pose proof (Zlength_nonneg (asked a (group (g_last g) q))).
  rewrite kMaxSequenceNumber_val in N2. unfold sequence_of in N1, N2. assert (u64 (last_sequence_ (versions_ (db s)) + 1) = sequence_of s + 1) as E1 by (apply u64_small; unfold is_u64, sequence_of; lia).
  assert (u64 (last_sequence_ (versions_ (db s)) + Zlength (asked a (group (g_last g) q))) = sequence_of s + Zlength (asked a (group (g_last g) q))) as E2 by (apply u64_small; unfold is_u64, sequence_of; lia).
  unfold grouped_in in Hg. destruct (g_in_tmp g); unfold updates_in, store_updates; cbn [db set_db tmp_batch_ with_tmp_batch ws].
  - bind_simpl. cbn [db set_db tmp_batch_ with_tmp_batch]. rewrite Hg, SetSequence_ok, E1, Count_ok, E2 by lia. eexists. split; [done|].
    pose proof (inv_apply_next D a cs s id w (batch_bytes q0 (asked_by a id)) true (batch_bytes (sequence_of s + 1) (asked a (group (g_last g) q))) (g_last g) _ I Hr Hh Ew Hhb (ex_intro _ q0 eq_refl) Hl ltac:(done) eq_refl eq_refl) as Hi.
    rewrite insert_id in Hi by (rewrite Ew; f_equal; destruct w; cbn in *; by rewrite Eb). exact Hi.
  - destruct Hg as [Hg1 Hg2]. rewrite Hg2 in *. rewrite Ew. bind_simpl. rewrite Eb. bind_simpl. cbn [ws]. rewrite lookup_insert_eq. bind_simpl. cbn [w_batch]. bind_simpl. rewrite SetSequence_ok, E1, Count_ok, E2 by lia.
    eexists. split; [done|]. unfold set_thread. cbn [db ws threads files]. rewrite Hg1. apply (inv_apply_next D a cs s id w); try done; [by eexists|fold q; by rewrite Hg2..].
Qed.

(** ** MakeRoomForWrite *)

Lemma running_is_head (s : sys) id th : queue_ok s -> threads s !! id = Some th -> th <> Asleep -> th <> Woken -> (forall st, th <> Returned st) -> head (writers_ (db s)) = Some id.
Proof.
  intros Hq Ht H1 H2 H3. destruct (decide (id ∈ writers_ (db s))) as [Hin|Hn].
  - destruct (writers_ (db s)) as [|x q] eqn:Eq; [by apply elem_of_nil in Hin|]. apply elem_of_cons in Hin as [->|Hin]; [done|].
    destruct (q_tail s Hq id) as [E|E]; [by rewrite Eq|congruence..].
  - destruct (q_out s Hq id th Ht Hn) as [(-> & _)|(st & -> & _)]; naive_solver.
Qed.

Lemma LogFileName_inj n m : is_u64 n -> is_u64 m -> LogFileName dbname n = LogFileName dbname m -> n = m.
Proof.
  intros Hn Hm E. destruct (filename_roundtrip dbname n Hn) as [(f & Ef & Pf) _], (filename_roundtrip dbname m Hm) as [(g & Eg & Pg) _].
  rewrite Ef, Eg in E. do 2 apply app_inv_head in E. congruence.
Qed.

Lemma reuse_new vs n vs' : NewFileNumber vs = (n, vs') -> ReuseFileNumber vs' n = vs.
Proof. intros [= <- <-]. unfold ReuseFileNumber. cbn [next_file_number_]. rewrite Z.eqb_refl. by destruct vs. Qed.

Context `{!EnvLaws env contents} `{!EnvQuiet env contents quiet} `{!ComparatorLaws ucmp any_key}.

Lemma inv_switch D a cs (s : sys) t_addr st' : let n := next_file_number_ (versions_ (db s)) in let vs := (NewFileNumber (versions_ (db s))).2 in
  inv D a cs s -> numbers_left s -> imm_ (db s) = None -> NewWritableFile env (files s) (LogFileName dbname n) = (Status_OK, st') ->
  inv D a cs (MkSys (switch_memtable (with_versions (db s) vs) (LogFileName dbname n) n t_addr) (ws s) (threads s) st').
Proof.
  intros n vs I Hleft Him En. pose proof (i_numbers _ _ _ _ I) as [N1 N2 N3 N4 N5 N6 N7 N8 N9]. unfold numbers_left in Hleft. fold n in Hleft, N5, N6.
  apply (inv_same_queue D a cs s); try done.
  - split; cbn [db switch_memtable with_versions versions_ logfile_number_ log_ writers_]; try done; subst vs; cbn [NewFileNumber snd next_file_number_ prev_log_number_ log_number_]; fold n;
      rewrite ?u64_small by (unfold is_u64; lia); try done; lia.
  - destruct (i_mem _ _ _ _ I) as (old & imc & cur & -> & Hm & Hi & HD). rewrite Him in Hi, HD. subst imc.
    exists old, cur, []. split; [by rewrite app_nil_r|]. cbn [db switch_memtable with_versions mem_ imm_ versions_ log_ logfile_number_ files].
    split; [apply (mem_rep_table MemTable_new); [done|apply MemTable_new_rep; apply _]|]. split; [exact Hm|]. intros HDD. destruct (HD HDD) as (Hq & (ta & recs & Hl & out & b & Hw & El & Hc) & _).
    pose proof (quiet_new (files s) (LogFileName dbname n) Hq) as [_ Hq']. pose proof (new_ok (files s) (LogFileName dbname n)) as Hno. pose proof (new_frame (files s) (LogFileName dbname n)) as Hfr.
    rewrite En in Hq', Hno, Hfr. cbn [fst snd] in *. split; [done|]. split; [exists t_addr, []; split; [done|]; exists [], 0; split_and!; [done|done|by apply Hno]|].
    exists (logfile_number_ (db s)). split; [subst vs; cbn [NewFileNumber snd log_number_]; lia|]. split; [lia|]. exists ta, recs, out, b. split; [done|]. split; [done|]. rewrite <- N8, Hfr; [done|].
    rewrite N8. intros E. apply LogFileName_inj in E; unfold is_u64; lia.
Qed.

Lemma inv_room D a cs (s : sys) id force allow_delay t_addr : inv D a cs s -> numbers_left s ->
  (threads s !! id = Some (MakingRoom force allow_delay) \/ threads s !! id = Some (WaitingBg force allow_delay)) ->
  exists e s', Write_room env capacity dbname write_buffer_size s id force allow_delay t_addr = Some (e, s') /\ (e = Silent \/ e = Switched) /\ inv D a cs s'.
Proof.
  intros I Hleft Hth. pose proof (i_queue _ _ _ _ I) as Hq. pose proof (i_numbers _ _ _ _ I) as [N1 N2 N3 N4 N5 N6 N7 N8 N9].
  assert (head (writers_ (db s)) = Some id) as Hh by (destruct Hth as [Ht|Ht]; eapply running_is_head; try done).
  assert (resting s) as Hr by (destruct Hth as [Ht|Ht]; by eapply (idle_resting s id)).
  assert (forall st', (D -> False) -> inv D a cs (MkSys (db s) (ws s) (threads s) st')) as Hfail.
  { intros st' HnD. apply (inv_same_queue D a cs s); try done. destruct (i_mem _ _ _ _ I) as (old & imc & cur & E & Hm & Hi & _).
    exists old, imc, cur. split; [done|]. split; [done|]. split; [done|]. intros HD. destruct (HnD HD). }
  assert (s = MkSys (db s) (ws s) (threads s) (files s)) as Es by (by destruct s).
  assert (forall status st', inv D a cs (MkSys (db s) (ws s) (threads s) st') -> exists e s', (s0 ← Write_group (MkSys (db s) (ws s) (threads s) st') id status; Some (Silent, s0)) = Some (e, s') /\
    (e = Silent \/ e = Switched) /\ inv D a cs s') as Hgrp.
  { intros status st' I'. destruct (inv_group D a cs _ id status I' Hr Hh) as (s' & -> & Hi). exists Silent, s'. split; [done|]. split; [by left|done]. }
  assert (forall th, idle th -> exists e s', Some (Silent, set_thread (MkSys (db s) (ws s) (threads s) (files s)) id th) = Some (e, s') /\ (e = Silent \/ e = Switched) /\ inv D a cs s') as Hset.
  { intros th Hid. exists Silent. eexists. split; [done|]. split; [by left|]. rewrite <- Es. by apply inv_set_leader. }
  unfold Write_room, MakeRoomForWrite_pass. destruct (writers_ (db s)) as [|y q] eqn:Eq; [done|]. rewrite <- Eq in *.
  destruct (negb (ok (bg_error_ (db s)))); [bind_simpl; apply Hgrp; by rewrite <- Es|]. destruct (_ && _); [bind_simpl; by apply Hset|].
  destruct (negb force && _); [bind_simpl; apply Hgrp; by rewrite <- Es|]. destruct (imm_ (db s)) eqn:Him; [bind_simpl; by apply Hset|].
  destruct (_ <=? _); [bind_simpl; by apply Hset|]. rewrite N4. cbn [Z.eqb negb]. destruct (NewFileNumber (versions_ (db s))) as [n vs] eqn:En.
  destruct (NewWritableFile env (files s) (LogFileName dbname n)) as [so st'] eqn:Ew. destruct (ok so) eqn:Eo; cbn [negb]; bind_simpl.
  - apply ok_is_OK in Eo as ->. eexists Switched, _. split; [done|]. split; [by right|]. pose proof En as [= <- Evs].
    pose proof (inv_switch D a cs s t_addr st' I Hleft Him Ew) as Hi. rewrite En in Hi. cbn [snd] in Hi. by apply inv_set_leader.
  - rewrite (reuse_new _ _ _ En). replace (with_versions (db s) (versions_ (db s))) with (db s) by (by destruct (db s)). apply Hgrp, Hfail.
    intros HD. destruct (i_mem _ _ _ _ I) as (old & imc & cur & _ & _ & _ & HDD). destruct (HDD HD) as (Hqt & _). destruct (quiet_new (files s) (LogFileName dbname n) Hqt) as [Ho _].
    rewrite Ew in Ho. cbn in Ho. congruence.
Qed.

(** ** The unlocked part *)

Lemma older_weaken n m es : n <= m -> older n es -> older m es.
Proof. intros Hnm Ho. eapply Forall_impl; [exact Ho|]. cbn. lia. Qed.

Lemma older_numbered n us : older (n + Zlength us) (numbered n us).
Proof. apply Forall_forall. intros e He. apply numbered_bounds in He. lia. Qed.

Lemma numbered_increasing n us : increasing (numbered n us).
Proof.
  revert n. induction us as [|u us IH]; intros n; [constructor|]. rewrite numbered_cons. unfold increasing. cbn [map]. constructor; [apply IH|].
  apply Forall_map, Forall_forall. intros e He. apply numbered_bounds in He. destruct u; cbn; lia.
Qed.

Lemma increasing_app n es us : older (n + 1) es -> increasing es -> increasing (es ++ numbered (n + 1) us).
Proof.
  intros Ho Hi. unfold increasing. rewrite map_app. apply StronglySorted_app_intro; [exact Hi|apply numbered_increasing|].
  intros x y (e & -> & He)%list_elem_of_fmap (e' & -> & He')%list_elem_of_fmap. unfold older in Ho. rewrite Forall_forall in Ho. specialize (Ho e He). apply numbered_bounds in He'. lia.
Qed.

(** A writer whose call is over is not in the queue. *)
Lemma done_not_queued (s : sys) id : queue_ok s -> (exists w, ws s !! id = Some w /\ w_done w = true) \/ (exists st, threads s !! id = Some (Returned st)) -> id ∉ writers_ (db s).
Proof.
  intros Hq Hx Hin. destruct Hx as [(w & Ew & Hd)|(st & Ht)].
  - destruct (q_in s Hq id Hin) as (w' & Ew' & Hd'). congruence.
  - destruct (writers_ (db s)) as [|x q] eqn:Eq; [by apply elem_of_nil in Hin|]. apply elem_of_cons in Hin as [->|Hin].
    + destruct (q_head s Hq x) as (th & Ht' & _ & Hr); [by rewrite Eq|]. rewrite Ht in Ht'. injection Ht' as <-. by apply (Hr st).
    + destruct (q_tail s Hq id) as [E|E]; [by rewrite Eq|congruence..].
Qed.

Lemma answered_more a cs g (s : sys) id st : queue_ok s -> (forall x, x ∈ g -> x ∈ writers_ (db s)) ->
  (exists w, ws s !! id = Some w /\ w_done w = true) \/ (exists st, threads s !! id = Some (Returned st)) ->
  answered a (commit_ids cs) id st -> answered a (commit_ids cs ++ g) id st.
Proof.
  intros Hq Hg Hx [H1 H2]. pose proof (done_not_queued s id Hq Hx) as Hn. split; [intros Hb Ho; apply elem_of_app; left; auto|]. intros Ho. rewrite not_elem_of_app. split; [auto|].
  intros Hin. by apply Hn, Hg.
Qed.

(** The group is in the memtable, or not, and the leader goes on. *)
Lemma inv_applied D a cs (s : sys) id in_tmp ls last log mem status st : let q := writers_ (db s) in let g := group last q in
  let cs' := if ok status then cs ++ [(sequence_of s + 1, g)] else cs in
  inv D a cs s -> threads s !! id = Some (Applying in_tmp ls last) -> head q = Some id -> dest_ log = dest_ (log_ (db s)) -> writable log ->
  memtables_ok D a cs' (MkSys (with_mem (with_log (db s) log) mem) (ws s) (<[id := Finishing status in_tmp ls last]> (threads s)) st) ->
  inv D a cs' (MkSys (with_mem (with_log (db s) log) mem) (ws s) (<[id := Finishing status in_tmp ls last]> (threads s)) st).
Proof.
  intros q g cs' I Ht Hh Hdest Hwr Hmem. destruct I as [I1 I2 I3 I4 I5 I6 I7 I8]. destruct (queue_head_in _ _ Hh) as [Hin [r Er]]. set (s' := MkSys _ _ _ _) in *.
  assert (leader s = Some (id, Applying in_tmp ls last)) as El0 by (by apply leader_is).
  assert (leader s' = Some (id, Finishing status in_tmp ls last)) as El by (apply leader_is; [done|apply lookup_insert_eq]).
  unfold phase_ok in I4. rewrite El0 in I4. destruct I4 as [(G1 & G2 & G3 & G4) _]. fold q in G2, G3. fold g in G3.
  assert (forall x, x ∈ g -> x ∈ q) as Hgq by (intros x Hx; destruct (group_prefix _ _ G2) as [rest ->]; apply elem_of_app; by left).
  assert (used s = sequence_of s /\ in_flight s = []) as [Hu Hf] by (unfold used, in_flight; by rewrite El0). rewrite Hu in I7.
  assert (commit_ids cs' = commit_ids cs ++ if ok status then g else []) as Eids.
  { unfold cs'. destruct (ok status); [|by rewrite app_nil_r]. rewrite commit_ids_app. f_equal. unfold commit_ids. cbn. by rewrite app_nil_r. }
  assert (commit_entries a cs' = commit_entries a cs ++ if ok status then numbered (sequence_of s + 1) (asked a g) else []) as Eent.
  { unfold cs'. destruct (ok status); [|by rewrite app_nil_r]. rewrite commit_entries_app. f_equal. unfold commit_entries. cbn [map concat fst snd]. by rewrite app_nil_r. }
  pose proof (Zlength_nonneg (asked a g)).
  assert (forall x, x ∈ (if ok status then g else []) -> x ∈ writers_ (db s)) as Hgq' by (intros x; destruct (ok status); [apply Hgq|intros Hx; by apply elem_of_nil in Hx]).
  split; [| | | | |done| |].
  - destruct (queue_set s id (Finishing status in_tmp ls last) I1 Hin) as [Q1 Q2 Q3 Q4 Q5 Q6]; [done|done| |by split].
    intros Htl. exfalso. pose proof (q_nodup s I1) as Hnd. fold q in Htl, Hnd. rewrite Er in Htl, Hnd. by apply NoDup_cons in Hnd as [? _].
  - destruct (calls_set a s id (Finishing status in_tmp ls last) I2) as [C1 C2 C3 C4 C5]; [by rewrite Ht|]. by split.
  - destruct I3 as [N1 N2 N3 N4 N5 N6 N7 N8 N9]. split; try done. cbn. by rewrite Hdest.
  - unfold phase_ok. rewrite El. done.
  - destruct I5 as [(pre & c & R1 & R1' & R1'') R2 R3]. rewrite Hf, app_nil_r in R1'. split; rewrite Eids.
    + exists pre, c. unfold in_flight. rewrite El, R1'. done.
    + intros x w Hx Hd. apply (answered_more a cs _ s); [done|done|left; by exists w|by apply R2].
    + intros x st0. cbn [threads s']. destruct (decide (x = id)) as [->|]; [by rewrite lookup_insert_eq|]. rewrite lookup_insert_ne by done. intros Hx.
      apply (answered_more a cs _ s); [done|done|right; by exists st0|by apply R3].
  - unfold used. rewrite El, Eent. apply Forall_app. split; [eapply older_weaken; [|exact I7]; lia|]. destruct (ok status); [|constructor].
    eapply older_weaken; [|apply older_numbered]. lia.
  - rewrite Eent. destruct (ok status); [|by rewrite app_nil_r]. by apply increasing_app.
Qed.

Lemma asked_fits a ids : (forall id, Forall update_fits (asked_by a id)) -> Forall update_fits (asked a ids).
Proof. intros H. unfold asked. apply Forall_concat, Forall_map, Forall_forall. auto. Qed.

(** The log gets the group's record; when nothing fails it holds it. *)
Lemma log_group a cur imc (s : sys) b seq g addr sync : writable (log_ (db s)) -> b = batch_bytes seq (asked a g) ->
  exists s1 log st1, log_AddRecord env (files s) (log_ (db s)) addr b = Some (s1, log, st1) /\ writable log /\ dest_ log = dest_ (log_ (db s)) /\
    let r := if ok s1 && sync then file_Sync env st1 (dest_ log) else (s1, st1) in
    (quiet (files s) -> writer_logs a cur (files s) (log_ (db s)) ->
       ok r.1 = true /\ quiet r.2 /\ writer_logs a (cur ++ [(seq, g)]) r.2 log /\
       forall name, name <> dest_ (log_ (db s)) -> file_logs a imc (files s) name -> file_logs a imc r.2 name).
Proof.
  intros Hwr ->. destruct (log_AddRecord_returns env contents (files s) (log_ (db s)) addr (batch_bytes seq (asked a g)) Hwr) as (s1 & log & st1 & E & Hw & Hn & Hfr).
  exists s1, log, st1. split; [done|]. split; [done|]. split; [done|]. intros r Hq (ta & recs & Hl & Hd).
  destruct (log_AddRecord_ok env contents quiet ta recs (log_ (db s)) (files s) addr (batch_bytes seq (asked a g)) Hq Hd) as (log2 & st2 & E2 & Hq2 & Hd2 & Hn2 & Hfr2).
  rewrite E in E2. injection E2 as -> <- <-. assert (writer_logs a (cur ++ [(seq, g)]) st1 log) as Hlog.
  { exists ta, (recs ++ [(addr, batch_bytes seq (asked a g))]). split; [|done]. unfold log_of in *. rewrite !map_app, Hl. done. }
  assert (forall name, name <> dest_ (log_ (db s)) -> file_logs a imc (files s) name -> file_logs a imc st1 name) as Hfile.
  { intros name Hne (ta' & recs' & out & b & H1 & H2 & H3). exists ta', recs', out, b. by rewrite Hfr. }
  subst r. change (ok Status_OK) with true. destruct sync; cbn [andb fst snd]; [|done].
  pose proof Hd2 as (out & b & _ & _ & Hc). destruct (quiet_sync st1 (dest_ log) Hq2) as [Ho Hq3]; [by rewrite Hc|]. pose proof (sync_same st1 (dest_ log)) as Hs.
  destruct (file_Sync env st1 (dest_ log)) as [s3 st3]. cbn [fst snd] in *. split; [done|]. split; [done|]. split.
  - destruct Hlog as (ta' & recs' & H1 & H2). exists ta', recs'. split; [done|]. revert H2. apply descriptor_holds_same. apply Hs.
  - intros name Hne Hf. destruct (Hfile name Hne Hf) as (ta' & recs' & out' & b' & H1 & H2 & H3). exists ta', recs', out', b'. by rewrite Hs.
Qed.

Lemma inv_apply D a cs (s : sys) id in_tmp ls last addr : inv D a cs s -> threads s !! id = Some (Applying in_tmp ls last) ->
  exists e s', Write_apply env ucmp s id in_tmp ls last addr = Some (e, s') /\
    match e with Committed seq ids => inv D a (cs ++ [(seq, ids)]) s' | Silent => inv D a cs s' | _ => False end.
Proof.
  intros I Ht. pose proof I as [I1 I2 I3 I4 I5 I6 I7 I8]. assert (head (writers_ (db s)) = Some id) as Hh by (eapply running_is_head; done).
  destruct (queue_head_in _ _ Hh) as [Hin _]. destruct (q_in s I1 id Hin) as (w & Ew & _). assert (leader s = Some (id, Applying in_tmp ls last)) as El by (by apply leader_is).
  unfold phase_ok in I4. rewrite El in I4. destruct I4 as [(G1 & G2 & G3 & G4) U]. assert (used s = sequence_of s) as Hu by (unfold used; by rewrite El). rewrite Hu in I7.
  set (g := group last (writers_ (db s))) in *. pose proof I3 as [N1 N2 N3 N4 N5 N6 N7 N8 N9]. destruct I6 as (old & imc & cur & Ecs & Hm & Him & HD).
  assert (Zlength (asked a g) <= Zlength (asked a (writers_ (db s)))) as Hz.
  { destruct (group_prefix last (writers_ (db s)) G2) as [rest Eq]. fold g in Eq. rewrite Eq, asked_app, Zlength_app. pose proof (Zlength_nonneg (asked a rest)). lia. }
  unfold Write_apply. rewrite Ew. bind_simpl. rewrite U. bind_simpl. unfold Contents.
  destruct (log_group a cur imc s _ (sequence_of s + 1) g addr (w_sync w) N9 eq_refl) as (s1 & log & st1 & E & Hw & Hn & Hq). rewrite E. bind_simpl. cbv zeta in Hq.
  destruct (if ok s1 && w_sync w then file_Sync env st1 (dest_ log) else (s1, st1)) as [s2 st2]. cbn [fst snd] in Hq.
  assert (D -> ok s2 = true /\ quiet st2 /\ writer_logs a (cur ++ [(sequence_of s + 1, g)]) st2 log /\ forall name, name <> dest_ (log_ (db s)) -> file_logs a imc (files s) name -> file_logs a imc st2 name) as Hq'.
  { intros HDD. destruct (HD HDD) as (H1 & H2 & _). by apply Hq. }
  destruct (ok s2) eqn:Eo.
  - destruct (InsertInto_ok ucmp (mem_ (db s)) (commit_entries a cur) (asked a g) (sequence_of s + 1)) as (mem & Ei & Hm').
    { done. } { rewrite Ecs, !commit_entries_app in I7. unfold older in *. rewrite !Forall_app in I7. tauto. } { lia. } { lia. } { apply asked_fits, (c_fits a s I2). } { lia. }
    rewrite Ei. bind_simpl. change (ok Status_OK) with true. cbv iota. destruct (batch_header (sequence_of s + 1) (asked a g)) as (-> & _).
    rewrite u64_small by (unfold is_u64; rewrite kMaxSequenceNumber_val in N2; pose proof (Zlength_nonneg (asked a (writers_ (db s)))); lia). eexists _, _. split; [done|]. cbv iota.
    apply (inv_applied D a cs s id in_tmp ls last log mem Status_OK st2 I Ht Hh Hn Hw). change (ok Status_OK) with true. cbv iota.
    exists old, imc, (cur ++ [(sequence_of s + 1, g)]). split; [rewrite Ecs, <- !app_assoc; done|]. split; [|split; [exact Him|]].
    + rewrite commit_entries_app. unfold commit_entries at 2. cbn [map concat fst snd]. rewrite app_nil_r. exact Hm'.
    + intros HDD. destruct (Hq' HDD) as (_ & H1 & H2 & H3). cbn [files db log_ with_mem with_log imm_ versions_ logfile_number_]. split; [done|]. split; [done|].
      destruct (HD HDD) as (_ & _ & H4). destruct (imm_ (db s)); [|done]. destruct H4 as (n & Hn1 & Hn2 & Hf). exists n. split; [done|]. split; [done|]. apply H3; [|done].
      rewrite N8. intros En. apply LogFileName_inj in En; unfold is_u64; lia.
  - bind_simpl. rewrite Eo. eexists _, _. split; [done|]. cbv iota. pose proof (inv_applied D a cs s id in_tmp ls last log (mem_ (db s)) s2 st2 I Ht Hh Hn Hw) as Hi. cbv zeta in Hi. rewrite Eo in Hi. apply Hi.
    exists old, imc, cur. split; [done|]. split; [done|]. split; [done|]. intros HDD. destruct (Hq' HDD) as [? _]. done.
Qed.

(** ** The end of a group *)

Lemma inv_end D a cs (s : sys) id status in_tmp ls last : inv D a cs s -> threads s !! id = Some (Finishing status in_tmp ls last) ->
  exists s', Write_end s id status in_tmp ls last = Some s' /\ inv D a cs s'.
Proof.
  intros I Ht. pose proof I as [I1 I2 I3 I4 I5 I6 I7 I8]. assert (head (writers_ (db s)) = Some id) as Hh by (eapply running_is_head; done).
  assert (leader s = Some (id, Finishing status in_tmp ls last)) as El by (by apply leader_is). unfold phase_ok in I4. rewrite El in I4. destruct I4 as (G1 & G2 & G3 & G4).
  assert (used s = ls) as Hu by (unfold used; by rewrite El). rewrite Hu in I7. set (q := writers_ (db s)) in *. set (g := group last q) in *.
  assert (in_flight s = if ok status then g else []) as Hf by (unfold in_flight; by rewrite El).
  destruct I3 as [N1 N2 N3 N4 N5 N6 N7 N8 N9]. pose proof (Zlength_nonneg (asked a g)). unfold Write_end, SetLastSequence. set (d := if in_tmp then _ else _).
  assert (versions_ d = versions_ (db s) /\ mem_ d = mem_ (db s) /\ imm_ d = imm_ (db s) /\ log_ d = log_ (db s) /\ logfile_number_ d = logfile_number_ (db s) /\ writers_ d = q /\
    tmp_batch_ d = WriteBatch_new) as (D1 & D2 & D3 & D4 & D5 & D6 & D7) by (unfold d; destruct in_tmp; split_and!; auto). rewrite D1. unfold sequence_of in *.
  rewrite (proj2 (Z.ltb_ge _ _)) by lia. bind_simpl. destruct I5 as [(pre & c & R1 & R1' & R1'') R2 R3]. fold q in R1. rewrite Hf in R1'.
  apply inv_finish. set (s1 := set_db s _). assert (writers_ (db s1) = q) as Eq1 by done.
  split; rewrite ?Eq1; [| | |done|done|exact D7| | |done|done| |done|done].
  - destruct I1 as [Q1 Q2 Q3 Q4 Q5 Q6]. split; rewrite ?Eq1; done.
  - destruct I2 as [C1 C2 C3 C4 C5]. split; rewrite ?Eq1; done.
  - intros rest Eq. fold g in Eq. fold q in N2, N3. rewrite Eq, asked_app, Zlength_app in N2, N3. split; unfold sequence_of, s1; cbn [db set_db with_writers with_versions writers_ versions_ last_sequence_ next_file_number_ prev_log_number_ log_number_ logfile_number_ log_]; rewrite ?D1, ?D4, ?D5; try done; lia.
  - exists pre, c. split; [done|]. split; [done|]. rewrite R1'. destruct (ok status); [by right|left; by rewrite app_nil_r].
  - intros x Hx. split.
    + intros _ Ho. rewrite R1', Ho. apply elem_of_app. by right.
    + intros Ho. eapply call_entries_nodup; [apply (c_nodup a s I2)|by split; [exists pre, c; rewrite Hf|..]| |rewrite Hf, Ho; apply not_elem_of_nil].
      fold q. destruct (group_prefix _ _ G2) as [rest ->]. apply elem_of_app. by left.
  - revert I6. by apply memtables_same; cbn; rewrite ?D1.
Qed.

(** ** Every reachable state *)

Lemma inv_run D a cs (s : sys) id th addr : inv D a cs s -> numbers_left s -> threads s !! id = Some th -> (forall st, th <> Returned st) ->
  exists e s', run s id addr = Some (e, s') /\
    match e with Called _ _ => False | Committed seq ids => inv D a (cs ++ [(seq, ids)]) s' | _ => inv D a cs s' end.
Proof.
  intros I Hleft Ht Hr. unfold run. rewrite Ht. bind_simpl. destruct th as [| |f d|f d|in_tmp ls last|st in_tmp ls last|st].
  - destruct (inv_wait D a cs s id _ I Ht) as (s' & -> & I'); [by left|]. exists Silent, s'. done.
  - destruct (inv_wait D a cs s id _ I Ht) as (s' & -> & I'); [by right|]. exists Silent, s'. done.
  - destruct (inv_room D a cs s id f d addr I Hleft) as (e & s' & E & He & I'); [by left|]. exists e, s'. split; [done|]. by destruct He as [-> | ->].
  - destruct (inv_room D a cs s id f d addr I Hleft) as (e & s' & E & He & I'); [by right|]. exists e, s'. split; [done|]. by destruct He as [-> | ->].
  - destruct (inv_apply D a cs s id in_tmp ls last addr I Ht) as (e & s' & E & I'). exists e, s'. split; [done|]. by destruct e.
  - destruct (inv_end D a cs s id st in_tmp ls last I Ht) as (s' & -> & I'). exists Silent, s'. done.
  - by destruct (Hr st).
Qed.

Lemma inv_opened (s : sys) : opened s -> inv (quiet (files s)) [] [] s.
Proof.
  intros [(Q1 & Q2 & Q3 & Q4) [M1 M2] (N1 & N2 & N3 & N4 & N5) (t_addr & L) F]. assert (leader s = None) as El by (by apply leader_none).
  assert (resting s) as Hr by (unfold resting; by rewrite El). destruct (resting_facts [] s Hr) as (P1 & P2 & P3).
  split; [| | | by apply P1| | |constructor|constructor].
  - split; rewrite ?Q1, ?Q3, ?Q4; [apply NoDup_nil_2|intros id []%elem_of_nil|intros id []%elem_of_nil|done|done|intros id [? ?]; done].
  - split; rewrite ?Q1, ?Q3, ?Q4; [apply NoDup_nil_2|by exists []| |constructor|done].
    intros id. rewrite lookup_empty. split; [by intros []|intros []%elem_of_nil].
  - split; unfold sequence_of; rewrite ?Q1, ?L; try done; change (Zlength (asked [] [])) with 0; try lia.
  - split; rewrite ?Q1, ?Q3, ?Q4; [exists [], []; by rewrite P2|done|done].
  - exists [], [], []. split; [done|]. split; [done|]. rewrite M2. split; [done|]. intros Hq. split; [done|]. split; [|done]. exists t_addr, []. split; [done|]. exists [], 0. rewrite L. split_and!; done.
Qed.

Lemma reach_inv (s0 : sys) tr s : opened s0 -> reach s0 tr s -> inv (quiet (files s0)) (arrivals tr) (commits tr) s.
Proof.
  intros H0 Hr. induction Hr as [|tr s e s' Hr IH Hs]; [by apply inv_opened|]. unfold arrivals, commits. rewrite !omap_app. fold (arrivals tr) (commits tr).
  inversion Hs as [id us sync s1 Hf E|id addr e1 s1 Hleft E|s1 Ho]; subst.
  - destruct (inv_call _ tr _ s id us sync IH Hf) as (s1 & E1 & I1). rewrite E in E1. injection E1 as <-. cbn. by rewrite app_nil_r.
  - unfold run in E. destruct (threads s !! id) as [th|] eqn:Et; [|done]. assert (forall st, th <> Returned st) as Hnr by (intros st ->; done).
    destruct (inv_run _ _ _ s id th addr IH Hleft Et Hnr) as (e1 & s1 & E1 & I1). unfold run in E1. rewrite Et in E1. rewrite E in E1. injection E1 as <- <-.
    destruct e; cbn; rewrite ?app_nil_r; try done.
  - cbn. rewrite !app_nil_r. by eapply inv_others.
Qed.

Lemma has_batch_called a id us : NoDup (map fst a) -> (id, Some us) ∈ a -> has_batch a id = true.
Proof.
  intros Hnd Hin. unfold has_batch. induction a as [|[x o] a IH]; [by apply elem_of_nil in Hin|]. cbn in Hnd |- *. apply NoDup_cons in Hnd as [Hx Hnd].
  apply elem_of_cons in Hin as [[= <- <-]|Hin]; [by rewrite Nat.eqb_refl|]. rewrite (proj2 (Nat.eqb_neq _ _)); [by apply IH|].
  intros ->. apply Hx. apply list_elem_of_fmap. by exists (id, Some us).
Qed.

Lemma file_logs_read a cs st name : file_logs a cs st name ->
  exists out, contents st name = Some out /\ (ChecksumLaws C -> forall store, log_verifies store out = true) /\
    forall store lro eob has_rep, is_u64 lro -> log_verifies store out = true -> exists r', read_log (length cs) (Reader_new (MkSequentialFile out []) has_rep true store 0 lro eob) =
      Some (map (fun c => batch_bytes c.1 (asked a c.2)) cs, r') /\ reports r' = [].
Proof.
  intros (ta & recs & out & b & Hl & Hw & Hc). exists out. split; [done|]. split; [by intros L store; eapply written_verifies|]. intros store lro eob has_rep Hlro Hv.
  pose proof (written_out_reads ta recs out b store lro eob has_rep Hw Hv Hlro) as Hr. rewrite Hl in Hr. apply reads_read_log; [done|by rewrite length_map].
Qed.

Lemma writer_logs_file a cs st log : writer_logs a cs st log -> file_logs a cs st (dest_ log).
Proof. intros (ta & recs & Hl & out & b & Hw & _ & Hc). by exists ta, recs, out, b. Qed.

End Write.

(** ** Running a schedule *)

(** A schedule of calls and segments, with the conditions of [step] checked. *)
Inductive action := Call (id : nat) (us : option (list update)) (sync : bool) | Run (id : nat) (addr : Z).

Section Play.
Context {St : Type} (env : EnvOps St) (contents : St -> bytes -> option bytes) (quiet : St -> Prop).
Context `{C : Checksum} (ucmp : Comparator) `{HA : HeapAlloc} (capacity : nat -> Z) (dbname : bytes) (write_buffer_size : Z).

Definition fitsb (u : update) : bool :=
  match u with UPut k v => (Zlength k + 8 <? 2 ^ 32) && (Zlength v <? 2 ^ 32) | UDelete k => Zlength k + 8 <? 2 ^ 32 end.

Definition call_fitsb (tr : list event) (s : sys (St := St)) (id : nat) (us : option (list update)) : bool :=
  let l := Zlength (asked (arrivals tr) (writers_ (db s)) ++ default [] us) in
  bool_decide (threads s !! id = None) && forallb fitsb (default [] us) &&
  (last_sequence_ (versions_ (db s)) + l <? kMaxSequenceNumber) && (l <? 2 ^ 31).

Definition play1 (x : action) (tr : list event) (s : sys (St := St)) : option (list event * sys) :=
  match x with
  | Call id us sync => if call_fitsb tr s id us then s ← Write_call s id (build <$> us) sync; Some (tr ++ [Called id us], s) else None
  | Run id addr =>
      if next_file_number_ (versions_ (db s)) + 1 <? 2 ^ 64 then
        '(e, s) ← run env ucmp capacity dbname write_buffer_size s id addr; Some (tr ++ [e], s)
      else None
  end.

Fixpoint play (xs : list action) (tr : list event) (s : sys (St := St)) : option (list event * sys) :=
  match xs with [] => Some (tr, s) | x :: xs => '(tr, s) ← play1 x tr s; play xs tr s end.

Lemma fitsb_ok us : forallb fitsb us = true -> Forall update_fits us.
Proof. rewrite forallb_forall, Forall_forall. intros H u Hu%list_elem_of_In. specialize (H u Hu). destruct u; cbn in *; lia. Qed.

Lemma play1_step x tr s tr' s' : play1 x tr s = Some (tr', s') ->
  (exists id us sync, call_fits tr s id us /\ Write_call s id (build <$> us) sync = Some s' /\ tr' = tr ++ [Called id us]) \/
  (exists id addr e, numbers_left s /\ run env ucmp capacity dbname write_buffer_size s id addr = Some (e, s') /\ tr' = tr ++ [e]).
Proof.
  destruct x as [id us sync|id addr]; cbn [play1]; intros E1.
  - left. destruct (call_fitsb tr s id us) eqn:Ef; [|done]. destruct (Write_call s id (build <$> us) sync) as [s2|] eqn:Ec; [|done]. injection E1 as <- <-.
    exists id, us, sync. split; [|done]. unfold call_fitsb in Ef. rewrite !andb_true_iff, bool_decide_eq_true, !Z.ltb_lt in Ef. destruct Ef as [[[F1 F2] F3] F4].
    split; [done|by apply fitsb_ok|done|done].
  - right. destruct (Z.ltb_spec (next_file_number_ (versions_ (db s)) + 1) (2 ^ 64)) as [Hl|]; [|done]. destruct (run _ _ _ _ _ s id addr) as [[e s2]|] eqn:Ec; [|done]. injection E1 as <- <-.
    by exists id, addr, e.
Qed.

Lemma play_reach s0 xs : forall tr s tr' s', reach env contents quiet ucmp capacity dbname write_buffer_size s0 tr s -> play xs tr s = Some (tr', s') ->
  reach env contents quiet ucmp capacity dbname write_buffer_size s0 tr' s'.
Proof.
  induction xs as [|x xs IH]; intros tr s tr' s' Hr E; [by injection E as <- <-|]. cbn [play] in E. destruct (play1 x tr s) as [[tr1 s1]|] eqn:E1; [|done]. cbn [mbind option_bind] in E.
  apply (IH tr1 s1); [|done]. apply play1_step in E1 as [(id & us & sync & Hf & Ec & ->)|(id & addr & e & Hl & Ec & ->)]; (eapply reach_step; [done|]).
  - by eapply step_call.
  - by eapply step_run.
Qed.

Lemma play_app xs ys tr s : play (xs ++ ys) tr s = '(tr, s) ← play xs tr s; play ys tr s.
Proof. revert tr s. induction xs as [|x xs IH]; intros tr s; cbn [app play]; [done|]. destruct (play1 x tr s) as [[tr1 s1]|]; [apply IH|done]. Qed.

End Play.

(** ** Properties *)

(** C5: Writers on any number of threads are served one group at a time: in every
    reachable state, whatever the interleaving and whatever fails in the
    environment, no segment of a call runs into a failed assertion or a dangling
    pointer; the writer at the head of the queue is never left asleep; the groups
    are committed in the order in which their members entered the queue, no
    member twice; a call that has returned reports OK if and only if its batch was
    committed; the sequence numbers of the committed updates increase; and the
    memtables hold exactly the updates committed since the last switch of
    memtables and, while it is being compacted, before it. *)
Theorem DB_Write_serial {St : Type} (env : EnvOps St) (contents : St -> bytes -> option bytes) (quiet : St -> Prop)
    (EL : EnvLaws env contents) (EQ : EnvQuiet env contents quiet) (C : Checksum) (ucmp : Comparator) (CL : ComparatorLaws ucmp any_key) (HA : HeapAlloc)
    (capacity : nat -> Z) (dbname : bytes) (write_buffer_size : Z) (s0 : sys) (tr : list event) (s : sys) :
  opened contents ucmp dbname s0 -> reach env contents quiet ucmp capacity dbname write_buffer_size s0 tr s ->
  let a := arrivals tr in let cs := commits tr in
  (forall id th addr, threads s !! id = Some th -> (forall st, th <> Returned st) -> numbers_left s ->
     is_Some (run env ucmp capacity dbname write_buffer_size s id addr)) /\
  (forall id, head (writers_ (db s)) = Some id -> threads s !! id <> Some Asleep) /\
  (commit_ids cs `sublist_of` map fst a /\ NoDup (map fst a)) /\
  (forall id us st, threads s !! id = Some (Returned st) -> (id, Some us) ∈ a -> (ok st = true <-> id ∈ commit_ids cs)) /\
  increasing (commit_entries a cs) /\
  exists old imc cur, cs = old ++ imc ++ cur /\ mem_rep ucmp (mem_ (db s)) (commit_entries a cur) /\
    match imm_ (db s) with Some m => mem_rep ucmp m (commit_entries a imc) | None => imc = [] end.
Proof.
  intros H0 Hr a cs. pose proof (reach_inv env contents quiet ucmp capacity dbname write_buffer_size s0 tr s H0 Hr) as I. fold a cs in I. pose proof I as [I1 I2 I3 I4 I5 I6 I7 I8].
  split; [|split; [|split; [|split; [|split]]]].
  - intros id th addr Ht Hn Hl. destruct (inv_run env contents quiet ucmp capacity dbname write_buffer_size _ a cs s id th addr I Hl Ht Hn) as (e & s' & -> & _). by eexists.
  - intros id Hh Ht. destruct (q_head s I1 id Hh) as (th & Ht' & Hna & _). congruence.
  - split; [|apply (c_nodup a s I2)]. destruct (r_order a cs s I5) as (pre & c & -> & -> & Hsub). apply sublist_app; [done|]. unfold in_flight, phase_ok in *.
    destruct (leader s) as [[x [| | | | |st in_tmp ls last|]]|]; try apply sublist_nil_l. destruct I4 as (_ & Hl & _). destruct (ok st); [|apply sublist_nil_l].
    destruct (group_prefix _ _ Hl) as [rest Eq]. rewrite Eq at 2. by apply sublist_inserts_r.
  - intros id us st Ht Hin. destruct (r_returned a cs s I5 id st Ht) as [H1 H2]. pose proof (has_batch_called a id us (c_nodup a s I2) Hin) as Hb. split; [by apply H1|].
    intros Hc. destruct (ok st) eqn:Eo; [done|]. by destruct (H2 eq_refl).
  - done.
  - destruct I6 as (old & imc & cur & E & Hm & Hi & _). exists old, imc, cur. done.
Qed.

(** A database that was just opened, with small write buffers. *)
Definition small_log : bytes := LogFileName (str "d") 3.

Definition small_db_on (C : Checksum) : sys (St := MemEnv.St) :=
  MkSys (DBImpl.Mk (Ref (MemTable_new (H := BumpHeap))) None false (Writer_new 0 small_log) 3 [] WriteBatch_new false false false Status_OK
    (MkVersionSet 4 2 0 3 0 [] Version_new)) ∅ ∅ (MemEnv.MkSt {[small_log := []]} []).

Definition small_db : sys (St := MemEnv.St) := small_db_on ReferenceChecksum.

Lemma small_db_on_opened (C : Checksum) : opened MemEnv.contents BytewiseComparator (str "d") (small_db_on C).
Proof.
  split; [done| | |by exists 0|done].
  - split; [|done]. apply (mem_rep_table BytewiseComparator (MemTable_new (H := BumpHeap))); [done|]. apply MemTable_new_rep. apply _.
  - rewrite kMaxSequenceNumber_val. cbn [small_db_on db versions_ last_sequence_ prev_log_number_ logfile_number_ next_file_number_ log_number_]. lia.
Qed.

Lemma small_db_opened : opened (C := ReferenceChecksum) MemEnv.contents BytewiseComparator (str "d") small_db.
Proof. apply small_db_on_opened. Qed.

(** Three writers: the first commits its batch with the second's, then the third. *)
Definition three_writers : list action :=
  [Call 1 (Some [UPut (str "a") (str "1")]) false; Call 2 (Some [UPut (str "b") (str "2")]) false; Run 1 0;
   Call 3 (Some [UDelete (str "a")]) true; Run 1 0; Run 1 0; Run 2 0; Run 3 0; Run 3 0; Run 3 0; Run 3 0].

Definition outcome_on (C : Checksum) (xs : list action) (write_buffer_size : Z) : option (list event * sys) :=
  play MemEnv.ops BytewiseComparator (HA := BumpHeap) (fun _ => 0) (str "d") write_buffer_size xs [] (small_db_on C).

Lemma outcome_on_reach (C : Checksum) xs write_buffer_size tr s : outcome_on C xs write_buffer_size = Some (tr, s) ->
  reach MemEnv.ops MemEnv.contents MemEnv.quiet BytewiseComparator (HA := BumpHeap) (fun _ => 0) (str "d") write_buffer_size (small_db_on C) tr s.
Proof. intros E. eapply play_reach; [apply reach_here|exact E]. Qed.

Definition outcome_of (xs : list action) (write_buffer_size : Z) : option (list event * sys) := outcome_on ReferenceChecksum xs write_buffer_size.

Lemma outcome_of_reach xs write_buffer_size tr s : outcome_of xs write_buffer_size = Some (tr, s) ->
  reach MemEnv.ops MemEnv.contents MemEnv.quiet (C := ReferenceChecksum) BytewiseComparator (HA := BumpHeap) (fun _ => 0) (str "d") write_buffer_size small_db tr s.
Proof. apply outcome_on_reach. Qed.

Lemma DB_Write_serial_witness :
  exists tr s old imc cur, outcome_of three_writers 100000 = Some (tr, s) /\ commits tr = [(1, [1%nat; 2%nat]); (3, [3%nat])] /\
    commits tr = old ++ imc ++ cur /\ mem_rep BytewiseComparator (mem_ (db s)) (commit_entries (arrivals tr) cur).
Proof.
  assert (match outcome_of three_writers 100000 with Some (tr, _) => bool_decide (commits tr = [(1, [1%nat; 2%nat]); (3, [3%nat])]) | None => false end = true) as Hb by (vm_compute; reflexivity).
  destruct (outcome_of three_writers 100000) as [[tr s]|] eqn:E; [|discriminate Hb]. apply bool_decide_eq_true in Hb.
  destruct (DB_Write_serial MemEnv.ops MemEnv.contents MemEnv.quiet _ _ ReferenceChecksum BytewiseComparator _ BumpHeap (fun _ => 0) (str "d") 100000 small_db tr s)
    as (_ & _ & _ & _ & _ & old & imc & cur & Ecs & Hm & _).
  - exact small_db_opened.
  - exact (outcome_of_reach _ _ _ _ E).
  - exists tr, s, old, imc, cur. split; [reflexivity|]. split; [exact Hb|]. split; [exact Ecs|exact Hm].
Defined.

(** The log file holds these groups: a new reader returns their batches, one a
    record, and reports nothing, if the checksums it computes are those stored,
    which they always are under a lawful checksum. *)
Definition readable {St : Type} `{C : Checksum} (contents : St -> bytes -> option bytes) (a : list (nat * option (list update))) (cs : list (Z * list nat)) (st : St) (name : bytes) : Prop :=
  exists out, contents st name = Some out /\ (ChecksumLaws C -> forall store, log_verifies store out = true) /\
    forall store lro eob has_rep, is_u64 lro -> log_verifies store out = true ->
    exists r', read_log (length cs) (Reader_new (MkSequentialFile out []) has_rep true store 0 lro eob) =
      Some (map (fun c => batch_bytes c.1 (asked a c.2)) cs, r') /\ reports r' = [].

(** While nothing fails in the environment, no committed update exists in memory
    only: in every reachable state the current log holds exactly the groups that
    are in the memtable, and as long as the previous memtable is being compacted
    its log, not older than the first log the versions ask for on recovery, holds
    exactly its groups; reading them back gives the batches, in order. *)
Theorem DB_Write_durable {St : Type} (env : EnvOps St) (contents : St -> bytes -> option bytes) (quiet : St -> Prop)
    (EL : EnvLaws env contents) (EQ : EnvQuiet env contents quiet) (C : Checksum) (ucmp : Comparator) (CL : ComparatorLaws ucmp any_key) (HA : HeapAlloc)
    (capacity : nat -> Z) (dbname : bytes) (write_buffer_size : Z) (s0 : sys) (tr : list event) (s : sys) :
  opened contents ucmp dbname s0 -> quiet (files s0) -> reach env contents quiet ucmp capacity dbname write_buffer_size s0 tr s ->
  let a := arrivals tr in
  exists old imc cur, commits tr = old ++ imc ++ cur /\
    mem_rep ucmp (mem_ (db s)) (commit_entries a cur) /\ readable contents a cur (files s) (LogFileName dbname (logfile_number_ (db s))) /\
    match imm_ (db s) with
    | Some m => mem_rep ucmp m (commit_entries a imc) /\
        exists n, log_number_ (versions_ (db s)) <= n < logfile_number_ (db s) /\ readable contents a imc (files s) (LogFileName dbname n)
    | None => imc = []
    end.
Proof.
  intros H0 Hq Hr a. pose proof (reach_inv env contents quiet ucmp capacity dbname write_buffer_size s0 tr s H0 Hr) as I. fold a in I. destruct I as [I1 I2 I3 I4 I5 I6 I7 I8].
  destruct I6 as (old & imc & cur & E & Hm & Hi & HD). destruct (HD Hq) as (_ & Hl & Hf). exists old, imc, cur.
  split; [done|]. split; [done|]. split.
  - rewrite <- (n_name dbname a s I3). by apply file_logs_read, writer_logs_file.
  - destruct (imm_ (db s)); [|done]. split; [done|]. destruct Hf as (n & Hn & _ & Hf). exists n. split; [done|]. by apply file_logs_read.
Qed.

(** Each write fills the write buffer: the second switches memtables, the third
    waits for the compaction of the first. *)
Definition big_value : bytes := replicate (Z.to_nat 5000) Byte.x00.

Definition filling : list action :=
  [Call 1 (Some [UPut (str "a") big_value]) false; Run 1 0; Run 1 0; Run 1 0;
   Call 2 (Some [UPut (str "b") big_value]) false; Run 2 0; Run 2 0; Run 2 0; Run 2 0;
   Call 3 (Some [UPut (str "c") big_value]) false; Run 3 0].

Lemma DB_Write_durable_witness :
  exists tr s old imc cur, outcome_of filling 4096 = Some (tr, s) /\ commits tr = [(1, [1%nat]); (2, [2%nat])] /\ commits tr = old ++ imc ++ cur /\
    readable (C := ReferenceChecksum) MemEnv.contents (arrivals tr) cur (files s) (LogFileName (str "d") (logfile_number_ (db s))).
Proof.
  assert (match outcome_of filling 4096 with Some (tr, _) => bool_decide (commits tr = [(1, [1%nat]); (2, [2%nat])]) | None => false end = true) as Hb by (vm_compute; reflexivity).
  destruct (outcome_of filling 4096) as [[tr s]|] eqn:E; [|discriminate Hb]. apply bool_decide_eq_true in Hb.
  destruct (DB_Write_durable MemEnv.ops MemEnv.contents MemEnv.quiet _ _ ReferenceChecksum BytewiseComparator _ BumpHeap (fun _ => 0) (str "d") 4096 small_db tr s)
    as (old & imc & cur & Ecs & _ & Hr & _).
  - exact small_db_opened.
  - apply Forall_nil. exact I.
  - exact (outcome_of_reach _ _ _ _ E).
  - exists tr, s, old, imc, cur. split; [reflexivity|]. split; [exact Hb|]. split; [exact Ecs|exact Hr].
Defined.

(** ** Waiting for a compaction that nobody starts *)

Section Stuck.
Context {St : Type} (env : EnvOps St) (contents : St -> bytes -> option bytes) (quiet : St -> Prop).
Context `{C : Checksum} (ucmp : Comparator) `{HA : HeapAlloc} (capacity : nat -> Z) (dbname : bytes) (write_buffer_size : Z).
Abbreviation sys := (sys (St := St)).

(** What writers can do by themselves: calls, segments, and the background thread
    when it has been scheduled. *)
Inductive clients (tr : list event) (s : sys) : list event -> sys -> Prop :=
| clients_here : clients tr s tr s
| clients_call tr1 s1 id us sync s2 : clients tr s tr1 s1 -> call_fits tr1 s1 id us -> Write_call s1 id (build <$> us) sync = Some s2 -> clients tr s (tr1 ++ [Called id us]) s2
| clients_run tr1 s1 id addr e s2 : clients tr s tr1 s1 -> numbers_left s1 -> run env ucmp capacity dbname write_buffer_size s1 id addr = Some (e, s2) -> clients tr s (tr1 ++ [e]) s2
| clients_background tr1 s1 s2 : clients tr s tr1 s1 -> bg_compaction_scheduled_ (db s1) = true -> others contents quiet dbname s1 s2 -> clients tr s (tr1 ++ [Silent]) s2.

(** The leader needs a new memtable, the old one is still to be compacted, and no
    compaction is scheduled. *)
Record stuck (id : nat) (s : sys) : Prop := {
  k_head : head (writers_ (db s)) = Some id;
  k_thread : exists force allow_delay, (threads s !! id = Some (MakingRoom force allow_delay) \/ threads s !! id = Some (WaitingBg force allow_delay)) /\
    (force = true \/ write_buffer_size < ApproximateMemoryUsage capacity (mem_ (db s)));
  k_imm : is_Some (imm_ (db s));
  k_error : ok (bg_error_ (db s)) = true;
  k_idle : bg_compaction_scheduled_ (db s) = false
}.

Lemma stuck_call id (s s' : sys) x b sync : queue_ok s -> threads s !! x = None -> stuck id s -> Write_call s x b sync = Some s' ->
  stuck id s' /\ writers_ (db s') = writers_ (db s) ++ [x].
Proof.
  intros Hq Hx [K1 K2 K3 K4 K5]. assert (x <> id) as Hne. { intros ->. destruct (q_head s Hq id K1) as (th & E & _). congruence. }
  unfold Write_call, Write_wait. cbn [ws db]. rewrite lookup_insert_eq. bind_simpl. cbn [w_done writers_ with_writers]. destruct (queue_head_in _ _ K1) as [_ [r Er]]. rewrite Er. cbn [app head]. bind_simpl.
  rewrite (proj2 (Nat.eqb_neq _ _)) by done. intros [= <-]. split; [|done]. split; cbn [db set_thread threads with_writers writers_ imm_ bg_error_ bg_compaction_scheduled_ mem_]; try done.
  by rewrite lookup_insert_ne.
Qed.

Lemma stuck_run id (s s' : sys) x addr e : queue_ok s -> stuck id s -> run env ucmp capacity dbname write_buffer_size s x addr = Some (e, s') ->
  stuck id s' /\ writers_ (db s') = writers_ (db s).
Proof.
  intros Hq K E. pose proof K as [K1 (f & d & Kt & Kf) K3 K4 K5]. unfold run in E. destruct (threads s !! x) as [th|] eqn:Ht; [|done]. cbn [mbind option_bind] in E.
  assert (forall th', x <> id -> stuck id (set_thread s x th')) as Hset.
  { intros th' Hne. split; cbn [db set_thread threads]; try done. exists f, d. by rewrite lookup_insert_ne. }
  destruct (decide (x = id)) as [->|Hne].
  - assert (exists th', idle th' /\ (exists f' d', (th' = MakingRoom f' d' \/ th' = WaitingBg f' d') /\ (f' = true \/ write_buffer_size < ApproximateMemoryUsage capacity (mem_ (db s)))) /\
      s' = MkSys (db s) (ws s) (<[id := th']> (threads s)) (files s)) as (th' & _ & (f' & d' & Hth & Hf') & ->).
    { assert (Write_room env capacity dbname write_buffer_size s id f d addr = Some (e, s')) as E' by (destruct Kt as [Kt|Kt]; rewrite Ht in Kt; by injection Kt as ->).
      unfold Write_room, MakeRoomForWrite_pass in E'. destruct (queue_head_in _ _ K1) as [_ [r Er]]. rewrite Er, K4 in E'. cbn [negb] in E'. destruct K3 as [m Em].
      destruct (d && _); [injection E' as <- <-; exists (MakingRoom f false); split; [done|]; split; [|done]; exists f, false; tauto|].
      assert (negb f && (ApproximateMemoryUsage capacity (mem_ (db s)) <=? write_buffer_size) = false) as Hb by (destruct Kf as [->|Kf]; [done|]; rewrite (proj2 (Z.leb_gt _ _)) by done; apply andb_false_r).
      rewrite Hb, Em in E'. injection E' as <- <-. exists (WaitingBg f d). split; [done|]. split; [|done]. exists f, d. tauto. }
    split; [|done]. split; cbn [db threads]; try done. exists f', d'. rewrite lookup_insert_eq. split; [|done]. destruct Hth as [-> | ->]; tauto.
  - assert ((th = Asleep \/ th = Woken) \/ exists st, th = Returned st) as Hth.
    { destruct th; try (left; tauto); try (right; by eexists); exfalso; apply Hne; assert (head (writers_ (db s)) = Some x) as Hx by (eapply running_is_head; done); congruence. }
    destruct Hth as [Hth|[st ->]]; [|done]. assert (exists s1, Write_wait s x = Some s1 /\ s' = s1) as (s1 & Ew & ->).
    { destruct Hth as [-> | ->]; destruct (Write_wait s x) as [s1|]; try done; injection E as _ <-; eauto. }
    unfold Write_wait in Ew. destruct (ws s !! x) as [w|]; [|done]. cbn [mbind option_bind] in Ew. destruct (w_done w).
    + injection Ew as <-. split; [|done]. split; cbn [db return_from threads]; try done. exists f, d. by rewrite lookup_insert_ne.
    + rewrite K1 in Ew. cbn [mbind option_bind] in Ew. rewrite (proj2 (Nat.eqb_neq _ _)) in Ew by done. injection Ew as <-. split; [by apply Hset|done].
Qed.

(** The memtable to be compacted, and whether a compaction is scheduled. *)
Definition compaction_state (s : sys) : option MemTable * bool := (imm_ (db s), bg_compaction_scheduled_ (db s)).

Lemma Write_wait_compaction (s s' : sys) x : Write_wait s x = Some s' -> compaction_state s' = compaction_state s.
Proof.
  unfold Write_wait. destruct (ws s !! x) as [w|]; [|done]. bind_simpl. destruct (w_done w); [by intros [= <-]|].
  destruct (head (writers_ (db s))); [|done]. bind_simpl. by destruct (_ =? x)%nat; intros [= <-].
Qed.

Lemma Write_finish_compaction (s s' : sys) x last st : Write_finish s x last st = Some s' -> compaction_state s' = compaction_state s.
Proof. unfold Write_finish. destruct (pop_ready _ _ _ _ _ _) as [[[q ws'] ths]|]; [|done]. bind_simpl. by intros [= <-]. Qed.

Lemma Write_group_compaction (s s' : sys) x st : Write_group s x st = Some s' -> compaction_state s' = compaction_state s.
Proof.
  unfold Write_group. destruct (ws s !! x) as [w|] eqn:Ew; [|done]. bind_simpl. destruct (w_batch w); [|by apply Write_finish_compaction].
  destruct (ok st); [|by apply Write_finish_compaction]. destruct (BuildBatchGroup _ _) as [g|]; [|done]. bind_simpl.
  destruct (updates_in _ x _) as [u|]; [|done]. bind_simpl. destruct (store_updates _ x _ _) as [s1|] eqn:Es; [|done]. bind_simpl.
  destruct (updates_in s1 x _) as [u1|]; [|done]. bind_simpl. intros [= <-]. unfold store_updates in Es. destruct (g_in_tmp g); [by injection Es as <-|].
  cbn [ws set_db] in Es. rewrite Ew in Es. cbn [mbind option_bind] in Es. by injection Es as <-.
Qed.

(** While a memtable is to be compacted, writers do not schedule it, nor switch
    memtables again. *)
Lemma run_compaction (s s' : sys) x addr e m : imm_ (db s) = Some m -> run env ucmp capacity dbname write_buffer_size s x addr = Some (e, s') ->
  compaction_state s' = compaction_state s /\ e <> Switched.
Proof.
  intros Hi E. unfold run in E. destruct (threads s !! x) as [th|]; [|done]. cbn [mbind option_bind] in E.
  assert (forall o, (s1 ← o; Some (Silent, s1)) = Some (e, s') -> o = Some s' /\ e = Silent) as Hb by (intros [s1|] [= <- <-]; done).
  destruct th as [| |f d|f d|in_tmp ls last|st in_tmp ls last|st]; try done.
  1,2: apply Hb in E as [E ->]; split; [by apply (Write_wait_compaction _ _ x)|done].
  1,2: unfold Write_room, MakeRoomForWrite_pass in E; rewrite Hi in E; destruct (writers_ (db s)); [done|]; repeat (case_match; simplify_eq/=; try done);
    (apply Hb in E as [E ->]; apply Write_group_compaction in E; by rewrite E) || done.
  - unfold Write_apply in E. destruct (ws s !! x) as [w|]; [|done]. cbn [mbind option_bind] in E. destruct (updates_in s x in_tmp) as [u|]; [|done]. cbn [mbind option_bind] in E.
    destruct (log_AddRecord _ _ _ _ _) as [[[st1 log] fs]|]; [|done]. cbn [mbind option_bind] in E. destruct (if ok st1 && _ then _ else _) as [st2 fs2].
    destruct (if ok st2 then _ else _) as [[st3 mem]|]; [|done]. cbn [mbind option_bind] in E. injection E as <- <-. split; [done|]. by destruct (ok st3).
  - apply Hb in E as [E ->]. split; [|done]. unfold Write_end in E. destruct (SetLastSequence _ _) as [vs|]; [|done]. cbn [mbind option_bind] in E.
    apply Write_finish_compaction in E. rewrite E. by destruct in_tmp.
Qed.

(** A switch leaves the retired memtable to be compacted, and schedules nothing. *)
Lemma run_switched (s s' : sys) x addr : run env ucmp capacity dbname write_buffer_size s x addr = Some (Switched, s') ->
  compaction_state s' = (Some (mem_ (db s)), bg_compaction_scheduled_ (db s)).
Proof.
  intros E. unfold run in E. destruct (threads s !! x) as [th|]; [|done]. cbn [mbind option_bind] in E.
  assert (forall o : option sys, (s1 ← o; Some (Silent, s1)) <> Some (Switched, s')) as Hb by (intros [s1|]; [intros [=]|done]).
  destruct th as [| |f d|f d|in_tmp ls last|st in_tmp ls last|st]; try done; try by apply Hb in E.
  1,2: unfold Write_room, MakeRoomForWrite_pass in E; destruct (writers_ (db s)); [done|]; repeat (case_match; simplify_eq/=; try done); try (by apply Hb in E); done.
  unfold Write_apply in E. destruct (ws s !! x) as [w|]; [|done]. cbn [mbind option_bind] in E. destruct (updates_in s x in_tmp) as [u|]; [|done]. cbn [mbind option_bind] in E.
  destruct (log_AddRecord _ _ _ _ _) as [[[st1 log] fs]|]; [|done]. cbn [mbind option_bind] in E. destruct (if ok st1 && _ then _ else _) as [st2 fs2].
  destruct (if ok st2 then _ else _) as [[st3 mem]|]; [|done]. cbn [mbind option_bind] in E. injection E as E _. by destruct (ok st3).
Qed.

Lemma clients_compaction tr (s : sys) tr' s' m : compaction_state s = (Some m, false) -> clients tr s tr' s' -> compaction_state s' = (Some m, false).
Proof.
  intros H0 Hc. induction Hc as [|tr1 s1 x us sync s2 Hc IH Hf E|tr1 s1 x addr e s2 Hc IH Hl E|tr1 s1 s2 Hc IH Hb _]; [done|..].
  - apply Write_wait_compaction in E. by rewrite E.
  - injection IH as Hi Hb. destruct (run_compaction _ _ _ _ _ m Hi E) as [-> _]. unfold compaction_state. by rewrite Hi, Hb.
  - injection IH as _ IH. congruence.
Qed.

Context `{!EnvLaws env contents} `{!EnvQuiet env contents quiet} `{!ComparatorLaws ucmp any_key}.

Lemma clients_reach s0 tr (s : sys) tr' s' : reach env contents quiet ucmp capacity dbname write_buffer_size s0 tr s -> clients tr s tr' s' ->
  reach env contents quiet ucmp capacity dbname write_buffer_size s0 tr' s'.
Proof. intros Hr Hc. induction Hc; [done|..]; (eapply reach_step; [exact IHHc|]); [by eapply step_call|by eapply step_run|by apply step_others]. Qed.

Lemma clients_stuck s0 tr (s : sys) tr' s' id : opened contents ucmp dbname s0 -> reach env contents quiet ucmp capacity dbname write_buffer_size s0 tr s ->
  stuck id s -> clients tr s tr' s' -> stuck id s' /\ exists new, writers_ (db s') = writers_ (db s) ++ new.
Proof.
  intros H0 Hr Hk Hc. induction Hc as [|tr1 s1 x us sync s2 Hc [IH [new IHq]] Hf E|tr1 s1 x addr e s2 Hc [IH [new IHq]] Hl E|tr1 s1 s2 Hc [IH _] Hb _].
  - split; [done|]. exists []. by rewrite app_nil_r.
  - pose proof (reach_inv env contents quiet ucmp capacity dbname write_buffer_size s0 tr1 s1 H0 (clients_reach _ _ _ _ _ Hr Hc)) as I.
    destruct (stuck_call id s1 s2 x (build <$> us) sync (i_queue _ _ _ _ _ _ _ _ I) (cf_new _ _ _ _ Hf) IH E) as [H1 ->]. split; [done|]. exists (new ++ [x]). by rewrite IHq, app_assoc.
  - pose proof (reach_inv env contents quiet ucmp capacity dbname write_buffer_size s0 tr1 s1 H0 (clients_reach _ _ _ _ _ Hr Hc)) as I.
    destruct (stuck_run id s1 s2 x addr e (i_queue _ _ _ _ _ _ _ _ I) IH E) as [H1 ->]. split; [done|]. by exists new.
  - rewrite (k_idle id s1 IH) in Hb. done.
Qed.

End Stuck.

(** C37: [MakeRoomForWrite] does not schedule the compaction of the memtable it
    retires.  When a pass switches memtables in a state in which no compaction is
    scheduled, then afterwards none is scheduled and the retired memtable is to be
    compacted, and this stays so whatever the writers do and however often they
    wake up: the background thread is not started, and no memtable is switched
    again.  So the first writer that needs room, because its memtable is full or it
    forces a switch, waits for ever: no call in the queue, and none that joins it,
    returns.  (Only a thread that is not writing can help: a read or a manual
    compaction that calls [MaybeScheduleCompaction].) *)
Theorem MakeRoomForWrite_hangs {St : Type} (env : EnvOps St) (contents : St -> bytes -> option bytes) (quiet : St -> Prop)
    (EL : EnvLaws env contents) (EQ : EnvQuiet env contents quiet) (C : Checksum) (ucmp : Comparator) (CL : ComparatorLaws ucmp any_key) (HA : HeapAlloc)
    (capacity : nat -> Z) (dbname : bytes) (write_buffer_size : Z) (s0 : sys) (tr : list event) (s : sys) (id : nat) (addr : Z) (s1 : sys) :
  opened contents ucmp dbname s0 -> reach env contents quiet ucmp capacity dbname write_buffer_size s0 tr s ->
  bg_compaction_scheduled_ (db s) = false -> numbers_left s ->
  run env ucmp capacity dbname write_buffer_size s id addr = Some (Switched, s1) ->
  compaction_state s1 = (Some (mem_ (db s)), false) /\
  forall tr2 s2, clients env contents quiet ucmp capacity dbname write_buffer_size (tr ++ [Switched]) s1 tr2 s2 ->
    compaction_state s2 = (Some (mem_ (db s)), false) /\
    forall id' tr3 s3, stuck capacity write_buffer_size id' s2 -> clients env contents quiet ucmp capacity dbname write_buffer_size tr2 s2 tr3 s3 ->
      stuck capacity write_buffer_size id' s3 /\ writers_ (db s2) `prefix_of` writers_ (db s3) /\
      forall x st, x ∈ writers_ (db s3) -> threads s3 !! x <> Some (Returned st).
Proof.
  intros H0 Hr Hbg Hnum E. assert (compaction_state s1 = (Some (mem_ (db s)), false)) as Hs1 by (rewrite <- Hbg; by eapply run_switched).
  split; [done|]. intros tr2 s2 Hc. split; [by eapply clients_compaction|]. intros id' tr3 s3 Hk Hc3.
  assert (reach env contents quiet ucmp capacity dbname write_buffer_size s0 (tr ++ [Switched]) s1) as Hr1 by (eapply reach_step; [exact Hr|by eapply step_run]).
  assert (reach env contents quiet ucmp capacity dbname write_buffer_size s0 tr2 s2) as Hr2 by (by eapply clients_reach).
  destruct (clients_stuck env contents quiet ucmp capacity dbname write_buffer_size s0 tr2 s2 tr3 s3 id' H0 Hr2 Hk Hc3) as [Hk' [new Eq]].
  split; [done|]. split; [by exists new|]. intros x st Hx Ht.
  pose proof (reach_inv env contents quiet ucmp capacity dbname write_buffer_size s0 tr3 s3 H0 (clients_reach env contents quiet ucmp capacity dbname write_buffer_size _ _ _ _ _ Hr2 Hc3)) as I.
  eapply (done_not_queued s3 x); [apply (i_queue _ _ _ _ _ _ _ _ I)|right; by exists st|done].
Qed.

Lemma play_clients {St : Type} (env : EnvOps St) (contents : St -> bytes -> option bytes) (quiet : St -> Prop) `{C : Checksum} (ucmp : Comparator) `{HA : HeapAlloc}
    (capacity : nat -> Z) (dbname : bytes) (write_buffer_size : Z) tr0 s0 xs : forall tr s tr' s',
  clients env contents quiet ucmp capacity dbname write_buffer_size tr0 s0 tr s -> play env ucmp capacity dbname write_buffer_size xs tr s = Some (tr', s') ->
  clients env contents quiet ucmp capacity dbname write_buffer_size tr0 s0 tr' s'.
Proof.
  induction xs as [|x xs IH]; intros tr s tr' s' Hr E; [by injection E as <- <-|]. cbn [play] in E. destruct (play1 _ _ _ _ _ x tr s) as [[tr1 s1]|] eqn:E1; [|done]. cbn [mbind option_bind] in E.
  apply (IH tr1 s1); [|done]. apply play1_step in E1 as [(id & us & sync & Hf & Ec & ->)|(id & addr & e & Hl & Ec & ->)].
  - by eapply clients_call.
  - by eapply clients_run.
Qed.

(** The schedule in its parts: up to the switch, which the second writer makes, and
    from there until the third writer waits. *)
Definition before_switch : list action := take 5 filling.
Definition after_switch : list action := drop 6 filling.

Lemma MakeRoomForWrite_hangs_witness :
  exists tr s s1 tr2 s2, outcome_of before_switch 4096 = Some (tr, s) /\
    run MemEnv.ops (C := ReferenceChecksum) BytewiseComparator (HA := BumpHeap) (fun _ => 0) (str "d") 4096 s 2 0 = Some (Switched, s1) /\
    play MemEnv.ops (C := ReferenceChecksum) BytewiseComparator (HA := BumpHeap) (fun _ => 0) (str "d") 4096 after_switch (tr ++ [Switched]) s1 = Some (tr2, s2) /\
    commits tr2 = [(1, [1%nat]); (2, [2%nat])] /\
    forall tr3 s3, clients MemEnv.ops MemEnv.contents MemEnv.quiet (C := ReferenceChecksum) BytewiseComparator (HA := BumpHeap) (fun _ => 0) (str "d") 4096 tr2 s2 tr3 s3 ->
      bg_compaction_scheduled_ (db s3) = false /\ forall st, threads s3 !! 3%nat <> Some (Returned st).
Proof.
  assert (match outcome_of before_switch 4096 with
    | Some (tr, s) => negb (bg_compaction_scheduled_ (db s)) && (next_file_number_ (versions_ (db s)) + 1 <? 2 ^ 64) &&
        match run MemEnv.ops (C := ReferenceChecksum) BytewiseComparator (HA := BumpHeap) (fun _ => 0) (str "d") 4096 s 2 0 with
        | Some (Switched, s1) =>
            match play MemEnv.ops (C := ReferenceChecksum) BytewiseComparator (HA := BumpHeap) (fun _ => 0) (str "d") 4096 after_switch (tr ++ [Switched]) s1 with
            | Some (tr2, s2) => bool_decide (commits tr2 = [(1, [1%nat]); (2, [2%nat])]) && bool_decide (head (writers_ (db s2)) = Some 3%nat) &&
                (4096 <? ApproximateMemoryUsage (fun _ => 0) (mem_ (db s2))) && ok (bg_error_ (db s2)) && match threads s2 !! 3%nat with Some (WaitingBg false true) => true | _ => false end
            | None => false end
        | _ => false end
    | None => false end = true) as Hb by (vm_compute; reflexivity).
  destruct (outcome_of before_switch 4096) as [[tr s]|] eqn:E; [|discriminate Hb]. apply andb_true_iff in Hb as [[B1 B2]%andb_true_iff Hb].
  destruct (run _ _ _ _ _ s 2 0) as [[[] s1]|] eqn:E1; try discriminate Hb. destruct (play _ _ _ _ _ after_switch _ s1) as [[tr2 s2]|] eqn:E2; [|discriminate Hb].
  rewrite !andb_true_iff, !bool_decide_eq_true, Z.ltb_lt in Hb. destruct Hb as [[[[B3 B4] B5] B6] B7].
  destruct (threads s2 !! 3%nat) as [[| | |[] []| | |]|] eqn:Et; try discriminate B7. apply negb_true_iff in B1. apply Z.ltb_lt in B2.
  destruct (MakeRoomForWrite_hangs MemEnv.ops MemEnv.contents MemEnv.quiet _ _ ReferenceChecksum BytewiseComparator _ BumpHeap (fun _ => 0) (str "d") 4096 small_db tr s 2 0 s1) as [_ H].
  - exact small_db_opened.
  - exact (outcome_of_reach _ _ _ _ E).
  - exact B1.
  - exact B2.
  - exact E1.
  - destruct (H tr2 s2) as [Hc Hw]; [eapply play_clients; [apply clients_here|exact E2]|]. injection Hc as Hi Hbg.
    assert (stuck (fun _ => 0) 4096 3 s2) as Hk by (split; [exact B4|exists false, true; split; [by right|by right]|by rewrite Hi|exact B6|exact Hbg]).
    exists tr, s, s1, tr2, s2. split; [reflexivity|]. split; [exact E1|]. split; [exact E2|]. split; [exact B3|]. intros tr3 s3 Hc3.
    destruct (Hw 3%nat tr3 s3 Hk Hc3) as (Hk3 & _ & Hret). split; [exact (k_idle _ _ _ _ Hk3)|]. intros st. apply Hret.
    destruct (writers_ (db s3)) as [|x q] eqn:Eq; pose proof (k_head _ _ _ _ Hk3) as Hh; rewrite Eq in Hh; [discriminate Hh|]. injection Hh as ->. by left.
Defined.
