(* ===== verification/Flush.v ===== *)
(** db/builder.cpp, and the routines of db/db_impl.cpp that turn a memtable into a
    table: [WriteLevel0Table] and [CompactMemTable].

    Files, table builder, table cache, file numbers and [LogAndApply] are the
    interface [World] of CompactionWork.v, extended by [FlushOps].  [BuildTable] is
    proved for every lawful iterator, the rest for the iterator of a memtable.
    Statistics and info logs are left out, and so is the time in which other
    threads run while a table is built.  [None] is a failed assertion. *)

From Stdlib Require Import ZArith Lia List Bool String Sorting.Sorted.
From S2P Require Import Prelude Lists Coding Slice Comparator Bloom Filename Env DbFormat VersionEdit.
From S2P Require Import Arena SkipList MemTable Version VersionSet Snapshot CompactionWork Iterators InternalIters.

(** ** The interface *)

Class FlushOps (W : Type) := {
  delete_file : bytes -> W -> Status * W;      (* env_->DeleteFile *)
  erase_output : Z -> W -> W;                  (* pending_outputs_.erase *)
  delete_obsolete : W -> W                     (* DeleteObsoleteFiles *)
}.

Class FlushLaws (W : Type) `{!World W} `{!WorldModel W} `{!FlushOps W} : Prop := {
  fl_delete f w : keeps (Some f) w (delete_file f w).2;
  fl_erase n w : keeps None w (erase_output n w);
  fl_size w : building w <> [] -> Forall (fun e => e.1 <> []) (building w) ->
    ok (builder_Finish w).1 = true -> 0 < builder_FileSize (builder_Finish w).2;
  fl_room w k : room w k -> (forall f, room (delete_file f w).2 k) /\ (forall n, room (erase_output n w) k)
}.

Definition with_file_size (m : FileMetaData) (n : Z) : FileMetaData :=
  MkFileMetaData (refs m) (allowed_seeks m) (number m) n (smallest m) (largest m).

Definition with_smallest (m : FileMetaData) (k : InternalKey) : FileMetaData :=
  MkFileMetaData (refs m) (allowed_seeks m) (number m) (file_size m) k (largest m).

Definition with_largest (m : FileMetaData) (k : InternalKey) : FileMetaData :=
  MkFileMetaData (refs m) (allowed_seeks m) (number m) (file_size m) (smallest m) k.

(** ** BuildTable *)

Section BuildTable.
Context {I : Type} `{!Iterator.Ops I} {W : Type} `{!World W} `{!FlushOps W} (dbname : bytes).

(** [for (; iter->Valid(); iter->Next())]; the number of entries is enough fuel. *)
Fixpoint BuildTable_loop (fuel : nat) (iter : I) (meta : FileMetaData) (w : W) : option (I * FileMetaData * W) :=
  if Iterator.Valid iter then
    match fuel with
    | O => None
    | S fuel =>
        key ← Iterator.key iter;
        value ← Iterator.value iter;
        let meta := with_largest meta (InternalKey_DecodeFrom key) in
        let w := builder_Add key value w in
        iter ← Iterator.Next iter;
        BuildTable_loop fuel iter meta w
    end
  else Some (iter, meta, w).

(** The branch for an input that is not empty; [inl] is the early return. *)
Definition BuildTable_file (fuel : nat) (fname : bytes) (iter : I) (meta : FileMetaData) (w : W)
    : option (Status * W + Status * I * FileMetaData * W) :=
  let '(s, w) := NewWritableFile fname w in
  if negb (ok s) then Some (inl (s, w))
  else
    let w := new_builder w in
    key ← Iterator.key iter;
    let meta := with_smallest meta (InternalKey_DecodeFrom key) in
    '(iter, meta, w) ← BuildTable_loop fuel iter meta w;
    let '(s, w) := builder_Finish w in
    meta ← (if ok s then
              let size := builder_FileSize w in
              if 0 <? size then Some (with_file_size meta size) else None
            else Some meta);
    let '(s, w) := if ok s then outfile_Close w else (s, w) in
    let '(s, w) := if ok s then verify_table (number meta) (file_size meta) w else (s, w) in
    Some (inr (s, iter, meta, w)).

Definition BuildTable (fuel : nat) (iter : I) (meta : FileMetaData) (w : W) : option (Status * FileMetaData * W) :=
  let meta := with_file_size meta 0 in
  iter ← Iterator.SeekToFirst iter;
  let fname := TableFileName dbname (number meta) in
  r ← (if Iterator.Valid iter then BuildTable_file fuel fname iter meta w else Some (inr (Status_OK, iter, meta, w)));
  match r with
  | inl (s, w) => Some (s, meta, w)
  | inr (s, iter, meta, w) =>
      st ← Iterator.status iter;
      let s := if negb (ok st) then st else s in
      if ok s && (0 <? file_size meta) then Some (s, meta, w) else Some (s, meta, (delete_file fname w).2)
  end.

End BuildTable.

(** ** WriteLevel0Table and CompactMemTable *)

Section Flush.
Context {W : Type} `{!World W} `{!FlushOps W} (ucmp : Comparator) (dbname : bytes).

(** The number of nodes of the memtable bounds its entries. *)
Definition entries_bound (mem : MemTable) : nat := length (SkipList.nodes (table_ mem)).

Definition WriteLevel0Table (mem : MemTable) (edit : VersionEdit) (base : option Version) (w : W) : option (Status * VersionEdit * W) :=
  let '(n, w) := new_output_number w in
  let meta := FileMetaData_new n 0 (InternalKey_DecodeFrom []) (InternalKey_DecodeFrom []) in
  '(s, meta, w) ← BuildTable dbname (entries_bound mem) (MemTable_NewIterator ucmp mem) meta w;
  let w := erase_output n w in
  if ok s && (0 <? file_size meta) then
    level ← (match base with
             | Some v => PickLevelForMemTableOutput ucmp v (InternalKey_user_key (smallest meta)) (InternalKey_user_key (largest meta))
             | None => Some 0%nat
             end);
    Some (s, AddFile edit (Z.of_nat level) (number meta) (file_size meta) (smallest meta) (largest meta), w)
  else Some (s, edit, w).

(** [imm_] before and after; [base] is [versions_->current()]. *)
Definition CompactMemTable (imm_ : option MemTable) (logfile_number_ : Z) (base : Version) (w : W) : option (Status * option MemTable * W) :=
  imm ← imm_;
  '(s, edit, w) ← WriteLevel0Table imm VersionEdit_new (Some base) w;
  let '(down, w) := if ok s then shutting_down_ w else (false, w) in
  let s := if ok s && down then Status_IOError (str "Deleting DB during memtable compaction") [] else s in
  let '(s, edit, w) := if ok s then LogAndApply (SetLogNumber (SetPrevLogNumber edit 0) logfile_number_) w else (s, edit, w) in
  if ok s then Some (s, None, delete_obsolete w) else Some (s, Some imm, w).

End Flush.

(** ** Lemmas: BuildTable *)

Section BuildLemmas.
Context (cmp : bytes -> bytes -> Z) (valid : bytes -> Prop) {I : Type} `{!Iterator.Ops I} `{!Iterator.Model I} `{!Iterator.Laws cmp valid I} `{!Iterator.StatusLaws I}.
Context {W : Type} `{!World W} `{!WorldModel W} `{!WorldLaws W} `{!FlushOps W} `{!FlushLaws W} (dbname : bytes).

Lemma BuildTable_loop_ok fuel : forall (iter : I) es i meta (w : W), Iterator.rep iter es (at_index es i) -> (length es - i <= fuel)%nat ->
  exists iter' w', BuildTable_loop fuel iter meta w =
      Some (iter', match last (drop i es) with Some e => with_largest meta (InternalKey_DecodeFrom e.1) | None => meta end, w') /\
    Iterator.rep iter' es None /\ keeps None w w' /\ building w' = building w ++ drop i es /\ file w' = file w.
Proof.
  induction fuel as [|fuel IH]; intros iter es i meta w Hr Hf; destruct (decide (i < length es)%nat) as [Hi|Hi].
  all: unfold at_index in Hr; first [rewrite (proj2 (Nat.ltb_lt _ _) Hi) in Hr|rewrite (proj2 (Nat.ltb_ge _ _)) in Hr by lia].
  all: pose proof (Iterator.l_Valid _ _ _ Hr) as Hv; cbn [is_valid] in Hv; cbn [BuildTable_loop]; rewrite Hv.
  1: lia.
  1,3: exists iter, w; rewrite drop_ge by lia; cbn [last]; rewrite app_nil_r; split_and!; try done; by split.
  destruct (lookup_lt_is_Some_2 es i Hi) as [[k v] Ee]. destruct (Iterator.l_key _ _ _ _ Hr Ee) as [-> ->]. bind_simpl.
  destruct (Iterator.l_Next _ _ _ Hr) as (iter1 & -> & Hr1). bind_simpl. cbn [fst snd].
  destruct (wl_Add k v w) as ([K1 K2] & B & F).
  destruct (IH iter1 es (S i) (with_largest meta (InternalKey_DecodeFrom k)) (builder_Add k v w) Hr1) as (iter' & w' & -> & Hr' & [K3 K4] & B' & F'); [lia|].
  exists iter', w'. rewrite (drop_S _ _ _ Ee). split_and!.
  - do 3 f_equal. destruct (drop (S i) es) as [|e l] eqn:Ed using rev_ind; [done|]. rewrite app_comm_cons, !last_snoc. done.
  - done.
  - split; eauto.
  - rewrite B', B, <- app_assoc. done.
  - congruence.
Qed.

(** What [BuildTable] promises of the table of [es]. *)
Definition built (es : list entry) (fname : bytes) (meta : FileMetaData) (w : W) : Prop :=
  0 < file_size meta /\ table w fname = Some es /\
  (exists e, head es = Some e /\ smallest meta = InternalKey_DecodeFrom e.1) /\ (exists e, last es = Some e /\ largest meta = InternalKey_DecodeFrom e.1).

Lemma BuildTable_file_ok fuel (iter : I) es meta (w : W) fname : Iterator.rep iter es (at_index es 0) -> es <> [] -> (length es <= fuel)%nat ->
  Forall (fun e => e.1 <> []) es -> file_size meta = 0 ->
  exists r, BuildTable_file fuel fname iter meta w = Some r /\
    match r with
    | inl (s, w') => ok s = false /\ keeps (Some fname) w w'
    | inr (s, iter', meta', w') => Iterator.rep iter' es None /\ number meta' = number meta /\ keeps (Some fname) w w' /\ (ok s = true -> built es fname meta' w')
    end.
Proof.
  intros Hr Hne Hf Hk Hz. destruct es as [|e es]; [done|]. unfold BuildTable_file. destruct (wl_open fname w) as [[K1 K1'] Hfile].
  destruct (NewWritableFile fname w) as [s1 w1]. cbn [fst snd] in *. destruct (ok s1) eqn:E1; cbn [negb]; [|eexists; split; [done|]; split; [done|by split]].
  specialize (Hfile eq_refl). destruct (wl_builder w1) as ([K2 K2'] & B2 & F2). rewrite at_index_lt in Hr by (cbn; lia).
  destruct (Iterator.l_key _ _ _ _ Hr (eq_refl : (e :: es) !! 0%nat = Some e)) as [-> _]. bind_simpl.
  destruct (BuildTable_loop_ok fuel iter (e :: es) 0 (with_smallest meta (InternalKey_DecodeFrom e.1)) (new_builder w1)) as (iter' & w2 & -> & Hr' & [K3 K3'] & B3 & F3);
    [by rewrite at_index_lt by (cbn; lia)|lia|]. bind_simpl. cbn [drop]. rewrite B2 in B3. cbn [app drop] in B3.
  destruct (last (e :: es)) as [el|] eqn:El; [|by apply last_None in El]. destruct (wl_Finish w2) as [[K4 K4'] T4]. pose proof (fl_size w2) as Hsz.
  assert (file w2 = fname) as Ef by congruence. rewrite Ef, B3 in *. specialize (Hsz Hne Hk). destruct (builder_Finish w2) as [s3 w3]. cbn [fst snd] in *.
  assert (keeps (Some fname) w w3) as Kw by (split; eauto).
  destruct (ok s3) eqn:E3.
  - rewrite (proj2 (Z.ltb_lt _ _)) by auto. bind_simpl. destruct (wl_Close w3) as [K5 K5']. destruct (outfile_Close w3) as [s4 w4]. cbn [fst snd] in *.
    set (meta' := with_file_size _ _). destruct (wl_verify (number meta') (file_size meta') w4) as [K6 K6']. destruct Kw as [Kw Kw'].
    destruct (ok s4) eqn:E4.
    + destruct (verify_table (number meta') (file_size meta') w4) as [s5 w5]. cbn [fst snd] in *. eexists. split; [done|]. split; [done|]. split; [done|]. split; [split; eauto|].
      intros _. split; [by apply Hsz|]. split; [by apply K6, K5, T4|]. split; [by exists e|by exists el].
    + eexists. split; [done|]. split; [done|]. split; [done|]. split; [split; eauto|]. congruence.
  - bind_simpl. rewrite E3. eexists. split; [done|]. split; [done|]. split; [done|]. split; [done|]. congruence.
Qed.

Lemma BuildTable_ok fuel (iter : I) es p meta (w : W) : Iterator.rep iter es p -> (length es <= fuel)%nat -> Forall (fun e => e.1 <> []) es ->
  let fname := TableFileName dbname (number meta) in
  exists s meta' w', BuildTable dbname fuel iter meta w = Some (s, meta', w') /\ number meta' = number meta /\ keeps (Some fname) w w' /\
    (ok s = true -> 0 < file_size meta' -> built es fname meta' w') /\ (ok s = true -> es <> [] -> 0 < file_size meta').
Proof.
  intros Hr Hf Hk fname. unfold BuildTable. destruct (Iterator.l_SeekToFirst _ _ _ Hr) as (iter1 & -> & Hr1). bind_simpl. cbn [number with_file_size]. fold fname.
  set (meta0 := with_file_size meta 0). destruct (decide (es = [])) as [->|Hne].
  - rewrite at_index_ge in Hr1 by done. rewrite (Iterator.l_Valid _ _ _ Hr1). cbn [is_valid]. bind_simpl. destruct (Iterator.l_status _ _ _ Hr1) as [st ->]. bind_simpl.
    change (file_size meta0) with 0. rewrite andb_false_r. do 3 eexists. split; [done|]. split; [done|]. split; [apply fl_delete|]. split; [cbn; lia|done].
  - assert (Iterator.Valid iter1 = true) as ->. { rewrite (Iterator.l_Valid _ _ _ Hr1), at_index_lt by (destruct es; [done|cbn; lia]). done. }
    destruct (BuildTable_file_ok fuel iter1 es meta0 w fname Hr1 Hne Hf Hk eq_refl) as (r & -> & Hres). bind_simpl. destruct r as [[s w']|[[[s iter'] meta'] w']].
    + destruct Hres as [Ho HK]. do 3 eexists. split; [done|]. split; [done|]. split; [done|]. split; congruence.
    + destruct Hres as (Hr' & Hn & HK & Hb). destruct (Iterator.l_status _ _ _ Hr') as [st ->]. bind_simpl. set (s' := if negb (ok st) then st else s).
      assert (ok s' = true -> ok s = true) as Hs by (subst s'; destruct (ok st) eqn:E; cbn [negb]; congruence).
      destruct (ok s' && (0 <? file_size meta')) eqn:E.
      * do 3 eexists. split; [done|]. split; [done|]. split; [done|]. split; intros Ho _; [by apply Hb, Hs|by destruct (Hb (Hs Ho))].
      * do 3 eexists. split; [done|]. split; [done|]. split; [destruct HK as [HK1 HK2], (fl_delete fname w') as [HK3 HK4]; split; eauto|].
        apply andb_false_iff in E as [E|E%Z.ltb_ge]; [split; congruence|]. split; intros Ho; [lia|]. intros _. destruct (Hb (Hs Ho)) as [? _]. lia.
Qed.

Lemma BuildTable_loop_room fuel : forall (iter : I) meta (w : W) k r, BuildTable_loop fuel iter meta w = Some r -> room w k -> room r.2 k.
Proof.
  induction fuel as [|fuel IH]; intros iter meta w k r E Hk; cbn [BuildTable_loop] in E; destruct (Iterator.Valid iter); try done; try (by injection E as <-).
  destruct (Iterator.key iter) as [key|]; [|done]. destruct (Iterator.value iter) as [v|]; [|done]. cbn [mbind option_bind] in E.
  destruct (Iterator.Next iter) as [iter'|]; [|done]. eapply IH; [exact E|]. by apply wl_room.
Qed.

Lemma BuildTable_file_room fuel fname (iter : I) meta (w : W) k r : BuildTable_file fuel fname iter meta w = Some r -> room w k ->
  room (match r with inl x => x.2 | inr x => x.2 end) k.
Proof.
  intros E Hk. unfold BuildTable_file in E. destruct (wl_room w k Hk) as (_ & Ha1 & _). specialize (Ha1 fname). destruct (NewWritableFile fname w) as [s w1]. cbn [snd] in Ha1.
  destruct (ok s); cbn [negb] in E; [|by injection E as <-]. destruct (Iterator.key iter) as [key|]; [|done]. cbn [mbind option_bind] in E.
  destruct (BuildTable_loop fuel iter _ (new_builder w1)) as [[[iter' meta'] w2]|] eqn:El; [|done]. cbn [mbind option_bind] in E.
  apply (BuildTable_loop_room _ _ _ _ k) in El; [|by apply wl_room]. cbn [snd] in El. destruct (wl_room w2 k El) as (_ & _ & _ & _ & Ha3 & _).
  destruct (builder_Finish w2) as [s3 w3]. cbn [snd] in Ha3. destruct (if ok s3 then if _ <? _ then _ else _ else _) as [meta2|]; [|done]. cbn [mbind option_bind] in E.
  assert (forall x, room (if ok s3 then outfile_Close w3 else (x, w3)).2 k) as Ha4. { intros x. destruct (ok s3); [by apply wl_room|done]. } specialize (Ha4 s3).
  destruct (if ok s3 then outfile_Close w3 else (s3, w3)) as [s4 w4]. cbn [snd] in Ha4. destruct (wl_room w4 k Ha4) as (_ & _ & _ & _ & _ & _ & _ & _ & Ha5).
  destruct (ok s4); [|by injection E as <-]. specialize (Ha5 (number meta2) (file_size meta2)). destruct (verify_table _ _ w4) as [s5 w5]. by injection E as <-.
Qed.

Lemma BuildTable_room fuel (iter : I) meta (w : W) k r : BuildTable dbname fuel iter meta w = Some r -> room w k -> room r.2 k.
Proof.
  intros E Hk. unfold BuildTable in E. destruct (Iterator.SeekToFirst iter) as [iter1|]; [|done]. cbn [mbind option_bind] in E.
  destruct (if Iterator.Valid iter1 then _ else _) as [x|] eqn:Ex; [|done]. cbn [mbind option_bind] in E.
  assert (room (match x with inl x => x.2 | inr x => x.2 end) k) as Hx.
  { destruct (Iterator.Valid iter1); [by eapply BuildTable_file_room|by injection Ex as <-]. }
  destruct x as [[s w1]|[[[s iter2] meta1] w1]]; cbn [snd] in Hx; [by injection E as <-|].
  destruct (Iterator.status iter2) as [st|]; [|done]. cbn [mbind option_bind] in E. destruct (_ && _); injection E as <-; [done|]. by apply fl_room.
Qed.

End BuildLemmas.

(** ** Lemmas: the level of the new table *)

Section Placement.
Context (ucmp : Comparator) `{!ComparatorLaws ucmp any_key}.

(** Levels above 0 are sorted and of a size that the search can index. *)
Definition levels_ok (v : Version) : Prop :=
  forall level, (0 < level)%nat -> level_wf ucmp (level_files v level) /\ Zlength (level_files v level) < 2 ^ 31.

(** No file meets the user keys from [lo] to [hi]. *)
Definition clear (files : list FileMetaData) (lo hi : bytes) : Prop :=
  forall f, f ∈ files -> Compare ucmp lo (InternalKey_user_key (largest f)) > 0 \/ Compare ucmp hi (InternalKey_user_key (smallest f)) < 0.

(** A table may go below a level only if nothing there, or above, shares its range:
    older data stays below newer data. *)
Definition placed (v : Version) (level : nat) (lo hi : bytes) : Prop :=
  (level <= 2)%nat /\ ((0 < level)%nat -> forall l, (l <= level)%nat -> clear (level_files v l) lo hi).

Lemma OverlapInLevel_ok v level lo hi : levels_ok v ->
  exists b, OverlapInLevel ucmp v level (Some lo) (Some hi) = Some b /\ (b = false -> clear (level_files v level) lo hi).
Proof.
  intros Hv. unfold OverlapInLevel. assert (SomeFileOverlapsRange ucmp (0 <? level)%nat (level_files v level) (Some lo) (Some hi) =
    SomeFileOverlapsRange ucmp false (level_files v level) (Some lo) (Some hi)) as ->.
  { destruct (Nat.ltb_spec 0 level) as [Hl|Hl]; [|done]. destruct (Hv level Hl). by apply SomeFileOverlapsRange_ok. }
  eexists. split; [done|]. intros Hb f Hf. apply not_true_iff_false in Hb. rewrite existsb_exists in Hb.
  destruct (AfterFile ucmp (Some lo) f) eqn:Ea; [left; cbn in Ea; lia|]. destruct (BeforeFile ucmp (Some hi) f) eqn:Eb; [right; cbn in Eb; lia|].
  exfalso. apply Hb. exists f. split; [by apply list_elem_of_In|]. by rewrite Ea, Eb.
Qed.

Lemma PickLevel_loop_ok fuel v lo hi : levels_ok v -> forall level, (forall l, (l <= level)%nat -> clear (level_files v l) lo hi) ->
  exists level', PickLevel_loop ucmp fuel v lo hi level = Some level' /\ (level' <= level + fuel)%nat /\ forall l, (l <= level')%nat -> clear (level_files v l) lo hi.
Proof.
  intros Hv. induction fuel as [|fuel IH]; intros level Hc; cbn [PickLevel_loop]; [exists level; split; [done|]; split; [lia|done]|].
  destruct (OverlapInLevel_ok v (level + 1) lo hi Hv) as (b & -> & Hb). bind_simpl. destruct b; [exists level; split; [done|]; split; [lia|done]|].
  destruct (GetOverlappingInputs_ok ucmp v (level + 2) (Some (InternalKey_new lo kMaxSequenceNumber kValueTypeForSeek)) (Some (InternalKey_new hi 0 kTypeDeletion))) as (b & e & -> & _). bind_simpl.
  destruct (_ >? _); [exists level; split; [done|]; split; [lia|done]|]. destruct (IH (level + 1)%nat) as (level' & -> & Hle & Hcl).
  - intros l Hl. destruct (decide (l = level + 1)%nat) as [->|]; [by apply Hb|]. apply Hc. lia.
  - exists level'. split; [done|]. split; [lia|done].
Qed.

Lemma PickLevel_ok v lo hi : levels_ok v -> exists level, PickLevelForMemTableOutput ucmp v lo hi = Some level /\ placed v level lo hi.
Proof.
  intros Hv. unfold PickLevelForMemTableOutput. destruct (OverlapInLevel_ok v 0 lo hi Hv) as (b & -> & Hb). bind_simpl. destruct b; [exists 0%nat; split; [done|]; split; lia|].
  destruct (PickLevel_loop_ok (Z.to_nat config.kMaxMemCompactLevel) v lo hi Hv 0) as (level & -> & Hle & Hc); [intros l Hl; assert (l = 0%nat) as -> by lia; by apply Hb|].
  exists level. split; [done|]. split; [exact Hle|auto].
Qed.

End Placement.

(** ** Lemmas: WriteLevel0Table *)

Section FlushLemmas.
Context {W : Type} `{!World W} `{!WorldModel W} `{!WorldLaws W} `{!FlushOps W} `{!FlushLaws W} (ucmp : Comparator) `{!ComparatorLaws ucmp any_key} (dbname : bytes).

Lemma memtable_entries m es : mem_rep ucmp m es -> exists mes, mes ≡ₚ es /\ sorted_entries (InternalKeyCompare ucmp) internal_ok (map raw mes) /\
  Iterator.rep (MemTable_NewIterator ucmp m) (map raw mes) None /\ (length (map raw mes) <= entries_bound m)%nat /\ Forall (fun e => e.1 <> []) (map raw mes).
Proof.
  intros Hm. destruct (MemTable_NewIterator_ok ucmp m es Hm) as (mes & Hp & Hr). exists mes. split; [done|]. split; [by apply (Iterator.l_sorted _ _ _ Hr)|]. split; [done|]. split.
  - destruct Hm as (_ & _ & ids & Hrep & Hc). rewrite length_map. pose proof (rep_count _ _ _ _ Hrep) as Hn. unfold entries_bound. rewrite Hn.
    assert (length mes = length ids) as ->; [|lia]. rewrite <- (contents_length (KeyComparator ucmp) mkey_ok (table_ m) ids ids Hrep (fun _ H => H)), Hc, length_map. by rewrite Hp.
  - apply Forall_map, Forall_forall. intros e _. change (ik e <> []). intros E. apply (f_equal Zlength) in E. unfold ik in E. rewrite ikey_Zlength in E. pose proof (Zlength_nonneg (user_key e.1)).
    change (Zlength []) with 0 in E. lia.
Qed.

Definition file_of (edit : VersionEdit) (level : nat) (m : FileMetaData) : VersionEdit :=
  AddFile edit (Z.of_nat level) (number m) (file_size m) (smallest m) (largest m).

Lemma WriteLevel0Table_ok m es edit base (w : W) : mem_rep ucmp m es -> (forall v, base = Some v -> levels_ok ucmp v) ->
  let n := (new_output_number w).1 in let fname := TableFileName dbname n in
  exists s edit' w', WriteLevel0Table ucmp dbname m edit base w = Some (s, edit', w') /\ keeps (Some fname) w w' /\ keeps (Some fname) (new_output_number w).2 w' /\
    (ok s = true -> es <> [] -> exists mes meta level, mes ≡ₚ es /\ sorted_entries (InternalKeyCompare ucmp) internal_ok (map raw mes) /\ number meta = n /\
       built (map raw mes) fname meta w' /\ edit' = file_of edit level meta /\
       match base with Some v => placed ucmp v level (InternalKey_user_key (smallest meta)) (InternalKey_user_key (largest meta)) | None => level = 0%nat end) /\
    (es = [] -> edit' = edit).
Proof.
  intros Hm Hb n fname. destruct (memtable_entries m es Hm) as (mes & Hp & Hs & Hr & Hf & Hk). unfold WriteLevel0Table.
  destruct (wl_number w) as [[[K1 K1'] _] _]. subst n fname. destruct (new_output_number w) as [n w1]. cbn [fst snd] in *.
  set (meta0 := FileMetaData_new n 0 _ _). destruct (BuildTable_ok (InternalKeyCompare ucmp) internal_ok dbname _ _ _ None meta0 w1 Hr Hf Hk) as (s & meta & w2 & -> & Hn & [K2 K2'] & Hbu & Hsz). bind_simpl.
  destruct (fl_erase n w2) as [K3 K3']. assert (keeps (Some (TableFileName dbname n)) w (erase_output n w2)) as HK by (split; eauto).
  assert (keeps (Some (TableFileName dbname n)) w1 (erase_output n w2)) as HK1 by (split; eauto).
  assert (mes = [] <-> es = []) as Hnil by (split; intros ->; [by apply Permutation_nil_l in Hp|by apply Permutation_nil_r in Hp]).
  destruct (ok s && (0 <? file_size meta)) eqn:E.
  - apply andb_true_iff in E as [Eo Ez%Z.ltb_lt]. destruct (Hbu Eo Ez) as (B1 & B2 & B3 & B4).
    assert (exists level, match base with Some v => PickLevelForMemTableOutput ucmp v (InternalKey_user_key (smallest meta)) (InternalKey_user_key (largest meta)) | None => Some 0%nat end = Some level /\
      match base with Some v => placed ucmp v level (InternalKey_user_key (smallest meta)) (InternalKey_user_key (largest meta)) | None => level = 0%nat end) as (level & -> & Hpl).
    { destruct base as [v|]; [apply PickLevel_ok; auto|by exists 0%nat]. }
    bind_simpl. do 3 eexists. split; [done|]. split; [done|]. split; [done|]. split.
    + intros _ _. exists mes, meta, level. split_and!; try done. split_and!; try done. by apply K3.
    + intros ->%Hnil. by destruct B3 as (e & [=] & _).
  - do 3 eexists. split; [done|]. split; [done|]. split; [done|]. split; [|done]. intros Eo Hne. rewrite Eo in E. cbn [andb] in E. apply Z.ltb_ge in E. assert (map raw mes <> []) as Hne' by (intros E0%map_eq_nil; tauto).
    specialize (Hsz Eo Hne'). lia.
Qed.

(** The number of the new table was not in use before; [k] more are left. *)
Lemma WriteLevel0Table_number m edit base (w : W) k r : WriteLevel0Table ucmp dbname m edit base w = Some r -> room w (S k) ->
  let n := (new_output_number w).1 in ~ given w n /\ given (new_output_number w).2 n /\ 0 < n < 2 ^ 64 /\ room r.2 k.
Proof.
  intros E Hk n. unfold WriteLevel0Table in E. destruct (wl_number w) as [_ Hn]. destruct (Hn k Hk) as (Ha1 & Ha2 & Ha3 & Ha4). subst n.
  destruct (new_output_number w) as [n w1]. cbn [fst snd] in *. split_and!; try done; try lia.
  destruct (BuildTable _ _ _ _ _) as [[[s meta] w2]|] eqn:Eb; [|done]. cbn [mbind option_bind] in E. eapply BuildTable_room in Eb; [|exact Ha4]. cbn [snd] in Eb.
  destruct (fl_room w2 k Eb) as [_ Her]. destruct (_ && _); [|injection E as <-; apply Her].
  destruct (match base with Some v => _ | None => _ end); [|done]. cbn [mbind option_bind] in E. injection E as <-. apply Her.
Qed.

End FlushLemmas.

(** ** The world in memory *)

#[global] Instance MemWorld_flush : FlushOps MemWorld := {
  delete_file f w := (Status_OK, MkMemWorld (mw_building w) (mw_file w) (delete f (mw_tables w)) (mw_next w) (mw_edits w));
  erase_output _ w := w;
  delete_obsolete w := w
}.

Lemma sizes_grow (es : list (bytes * bytes)) n : n <= fold_left (fun n e => n + Zlength e.1 + Zlength e.2) es n.
Proof.
  revert n. induction es as [|e es IH]; intros n; cbn [fold_left]; [lia|]. specialize (IH (n + Zlength e.1 + Zlength e.2)).
  pose proof (Zlength_nonneg e.1). pose proof (Zlength_nonneg e.2). lia.
Qed.

Lemma MemWorld_flush_laws : FlushLaws MemWorld.
Proof.
  split.
  - intros f w. split; [|done]. intros g es Hg Ht. cbn in *. rewrite lookup_delete_ne; [done|congruence].
  - intros n w. by split.
  - intros w Hne Hf _. cbn in *. destruct (mw_building w) as [|e es]; [done|]. inversion_clear Hf as [|? ? He _]. cbn [fold_left].
    pose proof (sizes_grow es (0 + Zlength e.1 + Zlength e.2)). pose proof (Zlength_nonneg e.2). assert (0 < Zlength e.1); [|lia].
    destruct e.1; [done|]. rewrite Zlength_cons. pose proof (Zlength_nonneg l). lia.
  - intros w k Hk. split; [intros f|intros n]; exact Hk.
Qed.

(** ** Properties *)

(** C9: Compacting a memtable loses nothing and hides nothing: [CompactMemTable]
    returns, and when it reports OK it has logged one edit that adds one table
    under a new number; the table holds exactly the memtable's entries, in order,
    with its first and last keys as bounds; it goes to a level only if no file on
    that level or above shares its range of user keys, so older entries stay below
    newer ones; and the edit retires every log before the current one.  On an
    error [imm_] stays.  Tables that were finished before are still there when
    the edit is logged. *)
Theorem CompactMemTable_correct {W : Type} (WO : World W) (WM : WorldModel W) (WL : WorldLaws W) (FO : FlushOps W) (FL : FlushLaws W)
    (ucmp : Comparator) (CL : ComparatorLaws ucmp any_key) (dbname : bytes) (m : MemTable) (es : list mem_entry) (logfile_number : Z) (base : Version) (w : W) :
  mem_rep ucmp m es -> es <> [] -> levels_ok ucmp base ->
  exists s imm' w', CompactMemTable ucmp dbname (Some m) logfile_number base w = Some (s, imm', w') /\
    if ok s then
      imm' = None /\ exists mes meta level w1, mes ≡ₚ es /\ sorted_entries (InternalKeyCompare ucmp) internal_ok (map raw mes) /\
        number meta = (new_output_number w).1 /\ built (map raw mes) (TableFileName dbname (number meta)) meta w1 /\
        keeps (Some (TableFileName dbname (number meta))) w w1 /\
        placed ucmp base level (InternalKey_user_key (smallest meta)) (InternalKey_user_key (largest meta)) /\
        let edit := SetLogNumber (SetPrevLogNumber (file_of VersionEdit_new level meta) 0) logfile_number in
        (LogAndApply edit w1).1.1 = s /\ w' = delete_obsolete (LogAndApply edit w1).2
    else imm' = Some m.
Proof.
  intros Hm Hne Hb. unfold CompactMemTable. bind_simpl.
  destruct (WriteLevel0Table_ok ucmp dbname m es VersionEdit_new (Some base) w Hm) as (s & edit & w1 & -> & HK & _ & Hok & _); [by intros v [= <-]|]. bind_simpl.
  destruct (ok s) eqn:Eo; [|cbn [andb]; cbv beta iota zeta; rewrite Eo; cbv beta iota; rewrite Eo; do 3 eexists; split; [reflexivity|]; by rewrite Eo].
  destruct (Hok eq_refl Hne) as (mes & meta & level & Hp & Hs & Hn & Hbu & -> & Hpl). rewrite <- Hn in *.
  destruct (wl_shutting w1) as [[K1 K2] _]. destruct (shutting_down_ w1) as [down w2]. cbn [fst snd andb] in *.
  destruct down; [cbn; do 3 eexists; done|]. rewrite Eo. set (e := SetLogNumber _ _). destruct (LogAndApply e w2) as [[s3 e3] w3] eqn:El.
  destruct (ok s3) eqn:E3; do 3 eexists; (split; [done|]); rewrite E3; [|done]. split; [done|]. exists mes, meta, level, w2. split_and!; try done.
  - destruct Hbu as (B1 & B2 & B3 & B4). split_and!; try done. by apply K1.
  - destruct HK as [HK1 HK2]. split; eauto.
  - fold e. by rewrite El.
  - fold e. by rewrite El.
Qed.

Lemma CompactMemTable_correct_witness :
  exists m s w' mes, add_all (H := BumpHeap) BytewiseComparator (MemTable_new (H := BumpHeap)) [put_at "b" 2; put_at "a" 1] = Some m /\
    CompactMemTable BytewiseComparator (str "d") (Some m) 9 Version_new (MkMemWorld [] [] ∅ 7 []) = Some (s, None, w') /\ mes ≡ₚ [put_at "b" 2; put_at "a" 1].
Proof.
  assert (match add_all (H := BumpHeap) BytewiseComparator (MemTable_new (H := BumpHeap)) [put_at "b" 2; put_at "a" 1] with
    | Some m => match CompactMemTable BytewiseComparator (str "d") (Some m) 9 Version_new (MkMemWorld [] [] ∅ 7 []) with Some (s, _, _) => ok s | None => false end
    | None => false end = true) as Hrun by (vm_compute; reflexivity).
  destruct (add_all_ok (HA := BumpHeap) BytewiseComparator [put_at "b" 2; put_at "a" 1] (MemTable_new (H := BumpHeap)) []) as (m & E & Hm).
  - apply (MemTable_new_rep BytewiseComparator).
  - repeat constructor; unfold seq_ok; rewrite ?kMaxSequenceNumber_val; cbn; lia.
  - repeat constructor; intros _; cbn; lia.
  - destruct (CompactMemTable_correct MemWorld_ops MemWorld_model MemWorld_laws MemWorld_flush MemWorld_flush_laws BytewiseComparator _ (str "d") m _ 9 Version_new (MkMemWorld [] [] ∅ 7 []) Hm) as (s & imm' & w' & Ec & Hs).
    + discriminate.
    + intros level _. assert (level_files Version_new level = []) as ->; [|by repeat split; try constructor].
      unfold level_files, Version_new. cbn [files_]. rewrite nth_lookup. destruct (replicate _ _ !! level) as [x|] eqn:Ex; [|done]. by apply lookup_replicate in Ex as [-> _].
    + rewrite E, Ec in Hrun. rewrite Hrun in Hs. destruct Hs as [-> (mes & _ & _ & _ & Hp & _)]. exists m, s, w', mes. by split_and!.
Defined.
