(* ===== verification/Recover.v ===== *)
(** db/db_impl.cpp, opening a database: [MaybeIgnoreError], [RecoverLogFile] and
    [DBImpl::Recover].

    What they call is the interface [World] of CompactionWork.v with [FlushOps] of
    Flush.v, extended by [RecoverOps]: directory and lock, [NewDB] and
    [VersionSet::Recover] (modelled in Manifest.v), and the log files.  The log
    reader, the batches and the memtables are the ones of LogFile.v, WriteBatch.v
    and MemTable.v.  [None] is a failed assertion; info logs are left out. *)

From Stdlib Require Import ZArith Lia List Bool String Sorting.Sorted.
From stdpp Require Import sorting.
From S2P Require Import Prelude Lists Coding Slice Comparator Crc32c Bloom Filename Env DbFormat LogFile.
From S2P Require Import Arena SkipList MemTable WriteBatch VersionEdit Version VersionSet Snapshot CompactionWork.
From S2P Require Import Options Iterators InternalIters Manifest DbImpl DbWrite Flush.
Import WriteBatchInternal.

(** ** The interface *)

Class RecoverOps (W : Type) := {
  create_dir : bytes -> W -> Status * W;
  lock_file : bytes -> W -> Status * W;                     (* sets db_lock_ *)
  file_exists : bytes -> W -> bool;
  new_db : W -> option (Status * W);                        (* NewDB *)
  versions_recover : W -> option (Status * W);              (* versions_->Recover *)
  versions_log_number : W -> Z;
  versions_prev_log_number : W -> Z;
  versions_last_sequence : W -> Z;
  get_children : bytes -> W -> Status * list bytes * W;
  open_log : bytes -> W -> Status * SequentialFile * W;     (* NewSequentialFile *)
  mark_file_number_used : Z -> W -> W;
  set_last_sequence : Z -> W -> option W
}.

Definition MaybeIgnoreError (paranoid : bool) (s : Status) : Status := if ok s || paranoid then s else Status_OK.

(** [LogReporter::Corruption]; [status] is only given when checks are paranoid. *)
Definition Corruption (paranoid : bool) (status s : Status) : Status := if paranoid && ok status then s else status.

(** ** RecoverLogFile *)

Section Recover.
Context {W : Type} `{!World W} `{!FlushOps W} `{!RecoverOps W} `{C : Checksum} (ucmp : Comparator) `{HA : HeapAlloc} (capacity : nat -> Z).
Context (dbname : bytes) (opts : Options).

(** The locals that the loop over records changes. *)
Record log_recovery := MkLogRecovery {
  l_status : Status;
  l_mem : option MemTable;
  l_edit : VersionEdit;
  l_max_sequence : Z;
  l_world : W
}.

Definition with_status (x : log_recovery) (s : Status) : log_recovery :=
  MkLogRecovery s (l_mem x) (l_edit x) (l_max_sequence x) (l_world x).

(** The body of the loop for a record that is long enough; [false] leaves the loop. *)
Definition RecoverLogFile_record (x : log_recovery) (record : bytes) : option (bool * log_recovery) :=
  batch ← SetContents record;
  let mem := match l_mem x with Some m => m | None => Ref MemTable_new end in
  '(status, mem) ← InsertInto ucmp batch mem;
  let status := MaybeIgnoreError (paranoid_checks opts) status in
  if negb (ok status) then Some (false, MkLogRecovery status (Some mem) (l_edit x) (l_max_sequence x) (l_world x))
  else
    let last_seq := u64 (Sequence batch + Count batch - 1) in
    let max_sequence := if last_seq >? l_max_sequence x then last_seq else l_max_sequence x in
    if ApproximateMemoryUsage capacity mem >? write_buffer_size opts then
      '(status, edit, w) ← WriteLevel0Table ucmp dbname mem (l_edit x) None (l_world x);
      if negb (ok status) then Some (false, MkLogRecovery status (Some mem) edit max_sequence w)
      else Some (true, MkLogRecovery status None edit max_sequence w)
    else Some (true, MkLogRecovery status (Some mem) (l_edit x) max_sequence (l_world x)).

(** [while (reader.ReadRecord(&record, &scratch) && status.ok())] *)
Fixpoint RecoverLogFile_loop (fuel : nat) (r : Reader) (record scratch : bytes) (x : log_recovery) : option log_recovery :=
  match fuel with
  | O => None
  | S fuel =>
      '(got, record, scratch, r') ← ReadRecord r record scratch;
      let x := with_status x (fold_left (fun s rep => Corruption (paranoid_checks opts) s rep.2) (drop (length (reports r)) (reports r')) (l_status x)) in
      if (got : bool) && ok (l_status x) then
        if Zlength record <? 12 then
          RecoverLogFile_loop fuel r' record scratch
            (with_status x (Corruption (paranoid_checks opts) (l_status x) (Status_Corruption (str "log record too small") [])))
        else
          '(go, x) ← RecoverLogFile_record x record;
          if (go : bool) then RecoverLogFile_loop fuel r' record scratch x else Some x
      else Some x
  end.

(** [store], [lro] and [eob] are the reader's buffer and uninitialised fields, as
    in Manifest.v; every record takes bytes of the file, so its length plus two is
    enough fuel. *)
Definition RecoverLogFile (log_number store lro eob : Z) (edit : VersionEdit) (max_sequence : Z) (w : W)
    : option (Status * VersionEdit * Z * W) :=
  let '(status, file, w) := open_log (LogFileName dbname log_number) w in
  if negb (ok status) then Some (MaybeIgnoreError (paranoid_checks opts) status, edit, max_sequence, w)
  else
    x ← RecoverLogFile_loop (length (sf_data file) + 2) (Reader_new file true true store 0 lro eob) [] []
          (MkLogRecovery status None edit max_sequence w);
    match l_mem x with
    | Some mem =>
        if ok (l_status x) then
          '(status, edit, w) ← WriteLevel0Table ucmp dbname mem (l_edit x) None (l_world x);
          Some (status, edit, l_max_sequence x, w)
        else Some (l_status x, l_edit x, l_max_sequence x, l_world x)
    | None => Some (l_status x, l_edit x, l_max_sequence x, l_world x)
    end.

(** ** DBImpl::Recover *)

(** The numbers of the logs to recover among the children of the directory. *)
Definition log_numbers (min_log prev_log : Z) (filenames : list bytes) : list Z :=
  omap (fun f => match ParseFileName f with
                 | Some (number, kLogFile) => if (min_log <=? number) || (number =? prev_log) then Some number else None
                 | _ => None
                 end) filenames.

(** The loop over the sorted numbers; [locals n] are the addresses and the
    uninitialised fields of the reader of log [n]. *)
Fixpoint Recover_logs (locals : Z -> Z * Z * Z) (logs : list Z) (s : Status) (edit : VersionEdit) (max_sequence : Z) (w : W)
    : option (Status * VersionEdit * Z * W) :=
  match logs with
  | [] => Some (s, edit, max_sequence, w)
  | n :: logs =>
      let '(store, lro, eob) := locals n in
      '(s, edit, max_sequence, w) ← RecoverLogFile n store lro eob edit max_sequence w;
      Recover_logs locals logs s edit max_sequence (mark_file_number_used n w)
  end.

(** The part before [versions_->Recover()]; [None] in the status: go on. *)
Definition Recover_check (w : W) : option (option Status * W) :=
  if negb (file_exists (CurrentFileName dbname) w) then
    if create_if_missing opts then
      '(s, w) ← new_db w;
      Some (if ok s then None else Some s, w)
    else Some (Some (Status_InvalidArgument dbname (str "does not exist (create_if_missing is false)")), w)
  else if error_if_exists opts then Some (Some (Status_InvalidArgument dbname (str "exists (error_if_exists is true)")), w)
  else Some (None, w).

(** Up to [GetChildren]: an early return, or the limits for log numbers and the
    names in the directory. *)
Definition Recover_open (db_lock : bool) (w : W) : option (Status * W + Z * Z * Status * list bytes * W) :=
  let '(_, w) := create_dir dbname w in
  if db_lock then None
  else
    let '(s, w) := lock_file (LockFileName dbname) w in
    if negb (ok s) then Some (inl (s, w))
    else
      '(stop, w) ← Recover_check w;
      match stop with
      | Some s => Some (inl (s, w))
      | None =>
          '(s, w) ← versions_recover w;
          if negb (ok s) then Some (inl (s, w))
          else
            let min_log := versions_log_number w in
            let prev_log := versions_prev_log_number w in
            let '(s, filenames, w) := get_children dbname w in
            if negb (ok s) then Some (inl (s, w)) else Some (inr (min_log, prev_log, s, filenames, w))
      end.

Definition DB_Recover (db_lock : bool) (locals : Z -> Z * Z * Z) (edit : VersionEdit) (w : W) : option (Status * VersionEdit * W) :=
  r ← Recover_open db_lock w;
  match r with
  | inl (s, w) => Some (s, edit, w)
  | inr (min_log, prev_log, s, filenames, w) =>
      let logs := merge_sort Z.le (log_numbers min_log prev_log filenames) in
      '(s, edit, max_sequence, w) ← Recover_logs locals logs s edit 0 w;
      if ok s && (versions_last_sequence w <? max_sequence) then
        w ← set_last_sequence max_sequence w; Some (s, edit, w)
      else Some (s, edit, w)
  end.

End Recover.
Arguments log_recovery : clear implicits.

(** ** Lemmas: the tables that recovery adds *)

Class RecoverLaws (W : Type) `{!World W} `{!WorldModel W} `{!FlushOps W} `{!RecoverOps W} : Prop := {
  rl_open f w : keeps None w (open_log f w).2 /\ forall k, room w k -> room (open_log f w).2 k;
  rl_mark n w : keeps None w (mark_file_number_used n w) /\
    forall k, 0 <= n -> n + 1 + Z.of_nat k < 2 ^ 64 -> room w k -> room (mark_file_number_used n w) k;
  rl_sequence n w : versions_last_sequence w < n -> exists w', set_last_sequence n w = Some w' /\ keeps None w w' /\ versions_last_sequence w' = n
}.

Section Tables.
Context {W : Type} `{!World W} `{!WorldModel W} `{!WorldLaws W} `{!FlushOps W} `{!FlushLaws W} (ucmp : Comparator) `{!ComparatorLaws ucmp any_key} (dbname : bytes).

(** Tables under the numbers handed out before stay. *)
Definition kept (w w' : W) : Prop :=
  (forall n, given w n -> given w' n) /\
  forall n es, given w n -> is_u64 n -> table w (TableFileName dbname n) = Some es -> table w' (TableFileName dbname n) = Some es.

Lemma kept_refl w : kept w w.
Proof. split; auto. Qed.

Lemma kept_trans w1 w2 w3 : kept w1 w2 -> kept w2 w3 -> kept w1 w3.
Proof. intros [G1 T1] [G2 T2]. split; eauto 10. Qed.

Lemma keeps_kept w w' : keeps None w w' -> kept w w'.
Proof. intros [H1 H2]. split; [done|]. intros n es _ _ Ht. by apply H1. Qed.

(** A level 0 table with its entries. *)
Definition holds_table (w : W) (t : FileMetaData * list mem_entry) : Prop :=
  sorted_entries (InternalKeyCompare ucmp) internal_ok (map raw t.2) /\ built (map raw t.2) (TableFileName dbname (number t.1)) t.1 w /\
  given w (number t.1) /\ is_u64 (number t.1).

(** [edit'] adds to [edit] level 0 tables, under new numbers, that hold exactly [es]. *)
Record added (edit edit' : VersionEdit) (w w' : W) (ts : list (FileMetaData * list mem_entry)) (es : list mem_entry) : Prop := {
  a_edit : edit' = fold_left (fun e t => file_of e 0 t.1) ts edit;
  a_entries : concat (map snd ts) ≡ₚ es;
  a_tables : Forall (holds_table w') ts;
  a_new : Forall (fun t => ~ given w (number t.1)) ts;
  a_distinct : NoDup (map (fun t => number t.1) ts);
  a_kept : kept w w'
}.

Lemma holds_table_kept w w' t : kept w w' -> holds_table w t -> holds_table w' t.
Proof.
  intros [G T] (Hs & (B1 & B2 & B3 & B4) & Hg & Hu). split; [done|]. split; [|by auto]. split; [done|]. by auto.
Qed.

Lemma added_nil edit w w' : kept w w' -> added edit edit w w' [] [].
Proof. intros Hk. split; try done; constructor. Qed.

#[export] Instance added_proper edit edit' w w' ts : Proper ((≡ₚ) ==> iff) (added edit edit' w w' ts).
Proof. intros es es' He. split; intros [E P T N D K]; split; try done; by rewrite P, He. Qed.

Lemma added_app e1 e2 e3 w1 w2 w3 ts1 ts2 es1 es2 :
  added e1 e2 w1 w2 ts1 es1 -> added e2 e3 w2 w3 ts2 es2 -> added e1 e3 w1 w3 (ts1 ++ ts2) (es1 ++ es2).
Proof.
  intros [E1 P1 T1 N1 D1 K1] [E2 P2 T2 N2 D2 K2]. split.
  - by rewrite fold_left_app, <- E1.
  - by rewrite map_app, concat_app, P1, P2.
  - apply Forall_app. split; [|done]. eapply Forall_impl; [exact T1|]. intros t. by apply holds_table_kept.
  - apply Forall_app. split; [done|]. eapply Forall_impl; [exact N2|]. intros t Hn Hg. by apply Hn, K1.
  - rewrite map_app. apply NoDup_app. split; [done|]. split; [|done]. intros n (t1 & -> & H1)%list_elem_of_fmap (t2 & Hn & H2)%list_elem_of_fmap.
    rewrite Forall_forall in T1, N2. destruct (T1 t1 H1) as (_ & _ & Hg & _). apply (N2 t2 H2). by rewrite <- Hn.
  - by eapply kept_trans.
Qed.

Lemma added_kept edit edit' w0 w w' ts es : kept w0 w -> added edit edit' w w' ts es -> added edit edit' w0 w' ts es.
Proof. intros Hk Ha. exact (added_app _ _ _ _ _ _ [] ts [] es (added_nil edit w0 w Hk) Ha). Qed.

Lemma WriteLevel0Table_added m es edit (w : W) k : mem_rep ucmp m es -> room w (S k) ->
  exists s edit' w', WriteLevel0Table ucmp dbname m edit None w = Some (s, edit', w') /\ room w' k /\ (ok s = true -> exists ts, added edit edit' w w' ts es).
Proof.
  intros Hm Hk. destruct (WriteLevel0Table_ok ucmp dbname m es edit None w Hm) as (s & edit' & w' & E & [K1 K2] & [_ K3] & Hok & Hnil); [done|].
  destruct (WriteLevel0Table_number ucmp dbname m edit None w k _ E Hk) as (Hng & Hg & Hn & Hr). cbn [snd] in Hr.
  exists s, edit', w'. split; [done|]. split; [done|]. intros Eo.
  assert (kept w w') as Hkept.
  { split; [done|]. intros n0 es0 Hg0 Hu0. apply K1. intros [= E0]. apply TableFileName_inj in E0; [by subst|unfold is_u64; lia|done]. }
  destruct (decide (es = [])) as [->|Hne].
  - exists []. rewrite Hnil by done. by apply added_nil.
  - destruct (Hok Eo Hne) as (mes & meta & level & Hp & Hs & En & Hb & -> & ->). exists [(meta, mes)]. split.
    + done.
    + cbn. by rewrite app_nil_r.
    + apply Forall_singleton. unfold holds_table. cbn [fst snd]. rewrite En. split_and!; try done; [|unfold is_u64; lia].
      by apply K3.
    + by apply Forall_singleton; cbn [fst]; rewrite En.
    + cbn. apply NoDup_singleton.
    + done.
Qed.

End Tables.

(** ** Lemmas: RecoverLogFile *)

(** The batches of a log, each with its first sequence number. *)
Definition log_entries (bs : list (Z * list update)) : list mem_entry := concat (map (fun b => numbered b.1 b.2) bs).

Definition log_records (bs : list (Z * list update)) : list bytes := map (fun b => batch_bytes b.1 b.2) bs.

(** The sequence number of the last update, as the code computes it. *)
Definition last_seq (b : Z * list update) : Z := b.1 + Zlength b.2 - 1.

(** A batch that was committed after [es]. *)
Definition batch_after (es : list mem_entry) (b : Z * list update) : Prop :=
  0 < b.1 /\ b.1 + Zlength b.2 <= kMaxSequenceNumber /\ Zlength b.2 < 2 ^ 31 /\ Forall update_fits b.2 /\ older b.1 es.

Fixpoint log_ok (es : list mem_entry) (bs : list (Z * list update)) : Prop :=
  match bs with [] => True | b :: bs => batch_after es b /\ log_ok (es ++ numbered b.1 b.2) bs end.

Lemma log_ok_mono bs : forall es es', es' ⊆ es -> log_ok es bs -> log_ok es' bs.
Proof.
  induction bs as [|b bs IH]; intros es es' Hs; cbn [log_ok]; [done|]. intros [(H1 & H2 & H3 & H4 & H5) H]. split.
  - split_and!; try done. unfold older in *. rewrite Forall_forall in *. auto.
  - eapply IH; [|exact H]. set_solver.
Qed.

Lemma batch_bytes_long seq us : 12 <= Zlength (batch_bytes seq us).
Proof.
  unfold batch_bytes. rewrite !Zlength_app. pose proof (Zlength_nonneg (concat (map update_bytes us))).
  unfold Zlength at 1 2. rewrite EncodeFixed64_length, EncodeFixed32_length. lia.
Qed.

Lemma batch_last_seq es b : batch_after es b -> u64 (Sequence (batch_bytes b.1 b.2) + Count (batch_bytes b.1 b.2) - 1) = last_seq b.
Proof.
  intros (H1 & H2 & H3 & _). destruct (batch_header b.1 b.2) as (Es & Ec & _). unfold Count. rewrite Es, Ec. pose proof (Zlength_nonneg b.2). rewrite kMaxSequenceNumber_val in H2.
  rewrite (u64_small b.1), (u32_small (Zlength b.2)) by (unfold is_u64, is_u32; lia). rewrite s32_small by lia.
  unfold last_seq. apply u64_small. unfold is_u64. lia.
Qed.

Section LogLemmas.
Context {W : Type} `{!World W} `{!WorldModel W} `{!WorldLaws W} `{!FlushOps W} `{!FlushLaws W} `{!RecoverOps W} `{!RecoverLaws W}.
Context `{C : Checksum} (ucmp : Comparator) `{!ComparatorLaws ucmp any_key} `{HA : HeapAlloc} (capacity : nat -> Z) (dbname : bytes) (opts : Options).

Definition mem_holds (o : option MemTable) (es : list mem_entry) : Prop :=
  match o with Some m => mem_rep ucmp m es | None => es = [] end.

Lemma room_le (w : W) j k : (j <= k)%nat -> room w k -> room w j.
Proof. induction 1 as [|k _ IH]; [done|]. intros Hk. by apply IH, wl_room_less. Qed.

Lemma RecoverLogFile_record_ok (x : log_recovery W) em b k : mem_holds (l_mem x) em -> batch_after em b -> room (l_world x) (S k) ->
  exists go x', RecoverLogFile_record ucmp capacity dbname opts x (batch_bytes b.1 b.2) = Some (go, x') /\ go = ok (l_status x') /\ room (l_world x') k /\
    (go = true -> exists em' ts fl, mem_holds (l_mem x') em' /\ em' ⊆ em ++ numbered b.1 b.2 /\
       added ucmp dbname (l_edit x) (l_edit x') (l_world x) (l_world x') ts fl /\ fl ++ em' ≡ₚ em ++ numbered b.1 b.2 /\
       l_max_sequence x' = Z.max (l_max_sequence x) (last_seq b)).
Proof.
  intros Hm Hb Hk. unfold RecoverLogFile_record, SetContents. pose proof (batch_bytes_long b.1 b.2). rewrite (proj2 (Z.ltb_ge _ _)) by (unfold kHeader; lia). bind_simpl.
  set (m := match l_mem x with Some m => m | None => Ref MemTable_new end).
  assert (mem_rep ucmp m em) as Hm0. { subst m. destruct (l_mem x); [done|]. cbn in Hm. subst em. apply (MemTable_new_rep ucmp). }
  destruct Hb as (H1 & H2 & H3 & H4 & H5) eqn:Hb0. destruct (InsertInto_ok ucmp m em b.2 b.1 Hm0 H5) as (m' & -> & Hm'); [lia|done..|]. bind_simpl.
  unfold MaybeIgnoreError. change (ok Status_OK || _) with true. cbn iota. change (ok Status_OK) with true. cbn [negb].
  rewrite (batch_last_seq em b) by (split_and!; done).
  assert ((if last_seq b >? l_max_sequence x then last_seq b else l_max_sequence x) = Z.max (l_max_sequence x) (last_seq b)) as ->.
  { destruct (Z.gtb_spec (last_seq b) (l_max_sequence x)); lia. }
  destruct (_ >? write_buffer_size opts).
  - destruct (WriteLevel0Table_added ucmp dbname m' (em ++ numbered b.1 b.2) (l_edit x) (l_world x) k Hm' Hk) as (s & edit & w & -> & Hr & Hok). bind_simpl.
    destruct (ok s) eqn:Es; cbn [negb]; do 2 eexists; (split; [done|]); cbn [l_status]; (split; [by rewrite Es|]); (split; [done|]); [|done]. intros _.
    destruct (Hok eq_refl) as [ts Ha]. exists [], ts, (em ++ numbered b.1 b.2). split_and!; try done; [set_solver|by rewrite app_nil_r].
  - do 2 eexists. split; [done|]. split; [done|]. split; [by apply wl_room_less|]. intros _. exists (em ++ numbered b.1 b.2), [], []. cbn [l_mem l_edit l_world l_max_sequence].
    split_and!; try done. apply added_nil, kept_refl.
Qed.

Lemma RecoverLogFile_loop_ok bs : forall fuel r record scratch (x : log_recovery W) em k, reads r (log_records bs) -> (length bs < fuel)%nat ->
  ok (l_status x) = true -> log_ok em bs -> mem_holds (l_mem x) em -> room (l_world x) (length bs + k) ->
  exists x', RecoverLogFile_loop ucmp capacity dbname opts fuel r record scratch x = Some x' /\ room (l_world x') k /\
    (ok (l_status x') = true -> exists rest ts fl, mem_holds (l_mem x') rest /\ added ucmp dbname (l_edit x) (l_edit x') (l_world x) (l_world x') ts fl /\
       fl ++ rest ≡ₚ em ++ log_entries bs /\ l_max_sequence x' = fold_left Z.max (map last_seq bs) (l_max_sequence x)).
Proof.
  induction bs as [|b bs IH]; intros fuel r record scratch x em k Hr Hf Hx Hlog Hm Hk; (destruct fuel as [|fuel]; [lia|]);
    cbn [log_records map reads] in Hr; destruct (Hr record scratch) as (sc & r' & Hread); cbn [RecoverLogFile_loop].
  - destruct Hread as (rec & -> & Hrep). bind_simpl. rewrite Hrep, drop_all. cbn [fold_left andb]. eexists. split; [done|]. split; [done|]. intros _.
    exists em, [], []. unfold log_entries. cbn [with_status l_mem l_edit l_world l_max_sequence map concat app]. rewrite app_nil_r. split_and!; try done. apply added_nil, kept_refl.
  - destruct Hread as (-> & Hrep & Hr'). bind_simpl. rewrite Hrep, drop_all. cbn [fold_left andb]. change (l_status (with_status x (l_status x))) with (l_status x). rewrite Hx.
    pose proof (batch_bytes_long b.1 b.2). rewrite (proj2 (Z.ltb_ge _ _)) by lia. destruct Hlog as [Hb Hlog].
    destruct (RecoverLogFile_record_ok (with_status x (l_status x)) em b (length bs + k) Hm Hb Hk) as (go & x1 & -> & Hgo & Hk1 & Hok). bind_simpl.
    destruct go; [|eexists; split; [done|]; split; [eapply room_le, Hk1; lia|congruence]]. destruct (Hok eq_refl) as (em1 & ts1 & fl1 & Hm1 & Hsub & Ha1 & Hp1 & Hmax).
    destruct (IH fuel r' (batch_bytes b.1 b.2) sc x1 em1 k Hr') as (x' & -> & Hk2 & Hx'); try done; [cbn in Hf; lia|by eapply log_ok_mono|].
    exists x'. split; [done|]. split; [done|]. intros Eo. destruct (Hx' Eo) as (rest & ts2 & fl2 & Hm2 & Ha2 & Hp2 & Hmax2). exists rest, (ts1 ++ ts2), (fl1 ++ fl2).
    split; [done|]. split; [by eapply added_app|]. split.
    + unfold log_entries in *. cbn [map concat]. rewrite <- app_assoc, Hp2, !app_assoc, Hp1. done.
    + cbn [map fold_left]. rewrite Hmax2, Hmax. done.
Qed.

(** The log of number [n] opens in [w] and holds the batches [bs]. *)
Definition log_holds (store lro eob : Z) (n : Z) (bs : list (Z * list update)) (w : W) : Prop :=
  let '(s, file, _) := open_log (LogFileName dbname n) w in
  ok s = true /\ reads (Reader_new file true true store 0 lro eob) (log_records bs).

Lemma RecoverLogFile_ok n store lro eob bs edit max_sequence (w : W) k :
  log_holds store lro eob n bs w -> log_ok [] bs -> room w (S (length bs + k)) ->
  exists s edit' max_sequence' w', RecoverLogFile ucmp capacity dbname opts n store lro eob edit max_sequence w = Some (s, edit', max_sequence', w') /\ room w' k /\
    (ok s = true -> exists ts, added ucmp dbname edit edit' w w' ts (log_entries bs) /\ max_sequence' = fold_left Z.max (map last_seq bs) max_sequence).
Proof.
  unfold log_holds, RecoverLogFile. destruct (rl_open (LogFileName dbname n) w) as [Hkeep Hroom]. destruct (open_log (LogFileName dbname n) w) as [[s file] w1]. cbn [snd] in *.
  intros [Es Hr] Hlog Hk. rewrite Es. cbn [negb]. pose proof (reads_unread _ _ Hr) as Hu. unfold log_records in Hu. rewrite length_map in Hu. unfold unread in Hu. cbn in Hu.
  destruct (RecoverLogFile_loop_ok bs (length (sf_data file) + 2) _ [] [] (MkLogRecovery s None edit max_sequence w1) [] (S k) Hr) as (x & -> & Hk' & Hx); try done; [lia|apply Hroom; by rewrite Nat.add_succ_r|].
  bind_simpl. destruct (ok (l_status x)) eqn:Ex.
  - destruct (Hx eq_refl) as (rest & ts & fl & Hm & Ha & Hp & Hmax). cbn [l_edit l_world l_max_sequence app] in *. apply keeps_kept with (dbname := dbname) in Hkeep.
    apply (added_kept _ _ _ _ w) in Ha; [|done]. destruct (l_mem x) as [m|]; cbn in Hm.
    + destruct (WriteLevel0Table_added ucmp dbname m rest (l_edit x) (l_world x) k Hm Hk') as (s' & edit' & w' & -> & Hk'' & Hok). bind_simpl.
      do 4 eexists. split; [done|]. split; [done|]. intros Eo. destruct (Hok Eo) as [ts' Ha']. exists (ts ++ ts'). split; [|done]. rewrite <- Hp. by eapply added_app.
    + subst rest. rewrite app_nil_r in Hp. do 4 eexists. split; [done|]. split; [by apply wl_room_less|]. intros _. exists ts. split; [by rewrite <- Hp|done].
  - destruct (l_mem x); do 4 eexists; (split; [done|]); (split; [by apply wl_room_less|congruence]).
Qed.

(** The status that each log's recovery reports, in order. *)
Fixpoint log_statuses (locals : Z -> Z * Z * Z) (logs : list Z) (edit : VersionEdit) (max_sequence : Z) (w : W) : list Status :=
  match logs with
  | [] => []
  | n :: logs =>
      let '(store, lro, eob) := locals n in
      match RecoverLogFile ucmp capacity dbname opts n store lro eob edit max_sequence w with
      | Some (s, edit, max_sequence, w) => s :: log_statuses locals logs edit max_sequence (mark_file_number_used n w)
      | None => []
      end
  end.

(** The log [n] is on disk, whatever else changes, and holds [bs]. *)
Definition log_on_disk (locals : Z -> Z * Z * Z) (n : Z) (bs : list (Z * list update)) : Prop :=
  let '(store, lro, eob) := locals n in (forall w, log_holds store lro eob n bs w) /\ log_ok [] bs.

(** One table for every record, and one more for every log. *)
Definition tables_needed (bss : list (list (Z * list update))) : nat := length bss + length (concat bss).

Lemma tables_needed_cons bs bss : tables_needed (bs :: bss) = S (length bs + tables_needed bss).
Proof. unfold tables_needed. cbn [length concat]. rewrite length_app. lia. Qed.

Lemma last_cons_default {A} (s x : A) (l : list A) : default s (last (x :: l)) = default x (last l).
Proof. by rewrite last_cons; destruct (last l). Qed.

(** The numbers of the logs leave room for [k] new ones. *)
Definition numbers_fit (k : nat) (logs : list Z) : Prop := Forall (fun n => 0 <= n /\ n + 1 + Z.of_nat k < 2 ^ 64) logs.

Lemma Recover_logs_ok locals logs bss : Forall2 (log_on_disk locals) logs bss ->
  forall s edit max_sequence (w : W), numbers_fit (tables_needed bss) logs -> room w (tables_needed bss) ->
  exists edit' max_sequence' w', let statuses := log_statuses locals logs edit max_sequence w in
    Recover_logs ucmp capacity dbname opts locals logs s edit max_sequence w = Some (default s (last statuses), edit', max_sequence', w') /\ length statuses = length logs /\
    (Forall (fun s => ok s = true) statuses -> exists ts, added ucmp dbname edit edit' w w' ts (concat (map log_entries bss)) /\
       max_sequence' = fold_left Z.max (map last_seq (concat bss)) max_sequence).
Proof.
  induction 1 as [|n bs logs bss Hd Hf IH]; intros s edit max_sequence w Hfit Hk; cbn [Recover_logs log_statuses].
  - do 3 eexists. split; [done|]. split; [done|]. intros _. exists []. split; [apply added_nil, kept_refl|done].
  - unfold log_on_disk in Hd. destruct (locals n) as [[store lro] eob]. destruct Hd as [Hd Hlog]. rewrite tables_needed_cons in Hk.
    destruct (RecoverLogFile_ok n store lro eob bs edit max_sequence w (tables_needed bss) (Hd w) Hlog Hk) as (s1 & edit1 & max1 & w1 & -> & Hk1 & Hok). bind_simpl.
    rewrite tables_needed_cons in Hfit. apply Forall_cons in Hfit as [Hn Hfit].
    destruct (rl_mark n w1) as [Hkeep Hroom]. destruct (IH s1 edit1 max1 (mark_file_number_used n w1)) as (edit' & max' & w' & -> & Hlen & Hok');
      [eapply Forall_impl; [exact Hfit|cbn; lia]|by apply Hroom; [lia..|]|].
    exists edit', max', w'. split; [|split; [cbn [length]; by rewrite Hlen|]].
    + by rewrite last_cons_default.
    + intros [Hs Hss]%Forall_cons. destruct (Hok Hs) as (ts1 & Ha1 & Hm1). destruct (Hok' Hss) as (ts2 & Ha2 & Hm2). exists (ts1 ++ ts2). cbn [map concat]. split.
      * eapply added_app; [exact Ha1|]. eapply added_kept; [|exact Ha2]. by apply keeps_kept.
      * rewrite map_app, fold_left_app, <- Hm1. done.
Qed.

End LogLemmas.

Lemma log_numbers_in min_log prev_log names n :
  n ∈ log_numbers min_log prev_log names <-> exists f, f ∈ names /\ ParseFileName f = Some (n, kLogFile) /\ (min_log <= n \/ n = prev_log).
Proof.
  unfold log_numbers. rewrite list_elem_of_omap. split; intros (f & Hf & E); exists f; (split; [done|]).
  - destruct (ParseFileName f) as [[m []]|]; try done. destruct (Z.leb_spec min_log m), (Z.eqb_spec m prev_log); cbn in E; simplify_eq; auto.
  - destruct E as [-> Hn]. destruct (Z.leb_spec min_log n), (Z.eqb_spec n prev_log); cbn; try done. lia.
Qed.

Lemma max_list_ge (l : list Z) n : n <= fold_left Z.max l n /\ forall x, x ∈ l -> x <= fold_left Z.max l n.
Proof.
  revert n. induction l as [|y l IH]; intros n; cbn [fold_left]; [split; [lia|intros x []%elem_of_nil]|].
  destruct (IH (Z.max n y)) as [H1 H2]. split; [lia|]. intros x [->|Hx]%elem_of_cons; [lia|auto].
Qed.

(** ** A disk in memory *)

(** The names in the directory and the files are given; the last sequence number is in the last edit. *)
Definition disk_recover (names : list bytes) (disk : bytes -> option bytes) : RecoverOps MemWorld := {|
  create_dir _ w := (Status_OK, w);
  lock_file _ w := (Status_OK, w);
  file_exists _ _ := true;
  new_db w := Some (Status_OK, w);
  versions_recover w := Some (Status_OK, w);
  versions_log_number _ := 2;
  versions_prev_log_number _ := 0;
  versions_last_sequence w := match last (mw_edits w) with Some e => VersionEdit.last_sequence_ e | None => 0 end;
  get_children _ w := (Status_OK, names, w);
  open_log f w :=
    match disk f with
    | Some data => (Status_OK, MkSequentialFile data [], w)
    | None => (Status_NotFound f [], MkSequentialFile [] [], w)
    end;
  mark_file_number_used n w := MkMemWorld (mw_building w) (mw_file w) (mw_tables w) (if mw_next w <=? n then n + 1 else mw_next w) (mw_edits w);
  set_last_sequence n w := Some (MkMemWorld (mw_building w) (mw_file w) (mw_tables w) (mw_next w) (mw_edits w ++ [VersionEdit.SetLastSequence VersionEdit_new n]))
|}.

Lemma disk_recover_laws names disk : RecoverLaws MemWorld (RecoverOps0 := disk_recover names disk).
Proof.
  split.
  - intros f w. cbn. by destruct (disk f).
  - intros n w. cbn. destruct (Z.leb_spec (mw_next w) n); repeat split; intros; cbn in *; try done; lia.
  - intros n w _. eexists. split; [reflexivity|]. split; [by split|]. cbn. by rewrite last_snoc.
Qed.

(** [Recover] on an existing database: the status is the one of the last log; when
    each log's recovery reports OK, the edit adds tables with exactly their updates. *)
Lemma DB_Recover_ok {W : Type} (WO : World W) (WM : WorldModel W) (WL : WorldLaws W) (FO : FlushOps W) (FL : FlushLaws W)
    (RO : RecoverOps W) (RL : RecoverLaws W) (C : Checksum) (ucmp : Comparator) (CL : ComparatorLaws ucmp any_key) (HA : HeapAlloc) (capacity : nat -> Z) (dbname : bytes)
    (opts : Options) (db_lock : bool) (locals : Z -> Z * Z * Z) (edit : VersionEdit) (w w1 : W) (min_log prev_log : Z) (s1 : Status)
    (names : list bytes) (bss : list (list (Z * list update))) :
  Recover_open dbname opts db_lock w = Some (inr (min_log, prev_log, s1, names, w1)) ->
  let logs := merge_sort Z.le (log_numbers min_log prev_log names) in
  Forall2 (log_on_disk dbname locals) logs bss -> numbers_fit (tables_needed bss) logs -> room w1 (tables_needed bss) ->
  exists edit' w', let statuses := log_statuses ucmp capacity dbname opts locals logs edit 0 w1 in
    DB_Recover ucmp capacity dbname opts db_lock locals edit w = Some (default s1 (last statuses), edit', w') /\ length statuses = length logs /\
    (Forall (fun s => ok s = true) statuses -> ok s1 = true ->
       (exists ts, added ucmp dbname edit edit' w1 w' ts (concat (map log_entries bss))) /\
       forall b, b ∈ concat bss -> last_seq b <= versions_last_sequence w').
Proof.
  intros Ho logs Hd Hfit Hk.
  unfold DB_Recover. rewrite Ho. bind_simpl. fold logs.
  destruct (Recover_logs_ok ucmp capacity dbname opts locals logs bss Hd s1 edit 0 w1 Hfit Hk) as (edit' & max' & w' & -> & Hlen & Hok). bind_simpl.
  set (statuses := log_statuses _ _ _ _ _ _ _ _ _) in *. destruct (ok (default s1 (last statuses)) && _) eqn:E.
  - apply andb_true_iff in E as [Es El%Z.ltb_lt]. destruct (rl_sequence max' w' El) as (w2 & -> & Hkeep & Hls). bind_simpl. exists edit', w2. split; [done|]. split; [done|].
    intros Hss _. destruct (Hok Hss) as (ts & Ha & ->). split.
    + exists ts. rewrite <- (app_nil_r ts), <- (app_nil_r (concat _)). eapply added_app; [exact Ha|]. apply added_nil. by apply keeps_kept.
    + intros b Hb. rewrite Hls. apply max_list_ge. apply list_elem_of_fmap. by exists b.
  - exists edit', w'. split; [done|]. split; [done|]. intros Hss Hs1. destruct (Hok Hss) as (ts & Ha & ->). split; [by exists ts|]. intros b Hb.
    apply andb_false_iff in E as [E|E%Z.ltb_ge].
    + exfalso. destruct (last statuses) as [s|] eqn:El; cbn in E; [|congruence]. rewrite Forall_forall in Hss. rewrite (Hss s) in E; [done|]. apply last_Some in El as [l ->]. apply elem_of_app. right. by left.
    + etransitivity; [|exact E]. apply max_list_ge. apply list_elem_of_fmap. by exists b.
Qed.

Lemma logs_taken min_log prev_log names : let logs := merge_sort Z.le (log_numbers min_log prev_log names) in
  (forall n, n ∈ logs <-> exists f, f ∈ names /\ ParseFileName f = Some (n, kLogFile) /\ (min_log <= n \/ n = prev_log)) /\ StronglySorted Z.le logs.
Proof. split; [intros n; rewrite merge_sort_Permutation; apply log_numbers_in|apply (StronglySorted_merge_sort Z.le); apply _]. Qed.

(** Two batches of log 3. *)
Definition sample_log : list (Z * list update) := [(1, [UPut (str "a") (str "b"); UPut (str "c") (str "d")]); (3, [UDelete (str "a")])].

Lemma sample_log_ok : log_ok [] sample_log.
Proof.
  unfold sample_log. cbn [log_ok]. unfold batch_after. rewrite kMaxSequenceNumber_val. repeat first [split | constructor]; cbn; try done; try lia.
Qed.

Definition sample_names : list bytes := [str "CURRENT"; str "000003.log"; str "000001.log"].

Definition sample_disk (out : bytes) (f : bytes) : option bytes := if bool_decide (f = LogFileName (str "d") 3) then Some out else None.

Definition sample_options : Options :=
  MkOptions BytewiseComparator false false true 4096 1000 false 4096 16 kNoCompression None.
