(* ===== verification/Crash.v ===== *)
(** Writes and recovery together: what the write path (DbWrite.v) leaves in the
    logs, [RecoverLogFile] (Recover.v) turns back into tables. *)

From Stdlib Require Import ZArith Lia List Bool String Sorting.Sorted.
From S2P Require Import Prelude Lists Coding Slice Comparator Crc32c Bloom Filename Env DbFormat LogFile.
From S2P Require Import Arena SkipList MemTable WriteBatch VersionEdit Version VersionSet Snapshot CompactionWork.
From S2P Require Import Options Iterators InternalIters Manifest DbImpl DbWrite Flush Recover.
Import WriteBatchInternal DBImpl.

(** The batches of committed groups. *)
Definition groups (a : list (nat * option (list update))) (cs : list (Z * list nat)) : list (Z * list update) :=
  map (fun c => (c.1, asked a c.2)) cs.

Lemma groups_entries a cs : log_entries (groups a cs) = commit_entries a cs.
Proof. unfold log_entries, groups, commit_entries. by rewrite map_map. Qed.

Lemma groups_records a cs : log_records (groups a cs) = map (fun c => batch_bytes c.1 (asked a c.2)) cs.
Proof. unfold log_records, groups. by rewrite map_map. Qed.

Lemma groups_app a cs cs' : groups a (cs ++ cs') = groups a cs ++ groups a cs'.
Proof. apply map_app. Qed.

Lemma groups_fresh a id us cs : id ∉ map fst a -> id ∉ commit_ids cs -> groups (a ++ [(id, us)]) cs = groups a cs.
Proof.
  intros Hn. induction cs as [|[q ids] cs IH]; intros Hi; [done|]. unfold commit_ids in Hi. cbn in Hi. rewrite not_elem_of_app in Hi.
  unfold groups in *. cbn [map fst snd]. rewrite asked_fresh by tauto. f_equal. apply IH. tauto.
Qed.

Lemma log_ok_app es bs bs' : log_ok es (bs ++ bs') <-> log_ok es bs /\ log_ok (es ++ log_entries bs) bs'.
Proof.
  revert es. induction bs as [|b bs IH]; intros es; cbn [app log_ok log_entries map concat]; [rewrite app_nil_r; tauto|].
  rewrite IH, <- app_assoc. unfold log_entries. tauto.
Qed.

Section Crash.
Context {St : Type} (env : EnvOps St) (contents : St -> bytes -> option bytes) (quiet : St -> Prop) `{!EnvLaws env contents} `{!EnvQuiet env contents quiet}.
Context `{C : Checksum} (ucmp : Comparator) `{!ComparatorLaws ucmp any_key} `{HA : HeapAlloc} (capacity : nat -> Z) (dbname : bytes) (write_buffer_size : Z).

(** Only the segment that applies a group commits, and it commits that group. *)
Lemma run_event (s : sys) id addr e s' : run env ucmp capacity dbname write_buffer_size s id addr = Some (e, s') ->
  e = Silent \/ e = Switched \/ exists in_tmp ls last updates, threads s !! id = Some (Applying in_tmp ls last) /\ updates_in s id in_tmp = Some updates /\
    e = Committed (Sequence updates) (group last (writers_ (db s))).
Proof.
  intros E. unfold run in E. destruct (threads s !! id) as [th|] eqn:Ht; [|done]. cbn [mbind option_bind] in E.
  destruct th as [| |f d|f d|in_tmp ls last|st in_tmp ls last|st]; try done.
  1,2: destruct (Write_wait s id); [|done]; injection E as <- _; by left.
  1,2: unfold Write_room in E; destruct (MakeRoomForWrite_pass _ _ _ _ _ _ _ _ _) as [[[[[r ?] ?] ?] ?]|]; [|done]; cbn [mbind option_bind] in E;
    destruct r; [destruct (Write_group _ _ _); [|done]|..]; injection E as <- _; auto.
  2: destruct (Write_end s id st in_tmp ls last); [|done]; injection E as <- _; by left.
  unfold Write_apply in E. destruct (ws s !! id) as [w|]; [|done]. cbn [mbind option_bind] in E. destruct (updates_in s id in_tmp) as [updates|] eqn:Eu; [|done]. cbn [mbind option_bind] in E.
  destruct (log_AddRecord _ _ _ _ _) as [[[st1 log] fs]|]; [|done]. cbn [mbind option_bind] in E. destruct (if ok st1 && _ then _ else _) as [st2 fs2].
  destruct (if ok st2 then _ else _) as [[st3 mem]|]; [|done]. cbn [mbind option_bind] in E. injection E as <- _.
  destruct (ok st3); [right; right|by left]. by exists in_tmp, ls, last, updates.
Qed.

(** A group is committed under the next sequence numbers. *)
Lemma committed_group D a cs (s : sys) id addr seq ids s' : inv contents quiet ucmp dbname D a cs s ->
  run env ucmp capacity dbname write_buffer_size s id addr = Some (Committed seq ids, s') ->
  seq = sequence_of s + 1 /\ older seq (commit_entries a cs) /\ exists rest, writers_ (db s) = ids ++ rest.
Proof.
  intros I E. apply run_event in E as [[=]|[[=]|(in_tmp & ls & last & updates & Ht & Hup & [= E1 E2])]]. subst ids.
  pose proof I as [I1 I2 I3 I4 I5 I6 I7 I8]. assert (head (writers_ (db s)) = Some id) as Hh by (eapply running_is_head; done).
  assert (leader s = Some (id, Applying in_tmp ls last)) as El by (by apply leader_is). unfold phase_ok in I4. rewrite El in I4. destruct I4 as [(G1 & G2 & G3 & G4) Hu].
  rewrite Hup in Hu. injection Hu as ->. destruct (batch_header (sequence_of s + 1) (asked a (group last (writers_ (db s))))) as (Es & _). rewrite Es in E1.
  destruct I3 as [N1 N2 N3 N4 N5 N6 N7 N8 N9]. pose proof (Zlength_nonneg (asked a (writers_ (db s)))). pose proof kMaxSequenceNumber_val.
  rewrite u64_small in E1 by (unfold is_u64; lia). split; [done|]. subst seq. split; [|by apply group_prefix]. unfold used in I7. by rewrite El in I7.
Qed.

Lemma run_committed D a cs (s : sys) id addr seq ids s' : inv contents quiet ucmp dbname D a cs s ->
  run env ucmp capacity dbname write_buffer_size s id addr = Some (Committed seq ids, s') -> batch_after (commit_entries a cs) (seq, asked a ids).
Proof.
  intros I E. destruct (committed_group D a cs s id addr seq ids s' I E) as (-> & Ho & rest & Eq). destruct I as [I1 I2 I3 I4 I5 I6 I7 I8].
  destruct I3 as [N1 N2 N3 N4 N5 N6 N7 N8 N9]. rewrite Eq, asked_app, Zlength_app in N2, N3. pose proof (Zlength_nonneg (asked a ids)). pose proof (Zlength_nonneg (asked a rest)).
  unfold batch_after. cbn [fst snd]. split_and!; [lia|lia|lia|apply asked_fits, (c_fits a s I2)|done].
Qed.

Lemma reach_groups s0 tr s : opened contents ucmp dbname s0 -> reach env contents quiet ucmp capacity dbname write_buffer_size s0 tr s ->
  log_ok [] (groups (arrivals tr) (commits tr)).
Proof.
  intros H0 Hr. induction Hr as [|tr s e s' Hr IH Hs]; [done|]. pose proof (reach_inv env contents quiet ucmp capacity dbname write_buffer_size s0 tr s H0 Hr) as I.
  unfold arrivals, commits. rewrite !omap_app. fold (arrivals tr) (commits tr). inversion Hs as [id us sync s1 Hf E|id addr e1 s1 Hleft E|s1 Ho]; subst; cbn.
  - rewrite app_nil_r. destruct Hf as [Hnew _ _ _]. assert (id ∉ map fst (arrivals tr)) as Hna.
    { intros Hx. apply (c_threads _ s (i_calls _ _ _ _ _ _ _ _ I)) in Hx. rewrite Hnew in Hx. by destruct Hx. }
    rewrite groups_fresh; [done|done|]. intros Hx. eapply Hna, committed_called; done.
  - destruct e; cbn; rewrite ?app_nil_r; try done.
    + apply run_event in E as [?|[?|(? & ? & ? & ? & _ & _ & ?)]]; done.
    + rewrite groups_app. apply log_ok_app. split; [done|]. cbn [groups map log_ok]. split; [|done]. rewrite app_nil_l, groups_entries. by eapply run_committed.
  - by rewrite !app_nil_r.
Qed.

End Crash.

(** The reader of [RecoverLogFile], whose buffer is at [store], finds the checksums
    of the log of number [n] as they are stored. *)
Definition log_intact {W : Type} `{!RecoverOps W} `{C : Checksum} (dbname : bytes) (w : W) (n store : Z) : Prop :=
  log_verifies store (sf_data (open_log (LogFileName dbname n) w).1.2) = true.

(** In the world [w] the log of number [n] is recovered: whatever the options and
    the edit, if the checksums verify [RecoverLogFile] returns, and when it reports
    OK it has added tables that hold exactly [es].  They verify at every address
    under a lawful checksum. *)
Definition recovers {W : Type} `{!World W} `{!WorldModel W} `{!FlushOps W} `{!RecoverOps W} `{C : Checksum} (ucmp : Comparator) `{HA : HeapAlloc}
    (capacity : nat -> Z) (dbname : bytes) (w : W) (n : Z) (es : list mem_entry) : Prop :=
  (ChecksumLaws C -> forall store, log_intact dbname w n store) /\
  forall opts store lro eob edit max_sequence, is_u64 lro -> log_intact dbname w n store ->
    exists s edit' max_sequence' w', RecoverLogFile ucmp capacity dbname opts n store lro eob edit max_sequence w = Some (s, edit', max_sequence', w') /\
      (ok s = true -> exists ts, added ucmp dbname edit edit' w w' ts es).

(** The world's log files are those of [st]. *)
Definition same_logs {W St : Type} `{!RecoverOps W} (contents : St -> bytes -> option bytes) (dbname : bytes) (st : St) (w : W) : Prop :=
  forall n out, contents st (LogFileName dbname n) = Some out -> exists w', open_log (LogFileName dbname n) w = (Status_OK, MkSequentialFile out [], w').

Lemma file_logs_recovers {W St : Type} `{!World W} `{!WorldModel W} `{!WorldLaws W} `{!FlushOps W} `{!FlushLaws W} `{!RecoverOps W} `{!RecoverLaws W}
    (contents : St -> bytes -> option bytes) `{C : Checksum} (ucmp : Comparator) `{!ComparatorLaws ucmp any_key} `{HA : HeapAlloc}
    (capacity : nat -> Z) (dbname : bytes) (st : St) (w : W) a cs n k :
  same_logs contents dbname st w -> file_logs contents a cs st (LogFileName dbname n) -> log_ok [] (groups a cs) -> CompactionWork.room w (S (length cs + k)) ->
  recovers ucmp capacity dbname w n (commit_entries a cs).
Proof.
  intros Hsame (ta & recs & out & b & Hl & Hw & Hc) Hlog Hk. destruct (Hsame n out Hc) as (w1 & Eo). unfold recovers, log_intact. rewrite Eo. cbn [fst snd sf_data].
  split; [by intros L store; eapply written_verifies|]. intros opts store lro eob edit max_sequence Hlro Hv.
  destruct (RecoverLogFile_ok ucmp capacity dbname opts n store lro eob (groups a cs) edit max_sequence w k) as (s & edit' & max' & w' & E & _ & Hok); [|done|by unfold groups; rewrite length_map|].
  - unfold log_holds. rewrite Eo. split; [done|]. rewrite groups_records, <- Hl. by eapply written_out_reads.
  - exists s, edit', max', w'. split; [done|]. intros Es. destruct (Hok Es) as (ts & Ha & _). exists ts. by rewrite <- groups_entries.
Qed.

(** ** Properties *)

(** C6: A crash loses no committed update that the logs can give back.  As long as
    the environment reports no errors, stop the database in any state that
    concurrent writers can reach, and recover in a world that has the same log
    files: if the checksums that the recovering reader computes in its buffer are
    those stored in a log ([log_intact]), the current log is recovered into tables
    that hold exactly what the memtable held, and while the previous memtable is
    being compacted, the log that the versions still ask for is recovered into
    tables that hold exactly what that memtable held; together with what was
    compacted before, these are all the groups committed.  A checksum that depends
    on the bytes only verifies wherever the buffer is; the code's own depends on
    the addresses of the writer's and the reader's buffers, and a log whose
    checksums do not verify is lost. *)
Theorem DB_crash_recovery {St W : Type} (env : EnvOps St) (contents : St -> bytes -> option bytes) (quiet : St -> Prop)
    (EL : EnvLaws env contents) (EQ : EnvQuiet env contents quiet) (C : Checksum) (ucmp : Comparator) (CL : ComparatorLaws ucmp any_key) (HA : HeapAlloc)
    (capacity : nat -> Z) (dbname : bytes) (write_buffer_size : Z) (s0 : sys) (tr : list event) (s : sys)
    (WO : World W) (WM : WorldModel W) (WL : WorldLaws W) (FO : FlushOps W) (FL : FlushLaws W) (RO : RecoverOps W) (RL : RecoverLaws W) (w : W) :
  opened contents ucmp dbname s0 -> quiet (files s0) -> reach env contents quiet ucmp capacity dbname write_buffer_size s0 tr s ->
  same_logs contents dbname (files s) w -> CompactionWork.room w (S (length (commits tr))) ->
  let a := arrivals tr in
  exists old imc cur, commits tr = old ++ imc ++ cur /\
    mem_rep ucmp (mem_ (db s)) (commit_entries a cur) /\ recovers ucmp capacity dbname w (logfile_number_ (db s)) (commit_entries a cur) /\
    match imm_ (db s) with
    | Some m => mem_rep ucmp m (commit_entries a imc) /\
        exists n, log_number_ (versions_ (db s)) <= n < logfile_number_ (db s) /\ recovers ucmp capacity dbname w n (commit_entries a imc)
    | None => imc = []
    end.
Proof.
  intros H0 Hq Hr Hsame Hk a. pose proof (reach_inv env contents quiet ucmp capacity dbname write_buffer_size s0 tr s H0 Hr) as I.
  pose proof (reach_groups env contents quiet ucmp capacity dbname write_buffer_size s0 tr s H0 Hr) as Hg. fold a in I, Hg. destruct I as [I1 I2 I3 I4 I5 I6 I7 I8].
  destruct I6 as (old & imc & cur & E & Hm & Hi & HD). destruct (HD Hq) as (_ & Hl & Hf). exists old, imc, cur. rewrite E in Hg, Hk. rewrite !groups_app in Hg.
  apply log_ok_app in Hg as [_ Hg]. apply log_ok_app in Hg as [Hg1 Hg2]. apply (log_ok_mono _ _ []) in Hg1, Hg2; [|set_solver..]. rewrite !length_app in Hk.
  split; [done|]. split; [done|]. split.
  - apply (file_logs_recovers contents ucmp capacity dbname (files s) w a cur _ 0); try done; [|eapply room_le, Hk; lia]. rewrite <- (n_name dbname a s I3). by apply writer_logs_file.
  - destruct (imm_ (db s)); [|done]. split; [done|]. destruct Hf as (n & Hn & _ & Hf). exists n. split; [done|].
    apply (file_logs_recovers contents ucmp capacity dbname (files s) w a imc _ 0); try done. eapply room_le, Hk. lia.
Qed.

Lemma DB_crash_recovery_witness :
  exists tr s old imc cur, outcome_on Crc32cChecksum filling 4096 = Some (tr, s) /\ commits tr = [(1, [1%nat]); (2, [2%nat])] /\ commits tr = old ++ imc ++ cur /\
    let RO := disk_recover [] (MemEnv.contents (files s)) in let w := MkMemWorld [] [] ∅ 7 [] in
    exists status edit' max' w', RecoverLogFile (RecoverOps0 := RO) (C := Crc32cChecksum) BytewiseComparator (HA := BumpHeap) (fun _ => 0) (str "d")
        sample_options (logfile_number_ (db s)) 1 0 0 VersionEdit_new 0 w = Some (status, edit', max', w') /\
      (ok status = true -> exists ts, added BytewiseComparator (str "d") VersionEdit_new edit' w w' ts (commit_entries (arrivals tr) cur)).
Proof.
  assert (match outcome_on Crc32cChecksum filling 4096 with
    | Some (tr, s) => bool_decide (commits tr = [(1, [1%nat]); (2, [2%nat])]) &&
        match MemEnv.contents (files s) (LogFileName (str "d") (logfile_number_ (db s))) with
        | Some data => log_verifies (C := Crc32cChecksum) 1 data | None => false end
    | None => false end = true) as Hb by (vm_compute; reflexivity).
  destruct (outcome_on Crc32cChecksum filling 4096) as [[tr s]|] eqn:E; [|discriminate Hb]. apply andb_true_iff in Hb as [Hb Hv]. apply bool_decide_eq_true in Hb.
  destruct (DB_crash_recovery MemEnv.ops MemEnv.contents MemEnv.quiet _ _ Crc32cChecksum BytewiseComparator _ BumpHeap (fun _ => 0) (str "d") 4096 (small_db_on Crc32cChecksum) tr s
    MemWorld_ops MemWorld_model MemWorld_laws MemWorld_flush MemWorld_flush_laws (disk_recover [] (MemEnv.contents (files s))) (disk_recover_laws [] (MemEnv.contents (files s)))
    (MkMemWorld [] [] ∅ 7 [])) as (old & imc & cur & Ecs & _ & [_ Hrec] & _).
  - apply small_db_on_opened.
  - apply Forall_nil. exact I.
  - exact (outcome_on_reach _ _ _ _ _ E).
  - intros n out Ho. unfold open_log, disk_recover. rewrite Ho. by eexists.
  - rewrite Hb. split; vm_compute; congruence.
  - exists tr, s, old, imc, cur. split; [reflexivity|]. split; [exact Hb|]. split; [exact Ecs|].
    apply Hrec; [unfold is_u64; lia|]. unfold log_intact, open_log, disk_recover. destruct (MemEnv.contents (files s) _); [exact Hv|discriminate Hv].
Defined.
