(* ===== verification/DbGet.v ===== *)
(** db/db_impl.cpp, point reads: [DBImpl::Get], and the convenience writes
    [DB::Put] and [DB::Delete].

    [Get] holds the mutex while it takes its snapshot and the three places to
    look in, gives it up while it reads, and takes it again for the statistics.
    [Get_begin], [Get_unlocked] and [Get_end] are these three segments; the
    memtable may grow between the first and the second.  Reference counts are
    left out. *)

From Stdlib Require Import ZArith Lia List Bool String Sorting.Sorted.
From stdpp Require Import sorting.
From S2P Require Import Prelude Lists Coding Slice Comparator Crc32c Bloom Filename Env DbFormat LogFile.
From S2P Require Import Arena SkipList MemTable WriteBatch VersionEdit Version VersionSet Snapshot CompactionWork.
From S2P Require Import Manifest DbImpl DbWrite Iterators InternalIters Flush Recover Crash.
Import WriteBatchInternal DBImpl.

(** ** Get *)

Section Get.
Context (ucmp : Comparator) (table_get : FileMetaData -> bytes -> Status * option (bytes * bytes)).

(** The snapshot is the one given, or everything committed so far. *)
Definition Get_begin (d : t) (snapshot : option Z) : Z * MemTable * option MemTable * Version :=
  (match snapshot with Some n => n | None => last_sequence_ (versions_ d) end, mem_ d, imm_ d, current_ (versions_ d)).

(** The memtable, then the immutable one, then the files. *)
Definition Get_unlocked (snapshot : Z) (mem : MemTable) (imm : option MemTable) (current : Version) (key value : bytes)
    : option (Status * bytes * option GetStats) :=
  let lkey := LookupKey_new key snapshot in
  '(found, value, s) ← MemTable.Get ucmp mem lkey value Status_OK;
  if (found : bool) then Some (s, value, None)
  else
    '(found, value, s) ← (match imm with Some m => MemTable.Get ucmp m lkey value s | None => Some (false, value, s) end);
    if (found : bool) then Some (s, value, None)
    else
      '(s, value, stats) ← Version_Get ucmp table_get current lkey value;
      Some (s, value, Some stats).

(** The statistics, when files were read and no other version was installed. *)
Definition Get_end (d : t) (stats : option GetStats) : t :=
  match stats with
  | None => d
  | Some stats =>
      let vs := versions_ d in
      let '(compact, v) := UpdateStats (current_ vs) stats in
      let d := with_versions d (MkVersionSet (next_file_number_ vs) (manifest_file_number_ vs) (last_sequence_ vs) (log_number_ vs)
                                  (prev_log_number_ vs) (compact_pointer_ vs) v) in
      if compact then MaybeScheduleCompaction d else d
  end.

Definition DB_Get (d : t) (snapshot : option Z) (key value : bytes) : option (Status * bytes * t) :=
  let '(snapshot, mem, imm, current) := Get_begin d snapshot in
  '(s, value, stats) ← Get_unlocked snapshot mem imm current key value;
  Some (s, value, Get_end d stats).

End Get.

(** ** Put and Delete *)

(** A new writer [id] with a batch of one update. *)
Definition DB_Put {St} (s : sys (St := St)) (id : nat) (sync : bool) (key value : bytes) : option sys :=
  Write_call s id (Some (Put WriteBatch_new key value)) sync.

Definition DB_Delete {St} (s : sys (St := St)) (id : nat) (sync : bool) (key : bytes) : option sys :=
  Write_call s id (Some (Delete WriteBatch_new key)) sync.

(** ** Lemmas: layers of entries *)

(** Newer entries behind older ones. *)
Lemma newest_app_later a b u s :
  (forall e q, e ∈ a -> q ∈ b -> sequence e.1 < sequence q.1) ->
  newest (a ++ b) u s = match newest b u s with Some e => Some e | None => newest a u s end.
Proof.
  induction a as [|x a IH]; intros Hab; [cbn; by destruct (newest b u s)|]. cbn [app newest]. rewrite IH by (intros; apply Hab; [by right|done]).
  destruct (newest b u s) as [q|] eqn:Eq; [|done]. destruct (bool_decide _ && _); [|done].
  rewrite (proj2 (Z.ltb_ge _ _)); [done|]. apply (newest_visible BytewiseComparator) in Eq as [Hq _]. specialize (Hab x q (list_elem_of_here _ _) Hq). lia.
Qed.

(** Entries after the snapshot do not matter. *)
Lemma newest_later es more u s : Forall (fun e => s < sequence e.1) more -> newest (es ++ more) u s = newest es u s.
Proof.
  intros Hm. assert (newest more u s = None) as Hn.
  { apply newest_none. intros e He [_ Hv]. rewrite Forall_forall in Hm. specialize (Hm e He). cbn in Hm. lia. }
  induction es as [|x es IH]; cbn [app newest]; [done|]. by rewrite IH.
Qed.

Lemma increasing_app_inv a b : increasing (a ++ b) -> forall e q, e ∈ a -> q ∈ b -> sequence e.1 < sequence q.1.
Proof.
  unfold increasing. rewrite map_app. intros H e q He Hq. eapply (StronglySorted_app_1_elem_of Z.lt); [exact H|..]; apply list_elem_of_fmap; eauto.
Qed.

(** Three layers of a history, the newest last. *)
Lemma newest_layers base eo ei ec u s : (forall e q, e ∈ base -> q ∈ eo ++ ei ++ ec -> sequence e.1 < sequence q.1) -> increasing (eo ++ ei ++ ec) ->
  newest (base ++ eo ++ ei ++ ec) u s = match newest ec u s with Some e => Some e | None => match newest ei u s with Some e => Some e | None => newest (base ++ eo) u s end end.
Proof.
  intros Hb Hi. rewrite !app_assoc. rewrite newest_app_later, newest_app_later; [done|..]; intros e q He Hq.
  - apply elem_of_app in He as [He|He]; [apply Hb; [done|]; rewrite !elem_of_app; tauto|]. apply (increasing_app_inv eo (ei ++ ec) Hi); [done|]. rewrite elem_of_app. tauto.
  - rewrite !elem_of_app in He. destruct He as [[He|He]|He]; [apply Hb; [done|]; rewrite !elem_of_app; tauto|..];
      rewrite app_assoc in Hi; apply (increasing_app_inv (eo ++ ei) ec Hi); rewrite ?elem_of_app; tauto.
Qed.

(** ** Lemmas: sequence numbers only grow *)

Section Sequence.
Context {St : Type} (env : EnvOps St) (contents : St -> bytes -> option bytes) (quiet : St -> Prop) `{!EnvLaws env contents} `{!EnvQuiet env contents quiet}.
Context `{C : Checksum} (ucmp : Comparator) `{!ComparatorLaws ucmp any_key} `{HA : HeapAlloc} (capacity : nat -> Z) (dbname : bytes) (write_buffer_size : Z).

Lemma Write_finish_sequence (s : sys (St := St)) id last st s' : Write_finish s id last st = Some s' -> sequence_of s' = sequence_of s.
Proof. unfold Write_finish. destruct (pop_ready _ _ _ _ _ _) as [[[q ws'] ths]|]; [|done]. by intros [= <-]. Qed.

Lemma MakeRoomForWrite_pass_sequence force allow_delay d t_addr (st : St) r f a d' st' :
  MakeRoomForWrite_pass env capacity dbname write_buffer_size force allow_delay d t_addr st = Some (r, f, a, d', st') -> last_sequence_ (versions_ d') = last_sequence_ (versions_ d).
Proof.
  unfold MakeRoomForWrite_pass, NewFileNumber, ReuseFileNumber. intros E. destruct (writers_ d); [done|]. repeat case_match; simplify_eq; done.
Qed.

Lemma Write_wait_sequence (s : sys (St := St)) id s' : Write_wait s id = Some s' -> sequence_of s' = sequence_of s.
Proof.
  unfold Write_wait. destruct (ws s !! id) as [w|]; [|done]. cbn [mbind option_bind]. destruct (w_done w); [by intros [= <-]|].
  destruct (head (writers_ (db s))); [|done]. cbn [mbind option_bind]. destruct (_ =? _)%nat; by intros [= <-].
Qed.

Lemma store_updates_sequence (s : sys (St := St)) id in_tmp b s' : store_updates s id in_tmp b = Some s' -> sequence_of s' = sequence_of s.
Proof. unfold store_updates. destruct in_tmp; [by intros [= <-]|]. destruct (ws s !! id); [|done]. by intros [= <-]. Qed.

Lemma Write_group_sequence (s : sys (St := St)) id st s' : Write_group s id st = Some s' -> sequence_of s' = sequence_of s.
Proof.
  unfold Write_group. destruct (ws s !! id) as [w|]; [|done]. cbn [mbind option_bind]. destruct (w_batch w), (ok st); try apply Write_finish_sequence.
  destruct (BuildBatchGroup _ _) as [g|]; [|done]. cbn [mbind option_bind]. set (s1 := set_db s _). destruct (updates_in s1 _ _) as [u|]; [|done]. cbn [mbind option_bind].
  destruct (store_updates _ _ _ _) as [s2|] eqn:E; [|done]. cbn [mbind option_bind]. destruct (updates_in s2 _ _); [|done]. intros [= <-].
  apply store_updates_sequence in E. exact E.
Qed.

Lemma run_sequence (s : sys) id addr e s' : run env ucmp capacity dbname write_buffer_size s id addr = Some (e, s') -> sequence_of s <= sequence_of s'.
Proof.
  intros E. unfold run in E. destruct (threads s !! id) as [th|]; [|done]. cbn [mbind option_bind] in E.
  destruct th as [| |f d|f d|in_tmp ls last|st in_tmp ls last|st]; try done.
  1,2: destruct (Write_wait s id) as [s1|] eqn:Ew; [|done]; apply Write_wait_sequence in Ew; injection E as <- <-; lia.
  1,2: unfold Write_room in E; destruct (MakeRoomForWrite_pass _ _ _ _ _ _ _ _ _) as [[[[[r ?] ?] d'] st']|] eqn:Ep; [|done]; cbn [mbind option_bind] in E;
    apply MakeRoomForWrite_pass_sequence in Ep; destruct r; [destruct (Write_group _ _ _) as [s1|] eqn:Eg; [|done]; apply Write_group_sequence in Eg|..];
    injection E as <- <-; unfold sequence_of in *; cbn in *; lia.
  - unfold Write_apply in E. destruct (ws s !! id) as [w|]; [|done]. cbn [mbind option_bind] in E. destruct (updates_in s id in_tmp) as [u|]; [|done]. cbn [mbind option_bind] in E.
    destruct (log_AddRecord _ _ _ _ _) as [[[st1 log] fs]|]; [|done]. cbn [mbind option_bind] in E. destruct (if ok st1 && _ then _ else _) as [st2 fs2].
    destruct (if ok st2 then _ else _) as [[st3 mem]|]; [|done]. injection E as _ <-. unfold sequence_of. cbn. lia.
  - destruct (Write_end _ _ _ _ _ _) as [s1|] eqn:Ee; [|done]. injection E as _ <-. unfold Write_end, SetLastSequence in Ee. set (d := if in_tmp then _ else _) in *.
    assert (versions_ d = versions_ (db s)) as Hd by (unfold d; by destruct in_tmp). rewrite Hd in Ee. destruct (Z.ltb_spec ls (last_sequence_ (versions_ (db s)))); [done|].
    apply Write_finish_sequence in Ee. rewrite Ee. exact H.
Qed.

Lemma reach_sequence s0 tr s : opened contents ucmp dbname s0 -> reach env contents quiet ucmp capacity dbname write_buffer_size s0 tr s ->
  sequence_of s0 <= sequence_of s /\ Forall (fun c => sequence_of s0 < c.1) (commits tr).
Proof.
  intros H0 Hr. induction Hr as [|tr s e s' Hr [IH1 IH2] Hs]; [split; [lia|constructor]|]. unfold commits. rewrite omap_app. fold (commits tr).
  inversion Hs as [id us sync s1 Hf E|id addr e1 s1 Hleft E|s1 Ho]; subst; cbn [omap list_omap].
  - rewrite app_nil_r. split; [|done]. unfold Write_call in E. apply Write_wait_sequence in E. unfold sequence_of in *. cbn in E. lia.
  - pose proof (run_sequence _ _ _ _ _ E). split; [lia|]. apply Forall_app. split; [done|]. destruct e; try constructor; [|constructor].
    pose proof (reach_inv env contents quiet ucmp capacity dbname write_buffer_size s0 tr s H0 Hr) as I. cbn [fst].
    destruct (committed_group env contents quiet ucmp capacity dbname write_buffer_size _ _ _ s id addr _ _ _ I E) as [-> _]. lia.
  - rewrite app_nil_r. split; [|done]. unfold sequence_of in *. rewrite (o_sequence contents quiet dbname s s' Ho). done.
Qed.

End Sequence.

Lemma commit_entries_above a cs n : Forall (fun c => n < c.1) cs -> forall e, e ∈ commit_entries a cs -> n < sequence e.1.
Proof.
  intros Hc e He. unfold commit_entries in He. apply list_elem_of_In, in_concat in He as (es & (c & <- & Hin)%in_map_iff & He).
  apply list_elem_of_In in He, Hin. rewrite Forall_forall in Hc. specialize (Hc c Hin). apply numbered_bounds in He. cbn in Hc. lia.
Qed.

(** ** Lemmas: Get *)

Lemma get_answer_found r value : get_answer (Some r) value Status_OK = (true, (version_answer (Some r) value).2, (version_answer (Some r) value).1).
Proof. destruct r as [p v]. cbn. by destruct (type p). Qed.

(** The three places in turn are the layers of one history. *)
Lemma Get_unlocked_ok (ucmp : Comparator) `{!ComparatorLaws ucmp any_key} (table_get : FileMetaData -> bytes -> Status * option (bytes * bytes))
    (ents : FileMetaData -> list mem_entry) (v : Version) mem em imm ei u s value :
  mem_rep ucmp mem em -> mem_holds ucmp imm ei -> version_ok ucmp table_get ents v -> seq_ok s -> Zlength u + 8 < 2 ^ 32 ->
  let answer := version_answer (match newest em u s with Some e => Some e | None =>
                                match newest ei u s with Some e => Some e | None => newest (version_entries ents v) u s end end) value in
  exists stats, Get_unlocked ucmp table_get s mem imm v u value = Some (answer.1, answer.2, stats).
Proof.
  intros Hm Hi Hv Hs Hu. unfold Get_unlocked. rewrite (Get_ok ucmp mem em u s value Status_OK Hm Hs Hu).
  destruct (newest em u s) as [r|]; [rewrite get_answer_found; bind_simpl; by eexists|]. cbn [get_answer]. bind_simpl.
  assert ((match imm with Some m => MemTable.Get ucmp m (LookupKey_new u s) value Status_OK | None => Some (false, value, Status_OK) end) =
    Some (get_answer (newest ei u s) value Status_OK)) as ->. { destruct imm as [m|]; [by apply Get_ok|]. cbn in Hi. by subst ei. }
  bind_simpl. destruct (newest ei u s) as [r|]; [rewrite get_answer_found; by eexists|]. cbn [get_answer].
  destruct (Version_Get_ok ucmp table_get ents v u s value Hv Hs) as (stats & ->). bind_simpl. by eexists.
Qed.

(** ** Properties *)

(** C7: A point read is a read of the serial history.  In every state that
    concurrent writers can reach, [Get] without a snapshot takes the last sequence
    number and then looks, without the mutex, in the memtable, the immutable
    memtable and the files; its answer is the newest version of the key, up to
    that number, in all that was there at the start and all that has been
    committed since, whatever the writers add to the memtable while it reads.  The
    files stand for what they replaced: reading them answers as the data of the
    start and the groups compacted so far. *)
Theorem DB_Get_serial {St : Type} (env : EnvOps St) (contents : St -> bytes -> option bytes) (quiet : St -> Prop)
    (EL : EnvLaws env contents) (EQ : EnvQuiet env contents quiet) (C : Checksum) (ucmp : Comparator) (CL : ComparatorLaws ucmp any_key) (HA : HeapAlloc)
    (capacity : nat -> Z) (dbname : bytes) (write_buffer_size : Z) (s0 : sys) (tr : list event) (s : sys) (base : list mem_entry) :
  opened contents ucmp dbname s0 -> reach env contents quiet ucmp capacity dbname write_buffer_size s0 tr s -> older (sequence_of s0 + 1) base ->
  let a := arrivals tr in
  let '(snapshot, mem, imm, current) := Get_begin (db s) None in
  exists old imc cur, commits tr = old ++ imc ++ cur /\ mem_rep ucmp mem (commit_entries a cur) /\
    forall table_get ents u value mem' more,
      version_ok ucmp table_get ents current ->
      newest (version_entries ents current) u snapshot = newest (base ++ commit_entries a old) u snapshot ->
      mem_rep ucmp mem' (commit_entries a cur ++ more) -> Forall (fun e => snapshot < sequence e.1) more -> Zlength u + 8 < 2 ^ 32 ->
      let answer := version_answer (newest (base ++ commit_entries a (commits tr)) u snapshot) value in
      exists stats, Get_unlocked ucmp table_get snapshot mem' imm current u value = Some (answer.1, answer.2, stats).
Proof.
  intros H0 Hr Hbase a. unfold Get_begin. pose proof (reach_inv env contents quiet ucmp capacity dbname write_buffer_size s0 tr s H0 Hr) as I. fold a in I.
  destruct (reach_sequence env contents quiet ucmp capacity dbname write_buffer_size s0 tr s H0 Hr) as [_ Hlow].
  destruct I as [_ _ I3 _ _ I6 _ I8]. destruct I6 as (old & imc & cur & E & Hm & Hi & _). exists old, imc, cur. split; [done|]. split; [done|].
  intros table_get ents u value mem' more Hv Hnew Hm' Hmore Hu. set (n := last_sequence_ (versions_ (db s))) in *.
  assert (seq_ok n) as Hn. { destruct I3 as [N1 N2 _ _ _ _ _ _ _]. pose proof (Zlength_nonneg (asked a (writers_ (db s)))). unfold seq_ok, sequence_of in *. fold n in N1, N2. lia. }
  assert (mem_holds ucmp (imm_ (db s)) (commit_entries a imc)) as Hi'. { destruct (imm_ (db s)); [done|]. cbn in *. by subst imc. }
  assert (newest (base ++ commit_entries a (commits tr)) u n = match newest (commit_entries a cur ++ more) u n with Some e => Some e | None =>
    match newest (commit_entries a imc) u n with Some e => Some e | None => newest (version_entries ents (current_ (versions_ (db s)))) u n end end) as ->.
  { rewrite E in I8 |- *. rewrite !commit_entries_app in I8 |- *. rewrite (newest_later (commit_entries a cur) more) by exact Hmore. rewrite Hnew. apply newest_layers; [|done]. intros e q He Hq.
    unfold older in Hbase. rewrite Forall_forall in Hbase. specialize (Hbase e He). rewrite <- !commit_entries_app, <- E in Hq.
    pose proof (commit_entries_above _ _ _ Hlow q Hq) as Hl. cbn beta in *. lia. }
  by apply Get_unlocked_ok.
Qed.

(** A database with files, and a memtable to which "f" is added while it is read. *)
Definition filed_db : sys (St := MemEnv.St) :=
  set_db small_db (with_versions (db small_db) (MkVersionSet 8 2 9 3 0 [] sample_version)).

Lemma filed_db_opened : opened (C := ReferenceChecksum) MemEnv.contents BytewiseComparator (str "d") filed_db.
Proof.
  destruct small_db_opened as [Hq Hm _ Hl Hf]. split; [exact Hq|exact Hm| |exact Hl|exact Hf].
  rewrite kMaxSequenceNumber_val. unfold filed_db. cbn [set_db db with_versions versions_ last_sequence_ prev_log_number_ log_number_ next_file_number_]. cbn. lia.
Qed.

Lemma DB_Get_serial_witness :
  exists mem' stats, add_all (H := BumpHeap) BytewiseComparator (MemTable_new (H := BumpHeap)) [put_at "f" 10] = Some mem' /\
    Get_unlocked BytewiseComparator sample_get 9 mem' None sample_version (str "f") [] = Some (Status_OK, str "new", stats).
Proof.
  destruct (add_all_ok (HA := BumpHeap) BytewiseComparator [put_at "f" 10] (MemTable_new (H := BumpHeap)) []) as (mem' & Ea & Hm').
  - apply (MemTable_new_rep BytewiseComparator).
  - repeat constructor; unfold seq_ok; rewrite ?kMaxSequenceNumber_val; cbn; lia.
  - repeat constructor.
  - destruct (DB_Get_serial MemEnv.ops MemEnv.contents MemEnv.quiet _ _ ReferenceChecksum BytewiseComparator _ BumpHeap (fun _ => 0) (str "d") 4096 filed_db [] filed_db
      (version_entries sample_entries sample_version)) as (old & imc & cur & Ecs & _ & Hget).
    + exact filed_db_opened.
    + apply reach_here.
    + repeat constructor.
    + symmetry in Ecs. apply app_eq_nil in Ecs as [-> Ecs]. apply app_eq_nil in Ecs as [-> ->].
      destruct (Hget sample_get sample_entries (str "f") [] mem' [put_at "f" 10]) as (stats & Eg).
      * exact sample_version_ok.
      * reflexivity.
      * exact Hm'.
      * repeat constructor.
      * reflexivity.
      * exists mem', stats. split; [exact Ea|exact Eg].
Defined.
