(* ===== verification/DbFiles.v ===== *)
(** db/db_impl.cpp, the files of the database directory and the options of the
    database: [DeleteObsoleteFiles], [DestroyDB], [ClipToRange] and
    [SanitizeOptions].

    Files are the environment of Env.v; what a directory lists, the lock, the
    directory itself and the table cache are arguments.  Info logs are left out. *)

From Stdlib Require Import ZArith Lia List Bool String.
From S2P Require Import Prelude Lists Coding Slice Comparator Bloom Filename Env DbFormat VersionEdit Version VersionSet Options.

(** ** SanitizeOptions *)

(** [V] is int at every use: the value is compared after a cast to int. *)
Definition ClipToRange (value minvalue maxvalue : Z) : Z :=
  let value := if s32 value >? maxvalue then maxvalue else value in
  if s32 value <? minvalue then minvalue else value.

Section Sanitize.
Context {St Logger : Type} (CreateDir : St -> bytes -> Status * St) (RenameFile : St -> bytes -> bytes -> Status * St)
  (NewLogger : St -> bytes -> Status * option Logger * St).

(** The options and [info_log] of the database. *)
Definition SanitizeOptions (dbname : bytes) (icmp : Comparator) (ipolicy : FilterPolicy) (src : Options) (info_log : option Logger) (st : St)
    : Options * option Logger * St :=
  let result := MkOptions icmp (create_if_missing src) (error_if_exists src) (paranoid_checks src)
    (ClipToRange (write_buffer_size src) (Z.shiftl 64 10) (Z.shiftl 1 30))
    (ClipToRange (max_open_files src) 20 50000)
    true
    (ClipToRange (block_size src) (Z.shiftl 1 10) (Z.shiftl 4 20))
    (block_restart_interval src) (compression src)
    (match filter_policy src with Some _ => Some ipolicy | None => None end) in
  match info_log with
  | Some _ => (result, info_log, st)
  | None =>
      let '(_, st) := CreateDir st dbname in
      let '(_, st) := RenameFile st (InfoLogFileName dbname) (OldInfoLogFileName dbname) in
      let '(s, log, st) := NewLogger st (InfoLogFileName dbname) in
      (result, if ok s then log else None, st)
  end.

End Sanitize.

(** ** DeleteObsoleteFiles *)

Section Files.
Context {St : Type} (env : EnvOps St) {K : Type} (evict : Z -> K -> option K) (dbname : bytes).

(** The switch over the type of a file. *)
Definition keep_file (vs : VersionSet) (live : gset Z) (number : Z) (type : FileType) : bool :=
  match type with
  | kLogFile => (log_number_ vs <=? number) || (number =? prev_log_number_ vs)
  | kDescriptorFile => manifest_file_number_ vs <=? number
  | kTableFile | kTempFile => bool_decide (number ∈ live)
  | kCurrentFile | kDBLockFile | kInfoLogFile => true
  end.

Fixpoint DeleteObsoleteFiles_loop (vs : VersionSet) (live : gset Z) (filenames : list bytes) (cache : K) (st : St) : option (K * St) :=
  match filenames with
  | [] => Some (cache, st)
  | f :: filenames =>
      match ParseFileName f with
      | Some (number, type) =>
          if keep_file vs live number type then DeleteObsoleteFiles_loop vs live filenames cache st
          else
            cache ← (if bool_decide (type = kTableFile) then evict number cache else Some cache);
            DeleteObsoleteFiles_loop vs live filenames cache (env_DeleteFile env st (dbname ++ str "/" ++ f)).2
      | None => DeleteObsoleteFiles_loop vs live filenames cache st
      end
  end.

(** [versions] are all live versions, [filenames] what [GetChildren] returns. *)
Definition DeleteObsoleteFiles (vs : VersionSet) (versions : list Version) (pending_outputs : gset Z) (filenames : list bytes) (cache : K) (st : St)
    : option (K * St) :=
  DeleteObsoleteFiles_loop vs (AddLiveFiles versions pending_outputs) filenames cache st.

(** ** DestroyDB *)

Context (LockFile : St -> bytes -> Status * St) (UnlockFile : St -> Status * St) (DeleteDir : St -> bytes -> Status * St).

Fixpoint DestroyDB_loop (filenames : list bytes) (result : Status) (st : St) : Status * St :=
  match filenames with
  | [] => (result, st)
  | f :: filenames =>
      match ParseFileName f with
      | Some (_, kDBLockFile) | None => DestroyDB_loop filenames result st
      | Some _ =>
          let '(del, st) := env_DeleteFile env st (dbname ++ str "/" ++ f) in
          DestroyDB_loop filenames (if ok result && negb (ok del) then del else result) st
      end
  end.

Definition DestroyDB (filenames : list bytes) (st : St) : Status * St :=
  match filenames with
  | [] => (Status_OK, st)
  | _ =>
      let lockname := LockFileName dbname in
      let '(result, st) := LockFile st lockname in
      if ok result then
        let '(result, st) := DestroyDB_loop filenames result st in
        let '(_, st) := UnlockFile st in
        let '(_, st) := env_DeleteFile env st lockname in
        let '(_, st) := DeleteDir st dbname in
        (result, st)
      else (result, st)
  end.

End Files.

(** ** Lemmas *)

Lemma elem_of_fold_union {A} (g : A -> Z) (l : list A) (live : gset Z) n :
  n ∈ fold_left (fun live x => {[g x]} ∪ live) l live <-> n ∈ live \/ exists x, x ∈ l /\ g x = n.
Proof.
  revert live. induction l as [|x l IH]; intros live; cbn [fold_left]; [|rewrite IH]; set_solver.
Qed.

(** The live files are those in use and those of every level of every live version. *)
Lemma elem_of_AddLiveFiles versions live n : n ∈ AddLiveFiles versions live <->
  n ∈ live \/ exists v level f, v ∈ versions /\ (level < num_levels)%nat /\ f ∈ level_files v level /\ number f = n.
Proof.
  unfold AddLiveFiles.
  assert (forall v ls (live : gset Z), n ∈ fold_left (fun live level => fold_left (fun live f => {[number f]} ∪ live) (level_files v level) live) ls live <->
    n ∈ live \/ exists level f, level ∈ ls /\ f ∈ level_files v level /\ number f = n) as Hlevels.
  { intros v ls. induction ls as [|l ls IH]; intros lv; cbn [fold_left]; [|rewrite IH, elem_of_fold_union]; set_solver. }
  assert (forall l, l ∈ seq 0 num_levels <-> (l < num_levels)%nat) as Hseq by (intros l; rewrite list_elem_of_In, in_seq; lia).
  revert live. induction versions as [|v versions IH]; intros live; cbn [fold_left]; [|rewrite IH, Hlevels; setoid_rewrite Hseq]; set_solver.
Qed.

(** The name that a file of the database has in its directory. *)
Definition names_file (dbname f g : bytes) (n : Z) (type : FileType) : Prop := g = dbname ++ str "/" ++ f /\ ParseFileName f = Some (n, type).

Lemma named_files dbname n : is_u64 n ->
  (exists f, names_file dbname f (LogFileName dbname n) n kLogFile) /\ (exists f, names_file dbname f (TableFileName dbname n) n kTableFile) /\
  (exists f, names_file dbname f (TempFileName dbname n) n kTempFile) /\ (exists f, names_file dbname f (DescriptorFileName dbname n) n kDescriptorFile) /\
  (exists f, names_file dbname f (CurrentFileName dbname) 0 kCurrentFile) /\ (exists f, names_file dbname f (LockFileName dbname) 0 kDBLockFile) /\
  (exists f, names_file dbname f (InfoLogFileName dbname) 0 kInfoLogFile).
Proof. intros Hn. destruct (filename_roundtrip dbname n Hn) as (H1 & H2 & H3 & H4 & H5 & H6 & H7 & _). by split_and!. Qed.

Section FileLemmas.
Context {St : Type} (env : EnvOps St) (contents : St -> bytes -> option bytes) `{!EnvLaws env contents} {K : Type} (evict : Z -> K -> option K) (dbname : bytes).

(** [f] is in the directory and not kept. *)
Definition obsolete (vs : VersionSet) (live : gset Z) (f : bytes) : Prop :=
  exists n type, ParseFileName f = Some (n, type) /\ keep_file vs live n type = false.

Lemma DeleteObsoleteFiles_loop_ok vs live names : (forall n c, is_Some (evict n c)) -> forall cache st,
  exists cache' st', DeleteObsoleteFiles_loop env evict dbname vs live names cache st = Some (cache', st') /\
    (forall g, (forall f, f ∈ names -> obsolete vs live f -> g <> dbname ++ str "/" ++ f) -> contents st' g = contents st g) /\
    ((forall st f, contents (env_DeleteFile env st f).2 f = None) ->
       forall g, contents st g = None \/ (exists f, f ∈ names /\ obsolete vs live f /\ g = dbname ++ str "/" ++ f) -> contents st' g = None).
Proof.
  intros He. induction names as [|f names IH]; intros cache st; cbn [DeleteObsoleteFiles_loop].
  { exists cache, st. split; [done|]. split; [done|]. intros _ g [|(f & []%elem_of_nil & _)]; done. }
  destruct (ParseFileName f) as [[n type]|] eqn:Ep; [destruct (keep_file vs live n type) eqn:Ek|].
  1,3: destruct (IH cache st) as (c' & st' & E & Hf & Hg); exists c', st'; split; [done|]; split; [intros g H; apply Hf; set_solver|];
    intros Hd g H; apply (Hg Hd); destruct H as [|(f' & [->|Hin]%elem_of_cons & Ho & ->)];
    [by left|destruct Ho as (n' & t' & Ep' & Ek'); congruence|right; by exists f'].
  assert (exists c1, (if bool_decide (type = kTableFile) then evict n cache else Some cache) = Some c1) as [c1 ->] by (destruct (bool_decide _); [apply He|eauto]). bind_simpl.
  set (st1 := (env_DeleteFile env st _).2). destruct (IH c1 st1) as (c' & st' & E & Hf & Hg). exists c', st'. split; [done|]. assert (obsolete vs live f) as Ho by (by exists n, type). split.
  - intros g H. rewrite Hf by set_solver. apply delete_frame. apply H; [left|done].
  - intros Hd g H. apply (Hg Hd). destruct (decide (g = dbname ++ str "/" ++ f)) as [->|Hne]; [left; apply Hd|].
    destruct H as [H|(f' & [->|Hin]%elem_of_cons & Ho' & ->)]; [left; unfold st1; by rewrite delete_frame|done|right; by exists f'].
Qed.

(** A kept file has no obsolete name. *)
Lemma kept_name vs live f g n type f' : names_file dbname f g n type -> keep_file vs live n type = true -> obsolete vs live f' -> g <> dbname ++ str "/" ++ f'.
Proof. intros [-> Ep] Hk (n' & t' & Ep' & Hk') E. apply app_inv_head in E. injection E as ->. congruence. Qed.

End FileLemmas.

(** Within limits as an int; unchanged when it was; the rest is lost by the cast. *)
Lemma ClipToRange_ok v lo hi : 0 < lo <= hi -> hi < 2 ^ 31 ->
  lo <= s32 (ClipToRange v lo hi) <= hi /\ (lo <= s32 v <= hi -> ClipToRange v lo hi = v) /\ (s32 v < lo -> ClipToRange v lo hi = lo) /\
  (0 <= v < 2 ^ 31 -> lo <= ClipToRange v lo hi <= hi).
Proof.
  intros Hl Hh. pose proof (s32_small lo). pose proof (s32_small hi). pose proof (s32_small v). unfold ClipToRange.
  destruct (Z.gtb_spec (s32 v) hi); [|destruct (Z.ltb_spec (s32 v) lo)]; [destruct (Z.ltb_spec (s32 hi) lo)|..]; lia.
Qed.

(** ** Properties *)

(** C25: Cleaning up never deletes a file that is still needed.  Whatever the
    directory lists, [DeleteObsoleteFiles] returns and leaves alone: the tables
    and temporary files of every level of every live version and of running
    compactions, the logs that recovery would read, the current manifest and newer
    ones, CURRENT, the lock and the info log, and whatever is not a file of the
    database; and where deletions succeed every other file of the database that is
    listed is gone. *)
Theorem DeleteObsoleteFiles_safe {St : Type} (env : EnvOps St) (contents : St -> bytes -> option bytes) (EL : EnvLaws env contents) {K : Type}
    (evict : Z -> K -> option K) (dbname : bytes) (vs : VersionSet) (versions : list Version) (pending_outputs : gset Z) (filenames : list bytes) (cache : K) (st : St) :
  (forall n c, is_Some (evict n c)) ->
  exists cache' st', DeleteObsoleteFiles env evict dbname vs versions pending_outputs filenames cache st = Some (cache', st') /\
    (forall n, is_u64 n ->
      ((n ∈ pending_outputs \/ exists v level f, v ∈ versions /\ (level < num_levels)%nat /\ f ∈ level_files v level /\ number f = n) ->
         contents st' (TableFileName dbname n) = contents st (TableFileName dbname n) /\ contents st' (TempFileName dbname n) = contents st (TempFileName dbname n)) /\
      (log_number_ vs <= n \/ n = prev_log_number_ vs -> contents st' (LogFileName dbname n) = contents st (LogFileName dbname n)) /\
      (manifest_file_number_ vs <= n -> contents st' (DescriptorFileName dbname n) = contents st (DescriptorFileName dbname n))) /\
    (forall g, g ∈ [CurrentFileName dbname; LockFileName dbname; InfoLogFileName dbname] -> contents st' g = contents st g) /\
    (forall g, (forall f, f ∈ filenames -> is_Some (ParseFileName f) -> g <> dbname ++ str "/" ++ f) -> contents st' g = contents st g) /\
    ((forall st f, contents (env_DeleteFile env st f).2 f = None) -> forall f, f ∈ filenames -> obsolete vs (AddLiveFiles versions pending_outputs) f ->
       contents st' (dbname ++ str "/" ++ f) = None).
Proof.
  intros He. destruct (DeleteObsoleteFiles_loop_ok env contents evict dbname vs (AddLiveFiles versions pending_outputs) filenames He cache st) as (c' & st' & E & Hf & Hg).
  exists c', st'. split; [done|]. set (live := AddLiveFiles versions pending_outputs) in *.
  assert (forall f g n type, names_file dbname f g n type -> keep_file vs live n type = true -> contents st' g = contents st g) as Hkeep.
  { intros f g n type Hn Hk. apply Hf. intros f' _ Ho. by eapply kept_name. }
  split_and!.
  - intros n Hn. destruct (named_files dbname n Hn) as ((f1 & H1) & (f2 & H2) & (f3 & H3) & (f4 & H4) & _). split_and!.
    + rewrite <- elem_of_AddLiveFiles. fold live. intros Hl. split; [by eapply Hkeep; [exact H2|]; apply bool_decide_eq_true|by eapply Hkeep; [exact H3|]; apply bool_decide_eq_true].
    + intros Hl. eapply Hkeep; [exact H1|]. cbn. apply orb_true_iff. rewrite Z.leb_le, Z.eqb_eq. done.
    + intros Hl. eapply Hkeep; [exact H4|]. cbn. by apply Z.leb_le.
  - intros g Hin. destruct (named_files dbname 0) as (_ & _ & _ & _ & (f1 & H1) & (f2 & H2) & (f3 & H3)); [unfold is_u64; lia|].
    rewrite !elem_of_cons, elem_of_nil in Hin. destruct Hin as [->|[->|[->|[]]]]; by eapply Hkeep.
  - intros g H. apply Hf. intros f Hin (n & t & Ep & _). apply H; [done|]. by rewrite Ep.
  - intros Hd f Hin Ho. apply (Hg Hd). right. by exists f.
Qed.

Definition litter : MemEnv.St :=
  MemEnv.MkSt (list_to_map [(str "d/000003.log", []); (str "d/000005.sst", []); (str "d/000006.sst", []); (str "d/CURRENT", []); (str "d/notes", [])]) [].

Definition litter_versions : VersionSet := MkVersionSet 9 2 20 4 0 [] (MkVersion [[sample_file 5 "a" "b"]] None (-1) (double_of_int 0) 0).

Lemma DeleteObsoleteFiles_safe_witness :
  exists st', DeleteObsoleteFiles MemEnv.ops (fun _ c => Some c) (str "d") litter_versions [current_ litter_versions] ∅
      [str "000003.log"; str "000005.sst"; str "000006.sst"; str "CURRENT"; str "notes"] tt litter = Some (tt, st') /\
    MemEnv.contents st' (TableFileName (str "d") 5) = MemEnv.contents litter (TableFileName (str "d") 5) /\
    MemEnv.contents st' (str "d/000006.sst") = None.
Proof.
  destruct (DeleteObsoleteFiles_safe MemEnv.ops MemEnv.contents _ (fun _ c => Some c) (str "d") litter_versions [current_ litter_versions] ∅
    [str "000003.log"; str "000005.sst"; str "000006.sst"; str "CURRENT"; str "notes"] tt litter) as ([] & st' & E & Hn & _).
  - intros n c. by exists c.
  - exists st'. split; [exact E|]. split.
    + destruct (Hn 5) as [Ht _]; [unfold is_u64; lia|]. apply Ht. right. exists (current_ litter_versions), 0%nat, (sample_file 5 "a" "b"). split_and!; [left|vm_compute; lia|left|reflexivity].
    + assert (match DeleteObsoleteFiles MemEnv.ops (fun _ c => Some c) (str "d") litter_versions [current_ litter_versions] ∅
        [str "000003.log"; str "000005.sst"; str "000006.sst"; str "CURRENT"; str "notes"] tt litter with
        | Some (_, st) => bool_decide (MemEnv.contents st (str "d/000006.sst") = None) | None => false end = true) as Hb by (vm_compute; reflexivity).
      rewrite E in Hb. by apply bool_decide_eq_true in Hb.
Defined.

(** C30: Sanitized options are in range as far as the code can tell: seen as ints,
    the number of open files and the two sizes are within their limits, and a value
    that was within them is kept.  The sizes are compared after a cast to int, so
    this says what is meant only below 2 GB: a write buffer of two to four
    gigabytes becomes the smallest one, and one of 4 GB and 64 KB is let through. *)
Theorem SanitizeOptions_bounds {St Logger : Type} (CreateDir : St -> bytes -> Status * St) (RenameFile : St -> bytes -> bytes -> Status * St)
    (NewLogger : St -> bytes -> Status * option Logger * St) (dbname : bytes) (icmp : Comparator) (ipolicy : FilterPolicy) (src : Options) (info_log : option Logger) (st : St) :
  let result := (SanitizeOptions CreateDir RenameFile NewLogger dbname icmp ipolicy src info_log st).1.1 in
  (20 <= s32 (max_open_files result) <= 50000 /\ 65536 <= s32 (write_buffer_size result) <= 2 ^ 30 /\ 1024 <= s32 (block_size result) <= 2 ^ 22) /\
  (20 <= max_open_files src <= 50000 -> max_open_files result = max_open_files src) /\
  (65536 <= write_buffer_size src <= 2 ^ 30 -> write_buffer_size result = write_buffer_size src) /\
  (1024 <= block_size src <= 2 ^ 22 -> block_size result = block_size src) /\
  (is_u64 (write_buffer_size src) -> write_buffer_size src < 2 ^ 31 -> 65536 <= write_buffer_size result <= 2 ^ 30) /\
  (2 ^ 31 <= write_buffer_size src < 2 ^ 32 -> write_buffer_size result = 65536) /\
  (write_buffer_size src = 2 ^ 32 + 65536 -> write_buffer_size result = 2 ^ 32 + 65536).
Proof.
  assert ((SanitizeOptions CreateDir RenameFile NewLogger dbname icmp ipolicy src info_log st).1.1 =
    MkOptions icmp (create_if_missing src) (error_if_exists src) (paranoid_checks src) (ClipToRange (write_buffer_size src) 65536 (2 ^ 30))
      (ClipToRange (max_open_files src) 20 50000) true (ClipToRange (block_size src) 1024 (2 ^ 22)) (block_restart_interval src) (compression src)
      (match filter_policy src with Some _ => Some ipolicy | None => None end)) as ->.
  { unfold SanitizeOptions. destruct info_log; [done|]. destruct (CreateDir st dbname) as [? st1]. destruct (RenameFile st1 _ _) as [? st2]. by destruct (NewLogger st2 _) as [[? ?] ?]. }
  cbn [max_open_files write_buffer_size block_size]. cbv zeta.
  destruct (ClipToRange_ok (max_open_files src) 20 50000) as (F1 & F2 & _ & _); [lia..|].
  destruct (ClipToRange_ok (write_buffer_size src) 65536 (2 ^ 30)) as (W1 & W2 & W3 & W4); [lia..|].
  destruct (ClipToRange_ok (block_size src) 1024 (2 ^ 22)) as (B1 & B2 & _ & _); [lia..|].
  split_and!; try lia; intros.
  - apply F2. rewrite s32_small; lia.
  - apply W2. rewrite s32_small; lia.
  - apply B2. rewrite s32_small; lia.
  - apply W4. unfold is_u64 in *. lia.
  - apply W3. unfold s32. rewrite (Z.mod_eq _ (2 ^ 32)) by lia. assert ((write_buffer_size src + 2 ^ 31) / 2 ^ 32 = 1) as -> by (symmetry; apply Z.div_unique with (write_buffer_size src - 2 ^ 31); lia). lia.
  - rewrite H. reflexivity.
Qed.
