(* ===== verification/PosixFile.v ===== *)
(** util/env_posix.cpp, writable files: [PosixMmapFile], which appends through a
    shared mapping of the end of the file.

    System calls are the class [MmapOps]; a call that fails returns the message of
    [strerror(errno)].  The file's pointers are offsets from [base_]; storing
    through the mapping changes the file.  [None] is a failed assertion. *)

From Stdlib Require Import ZArith Lia List Bool String.
From S2P Require Import Prelude Lists Slice.

(** ** System calls *)

Class MmapOps (St : Type) := {
  sys_ftruncate : Z -> Z -> St -> option bytes * St;        (* descriptor, length *)
  sys_mmap : Z -> Z -> Z -> St -> option bytes * St;        (* descriptor, offset, length *)
  sys_munmap : Z -> Z -> Z -> St -> option bytes * St;      (* of the mapping of that range *)
  sys_close : Z -> St -> option bytes * St;
  sys_fdatasync : Z -> St -> option bytes * St;
  sys_msync : Z -> Z -> Z -> St -> option bytes * St;
  store : Z -> Z -> bytes -> St -> St                       (* memcpy to a mapping *)
}.

Definition IOError (context : bytes) (message : bytes) : Status := Status_IOError context message.

(** The status of a call whose failure is the only error. *)
Definition check_call (context : bytes) (r : option bytes) : Status := match r with None => Status_OK | Some m => IOError context m end.

(** ** PosixMmapFile *)

Module PosixMmapFile.

Record t := Mk {
  filename_ : bytes;
  fd_ : Z;
  page_size_ : Z;
  map_size_ : Z;
  base_ : bool;          (* != NULL *)
  limit_ : Z;
  dst_ : Z;
  last_sync_ : Z;
  file_offset_ : Z;
  pending_sync_ : bool
}.

Definition Roundup (x y : Z) : Z := (x + y - 1) / y * y.

(** [None]: the assertion on the page size fails. *)
Definition new (fname : bytes) (fd page_size : Z) : option t :=
  if Z.land page_size (page_size - 1) =? 0
  then Some (Mk fname fd page_size (Roundup 65536 page_size) false 0 0 0 0 false)
  else None.

Definition TruncateToPageBoundary (f : t) (s : Z) : option Z :=
  let s := s - Z.land s (page_size_ f - 1) in
  if s mod page_size_ f =? 0 then Some s else None.

Section File.
Context {St : Type} `{!MmapOps St}.

Definition UnmapCurrentRegion (f : t) (st : St) : option bytes * t * St :=
  if base_ f then
    let pending := (last_sync_ f <? limit_ f) || pending_sync_ f in
    let '(r, st) := sys_munmap (fd_ f) (file_offset_ f) (limit_ f) st in
    (r, Mk (filename_ f) (fd_ f) (page_size_ f) (if map_size_ f <? Z.shiftl 1 20 then map_size_ f * 2 else map_size_ f) false 0 0 0
          (u64 (file_offset_ f + limit_ f)) pending, st)
  else (None, f, st).

Definition MapNewRegion (f : t) (st : St) : option (option bytes * t * St) :=
  if base_ f then None
  else
    let '(r, st) := sys_ftruncate (fd_ f) (u64 (file_offset_ f + map_size_ f)) st in
    match r with
    | Some e => Some (Some e, f, st)
    | None =>
        let '(r, st) := sys_mmap (fd_ f) (file_offset_ f) (map_size_ f) st in
        match r with
        | Some e => Some (Some e, f, st)
        | None => Some (None, Mk (filename_ f) (fd_ f) (page_size_ f) (map_size_ f) true (map_size_ f) 0 0 (file_offset_ f) (pending_sync_ f), st)
        end
    end.

Definition with_dst (f : t) (dst : Z) : t :=
  Mk (filename_ f) (fd_ f) (page_size_ f) (map_size_ f) (base_ f) (limit_ f) dst (last_sync_ f) (file_offset_ f) (pending_sync_ f).

(** The next region, when none is left; [Some e] in the result is the early return. *)
Definition next_region (f : t) (st : St) : option (option bytes * t * St) :=
  let '(r, f, st) := UnmapCurrentRegion f st in
  match r with Some e => Some (Some e, f, st) | None => MapNewRegion f st end.

(** After a new region is mapped [avail] is still 0: that round copies nothing. *)
Fixpoint Append_loop (fuel : nat) (f : t) (src : bytes) (st : St) : option (Status * t * St) :=
  match src with
  | [] => Some (Status_OK, f, st)
  | _ =>
      match fuel with
      | O => None
      | S fuel =>
          if (dst_ f <? 0) || (limit_ f <? dst_ f) then None
          else
            let avail := limit_ f - dst_ f in
            '(r, f, st) ← (if avail =? 0 then next_region f st else Some (None, f, st));
            match r with
            | Some e => Some (IOError (filename_ f) e, f, st)
            | None =>
                let n := if Zlength src <=? avail then Zlength src else avail in
                let st := store (fd_ f) (file_offset_ f + dst_ f) (take (Z.to_nat n) src) st in
                Append_loop fuel (with_dst f (dst_ f + n)) (drop (Z.to_nat n) src) st
            end
      end
  end.

(** Every second round copies a byte: twice the length plus one is enough fuel. *)
Definition Append (f : t) (data : bytes) (st : St) : option (Status * t * St) := Append_loop (2 * length data + 1) f data st.

Definition Flush (f : t) (st : St) : option (Status * t * St) := Some (Status_OK, f, st).

Definition Close (f : t) (st : St) : Status * t * St :=
  let unused := limit_ f - dst_ f in
  let '(r, f, st) := UnmapCurrentRegion f st in
  let '(s, st) :=
    match r with
    | Some e => (IOError (filename_ f) e, st)
    | None =>
        if 0 <? unused then let '(r, st) := sys_ftruncate (fd_ f) (u64 (file_offset_ f - unused)) st in (check_call (filename_ f) r, st)
        else (Status_OK, st)
    end in
  let '(r, st) := sys_close (fd_ f) st in
  let s := if ok s then check_call (filename_ f) r else s in
  (s, Mk (filename_ f) (-1) (page_size_ f) (map_size_ f) false 0 (dst_ f) (last_sync_ f) (file_offset_ f) (pending_sync_ f), st).

Definition with_sync (f : t) (last_sync : Z) (pending : bool) : t :=
  Mk (filename_ f) (fd_ f) (page_size_ f) (map_size_ f) (base_ f) (limit_ f) (dst_ f) last_sync (file_offset_ f) pending.

Definition Sync (f : t) (st : St) : option (Status * t * St) :=
  let '(s, f, st) :=
    if pending_sync_ f then let '(r, st) := sys_fdatasync (fd_ f) st in (check_call (filename_ f) r, with_sync f (last_sync_ f) false, st)
    else (Status_OK, f, st) in
  if last_sync_ f <? dst_ f then
    p1 ← TruncateToPageBoundary f (last_sync_ f);
    p2 ← TruncateToPageBoundary f (dst_ f - 1);
    let '(r, st) := sys_msync (fd_ f) (file_offset_ f + p1) (p2 - p1 + page_size_ f) st in
    Some (match r with None => s | Some e => IOError (filename_ f) e end, with_sync f (dst_ f) (pending_sync_ f), st)
  else Some (s, f, st).

End File.
End PosixMmapFile.
Import PosixMmapFile.

(** ** What the calls do to a file *)

Definition zeros (n : Z) : bytes := replicate (Z.to_nat n) Byte.x00.

Definition resize (n : Z) (d : bytes) : bytes := take (Z.to_nat n) d ++ zeros (n - Zlength d).

Class MmapModel (St : Type) := contents : St -> Z -> option bytes.

Class MmapLaws (St : Type) `{!MmapOps St} `{!MmapModel St} : Prop := {
  ml_ftruncate fd n st d : contents st fd = Some d -> 0 <= n ->
    contents (sys_ftruncate fd n st).2 fd = Some (match (sys_ftruncate fd n st).1 with None => resize n d | Some _ => d end);
  ml_mmap fd off len st g : contents (sys_mmap fd off len st).2 g = contents st g;
  ml_munmap fd off len st g : contents (sys_munmap fd off len st).2 g = contents st g;
  ml_close fd st g : contents (sys_close fd st).2 g = contents st g;
  ml_fdatasync fd st g : contents (sys_fdatasync fd st).2 g = contents st g;
  ml_msync fd off len st g : contents (sys_msync fd off len st).2 g = contents st g;
  ml_store fd off x st d : contents st fd = Some d -> 0 <= off -> off + Zlength x <= Zlength d ->
    contents (store fd off x st) fd = Some (take (Z.to_nat off) d ++ x ++ drop (Z.to_nat (off + Zlength x)) d)
}.

(** ** Lemmas *)

Lemma Zlength_zeros n : 0 <= n -> Zlength (zeros n) = n.
Proof. intros Hn. unfold zeros, Zlength. rewrite length_replicate. lia. Qed.

Lemma zeros_app n m : 0 <= n -> 0 <= m -> zeros n ++ zeros m = zeros (n + m).
Proof. intros Hn Hm. unfold zeros. by rewrite <- replicate_add, Z2Nat.inj_add. Qed.

(** Cutting or extending the padding behind [d]. *)
Lemma resize_padded d k n : 0 <= k -> Zlength d <= n -> resize n (d ++ zeros k) = d ++ zeros (n - Zlength d).
Proof.
  intros Hk Hn. pose proof (Zlength_nonneg d). unfold resize. rewrite Zlength_app, Zlength_zeros by done.
  rewrite take_app_ge by (unfold Zlength in *; lia). rewrite <- app_assoc. f_equal. unfold zeros. rewrite take_replicate, <- replicate_add. f_equal. unfold Zlength in *. lia.
Qed.

(** Storing at the end of [d], in the padding. *)
Lemma store_padded d k x : Zlength x <= k ->
  take (Z.to_nat (Zlength d)) (d ++ zeros k) ++ x ++ drop (Z.to_nat (Zlength d + Zlength x)) (d ++ zeros k) = (d ++ x) ++ zeros (k - Zlength x).
Proof.
  intros Hk. unfold Zlength in *. rewrite take_app_length' by lia. rewrite drop_app_ge by lia. rewrite <- app_assoc. do 2 f_equal.
  unfold zeros. rewrite drop_replicate. f_equal. lia.
Qed.

Lemma TruncateToPageBoundary_ok f s : (exists k, 0 <= k /\ page_size_ f = 2 ^ k) -> 0 <= s ->
  exists p, TruncateToPageBoundary f s = Some p /\ (page_size_ f | p) /\ p <= s < p + page_size_ f /\ 0 <= p.
Proof.
  intros (k & Hk & Hp) Hs. unfold TruncateToPageBoundary. rewrite Hp. replace (2 ^ k - 1) with (Z.ones k) by (rewrite Z.ones_equiv; lia).
  rewrite Z.land_ones by done. pose proof (Z.pow_pos_nonneg 2 k ltac:(lia) Hk) as Hpos. pose proof (Z.mod_pos_bound s (2 ^ k) Hpos). pose proof (Z.div_mod s (2 ^ k) ltac:(lia)) as Hd.
  assert (s - s mod 2 ^ k = 2 ^ k * (s / 2 ^ k)) as E by lia. pose proof (Z.div_pos s (2 ^ k) Hs Hpos).
  assert ((s - s mod 2 ^ k) mod 2 ^ k = 0) as -> by (by rewrite E, Z.mul_comm, Z_mod_mult).
  exists (s - s mod 2 ^ k). split; [done|]. split; [rewrite E; apply Z.divide_factor_l|]. split; [lia|]. rewrite E. nia.
Qed.

Section FileLemmas.
Context {St : Type} `{!MmapOps St} `{!MmapModel St} `{!MmapLaws St}.

(** Appends so far are [data]; behind them [extra] zeros. *)
Record file_inv (f : t) (st : St) (data : bytes) (extra : Z) : Prop := {
  v_page : exists k, 0 <= k <= 20 /\ page_size_ f = 2 ^ k;
  v_map : 0 < map_size_ f < 2 ^ 21 /\ (page_size_ f | map_size_ f);
  v_offset : 0 <= file_offset_ f /\ (page_size_ f | file_offset_ f);
  v_length : Zlength data = file_offset_ f + dst_ f;
  v_extra : 0 <= extra;
  v_region : if base_ f then 0 <= last_sync_ f <= dst_ f /\ dst_ f <= limit_ f < 2 ^ 21 /\ (page_size_ f | limit_ f) /\ extra = limit_ f - dst_ f
             else limit_ f = 0 /\ dst_ f = 0 /\ last_sync_ f = 0;
  v_contents : contents st (fd_ f) = Some (data ++ zeros extra)
}.

(** No padding is left behind when nothing is mapped. *)
Definition clean (f : t) (extra : Z) : Prop := base_ f = false -> extra = 0.

Lemma Roundup_ok x y : 0 < x -> 0 < y -> 0 < Roundup x y < x + y /\ (y | Roundup x y).
Proof.
  intros Hx Hy. unfold Roundup. split; [|apply Z.divide_factor_r]. pose proof (Z.div_mod (x + y - 1) y ltac:(lia)). pose proof (Z.mod_pos_bound (x + y - 1) y Hy).
  rewrite Z.mul_comm. lia.
Qed.

Lemma new_ok fname fd k (st : St) : 0 <= k <= 20 -> contents st fd = Some [] ->
  exists f, new fname fd (2 ^ k) = Some f /\ fd_ f = fd /\ file_inv f st [] 0 /\ clean f 0.
Proof.
  intros Hk Hc. unfold new. assert (Z.land (2 ^ k) (2 ^ k - 1) = 0) as ->.
  { replace (2 ^ k - 1) with (Z.ones k) by (rewrite Z.ones_equiv; lia). rewrite Z.land_ones by lia. apply Z_mod_same_full. }
  eexists. split; [done|]. split; [done|]. split; [|done]. pose proof (Z.pow_pos_nonneg 2 k ltac:(lia) ltac:(lia)). pose proof (Z.pow_le_mono_r 2 k 20 ltac:(lia) ltac:(lia)).
  destruct (Roundup_ok 65536 (2 ^ k)) as [Hr Hd]; [lia..|]. split; cbn [page_size_ map_size_ file_offset_ dst_ base_ limit_ last_sync_ fd_]; try done.
  - by exists k.
  - split; [|done]. change (2 ^ 20) with 1048576 in *. change (2 ^ 21) with 2097152. lia.
  - split; [lia|]. apply Z.divide_0_r.
Qed.

(** A full region is unmapped. *)
Lemma Unmap_full f (st : St) data extra : file_inv f st data extra -> dst_ f = limit_ f -> Zlength data < 2 ^ 63 ->
  exists r f' st', UnmapCurrentRegion f st = (r, f', st') /\ file_inv f' st' data extra /\ base_ f' = false /\ fd_ f' = fd_ f /\ filename_ f' = filename_ f.
Proof.
  intros [P M O L X R Cn] Hfull Hlen. unfold UnmapCurrentRegion. destruct (base_ f) eqn:Eb; [|do 3 eexists; split; [done|]; split; [|done]; split; try done; by rewrite Eb].
  destruct R as (R1 & R2 & R3 & R4). pose proof (ml_munmap (fd_ f) (file_offset_ f) (limit_ f) st) as Hm. destruct (sys_munmap _ _ _ st) as [r st']. cbn [snd] in Hm.
  do 3 eexists. split; [done|]. split; [|done]. rewrite u64_small by (unfold is_u64; lia).
  split; cbn [page_size_ map_size_ file_offset_ dst_ base_ limit_ last_sync_ fd_]; try done.
  - destruct M as [M1 M2]. change (Z.shiftl 1 20) with (2 ^ 20). destruct (Z.ltb_spec (map_size_ f) (2 ^ 20)); [|done]. split; [lia|]. by apply Z.divide_mul_l.
  - destruct O as [O1 O2]. split; [lia|]. by apply Z.divide_add_r.
  - lia.
  - by rewrite Hm.
Qed.

Lemma MapNewRegion_ok f (st : St) data extra : file_inv f st data extra -> base_ f = false -> Zlength data + 2 ^ 21 < 2 ^ 63 ->
  exists r f' st', MapNewRegion f st = Some (r, f', st') /\ fd_ f' = fd_ f /\ filename_ f' = filename_ f /\
    (exists extra', file_inv f' st' data extra') /\ (r = None -> base_ f' = true /\ dst_ f' = 0 /\ 0 < limit_ f').
Proof.
  intros [P M O L X R Cn] Eb Hlen. unfold MapNewRegion. rewrite Eb in R |- *. destruct R as (R1 & R2 & R3). rewrite R2, Z.add_0_r in L.
  rewrite u64_small by (unfold is_u64; lia). pose proof (ml_ftruncate (fd_ f) (file_offset_ f + map_size_ f) st _ Cn ltac:(lia)) as Ht.
  destruct (sys_ftruncate _ _ st) as [r st1]. cbn [fst snd] in Ht. destruct r as [e|].
  { do 3 eexists. split; [done|]. split; [done|]. split; [done|]. split; [|done]. exists extra. split; try done; [by rewrite R2, Z.add_0_r|by rewrite Eb]. }
  rewrite resize_padded in Ht by lia. pose proof (ml_mmap (fd_ f) (file_offset_ f) (map_size_ f) st1) as Hm. destruct (sys_mmap _ _ _ st1) as [r st2]. cbn [snd] in Hm. rewrite <- Hm in Ht.
  replace (file_offset_ f + map_size_ f - Zlength data) with (map_size_ f) in Ht by lia.
  destruct r as [e|]; do 3 eexists; (split; [done|]); (split; [done|]); (split; [done|]).
  - split; [|done]. exists (map_size_ f). split; try done; [by rewrite R2, Z.add_0_r|lia|by rewrite Eb].
  - split; [|intros _; cbn; split; [done|]; split; [done|]; lia]. exists (map_size_ f).
    split; cbn [page_size_ map_size_ file_offset_ dst_ base_ limit_ last_sync_ fd_]; try done; [lia|lia|]. split; [lia|]. split; [lia|]. split; [apply M|lia].
Qed.

Lemma next_region_ok f (st : St) data extra : file_inv f st data extra -> dst_ f = limit_ f -> Zlength data + 2 ^ 21 < 2 ^ 63 ->
  exists r f' st', next_region f st = Some (r, f', st') /\ fd_ f' = fd_ f /\ filename_ f' = filename_ f /\
    (exists extra', file_inv f' st' data extra') /\ (r = None -> base_ f' = true /\ dst_ f' = 0 /\ 0 < limit_ f').
Proof.
  intros Hi Hfull Hlen. unfold next_region. destruct (Unmap_full f st data extra Hi Hfull) as (r & f1 & st1 & -> & Hi1 & Eb & Ef & En); [lia|]. destruct r as [e|].
  - do 3 eexists. split; [done|]. split; [done|]. split; [done|]. split; [by exists extra|done].
  - destruct (MapNewRegion_ok f1 st1 data extra Hi1 Eb Hlen) as (r & f' & st' & -> & Ef' & En' & Hr). do 3 eexists. split; [done|]. split; [congruence|]. split; [congruence|done].
Qed.

(** Bytes stored in the region. *)
Lemma store_ok f (st : St) data extra x : file_inv f st data extra -> base_ f = true -> Zlength x <= limit_ f - dst_ f ->
  file_inv (with_dst f (dst_ f + Zlength x)) (store (fd_ f) (file_offset_ f + dst_ f) x st) (data ++ x) (extra - Zlength x).
Proof.
  intros [P M O L X R Cn] Eb Hx. rewrite Eb in R. destruct R as (R1 & R2 & R3 & R4). pose proof (Zlength_nonneg x).
  split; cbn [with_dst page_size_ map_size_ file_offset_ dst_ base_ limit_ last_sync_ fd_]; rewrite ?Eb; try done.
  - rewrite Zlength_app. lia.
  - lia.
  - split_and!; try done; lia.
  - rewrite <- L. rewrite (ml_store _ _ _ _ _ Cn); [|lia|rewrite Zlength_app, Zlength_zeros by done; lia]. f_equal. apply store_padded. lia.
Qed.

(** One round of the loop. *)
Lemma Append_loop_step fuel f src (st : St) : src <> [] -> Append_loop (S fuel) f src st =
  if (dst_ f <? 0) || (limit_ f <? dst_ f) then None
  else
    let avail := limit_ f - dst_ f in
    '(r, f, st) ← (if avail =? 0 then next_region f st else Some (None, f, st));
    match r with
    | Some e => Some (IOError (filename_ f) e, f, st)
    | None =>
        let n := if Zlength src <=? avail then Zlength src else avail in
        Append_loop fuel (with_dst f (dst_ f + n)) (drop (Z.to_nat n) src) (store (fd_ f) (file_offset_ f + dst_ f) (take (Z.to_nat n) src) st)
    end.
Proof. by destruct src. Qed.

Lemma Append_loop_ok fuel : forall f src (st : St) data extra, file_inv f st data extra -> Zlength data + Zlength src + 2 ^ 21 < 2 ^ 63 ->
  (2 * length src + (if (limit_ f =? dst_ f)%Z then 1 else 0) <= fuel)%nat ->
  exists s f' st' copied extra', Append_loop fuel f src st = Some (s, f', st') /\ fd_ f' = fd_ f /\ copied `prefix_of` src /\ file_inv f' st' (data ++ copied) extra' /\
    (ok s = true -> copied = src /\ (clean f extra -> clean f' extra')).
Proof.
  induction fuel as [|fuel IH]; intros f src st data extra Hi Hlen Hfuel.
  { destruct src; [|cbn in Hfuel; lia]. exists Status_OK, f, st, [], extra. rewrite app_nil_r. by split_and!. }
  destruct (decide (src = [])) as [->|Hne]; [exists Status_OK, f, st, [], extra; rewrite app_nil_r; by split_and!|].
  assert (0 < Zlength src) as Hpos. { unfold Zlength. destruct src; [done|cbn; lia]. } rewrite Append_loop_step by done. cbv zeta.
  assert (0 <= dst_ f <= limit_ f) as Hdst. { destruct Hi as [_ _ _ _ _ R _]. destruct (base_ f); lia. }
  rewrite (proj2 (Z.ltb_ge (dst_ f) 0)), (proj2 (Z.ltb_ge (limit_ f) (dst_ f))) by lia. cbn [orb]. destruct (Z.eqb_spec (limit_ f - dst_ f) 0) as [E0|E0].
  - destruct (next_region_ok f st data extra Hi) as (r & f1 & st1 & -> & Ef & En & (extra1 & Hi1) & Hr); [lia|lia|]. bind_simpl. destruct r as [e|].
    { do 3 eexists. exists [], extra1. split; [done|]. split; [done|]. split; [apply prefix_nil|]. rewrite app_nil_r. by split. }
    destruct (Hr eq_refl) as (Eb1 & Ed1 & El1). rewrite E0, (proj2 (Z.leb_gt _ _)) by lia. cbv iota. change (Z.to_nat 0) with 0%nat. rewrite take_0, drop_0.
    pose proof (store_ok f1 st1 data extra1 [] Hi1 Eb1 ltac:(change (Zlength []) with 0; lia)) as Hs. rewrite app_nil_r in Hs. change (Zlength []) with 0 in Hs.
    destruct (IH (with_dst f1 (dst_ f1 + 0)) src _ data _ Hs Hlen) as (s & f' & st' & copied & extra' & -> & Ef' & Hp & Hi' & Hok).
    { cbn [with_dst limit_ dst_]. destruct (Z.eqb_spec (limit_ f1) (dst_ f1 + 0)); [lia|]. destruct (Z.eqb_spec (limit_ f) (dst_ f)); lia. }
    do 5 eexists. split; [done|]. split; [by rewrite Ef'|]. split; [done|]. split; [done|]. intros Es. destruct (Hok Es) as [-> Hc]. split; [done|]. intros _. apply Hc. intros Eb. cbn in Eb. congruence.
  - bind_simpl. assert (base_ f = true) as Eb. { destruct Hi as [_ _ _ _ _ R _]. destruct (base_ f); [done|lia]. }
    set (n := if _ <=? _ then _ else _). assert (0 < n <= limit_ f - dst_ f /\ n <= Zlength src) as [Hn Hn']. { unfold n. destruct (Z.leb_spec (Zlength src) (limit_ f - dst_ f)); lia. }
    assert (Zlength (take (Z.to_nat n) src) = n) as Ht. { unfold Zlength in *. rewrite length_take. lia. }
    pose proof (store_ok f st data extra (take (Z.to_nat n) src) Hi Eb) as Hs. rewrite Ht in Hs. specialize (Hs ltac:(lia)).
    destruct (IH (with_dst f (dst_ f + n)) (drop (Z.to_nat n) src) _ _ _ Hs) as (s & f' & st' & copied & extra' & -> & Ef' & Hp & Hi' & Hok).
    { rewrite Zlength_app, Ht. unfold Zlength in *. rewrite length_drop. lia. }
    { rewrite length_drop. unfold Zlength in *. case_match; case_match; lia. }
    exists s, f', st', (take (Z.to_nat n) src ++ copied), extra'. split; [done|]. split; [done|]. split; [rewrite <- (take_drop (Z.to_nat n) src) at 2; by apply prefix_app|].
    rewrite app_assoc. split; [done|]. intros Es. destruct (Hok Es) as [-> Hc]. split; [apply take_drop|]. intros _. apply Hc. intros Eb'. cbn in Eb'. congruence.
Qed.

Lemma mmap_Append_ok f src (st : St) data extra : file_inv f st data extra -> Zlength data + Zlength src + 2 ^ 21 < 2 ^ 63 ->
  exists s f' st' copied extra', Append f src st = Some (s, f', st') /\ fd_ f' = fd_ f /\ copied `prefix_of` src /\ file_inv f' st' (data ++ copied) extra' /\
    (ok s = true -> copied = src /\ (clean f extra -> clean f' extra')).
Proof. intros Hi Hlen. apply Append_loop_ok; [done|done|]. destruct (_ =? _)%Z; lia. Qed.

(** What is passed to [msync] lies inside the mapping, on page boundaries. *)
Lemma Sync_ok f (st : St) data extra : file_inv f st data extra ->
  exists s f' st', Sync f st = Some (s, f', st') /\ fd_ f' = fd_ f /\ file_inv f' st' data extra /\ (clean f extra -> clean f' extra) /\
    (last_sync_ f < dst_ f -> exists p1 p2, TruncateToPageBoundary f (last_sync_ f) = Some p1 /\ TruncateToPageBoundary f (dst_ f - 1) = Some p2 /\
       (page_size_ f | p1) /\ 0 <= p1 <= last_sync_ f /\ dst_ f <= p1 + (p2 - p1 + page_size_ f) <= limit_ f).
Proof.
  intros Hi. unfold Sync. destruct (if pending_sync_ f then _ else _) as [[s f1] st1] eqn:Ep.
  assert (file_inv f1 st1 data extra /\ fd_ f1 = fd_ f /\ f1 = with_sync f (last_sync_ f) (pending_sync_ f1)) as (Hi1 & Ef & E1).
  { destruct (pending_sync_ f) eqn:Eps.
    - pose proof (ml_fdatasync (fd_ f) st) as Hf. destruct (sys_fdatasync (fd_ f) st) as [r st2]. injection Ep as <- <- <-. split_and!; try done. destruct Hi as [P M O L X R Cn]. split; try done. by rewrite Hf.
    - injection Ep as <- <- <-. split_and!; try done. by destruct f. }
  assert (exists k, 0 <= k /\ page_size_ f = 2 ^ k) as Hp. { destruct Hi as [(k & Hk & Hp) _ _ _ _ _ _]. exists k. split; [lia|done]. }
  assert (clean f extra -> clean f1 extra) as Hcl by (rewrite E1; done).
  assert (last_sync_ f1 = last_sync_ f /\ dst_ f1 = dst_ f /\ page_size_ f1 = page_size_ f) as (-> & -> & Epg) by (rewrite E1; done).
  destruct (Z.ltb_spec (last_sync_ f) (dst_ f)) as [Hlt|Hge]; [|do 3 eexists; split; [done|]; split_and!; [done|done|done|lia]].
  pose proof Hi as [_ _ _ _ _ R _]. destruct (base_ f) eqn:Eb; [|lia]. destruct R as (R1 & R2 & R3 & R4).
  destruct (TruncateToPageBoundary_ok f (last_sync_ f) Hp) as (p1 & Et1 & D1 & B1 & N1); [lia|]. destruct (TruncateToPageBoundary_ok f (dst_ f - 1) Hp) as (p2 & Et2 & D2 & B2 & N2); [lia|].
  assert (forall x, TruncateToPageBoundary f1 x = TruncateToPageBoundary f x) as Htr by (intros x; unfold TruncateToPageBoundary; by rewrite Epg).
  rewrite !Htr, Et1, Et2. bind_simpl. pose proof (ml_msync (fd_ f1) (file_offset_ f1 + p1) (p2 - p1 + page_size_ f1) st1) as Hm. destruct (sys_msync _ _ _ st1) as [r st2]. cbn [snd] in Hm.
  do 3 eexists. split; [done|]. split; [done|]. split; [|split; [done|]].
  - destruct Hi1 as [P M O L X R' Cn]. assert (dst_ f1 = dst_ f /\ base_ f1 = base_ f /\ limit_ f1 = limit_ f) as (Ed & Eb' & El) by (rewrite E1; done).
    split; cbn [with_sync page_size_ map_size_ file_offset_ dst_ base_ limit_ last_sync_ fd_]; try done; [|by rewrite Hm]. rewrite Eb', Eb, Ed, El in *. split_and!; try done; try lia. by rewrite Epg.
  - intros _. exists p1, p2. split_and!; try done; try lia. destruct D2 as [a Ea], R3 as [b Eb2]. assert (0 < page_size_ f) by lia. assert (a < b) by nia. nia.
Qed.

Lemma Close_ok f (st : St) data extra : file_inv f st data extra -> clean f extra -> Zlength data + 2 ^ 21 < 2 ^ 63 ->
  let '(s, f', st') := Close f st in ok s = true -> contents st' (fd_ f) = Some data.
Proof.
  intros [P M O L X R Cn] Hc Hlen. unfold Close. destruct (UnmapCurrentRegion f st) as [[r f1] st1] eqn:Eu.
  assert (contents st1 (fd_ f) = Some (data ++ zeros extra) /\ fd_ f1 = fd_ f /\ file_offset_ f1 = file_offset_ f + limit_ f) as (C1 & Ef & Eo).
  { unfold UnmapCurrentRegion in Eu. destruct (base_ f).
    - pose proof (ml_munmap (fd_ f) (file_offset_ f) (limit_ f) st) as Hm. destruct (sys_munmap _ _ _ st) as [r0 st0]. injection Eu as <- <- <-. cbn in *. rewrite Hm. rewrite u64_small by (unfold is_u64; lia). done.
    - injection Eu as <- <- <-. split_and!; try done. lia. }
  assert (extra = limit_ f - dst_ f) as Hx. { destruct (base_ f) eqn:Eb; [tauto|]. rewrite (Hc Eb). lia. }
  pose proof (Zlength_nonneg data). rewrite Ef, Eo. destruct r as [e|].
  - destruct (sys_close (fd_ f) st1) as [rc st2]. by cbn.
  - destruct (Z.ltb_spec 0 (limit_ f - dst_ f)) as [Hu|Hu].
    + rewrite u64_small by (unfold is_u64; lia). pose proof (ml_ftruncate (fd_ f) (file_offset_ f + limit_ f - (limit_ f - dst_ f)) st1 _ C1 ltac:(lia)) as Ht.
      destruct (sys_ftruncate _ _ st1) as [rt st2]. cbn [fst snd] in Ht. pose proof (ml_close (fd_ f) st2 (fd_ f)) as Hcl. destruct (sys_close (fd_ f) st2) as [rc st3]. cbn [snd] in Hcl.
      destruct rt as [e|]; [by cbn|]. intros _. rewrite Hcl, Ht. rewrite resize_padded by lia. replace (_ - Zlength data) with 0 by lia. by rewrite app_nil_r.
    + pose proof (ml_close (fd_ f) st1 (fd_ f)) as Hcl. destruct (sys_close (fd_ f) st1) as [rc st2]. cbn [snd] in Hcl. intros _. rewrite Hcl, C1. replace extra with 0 by lia. by rewrite app_nil_r.
Qed.

End FileLemmas.

(** ** Sequences of calls *)

Inductive file_op := OpAppend (data : bytes) | OpFlush | OpSync.

Definition run_op {St} `{!MmapOps St} (op : file_op) (f : t) (st : St) : option (Status * t * St) :=
  match op with OpAppend data => Append f data st | OpFlush => Flush f st | OpSync => Sync f st end.

Fixpoint run_ops {St} `{!MmapOps St} (ops : list file_op) (f : t) (st : St) : option (list Status * t * St) :=
  match ops with
  | [] => Some ([], f, st)
  | op :: ops => '(s, f, st) ← run_op op f st; '(ss, f, st) ← run_ops ops f st; Some (s :: ss, f, st)
  end.

Definition appends (ops : list file_op) : list bytes := omap (fun op => match op with OpAppend d => Some d | _ => None end) ops.

Lemma mmap_run_ops_ok {St} `{!MmapOps St} `{!MmapModel St} `{!MmapLaws St} ops : forall f (st : St) data extra, file_inv f st data extra ->
  Zlength data + Zlength (concat (appends ops)) + 2 ^ 21 < 2 ^ 63 ->
  exists ss f' st' parts extra', run_ops ops f st = Some (ss, f', st') /\ fd_ f' = fd_ f /\ Forall2 prefix parts (appends ops) /\ file_inv f' st' (data ++ concat parts) extra' /\
    (Forall (fun s => ok s = true) ss -> parts = appends ops /\ (clean f extra -> clean f' extra')).
Proof.
  induction ops as [|op ops IH]; intros f st data extra Hi Hlen; cbn [run_ops].
  { exists [], f, st, [], extra. rewrite app_nil_r. by split_and!. }
  assert (exists s f1 st1 (part : list bytes) extra1, run_op op f st = Some (s, f1, st1) /\ fd_ f1 = fd_ f /\
    Forall2 prefix part (appends [op]) /\ file_inv f1 st1 (data ++ concat part) extra1 /\ (ok s = true -> part = appends [op] /\ (clean f extra -> clean f1 extra1)))
    as (s & f1 & st1 & part & extra1 & -> & Ef & Hp & Hi1 & Hok).
  { destruct op as [d| |].
    - assert (Zlength data + Zlength d + 2 ^ 21 < 2 ^ 63) as Hd. { cbn [appends omap list_omap concat] in Hlen. rewrite Zlength_app in Hlen. pose proof (Zlength_nonneg (concat (appends ops))). unfold appends in *. lia. }
      destruct (mmap_Append_ok f d st data extra Hi Hd) as (s & f1 & st1 & copied & extra1 & E & Ef & Hpre & Hi1 & Hok).
      exists s, f1, st1, [copied], extra1. cbn [concat]. rewrite app_nil_r. split_and!; try done; [by repeat constructor|]. intros Es. destruct (Hok Es) as [-> Hc]. done.
    - exists Status_OK, f, st, [], extra. rewrite app_nil_r. by split_and!.
    - destruct (Sync_ok f st data extra Hi) as (s & f1 & st1 & E & Ef & Hi1 & Hc & _). exists s, f1, st1, [], extra. rewrite app_nil_r. by split_and!. }
  bind_simpl. assert (appends (op :: ops) = appends [op] ++ appends ops) as Ea by (by destruct op). rewrite Ea in *. rewrite concat_app, Zlength_app in Hlen.
  assert (Zlength (concat part) <= Zlength (concat (appends [op]))) as Hle.
  { clear -Hp. induction Hp as [|x y l k [z ->] _ IH]; cbn [concat]; [lia|]. rewrite !Zlength_app. pose proof (Zlength_nonneg z). lia. }
  destruct (IH f1 st1 (data ++ concat part) extra1 Hi1) as (ss & f' & st' & parts & extra' & -> & Ef' & Hp' & Hi' & Hok'); [rewrite Zlength_app; lia|]. bind_simpl.
  exists (s :: ss), f', st', (part ++ parts), extra'. split; [done|]. split; [congruence|]. split; [by apply Forall2_app|]. rewrite concat_app, app_assoc. split; [done|].
  intros [Es Hss]%Forall_cons. destruct (Hok Es) as [-> Hc]. destruct (Hok' Hss) as [-> Hc']. auto.
Qed.

Lemma run_ops_length {St} `{!MmapOps St} ops : forall f (st : St) ss f' st', run_ops ops f st = Some (ss, f', st') -> length ss = length ops.
Proof.
  induction ops as [|op ops IH]; intros f st ss f' st' E; cbn [run_ops] in E; [by injection E as <- _ _|].
  destruct (run_op op f st) as [[[s f1] st1]|]; [|done]. cbn [mbind option_bind] in E. destruct (run_ops ops f1 st1) as [[[ss1 f2] st2]|] eqn:E1; [|done]. injection E as <- _ _. cbn [length]. f_equal. by eapply IH.
Qed.

(** ** A disk in memory *)

#[global] Instance MemFd_ops : MmapOps (gmap Z bytes) := {
  sys_ftruncate fd n st := (None, match st !! fd with Some d => <[fd := resize n d]> st | None => st end);
  sys_mmap _ _ _ st := (None, st);
  sys_munmap _ _ _ st := (None, st);
  sys_close _ st := (None, st);
  sys_fdatasync _ st := (None, st);
  sys_msync _ _ _ st := (None, st);
  store fd off x st := match st !! fd with Some d => <[fd := take (Z.to_nat off) d ++ x ++ drop (Z.to_nat (off + Zlength x)) d]> st | None => st end
}.

#[global] Instance MemFd_model : MmapModel (gmap Z bytes) := fun st fd => st !! fd.

Lemma MemFd_laws : MmapLaws (gmap Z bytes).
Proof.
  split; intros; try done.
  - cbn. unfold contents, MemFd_model in *. rewrite H. by rewrite lookup_insert_eq.
  - cbn. unfold contents, MemFd_model in *. rewrite H. by rewrite lookup_insert_eq.
Qed.

(** ** Properties *)

(** C27: A memory-mapped file holds what was appended to it.  On a new file, with
    pages of any power of two up to a megabyte, any sequence of appends, flushes and
    syncs runs without a failed assertion; whatever system calls fail, the file
    then holds, in order, a prefix of each append, followed by zeros only; when all
    calls reported OK it holds exactly the appended bytes and the zeros, and a
    [Close] that reports OK leaves exactly the appended bytes. *)
Theorem PosixMmapFile_roundtrip {St : Type} (MO : MmapOps St) (MM : MmapModel St) (ML : MmapLaws St) (fname : bytes) (fd k : Z) (ops : list file_op) (st : St) :
  0 <= k <= 20 -> contents st fd = Some [] -> Zlength (concat (appends ops)) + 2 ^ 21 < 2 ^ 63 ->
  exists f ss f' st' parts extra, new fname fd (2 ^ k) = Some f /\ run_ops ops f st = Some (ss, f', st') /\ length ss = length ops /\
    Forall2 prefix parts (appends ops) /\ contents st' fd = Some (concat parts ++ zeros extra) /\
    (Forall (fun s => ok s = true) ss -> parts = appends ops /\
       let '(s, _, st'') := Close f' st' in ok s = true -> contents st'' fd = Some (concat (appends ops))).
Proof.
  intros Hk Hc Hlen. destruct (new_ok fname fd k st Hk Hc) as (f & En & Efd & Hi & Hcl).
  destruct (mmap_run_ops_ok ops f st [] 0 Hi) as (ss & f' & st' & parts & extra & E & Ef & Hp & Hi' & Hok); [by rewrite Zlength_nil|].
  exists f, ss, f', st', parts, extra. split; [done|]. split; [done|]. split; [by eapply run_ops_length|]. split; [done|]. cbn [app] in Hi'.
  split; [rewrite <- Efd, <- Ef; apply (v_contents _ _ _ _ Hi')|]. intros Hss. destruct (Hok Hss) as [-> Hc']. split; [done|].
  pose proof (Close_ok f' st' _ extra Hi' (Hc' Hcl) Hlen) as Hclose. destruct (Close f' st') as [[s f''] st'']. rewrite Ef, Efd in Hclose. done.
Qed.

Definition two_regions : list file_op := [OpAppend (replicate (Z.to_nat 40000) Byte.x61); OpSync; OpAppend (replicate (Z.to_nat 40000) Byte.x62); OpFlush; OpSync].

Lemma PosixMmapFile_roundtrip_witness :
  exists f ss f' st', new (str "f") 3 4096 = Some f /\ run_ops two_regions f {[3 := []]} = Some (ss, f', st') /\
    (Close f' st').2 !! 3 = Some (concat (appends two_regions)).
Proof.
  destruct (PosixMmapFile_roundtrip MemFd_ops MemFd_model MemFd_laws (str "f") 3 12 two_regions {[3 := []]})
    as (f & ss & f' & st' & parts & extra & En & E & _ & _ & _ & Hok).
  - lia.
  - reflexivity.
  - vm_compute. reflexivity.
  - exists f, ss, f', st'. split; [exact En|]. split; [exact E|].
    assert (match new (str "f") 3 4096 with Some f => match run_ops two_regions f {[3 := []]} with
      | Some (ss, f', st') => forallb ok ss && ok (Close f' st').1.1 | None => false end | None => false end = true) as Hb by (vm_compute; reflexivity).
    change (2 ^ 12) with 4096 in En. rewrite En, E in Hb. apply andb_true_iff in Hb as [H1 H2]. destruct Hok as [_ Hc]; [by apply Forall_forall; intros x Hx; apply list_elem_of_In in Hx; revert x Hx; apply forallb_forall|].
    destruct (Close f' st') as [[s f''] st'']. exact (Hc H2).
Defined.
