(* ===== verification/PosixEnv.v ===== *)
(** util/env_posix.cpp, the rest: readable files, the limit on mappings, the lock
    table with [LockFile] and [UnlockFile], the calls that wrap one system call,
    and the background thread with its queue ([Schedule], [BGThread]).

    What a system call returns is an argument of the operation that makes it: its
    result, or the message of [strerror(errno)].  The mutexes are not modelled:
    each operation runs alone, as it does under its mutex. *)

From Stdlib Require Import ZArith Lia List Bool String.
From S2P Require Import Prelude Lists Slice PosixFile.

(** ** One call *)

(** [DeleteFile], [CreateDir], [DeleteDir] and [RenameFile] report the failure of
    [unlink], [mkdir], [rmdir] and [rename]. *)
Definition PosixEnv_DeleteFile (fname : bytes) (unlink : option bytes) : Status := check_call fname unlink.
Definition PosixEnv_CreateDir (name : bytes) (mkdir : option bytes) : Status := check_call name mkdir.
Definition PosixEnv_DeleteDir (name : bytes) (rmdir : option bytes) : Status := check_call name rmdir.
Definition PosixEnv_RenameFile (src : bytes) (rename : option bytes) : Status := check_call src rename.

(** [stat] gives the size or fails. *)
Definition PosixEnv_GetFileSize (fname : bytes) (stat : Z + bytes) : Status * Z :=
  match stat with inl size => (Status_OK, size) | inr e => (IOError fname e, 0) end.

(** [access] answers whether a file exists, [opendir] and [readdir] list a directory. *)
Definition PosixEnv_FileExists (access : option bytes) : bool := match access with None => true | Some _ => false end.

Definition PosixEnv_GetChildren (dir : bytes) (opendir : list bytes + bytes) : Status * list bytes :=
  match opendir with inl entries => (Status_OK, entries) | inr e => (IOError dir e, []) end.

(** [gettimeofday] in microseconds. *)
Definition PosixEnv_NowMicros (tv_sec tv_usec : Z) : Z := u64 (u64 tv_sec * 1000000 + tv_usec).

(** Opening a file for sequential reads gives a stream, for writing a descriptor;
    [None]: the assertion of the constructor fails. *)
Definition PosixEnv_NewSequentialFile (fname : bytes) (fopen : Z + bytes) : Status * option (bytes * Z) :=
  match fopen with inl f => (Status_OK, Some (fname, f)) | inr e => (IOError fname e, None) end.

Definition PosixEnv_NewWritableFile (fname : bytes) (open : Z + bytes) (page_size : Z) : option (Status * option PosixMmapFile.t) :=
  match open with
  | inl fd => f ← PosixMmapFile.new fname fd page_size; Some (Status_OK, Some f)
  | inr e => Some (IOError fname e, None)
  end.

(** ** Readable files *)

(** [pread] gives bytes or fails. *)
Definition PosixRandomAccessFile_Read (filename : bytes) (pread : bytes + bytes) : Status * bytes :=
  match pread with inl data => (Status_OK, data) | inr e => (IOError filename e, []) end.

Definition EINVAL_message : bytes := str "Invalid argument".

(** The mapping holds [region]; [None]: the slice reaches outside it. *)
Definition PosixMmapReadableFile_Read (filename region : bytes) (offset n : Z) : option (Status * bytes) :=
  if u64 (offset + n) >? Zlength region then Some (IOError filename EINVAL_message, [])
  else if (0 <=? offset) && (offset + n <=? Zlength region) then Some (Status_OK, take (Z.to_nat n) (drop (Z.to_nat offset) region))
  else None.

(** ** MmapLimiter *)

Module MmapLimiter.

Definition new : Z := 1000.

Definition Acquire (allowed : Z) : bool * Z := if allowed <=? 0 then (false, allowed) else (true, allowed - 1).

Definition Release (allowed : Z) : Z := allowed + 1.

End MmapLimiter.

(** ** NewRandomAccessFile *)

Inductive RandomAccess := MmapReadable (fname : bytes) (length : Z) | PreadFile (fname : bytes) (fd : Z).

(** Opened descriptors are in [fds]. *)
Record readers := MkReaders { allowed_ : Z; fds : gset Z; files_ : list RandomAccess }.

(** [open] gives a descriptor; [stat] and [mmap] are the calls on it. *)
Definition NewRandomAccessFile (fname : bytes) (open : Z + bytes) (stat : Z + bytes) (mmap : option bytes) (r : readers) : Status * readers :=
  match open with
  | inr e => (IOError fname e, r)
  | inl fd =>
      let r := MkReaders (allowed_ r) ({[fd]} ∪ fds r) (files_ r) in
      let '(acquired, allowed) := MmapLimiter.Acquire (allowed_ r) in
      if (acquired : bool) then
        let '(s, size) := PosixEnv_GetFileSize fname stat in
        let '(s, files) := if ok s then match mmap with
                                        | None => (s, files_ r ++ [MmapReadable fname size])
                                        | Some e => (IOError fname e, files_ r)
                                        end
                           else (s, files_ r) in
        let allowed := if ok s then allowed else MmapLimiter.Release allowed in
        (s, MkReaders allowed (fds r ∖ {[fd]}) files)
      else (Status_OK, MkReaders allowed (fds r) (files_ r ++ [PreadFile fname fd]))
  end.

(** The destructors: [munmap] and a slot, or [close]. *)
Definition delete_file (i : nat) (r : readers) : option readers :=
  match files_ r !! i with
  | Some (MmapReadable _ _) => Some (MkReaders (MmapLimiter.Release (allowed_ r)) (fds r) (delete i (files_ r)))
  | Some (PreadFile _ fd) => Some (MkReaders (allowed_ r) (fds r ∖ {[fd]}) (delete i (files_ r)))
  | None => None
  end.

(** ** LockFile and UnlockFile *)

Record FileLock := MkFileLock { lock_fd : Z; lock_name : bytes }.

Record locks := MkLocks { locked_files_ : gset bytes; lock_fds : gset Z; held : list FileLock }.

(** [open] gives a descriptor; [setlk] is [fcntl] on it. *)
Definition PosixEnv_LockFile (fname : bytes) (open : Z + bytes) (setlk : option bytes) (l : locks) : Status * option FileLock * locks :=
  match open with
  | inr e => (IOError fname e, None, l)
  | inl fd =>
      let fds := {[fd]} ∪ lock_fds l in
      if bool_decide (fname ∈ locked_files_ l) then
        (Status_IOError (str "lock " ++ fname) (str "already held by process"), None, MkLocks (locked_files_ l) (fds ∖ {[fd]}) (held l))
      else
        let locked := {[fname]} ∪ locked_files_ l in
        match setlk with
        | Some e => (IOError (str "lock " ++ fname) e, None, MkLocks (locked ∖ {[fname]}) (fds ∖ {[fd]}) (held l))
        | None => (Status_OK, Some (MkFileLock fd fname), MkLocks locked fds (held l ++ [MkFileLock fd fname]))
        end
  end.

(** The lock is deleted. *)
Definition PosixEnv_UnlockFile (i : nat) (setlk : option bytes) (l : locks) : option (Status * locks) :=
  lock ← held l !! i;
  Some (check_call (str "unlock") setlk, MkLocks (locked_files_ l ∖ {[lock_name lock]}) (lock_fds l ∖ {[lock_fd lock]}) (delete i (held l))).

(** ** Schedule and BGThread *)

(** What the background thread does: at the top of its loop, asleep in
    [pthread_cond_wait], or running an item. *)
Inductive bgthread (Item : Type) := NotStarted | AtTop | Asleep | Running (i : Item).
Arguments NotStarted {_}.
Arguments AtTop {_}.
Arguments Asleep {_}.
Arguments Running {_} _.

Record PosixEnv (Item : Type) := MkPosixEnv { queue_ : list Item; thread_ : bgthread Item }.
Arguments MkPosixEnv {_} _ _.
Arguments queue_ {_}.
Arguments thread_ {_}.

Section Background.
Context {Item : Type}.

(** The signal wakes the thread if it sleeps. *)
Definition Schedule (i : Item) (e : PosixEnv Item) : PosixEnv Item :=
  let th := match thread_ e with NotStarted => AtTop | th => th end in
  let th := match queue_ e, th with [], Asleep => AtTop | _, _ => th end in
  MkPosixEnv (queue_ e ++ [i]) th.

(** The thread takes the mutex: it sleeps while the queue is empty, or takes the
    first item and runs it without the mutex. *)
Definition BGThread_take (e : PosixEnv Item) : PosixEnv Item :=
  match queue_ e with
  | [] => MkPosixEnv [] Asleep
  | i :: queue => MkPosixEnv queue (Running i)
  end.

(** What the thread does next when it is not asleep; an item returns. *)
Definition BGThread_step (e : PosixEnv Item) : option (PosixEnv Item) :=
  match thread_ e with
  | AtTop => Some (BGThread_take e)
  | Running _ => Some (MkPosixEnv (queue_ e) AtTop)
  | NotStarted | Asleep => None
  end.

(** [scheduled] were scheduled and [started] were started, in these orders.  A
    sleep may also end without a signal. *)
Inductive bg_reach : list Item -> list Item -> PosixEnv Item -> Prop :=
| bg_new : bg_reach [] [] (MkPosixEnv [] NotStarted)
| bg_schedule scheduled started e i : bg_reach scheduled started e -> bg_reach (scheduled ++ [i]) started (Schedule i e)
| bg_thread scheduled started e e' : bg_reach scheduled started e -> BGThread_step e = Some e' ->
    bg_reach scheduled (started ++ match thread_ e' with Running i => [i] | _ => [] end) e'
| bg_spurious scheduled started e : bg_reach scheduled started e -> thread_ e = Asleep -> bg_reach scheduled started (MkPosixEnv (queue_ e) AtTop).

End Background.

(** ** Lemmas *)

(** Removing one of a list of different keys. *)
Lemma delete_keys {A B} (g : A -> B) (l : list A) i x : l !! i = Some x -> NoDup (map g l) ->
  NoDup (map g (delete i l)) /\ forall y, y ∈ map g (delete i l) <-> y ∈ map g l /\ y <> g x.
Proof.
  intros Hx Hn. rewrite delete_take_drop. assert (map g l = map g (take i l) ++ g x :: map g (drop (S i) l)) as E.
  { rewrite <- (take_drop_middle l i x Hx) at 1. by rewrite map_app. }
  rewrite E in *. rewrite map_app. apply NoDup_app in Hn as (N1 & N2 & N3). apply NoDup_cons in N3 as [N3 N4].
  split; [apply NoDup_app; split_and!; [done| |done]; intros y Hy Hy'; apply (N2 y Hy); by right|].
  intros y. rewrite !elem_of_app, elem_of_cons. split; [intros [Hy|Hy]; (split; [tauto|]); intros ->; [apply (N2 _ Hy); left|done]|]. intros [[Hy|[->|Hy]] Hne]; tauto.
Qed.

(** *** Locks *)

(** The locked names are those of the locks held, each held once, and no other
    descriptor is open. *)
Record locks_ok (l : locks) : Prop := {
  lk_names : NoDup (map lock_name (held l));
  lk_fds : NoDup (map lock_fd (held l));
  lk_locked : forall n, n ∈ locked_files_ l <-> n ∈ map lock_name (held l);
  lk_open : forall fd, fd ∈ lock_fds l <-> fd ∈ map lock_fd (held l)
}.

(** A new descriptor is not one that is open. *)
Inductive lock_step : locks -> locks -> Prop :=
| step_lock fname open setlk l : (forall fd, open = inl fd -> fd ∉ lock_fds l) -> lock_step l (PosixEnv_LockFile fname open setlk l).2
| step_unlock i setlk l s l' : PosixEnv_UnlockFile i setlk l = Some (s, l') -> lock_step l l'.

Lemma locks_ok_eq l locked fds : locks_ok l -> (forall n, n ∈ locked <-> n ∈ locked_files_ l) -> (forall fd, fd ∈ fds <-> fd ∈ lock_fds l) -> locks_ok (MkLocks locked fds (held l)).
Proof. intros [N F L O] H1 H2. split; try done; cbn; intros x; [by rewrite H1|by rewrite H2]. Qed.

Lemma lock_step_ok l l' : lock_step l l' -> locks_ok l -> locks_ok l'.
Proof.
  intros Hs Hl. inversion Hs as [fname open setlk l0 Hfresh E1|i setlk l0 s l1 E]; subst.
  - unfold PosixEnv_LockFile. destruct open as [fd|e]; [|done]. specialize (Hfresh fd eq_refl). destruct (bool_decide_reflect (fname ∈ locked_files_ l)) as [Hin|Hin]; cbn [snd].
    + apply locks_ok_eq; [done|done|set_solver].
    + destruct setlk as [e|]; cbn [snd]; [apply locks_ok_eq; [done|set_solver..]|]. destruct Hl as [N F L O]. rewrite L in Hin. rewrite O in Hfresh.
      split; cbn [held locked_files_ lock_fds]; rewrite ?map_app; cbn [map lock_name lock_fd].
      * apply NoDup_app. split_and!; [done|intros y Hy ->%list_elem_of_singleton; done|apply NoDup_singleton].
      * apply NoDup_app. split_and!; [done|intros y Hy ->%list_elem_of_singleton; done|apply NoDup_singleton].
      * intros n. rewrite elem_of_union, elem_of_app, L, elem_of_singleton, list_elem_of_singleton. tauto.
      * intros n. rewrite elem_of_union, elem_of_app, O, elem_of_singleton, list_elem_of_singleton. tauto.
  - unfold PosixEnv_UnlockFile in E. destruct (held l !! i) as [lock|] eqn:Ei; [|done]. injection E as _ <-. destruct Hl as [N F L O].
    destruct (delete_keys lock_name (held l) i lock Ei N) as [N1 M1]. destruct (delete_keys lock_fd (held l) i lock Ei F) as [N2 M2].
    split; cbn [held locked_files_ lock_fds]; try done; intros x; rewrite elem_of_difference, elem_of_singleton; [by rewrite L, M1|by rewrite O, M2].
Qed.

(** *** Readers *)

Definition mmapped (f : RandomAccess) : bool := match f with MmapReadable _ _ => true | _ => false end.

Definition reader_fds (fs : list RandomAccess) : list Z := omap (fun f => match f with PreadFile _ fd => Some fd | _ => None end) fs.

Record readers_ok (r : readers) : Prop := {
  rd_slots : 0 <= allowed_ r /\ allowed_ r + Zlength (List.filter mmapped (files_ r)) = MmapLimiter.new;
  rd_fds : NoDup (reader_fds (files_ r)) /\ forall fd, fd ∈ fds r <-> fd ∈ reader_fds (files_ r)
}.

Inductive reader_step : readers -> readers -> Prop :=
| step_open fname open stat mmap r : (forall fd, open = inl fd -> fd ∉ fds r) -> reader_step r (NewRandomAccessFile fname open stat mmap r).2
| step_delete i r r' : delete_file i r = Some r' -> reader_step r r'.

Lemma reader_step_ok r r' : reader_step r r' -> readers_ok r -> readers_ok r'.
Proof.
  intros Hs [[S1 S2] [F1 F2]]. inversion Hs as [fname open stat mmap r0 Hfresh E1|i r0 r1 E]; subst.
  - unfold NewRandomAccessFile. destruct open as [fd|e]; [|by split]. specialize (Hfresh fd eq_refl). unfold MmapLimiter.Acquire. cbn [allowed_ fds files_].
    assert (readers_ok (MkReaders (allowed_ r) (({[fd]} ∪ fds r) ∖ {[fd]}) (files_ r))) as Hsame. { split; [done|]. split; [done|]. cbn [fds files_]. intros x. rewrite <- F2. set_solver. }
    destruct (Z.leb_spec (allowed_ r) 0) as [Ha|Ha].
    + cbn. split; cbn [allowed_ fds files_].
      * rewrite List.filter_app, Zlength_app. unfold Zlength in *. cbn. lia.
      * unfold reader_fds. rewrite omap_app. cbn. split; [apply NoDup_app; split_and!; [done|intros y Hy ->%list_elem_of_singleton; by rewrite <- F2 in Hy|apply NoDup_singleton]|].
        intros x. rewrite elem_of_union, elem_of_app, elem_of_singleton, list_elem_of_singleton, F2. unfold reader_fds. tauto.
    + unfold PosixEnv_GetFileSize. destruct stat as [size|e]; cbn [ok]; [|cbn; unfold MmapLimiter.Release; by rewrite Z.sub_add].
      destruct mmap as [e|]; [cbn; unfold MmapLimiter.Release; by rewrite Z.sub_add|]. change (ok Status_OK) with true. cbn. split; cbn [allowed_ fds files_].
      * rewrite List.filter_app, Zlength_app. unfold Zlength in *. cbn. lia.
      * unfold reader_fds. rewrite omap_app. cbn. rewrite app_nil_r. split; [done|]. intros x. fold (reader_fds (files_ r)). rewrite <- F2. set_solver.
  - unfold delete_file in E. destruct (files_ r !! i) as [f|] eqn:Ei; [|done]. pose proof (take_drop_middle _ _ _ Ei) as Em.
    rewrite <- Em in S2, F1, F2. unfold reader_fds in F1, F2. rewrite List.filter_app, Zlength_app in S2. cbn [List.filter] in S2. setoid_rewrite omap_app in F2. rewrite omap_app in F1.
    destruct f as [n len|n fd]; injection E as <-; cbn in *; split; cbn [allowed_ fds files_]; rewrite delete_take_drop; unfold reader_fds; rewrite ?List.filter_app, ?omap_app, ?Zlength_app.
    + rewrite Zlength_cons in S2. unfold MmapLimiter.Release. lia.
    + done.
    + done.
    + apply NoDup_app in F1 as (N1 & N2 & N3). apply NoDup_cons in N3 as [N3 N4]. split.
      * apply NoDup_app. split_and!; [done| |done]. intros y Hy Hy'. apply (N2 y Hy). by right.
      * intros y. rewrite elem_of_difference, F2, !elem_of_app, elem_of_cons, elem_of_singleton.
        split; [tauto|]. intros [Hy|Hy]; (split; [tauto|]); intros ->; [apply (N2 _ Hy); left|done].
Qed.

(** *** The background thread *)

Section BackgroundLemmas.
Context {Item : Type}.

(** Nobody sleeps on work that is there. *)
Definition awake (e : PosixEnv Item) : Prop := queue_ e <> [] -> thread_ e <> Asleep /\ thread_ e <> NotStarted.

Lemma bg_reach_ok scheduled started (e : PosixEnv Item) : bg_reach scheduled started e -> scheduled = started ++ queue_ e /\ awake e.
Proof.
  induction 1 as [|scheduled started e i _ [IH1 IH2]|scheduled started e e' _ [IH1 IH2] Hs|scheduled started e _ [IH1 IH2] Ha].
  - done.
  - split; [by rewrite IH1, <- app_assoc|]. unfold awake, Schedule in *. cbn. intros _. destruct (queue_ e) eqn:Eq, (thread_ e) eqn:Et; try done; by destruct IH2.
  - unfold BGThread_step, BGThread_take in Hs. destruct (thread_ e) eqn:Et; try done; [destruct (queue_ e) as [|i q] eqn:Eq|]; injection Hs as <-; cbn; rewrite <- ?app_assoc; (split; [by rewrite ?app_nil_r in *|unfold awake; cbn; intros; by split]).
  - split; [done|]. unfold awake. cbn. intros _. by split.
Qed.

(** The work at the head of the queue is reached in at most two steps of the thread. *)
Lemma awake_runs (e : PosixEnv Item) i q : awake e -> queue_ e = i :: q ->
  exists e1, (e1 = e \/ BGThread_step e = Some e1) /\ BGThread_step e1 = Some (MkPosixEnv q (Running i)).
Proof.
  intros Ha Eq. destruct Ha as [H1 H2]; [congruence|]. destruct (thread_ e) eqn:Et; try done.
  - exists e. split; [by left|]. unfold BGThread_step, BGThread_take. by rewrite Et, Eq.
  - eexists. split; [right; unfold BGThread_step; by rewrite Et|]. unfold BGThread_step, BGThread_take. cbn. by rewrite Eq.
Qed.

End BackgroundLemmas.

(** ** Properties *)

(** C28: Work that is scheduled is run, once and in order.  However calls of
    [Schedule], the background thread and wake-ups without a signal interleave, the
    items started so far followed by those in the queue are the items scheduled;
    no wake-up is lost: when the queue is not empty the thread is neither asleep
    nor still to be started, and as soon as the running item returns, the next one
    is started. *)
Theorem PosixEnv_Schedule_fifo {Item : Type} (scheduled started : list Item) (e : PosixEnv Item) :
  bg_reach scheduled started e ->
  scheduled = started ++ queue_ e /\
  forall i q, queue_ e = i :: q -> exists e1, (e1 = e \/ BGThread_step e = Some e1) /\ BGThread_step e1 = Some (MkPosixEnv q (Running i)).
Proof. intros Hr. destruct (bg_reach_ok _ _ _ Hr) as [E Ha]. split; [done|]. intros i q. by apply awake_runs. Qed.

Lemma PosixEnv_Schedule_fifo_witness :
  exists e1, (e1 = Schedule 8 (Schedule 7 (MkPosixEnv [] NotStarted)) \/ BGThread_step (Schedule 8 (Schedule 7 (MkPosixEnv [] NotStarted))) = Some e1) /\
    BGThread_step e1 = Some (MkPosixEnv [8] (Running 7)).
Proof.
  apply (PosixEnv_Schedule_fifo [7; 8] []).
  - apply (bg_schedule [7] [] _ 8), (bg_schedule [] [] _ 7), bg_new.
  - reflexivity.
Defined.

(** C29: A database directory is locked once.  After any calls of [LockFile] and
    [UnlockFile], whatever the system calls return, the locks held have different
    names, the table holds exactly their names and exactly their descriptors are
    open; and the next [LockFile] reports OK if and only if it returns a lock,
    which it does only for a name that is not held, and otherwise changes nothing. *)
Theorem PosixEnv_LockFile_exclusive (l : locks) (fname : bytes) (open : Z + bytes) (setlk : option bytes) :
  rtc lock_step (MkLocks ∅ ∅ []) l -> (forall fd, open = inl fd -> fd ∉ lock_fds l) ->
  locks_ok l /\
  let '(s, lock, l') := PosixEnv_LockFile fname open setlk l in
  locks_ok l' /\
  match lock with
  | Some k => ok s = true /\ lock_name k = fname /\ (fname ∉ map lock_name (held l)) /\ held l' = held l ++ [k]
  | None => ok s = false /\ held l' = held l
  end.
Proof.
  intros Hr Hf. assert (locks_ok l) as Hl.
  { assert (locks_ok (MkLocks ∅ ∅ [])) as H0 by (split; cbn; try apply NoDup_nil_2; set_solver). revert H0. induction Hr as [|x y z Hs _ IH]; [done|]. intros Hx. by eapply IH, lock_step_ok. }
  split; [done|]. pose proof (lock_step_ok l _ (step_lock fname open setlk l Hf) Hl) as Hl'. unfold PosixEnv_LockFile in *. destruct open as [fd|e]; [|by split].
  destruct (bool_decide_reflect (fname ∈ locked_files_ l)) as [Hin|Hin]; [by split|]. destruct setlk as [e|]; [by split|]. cbn [snd] in Hl'. split; [done|]. split_and!; try done. by rewrite <- (lk_locked l Hl).
Qed.

Lemma PosixEnv_LockFile_exclusive_witness :
  locks_ok (PosixEnv_LockFile (str "d/LOCK") (inl 5) None (MkLocks ∅ ∅ [])).2 /\
  (PosixEnv_LockFile (str "d/LOCK") (inl 6) None (PosixEnv_LockFile (str "d/LOCK") (inl 5) None (MkLocks ∅ ∅ [])).2).1.2 = None.
Proof.
  split; [|reflexivity]. apply (PosixEnv_LockFile_exclusive (PosixEnv_LockFile (str "d/LOCK") (inl 5) None (MkLocks ∅ ∅ [])).2 (str "d/LOCK") (inl 6) None).
  - apply rtc_once, step_lock. intros fd [= <-]. set_solver.
  - intros fd [= <-]. cbn. set_solver.
Defined.

(** Reading a mapped table stays inside the mapping and returns exactly the
    bytes asked for, or an error when they reach past the end, as long as offset
    and length do not wrap around 64 bits; when they do, and the sum is small, the
    bytes returned lie outside the mapping. *)
Theorem PosixMmapReadableFile_Read_bounds (filename region : bytes) (offset n : Z) :
  is_u64 offset -> is_u64 n -> Zlength region < 2 ^ 63 ->
  (offset + n < 2 ^ 64 -> PosixMmapReadableFile_Read filename region offset n =
     Some (if offset + n <=? Zlength region then (Status_OK, take (Z.to_nat n) (drop (Z.to_nat offset) region)) else (IOError filename EINVAL_message, []))) /\
  (2 ^ 64 <= offset + n <= 2 ^ 64 + Zlength region -> PosixMmapReadableFile_Read filename region offset n = None).
Proof.
  intros Ho Hn Hr. unfold is_u64 in *. unfold PosixMmapReadableFile_Read. split.
  - intros Hs. rewrite u64_small by (unfold is_u64; lia). rewrite (proj2 (Z.leb_le 0 offset)) by lia. cbn [andb].
    destruct (Z.gtb_spec (offset + n) (Zlength region)), (Z.leb_spec (offset + n) (Zlength region)); try lia; done.
  - intros Hs. assert (u64 (offset + n) = offset + n - 2 ^ 64) as ->. { unfold u64. rewrite <- (Z_mod_plus_full _ (-1)). apply Z.mod_small. lia. }
    destruct (Z.gtb_spec (offset + n - 2 ^ 64) (Zlength region)); [lia|]. rewrite (proj2 (Z.leb_gt (offset + n) (Zlength region))) by lia. by rewrite andb_false_r.
Qed.

Lemma PosixMmapReadableFile_Read_bounds_witness :
  PosixMmapReadableFile_Read (str "t") (str "abcdef") 2 3 = Some (Status_OK, str "cde") /\
  PosixMmapReadableFile_Read (str "t") (str "abcdef") (2 ^ 64 - 1) 4 = None.
Proof.
  split.
  - apply (PosixMmapReadableFile_Read_bounds (str "t") (str "abcdef") 2 3); [unfold is_u64; lia|unfold is_u64; lia|reflexivity|lia].
  - apply (PosixMmapReadableFile_Read_bounds (str "t") (str "abcdef") (2 ^ 64 - 1) 4); [unfold is_u64; lia|unfold is_u64; lia|reflexivity|split; vm_compute; congruence].
Defined.
