(* ===== verification/PosixLogger.v ===== *)
(** util/posix_logger.h: [PosixLogger::Logv], which prints one line into a buffer of
    fixed size, or into a larger one if the first is too small.

    What [snprintf] prints, the header with time and thread and the message, are
    arguments; a buffer holds the bytes written so far, and [p] counts from [base].
    [None] is an access outside the buffer or a failed assertion. *)

From Stdlib Require Import ZArith Lia List Bool String.
From S2P Require Import Prelude Lists.

(** ** snprintf *)

(** The buffer has [bufsize] bytes; [text] is printed at [p] as far as there is
    room, with a NUL behind it; the result is the whole length of [text]. *)
Definition snprintf (bufsize : Z) (buf : bytes) (p : Z) (text : bytes) : option (bytes * Z) :=
  if (0 <=? p) && (p <? bufsize) && (bufsize =? Zlength buf)
  then
    let room := take (Z.to_nat (bufsize - p - 1)) text in
    Some (take (Z.to_nat p) buf ++ room ++ [Byte.x00] ++ drop (Z.to_nat (p + Zlength room + 1)) buf, Zlength text)
  else None.

(** ** Logv *)

Definition newline : Byte.byte := Byte.x0a.

(** [*p = c]. *)
Definition set_byte (buf : bytes) (p : Z) (c : Byte.byte) : option bytes :=
  if (0 <=? p) && (p <? Zlength buf) then Some (<[Z.to_nat p := c]> buf) else None.

(** [true] when the last byte before [p] is missing or not a newline. *)
Definition needs_newline (buf : bytes) (p : Z) : option bool :=
  if p =? 0 then Some true
  else c ← buf !! Z.to_nat (p - 1); Some (negb (bool_decide (c = newline))).

(** One round of the loop, [iter] with its buffer; [inr] is what [fwrite] writes,
    [inl] a try with a larger buffer. *)
Definition Logv_round (iter : Z) (buf : bytes) (header message : bytes) : option (unit + bytes) :=
  let bufsize := Zlength buf in
  '(buf, n) ← snprintf bufsize buf 0 header;
  let p := n in
  '(buf, p) ← (if p <? bufsize then '(buf, n) ← snprintf bufsize buf p message; Some (buf, p + n) else Some (buf, p));
  if (bufsize <=? p) && (iter =? 0) then Some (inl tt)
  else
    let p := if bufsize <=? p then bufsize - 1 else p in
    add ← needs_newline buf p;
    '(buf, p) ← (if (add : bool) then buf ← set_byte buf p newline; Some (buf, p + 1) else Some (buf, p));
    if p <=? bufsize then Some (inr (take (Z.to_nat p) buf)) else None.

(** [buffer] and [heap] are the two buffers before anything is written to them.
    [None] after the second round: nothing is written. *)
Definition Logv (buffer heap : bytes) (header message : bytes) : option (option bytes) :=
  r ← Logv_round 0 buffer header message;
  match r with
  | inr line => Some (Some line)
  | inl _ =>
      r ← Logv_round 1 heap header message;
      match r with inr line => Some (Some line) | inl _ => Some None end
  end.

(** ** Lemmas *)

(** A line: the text and a newline unless it ends with one. *)
Definition with_newline (text : bytes) : bytes := if bool_decide (last text = Some newline) then text else text ++ [newline].

Lemma snprintf_ok bufsize buf p text : 0 <= p < bufsize -> bufsize = Zlength buf ->
  exists buf', snprintf bufsize buf p text = Some (buf', Zlength text) /\ Zlength buf' = bufsize /\
    take (Z.to_nat (Z.min (p + Zlength text) (bufsize - 1))) buf' = take (Z.to_nat p) buf ++ take (Z.to_nat (bufsize - p - 1)) text.
Proof.
  intros Hp Hb. unfold snprintf.
  rewrite (proj2 (Z.leb_le 0 p)), (proj2 (Z.ltb_lt p bufsize)), (proj2 (Z.eqb_eq _ _) Hb) by lia. cbn [andb].
  eexists. split; [reflexivity|]. unfold Zlength in *. split.
  - rewrite !length_app, length_take, length_drop, length_take. cbn [length]. lia.
  - rewrite app_assoc, take_app_length'; [done|]. rewrite length_app, !length_take. lia.
Qed.

Local Ltac print_split Hs :=
  rewrite Hs at 1; reflexivity.

(** Header and message, whatever their lengths: the front of the buffer is the text
    as far as it fits. *)
Lemma print_ok buf header message : 0 < Zlength buf ->
  exists line rest p,
    ('(b, n) ← snprintf (Zlength buf) buf 0 header;
     if n <? Zlength buf then '(b, k) ← snprintf (Zlength buf) b n message; Some (b, n + k) else Some (b, n)) = Some (line ++ rest, p) /\
    line = take (Z.to_nat (Zlength buf - 1)) (header ++ message) /\ rest <> [] /\ Zlength (line ++ rest) = Zlength buf /\
    (p = Zlength (header ++ message) \/ Zlength buf <= p /\ Zlength buf <= Zlength (header ++ message)).
Proof.
  intros Hb. destruct (snprintf_ok (Zlength buf) buf 0 header) as (b1 & E1 & L1 & T1); [lia|done|]. rewrite E1. bind_simpl.
  pose proof (Zlength_nonneg header). pose proof (Zlength_nonneg message). rewrite Zlength_app.
  assert (forall b2 text : bytes, Zlength b2 = Zlength buf -> take (Z.to_nat (Z.min (Zlength text) (Zlength buf - 1))) b2 = take (Z.to_nat (Zlength buf - 1)) text ->
    b2 = take (Z.to_nat (Zlength buf - 1)) text ++ drop (Z.to_nat (Z.min (Zlength text) (Zlength buf - 1))) b2 /\
    drop (Z.to_nat (Z.min (Zlength text) (Zlength buf - 1))) b2 <> []) as Hsplit.
  { intros b2 text L2 T2. split; [by rewrite <- T2, take_drop|]. intros Hnil%(f_equal (@length _)). rewrite length_drop in *; unfold Zlength in *. cbn [length] in Hnil. lia. }
  destruct (Z.ltb_spec (Zlength header) (Zlength buf)) as [Hh|Hh].
  - destruct (snprintf_ok (Zlength b1) b1 (Zlength header) message) as (b2 & E2 & L2 & T2); [lia|done|]. rewrite L1 in E2. rewrite E2. bind_simpl.
    assert (take (Z.to_nat (Z.min (Zlength (header ++ message)) (Zlength buf - 1))) b2 = take (Z.to_nat (Zlength buf - 1)) (header ++ message)) as T3.
    { rewrite Zlength_app, <- L1, T2, take_app. f_equal; [|f_equal; unfold Zlength in *; lia].
      replace (Z.to_nat (Zlength header)) with (Z.to_nat (Z.min (0 + Zlength header) (Zlength buf - 1))) by lia.
      rewrite T1. change (take (Z.to_nat 0) buf) with (@nil Byte.byte). cbn [app]. rewrite L1. f_equal. lia. }
    destruct (Hsplit b2 _ ltac:(congruence) T3) as [Hs Hr]. eexists _, _, _. split; [print_split Hs|]. split; [done|].
    split; [exact Hr|]. split; [by rewrite <- Hs, L2|]. by left.
  - assert (take (Z.to_nat (Z.min (Zlength (header ++ message)) (Zlength buf - 1))) b1 = take (Z.to_nat (Zlength buf - 1)) (header ++ message)) as T3.
    { rewrite Zlength_app, take_app_le by (unfold Zlength in *; lia).
      replace (Z.min (Zlength header + Zlength message) (Zlength buf - 1)) with (Z.min (0 + Zlength header) (Zlength buf - 1)) by lia.
      rewrite T1. change (take (Z.to_nat 0) buf) with (@nil Byte.byte). cbn [app]. f_equal. lia. }
    destruct (Hsplit b1 _ L1 T3) as [Hs Hr]. eexists _, _, _. split; [print_split Hs|]. split; [done|]. split; [exact Hr|].
    split; [by rewrite <- Hs|]. right. lia.
Qed.

Lemma needs_newline_ok line rest : needs_newline (line ++ rest) (Zlength line) = Some (negb (bool_decide (last line = Some newline))).
Proof.
  unfold needs_newline. destruct (Z.eqb_spec (Zlength line) 0) as [E|E].
  - destruct line; [done|]. rewrite Zlength_cons in E. pose proof (Zlength_nonneg line). lia.
  - destruct (exists_last (l := line)) as (l & c & ->); [by intros ->|]. rewrite Zlength_app in *. change (Zlength [c]) with 1 in *.
    replace (Z.to_nat (Zlength l + 1 - 1)) with (length l) by (unfold Zlength; lia). rewrite <- app_assoc. cbn [app]. rewrite list_lookup_middle by done. cbn [mbind option_bind].
    rewrite last_snoc. do 2 f_equal. apply bool_decide_ext. naive_solver.
Qed.

(** Both rounds: the text cut to the buffer less one byte is a line, or the text
    does not fit and the first buffer is given up. *)
Lemma Logv_round_ok iter buf header message : 0 < Zlength buf ->
  Logv_round iter buf header message =
    Some (if (Zlength buf <=? Zlength (header ++ message)) && (iter =? 0) then inl tt
          else inr (with_newline (take (Z.to_nat (Zlength buf - 1)) (header ++ message)))).
Proof.
  intros Hb. unfold Logv_round. destruct (print_ok buf header message Hb) as (line & rest & p & E & Hline & Hrest & HL & Hp).
  destruct (snprintf (Zlength buf) buf 0 header) as [[b1 n]|] eqn:E1; [|discriminate E]. cbn [mbind option_bind] in E. bind_simpl.
  assert (Hq : forall R : Z -> bytes -> option (unit + bytes), ('(b, q) ← (if n <? Zlength buf then '(b, k) ← snprintf (Zlength buf) b1 n message; Some (b, n + k) else Some (b1, n)); R q b) = R p (line ++ rest)).
  { intros R. by rewrite E. }
  rewrite (Hq (fun p buf0 => _)). clear Hq E E1.
  assert (Hfit : (Zlength buf <=? p) = (Zlength buf <=? Zlength (header ++ message))).
  { destruct Hp as [-> | [? ?]]; [done|]. by rewrite !(proj2 (Z.leb_le _ _)). }
  assert (Hq : (if Zlength buf <=? Zlength (header ++ message) then Zlength buf - 1 else p) = Zlength line).
  { subst line. destruct (Z.leb_spec (Zlength buf) (Zlength (header ++ message))); unfold Zlength in *; rewrite length_take; lia. }
  rewrite Hfit, Hq. destruct (_ && (iter =? 0)); [done|]. rewrite needs_newline_ok, <- Hline. bind_simpl. unfold with_newline. clear Hq Hfit Hp Hline.
  pose proof (Zlength_nonneg line). rewrite Zlength_app in HL.
  destruct rest as [|c rest]; [done|]. rewrite Zlength_cons in HL. pose proof (Zlength_nonneg rest).
  destruct (bool_decide _); cbn [negb]; bind_simpl.
  { rewrite (proj2 (Z.leb_le _ _)) by lia. by rewrite take_Zlength_app. }
  unfold set_byte. rewrite Zlength_app, Zlength_cons, (proj2 (Z.leb_le 0 _)), (proj2 (Z.ltb_lt _ _)) by lia. cbn [andb]. bind_simpl.
  rewrite (proj2 (Z.leb_le _ _)) by lia. do 2 f_equal. rewrite to_nat_Zlength, insert_app_r_alt, Nat.sub_diag by lia. cbn [insert list_insert].
  replace (Z.to_nat (Zlength line + 1)) with (length (line ++ [newline])) by (rewrite length_app; unfold Zlength; cbn [length]; lia).
  change (newline :: rest) with ([newline] ++ rest). by rewrite app_assoc, take_app_length.
Qed.

(** ** Properties *)

(** With its two buffers of 500 and 30000 bytes Logv always writes exactly one
    line: the header and the message, cut to 29999 bytes, with a newline added
    unless they end with one.  It never writes outside a buffer, and at most 30000
    bytes to the file. *)
Theorem Logv_line (buffer heap header message : bytes) :
  Zlength buffer = 500 -> Zlength heap = 30000 ->
  exists line, Logv buffer heap header message = Some (Some line) /\
    line = with_newline (take (Z.to_nat 29999) (header ++ message)) /\ last line = Some newline /\ Zlength line <= 30000.
Proof.
  intros H1 H2. eexists. split; [|split; [reflexivity|split]].
  - unfold Logv. rewrite (Logv_round_ok 0), H1 by lia. change (0 =? 0) with true. rewrite andb_true_r. bind_simpl.
    destruct (Z.leb_spec 500 (Zlength (header ++ message))).
    + rewrite (Logv_round_ok 1), H2 by lia. change (1 =? 0) with false. rewrite andb_false_r. bind_simpl. reflexivity.
    + do 2 f_equal. rewrite !take_ge by (unfold Zlength in *; lia). reflexivity.
  - unfold with_newline. case_bool_decide; [done|]. by rewrite last_snoc.
  - unfold with_newline. case_bool_decide; unfold Zlength; rewrite ?length_app, length_take; cbn [length]; lia.
Qed.

Lemma Logv_line_witness :
  let message := replicate 600 Byte.x6d in
  exists line, Logv (replicate 500 Byte.x00) (replicate (Z.to_nat 30000) Byte.x00) (str "2012/06/01 1 ") message = Some (Some line) /\
    line = str "2012/06/01 1 " ++ message ++ [newline].
Proof.
  cbv zeta. edestruct (Logv_line (replicate 500 Byte.x00) (replicate (Z.to_nat 30000) Byte.x00) (str "2012/06/01 1 ") (replicate 600 Byte.x6d))
    as (line & H1 & H2 & _ & _); [vm_compute; reflexivity..|]. exists line. split; [exact H1|]. rewrite H2. vm_compute. reflexivity.
Defined.
