(* ===== verification/Background.v ===== *)
(** db/db_impl.cpp, background work: [BackgroundCall], [BackgroundCompaction] with
    manual compactions, and [CleanupCompaction].

    The world [W] of CompactionWork.v and Flush.v also holds the members of the
    database ([BgOps]); what [LogAndApply] promises of them is [BgLaws], proved of
    the code in Manifest.v.  Condition variables, info logs and statistics are left
    out; [None] is a failed assertion. *)

From Stdlib Require Import ZArith Lia List Bool String Sorting.Sorted.
From S2P Require Import Prelude Lists Coding Slice Comparator Crc32c Bloom Filename Env DbFormat LogFile VersionEdit.
From S2P Require Import Arena SkipList MemTable WriteBatch Version VersionSet Manifest Snapshot CompactionWork Iterators InternalIters DbImpl Flush.

(** ** The interface *)

Class BgOps (W : Type) := {
  db : W -> DBImpl.t;
  set_db : DBImpl.t -> W -> W;
  input_iterator : Compaction -> W -> Status * list (bytes * bytes);   (* versions_->MakeInputIterator: its status and entries *)
  snapshots_ : W -> SnapshotList.t;
  release_inputs : Compaction -> W -> W;
  sleep : W -> W                                                       (* SleepForMicroseconds, without the mutex *)
}.

(** ** Manual compactions *)

(** [begin] points to [tmp_storage] once a part is done. *)
Record ManualCompaction := MkManual {
  m_level : nat;
  m_done : bool;
  m_begin : option InternalKey;
  m_end : option InternalKey;
  m_tmp_storage : InternalKey
}.

Definition with_done (m : ManualCompaction) (b : bool) : ManualCompaction :=
  MkManual (m_level m) b (m_begin m) (m_end m) (m_tmp_storage m).

Definition with_imm (d : DBImpl.t) (imm : option MemTable) : DBImpl.t :=
  DBImpl.Mk (DBImpl.mem_ d) imm (match imm with Some _ => true | None => false end) (DBImpl.log_ d) (DBImpl.logfile_number_ d) (DBImpl.writers_ d)
    (DBImpl.tmp_batch_ d) (DBImpl.shutting_down_ d) (DBImpl.bg_compaction_scheduled_ d) (DBImpl.manual_compaction_ d) (DBImpl.bg_error_ d) (DBImpl.versions_ d).

Definition with_manual (d : DBImpl.t) (b : bool) : DBImpl.t :=
  DBImpl.Mk (DBImpl.mem_ d) (DBImpl.imm_ d) (DBImpl.has_imm_ d) (DBImpl.log_ d) (DBImpl.logfile_number_ d) (DBImpl.writers_ d)
    (DBImpl.tmp_batch_ d) (DBImpl.shutting_down_ d) (DBImpl.bg_compaction_scheduled_ d) b (DBImpl.bg_error_ d) (DBImpl.versions_ d).

Definition with_bg_error (d : DBImpl.t) (s : Status) : DBImpl.t :=
  DBImpl.Mk (DBImpl.mem_ d) (DBImpl.imm_ d) (DBImpl.has_imm_ d) (DBImpl.log_ d) (DBImpl.logfile_number_ d) (DBImpl.writers_ d)
    (DBImpl.tmp_batch_ d) (DBImpl.shutting_down_ d) (DBImpl.bg_compaction_scheduled_ d) (DBImpl.manual_compaction_ d) s (DBImpl.versions_ d).

(** ** BackgroundCompaction *)

Section Background.
Context {W : Type} `{!World W} `{!FlushOps W} `{!BgOps W} (ucmp : Comparator) (dbname : bytes) (paranoid_checks : bool).

Definition CleanupCompaction (cs : CompactionState) (w : W) : W :=
  let w := if builder cs then builder_Abandon w else w in
  fold_left (fun w out => erase_output (out_number out) w) (outputs cs) w.

(** The compaction of a manual request, and [manual_end]. *)
Definition pick_manual (vs : VersionSet) (m : ManualCompaction) : option (option (VersionSet * Compaction) * ManualCompaction * InternalKey) :=
  c ← CompactRange ucmp vs (m_level m) (m_begin m) (m_end m);
  match c with
  | None => Some (None, with_done m true, InternalKey_DecodeFrom [])
  | Some (vs, c) => f ← last (inputs0_ c); Some (Some (vs, c), with_done m false, largest f)
  end.

(** The edit of a trivial move. *)
Definition trivial_move_edit (c : Compaction) (f : FileMetaData) : VersionEdit :=
  AddFile (DeleteFile (edit_ c) (Z.of_nat (level_ c)) (number f)) (Z.of_nat (level_ c + 1)) (number f) (file_size f) (smallest f) (largest f).

(** The branches over [c]. *)
Definition run_compaction (fuel : nat) (is_manual : bool) (c : option Compaction) (w : W) : option (Status * W) :=
  match c with
  | None => Some (Status_OK, w)
  | Some c =>
      if is_manual && IsTrivialMove c then
        f ← match inputs0_ c with [f] => Some f | _ => None end;
        let '(s, _, w) := LogAndApply (trivial_move_edit c f) w in Some (s, w)
      else
        let '(input_status, input) := input_iterator c w in
        '(s, cs, w) ← DoCompactionWork ucmp dbname fuel (snapshots_ w) (last_sequence_ (DBImpl.versions_ (db w))) input_status input (CompactionState_new c) w;
        Some (s, delete_obsolete (release_inputs c (CleanupCompaction cs w)))
  end.

(** [bg_error_] keeps the first error. *)
Definition note_error (s : Status) (w : W) : W :=
  if ok s then w
  else if DBImpl.shutting_down_ (db w) then w
  else if paranoid_checks && ok (DBImpl.bg_error_ (db w)) then set_db (with_bg_error (db w) s) w
  else w.

Definition finish_manual (s : Status) (m : ManualCompaction) (manual_end : InternalKey) : ManualCompaction :=
  let m := if ok s then m else with_done m true in
  if m_done m then m else MkManual (m_level m) (m_done m) (Some manual_end) (m_end m) manual_end.

(** [m] is what [manual_compaction_] points to. *)
Definition BackgroundCompaction (fuel : nat) (m : ManualCompaction) (w : W) : option (Status * ManualCompaction * W) :=
  let d := db w in
  match DBImpl.imm_ d with
  | Some _ =>
      '(s, imm, w) ← CompactMemTable ucmp dbname (DBImpl.imm_ d) (DBImpl.logfile_number_ d) (current_ (DBImpl.versions_ d)) w;
      Some (s, m, set_db (with_imm (db w) imm) w)
  | None =>
      let is_manual := DBImpl.manual_compaction_ d in
      '(c, m, manual_end) ← (if is_manual then pick_manual (DBImpl.versions_ d) m
                             else c ← PickCompaction ucmp (DBImpl.versions_ d); Some (c, m, InternalKey_DecodeFrom []));
      let w := match c with Some (vs, _) => set_db (DBImpl.with_versions d vs) w | None => w end in
      '(s, w) ← run_compaction fuel is_manual (snd <$> c) w;
      let w := note_error s w in
      if is_manual then Some (s, finish_manual s m manual_end, set_db (with_manual (db w) false) w) else Some (s, m, w)
  end.

Definition BackgroundCall (fuel : nat) (m : ManualCompaction) (w : W) : option (ManualCompaction * W) :=
  if negb (DBImpl.bg_compaction_scheduled_ (db w)) then None
  else
    '(m, w) ← (if DBImpl.shutting_down_ (db w) then Some (m, w)
               else
                 '(s, m, w) ← BackgroundCompaction fuel m w;
                 Some (m, if ok s then w else if DBImpl.shutting_down_ (db w) then w else sleep w));
    let w := set_db (DBImpl.with_scheduled (db w) false) w in
    Some (m, set_db (DBImpl.MaybeScheduleCompaction (db w)) w).

End Background.

(** ** Lemmas: moving a file *)

(** A file has one place. *)
Record one_place (v : Version) : Prop := {
  op_numbers l : NoDup (map number (level_files v l));
  op_place i j f g : f ∈ level_files v i -> g ∈ level_files v j -> number f = number g -> i = j
}.

Lemma one_place_eq v i j f g : one_place v -> f ∈ level_files v i -> g ∈ level_files v j -> number f = number g -> i = j /\ f = g.
Proof.
  intros H Hf Hg E. pose proof (op_place v H i j f g Hf Hg E) as <-. split; [done|]. eapply NoDup_number_inj; [apply (op_numbers v H i)|done..].
Qed.

Section Move.
Context (ucmp : Comparator) `{!ComparatorLaws ucmp any_key} (v : Version) (c : Compaction) (f : FileMetaData).
Context (HL : (S (level_ c) < num_levels)%nat) (Hdel : deleted_files_ (edit_ c) = []) (Hnew : new_files_ (edit_ c) = []).
Context (Hf : f ∈ level_files v (level_ c)) (Hone : one_place v).
Abbreviation icmp := (InternalKeyCompare ucmp).

Definition moved : Builder := fold_left (Apply ucmp) [trivial_move_edit c f] (Builder_new v).

Lemma trivial_move_lists : deleted_files_ (trivial_move_edit c f) = [(Z.of_nat (level_ c), number f)] /\
  exists n, new_files_ (trivial_move_edit c f) = [(Z.of_nat (S (level_ c)), n)] /\ Apply_file n = Apply_file f /\ number n = number f.
Proof.
  unfold trivial_move_edit. cbn. rewrite Hdel, Hnew. split; [done|]. eexists. split; [cbn [app]; by rewrite Nat.add_1_r|done].
Qed.

Lemma moved_numbers l : (l < num_levels)%nat -> forall n, n ∈ numbers (VersionSet.kept ucmp moved l) <->
  (n ∈ numbers (level_files v l) /\ ~ (l = level_ c /\ n = number f)) \/ (l = S (level_ c) /\ n = number f).
Proof.
  intros Hl n. destruct (Builder_level ucmp v [trivial_move_edit c f] l Hl) as (Hn & _). fold moved in Hn. rewrite Hn. clear Hn. cbn [fold_left]. unfold edit_numbers.
  destruct trivial_move_lists as (-> & m & -> & _ & Hm). rewrite !filter_cons, !filter_nil. cbn [fst]. rewrite !Nat2Z.id.
  destruct (decide (level_ c = l)), (decide (S (level_ c) = l)); cbn [map snd list_to_set]; rewrite ?elem_of_union, ?elem_of_difference, ?elem_of_numbers; set_solver.
Qed.

(** The file goes one level down, the others stay. *)
Lemma moved_files l g : (l < num_levels)%nat -> g ∈ VersionSet.kept ucmp moved l <->
  (g ∈ level_files v l /\ ~ (l = level_ c /\ g = f)) \/ (l = S (level_ c) /\ g = Apply_file f).
Proof.
  intros Hl. destruct (Builder_level ucmp v [trivial_move_edit c f] l Hl) as (_ & Hfrom & _). fold moved in Hfrom.
  assert (forall g, g ∈ VersionSet.kept ucmp moved l -> g ∈ level_files v l \/ (l = S (level_ c) /\ g = Apply_file f)) as Hin.
  { intros h [?|(e & n & ->%list_elem_of_singleton & Hn & El & ->)]%Hfrom; [auto|]. destruct trivial_move_lists as (_ & m & Em & Ea & _).
    rewrite Em in Hn. apply list_elem_of_singleton in Hn as ->. cbn [fst snd] in *. rewrite Nat2Z.id in El. auto. }
  assert (forall h, h ∈ VersionSet.kept ucmp moved l -> number h ∈ numbers (VersionSet.kept ucmp moved l)) as Hnum by (intros h ?; apply elem_of_numbers; eauto).
  split.
  - intros Hg. destruct (Hin g Hg) as [Hb|?]; [|auto]. left. split; [done|]. intros [-> ->].
    apply Hnum, moved_numbers in Hg as [[_ []]|[? _]]; [done|lia|done].
  - intros [[Hb Hne]|[-> ->]].
    + assert (number g ∈ numbers (VersionSet.kept ucmp moved l)) as Hn.
      { apply moved_numbers; [done|]. left. split; [apply elem_of_numbers; eauto|]. intros [-> E]. apply Hne.
        by destruct (one_place_eq v _ _ g f Hone Hb Hf E). }
      apply elem_of_numbers in Hn as (h & Hh & Eh). destruct (Hin h Hh) as [Hh'|[-> ->]].
      * by destruct (one_place_eq v _ _ h g Hone Hh' Hb Eh) as [_ <-].
      * destruct (one_place_eq v _ _ f g Hone Hf Hb Eh) as [? _]. lia.
    + assert (number f ∈ numbers (VersionSet.kept ucmp moved (S (level_ c)))) as Hn by (apply moved_numbers; auto).
      apply elem_of_numbers in Hn as (h & Hh & Eh). destruct (Hin h Hh) as [Hh'|[_ ->]]; [|done].
      destruct (one_place_eq v _ _ h f Hone Hh' Hf Eh). lia.
Qed.

Lemma moved_nodup l : (l < num_levels)%nat -> StronglySorted (by_smallest_le ucmp) (level_files v l) ->
  NoDup (map number (VersionSet.kept ucmp moved l)) /\ StronglySorted (by_smallest_le ucmp) (VersionSet.kept ucmp moved l).
Proof.
  intros Hl Hs. enough (saved ucmp (sources l v [trivial_move_edit c f]) (fold_left (edit_numbers l) [trivial_move_edit c f] (numbers (level_files v l)))
    (VersionSet.kept ucmp moved l)) as [H1 H2 _ _] by done.
  apply Builder_saved; [done|done|done|]. unfold sources. cbn [map concat]. rewrite app_nil_r, map_app, map_number_meta.
  unfold new_at. destruct trivial_move_lists as (_ & m & -> & _ & Hm). rewrite filter_cons, filter_nil. cbn [fst]. rewrite Nat2Z.id.
  destruct (decide (S (level_ c) = l)) as [<-|]; cbn [map snd]; [|rewrite app_nil_r; apply Hone].
  apply NoDup_app. split; [apply Hone|]. split; [|apply NoDup_singleton]. intros n Hn ->%list_elem_of_singleton.
  apply list_elem_of_fmap in Hn as (h & Eh & Hh). cbn in Eh. destruct (one_place_eq v _ _ h f Hone Hh Hf ltac:(congruence)). lia.
Qed.

End Move.

(** ** Lemmas: the order of a level *)

Section Apart.
Context (ucmp : Comparator) `{!ComparatorLaws ucmp any_key}.
Abbreviation icmp := (InternalKeyCompare ucmp).

(** One file lies before the other. *)
Definition apart (f g : FileMetaData) : Prop := icmp (rep_ (largest f)) (rep_ (smallest g)) < 0 \/ icmp (rep_ (largest g)) (rep_ (smallest f)) < 0.

Lemma apart_sym f g : apart f g -> apart g f.
Proof. unfold apart. tauto. Qed.

Lemma level_wf_apart l f g : level_wf ucmp l -> f ∈ l -> g ∈ l -> f <> g -> apart f g.
Proof.
  intros [_ Hs]. induction Hs as [|h l Hs IH Hh]; intros Hf Hg Hne; [by apply elem_of_nil in Hf|]. rewrite Forall_forall in Hh.
  apply elem_of_cons in Hf as [->|Hf], Hg as [->|Hg]; [done|left; by apply Hh|right; by apply Hh|auto].
Qed.

(** A file in front by its smallest key is in front altogether. *)
Lemma apart_ordered f g : file_wf ucmp f -> file_wf ucmp g -> by_smallest_le ucmp f g -> apart f g -> icmp (rep_ (largest f)) (rep_ (smallest g)) < 0.
Proof.
  intros (_ & _ & H1) (_ & _ & H2) Hle [?|Hlt]; [done|]. apply by_smallest_le_spec in Hle; [|done].
  assert (icmp (rep_ (smallest g)) (rep_ (smallest f)) < 0) as H3 by (apply (to_le_lt_trans icmp any_key _ (rep_ (largest g))); done).
  pose proof (to_sgn (cmp := icmp) (valid := any_key) (rep_ (smallest f)) (rep_ (smallest g)) I I). lia.
Qed.

Lemma apart_level_wf l : Forall (file_wf ucmp) l -> StronglySorted (by_smallest_le ucmp) l -> NoDup l ->
  (forall f g, f ∈ l -> g ∈ l -> f <> g -> apart f g) -> level_wf ucmp l.
Proof.
  intros Hw Hs Hn Ha. split; [done|]. induction Hs as [|f l Hs IH Hle]; constructor; apply NoDup_cons in Hn as [Hnf Hn]; apply Forall_cons in Hw as [Hf Hw].
  - apply IH; try done. intros g h ? ?. apply Ha; by right.
  - rewrite Forall_forall in *. intros g Hg. apply apart_ordered; auto. apply Ha; [left|by right|]. intros <-. done.
Qed.

Lemma level_wf_by_smallest l : level_wf ucmp l -> StronglySorted (by_smallest_le ucmp) l.
Proof.
  intros [Hw Hs]. induction Hs as [|f l Hs IH Hle]; constructor; apply Forall_cons in Hw as [Hf Hw]; [auto|].
  rewrite Forall_forall in *. intros g Hg. apply by_smallest_le_spec; [done|]. left. destruct Hf as (_ & _ & Hf).
  apply (to_le_lt_trans icmp any_key _ (rep_ (largest f))); try done. by apply Hle.
Qed.

Lemma level_wf_no_overlap l : level_wf ucmp l -> no_overlap ucmp l = true.
Proof.
  intros [_ Hs]. induction Hs as [|f l Hs IH Hle]; [done|]. destruct l as [|g l]; [done|]. cbn [no_overlap]. apply andb_true_iff. split; [|exact IH].
  rewrite Forall_forall in Hle. rewrite Z.geb_leb, negb_true_iff. apply Z.leb_gt, Hle. left.
Qed.

(** A file outside the range of [f] is apart from it. *)
Lemma not_meeting_apart f g : ~ in_range ucmp (Some (InternalKey_user_key (smallest f))) (Some (InternalKey_user_key (largest f))) g -> apart f g.
Proof.
  intros Hout. unfold in_range in Hout. cbn [before_range after_range] in Hout.
  destruct (Compare ucmp (InternalKey_user_key (largest g)) (InternalKey_user_key (smallest f)) <? 0) eqn:E1.
  - right. apply Z.ltb_lt in E1. apply icmp_lt; [done|]. by left.
  - destruct (Compare ucmp (InternalKey_user_key (smallest g)) (InternalKey_user_key (largest f)) >? 0) eqn:E2; [|naive_solver].
    left. apply icmp_lt; [done|]. left. pose proof (ucmp_sgn ucmp (InternalKey_user_key (smallest g)) (InternalKey_user_key (largest f))). rewrite Z.gtb_ltb, Z.ltb_lt in E2.
    change (Compare ucmp (InternalKey_user_key (largest f)) (InternalKey_user_key (smallest g)) < 0). lia.
Qed.

End Apart.

(** ** Lemmas: reads after a move *)

Section MoveReads.
Context (ucmp : Comparator) `{!ComparatorLaws ucmp any_key} (table_get : FileMetaData -> bytes -> Status * option (bytes * bytes)) (ents : FileMetaData -> list mem_entry).

(** The builder's copy of a file's metadata names the same table. *)
Definition same_table (f : FileMetaData) : Prop := ents (Apply_file f) = ents f /\ table_get (Apply_file f) = table_get f.

(** What makes the move right: [f] has no older data of its keys beside it, and
    nothing that it meets below. *)
Record may_move (v : Version) (level : nat) (f : FileMetaData) : Prop := {
  mm_level : (S level < num_levels)%nat;
  mm_file : f ∈ level_files v level;
  mm_wf : file_wf ucmp f;
  mm_place : one_place v;
  mm_table : same_table f;
  mm_below : meeting ucmp v (S level) (smallest f) (largest f) = [];
  mm_level0 : StronglySorted (by_smallest_le ucmp) (level_files v 0);
  mm_size : Zlength (level_files v (S level)) + 1 < 2 ^ 31
}.

Context (v : Version) (c : Compaction) (f : FileMetaData).
Context (Hv : version_ok ucmp table_get ents v) (Hm : may_move v (level_ c) f) (Hdel : deleted_files_ (edit_ c) = []) (Hnew : new_files_ (edit_ c) = []).
Abbreviation b := (moved ucmp v c f).

Local Lemma base_level_sorted l : StronglySorted (by_smallest_le ucmp) (level_files v l).
Proof. destruct l as [|l]; [apply Hm|]. apply level_wf_by_smallest; [done|]. apply (vo_sorted _ _ _ _ Hv). lia. Qed.

Local Lemma moved_elem l g : (l < num_levels)%nat -> g ∈ VersionSet.kept ucmp b l <->
  (g ∈ level_files v l /\ ~ (l = level_ c /\ g = f)) \/ (l = S (level_ c) /\ g = Apply_file f).
Proof. destruct Hm. by apply moved_files. Qed.

Local Lemma moved_sorted l : (l < num_levels)%nat -> NoDup (map number (VersionSet.kept ucmp b l)) /\ StronglySorted (by_smallest_le ucmp) (VersionSet.kept ucmp b l).
Proof. intros Hl. destruct Hm. apply moved_nodup; try done. apply base_level_sorted. Qed.

Lemma moved_level_wf l : (0 < l < num_levels)%nat -> level_wf ucmp (VersionSet.kept ucmp b l).
Proof.
  intros [Hl0 Hl]. destruct (vo_sorted _ _ _ _ Hv l Hl0) as [Hwf _]. destruct (moved_sorted l Hl) as [Hn Hs].
  assert (forall h, h ∈ level_files v (S (level_ c)) -> apart ucmp f h) as Hfar.
  { intros h Hh. apply not_meeting_apart; [done|]. intros Hr. apply (not_elem_of_nil h). rewrite <- (mm_below _ _ _ Hm). by apply list_elem_of_filter. }
  apply apart_level_wf; [done| |done|by apply (NoDup_fmap_1 number)|].
  - apply Forall_forall. intros g [[Hg _]|[_ ->]]%moved_elem; [|apply Hm|done]. destruct Hwf as [Hw _]. rewrite Forall_forall in Hw. auto.
  - intros g h [[Hg _]|[-> ->]]%moved_elem [[Hh _]|[El ->]]%moved_elem Hne; try done.
    + by apply (level_wf_apart ucmp (level_files v l)).
    + subst l. apply apart_sym. by apply Hfar.
    + by apply Hfar.
Qed.

Lemma moved_length l : (l < num_levels)%nat -> Zlength (VersionSet.kept ucmp b l) <= Zlength (level_files v l) + (if decide (l = S (level_ c)) then 1 else 0).
Proof.
  intros Hl. destruct (moved_sorted l Hl) as [Hn _]. apply (NoDup_fmap_1 number) in Hn. unfold Zlength.
  destruct (decide (l = S (level_ c))) as [->|Hne].
  - enough (length (VersionSet.kept ucmp b (S (level_ c))) <= length (Apply_file f :: level_files v (S (level_ c))))%nat as H by (cbn [length] in H; lia).
    apply submseteq_length, NoDup_submseteq; [done|]. intros g [[? _]|[_ ->]]%moved_elem; [by right|left|done].
  - enough (length (VersionSet.kept ucmp b l) <= length (level_files v l))%nat by lia.
    apply submseteq_length, NoDup_submseteq; [done|]. intros g [[? _]|[? _]]%moved_elem; done.
Qed.

(** The builder saves the version, it is lawful, and it holds the same entries. *)
Definition moved_version : Version := MkVersion (map (VersionSet.kept ucmp b) (seq 0 num_levels)) None (-1) (double_of_int (-1)) (-1).

Lemma moved_saved : SaveTo ucmp (Apply ucmp (Builder_new v) (trivial_move_edit c f)) = Some moved_version.
Proof.
  change (Apply ucmp (Builder_new v) (trivial_move_edit c f)) with b. apply SaveTo_iff. split; [done|]. intros [|l] Hl; [by left|right].
  apply level_wf_no_overlap, moved_level_wf. lia.
Qed.

Lemma moved_version_elem l g : g ∈ level_files moved_version l <-> (l < num_levels)%nat /\ g ∈ VersionSet.kept ucmp b l.
Proof.
  destruct (decide (l < num_levels)%nat) as [Hl|Hl]; [unfold moved_version; rewrite level_files_map by done; naive_solver|].
  unfold level_files, moved_version. cbn [files_]. rewrite nth_lookup, list_lookup_fmap, lookup_seq_ge by lia. cbn. split; [by intros ?%elem_of_nil|naive_solver].
Qed.

(** A file of the new version is a file of the old one or the copy. *)
Local Lemma moved_from l g : g ∈ level_files moved_version l -> (l < num_levels)%nat /\ ((g ∈ level_files v l /\ ~ (l = level_ c /\ g = f)) \/ (l = S (level_ c) /\ g = Apply_file f)).
Proof. intros [Hl Hg]%moved_version_elem. split; [done|]. by apply moved_elem. Qed.

Local Lemma moved_ents l g e : g ∈ level_files moved_version l -> e ∈ ents g -> exists l' g', (l' < num_levels)%nat /\ g' ∈ level_files v l' /\ e ∈ ents g'.
Proof.
  intros [Hl [[Hg _]|[-> ->]]]%moved_from He; [by exists l, g|]. destruct Hm. exists (level_ c), f. destruct mm_table0 as [<- _]. split_and!; [lia|done..].
Qed.

Lemma moved_entries e : e ∈ version_entries ents moved_version <-> e ∈ version_entries ents v.
Proof.
  rewrite !elem_of_version_entries. setoid_rewrite elem_of_seq. change (Z.to_nat config.kNumLevels) with num_levels. split.
  - intros (l & g & Hl & Hg & He). destruct (moved_ents l g e Hg He) as (l' & g' & ? & ? & ?). exists l', g'. split_and!; [lia..|done|done].
  - intros (l & g & Hl & Hg & He). destruct (decide (l = level_ c /\ g = f)) as [[-> ->]|Hne].
    + destruct Hm. exists (S (level_ c)), (Apply_file f). destruct mm_table0 as [-> _]. split_and!; [lia..| |done]. apply moved_version_elem. split; [done|]. apply moved_elem; auto.
    + exists l, g. split_and!; [lia..| |done]. apply moved_version_elem. split; [lia|]. apply moved_elem; [lia|auto].
Qed.
Context (Halone : forall g, g ∈ level_files v (level_ c) -> g <> f -> newer ents g f).

Lemma moved_newer i j g h : (i < j)%nat -> g ∈ level_files moved_version i -> h ∈ level_files moved_version j -> newer ents g h.
Proof.
  intros Hij [_ Hg]%moved_from [_ Hh]%moved_from. destruct Hm, mm_table0 as [Et _]. unfold newer.
  destruct Hg as [[Hg Hne]|[-> ->]], Hh as [[Hh Hne']|[-> ->]]; rewrite ?Et; [by apply (vo_levels _ _ _ _ Hv i j)| | |lia].
  - destruct (decide (i = level_ c)) as [->|]; [apply Halone; [done|]; intros ->; auto|]. apply (vo_levels _ _ _ _ Hv i (level_ c)); [lia|done..].
  - apply (vo_levels _ _ _ _ Hv (level_ c) j); [lia|done..].
Qed.

Lemma moved_version_ok : version_ok ucmp table_get ents moved_version.
Proof.
  destruct (moved_sorted 0) as [Hn0 _]; [vm_compute; lia|]. split.
  - intros l g [_ [[Hg _]|[-> ->]]]%moved_from; [by apply (vo_tables _ _ _ _ Hv l)|]. destruct Hm, mm_table0 as [E1 E2].
    destruct (vo_tables _ _ _ _ Hv (level_ c) f mm_file0) as [T1 T2 T3 T4 T5]. split; rewrite ?E1, ?E2; done.
  - intros e q (l & g & Hg & He) (l' & h & Hh & Hq). destruct (moved_ents l g e Hg He) as (k & g' & _ & ? & ?). destruct (moved_ents l' h q Hh Hq) as (k' & h' & _ & ? & ?).
    apply (vo_unique _ _ _ _ Hv); [by exists k, g'|by exists k', h'].
  - unfold moved_version. rewrite level_files_map by (vm_compute; lia). done.
  - intros g h [_ [[Hg _]|[? _]]]%moved_from [_ [[Hh _]|[? _]]]%moved_from; [|lia..]. by apply (vo_level0 _ _ _ _ Hv).
  - intros l Hl0. destruct (decide (l < num_levels)%nat) as [Hl|Hl].
    + unfold moved_version. rewrite level_files_map by done. split; [apply moved_level_wf; lia|]. pose proof (moved_length l Hl).
      destruct (vo_sorted _ _ _ _ Hv l Hl0). destruct Hm. destruct (decide (l = S (level_ c))) as [->|]; lia.
    + assert (level_files moved_version l = []) as ->; [|repeat split; constructor]. apply elem_of_nil_inv. intros g [? _]%moved_version_elem. done.
  - apply moved_newer.
Qed.

End MoveReads.

(** Only the files of the levels count. *)
Lemma version_ok_ext ucmp table_get ents v v' : (forall l, level_files v' l = level_files v l) -> version_ok ucmp table_get ents v -> version_ok ucmp table_get ents v'.
Proof. intros E [H1 H2 H3 H4 H5 H6]. split; unfold unique_seqs in *; setoid_rewrite E; done. Qed.

Lemma newest_ext ucmp `{!ComparatorLaws ucmp any_key} table_get ents v v' u s : version_ok ucmp table_get ents v -> seq_ok s ->
  (forall e, e ∈ version_entries ents v' <-> e ∈ version_entries ents v) -> newest (version_entries ents v') u s = newest (version_entries ents v) u s.
Proof.
  intros Hv Hs E.
  assert (StronglySorted lt (seq 0 (Z.to_nat config.kNumLevels))) as Hsort by (repeat constructor; lia).
  destruct (Get_levels_ok ucmp table_get ents v _ u s [] (MkLocals None (MkGetStats None (-1))) Hv Hs Hsort) as (r & stats & _ & Hr).
  transitivity r; [|symmetry]; apply (is_newest_newest ucmp); (eapply is_newest_ext; [|exact Hr]); intros e; by rewrite ?E, elem_of_version_entries.
Qed.

(** ** Lemmas: the compaction of a manual request *)

(** What [LogAndApply] does to the members. *)
Class BgLaws (W : Type) `{!World W} `{!BgOps W} (ucmp : Comparator) : Prop := {
  bg_set d (w : W) : db (set_db d w) = d;
  bg_apply e (w : W) : let '(s, _, w') := LogAndApply e w in
    if ok s then exists v, SaveTo ucmp (Apply ucmp (Builder_new (current_ (DBImpl.versions_ (db w)))) e) = Some v /\ current_ (DBImpl.versions_ (db w')) = Finalize v
    else current_ (DBImpl.versions_ (db w')) = current_ (DBImpl.versions_ (db w))
}.

Lemma limit_inputs_sub limit total fs : limit_inputs limit total fs ⊆ fs.
Proof.
  revert total. induction fs as [|f fs IH]; intros total; cbn [limit_inputs]; [done|]. destruct (_ <=? _); [set_solver|]. specialize (IH (u64 (total + file_size f))). set_solver.
Qed.

Lemma limit_inputs_nil limit total fs : limit_inputs limit total fs = [] -> fs = [].
Proof. destruct fs; cbn [limit_inputs]; [done|]. by destruct (_ <=? _). Qed.

Lemma CompactRange_trivial (ucmp : Comparator) `{!ComparatorLaws ucmp any_key} vs level begin end_ vs' c :
  CompactRange ucmp vs level begin end_ = Some (Some (vs', c)) -> IsTrivialMove c = true ->
  Forall (file_wf ucmp) (level_files (current_ vs) level) -> (level < length (compact_pointer_ vs))%nat ->
  exists f, inputs0_ c = [f] /\ level_ c = level /\ f ∈ level_files (current_ vs) level /\
    meeting ucmp (current_ vs) (S level) (smallest f) (largest f) = [] /\
    edit_ c = SetCompactPointer VersionEdit_new (Z.of_nat level) (largest f) /\ current_ vs' = current_ vs.
Proof.
  intros Hc Ht Hw Hl. unfold CompactRange in Hc. destruct (GetOverlappingInputs_ok ucmp (current_ vs) level begin end_) as (b & e & Eo & _).
  rewrite Eo in Hc. set (inputs := base.filter _ _) in *. cbn [mbind option_bind] in Hc.
  assert (inputs ⊆ level_files (current_ vs) level) as Hsub by (intros g [_ Hg]%list_elem_of_filter; done).
  destruct inputs as [|f0 inputs]; [done|]. set (chosen := limit_inputs _ 0 (f0 :: inputs)) in *.
  pose proof (limit_inputs_sub (MaxFileSizeForLevel level) 0 (f0 :: inputs)) as Hlim. fold chosen in Hlim.
  destruct (SetupOtherInputs_ok ucmp vs (Compaction_new level (current_ vs) chosen)) as (vs1 & c1 & lo & hi & alo & ahi & Es & Hok & _ & _ & _ & Hcur & Hlev & Hed).
  - intros E%limit_inputs_nil. done.
  - cbn [inputs0_ Compaction_new level_]. set_solver.
  - cbn [inputs0_ Compaction_new]. rewrite Forall_forall in Hw |- *. intros g Hg. apply Hw. set_solver.
  - done.
  - rewrite Es in Hc. cbn [mbind option_bind] in Hc. injection Hc as <- <-. unfold IsTrivialMove in Ht.
    apply andb_true_iff in Ht as [[H0%Nat.eqb_eq H1%Nat.eqb_eq]%andb_true_iff _]. destruct (inputs0_ c1) as [|f [|? ?]] eqn:E0; [done| |done].
    destruct Hok as (_ & Hin & Hr & Hmeet). cbn [level_ Compaction_new edit_] in *. injection Hr as <- <-.
    exists f. split_and!; try done; [apply Hin; set_solver|]. destruct (inputs1_ c1); [congruence|done].
Qed.

(** ** A concrete world *)

Definition BgMem : Type := DBImpl.t * MemWorld.

#[global] Instance BgMem_world : World BgMem := {
  shutting_down_ w := (DBImpl.shutting_down_ w.1, w);
  compact_imm w := w;
  new_output_number w := let '(n, m) := new_output_number w.2 in (n, (w.1, m));
  NewWritableFile f w := let '(s, m) := NewWritableFile f w.2 in (s, (w.1, m));
  new_builder w := (w.1, new_builder w.2);
  builder_Add k v w := (w.1, builder_Add k v w.2);
  builder_NumEntries w := builder_NumEntries w.2;
  builder_FileSize w := builder_FileSize w.2;
  builder_Finish w := let '(s, m) := builder_Finish w.2 in (s, (w.1, m));
  builder_Abandon w := w;
  outfile_Sync w := (Status_OK, w);
  outfile_Close w := (Status_OK, w);
  verify_table _ _ w := (Status_OK, w);
  LogAndApply e w :=
    match build_version BytewiseComparator (DBImpl.versions_ w.1) e with
    | Some (vs, v) => (Status_OK, e, (DBImpl.with_versions w.1 (install vs e v), w.2))
    | None => (Status_IOError (str "MANIFEST") [], e, w)
    end
}.

#[global] Instance BgMem_flush : FlushOps BgMem := {
  delete_file f w := let '(s, m) := delete_file f w.2 in (s, (w.1, m));
  erase_output _ w := w;
  delete_obsolete w := w
}.

#[global] Instance BgMem_bg : BgOps BgMem := {
  db w := w.1;
  set_db d w := (d, w.2);
  input_iterator _ _ := (Status_OK, []);
  snapshots_ _ := SnapshotList.new 0;
  release_inputs _ w := w;
  sleep w := w
}.

Lemma BgMem_laws : BgLaws BgMem BytewiseComparator.
Proof.
  split; [done|]. intros e [d m]. cbn [LogAndApply BgMem_world db BgMem_bg fst snd]. unfold build_version.
  destruct (SaveTo _ _) as [v|]; bind_simpl; cbn [ok Status_OK]; [|done]. by exists v.
Qed.

(** A database without memtable entries, a manual request pending, and [v]. *)
Definition bg_sample (v : Version) : BgMem :=
  (DBImpl.Mk (MemTable_new (H := BumpHeap)) None false (Writer_new (C := ReferenceChecksum) 0 (str "log")) 3 [] WriteBatch_new false true true Status_OK
     (MkVersionSet 12 1 20 3 0 (replicate num_levels []) v), MkMemWorld [] [] ∅ 12 []).

(** ** Properties *)

(** C26: A manual compaction of one file that meets nothing on the next level moves
    the file: when the edit is logged the file is one level down and every other
    file where it was, and the request goes on after the file; on an error the
    version stays and the request is done.  If no other file of the level has older
    data of the file's keys, the new version is as lawful as the old one and answers
    every read alike.  This condition is needed: on level 0, where files overlap, it
    can fail, because [CompactRange] cuts the files it has collected at a total size,
    and then the move makes a read stale ([level0_move_is_stale]). *)
Theorem BackgroundCompaction_moves {W : Type} (WO : World W) (FO : FlushOps W) (BO : BgOps W) (ucmp : Comparator) (CL : ComparatorLaws ucmp any_key)
    (BL : BgLaws W ucmp) (table_get : FileMetaData -> bytes -> Status * option (bytes * bytes)) (ents : FileMetaData -> list mem_entry)
    (dbname : bytes) (paranoid : bool) (fuel : nat) (m : ManualCompaction) (w : W) (vs : VersionSet) (c : Compaction) :
  let d := db w in let v := current_ (DBImpl.versions_ d) in let level := m_level m in
  DBImpl.imm_ d = None -> DBImpl.manual_compaction_ d = true ->
  CompactRange ucmp (DBImpl.versions_ d) level (m_begin m) (m_end m) = Some (Some (vs, c)) -> IsTrivialMove c = true ->
  version_ok ucmp table_get ents v -> Forall (file_wf ucmp) (level_files v level) -> (level < length (compact_pointer_ (DBImpl.versions_ d)))%nat ->
  one_place v -> StronglySorted (by_smallest_le ucmp) (level_files v 0) ->
  (S level < num_levels)%nat -> Zlength (level_files v (S level)) + 1 < 2 ^ 31 -> (forall f, same_table table_get ents f) ->
  exists f s m' w', inputs0_ c = [f] /\ BackgroundCompaction ucmp dbname paranoid fuel m w = Some (s, m', w') /\
    DBImpl.manual_compaction_ (db w') = false /\
    let v' := current_ (DBImpl.versions_ (db w')) in
    if ok s then
      (forall l g, (l < num_levels)%nat -> g ∈ level_files v' l <->
         (g ∈ level_files v l /\ ~ (l = level /\ g = f)) \/ (l = S level /\ g = Apply_file f)) /\
      m' = MkManual level false (Some (largest f)) (m_end m) (largest f) /\
      ((forall g, g ∈ level_files v level -> g <> f -> newer ents g f) -> version_ok ucmp table_get ents v' /\
       forall u seq value, seq_ok seq -> exists status answer stats stats',
         Version_Get ucmp table_get v' (LookupKey_new u seq) value = Some (status, answer, stats') /\
         Version_Get ucmp table_get v (LookupKey_new u seq) value = Some (status, answer, stats))
    else v' = v /\ m_done m' = true.
Proof.
  intros d v level Himm Hman Hc Ht Hv Hw Hl Hone H0 HL Hsize Htab.
  destruct (CompactRange_trivial ucmp _ _ _ _ vs c Hc Ht Hw Hl) as (f & Ein & Elev & Hf & Hmeet & Hed & Hcur). fold v level in Hf, Hmeet, Elev.
  assert (may_move ucmp table_get ents v (level_ c) f) as Hm.
  { rewrite Elev. split; try done. rewrite Forall_forall in Hw. by apply Hw. }
  unfold BackgroundCompaction. fold d. rewrite Himm, Hman. unfold pick_manual. fold level. rewrite Hc. bind_simpl. rewrite Ein. cbn [last]. bind_simpl.
  unfold run_compaction. cbn [fmap option_fmap option_map snd]. rewrite Ht, Ein. cbn [andb]. bind_simpl.
  set (w1 := set_db (DBImpl.with_versions d vs) w).
  assert (current_ (DBImpl.versions_ (db w1)) = v) as Ecur by (subst w1; rewrite bg_set; exact Hcur).
  pose proof (bg_apply (trivial_move_edit c f) w1) as Ha. rewrite Ecur in Ha. destruct (LogAndApply (trivial_move_edit c f) w1) as [[s e'] w2]. bind_simpl.
  assert (current_ (DBImpl.versions_ (db (note_error paranoid s w2))) = current_ (DBImpl.versions_ (db w2))) as En.
  { unfold note_error. repeat case_match; try done. by rewrite bg_set. }
  exists f. eexists s, _, _. split; [done|]. split; [reflexivity|]. rewrite bg_set. cbn [DBImpl.manual_compaction_ DBImpl.versions_ with_manual]. split; [done|].
  rewrite En. unfold finish_manual. destruct (ok s); [|by split].
  assert (deleted_files_ (edit_ c) = [] /\ new_files_ (edit_ c) = []) as [Hdel Hnew] by (by rewrite Hed).
  destruct Ha as (v' & Esave & ->). rewrite (moved_saved ucmp table_get ents v c f) in Esave by done. injection Esave as <-.
  assert (forall l, level_files (Finalize (moved_version ucmp v c f)) l = level_files (moved_version ucmp v c f) l) as Efin by (intros; apply Finalize_files).
  split_and!; [|done|].
  - intros l g Hlt. rewrite Efin, moved_version_elem, (moved_elem ucmp table_get ents), <- Elev by done. tauto.
  - intros Halone. assert (version_ok ucmp table_get ents (Finalize (moved_version ucmp v c f))) as Hv'.
    { apply (version_ok_ext _ _ _ _ _ Efin). apply moved_version_ok; try done. by rewrite Elev. }
    split; [done|]. intros u seq value Hs. destruct (Version_Get_ok ucmp table_get ents _ u seq value Hv' Hs) as (st' & E').
    destruct (Version_Get_ok ucmp table_get ents _ u seq value Hv Hs) as (st & E). rewrite (newest_ext ucmp table_get ents v) in E'; [|done..|].
    + eexists _, _, st, st'. by split.
    + intros e. rewrite <- (moved_entries ucmp table_get ents v c f) by done. rewrite !elem_of_version_entries. by setoid_rewrite Efin.
Qed.

(** The request for all of level 1 of the sample version. *)
Definition bg_request : ManualCompaction := MkManual 1 false None None (InternalKey_DecodeFrom []).

Lemma BackgroundCompaction_moves_witness :
  exists f s m' w', BackgroundCompaction BytewiseComparator (str "d") false 0 bg_request (bg_sample sample_version) = Some (s, m', w') /\ number f = 4 /\
    f ∈ level_files sample_version 1 /\ (ok s = true -> Apply_file f ∈ level_files (current_ (DBImpl.versions_ (db w'))) 2 /\
      version_ok BytewiseComparator sample_get sample_entries (current_ (DBImpl.versions_ (db w')))).
Proof.
  assert (match CompactRange BytewiseComparator (DBImpl.versions_ (db (bg_sample sample_version))) 1 None None with
    | Some (Some (_, c)) => IsTrivialMove c | _ => false end = true) as Hrun by (vm_compute; reflexivity).
  destruct (CompactRange _ _ _ _ _) as [[[vs c]|]|] eqn:Hc; [|discriminate..].
  assert (Forall (file_wf BytewiseComparator) (level_files sample_version 1)) as Hw by (repeat constructor; [by eexists|by eexists|vm_compute; congruence]).
  destruct (CompactRange_trivial BytewiseComparator _ _ _ _ vs c Hc Hrun Hw) as (f & Hin & _ & Hf & _); [vm_compute; lia|].
  destruct (BackgroundCompaction_moves BgMem_world BgMem_flush BgMem_bg BytewiseComparator _ BgMem_laws sample_get sample_entries (str "d") false 0 bg_request
    (bg_sample sample_version) vs c eq_refl eq_refl Hc Hrun sample_version_ok Hw) as (g & s & m' & w' & Ein & E & _ & Hok).
  - vm_compute. lia.
  - split.
    + intros [|[|[|l]]]; repeat (constructor || (cbn; by intros ?%elem_of_nil)).
    + intros i j h k [[-> ->]|[-> ->]]%sample_levels [[-> ->]|[-> ->]]%sample_levels; cbn; congruence.
  - repeat constructor.
  - vm_compute. lia.
  - reflexivity.
  - intros h. by split.
  - rewrite Hin in Ein. injection Ein as <-. exists f, s, m', w'. split_and!; [exact E| |exact Hf|].
    + apply sample_levels in Hf as [[? _]|[_ ->]]; [discriminate|reflexivity].
    + intros Hs. rewrite Hs in Hok. destruct Hok as (Hmove & _ & Hread). split; [apply Hmove; [vm_compute; lia|]; right; split; reflexivity|].
      apply Hread. intros k [[? _]|[_ ->]]%sample_levels Hne; [done|]. by apply sample_levels in Hf as [[? _]|[_ ->]].
Defined.

(** On level 0 the condition can fail: [CompactRange] cuts the files it has
    collected at a total size, without regard to their overlap. *)
Definition stale_file (num seq : Z) : FileMetaData := FileMetaData_new num 4194304 (key_at "a" seq) (key_at "a" seq).

Definition stale_version : Version := MkVersion [[stale_file 9 9; stale_file 7 3]] None (-1) (double_of_int 0) 0.

Definition stale_get (f : FileMetaData) (k : bytes) : Status * option (bytes * bytes) :=
  let key := AppendInternalKey [] (MkParsedInternalKey (str "a") (if number f =? 9 then 9 else 3) kTypeValue) in
  (Status_OK, if InternalKeyCompare BytewiseComparator key k >=? 0 then Some (key, if number f =? 9 then str "new" else str "old") else None).

Definition stale_read (v : Version) : option bytes :=
  '(_, value, _) ← Version_Get BytewiseComparator stale_get v (LookupKey_new (str "a") 20) []; Some value.

Lemma level0_move_is_stale :
  stale_read stale_version = Some (str "new") /\
  ('(_, _, w) ← BackgroundCompaction BytewiseComparator (str "d") false 0 (MkManual 0 false None None (InternalKey_DecodeFrom [])) (bg_sample stale_version);
   stale_read (current_ (DBImpl.versions_ (db w)))) = Some (str "old").
Proof. split; vm_compute; reflexivity. Qed.
