(* ===== verification/DbOpen.v ===== *)
(** db/db_impl.cpp, a database as a whole: the constructor, [DB::Open],
    [GetSnapshot] and [ReleaseSnapshot].

    [Recover] is the one of Recover.v; the members of the database are in the world
    as in Background.v; a new number and a new log file are [OpenOps]. *)

From Stdlib Require Import ZArith Lia List Bool String Sorting.Sorted.
From stdpp Require Import sorting.
From S2P Require Import Prelude Lists Coding Slice Comparator Crc32c Bloom Filename Env DbFormat LogFile.
From S2P Require Import Arena SkipList MemTable WriteBatch VersionEdit Version VersionSet Snapshot CompactionWork.
From S2P Require Import Options Iterators InternalIters Manifest DbImpl DbWrite Flush Recover Background.
Import WriteBatchInternal.

(** ** The constructor *)

(** [log_] is NULL at first: [log] stands for it until [Open] sets it. *)
Definition DBImpl_new `{HA : HeapAlloc} (log : LogFile.Writer bytes) (garbage : Z) : DBImpl.t :=
  DBImpl.Mk (Ref MemTable_new) None false log 0 [] WriteBatch_new false false false Status_OK (VersionSet_new garbage).

(** The capacity of the table cache, an [int], from the options as they were given. *)
Definition table_cache_size (options : Options) : Z := max_open_files options - 10.

(** ** Snapshots *)

Definition DB_GetSnapshot (d : DBImpl.t) (snapshots : SnapshotList.t) : option (nat * SnapshotList.t) :=
  SnapshotList.New snapshots (last_sequence_ (DBImpl.versions_ d)).

Definition DB_ReleaseSnapshot (snapshots : SnapshotList.t) (s : nat) : option SnapshotList.t := SnapshotList.Delete snapshots s.

(** ** DB::Open *)

Class OpenOps (W : Type) := {
  new_file_number : W -> Z * W;            (* versions_->NewFileNumber *)
  new_log_file : bytes -> W -> Status * W; (* env->NewWritableFile *)
  delete_impl : W -> W                     (* delete impl *)
}.

Definition with_logfile (d : DBImpl.t) (log : LogFile.Writer bytes) (number : Z) : DBImpl.t :=
  DBImpl.Mk (DBImpl.mem_ d) (DBImpl.imm_ d) (DBImpl.has_imm_ d) log number (DBImpl.writers_ d)
    (DBImpl.tmp_batch_ d) (DBImpl.shutting_down_ d) (DBImpl.bg_compaction_scheduled_ d) (DBImpl.manual_compaction_ d) (DBImpl.bg_error_ d) (DBImpl.versions_ d).

Section Open.
Context {W : Type} `{!World W} `{!FlushOps W} `{!RecoverOps W} `{!BgOps W} `{!OpenOps W} `{C : Checksum} (ucmp : Comparator) `{HA : HeapAlloc} (capacity : nat -> Z).
Context (dbname : bytes) (opts : Options).

(** The part after [Recover]; [t_addr] is where the writer's type bytes are. *)
Definition Open_log (t_addr : Z) (edit : VersionEdit) (w : W) : Status * W :=
  let '(new_log_number, w) := new_file_number w in
  let fname := LogFileName dbname new_log_number in
  let '(s, w) := new_log_file fname w in
  let '(s, w) :=
    if ok s then
      let w := set_db (with_logfile (db w) (Writer_new t_addr fname) new_log_number) w in
      let '(s, _, w) := CompactionWork.LogAndApply (SetLogNumber edit new_log_number) w in (s, w)
    else (s, w) in
  if ok s then
    let w := delete_obsolete w in
    (s, set_db (DBImpl.MaybeScheduleCompaction (db w)) w)
  else (s, w).

(** The database, if it is opened. *)
Definition DB_Open (db_lock : bool) (locals : Z -> Z * Z * Z) (t_addr : Z) (w : W) : option (Status * bool * W) :=
  '(s, edit, w) ← DB_Recover ucmp capacity dbname opts db_lock locals VersionEdit_new w;
  let '(s, w) := if ok s then Open_log t_addr edit w else (s, w) in
  if ok s then Some (s, true, w) else Some (s, false, delete_impl w).

End Open.

(** ** Lemmas *)

Class OpenLaws (W : Type) `{!World W} `{!WorldModel W} `{!BgOps W} `{!OpenOps W} : Prop := {
  ol_number (w : W) : keeps None w (new_file_number w).2;
  ol_log f (w : W) : keeps None w (new_log_file f w).2;
  ol_set d (w : W) : keeps None w (set_db d w) /\ db (set_db d w) = d
}.

Lemma Recover_open_ok {W : Type} `{!RecoverOps W} dbname opts db_lock (w w1 : W) min_log prev_log s names :
  Recover_open dbname opts db_lock w = Some (inr (min_log, prev_log, s, names, w1)) -> ok s = true.
Proof.
  unfold Recover_open. destruct (create_dir dbname w) as [? w2]. destruct db_lock; [done|]. destruct (lock_file _ w2) as [s2 w3]. destruct (negb (ok s2)); [done|].
  destruct (Recover_check dbname opts w3) as [[[?|] w4]|]; [done| |done]. cbn [mbind option_bind]. destruct (versions_recover w4) as [[s5 w5]|]; [|done]. cbn [mbind option_bind].
  destruct (negb (ok s5)); [done|]. destruct (get_children dbname w5) as [[s6 fs] w6]. destruct (ok s6) eqn:E; [|done]. cbn [negb]. by intros [= _ _ <- _ _].
Qed.

(** The tables of recovery are there when the edit is logged. *)
Lemma Open_log_ok {W : Type} `{!World W} `{!WorldModel W} `{!FlushOps W} `{!BgOps W} `{!OpenOps W} `{!OpenLaws W} `{C : Checksum} ucmp dbname t_addr edit (w : W) :
  let '(s, w') := Open_log dbname t_addr edit w in ok s = true ->
  exists w3 e w4, (forall t, holds_table ucmp dbname w t -> holds_table ucmp dbname w3 t) /\ DBImpl.logfile_number_ (db w3) = (new_file_number w).1 /\
    CompactionWork.LogAndApply (SetLogNumber edit (new_file_number w).1) w3 = (s, e, w4) /\ w' = set_db (DBImpl.MaybeScheduleCompaction (db (delete_obsolete w4))) (delete_obsolete w4).
Proof.
  unfold Open_log. pose proof (ol_number w) as K1. destruct (new_file_number w) as [n w1]. pose proof (ol_log (LogFileName dbname n) w1) as K2.
  destruct (new_log_file _ w1) as [s2 w2]. cbn [fst snd] in *. destruct (ok s2) eqn:E2; [|cbv beta iota zeta; rewrite E2; congruence].
  set (d := with_logfile _ _ _). destruct (ol_set d w2) as [K3 Ed]. destruct (CompactionWork.LogAndApply _ _) as [[s3 e3] w3] eqn:El.
  destruct (ok s3) eqn:E3; [|cbv beta iota zeta; rewrite E3; congruence]. intros _. exists (set_db d w2), e3, w3. split_and!; [|by rewrite Ed|done|done].
  intros t Ht. eapply holds_table_kept, Ht. apply (keeps_kept dbname) in K1, K2, K3. exact (kept_trans dbname _ _ _ (kept_trans dbname _ _ _ K1 K2) K3).
Qed.

(** ** A concrete world *)

#[global] Instance BgMem_model : WorldModel BgMem := {
  building w := building w.2;
  file w := file w.2;
  table w f := table w.2 f;
  given w n := given w.2 n;
  room w k := room w.2 k
}.

Lemma BgMem_keeps e (w w' : BgMem) : keeps e w.2 w'.2 -> keeps e w w'.
Proof. done. Qed.

Lemma BgMem_world_laws : WorldLaws BgMem.
Proof.
  split; unfold keeps, steady; repeat first [progress intros | split]; destruct w as [d w]; cbn in *; try done; try lia.
  - rewrite lookup_delete_ne by congruence. done.
  - rewrite lookup_insert_ne by congruence. done.
  - by rewrite lookup_insert_eq.
  - by destruct (build_version _ _ _) as [[? ?]|].
  - destruct (build_version _ _ _) as [[? ?]|]; apply H.
Qed.

Lemma BgMem_flush_laws : FlushLaws BgMem.
Proof.
  split.
  - intros f w. apply BgMem_keeps. apply (fl_delete (W := MemWorld) (FlushLaws := MemWorld_flush_laws) f w.2).
  - intros n w. by split.
  - intros w. apply (fl_size (W := MemWorld) (FlushLaws := MemWorld_flush_laws) w.2).
  - intros w k Hk. split; [intros f|intros n]; exact Hk.
Qed.

(** The names in the directory and the files are given; the numbers are those of the versions. *)
Definition bg_recover (names : list bytes) (disk : bytes -> option bytes) : RecoverOps BgMem := {|
  create_dir _ w := (Status_OK, w);
  lock_file _ w := (Status_OK, w);
  file_exists _ _ := true;
  new_db w := Some (Status_OK, w);
  versions_recover w := Some (Status_OK, w);
  versions_log_number w := VersionSet.log_number_ (DBImpl.versions_ w.1);
  versions_prev_log_number w := VersionSet.prev_log_number_ (DBImpl.versions_ w.1);
  versions_last_sequence w := VersionSet.last_sequence_ (DBImpl.versions_ w.1);
  get_children _ w := (Status_OK, names, w);
  open_log f w :=
    match disk f with
    | Some data => (Status_OK, MkSequentialFile data [], w)
    | None => (Status_NotFound f [], MkSequentialFile [] [], w)
    end;
  mark_file_number_used n w := (w.1, mark_file_number_used (RecoverOps := disk_recover names disk) n w.2);
  set_last_sequence n w := vs ← DBImpl.SetLastSequence (DBImpl.versions_ w.1) n; Some (DBImpl.with_versions w.1 vs, w.2)
|}.

#[global] Instance BgMem_open : OpenOps BgMem := {
  new_file_number w := new_output_number w;
  new_log_file _ w := (Status_OK, w);
  delete_impl w := w
}.

Lemma BgMem_open_laws : OpenLaws BgMem.
Proof. split; [|done|by split]. intros w. apply (wl_number (WorldLaws := BgMem_world_laws) w). Qed.

Lemma bg_recover_laws names disk : RecoverLaws BgMem (RecoverOps0 := bg_recover names disk).
Proof.
  split.
  - intros f w. cbn. by destruct (disk f).
  - intros n [d w]. destruct (rl_mark (RecoverLaws := disk_recover_laws names disk) n w). by split.
  - intros n [d w] Hn. cbn in Hn |- *. unfold DBImpl.SetLastSequence. rewrite (proj2 (Z.ltb_ge _ _)) by lia. cbn [mbind option_bind]. eexists. by split_and!.
Qed.

(** ** Properties *)

(** C8: Opening an existing database replays its logs: the logs taken are exactly
    those in the directory that the versions still ask for, oldest first.  [Open]
    returns, with a database exactly when its status is OK.  When it is, and each
    log was recovered, it has logged one edit that adds level 0 tables, under new
    numbers and still whole, which together hold exactly the updates of all
    batches of these logs with the sequence numbers they were written with, and
    that retires the logs before the new one; the last sequence number is not
    behind any of the updates.  The status of recovery is the one of the last
    log: an error in an earlier log is overwritten. *)
Theorem DB_Open_correct {W : Type} (WO : World W) (WM : WorldModel W) (WL : WorldLaws W) (FO : FlushOps W) (FL : FlushLaws W) (RO : RecoverOps W) (RL : RecoverLaws W)
    (BO : BgOps W) (OO : OpenOps W) (OL : OpenLaws W) (C : Checksum) (ucmp : Comparator) (CL : ComparatorLaws ucmp any_key) (HA : HeapAlloc) (capacity : nat -> Z) (dbname : bytes)
    (opts : Options) (db_lock : bool) (locals : Z -> Z * Z * Z) (t_addr : Z) (w w1 : W) (min_log prev_log : Z) (s1 : Status) (names : list bytes) (bss : list (list (Z * list update))) :
  Recover_open dbname opts db_lock w = Some (inr (min_log, prev_log, s1, names, w1)) ->
  let logs := merge_sort Z.le (log_numbers min_log prev_log names) in
  Forall2 (log_on_disk dbname locals) logs bss -> numbers_fit (tables_needed bss) logs -> room w1 (tables_needed bss) ->
  (forall n, n ∈ logs <-> exists f, f ∈ names /\ ParseFileName f = Some (n, kLogFile) /\ (min_log <= n \/ n = prev_log)) /\ StronglySorted Z.le logs /\
  let statuses := log_statuses ucmp capacity dbname opts locals logs VersionEdit_new 0 w1 in length statuses = length logs /\
  exists s opened w', DB_Open ucmp capacity dbname opts db_lock locals t_addr w = Some (s, opened, w') /\ opened = ok s /\
    (ok (default s1 (last statuses)) = false -> s = default s1 (last statuses)) /\
    (opened = true -> Forall (fun s => ok s = true) statuses -> exists ts edit w2 w3 e w4,
       added ucmp dbname VersionEdit_new edit w1 w2 ts (concat (map log_entries bss)) /\ (forall b, b ∈ concat bss -> last_seq b <= versions_last_sequence w2) /\
       Forall (holds_table ucmp dbname w3) ts /\ let n := (new_file_number w2).1 in DBImpl.logfile_number_ (db w3) = n /\
       CompactionWork.LogAndApply (SetLogNumber edit n) w3 = (s, e, w4) /\
       w' = set_db (DBImpl.MaybeScheduleCompaction (db (delete_obsolete w4))) (delete_obsolete w4)).
Proof.
  intros Ho logs Hd Hfit Hk. destruct (logs_taken min_log prev_log names) as [H1 H2]. split; [exact H1|]. split; [exact H2|]. intros statuses.
  destruct (DB_Recover_ok WO WM WL FO FL RO RL C ucmp CL HA capacity dbname opts db_lock locals VersionEdit_new w w1 min_log prev_log s1 names bss Ho Hd Hfit Hk)
    as (edit & w2 & E & Hlen & Hok). fold logs in E, Hlen, Hok. fold statuses in E, Hlen, Hok. split; [done|].
  unfold DB_Open. rewrite E. bind_simpl. pose proof (Open_log_ok (C := C) ucmp dbname t_addr edit w2) as Hlog.
  destruct (ok (default s1 (last statuses))) eqn:Es.
  - destruct (Open_log dbname t_addr edit w2) as [s w']. destruct (ok s) eqn:E3; eexists s, _, _; (split; [reflexivity|]); rewrite E3; (split; [done|]); (split; [done|]); [|done].
    intros _ Hss. destruct (Hok Hss (Recover_open_ok _ _ _ _ _ _ _ _ _ Ho)) as [[ts Ha] Hseq]. destruct (Hlog eq_refl) as (w3 & e & w4 & Hh & Hn & Hl & ->).
    exists ts, edit, w2, w3, e, w4. split_and!; try done. eapply Forall_impl; [exact (a_tables _ _ _ _ _ _ _ _ Ha)|exact Hh].
  - cbv beta iota. rewrite Es. eexists _, _, _. split; [reflexivity|]. rewrite Es. by split_and!.
Qed.

(** The sample log of Recover.v, and a database whose versions ask for log 3. *)
Lemma DB_Open_correct_witness :
  exists out s opened w', log_numbers 3 0 sample_names = [3] /\
    DB_Open (RecoverOps0 := bg_recover sample_names (sample_disk out)) (C := ReferenceChecksum) (HA := BumpHeap) BytewiseComparator (fun _ => 0) (str "d")
      sample_options false (fun _ => (0, 0, 0)) 0 (bg_sample Version_new) = Some (s, opened, w') /\ opened = ok s.
Proof.
  destruct (written_reads (C := ReferenceChecksum) 0 (map (pair 0) (log_records sample_log))) as (out & b & _ & Hlaw & Hread). exists out.
  destruct (DB_Open_correct BgMem_world BgMem_model BgMem_world_laws BgMem_flush BgMem_flush_laws (bg_recover sample_names (sample_disk out))
    (bg_recover_laws sample_names (sample_disk out)) BgMem_bg BgMem_open BgMem_open_laws ReferenceChecksum BytewiseComparator _ BumpHeap (fun _ => 0) (str "d") sample_options false
    (fun _ => (0, 0, 0)) 0 (bg_sample Version_new) (bg_sample Version_new) 3 0 Status_OK sample_names [sample_log]) as (_ & _ & _ & s & opened & w' & E & Ho & _).
  - reflexivity.
  - change (merge_sort Z.le (log_numbers 3 0 sample_names)) with [3]. constructor; [|constructor]. split; [|exact sample_log_ok]. intros w.
    rewrite map_map, map_id in Hread. split; [reflexivity|]. apply Hread; [intros _; exact (Hlaw ReferenceChecksum_laws 0)|unfold is_u64; lia].
  - change (merge_sort Z.le (log_numbers 3 0 sample_names)) with [3]. repeat constructor; vm_compute; congruence.
  - split; vm_compute; congruence.
  - exists s, opened, w'. split; [reflexivity|]. split; [exact E|exact Ho].
Defined.
