(* ===== verification/VersionRefs.v ===== *)
(** db/version_set.{h,cpp}, the life of versions: the circular list of versions with
    their reference counts ([Version::Ref], [Unref], the destructor), the reference
    counts of the file metadata they share, [AppendVersion], what the builder does
    to both, [AddLiveFiles] over the list, and the destructor of the set.

    Objects live in stores, finite maps from addresses: the fields of versions one
    map per field, file metadata with number and count.  Address 0 is
    [dummy_versions_].  An access to an object that is not in its store (deleted),
    like a failed assertion, is [None].  Which files a builder saves is computed in
    VersionSet.v; here they are an argument. *)

From Stdlib Require Import ZArith Lia List Bool.
From S2P Require Import Prelude Lists DList VersionSet.

Module Refs.

(** [next_] and [prev_] of versions. *)
Record Links := MkLinks { next_ : gmap nat nat; prev_ : gmap nat nat }.

(** [number] and [refs] of file metadata. *)
Abbreviation Metas := (gmap nat (Z * Z)).

(** [fresh] is the address the next [new] returns. *)
Record t := Mk {
  links : Links;
  refs_ : gmap nat Z;
  files_ : gmap nat (list (list nat));
  metas : Metas;
  current_ : option nat;
  fresh : nat
}.

Definition dummy_versions_ : nat := 0%nat.

Definition with_links (s : t) (k : Links) : t := Mk k (refs_ s) (files_ s) (metas s) (current_ s) (fresh s).
Definition with_refs (s : t) (r : gmap nat Z) : t := Mk (links s) r (files_ s) (metas s) (current_ s) (fresh s).
Definition with_metas (s : t) (m : Metas) : t := Mk (links s) (refs_ s) (files_ s) m (current_ s) (fresh s).
Definition with_current (s : t) (c : option nat) : t := Mk (links s) (refs_ s) (files_ s) (metas s) c (fresh s).

(** Assignment to a field of an object that must exist. *)
Definition assign {A} (m : gmap nat A) (a : nat) (x : A) : option (gmap nat A) := match m !! a with Some _ => Some (<[a := x]> m) | None => None end.

(** ** File metadata *)

Definition ref_file (m : Metas) (f : nat) : option Metas := '(n, r) ← m !! f; Some (<[f := (n, r + 1)]> m).

Definition unref_file (m : Metas) (f : nat) : option Metas :=
  '(n, r) ← m !! f;
  let r := r - 1 in
  Some (if r <=? 0 then delete f m else <[f := (n, r)]> m).

(** [checked]: with the assertion of [~Version]. *)
Fixpoint unref_files (checked : bool) (m : Metas) (fs : list nat) : option Metas :=
  match fs with
  | [] => Some m
  | f :: fs =>
      '(_, r) ← m !! f;
      if checked && (r <=? 0) then None
      else m ← unref_file m f; unref_files checked m fs
  end.

(** ** Versions *)

(** [Version(set)]: on no list, without files. *)
Definition new_version (s : t) : nat * t :=
  let v := fresh s in
  (v, Mk (MkLinks (<[v := v]> (next_ (links s))) (<[v := v]> (prev_ (links s)))) (<[v := 0]> (refs_ s)) (<[v := replicate num_levels []]> (files_ s))
        (metas s) (current_ s) (S v)).

(** [prev_->next_ = next_; next_->prev_ = prev_] *)
Definition unlink (k : Links) (v : nat) : option Links :=
  p ← prev_ k !! v; n ← next_ k !! v;
  nx ← assign (next_ k) p n;
  n ← nx !! v; p ← prev_ k !! v;
  pv ← assign (prev_ k) n p;
  Some (MkLinks nx pv).

(** [~Version], and the memory is freed. *)
Definition delete_version (s : t) (v : nat) : option t :=
  r ← refs_ s !! v;
  if negb (r =? 0) then None
  else
    k ← unlink (links s) v;
    files ← files_ s !! v;
    m ← unref_files true (metas s) (concat files);
    Some (Mk (MkLinks (delete v (next_ k)) (delete v (prev_ k))) (delete v (refs_ s)) (delete v (files_ s)) m (current_ s) (fresh s)).

Definition Ref (s : t) (v : nat) : option t := r ← refs_ s !! v; Some (with_refs s (<[v := r + 1]> (refs_ s))).

Definition Unref (s : t) (v : nat) : option t :=
  if (v =? dummy_versions_)%nat then None
  else
    r ← refs_ s !! v;
    if negb (r >=? 1) then None
    else
      let s := with_refs s (<[v := r - 1]> (refs_ s)) in
      if r - 1 =? 0 then delete_version s v else Some s.

(** ** The set *)

Definition link_last (k : Links) (v : nat) : option Links :=
  p ← prev_ k !! dummy_versions_;
  pv ← assign (prev_ k) v p;
  nx ← assign (next_ k) v dummy_versions_;
  p ← pv !! v;
  nx ← assign nx p v;
  n ← nx !! v;
  pv ← assign pv n v;
  Some (MkLinks nx pv).

Definition AppendVersion (s : t) (v : nat) : option t :=
  r ← refs_ s !! v;
  if negb (r =? 0) || bool_decide (current_ s = Some v) then None
  else
    s ← (match current_ s with Some c => Unref s c | None => Some s end);
    let s := with_current s (Some v) in
    s ← Ref s v;
    k ← link_last (links s) v;
    Some (with_links s k).

(** The constructor. *)
Definition new : option t :=
  let s := Mk (MkLinks {[dummy_versions_ := dummy_versions_]} {[dummy_versions_ := dummy_versions_]}) {[dummy_versions_ := 0]} {[dummy_versions_ := replicate num_levels []]}
             ∅ None 1 in
  let '(v, s) := new_version s in AppendVersion s v.

(** [~VersionSet]; [None] also if the list is not empty then. *)
Definition destroy (s : t) : option t :=
  c ← current_ s;
  s ← Unref s c;
  n ← next_ (links s) !! dummy_versions_;
  if (n =? dummy_versions_)%nat then Some s else None.

(** ** The builder *)

(** [Apply]: metadata of the added files, with one reference. *)
Fixpoint new_files (s : t) (numbers : list Z) : list nat * t :=
  match numbers with
  | [] => ([], s)
  | n :: numbers =>
      let f := fresh s in
      let '(fs, s) := new_files (Mk (links s) (refs_ s) (files_ s) (<[f := (n, 1)]> (metas s)) (current_ s) (S f)) numbers in
      (f :: fs, s)
  end.

(** [MaybeAddFile], for a file that is not deleted. *)
Definition add_file (s : t) (v level f : nat) : option t :=
  m ← ref_file (metas s) f;
  files ← files_ s !! v;
  Some (Mk (links s) (refs_ s) (<[v := alter (fun fs => fs ++ [f]) level files]> (files_ s)) m (current_ s) (fresh s)).

Fixpoint SaveTo_files (s : t) (v : nat) (saved : list (nat * nat)) : option t :=
  match saved with
  | [] => Some s
  | (level, f) :: saved => s ← add_file s v level f; SaveTo_files s v saved
  end.

(** A saved file: one of the base's, or an added one. *)
Definition resolve (added : list nat) (f : nat + nat) : option nat := match f with inl a => Some a | inr i => added !! i end.

(** From [new Version] to the end of the builder's block in [LogAndApply]. *)
Definition build (s : t) (numbers : list Z) (saved : list (nat * (nat + nat))) : option (nat * t) :=
  let '(v, s) := new_version s in
  base ← current_ s;
  s ← Ref s base;
  let '(added, s) := new_files s numbers in
  fs ← mapM (fun '(level, f) => f ← resolve added f; Some (level, f)) saved;
  s ← SaveTo_files s v fs;
  m ← unref_files false (metas s) added;
  s ← Unref (with_metas s m) base;
  Some (v, s).

(** ** AddLiveFiles *)

Definition file_numbers (m : Metas) (fs : list nat) : option (list Z) := mapM (fun f => fst <$> m !! f) fs.

(** The walk from [v]; one more than the versions in the store is enough fuel. *)
Fixpoint AddLiveFiles_loop (fuel : nat) (s : t) (v : nat) (live : gset Z) : option (gset Z) :=
  if (v =? dummy_versions_)%nat then Some live
  else
    match fuel with
    | O => None
    | S fuel =>
        files ← files_ s !! v;
        ns ← file_numbers (metas s) (concat files);
        n ← next_ (links s) !! v;
        AddLiveFiles_loop fuel s n (live ∪ list_to_set ns)
    end.

Definition AddLiveFiles (s : t) (live : gset Z) : option (gset Z) :=
  first ← next_ (links s) !! dummy_versions_;
  AddLiveFiles_loop (size (refs_ s)) s first live.

End Refs.
Import Refs.

(** ** Operations *)

(** What the rest of the database does with versions.  [Build] to [Install] or
    [Discard] is one [LogAndApply], which gives up the mutex in between; readers,
    iterators and compactions [Acquire] the current version and [Release] it. *)
Inductive op :=
| Acquire
| Release (v : nat)
| Build (numbers : list Z) (saved : list (nat * (nat + nat)))
| Install
| Discard.

(** The set, the version that is built but not installed, and the references that
    are held. *)
Record state := MkState { set_ : t; pending : option nat; held : list nat }.

Definition remove_one (v : nat) (l : list nat) : list nat :=
  match list_find (v =.) l with Some (i, _) => delete i l | None => l end.

Definition step (x : state) (o : op) : option state :=
  match o with
  | Acquire => c ← current_ (set_ x); s ← Ref (set_ x) c; Some (MkState s (pending x) (c :: held x))
  | Release v => s ← Unref (set_ x) v; Some (MkState s (pending x) (remove_one v (held x)))
  | Build numbers saved => '(v, s) ← build (set_ x) numbers saved; Some (MkState s (Some v) (held x))
  | Install => v ← pending x; s ← AppendVersion (set_ x) v; Some (MkState s None (held x))
  | Discard => v ← pending x; s ← delete_version (set_ x) v; Some (MkState s None (held x))
  end.

(** The files of a version, over all levels. *)
Definition version_files (s : t) (v : nat) : list nat := concat (default [] (files_ s !! v)).

(** Callers release what they hold, [LogAndApply] is not called concurrently, and
    the builder saves files of the current version and files it added. *)
Definition legal (x : state) (o : op) : Prop :=
  match o with
  | Acquire => True
  | Release v => v ∈ held x
  | Build numbers saved => pending x = None /\
      Forall (fun f => (f.1 < num_levels)%nat /\
        match f.2 with inl a => exists c, current_ (set_ x) = Some c /\ a ∈ version_files (set_ x) c | inr i => (i < length numbers)%nat end) saved
  | Install | Discard => pending x <> None
  end.

Inductive reach : state -> Prop :=
| reach_new s : new = Some s -> reach (MkState s None [])
| reach_step x o x' : reach x -> legal x o -> step x o = Some x' -> reach x'.

Definition sample_ops : list op :=
  [Build [7; 8] [(0%nat, inr 0%nat); (1%nat, inr 1%nat)]; Install; Acquire; Build [9] [(0%nat, inl 3%nat); (1%nat, inr 0%nat)]; Acquire; Install; Release 2].

(** ** Lemmas: counting *)

Fixpoint occ (f : nat) (l : list nat) : Z := match l with [] => 0 | g :: l => (if decide (f = g) then 1 else 0) + occ f l end.

Lemma occ_nonneg f l : 0 <= occ f l.
Proof. induction l as [|g l IH]; cbn [occ]; [lia|]. case_decide; lia. Qed.

Lemma occ_app f l k : occ f (l ++ k) = occ f l + occ f k.
Proof. induction l as [|g l IH]; cbn [occ app]; [lia|]. rewrite IH. lia. Qed.

Lemma occ_pos f l : 0 < occ f l <-> f ∈ l.
Proof.
  induction l as [|g l IH]; cbn [occ]; [split; [lia|by intros ?%elem_of_nil]|]. rewrite elem_of_cons, <- IH. pose proof (occ_nonneg f l).
  case_decide; intuition lia.
Qed.

#[export] Instance occ_perm f : Proper ((≡ₚ) ==> eq) (occ f).
Proof. intros l k H. induction H; cbn [occ]; lia. Qed.

Lemma occ_remove_one f v l : v ∈ l -> occ f (remove_one v l) = occ f l - (if decide (f = v) then 1 else 0).
Proof.
  intros Hv. unfold remove_one. destruct (list_find_elem_of (v =.) l v Hv eq_refl) as [[i w] Hi]. rewrite Hi.
  apply list_find_Some in Hi as (Hl & <- & _). pose proof (occ_perm f _ _ (delete_Permutation l i v Hl)) as E. cbn [occ] in E. lia.
Qed.

(** ** Lemmas: file metadata *)

(** The counts are those of the references [all]. *)
Definition metas_ok (m : Metas) (all : list nat) : Prop :=
  forall f, match m !! f with Some (_, r) => r = occ f all /\ 0 < r | None => occ f all = 0 end.

#[export] Instance metas_ok_perm m : Proper ((≡ₚ) ==> iff) (metas_ok m).
Proof. intros l k H. unfold metas_ok. split; intros Hm f; specialize (Hm f); pose proof (occ_perm f _ _ H); destruct (m !! f) as [[? ?]|]; lia. Qed.

Definition number_of (m : Metas) (f : nat) : option Z := fst <$> m !! f.

Lemma metas_ok_live m all f : metas_ok m all -> is_Some (m !! f) <-> f ∈ all.
Proof.
  intros H. specialize (H f). rewrite <- occ_pos. destruct (m !! f) as [[n r]|]; split; [intros _; lia|eauto|by intros [? ?]|lia].
Qed.

Lemma ref_file_ok m all f : metas_ok m all -> f ∈ all ->
  exists m', ref_file m f = Some m' /\ metas_ok m' (f :: all) /\ forall g, number_of m' g = number_of m g.
Proof.
  intros Hm Hf. pose proof (proj2 (metas_ok_live m all f Hm) Hf) as [[n r] E]. unfold ref_file. rewrite E. bind_simpl. eexists. split; [done|].
  split; intros g; [specialize (Hm g)|]; destruct (decide (g = f)) as [->|Hne]; unfold number_of; rewrite ?lookup_insert_eq, ?lookup_insert_ne, ?E by done; cbn [occ]; try done.
  - rewrite E in Hm. rewrite decide_True by done. lia.
  - rewrite decide_False by done. exact Hm.
Qed.

Lemma unref_file_ok m f rest : metas_ok m (f :: rest) ->
  exists m', unref_file m f = Some m' /\ metas_ok m' rest /\ forall g, g ∈ rest -> number_of m' g = number_of m g.
Proof.
  intros Hm. pose proof (proj2 (metas_ok_live m _ f Hm) ltac:(left)) as [[n r] E]. unfold unref_file. rewrite E. bind_simpl. eexists. split; [done|].
  pose proof (Hm f) as Hf. rewrite E in Hf. cbn [occ] in Hf. rewrite decide_True in Hf by done. destruct (Z.leb_spec (r - 1) 0) as [Hr|Hr].
  - split.
    + intros g. specialize (Hm g). cbn [occ] in Hm. destruct (decide (g = f)) as [->|Hne]; [rewrite lookup_delete_eq; pose proof (occ_nonneg f rest); lia|by rewrite lookup_delete_ne].
    + intros g Hg%occ_pos. unfold number_of. rewrite lookup_delete_ne; [done|]. intros <-. lia.
  - split.
    + intros g. specialize (Hm g). cbn [occ] in Hm. destruct (decide (g = f)) as [->|Hne]; [rewrite lookup_insert_eq; lia|by rewrite lookup_insert_ne].
    + intros g Hg. unfold number_of. destruct (decide (g = f)) as [->|]; [by rewrite lookup_insert_eq, E|by rewrite lookup_insert_ne].
Qed.

Lemma unref_files_ok checked fs : forall m rest, metas_ok m (fs ++ rest) ->
  exists m', unref_files checked m fs = Some m' /\ metas_ok m' rest /\ forall g, g ∈ rest -> number_of m' g = number_of m g.
Proof.
  induction fs as [|f fs IH]; intros m rest Hm; cbn [unref_files app] in *; [by exists m|].
  pose proof (Hm f) as Hf. pose proof (proj2 (metas_ok_live m _ f Hm) ltac:(left)) as [[n r] E]. rewrite E in Hf |- *. bind_simpl.
  rewrite (proj2 (Z.leb_gt r 0)), andb_false_r by lia. destruct (unref_file_ok m f _ Hm) as (m1 & -> & Hm1 & N1). bind_simpl.
  destruct (IH m1 rest Hm1) as (m2 & -> & Hm2 & N2). exists m2. split; [done|]. split; [done|]. intros g Hg. rewrite N2, N1 by set_solver. done.
Qed.

Lemma new_meta_ok m all f n : metas_ok m all -> m !! f = None -> metas_ok (<[f := (n, 1)]> m) (f :: all).
Proof.
  intros Hm Hf g. specialize (Hm g). cbn [occ]. destruct (decide (g = f)) as [->|]; [rewrite lookup_insert_eq; rewrite Hf in Hm; lia|by rewrite lookup_insert_ne].
Qed.

(** ** The invariant *)

Definition all_files (s : t) (vs : list nat) : list nat := concat (map (version_files s) vs).

(** The versions [l] are on the list, [pend] are built but not on it, [cnt] are the
    counts of versions and [ex] extra references to files. *)
Record core (s : t) (pend l : list nat) (cnt : nat -> Z) (ex : list nat) : Prop := {
  c_ring : ring (fun v => next_ (links s) !! v) (fun v => prev_ (links s) !! v) dummy_versions_ l;
  c_next v : is_Some (next_ (links s) !! v) <-> v ∈ dummy_versions_ :: l ++ pend;
  c_prev v : is_Some (prev_ (links s) !! v) <-> v ∈ dummy_versions_ :: l ++ pend;
  c_refs v : refs_ s !! v = if decide (v ∈ dummy_versions_ :: l ++ pend) then Some (cnt v) else None;
  c_pos v : v ∈ l -> 0 < cnt v;
  c_out v : v ∉ l -> cnt v = 0;
  c_pend v : v ∈ pend -> ~ (v ∈ dummy_versions_ :: l) /\ next_ (links s) !! v = Some v /\ prev_ (links s) !! v = Some v;
  c_nodup : NoDup pend;
  c_files v : is_Some (files_ s !! v) <-> v ∈ dummy_versions_ :: l ++ pend;
  c_dummy : version_files s dummy_versions_ = [];
  c_metas : metas_ok (metas s) (ex ++ all_files s (l ++ pend));
  c_fresh v : v ∈ dummy_versions_ :: l ++ pend -> (v < fresh s)%nat;
  c_fresh_metas f : is_Some (metas s !! f) -> (f < fresh s)%nat
}.

(** Versions [vs] keep their files, and these their numbers. *)
Definition keeps (vs : list nat) (s s' : t) : Prop :=
  forall v, v ∈ vs -> files_ s' !! v = files_ s !! v /\ forall f, f ∈ version_files s v -> number_of (metas s') f = number_of (metas s) f.

Lemma files_keep_refl vs s : keeps vs s s.
Proof. by intros v _. Qed.

Lemma files_keep_trans vs s1 s2 s3 : keeps vs s1 s2 -> keeps vs s2 s3 -> keeps vs s1 s3.
Proof.
  intros H1 H2 v Hv. destruct (H1 v Hv) as [F1 N1], (H2 v Hv) as [F2 N2]. split; [congruence|]. intros f Hf. rewrite N2, N1; [done|done|].
  unfold version_files in *. by rewrite F1.
Qed.

Lemma keeps_sub vs vs' s s' : vs' ⊆ vs -> keeps vs s s' -> keeps vs' s s'.
Proof. intros Hs H v Hv. apply H. by apply Hs. Qed.

Lemma all_files_ext vs s s' : (forall v, v ∈ vs -> files_ s' !! v = files_ s !! v) -> all_files s' vs = all_files s vs.
Proof.
  intros H. unfold all_files. f_equal. apply map_ext_in. intros v Hv. unfold version_files. by rewrite H by (by apply list_elem_of_In).
Qed.

Lemma elem_of_all_files s vs f : f ∈ all_files s vs <-> exists v, v ∈ vs /\ f ∈ version_files s v.
Proof.
  unfold all_files. rewrite list_elem_of_In, in_concat. setoid_rewrite in_map_iff. split.
  - intros (? & (v & <- & Hv) & Hf). exists v. by rewrite !list_elem_of_In.
  - intros (v & Hv & Hf). exists (version_files s v). rewrite !list_elem_of_In in *. eauto.
Qed.

(** ** Lemmas: references *)

Lemma core_live s pend l cnt ex v : core s pend l cnt ex -> v ∈ l -> v <> dummy_versions_ /\ refs_ s !! v = Some (cnt v) /\ 0 < cnt v.
Proof.
  intros H Hv. pose proof (c_ring _ _ _ _ _ H) as [_ [Hd _]%NoDup_cons]. split; [by intros ->|]. rewrite (c_refs _ _ _ _ _ H), decide_True by set_solver.
  split; [done|]. by apply (c_pos _ _ _ _ _ H).
Qed.

(** The count of one version on the list changes, and stays positive. *)
Lemma core_with_refs s pend l cnt cnt' ex v : core s pend l cnt ex -> v ∈ l -> 0 < cnt' v -> (forall w, w <> v -> cnt' w = cnt w) ->
  core (with_refs s (<[v := cnt' v]> (refs_ s))) pend l cnt' ex.
Proof.
  intros H Hv Hp Hw. destruct H. split; cbn [with_refs links refs_ files_ metas fresh]; try done.
  - intros w. destruct (decide (w = v)) as [->|Hne]; [rewrite lookup_insert_eq, decide_True by set_solver; done|].
    rewrite lookup_insert_ne, c_refs0 by done. by rewrite Hw.
  - intros w Hl. destruct (decide (w = v)) as [->|Hne]; [done|]. rewrite Hw by done. auto.
  - intros w Hl. rewrite Hw; [auto|]. by intros ->.
Qed.

Lemma core_Ref s pend l cnt cnt' ex v : core s pend l cnt ex -> v ∈ l -> cnt' v = cnt v + 1 -> (forall w, w <> v -> cnt' w = cnt w) ->
  exists s', Ref s v = Some s' /\ core s' pend l cnt' ex /\ keeps (l ++ pend) s s' /\ current_ s' = current_ s /\ files_ s' = files_ s.
Proof.
  intros H Hv E Hw. destruct (core_live s pend l cnt ex v H Hv) as (_ & Er & Hp). unfold Ref. rewrite Er. bind_simpl.
  eexists. split; [rewrite <- E; reflexivity|]. split; [apply (core_with_refs s pend l cnt cnt'); [done..|lia|done]|]. split; [by intros w _|done].
Qed.

Lemma core_nodup s pend l cnt ex : core s pend l cnt ex -> NoDup (dummy_versions_ :: l ++ pend).
Proof.
  intros H. pose proof (c_ring _ _ _ _ _ H) as [_ Hnd]. rewrite app_comm_cons. apply NoDup_app. split; [done|]. split; [|apply H].
  intros v Hv Hp. by destruct (c_pend _ _ _ _ _ H v Hp).
Qed.

Lemma all_files_app s vs ws : all_files s (vs ++ ws) = all_files s vs ++ all_files s ws.
Proof. unfold all_files. by rewrite map_app, concat_app. Qed.

#[export] Instance all_files_perm s : Proper ((≡ₚ) ==> (≡ₚ)) (all_files s).
Proof.
  intros vs ws H. induction H; unfold all_files in *; cbn [map concat]; [done|by rewrite IHPermutation| |by etransitivity].
  rewrite !app_assoc. by rewrite (Permutation_app_comm (version_files s y)).
Qed.

(** ** Lemmas: deleting a version *)

Lemma unlink_self k v : next_ k !! v = Some v -> prev_ k !! v = Some v -> unlink k v = Some k.
Proof.
  intros Hn Hp. unfold unlink, assign. rewrite Hp, Hn. bind_simpl. rewrite ?Hn. bind_simpl. rewrite insert_id by done. rewrite ?Hn, ?Hp. bind_simpl. rewrite ?Hp. bind_simpl.
  rewrite insert_id by done. by destruct k.
Qed.

Lemma unlink_ring k l1 v l2 : ring (fun w => next_ k !! w) (fun w => prev_ k !! w) dummy_versions_ (l1 ++ v :: l2) ->
  exists p n, unlink k v = Some (MkLinks (<[p := n]> (next_ k)) (<[n := p]> (prev_ k))) /\ p <> v /\ n <> v /\
    prev_ k !! v = Some p /\ next_ k !! v = Some n /\ next_ k !! p = Some v /\ prev_ k !! n = Some v.
Proof.
  intros Hr. destruct (ring_around _ _ _ _ _ _ Hr) as (_ & p & n & _ & _ & _ & _ & [H1 H2] & [H3 H4] & _ & Hp & Hn). cbv beta in *.
  exists p, n. split; [|done]. unfold unlink, assign. rewrite H2, H3. bind_simpl. rewrite H1. bind_simpl. rewrite lookup_insert_ne, H3 by done. bind_simpl.
  rewrite ?H2. bind_simpl. rewrite H4. reflexivity.
Qed.

(** [v] is freed once it is off the list; the references of its files are given back. *)
Lemma core_delete s pend l pend' l' cnt cnt' ex v k : core s pend l cnt ex -> v <> dummy_versions_ -> l ++ pend ≡ₚ v :: l' ++ pend' -> l' ⊆ l -> pend' ⊆ pend ->
  unlink (links s) v = Some k -> (forall w, is_Some (next_ k !! w) <-> is_Some (next_ (links s) !! w)) -> (forall w, is_Some (prev_ k !! w) <-> is_Some (prev_ (links s) !! w)) ->
  ring (fun w => delete v (next_ k) !! w) (fun w => delete v (prev_ k) !! w) dummy_versions_ l' ->
  (forall w, w ∈ pend' -> next_ k !! w = Some w /\ prev_ k !! w = Some w) ->
  (forall w, w ∈ l' -> cnt' w = cnt w) -> (forall w, w ∉ l' -> cnt' w = 0) -> 
  exists s', delete_version (with_refs s (<[v := 0]> (refs_ s))) v = Some s' /\ core s' pend' l' cnt' ex /\ keeps (l' ++ pend') s s' /\
    current_ s' = current_ s /\ fresh s' = fresh s.
Proof.
  intros H Hv Hp Hl' Hpend' Hk Hdn Hdp Hr Hself Hin Hout. pose proof (core_nodup _ _ _ _ _ H) as Hnd.
  rewrite Hp in Hnd. apply NoDup_cons in Hnd as [Hd [Hnv Hnd]%NoDup_cons].
  assert (forall w, w ∈ dummy_versions_ :: l' ++ pend' <-> w <> v /\ w ∈ dummy_versions_ :: l ++ pend) as Hmem.
  { intros w. rewrite Hp, !elem_of_cons. split; [intros [->|Hw]; [by split; [|left]|split; [by intros ->|auto]]|]. intros [? [?|[?|?]]]; auto. done. }
  assert (is_Some (files_ s !! v)) as [fs Hfs] by (apply (c_files _ _ _ _ _ H); rewrite Hp; set_solver).
  assert (version_files s v = concat fs) as Hvf by (unfold version_files; by rewrite Hfs).
  pose proof (c_metas _ _ _ _ _ H) as Hm. rewrite Hp in Hm. change (all_files s (v :: l' ++ pend')) with (version_files s v ++ all_files s (l' ++ pend')) in Hm.
  rewrite Permutation_app_swap_app, Hvf in Hm. destruct (unref_files_ok true _ _ _ Hm) as (m & Em & Hm' & Hnum).
  assert (forall w, delete v (files_ s) !! w = if decide (w = v) then None else files_ s !! w) as Hfl.
  { intros w. case_decide as E; [subst; apply lookup_delete_eq|by apply lookup_delete_ne]. }
  unfold delete_version. cbn [with_refs refs_ links files_ metas current_ fresh]. rewrite lookup_insert_eq. bind_simpl. change (negb (0 =? 0)) with false. cbv beta iota.
  rewrite Hk. bind_simpl. rewrite Hfs. bind_simpl. rewrite Em. bind_simpl. eexists. split; [reflexivity|].
  assert (keeps (l' ++ pend') s (Mk (MkLinks (delete v (next_ k)) (delete v (prev_ k))) (delete v (<[v:=0]> (refs_ s))) (delete v (files_ s)) m (current_ s) (fresh s))) as Hkeep.
  { intros w Hw. cbn [files_ metas]. rewrite Hfl, decide_False by (by intros ->). split; [done|]. intros f Hf. apply Hnum, elem_of_app. right. apply elem_of_all_files. eauto. }
  split_and!; [|done..]. split; cbn [links next_ prev_ refs_ files_ metas fresh]; try done.
  - intros w. rewrite Hmem, <- (c_next _ _ _ _ _ H), <- Hdn. destruct (decide (w = v)) as [->|]; [rewrite lookup_delete_eq; split; [by intros [? ?]|naive_solver]|]. rewrite lookup_delete_ne by done. naive_solver.
  - intros w. rewrite Hmem, <- (c_prev _ _ _ _ _ H), <- Hdp. destruct (decide (w = v)) as [->|]; [rewrite lookup_delete_eq; split; [by intros [? ?]|naive_solver]|]. rewrite lookup_delete_ne by done. naive_solver.
  - intros w. destruct (decide (w = v)) as [->|Hne]; [rewrite lookup_delete_eq, decide_False; [done|]; rewrite Hmem; naive_solver|].
    rewrite lookup_delete_ne, lookup_insert_ne, (c_refs _ _ _ _ _ H) by done. destruct (decide (w ∈ dummy_versions_ :: l ++ pend)) as [Hw|Hw].
    + rewrite decide_True by (by apply Hmem). destruct (decide (w ∈ l')) as [Hw'|Hw']; [by rewrite Hin|]. rewrite Hout by done. f_equal. apply (c_out _ _ _ _ _ H).
      intros Hwl. assert (w ∈ dummy_versions_ :: l' ++ pend') as [->|[?|Hwp]%elem_of_app]%elem_of_cons by (by apply Hmem); [|done|].
      * by destruct (c_ring _ _ _ _ _ H) as [_ [? _]%NoDup_cons].
      * destruct (c_pend _ _ _ _ _ H w (Hpend' w Hwp)) as [[]%not_elem_of_cons _]. done.
    + rewrite decide_False; [done|]. rewrite Hmem. naive_solver.
  - intros w Hw. rewrite Hin by done. apply (c_pos _ _ _ _ _ H). by apply Hl'.
  - intros w Hw. destruct (Hself w Hw) as [E1 E2]. destruct (c_pend _ _ _ _ _ H w (Hpend' w Hw)) as [Hnl _]. assert (w <> v) by (intros ->; set_solver).
    split; [set_solver|]. by rewrite !lookup_delete_ne.
  - by apply NoDup_app in Hnd as (_ & _ & ?).
  - intros w. rewrite Hfl, Hmem, <- (c_files _ _ _ _ _ H). case_decide; [split; [by intros [? ?]|naive_solver]|naive_solver].
  - unfold version_files. cbn [files_]. rewrite Hfl, decide_False by done. apply (c_dummy _ _ _ _ _ H).
  - rewrite (all_files_ext (l' ++ pend') s) by (intros w Hw; by apply Hkeep). done.
  - intros w [_ Hw]%Hmem. by apply (c_fresh _ _ _ _ _ H).
  - intros f Hf. apply (c_fresh_metas _ _ _ _ _ H). apply (metas_ok_live _ _ f (c_metas _ _ _ _ _ H)). apply (metas_ok_live _ _ f Hm') in Hf. rewrite Hp.
    change (all_files s (v :: l' ++ pend')) with (version_files s v ++ all_files s (l' ++ pend')). set_solver.
Qed.

(** A reference to a version is given back; the last one deletes it. *)
Lemma core_Unref s pend l cnt cnt' ex v : core s pend l cnt ex -> v ∈ l -> cnt' v = cnt v - 1 -> (forall w, w <> v -> cnt' w = cnt w) ->
  exists s' l', Unref s v = Some s' /\ core s' pend l' cnt' ex /\ (forall w, w ∈ l' <-> w ∈ l /\ 0 < cnt' w) /\ keeps (l' ++ pend) s s' /\
    current_ s' = current_ s /\ fresh s' = fresh s.
Proof.
  intros H Hv E Hw. destruct (core_live _ _ _ _ _ v H Hv) as (Hd & Er & Hp). unfold Unref. rewrite (proj2 (Nat.eqb_neq _ _) Hd), Er. bind_simpl.
  rewrite (proj2 (Z.geb_le (cnt v) 1)) by lia. cbn [negb]. destruct (Z.eqb_spec (cnt v - 1) 0) as [E0|E0].
  - rewrite E0. pose proof (core_nodup _ _ _ _ _ H) as [_ Hnd]%NoDup_cons. destruct (list_elem_of_split _ _ Hv) as (l1 & l2 & ->).
    destruct (unlink_ring (links s) l1 v l2 (c_ring _ _ _ _ _ H)) as (p & n & Ek & Hpv & Hnv & E1 & E2 & E3 & E4).
    assert (v ∉ dummy_versions_ :: l1 ++ l2) as Hvl.
    { rewrite <- app_assoc, <- app_comm_cons, <- Permutation_middle in Hnd. apply NoDup_cons in Hnd as [Hnd _]. set_solver. }
    assert (forall w, w ∈ l1 ++ v :: l2 <-> w = v \/ w ∈ l1 ++ l2) as Hmem by set_solver.
    destruct (core_delete s pend (l1 ++ v :: l2) pend (l1 ++ l2) cnt cnt' ex v (MkLinks (<[p := n]> (next_ (links s))) (<[n := p]> (prev_ (links s)))))
      as (s' & Es & Hc & Hk & Hcur & Hf); cbn [next_ prev_]; try done.
    + rewrite <- Permutation_middle. done.
    + intros w. rewrite Hmem. auto.
    + intros w. destruct (decide (w = p)) as [->|]; [rewrite lookup_insert_eq, E3; by split; eauto|by rewrite lookup_insert_ne].
    + intros w. destruct (decide (w = n)) as [->|]; [rewrite lookup_insert_eq, E4; by split; eauto|by rewrite lookup_insert_ne].
    + apply (ring_remove (fun w => next_ (links s) !! w) (fun w => prev_ (links s) !! w) _ _ dummy_versions_ l1 v l2 p n (c_ring _ _ _ _ _ H)); [done|done|..];
        intros w Hw'; (rewrite lookup_delete_ne by (by intros ->)); case_decide as Ew; [subst; apply lookup_insert_eq|by apply lookup_insert_ne|subst; apply lookup_insert_eq|by apply lookup_insert_ne].
    + intros w Hpw. destruct (c_pend _ _ _ _ _ H w Hpw) as (Hnl & S1 & S2). assert (w <> v) by (intros ->; set_solver).
      assert (p <> w /\ n <> w) as [? ?] by (split; intros ->; congruence). by rewrite !lookup_insert_ne.
    + intros w Hwl. apply Hw. intros ->. set_solver.
    + intros w Hwl. destruct (decide (w = v)) as [->|Hne]; [lia|]. rewrite Hw by done. apply (c_out _ _ _ _ _ H). rewrite Hmem. tauto.
    + exists s', (l1 ++ l2). split; [done|]. split; [done|]. split; [|done]. intros w. rewrite Hmem. split.
      * intros Hwl. split; [auto|]. by apply (c_pos _ _ _ _ _ Hc).
      * intros [[->|?] Hpos]; [lia|done].
  - exists (with_refs s (<[v := cnt v - 1]> (refs_ s))), l. split; [done|].
    assert (core (with_refs s (<[v := cnt v - 1]> (refs_ s))) pend l cnt' ex) as Hc by (rewrite <- E; apply (core_with_refs s pend l cnt); [done..|lia|done]).
    split; [done|]. split; [|by split; [intros w _|]]. intros w. split; [|tauto]. intros Hwl. split; [done|]. by apply (c_pos _ _ _ _ _ Hc).
Qed.

(** A version that was not installed is deleted. *)
Lemma core_discard s l cnt ex v : core s [v] l cnt ex ->
  exists s', delete_version s v = Some s' /\ core s' [] l cnt ex /\ keeps l s s' /\ current_ s' = current_ s /\ fresh s' = fresh s.
Proof.
  intros H. destruct (c_pend _ _ _ _ _ H v) as (Hnl & S1 & S2); [left|]. apply not_elem_of_cons in Hnl as [Hd Hnl].
  assert (with_refs s (<[v := 0]> (refs_ s)) = s) as Es.
  { unfold with_refs. rewrite insert_id; [by destruct s|]. rewrite (c_refs _ _ _ _ _ H), decide_True by set_solver. f_equal. by apply (c_out _ _ _ _ _ H). }
  destruct (core_delete s [v] l [] l cnt cnt ex v (links s)) as (s' & E & Hc & Hk & Hcur & Hf); try done.
  - rewrite app_nil_r. symmetry. apply Permutation_cons_append.
  - intros w Hw. by apply elem_of_nil in Hw.
  - by apply unlink_self.
  - apply (ring_frame (fun w => next_ (links s) !! w) (fun w => prev_ (links s) !! w)); [apply H|..]; intros w Hw; apply lookup_delete_ne; intros ->; set_solver.
  - intros w Hw. by apply elem_of_nil in Hw.
  - apply (c_out _ _ _ _ _ H).
  - exists s'. rewrite Es in E. rewrite app_nil_r in Hk. by split_and!.
Qed.

(** ** Lemmas: new versions *)

Lemma core_fresh s pend l cnt ex : core s pend l cnt ex -> fresh s ∉ dummy_versions_ :: l ++ pend.
Proof. intros H Hin. pose proof (c_fresh _ _ _ _ _ H _ Hin). lia. Qed.

Lemma core_new_version s l cnt ex : core s [] l cnt ex ->
  let v := fresh s in exists s', new_version s = (v, s') /\ core s' [v] l cnt ex /\ keeps l s s' /\ current_ s' = current_ s /\ files_ s' !! v = Some (replicate num_levels []).
Proof.
  intros H v. pose proof (core_fresh _ _ _ _ _ H) as Hv. rewrite app_nil_r in Hv. fold v in Hv. unfold new_version. fold v. eexists. split; [reflexivity|].
  assert (forall (A : Type) (m : gmap nat A) (x : A) w, w <> v -> <[v := x]> m !! w = m !! w) as Hne by (intros; by apply lookup_insert_ne).
  assert (forall w, w ∈ dummy_versions_ :: l ++ [v] <-> w = v \/ w ∈ dummy_versions_ :: l ++ []) as Hmem by (intros w; rewrite app_nil_r; set_solver).
  assert (forall w, w ∈ dummy_versions_ :: l ++ [] -> w <> v) as Hold by (intros w Hw ->; by rewrite app_nil_r in Hw).
  assert (keeps l s (Mk (MkLinks (<[v := v]> (next_ (links s))) (<[v := v]> (prev_ (links s)))) (<[v := 0]> (refs_ s)) (<[v := replicate num_levels []]> (files_ s)) (metas s) (current_ s) (S v))) as Hk.
  { intros w Hw. cbn [files_ metas]. split; [|done]. apply Hne. intros ->. set_solver. }
  split_and!; [|done|done|apply lookup_insert_eq].
  split; cbn [links next_ prev_ refs_ files_ metas fresh].
  - apply (ring_frame (fun w => next_ (links s) !! w) (fun w => prev_ (links s) !! w)); [apply H|..]; intros w Hw; apply Hne; by intros ->.
  - intros w. rewrite Hmem, <- (c_next _ _ _ _ _ H). destruct (decide (w = v)) as [->|]; [rewrite lookup_insert_eq; split; eauto|]. rewrite Hne by done. naive_solver.
  - intros w. rewrite Hmem, <- (c_prev _ _ _ _ _ H). destruct (decide (w = v)) as [->|]; [rewrite lookup_insert_eq; split; eauto|]. rewrite Hne by done. naive_solver.
  - intros w. destruct (decide (w = v)) as [->|Hwv].
    + rewrite lookup_insert_eq, decide_True by (apply Hmem; auto). f_equal. symmetry. apply (c_out _ _ _ _ _ H). set_solver.
    + rewrite Hne, (c_refs _ _ _ _ _ H) by done. apply decide_ext. rewrite Hmem. tauto.
  - apply H.
  - apply H.
  - intros w ->%list_elem_of_singleton. by rewrite !lookup_insert_eq.
  - apply NoDup_singleton.
  - intros w. rewrite Hmem, <- (c_files _ _ _ _ _ H). destruct (decide (w = v)) as [->|]; [rewrite lookup_insert_eq; split; eauto|]. rewrite Hne by done. naive_solver.
  - unfold version_files. cbn [files_]. rewrite Hne; [apply H|]. intros E. apply Hv. rewrite <- E. left.
  - rewrite all_files_app, (all_files_ext l s) by (intros w Hw; by apply Hk). pose proof (c_metas _ _ _ _ _ H) as Hm. rewrite app_nil_r in Hm.
    replace (all_files _ [v]) with (@nil nat); [by rewrite app_nil_r|]. unfold all_files, version_files. cbn [map files_ concat]. by rewrite lookup_insert_eq.
  - intros w [->|Hw]%Hmem; [lia|]. pose proof (c_fresh _ _ _ _ _ H w Hw). lia.
  - intros f Hf. pose proof (c_fresh_metas _ _ _ _ _ H f Hf). lia.
Qed.

(** The end of [AppendVersion]. *)
Lemma core_link s l cnt cnt' ex v : core s [v] l cnt ex -> cnt' v = 1 -> (forall w, w <> v -> cnt' w = cnt w) ->
  exists s1 k s', Ref (with_current s (Some v)) v = Some s1 /\ link_last (links s1) v = Some k /\ s' = with_links s1 k /\
    core s' [] (l ++ [v]) cnt' ex /\ keeps (l ++ [v]) s s' /\ current_ s' = Some v.
Proof.
  intros H E1 Ew. destruct (c_pend _ _ _ _ _ H v) as (Hnl & S1 & S2); [left|].
  assert (refs_ s !! v = Some 0) as Er by (rewrite (c_refs _ _ _ _ _ H), decide_True by set_solver; f_equal; apply (c_out _ _ _ _ _ H); set_solver).
  destruct (ring_last _ _ _ _ (c_ring _ _ _ _ _ H)) as (pre & p & El & _ & [Hp1 Hp2]). cbv beta in *.
  assert (p ∈ dummy_versions_ :: l) as Hp by (rewrite El; set_solver). assert (p <> v) as Hpv by (intros ->; done). assert (dummy_versions_ <> v) as Hdv by set_solver.
  set (nx := <[p := v]> (<[v := dummy_versions_]> (next_ (links s)))). set (pv := <[dummy_versions_ := v]> (<[v := p]> (prev_ (links s)))).
  assert (link_last (links s) v = Some (MkLinks nx pv)) as Ek.
  { unfold link_last, assign. rewrite Hp2. bind_simpl. rewrite S2. bind_simpl. rewrite S1. bind_simpl. rewrite lookup_insert_eq. bind_simpl.
    rewrite lookup_insert_ne, Hp1 by done. bind_simpl. rewrite (lookup_insert_ne _ p v) by done. rewrite lookup_insert_eq. bind_simpl. rewrite lookup_insert_ne, Hp2 by done. reflexivity. }
  exists (with_refs (with_current s (Some v)) (<[v := 1]> (refs_ s))), (MkLinks nx pv). eexists. split; [unfold Ref; cbn [with_current refs_]; by rewrite Er|]. split; [exact Ek|]. split; [done|].
  split_and!; [|by intros w _|done].
  assert (forall w, w ∈ dummy_versions_ :: (l ++ [v]) ++ [] <-> w ∈ dummy_versions_ :: l ++ [v]) as Hmem by (intros w; by rewrite app_nil_r).
  assert (forall w, nx !! w = if decide (w = p) then Some v else if decide (w = v) then Some dummy_versions_ else next_ (links s) !! w) as Hnx.
  { intros w. subst nx. destruct (decide (w = p)) as [->|]; [by rewrite lookup_insert_eq|]. rewrite lookup_insert_ne by done. case_decide; [subst; by rewrite lookup_insert_eq|by rewrite lookup_insert_ne]. }
  assert (forall w, pv !! w = if decide (w = dummy_versions_) then Some v else if decide (w = v) then Some p else prev_ (links s) !! w) as Hpv'.
  { intros w. subst pv. destruct (decide (w = dummy_versions_)) as [->|]; [by rewrite lookup_insert_eq|]. rewrite lookup_insert_ne by done. case_decide; [subst; by rewrite lookup_insert_eq|by rewrite lookup_insert_ne]. }
  split; cbn [with_links with_refs with_current links next_ prev_ refs_ files_ metas fresh].
  - apply (ring_append (fun w => next_ (links s) !! w) (fun w => prev_ (links s) !! w) _ _ dummy_versions_ l v p); [apply H|done|done|intros w _; apply Hnx|intros w _; apply Hpv'].
  - intros w. rewrite Hmem, Hnx, <- (c_next _ _ _ _ _ H). repeat case_decide; subst; [rewrite Hp1; by split; eauto|rewrite S1; by split; eauto|done].
  - intros w. rewrite Hmem, Hpv', <- (c_prev _ _ _ _ _ H). repeat case_decide; subst; [rewrite Hp2; by split; eauto|rewrite S2; by split; eauto|done].
  - intros w. destruct (decide (w = v)) as [->|Hwv]; [rewrite lookup_insert_eq, decide_True by (apply Hmem; set_solver); by rewrite E1|].
    rewrite lookup_insert_ne, (c_refs _ _ _ _ _ H), Ew by done. apply decide_ext. by rewrite Hmem.
  - intros w [Hw| ->%list_elem_of_singleton]%elem_of_app; [|lia]. rewrite Ew; [by apply (c_pos _ _ _ _ _ H)|]. intros ->. set_solver.
  - intros w Hw. rewrite Ew by set_solver. apply (c_out _ _ _ _ _ H). set_solver.
  - intros w Hw. by apply elem_of_nil in Hw.
  - apply NoDup_nil_2.
  - intros w. rewrite Hmem. apply (c_files _ _ _ _ _ H).
  - apply H.
  - rewrite app_nil_r. apply (c_metas _ _ _ _ _ H).
  - intros w Hw%Hmem. by apply (c_fresh _ _ _ _ _ H).
  - apply H.
Qed.

(** ** Lemmas: the builder *)

Lemma core_ex s pend l cnt ex ex' m : core s pend l cnt ex -> metas_ok m (ex' ++ all_files s (l ++ pend)) -> (forall f, is_Some (m !! f) -> (f < fresh s)%nat) ->
  core (with_metas s m) pend l cnt ex'.
Proof. intros H Hm Hf. destruct H. split; cbn [with_metas links refs_ files_ metas fresh]; done. Qed.

Lemma core_ex_perm s pend l cnt ex ex' : core s pend l cnt ex -> ex ≡ₚ ex' -> core s pend l cnt ex'.
Proof. intros H E. destruct H. split; try done. by rewrite <- E. Qed.

Lemma core_new_files numbers : forall s pend l cnt ex, core s pend l cnt ex ->
  exists fs s', new_files s numbers = (fs, s') /\ core s' pend l cnt (fs ++ ex) /\ keeps (l ++ pend) s s' /\ files_ s' = files_ s /\ current_ s' = current_ s /\ length fs = length numbers.
Proof.
  induction numbers as [|n numbers IH]; intros s pend l cnt ex H; cbn [new_files]; [exists [], s; by split_and!; [..|apply files_keep_refl| | |]|].
  set (s1 := Mk (links s) (refs_ s) (files_ s) (<[fresh s := (n, 1)]> (metas s)) (current_ s) (S (fresh s))).
  assert (metas s !! fresh s = None) as Hnone.
  { destruct (metas s !! fresh s) eqn:E; [|done]. pose proof (c_fresh_metas _ _ _ _ _ H (fresh s) (mk_is_Some _ _ E)). lia. }
  assert (core s1 pend l cnt (fresh s :: ex)) as H1.
  { destruct H. split; subst s1; cbn [links refs_ files_ metas fresh]; try done.
    - apply new_meta_ok; done.
    - intros w Hw. apply c_fresh0 in Hw. lia.
    - intros f Hf. destruct (decide (f = fresh s)) as [->|]; [lia|]. rewrite lookup_insert_ne in Hf by done. apply c_fresh_metas0 in Hf. lia. }
  destruct (IH s1 pend l cnt _ H1) as (fs & s' & -> & Hc & Hk & Hf & Hcur & Hlen). exists (fresh s :: fs), s'. split; [done|]. split_and!; [| |done|done|cbn; congruence].
  - apply (core_ex_perm _ _ _ _ (fs ++ fresh s :: ex)); [done|]. symmetry. apply Permutation_middle.
  - eapply files_keep_trans; [|exact Hk]. intros w Hw. split; [done|]. intros f Hfw. unfold number_of. cbn [metas s1]. rewrite lookup_insert_ne; [done|]. intros <-.
    assert (is_Some (metas s !! fresh s)) as [? ?]; [|congruence]. apply (metas_ok_live _ _ _ (c_metas _ _ _ _ _ H)). apply elem_of_app. right. apply elem_of_all_files. eauto.
Qed.

Lemma concat_alter (f : nat) level (fs : list (list nat)) : (level < length fs)%nat -> concat (alter (fun l => l ++ [f]) level fs) ≡ₚ f :: concat fs.
Proof.
  revert level. induction fs as [|l fs IH]; intros [|level] Hl; cbn [length] in Hl; [lia..| |].
  - change (concat ((l ++ [f]) :: fs) ≡ₚ f :: concat (l :: fs)). cbn [concat]. rewrite <- app_assoc. cbn [app]. symmetry. apply Permutation_middle.
  - change (concat (l :: alter (fun l => l ++ [f]) level fs) ≡ₚ f :: concat (l :: fs)). cbn [concat]. rewrite IH by lia. symmetry. apply Permutation_middle.
Qed.

(** A file is saved: the version that is being built takes a reference. *)
Lemma core_add_file s l cnt ex v fs level f : core s [v] l cnt ex -> files_ s !! v = Some fs -> (level < length fs)%nat -> f ∈ ex ++ all_files s (l ++ [v]) ->
  exists s', add_file s v level f = Some s' /\ core s' [v] l cnt ex /\ keeps l s s' /\ current_ s' = current_ s /\
    files_ s' !! v = Some (alter (fun l => l ++ [f]) level fs).
Proof.
  intros H Hfs Hl Hf. unfold add_file. destruct (ref_file_ok _ _ f (c_metas _ _ _ _ _ H) Hf) as (m & -> & Hm & Hnum). bind_simpl. rewrite Hfs. bind_simpl.
  eexists. split; [reflexivity|]. destruct (c_pend _ _ _ _ _ H v) as (Hnl & _ & _); [left|]. apply not_elem_of_cons in Hnl as [Hd Hnl].
  set (s' := Mk _ _ _ _ _ _). assert (forall w, w <> v -> files_ s' !! w = files_ s !! w) as Hne by (intros; by apply lookup_insert_ne).
  assert (files_ s' !! v = Some (alter (fun l => l ++ [f]) level fs)) as Ev by apply lookup_insert_eq.
  assert (forall w, w ∈ l -> w <> v) as Hlv by (intros w Hw ->; done).
  split_and!; [| |done|done].
  - pose proof H as H'. destruct H. split; try done.
    + intros w. rewrite <- c_files0. destruct (decide (w = v)) as [->|]; [rewrite Ev, Hfs; by split; eauto|by rewrite Hne].
    + unfold version_files. by rewrite Hne.
    + cbn [metas s']. rewrite all_files_app, (all_files_ext l s) by auto. unfold all_files at 2. cbn [map concat]. unfold version_files. rewrite Ev. cbn [from_option id].
      rewrite app_nil_r, concat_alter by done. rewrite all_files_app in Hm. unfold all_files at 2 in Hm. cbn [map concat] in Hm. unfold version_files in Hm. rewrite Hfs, app_nil_r in Hm.
      cbn [from_option id] in Hm |- *. rewrite <- Permutation_middle, <- Permutation_middle. exact Hm.
    + intros g Hg. apply c_fresh_metas0. pose proof (Hnum g) as En. unfold number_of in En. destruct Hg as [[? ?] Eg]. cbn [metas s'] in Eg. rewrite Eg in En. by destruct (metas s !! g).
  - intros w Hw. split; [by apply Hne, Hlv|]. intros g _. apply Hnum.
Qed.

Lemma core_SaveTo saved : forall s l cnt ex v fs, core s [v] l cnt ex -> files_ s !! v = Some fs ->
  Forall (fun f => (f.1 < length fs)%nat /\ f.2 ∈ ex ++ all_files s l) saved ->
  exists s', SaveTo_files s v saved = Some s' /\ core s' [v] l cnt ex /\ keeps l s s' /\ current_ s' = current_ s.
Proof.
  induction saved as [|[level f] saved IH]; intros s l cnt ex v fs H Hfs Hall; cbn [SaveTo_files]; [exists s; by split_and!; [..|apply files_keep_refl|]|].
  apply Forall_cons in Hall as [[Hl Hf] Hall]. cbn [fst snd] in *.
  destruct (core_add_file s l cnt ex v fs level f H Hfs Hl) as (s1 & -> & H1 & K1 & C1 & F1); [rewrite all_files_app; set_solver|]. bind_simpl.
  destruct (IH s1 l cnt ex v _ H1 F1) as (s2 & -> & H2 & K2 & C2).
  - eapply Forall_impl; [exact Hall|]. intros [lv g] [? Hg]. rewrite length_alter. split; [done|]. cbn [snd] in *. rewrite (all_files_ext l s); [done|]. intros w Hw. by apply K1.
  - exists s2. split; [done|]. split; [done|]. split; [by eapply files_keep_trans|congruence].
Qed.

(** The counts with a reference to [v] more, or less. *)
Definition plus (cnt : nat -> Z) (v : nat) (d : Z) (w : nat) : Z := if decide (w = v) then cnt v + d else cnt w.

Lemma core_ext s pend l cnt cnt' ex : core s pend l cnt ex -> (forall w, cnt' w = cnt w) -> core s pend l cnt' ex.
Proof.
  intros H E. destruct H. split; try done.
  - intros v. by rewrite E.
  - intros v. rewrite E. auto.
  - intros v. rewrite E. auto.
Qed.

Lemma core_pick s l saved (numbers : list Z) (added : list nat) base : base ∈ l -> length added = length numbers ->
  Forall (fun f : nat * (nat + nat) => (f.1 < num_levels)%nat /\ match f.2 with inl a => a ∈ version_files s base | inr i => (i < length numbers)%nat end) saved ->
  exists fs, mapM (fun '(level, f) => f ← resolve added f; Some (level, f)) saved = Some fs /\
    Forall (fun f => (f.1 < num_levels)%nat /\ f.2 ∈ added ++ all_files s l) fs.
Proof.
  intros Hb Hlen. induction 1 as [|[level f] saved [Hl Hf] _ (fs & E & Hfs)]; [by exists []|]. cbn [fst snd] in *. cbn [mapM].
  assert (exists g, resolve added f = Some g /\ g ∈ added ++ all_files s l) as (g & Eg & Hg).
  { destruct f as [a|i]; cbn [resolve].
    - exists a. split; [done|]. apply elem_of_app. right. apply elem_of_all_files. eauto.
    - rewrite <- Hlen in Hf. apply lookup_lt_is_Some in Hf as [g Eg]. exists g. split; [done|]. apply elem_of_app. left. by apply list_elem_of_lookup_2 in Eg. }
  rewrite Eg. bind_simpl. exists ((level, g) :: fs). split; [|by constructor]. change (mbind ?F ?m) with (m ≫= F). rewrite E. reflexivity.
Qed.

(** [LogAndApply] up to the end of the builder. *)
Lemma core_build s l cnt cur numbers saved : core s [] l cnt [] -> current_ s = Some cur -> cur ∈ l ->
  Forall (fun f : nat * (nat + nat) => (f.1 < num_levels)%nat /\ match f.2 with inl a => a ∈ version_files s cur | inr i => (i < length numbers)%nat end) saved ->
  exists s' l', build s numbers saved = Some (fresh s, s') /\ core s' [fresh s] l' cnt [] /\ (forall w, w ∈ l' <-> w ∈ l) /\ keeps l s s' /\ current_ s' = Some cur.
Proof.
  intros H Hcur Hin Hall. unfold build. set (v := fresh s). destruct (core_new_version s l cnt [] H) as (s1 & -> & H1 & K1 & C1 & V1). fold v in H1, V1 |- *. rewrite C1, Hcur. bind_simpl.
  destruct (core_Ref s1 [v] l cnt (plus cnt cur 1) [] cur H1 Hin) as (s2 & -> & H2 & K2 & C2 & F2); [unfold plus; by rewrite decide_True|intros w Hw; unfold plus; by rewrite decide_False|]. bind_simpl.
  destruct (core_new_files numbers s2 [v] l _ [] H2) as (added & s3 & -> & H3 & K3 & F3 & C3 & Hlen). rewrite app_nil_r in H3.
  assert (l ⊆ l ++ [v]) as Hsub by set_solver. apply (keeps_sub _ l _ _ Hsub) in K2, K3.
  pose proof (files_keep_trans _ _ _ _ (files_keep_trans _ _ _ _ K1 K2) K3) as K.
  destruct (core_pick s3 l saved numbers added cur Hin Hlen) as (fs & -> & Hfs).
  { eapply Forall_impl; [exact Hall|]. intros [lv [a|i]]; cbn [fst snd]; [|done]. intros [? Ha]. split; [done|]. unfold version_files in *. by rewrite (proj1 (K cur Hin)). }
  bind_simpl. assert (files_ s3 !! v = Some (replicate num_levels [])) as Ev by congruence.
  destruct (core_SaveTo fs s3 l _ added v _ H3 Ev) as (s4 & -> & H4 & K4 & C4); [by rewrite length_replicate|]. bind_simpl.
  destruct (unref_files_ok false _ _ _ (c_metas _ _ _ _ _ H4)) as (m & -> & Hm & Hnum). bind_simpl.
  assert (core (with_metas s4 m) [v] l (plus cnt cur 1) []) as H5.
  { apply (core_ex s4 [v] l _ added [] m H4 Hm). intros f Hf. apply (c_fresh_metas _ _ _ _ _ H4). apply (metas_ok_live _ _ f Hm) in Hf.
    apply (metas_ok_live _ _ f (c_metas _ _ _ _ _ H4)). apply elem_of_app. by right. }
  destruct (core_Unref (with_metas s4 m) [v] l _ cnt [] cur H5 Hin) as (s6 & l' & -> & H6 & Hl' & K6 & C6 & _).
  { unfold plus. rewrite decide_True by done. lia. }
  { intros w Hw. unfold plus. by rewrite decide_False. }
  bind_simpl. exists s6, l'. split; [done|]. split; [done|]. assert (forall w, w ∈ l' <-> w ∈ l) as Hmem.
  { intros w. rewrite Hl'. split; [tauto|]. intros Hw. split; [done|]. by apply (c_pos _ _ _ _ _ H). }
  split; [done|]. split; [|rewrite C6; cbn [with_metas current_]; congruence].
  eapply files_keep_trans; [exact K|]. eapply files_keep_trans; [exact K4|]. eapply (files_keep_trans _ _ (with_metas s4 m)).
  - intros w Hw. split; [done|]. intros f Hf. apply Hnum. rewrite all_files_app. apply elem_of_app. left. apply elem_of_all_files. eauto.
  - eapply keeps_sub; [|exact K6]. intros w Hw. apply elem_of_app. left. by apply Hmem.
Qed.

(** The new version becomes current; the old one may go. *)
Lemma core_append s l cnt cnt' cur v : core s [v] l cnt [] -> current_ s = Some cur -> cur ∈ l -> (forall w, cnt' w = plus (plus cnt cur (-1)) v 1 w) ->
  exists s' l', AppendVersion s v = Some s' /\ core s' [] (l' ++ [v]) cnt' [] /\ (forall w, w ∈ l' <-> w ∈ l /\ 0 < plus cnt cur (-1) w) /\ keeps (l' ++ [v]) s s' /\ current_ s' = Some v.
Proof.
  intros H Hcur Hin E. destruct (c_pend _ _ _ _ _ H v) as (Hnl & _ & _); [left|]. apply not_elem_of_cons in Hnl as [Hd Hnl].
  assert (v <> cur) as Hne by (by intros ->). unfold AppendVersion. rewrite (c_refs _ _ _ _ _ H), decide_True by set_solver. bind_simpl.
  rewrite (c_out _ _ _ _ _ H) by done. change (negb (0 =? 0)) with false. rewrite Hcur, bool_decide_eq_false_2 by congruence. cbn [orb].
  destruct (core_Unref s [v] l cnt (plus cnt cur (-1)) [] cur H Hin) as (s1 & l' & -> & H1 & Hl' & K1 & C1 & _).
  { unfold plus. rewrite decide_True by done. lia. }
  { intros w Hw. unfold plus. by rewrite decide_False. }
  bind_simpl. destruct (core_link s1 l' _ (plus (plus cnt cur (-1)) v 1) [] v H1) as (s2 & k & s3 & -> & Ek & -> & H3 & K3 & C3).
  { unfold plus. rewrite decide_True, decide_False by done. rewrite (c_out _ _ _ _ _ H) by done. done. }
  { intros w Hw. unfold plus at 1. by rewrite decide_False. }
  bind_simpl. rewrite Ek. bind_simpl. eexists _, l'. split; [reflexivity|]. split; [by eapply core_ext|]. split; [done|]. split; [|done].
  by eapply files_keep_trans.
Qed.

(** [AddLiveFiles] walks the list. *)
Lemma file_numbers_ok m fs : (forall f, f ∈ fs -> is_Some (m !! f)) -> exists ns, file_numbers m fs = Some ns /\ forall n, n ∈ ns <-> exists f, f ∈ fs /\ number_of m f = Some n.
Proof.
  unfold file_numbers, number_of. induction fs as [|f fs IH]; intros H; cbn [mapM].
  - exists []. split; [done|]. intros n. split; [by intros ?%elem_of_nil|]. intros (f & ?%elem_of_nil & _). done.
  - destruct (H f) as [[n r] E]; [left|]. rewrite E. bind_simpl. destruct IH as (ns & En & Hns); [intros g Hg; apply H; by right|].
    cbn [fmap option_fmap option_map fst]. bind_simpl. exists (n :: ns). split; [by rewrite En|]. intros n'. rewrite elem_of_cons, Hns. split.
    + intros [->|(g & Hg & Eg)]; [exists f; rewrite E; by split; [left|]|exists g; by split; [right|]].
    + intros (g & [->|Hg]%elem_of_cons & Eg); [left; rewrite E in Eg; cbn in Eg; congruence|right; eauto].
Qed.

Lemma AddLiveFiles_loop_ok s rest : forall fuel v live, (length (v :: rest) <= S fuel)%nat -> chain (fun w => next_ (links s) !! w) (fun w => prev_ (links s) !! w) (v :: rest) ->
  last (v :: rest) = Some dummy_versions_ -> NoDup (v :: rest) ->
  (forall w, w ∈ removelast (v :: rest) -> is_Some (files_ s !! w) /\ forall f, f ∈ version_files s w -> is_Some (metas s !! f)) ->
  exists live', AddLiveFiles_loop fuel s v live = Some live' /\
    forall n, n ∈ live' <-> n ∈ live \/ exists w f, w ∈ removelast (v :: rest) /\ f ∈ version_files s w /\ number_of (metas s) f = Some n.
Proof.
  induction rest as [|w rest IH]; intros fuel v live Hf Hc Hlast Hnd Hall.
  - cbn in Hlast. injection Hlast as ->. exists live. split; [by destruct fuel|]. intros n. cbn. split; [auto|]. intros [?|(w & f & ?%elem_of_nil & _)]; done.
  - assert (v <> dummy_versions_) as Hv.
    { intros ->. apply NoDup_cons in Hnd as [Hnd _]. apply Hnd. rewrite last_cons_cons in Hlast. by apply last_Some_elem_of. }
    destruct fuel as [|fuel]; [cbn in Hf; lia|]. cbn [AddLiveFiles_loop]. rewrite (proj2 (Nat.eqb_neq _ _) Hv).
    destruct (Hall v) as [[fs Efs] Hm]; [left|]. rewrite Efs. bind_simpl. unfold version_files in Hm. rewrite Efs in Hm.
    destruct (file_numbers_ok (metas s) (concat fs) Hm) as (ns & -> & Hns). bind_simpl. destruct Hc as [[E1 _] Hc]. cbv beta in E1. rewrite E1. bind_simpl.
    destruct (IH fuel w (live ∪ list_to_set ns)) as (live' & E & Hl); [cbn [length] in *; lia|done|done|by apply NoDup_cons in Hnd as [_ ?]|intros u Hu; apply Hall; by right|].
    exists live'. split; [done|]. intros n. rewrite Hl, elem_of_union, elem_of_list_to_set, Hns. change (removelast (v :: w :: rest)) with (v :: removelast (w :: rest)). split.
    + intros [[?|(f & Hf' & En)]|(u & f & Hu & ? & ?)]; [auto|right; exists v, f; unfold version_files; rewrite Efs; by split; [left|]|right; exists u, f; by split; [right|]].
    + intros [?|(u & f & [->|Hu]%elem_of_cons & Hf' & En)]; [auto|left; right; exists f; unfold version_files in Hf'; rewrite Efs in Hf'; by split|right; eauto].
Qed.

(** ** Lemmas: reachable states *)

(** Who refers to a version. *)
Definition in_use (x : state) (v : nat) : Prop := current_ (set_ x) = Some v \/ v ∈ held x.

Definition count (x : state) (v : nat) : Z := occ v (held x) + (if decide (current_ (set_ x) = Some v) then 1 else 0).

Definition inv (x : state) (l : list nat) : Prop :=
  core (set_ x) (option_list (pending x)) l (count x) [] /\ exists c, current_ (set_ x) = Some c /\ c ∈ l.

Lemma inv_in_use x l v : inv x l -> v ∈ l <-> in_use x v.
Proof.
  intros [H _]. assert (v ∈ l <-> 0 < count x v) as ->.
  { split; [apply (c_pos _ _ _ _ _ H)|]. intros Hp. destruct (decide (v ∈ l)) as [|Hv]; [done|]. rewrite (c_out _ _ _ _ _ H) in Hp by done. lia. }
  unfold in_use, count. rewrite <- occ_pos. pose proof (occ_nonneg v (held x)). case_decide; [split; [by left|lia]|]. split; [intros; right; lia|]. intros [?|?]; [done|lia].
Qed.

Lemma new_inv : exists s l, new = Some s /\ inv (MkState s None []) l.
Proof.
  set (s0 := Mk (MkLinks {[dummy_versions_ := dummy_versions_]} {[dummy_versions_ := dummy_versions_]}) {[dummy_versions_ := 0]} {[dummy_versions_ := replicate num_levels []]} ∅ None 1).
  assert (forall v, v ∈ dummy_versions_ :: [] ++ [] <-> v = dummy_versions_) as Hmem by (intros v; cbn [app]; apply list_elem_of_singleton).
  assert (forall (A : Type) (a : A) v, is_Some (({[dummy_versions_ := a]} : gmap nat A) !! v) <-> v = dummy_versions_) as Hs.
  { intros A a v. destruct (decide (v = dummy_versions_)) as [->|]; [rewrite lookup_singleton_eq; by split; eauto|rewrite lookup_singleton_ne by done; split; [by intros [? ?]|done]]. }
  assert (core s0 [] [] (fun _ => 0) []) as H0.
  { split; subst s0; cbn [links next_ prev_ refs_ files_ metas fresh]; try (intros v; rewrite Hmem; apply Hs); try done.
    - split; [|apply NoDup_singleton]. cbn [app chain]. unfold link. by rewrite !lookup_singleton_eq.
    - intros v. destruct (decide (v = dummy_versions_)) as [->|]; [by rewrite lookup_singleton_eq, decide_True by (by apply Hmem)|].
      rewrite lookup_singleton_ne, decide_False by (done || by rewrite Hmem). done.
    - intros v ?%elem_of_nil. done.
    - intros v ?%elem_of_nil. done.
    - apply NoDup_nil_2.
    - intros v ->%Hmem. unfold dummy_versions_. lia.
    - intros f [? Hf]. done. }
  destruct (core_new_version s0 [] (fun _ => 0) [] H0) as (s1 & E1 & H1 & _ & C1 & _). set (v := fresh s0) in *.
  destruct (core_link s1 [] _ (plus (fun _ => 0) v 1) [] v H1) as (s2 & k & s3 & E2 & Ek & E3 & H3 & _ & C3).
  { unfold plus. by rewrite decide_True. }
  { intros w Hw. unfold plus. by rewrite decide_False. }
  exists s3, [v]. split.
  - unfold new. fold s0. rewrite E1. unfold AppendVersion. rewrite (c_refs _ _ _ _ _ H1), decide_True by set_solver. bind_simpl. rewrite C1. cbn [current_ s0].
    rewrite bool_decide_eq_false_2 by done. change (negb (0 =? 0) || false) with false. bind_simpl. rewrite E2. bind_simpl. rewrite Ek. bind_simpl. by rewrite E3.
  - split; [|exists v; cbn [set_]; split; [done|left]]. cbn [set_ pending option_list]. apply (core_ext _ _ _ _ _ _ H3). intros w. unfold count, plus. cbn [held occ set_]. rewrite C3.
    repeat case_decide; try lia; congruence.
Qed.

(** What versions that are there before and after keep. *)
Definition same_files (x x' : state) (v : nat) : Prop := keeps [v] (set_ x) (set_ x').

Lemma keeps_at vs s s' v : keeps vs s s' -> v ∈ vs -> keeps [v] s s'.
Proof. intros H Hv. eapply keeps_sub; [|exact H]. intros w ->%list_elem_of_singleton. done. Qed.

Lemma step_ok x l o : inv x l -> legal x o ->
  exists x' l', step x o = Some x' /\ inv x' l' /\
    forall v, v ∈ l ++ option_list (pending x) -> v ∈ l' ++ option_list (pending x') -> same_files x x' v.
Proof.
  intros [H (c & Hc & Hcl)] Hlegal. destruct x as [s p hs]. cbn [set_ pending held] in *. destruct o as [|v|numbers saved| |]; cbn [step legal set_ pending held] in *.
  - destruct (core_Ref s _ l _ (count (MkState s p (c :: hs))) [] c H Hcl) as (s' & E & H' & K & C & _).
    { unfold count. cbn [held set_ occ]. rewrite decide_True by done. lia. }
    { intros w Hw. unfold count. cbn [held set_ occ]. rewrite (decide_False (P := w = c)) by done. lia. }
    rewrite Hc. bind_simpl. rewrite E. bind_simpl. exists (MkState s' p (c :: hs)), l. split; [done|]. split.
    + split; cbn [set_ pending]; [|exists c; by rewrite C]. apply (core_ext _ _ _ _ _ _ H'). intros w. unfold count. cbn [set_ held]. by rewrite C.
    + intros v Hv _. by eapply keeps_at.
  - assert (v ∈ l) as Hv by (apply (inv_in_use (MkState s p hs) l); [split; eauto|by right]).
    destruct (core_Unref s _ l _ (count (MkState s p (remove_one v hs))) [] v H Hv) as (s' & l' & E & H' & Hl' & K & C & _).
    { unfold count. cbn [held set_]. rewrite occ_remove_one, decide_True by done. lia. }
    { intros w Hw. unfold count. cbn [held set_]. rewrite occ_remove_one, decide_False by done. lia. }
    rewrite E. bind_simpl. exists (MkState s' p (remove_one v hs)), l'. split; [done|]. split.
    + split; cbn [set_ pending].
      * apply (core_ext _ _ _ _ _ _ H'). intros w. unfold count. cbn [set_ held]. by rewrite C.
      * exists c. rewrite C. split; [done|]. apply Hl'. split; [done|]. unfold count. cbn [set_ held]. rewrite (decide_True (P := current_ s = Some c)) by done. pose proof (occ_nonneg c (remove_one v hs)). lia.
    + intros w _ Hw. by eapply keeps_at.
  - destruct Hlegal as [-> Hall]. cbn [option_list] in H. destruct (core_build s l _ c numbers saved H Hc Hcl) as (s' & l' & E & H' & Hl' & K & C).
    { eapply Forall_impl; [exact Hall|]. intros [lv [a|i]]; cbn [fst snd]; [|done]. intros [? (c' & Hc' & Ha)]. split; [done|]. congruence. }
    rewrite E. bind_simpl. exists (MkState s' (Some (fresh s)) hs), l'. split; [done|]. split.
    + split; cbn [set_ pending]; [|exists c; by rewrite C, Hl']. apply (core_ext _ _ _ _ _ _ H'). intros w. unfold count. cbn [set_ held]. by rewrite C, Hc.
    + cbn [option_list pending]. rewrite app_nil_r. intros v Hv _. by eapply keeps_at.
  - destruct p as [v|]; [|done]. cbn [option_list] in H. destruct (core_append s l _ (plus (plus (count (MkState s (Some v) hs)) c (-1)) v 1) c v H Hc Hcl) as (s' & l' & E & H' & Hl' & K & C); [done|].
    bind_simpl. rewrite E. bind_simpl. exists (MkState s' None hs), (l' ++ [v]). split; [done|]. split.
    + split; cbn [set_ pending]; [|exists v; rewrite C; split; [done|set_solver]]. apply (core_ext _ _ _ _ _ _ H'). intros w. unfold count, plus. cbn [set_ held]. rewrite C, Hc.
      destruct (c_pend _ _ _ _ _ H v) as (Hnl & _ & _); [left|]. assert (v <> c) by (intros ->; set_solver). repeat case_decide; subst; try congruence; lia.
    + cbn [option_list pending]. rewrite app_nil_r. intros w _ Hw. by eapply keeps_at.
  - destruct p as [v|]; [|done]. cbn [option_list] in H. destruct (core_discard s l _ [] v H) as (s' & E & H' & K & C & _).
    bind_simpl. rewrite E. bind_simpl. exists (MkState s' None hs), l. split; [done|]. split.
    + split; cbn [set_ pending]; [|exists c; by rewrite C]. apply (core_ext _ _ _ _ _ _ H'). intros w. unfold count. cbn [set_ held]. by rewrite C.
    + cbn [option_list pending]. rewrite app_nil_r. intros w _ Hw. by eapply keeps_at.
Qed.

Lemma refs_reach_inv x : reach x -> exists l, inv x l.
Proof.
  induction 1 as [s E|x o x' _ [l IH] Hl E]; [destruct new_inv as (s' & l & E' & H); exists l; congruence|].
  destruct (step_ok x l o IH Hl) as (x'' & l' & E' & H & _). exists l'. congruence.
Qed.

Lemma AddLiveFiles_ok x l live : inv x l -> exists live', AddLiveFiles (set_ x) live = Some live' /\
  forall n, n ∈ live' <-> n ∈ live \/ exists v f, v ∈ l /\ f ∈ version_files (set_ x) v /\ number_of (metas (set_ x)) f = Some n.
Proof.
  intros [H _]. set (s := set_ x) in *. pose proof (c_ring _ _ _ _ _ H) as [Hc Hnd]. pose proof (ring_first _ _ _ _ (c_ring _ _ _ _ _ H)) as E. cbv beta in E.
  unfold AddLiveFiles. rewrite E. bind_simpl. assert (exists rest, l ++ [dummy_versions_] = default dummy_versions_ (head l) :: rest) as [rest El] by (destruct l; cbn; eauto).
  assert (length l <= size (refs_ s))%nat as Hsize.
  { rewrite <- size_dom. etransitivity; [|apply subseteq_size; intros v Hv; exact Hv]. apply NoDup_cons in Hnd as [_ Hnd]. rewrite <- (size_list_to_set (C := gset nat) l Hnd).
    apply subseteq_size. intros v Hv%elem_of_list_to_set. apply elem_of_dom. rewrite (c_refs _ _ _ _ _ H), decide_True by set_solver. eauto. }
  destruct (AddLiveFiles_loop_ok s rest (size (refs_ s)) (default dummy_versions_ (head l)) live) as (live' & Ea & Hl).
  - rewrite <- El, length_app. cbn [length]. lia.
  - rewrite <- El. destruct l as [|a l]; [done|]. by destruct Hc as [_ Hc].
  - rewrite <- El. by rewrite last_snoc.
  - rewrite <- El. rewrite <- Permutation_cons_append. exact Hnd.
  - rewrite <- El, removelast_last. intros w Hw. split; [apply (c_files _ _ _ _ _ H); set_solver|]. intros f Hf. apply (metas_ok_live _ _ f (c_metas _ _ _ _ _ H)).
    cbn [app]. apply elem_of_all_files. exists w. split; [set_solver|done].
  - exists live'. split; [done|]. intros n. rewrite Hl, <- El, removelast_last. done.
Qed.

Lemma versions_destroy_ok x l : inv x l -> pending x = None -> held x = [] ->
  exists s', destroy (set_ x) = Some s' /\ metas s' = ∅ /\ forall v, is_Some (refs_ s' !! v) <-> v = dummy_versions_.
Proof.
  intros Hi Hp Hh. pose proof (inv_in_use x l) as Hu. destruct Hi as [H (c & Hc & Hcl)]. rewrite Hp in H. cbn [option_list] in H.
  assert (forall v, v ∈ l -> v = c) as Hone. { intros v Hv. apply Hu in Hv as [?|Hv]; [congruence| |split; [by rewrite Hp|eauto]]. rewrite Hh in Hv. by apply elem_of_nil in Hv. }
  unfold destroy. rewrite Hc. bind_simpl. destruct (core_Unref (set_ x) [] l (count x) (plus (count x) c (-1)) [] c H Hcl) as (s' & l' & -> & H' & Hl' & _).
  { unfold plus. rewrite decide_True by done. lia. }
  { intros w Hw. unfold plus. by rewrite decide_False. }
  bind_simpl. assert (l' = []) as ->.
  { apply elem_of_nil_inv. intros v Hv. apply Hl' in Hv as [Hv Hpos]. apply Hone in Hv as ->. unfold plus, count in Hpos. rewrite Hh in Hpos. cbn [occ] in Hpos. rewrite !decide_True in Hpos by done. lia. }
  pose proof (ring_first _ _ _ _ (c_ring _ _ _ _ _ H')) as E. cbv beta in E. rewrite E. bind_simpl. cbn [default head from_option id]. rewrite Nat.eqb_refl. exists s'. split; [done|]. split.
  - apply map_eq. intros f. rewrite lookup_empty. pose proof (metas_ok_live _ _ f (c_metas _ _ _ _ _ H')) as Hf. cbn [app all_files map concat] in Hf.
    destruct (metas s' !! f) eqn:Ef; [|done]. destruct Hf as [Hf _]. specialize (Hf ltac:(eauto)). by apply elem_of_nil in Hf.
  - intros v. rewrite (c_refs _ _ _ _ _ H'). cbn [app]. case_decide as Hv; [apply list_elem_of_singleton in Hv; split; eauto|]. split; [by intros [? ?]|intros ->; set_solver].
Qed.

(** Sequences whose operations are checked to be legal. *)
Definition legalb (x : state) (o : op) : bool :=
  match o with
  | Acquire => true
  | Release v => bool_decide (v ∈ held x)
  | Build numbers saved => bool_decide (pending x = None) &&
      forallb (fun f => (f.1 <? num_levels)%nat &&
        match f.2 with
        | inl a => match current_ (set_ x) with Some c => bool_decide (a ∈ version_files (set_ x) c) | None => false end
        | inr i => (i <? length numbers)%nat
        end) saved
  | Install | Discard => negb (bool_decide (pending x = None))
  end.

Lemma legalb_ok x o : legalb x o = true -> legal x o.
Proof.
  destruct o as [|v|numbers saved| |]; cbn [legalb legal]; [done|apply bool_decide_eq_true| |rewrite negb_true_iff; apply bool_decide_eq_false..].
  intros [H1%bool_decide_eq_true H2]%andb_true_iff. split; [done|]. rewrite forallb_forall in H2. apply Forall_forall. intros f Hf%list_elem_of_In%H2.
  apply andb_true_iff in Hf as [Hl%Nat.ltb_lt Hf]. split; [done|]. destruct f.2; [|by apply Nat.ltb_lt]. destruct (current_ (set_ x)) as [c|]; [|done]. exists c. split; [done|]. by apply bool_decide_eq_true in Hf.
Qed.

Fixpoint run_legal (x : state) (os : list op) : option state :=
  match os with
  | [] => Some x
  | o :: os => if legalb x o then x ← step x o; run_legal x os else None
  end.

Lemma run_legal_reach os : forall x x', reach x -> run_legal x os = Some x' -> reach x'.
Proof.
  induction os as [|o os IH]; intros x x' Hx; cbn [run_legal]; [congruence|]. destruct (legalb x o) eqn:El; [|done].
  destruct (step x o) as [y|] eqn:E; [|done]. cbn [mbind option_bind]. apply IH. eapply reach_step; [exact Hx|by apply legalb_ok|exact E].
Qed.

(** ** Properties *)

(** C24: Versions and their files live exactly as long as they are used.  In every
    state that legal operations reach, each further one runs without a failed
    assertion or an access to freed memory, and leaves the files of surviving
    versions, with their numbers, alone.  Exactly the versions that are current,
    held or being installed are allocated, and exactly their files;
    [AddLiveFiles] adds the numbers of all files of the current and the held
    versions.  When nothing is held the destructor of the set frees everything. *)
Theorem VersionRefs_safe (x : state) : reach x ->
  let live v := in_use x v \/ pending x = Some v in
  (forall o, legal x o -> exists x', step x o = Some x' /\
     forall v, live v -> in_use x' v \/ pending x' = Some v -> same_files x x' v) /\
  (forall v, is_Some (refs_ (set_ x) !! v) <-> v = dummy_versions_ \/ live v) /\
  (forall f, is_Some (metas (set_ x) !! f) <-> exists v, live v /\ f ∈ version_files (set_ x) v) /\
  (forall ns, exists ns', AddLiveFiles (set_ x) ns = Some ns' /\
     forall n, n ∈ ns' <-> n ∈ ns \/ exists v f, in_use x v /\ f ∈ version_files (set_ x) v /\ number_of (metas (set_ x)) f = Some n) /\
  (pending x = None -> held x = [] ->
     exists s', destroy (set_ x) = Some s' /\ metas s' = ∅ /\ forall v, is_Some (refs_ s' !! v) <-> v = dummy_versions_).
Proof.
  intros [l Hi]%refs_reach_inv live. subst live. pose proof (fun v => inv_in_use x l v Hi) as Hu. pose proof Hi as [H _].
  assert (forall x l, inv x l -> forall v, v ∈ l ++ option_list (pending x) <-> in_use x v \/ pending x = Some v) as Hlive.
  { intros y k Hy v. rewrite elem_of_app, (inv_in_use y k v Hy). destruct (pending y) as [w|].
    - change (option_list (Some w)) with [w]. rewrite list_elem_of_singleton. by split; (intros [?|E]; [left|right; congruence]).
    - change (option_list None) with (@nil nat). rewrite elem_of_nil. by split; intros [?|?]; [left| |left|]. }
  split_and!.
  - intros o Ho. destruct (step_ok x l o Hi Ho) as (x' & l' & E & Hi' & K). exists x'. split; [done|]. intros v Hv Hv'. apply K; by apply Hlive.
  - intros v. rewrite (c_refs _ _ _ _ _ H). rewrite <- (Hlive x l Hi v), <- elem_of_cons. case_decide; [by split; eauto|by split; [intros [? ?]|]].
  - intros f. rewrite (metas_ok_live _ _ f (c_metas _ _ _ _ _ H)). cbn [app]. rewrite elem_of_all_files. by setoid_rewrite (Hlive x l Hi).
  - intros ns. destruct (AddLiveFiles_ok x l ns Hi) as (ns' & E & Hn). exists ns'. split; [done|]. intros n. rewrite Hn. by setoid_rewrite Hu.
  - by apply (versions_destroy_ok x l).
Qed.

Lemma VersionRefs_safe_witness :
  exists x ns, match new with Some s => run_legal (MkState s None []) sample_ops | None => None end = Some x /\ held x = [2%nat] /\
    AddLiveFiles (set_ x) ∅ = Some ns /\ forall n, n ∈ ns <-> n ∈ (∅ : gset Z) \/ exists v f, in_use x v /\ f ∈ version_files (set_ x) v /\ number_of (metas (set_ x)) f = Some n.
Proof.
  assert (match match new with Some s => run_legal (MkState s None []) sample_ops | None => None end with Some x => bool_decide (held x = [2%nat]) | None => false end = true) as Hrun
    by (vm_compute; reflexivity).
  destruct new as [s|] eqn:En; [|discriminate]. destruct (run_legal _ _) as [x|] eqn:Ex; [|discriminate].
  destruct (VersionRefs_safe x (run_legal_reach _ _ _ (reach_new s En) Ex)) as (_ & _ & _ & Hlive & _).
  destruct (Hlive ∅) as (ns & E & Hn). exists x, ns. apply bool_decide_eq_true in Hrun. by split_and!.
Defined.
